(* ===== verification/_CoqProject ===== *)
-Q . S2P
Prelude.v
Wire.v
Fields.v
Float64.v
Geometry.v
Codecs.v
SceneCodec.v
AnnotationsCodec.v
Json.v
WidgetEvents.v
WidgetData.v
WidgetReadback.v
PluginDso.v
PluginCatalog.v
RuntimeCatalog.v
CatalogDemo.v
Types.v
Buffer.v
Encoding.v
Column.v
Chunk.v
Query.v
Series.v
TopicStorage.v
ObjectStore.v
Holders.v
TypeTree.v
TypeRegistry.v
Engine.v
Writer.v
Ingest.v
Layout.v
WriterState.v
Reader.v
Records.v
Host.v
HostState.v
HostLog.v
HostRun.v
HostDemo.v
HostCatalog.v
ObjectHost.v
ObjectRun.v
Sdk.v
SdkRecords.v
SdkObjects.v
SdkCatalog.v
MediaMetadata.v
ArrowImport.v
ArrowHost.v
ArrowDemo.v
SeriesArrow.v
SeriesView.v
Derived.v
DerivedRun.v
DerivedGraph.v
DerivedOrder.v
DerivedSchedule.v
DerivedSiso.v
DerivedJoin.v
Settings.v
Services.v
PluginCalls.v
ParserBase.v
DataSource.v
SourceRun.v
Toolbox.v
DialogBase.v
Handles.v
