(* ===== verification/Prelude.v ===== *)
(** * Verification of the PlotJuggler core

    The core of PlotJuggler stores time series that plugins ingest, answers
    queries over them, derives further series, and speaks a protobuf wire format
    for the objects it exchanges.  This library models that code, in the order
    the program is layered, and proves what each layer promises to the next.
    Paths are relative to the repository, under [src/].

    ** The parts and their files

    - This file: bytes, fixed-width integers, lists and maps, notations, hints
      and tactics.
    - [Wire], [Fields], [Float64], [Geometry], [Codecs], [SceneCodec],
      [AnnotationsCodec]: the wire format
      ([pj_base/src/builtin/protobuf_wire.hpp]), the blocks of a field handler,
      [double] arithmetic, the shared messages ([geometry_codec.hpp]) and the
      codecs of the builtin objects ([*_codec.cpp]), scenes and image annotations
      in files of their own.  Each codec reads back what it writes;
      [Fields.WireMessage] is the interface a message type offers to the messages
      that contain it.
    - [Json], [WidgetEvents], [WidgetData], [WidgetReadback]: the dialogs of
      plugins ([pj_plugins/dialog_protocol/]), which host and plugin exchange as
      JSON: events and their dispatch, contents and their getters.  The JSON
      library is not in the repository: a JSON value is an inductive type, its
      text an abstract type with the round trip of the class [JsonTextLaws].
    - [PluginDso], [PluginCatalog], [RuntimeCatalog], [CatalogDemo]: the libraries
      of plugins ([pj_plugins/src/]): the checks before one is used, the scan of a
      directory, the catalog of what is loaded and its reload, and a directory
      with everything in it.  The file system, [dlopen] and [dlsym] are
      parameters.
    - [Types], [Buffer], [Encoding], [Column], [Chunk]: a topic in memory
      ([pj_datastore/src/buffer.cpp], [encoding.cpp], [column_buffer.cpp],
      [chunk.cpp]).  A builder takes rows, [seal] chooses an encoding per column,
      and a sealed chunk reads back the rows that were written.
    - [Query], [Series]: cursors over sealed chunks ([query.cpp]), against the
      list of the rows or samples of the topic.
    - [TopicStorage], [ObjectStore]: the sealed chunks of a topic
      ([topic_storage.cpp]) and the store of opaque objects ([object_store.cpp]),
      as transition systems with invariants.
    - [TypeTree], [TypeRegistry]: schemas, the columns they stand for, and their
      evolution ([type_tree.cpp], [type_registry.cpp]).
    - [Engine]: datasets and topics, commits, retention and the flush between
      engines ([engine.cpp]).
    - [Writer], [Ingest], [Layout], [WriterState]: the ingest path
      ([writer.cpp]).  [Ingest]: what is written is what the storages hold.
      [Layout]: columns that are added while rows are written.  [WriterState]:
      the invariant of the writer under any calls.
    - [Reader]: the read side ([reader.cpp]).
    - [Records]: the abstract state of a topic for its clients, a log of records
      of named values, which the chunks, pending chunks and builder refine.
    - [Host], [HostState], [HostLog], [HostRun], [HostDemo], [HostCatalog]: the
      engine as plugins see it ([plugin_data_host.cpp]): the caches between
      calls, records as appends to the log of a topic, sessions of a plugin, a
      session run, and the catalog.
    - [Holders], [ObjectHost], [ObjectRun]: the object stores as plugins see them
      (the object callbacks of [plugin_data_host.cpp]): what closures keep alive,
      and that every fetch context is destroyed once.
    - [Sdk], [SdkRecords], [SdkObjects], [SdkCatalog]: the C++ side of a plugin
      ([plugin_data_api.hpp]) over the tables of the host.  The class
      [RecordWriter] is what a view offers a plugin; the three views that append
      records are its instances.
    - [Derived], [DerivedRun], [DerivedGraph], [DerivedOrder],
      [DerivedSchedule], [DerivedSiso], [DerivedJoin]: transforms over topics
      ([derived_engine.cpp], [builtin_transforms.cpp]): the graph and its
      invariant, the order of runs, what a schedule runs, incremental runs
      against batch runs, and the join of several inputs.

    - [Settings], [Services], [ParserBase]: what the host offers plugins by name
      ([settings_store_host.hpp], [service_registry*.hpp],
      [colormap_registry.cpp], [object_ingest_policy.hpp]) and the base class of
      message parsers ([message_parser_plugin_base.hpp], its trampolines and its
      handle).  A backend of settings is the class [Settings.SettingsBackend] with
      its laws, of which the store in memory is an instance.
    - [PluginCalls], [DataSource], [SourceRun], [Toolbox], [DialogBase],
      [Handles]: the other families of plugins, from the handle of the host
      through the C table to the class: what they share at the C border
      ([*_trampolines.hpp]), data sources with the patterns of importers and
      streams ([data_source_patterns.hpp]), toolboxes, dialogs, and who owns an
      instance and its library ([*_handle.hpp], [*_library.cpp]).  The code of a
      plugin is a class per family, whose methods may throw ([Settings.Call]).

    - [MediaMetadata]: the JSON text a plugin describes an object topic with
      ([media_metadata.hpp]).
    - [ArrowImport], [ArrowHost], [ArrowDemo], [SeriesArrow], [SeriesView]: tables in the Arrow
      format ([arrow_import.cpp], and [appendArrowStream] and [readSeriesArrow] of
      [plugin_data_host.cpp]): the import of batches into a topic, the streams
      plugins hand over and who frees them ([arrow.hpp]), streams that are run,
      the export of a field, and the view a toolbox reads it through.  nanoarrow is not in the repository: what the
      code asks of it is the classes [Nanoarrow] and [ArrowBuilder], with the laws
      it documents and an instance each; how a finished array lies in memory is
      [ArrowExportLaws].

    ** How the state corresponds to the code

    A class is a Record with the members of the class; a method is a function
    from the object before the call to the object after it and the result.
    [None] is what C++ leaves undefined, a violated assertion, or a loop that
    does not end; [Ok] and [Err] are the two sides of an [Expected].  Machine
    integers are [Z] with their wrap-around written out, sizes that only count
    elements in memory are [nat].  Strings of the wire and of columns are lists
    of bytes, names are [string]s.  Doubles that are only copied are their bits;
    computed ones use the executable IEEE 754 specification of the Standard
    Library.  A hash map is a [gmap]; the order in which one is iterated is a
    parameter [iter], of which only is assumed that it lists the map.  A pointer
    into a container is a key or an index, and a callback is the list of the
    calls it gets.

    ** What the theorems show

    - Round trips: [Codecs], [SceneCodec.scene_entities_roundtrip],
      [AnnotationsCodec.image_annotations_roundtrip],
      [MediaMetadata.metadata_read_back].
    - Dialogs: [WidgetReadback.widget_data_read_back],
      [DialogBase.event_arrives].
    - Plugins: [SourceRun.source_lifecycle] for the states of a data source,
      [Toolbox.bind_acquires] for the services the families get.
    - Reads: [Chunk.chunk_faithful]; the cursors and series of [Query] and
      [Series] against lists; [SeriesView.series_viewed] for the view of a toolbox
      on a field.
    - Ingest: [Ingest.rows_written_are_stored], [HostRun.session_records],
      [SdkRecords.plugin_record_stored] and the theorems of [Layout] and [HostLog]
      on the way; [ParserBase.message_stored] from the handle of a parser to the
      datastore; [ArrowHost.stream_stored] for streams of tables.
    - Settings: [Settings.settings_read_back].
    - Invariants of every reachable state: [Engine.engine_invariant],
      [WriterState.writer_invariant], [TopicStorage.reachable_queries],
      [ObjectStore.stores_invariant], [DerivedGraph.graph_invariant],
      [RuntimeCatalog.catalog_invariant].
    - The catalog of plugins against the disk: [RuntimeCatalog.reload_reconciles],
      [RuntimeCatalog.scan_loads].
    - Ownership: [Handles.instances_owned] for plugin instances and libraries,
      [ObjectRun.contexts_destroyed_once] for fetch contexts,
      [ArrowHost.stream_released_once] for streams, [SdkCatalog.snapshots_freed_once]
      for snapshots of the catalog, and where the SDK breaks it
      [SdkObjects.sdk_pushLazy_frees].
    - All or nothing: [Engine.engine_flushTo_spec], [ObjectStore.flushTo_atomic],
      [TopicStorage.appendSealedChunk_spec].
    - Order and progress: [DerivedOrder.topologicalOrder_spec],
      [DerivedSchedule.scheduleActive_spec], [Layout.appendColumns_terminates].
    - Derived data: [DerivedSiso.siso_incremental_is_batch],
      [DerivedSiso.derivative_run], [DerivedJoin.mimo_join_spec].

    ** Under which conditions

    The doc comment of a theorem names its conditions.  Those that many share:

    - A stored value is read back as [Chunk.cell_reads] says: exactly, but for a
      [uint64_t] of [2^53] or more, which may read as the first value of a
      column that was sealed as a constant, and for the sign of a zero there.
    - Records of a topic come in the order of their times.  A late row is refused
      while its builder has rows, and accepted and dropped after an automatic
      seal.  Rows, bytes of text, columns and ids stay below [2^32].
    - No two topics that a flush moves share data set and name
      ([Engine.flush_of_twins] leaves the destination out of order).
    - What is specified is stated apart from the code that checks or computes
      it: the leaves of a schema ([TypeRegistry.leaf]), the tables of a family
      ([RuntimeCatalog.plugin_ok]), the columns of a topic
      ([HostCatalog.columns_of]), the runs of a schedule ([DerivedSchedule.runs]),
      what a plugin's method returned ([SourceRun.follows]), the places of a
      dialog ([WidgetReadback.writes]), the rows of a batch
      ([ArrowImport.row_cell]).
    - [Engine.engine_step] and [TopicStorage.Storage.step] are the public calls,
      flushes in and out included; chunks that are put in are as a builder seals
      them.

    ** Fuel

    Loops that are not structural run on fuel, and the theorems give enough of
    it: the bytes of the input for a parser, the rows of the deque for a cursor
    or a series, one round per node for Kahn's algorithm, the rows of the batch
    for [appendColumns], one round more than the batches of a stream.  Running out is [None], so a theorem that gives [Some]
    is a theorem that the loop ends.

    ** What is not modelled

    Locks and atomics (a call is one step), the lifetime of views and anchors,
    the exceptions of the host itself (those of a plugin are), and allocation.
    The parser of floating-point numbers and nanoarrow are libraries that are not
    in the repository, and parameters here.  Examples, benchmarks, tests and the
    dynamic loader are left out. *)

From Stdlib Require Export ZArith Lia.
From Stdlib Require Export Strings.Byte.
From stdpp Require Export base numbers list gmap strings option.
From stdpp Require Export pretty sorting.

#[global] Open Scope Z_scope.

(** ** Bytes

    A byte of memory is [Byte.byte]; [b2z] and [z2b] are the conversions
    between a byte and the integer it holds ([z2b] keeps the low 8 bits, as
    [static_cast<uint8_t>] does). *)

Abbreviation bytes := (list Byte.byte).

Definition b2z (b : Byte.byte) : Z := Z.of_N (Byte.to_N b).

Definition z2b (z : Z) : Byte.byte :=
  match Byte.of_N (Z.to_N (z mod 256)) with
  | Some b => b
  | None => Byte.x00
  end.

Lemma b2z_range b : 0 <= b2z b < 256.
Proof. unfold b2z. pose proof (Byte.to_N_bounded b). lia. Qed.

Lemma b2z_z2b z : b2z (z2b z) = z mod 256.
Proof.
  unfold b2z, z2b. pose proof (Z.mod_pos_bound z 256 ltac:(lia)) as Hb.
  destruct (Byte.of_N (Z.to_N (z mod 256))) as [b|] eqn:E.
  - apply Byte.to_of_N in E. rewrite E. lia.
  - apply Byte.of_N_None_iff in E. lia.
Qed.

Lemma z2b_b2z b : z2b (b2z b) = b.
Proof.
  unfold z2b, b2z. rewrite Z.mod_small by (pose proof (b2z_range b); unfold b2z in *; lia).
  rewrite N2Z.id, Byte.of_to_N. done.
Qed.

#[export] Instance b2z_inj : Inj (=) (=) b2z.
Proof. intros x y H. rewrite <- (z2b_b2z x), <- (z2b_b2z y). by rewrite H. Qed.

Lemma b2z_z2b_small z : 0 <= z < 256 -> b2z (z2b z) = z.
Proof. intros. rewrite b2z_z2b. by apply Z.mod_small. Qed.

#[export] Instance byte_eq_dec : EqDecision Byte.byte := Byte.byte_eq_dec.

#[export] Instance byte_countable : Countable Byte.byte.
Proof.
  refine (inj_countable Byte.to_N Byte.of_N _).
  intros b. apply Byte.of_to_N.
Defined.

(** ** Machine integers

    A [w]-bit unsigned (signed) C++ integer is the [Z] it denotes; [wrapU]
    ([wrapS]) is the value a conversion to the type leaves, i.e. reduction
    modulo [2^w] into the range of the type (C++20 integral conversions; a
    signed operation that overflows is modelled by the same wrap-around). *)

Definition wrapU (w z : Z) : Z := z mod 2 ^ w.
Definition wrapS (w z : Z) : Z := (z + 2 ^ (w - 1)) mod 2 ^ w - 2 ^ (w - 1).

#[global] Arguments wrapU : simpl never.
#[global] Arguments wrapS : simpl never.

Definition in_u (w z : Z) : Prop := 0 <= z < 2 ^ w.
Definition in_s (w z : Z) : Prop := - 2 ^ (w - 1) <= z < 2 ^ (w - 1).

#[export] Instance in_u_dec w z : Decision (in_u w z).
Proof. unfold in_u. apply _. Defined.
#[export] Instance in_s_dec w z : Decision (in_s w z).
Proof. unfold in_s. apply _. Defined.

Abbreviation u8 := (wrapU 8).
Abbreviation u32 := (wrapU 32).
Abbreviation u64 := (wrapU 64).
Abbreviation i32 := (wrapS 32).
Abbreviation i64 := (wrapS 64).

Definition INT64_MIN : Z := - 2 ^ 63.
Definition INT64_MAX : Z := 2 ^ 63 - 1.

Lemma wrapU_range w z : 0 <= w -> in_u w (wrapU w z).
Proof. intros. apply Z.mod_pos_bound. lia. Qed.

Lemma wrapU_small w z : in_u w z -> wrapU w z = z.
Proof. apply Z.mod_small. Qed.

Lemma wrapS_range w z : 0 < w -> in_s w (wrapS w z).
Proof.
  intros Hw. unfold in_s, wrapS.
  pose proof (Z.mod_pos_bound (z + 2 ^ (w - 1)) (2 ^ w) ltac:(lia)).
  assert (2 ^ w = 2 * 2 ^ (w - 1)) by (rewrite <- Z.pow_succ_r by lia; f_equal; lia).
  lia.
Qed.

Lemma wrapS_small w z : 0 < w -> in_s w z -> wrapS w z = z.
Proof.
  intros Hw Hz. unfold in_s, wrapS in *.
  assert (2 ^ w = 2 * 2 ^ (w - 1)) by (rewrite <- Z.pow_succ_r by lia; f_equal; lia).
  rewrite Z.mod_small by lia. lia.
Qed.

(** A signed value survives the trip through the unsigned type of its width. *)
Lemma wrapS_wrapU w z : 0 < w -> in_s w z -> wrapS w (wrapU w z) = z.
Proof.
  intros Hw Hz. rewrite <- (wrapS_small w z) at 2 by done.
  unfold wrapS, wrapU. f_equal. by rewrite Zplus_mod_idemp_l.
Qed.

Lemma wrapU_wrapS w z : wrapU w (wrapS w z) = wrapU w z.
Proof. unfold wrapU, wrapS. rewrite Zminus_mod_idemp_l. f_equal. lia. Qed.

Lemma wrapU_wrapU_narrow v w z : 0 <= v <= w -> wrapU v (wrapU w z) = wrapU v z.
Proof.
  intros [Hv Hw]. unfold wrapU.
  replace (2 ^ w) with (2 ^ v * 2 ^ (w - v)) by (rewrite <- Z.pow_add_r by lia; f_equal; lia).
  rewrite Z.rem_mul_r by lia.
  rewrite Z.mul_comm, Z_mod_plus_full. apply Z.mod_mod. lia.
Qed.

Lemma wrapU_sub_cancel w a b : 0 <= w -> wrapU w (wrapU w a - b) = wrapU w (a - b).
Proof. intros. unfold wrapU. by rewrite Zminus_mod_idemp_l. Qed.

Lemma wrapU_add_cancel w a b : 0 <= w -> wrapU w (wrapU w a + b) = wrapU w (a + b).
Proof. intros. unfold wrapU. by rewrite Zplus_mod_idemp_l. Qed.

(** ** Object representations

    [le_bytes n z] is the little-endian object representation [memcpy] copies
    out of an [n]-byte integer holding [z]; [le_val] reads one back as an
    unsigned integer.  [load n off bs] is [memcpy] of [n] bytes from offset
    [off] of the buffer [bs]: reading outside of the buffer is undefined
    behaviour, which the development renders as [None] throughout. *)

Fixpoint le_bytes (n : nat) (z : Z) : bytes :=
  match n with
  | O => []
  | S n' => z2b z :: le_bytes n' (z / 256)
  end.

Fixpoint le_val (bs : bytes) : Z :=
  match bs with
  | [] => 0
  | b :: bs' => b2z b + 256 * le_val bs'
  end.

Definition load (n off : nat) (bs : bytes) : option Z :=
  if decide (off + n <= length bs)%nat then Some (le_val (take n (drop off bs))) else None.

Lemma length_le_bytes n z : length (le_bytes n z) = n.
Proof. revert z. induction n; intros; simpl; auto. Qed.

Lemma pow256_S n : 2 ^ (8 * Z.of_nat (S n)) = 256 * 2 ^ (8 * Z.of_nat n).
Proof.
  rewrite <- (Z.pow_add_r 2 8) by lia. f_equal. lia.
Qed.

Lemma le_val_le_bytes n z : le_val (le_bytes n z) = z mod 2 ^ (8 * Z.of_nat n).
Proof.
  revert z. induction n as [|n IH]; intros z; simpl le_val.
  - change (2 ^ (8 * Z.of_nat 0)) with 1. by rewrite Z.mod_1_r.
  - simpl le_bytes. simpl le_val. rewrite IH, b2z_z2b, pow256_S.
    rewrite Z.rem_mul_r; lia.
Qed.

Lemma le_val_range bs : 0 <= le_val bs < 2 ^ (8 * Z.of_nat (length bs)).
Proof.
  induction bs as [|b bs IH].
  - simpl. lia.
  - cbn [length le_val]. rewrite pow256_S. pose proof (b2z_range b). lia.
Qed.

Lemma le_bytes_le_val bs : le_bytes (length bs) (le_val bs) = bs.
Proof.
  induction bs as [|b bs IH]; [done|]. cbn [length le_val le_bytes].
  pose proof (b2z_range b). f_equal.
  - apply (inj b2z). rewrite b2z_z2b.
    replace (b2z b + 256 * le_val bs) with (b2z b + le_val bs * 256) by lia.
    rewrite Z_mod_plus_full. by apply Z.mod_small.
  - replace ((b2z b + 256 * le_val bs) / 256) with (le_val bs); [exact IH|].
    apply Z.div_unique with (r := b2z b); lia.
Qed.

Lemma load_app_l n off l k : (off + n <= length l)%nat -> load n off (l ++ k) = load n off l.
Proof.
  intros H. unfold load. rewrite length_app, !decide_True by lia.
  rewrite drop_app_le, take_app_le by (rewrite ?length_drop; lia). done.
Qed.

Lemma load_app_r n off l k : (length l <= off)%nat -> load n off (l ++ k) = load n (off - length l) k.
Proof.
  intros H. unfold load. rewrite length_app.
  destruct (decide (off - length l + n <= length k)%nat).
  - rewrite decide_True by lia. by rewrite drop_app_ge by lia.
  - by rewrite decide_False by lia.
Qed.

Lemma load_le_bytes n z k : load n 0 (le_bytes n z ++ k) = Some (z mod 2 ^ (8 * Z.of_nat n)).
Proof.
  unfold load. rewrite length_app, length_le_bytes, decide_True by lia.
  rewrite drop_0, take_app_le, take_ge by (rewrite length_le_bytes; lia).
  by rewrite le_val_le_bytes.
Qed.

Lemma load_is_Some n off bs : (off + n <= length bs)%nat -> exists v, load n off bs = Some v.
Proof. intros. unfold load. rewrite decide_True by lia. eauto. Qed.

Lemma load_range n off bs v : load n off bs = Some v -> 0 <= v < 2 ^ (8 * Z.of_nat n).
Proof.
  unfold load. case_decide as H; [|done]. intros [= <-].
  pose proof (le_val_range (take n (drop off bs))) as Hr.
  rewrite length_take_le in Hr by (rewrite length_drop; lia). done.
Qed.

(** An array of [w]-byte elements: the element [i] is the [i]-th block. *)
Lemma length_concat_blocks w (blocks : list bytes) :
  Forall (fun b => length b = w) blocks -> length (concat blocks) = (length blocks * w)%nat.
Proof. induction 1 as [|b bs Hb _ IH]; simpl; [done|]. rewrite length_app, Hb, IH. done. Qed.

Lemma load_block w (blocks : list bytes) i b k :
  Forall (fun b => length b = w) blocks -> blocks !! i = Some b ->
  load w (i * w) (concat blocks ++ k) = Some (le_val b).
Proof.
  intros Hall. revert i. induction Hall as [|a bs Ha Hall IH]; intros [|i] Hi; simplify_eq/=.
  - rewrite <- app_assoc. unfold load. rewrite length_app, decide_True by lia.
    by rewrite drop_0, take_app_length.
  - rewrite <- app_assoc, load_app_r by lia. replace (length a + i * length a - length a)%nat with (i * length a)%nat by lia.
    by apply IH.
Qed.

Lemma load_block_le w (zs : list Z) i z k : zs !! i = Some z ->
  load w (i * w) (concat (map (le_bytes w) zs) ++ k) = Some (z mod 2 ^ (8 * Z.of_nat w)).
Proof.
  intros Hi. rewrite <- le_val_le_bytes. apply load_block.
  - apply Forall_map, Forall_true. intros. apply length_le_bytes.
  - rewrite list_lookup_fmap, Hi. done.
Qed.

(** ** Errors

    [Expected A] is [PJ::Expected<T, std::string>]: a value or an error
    message; [Status] carries no value. *)

Inductive Expected (A : Type) : Type :=
| Ok (a : A)
| Err (e : string).
Arguments Ok {A} a.
Arguments Err {A} e.

Abbreviation Status := (Expected unit).
Definition okStatus : Status := Ok tt.

Definition has_value {A} (e : Expected A) : bool :=
  match e with Ok _ => true | Err _ => false end.

(** [if (!e) return unexpected(e.error()); ...] *)
#[export] Instance expected_bind : MBind Expected := fun A B f e =>
  match e with Ok a => f a | Err m => Err m end.

Lemma bind_Ok {A B} (f : A -> Expected B) e b : e ≫= f = Ok b <-> exists a, e = Ok a /\ f a = Ok b.
Proof. destruct e as [a|m]; simpl; [naive_solver|]. split; [done|intros (? & ? & _); done]. Qed.

(** ** Strings *)

Lemma string_app_nil_r s : s +:+ "" = s.
Proof. induction s as [|a s IH]; [done|]. change (String a (s +:+ "") = String a s). by rewrite IH. Qed.

Lemma append_assoc a b c : (a +:+ b) +:+ c = a +:+ (b +:+ c).
Proof. induction a as [|x a IH]; [done|]. change (String x ((a +:+ b) +:+ c) = String x (a +:+ (b +:+ c))). by rewrite IH. Qed.

(** ** Binary search

    [std::lower_bound], [std::upper_bound] and [std::partition_point] share
    one loop, over a range of [len] positions from [first]: [before i] tells
    whether position [i] precedes the answer.  The fuel is the length of the
    range, which bounds the number of halvings. *)

Fixpoint bsearch_loop (fuel : nat) (before : nat -> bool) (first len : nat) : nat :=
  match fuel with
  | O => first
  | S fuel' =>
      if decide (0 < len)%nat then
        let half := Nat.div2 len in
        let middle := (first + half)%nat in
        if before middle
        then bsearch_loop fuel' before (S middle) (len - half - 1)
        else bsearch_loop fuel' before first half
      else first
  end.

Definition bsearch {A} (p : A -> bool) (l : list A) : nat :=
  bsearch_loop (length l) (fun i => match l !! i with Some x => p x | None => false end)
    0 (length l).

Definition lower_bound (l : list Z) (x : Z) : nat := bsearch (fun e => e <? x) l.
Definition upper_bound (l : list Z) (x : Z) : nat := bsearch (fun e => negb (x <? e)) l.

(** The answer on a partitioned range: the number of leading elements that
    satisfy [p]. *)
Fixpoint prefix_len {A} (p : A -> bool) (l : list A) : nat :=
  match l with
  | [] => O
  | x :: l' => if p x then S (prefix_len p l') else O
  end.

Definition partitioned {A} (p : A -> bool) (l : list A) : Prop :=
  forall i j x y, (i <= j)%nat -> l !! i = Some x -> l !! j = Some y -> p y = true -> p x = true.

Lemma prefix_len_le {A} (p : A -> bool) l : (prefix_len p l <= length l)%nat.
Proof. induction l as [|x l IH]; simpl; [lia|]. destruct (p x); lia. Qed.

Lemma prefix_len_lt {A} (p : A -> bool) l i x :
  (i < prefix_len p l)%nat -> l !! i = Some x -> p x = true.
Proof.
  revert i. induction l as [|y l IH]; intros i Hi Hx; simpl in *; [done|].
  destruct (p y) eqn:E; [|lia].
  destruct i as [|i]; simpl in *; [congruence|]. apply (IH i); [lia|done].
Qed.

Lemma prefix_len_ge {A} (p : A -> bool) l i x :
  partitioned p l -> (prefix_len p l <= i)%nat -> l !! i = Some x -> p x = false.
Proof.
  intros Hp Hi Hx. destruct (p x) eqn:E; [|done]. exfalso.
  assert (Hall : forall j y, (j <= i)%nat -> l !! j = Some y -> p y = true) by eauto.
  clear Hp E. revert i Hi Hx Hall. induction l as [|y l IH]; intros i Hi Hx Hall; [done|].
  simpl in *. rewrite (Hall O y) in Hi by (done || lia).
  destruct i as [|i]; [lia|]. apply (IH i); [lia|done|].
  intros j z Hj Hz. apply (Hall (S j) z); [lia|done].
Qed.

Lemma bsearch_loop_spec before k fuel first len :
  (forall i, (i < k)%nat -> before i = true) ->
  (forall i, (k <= i < first + len)%nat -> before i = false) ->
  (first <= k <= first + len)%nat -> (len <= fuel)%nat ->
  bsearch_loop fuel before first len = k.
Proof.
  intros Hlt. revert first len. induction fuel as [|fuel IH]; intros first len Hge Hk Hf; simpl.
  - lia.
  - case_decide as Hlen; [|lia].
    assert (Nat.div2 len < len)%nat as Hhalf by (apply Nat.lt_div2; lia).
    generalize dependent (Nat.div2 len). intros half Hhalf.
    destruct (before (first + half)%nat) eqn:E.
    + apply IH; try lia.
      * intros i Hi. apply Hge. lia.
      * destruct (decide (S (first + half) <= k)%nat); [lia|].
        rewrite Hge in E; [done|]. lia.
    + apply IH; try lia.
      * intros i Hi. apply Hge. lia.
      * destruct (decide (k <= first + half)%nat); [lia|].
        rewrite Hlt in E; [done|]. lia.
Qed.

(** The logarithmic search computes the linear one. *)
Lemma bsearch_prefix_len {A} (p : A -> bool) l : partitioned p l -> bsearch p l = prefix_len p l.
Proof.
  intros Hp. unfold bsearch. pose proof (prefix_len_le p l). apply bsearch_loop_spec; [| |lia|lia].
  - intros i Hi. destruct (l !! i) as [x|] eqn:E.
    + eapply prefix_len_lt; eauto.
    + apply lookup_ge_None in E. lia.
  - intros i Hi. destruct (l !! i) as [x|] eqn:E; [|done].
    apply (prefix_len_ge p l i x); [done|lia|done].
Qed.

(** ** Sorted sequences *)

Abbreviation sorted := (StronglySorted Z.le).

Lemma sorted_lookup l i j x y :
  sorted l -> (i <= j)%nat -> l !! i = Some x -> l !! j = Some y -> x <= y.
Proof.
  intros Hs. revert i j. induction Hs as [|a l Hs IH Ha]; intros i j Hij Hi Hj; [done|].
  destruct i as [|i], j as [|j]; simpl in *; simplify_eq; try lia.
  - rewrite Forall_forall in Ha. apply Ha. by eapply list_elem_of_lookup_2.
  - apply (IH i j); [lia|done|done].
Qed.

Lemma sorted_app_iff l k :
  sorted (l ++ k) <-> sorted l /\ sorted k /\ (forall x y, x ∈ l -> y ∈ k -> x <= y).
Proof.
  induction l as [|a l IH]; simpl.
  - split; [intros; split_and!; [constructor|done|set_solver]|tauto].
  - split.
    + intros H. inversion H as [|? ? Hs Ha]; subst. apply IH in Hs as (H1 & H2 & H3).
      rewrite Forall_app in Ha. destruct Ha as [Ha1 Ha2]. split_and!; [by constructor|done|].
      intros x y Hx Hy. apply elem_of_cons in Hx as [->|Hx]; [|by apply H3].
      rewrite Forall_forall in Ha2. by apply Ha2.
    + intros (H1 & H2 & H3). inversion H1 as [|? ? Hs Ha]; subst. constructor.
      * apply IH. split_and!; [done..|]. intros x y Hx Hy. apply H3; [by right|done].
      * apply Forall_app. split; [done|]. apply Forall_forall. intros y Hy. apply H3; [by left|done].
Qed.

Lemma sorted_snoc l x : sorted l -> (forall y, last l = Some y -> y <= x) -> sorted (l ++ [x]).
Proof.
  intros Hl Hx. apply sorted_app_iff. split_and!; [done|repeat constructor|].
  intros a b Ha Hb. apply list_elem_of_singleton in Hb as ->.
  apply list_elem_of_lookup in Ha as [i Hi].
  destruct (last l) as [y|] eqn:E; [|apply last_None in E; by subst].
  specialize (Hx y eq_refl). rewrite last_lookup in E.
  apply lookup_lt_Some in Hi as Hlt. etrans; [|exact Hx].
  eapply sorted_lookup; [exact Hl| |exact Hi|exact E]. lia.
Qed.

Lemma sorted_drop n l : sorted l -> sorted (drop n l).
Proof. intros H. rewrite <- (take_drop n l) in H. by apply sorted_app_iff in H as (_ & ? & _). Qed.

Lemma sorted_take n l : sorted l -> sorted (take n l).
Proof. intros H. rewrite <- (take_drop n l) in H. by apply sorted_app_iff in H as (? & _ & _). Qed.

Lemma partitioned_lt l x : sorted l -> partitioned (fun e => e <? x) l.
Proof. intros Hs i j a b Hij Ha Hb H. pose proof (sorted_lookup l i j a b Hs Hij Ha Hb). lia. Qed.

Lemma partitioned_le l x : sorted l -> partitioned (fun e => negb (x <? e)) l.
Proof. intros Hs i j a b Hij Ha Hb H. pose proof (sorted_lookup l i j a b Hs Hij Ha Hb). lia. Qed.

Lemma lower_bound_spec l x : sorted l ->
  (lower_bound l x <= length l)%nat /\
  (forall i y, (i < lower_bound l x)%nat -> l !! i = Some y -> y < x) /\
  (forall i y, (lower_bound l x <= i)%nat -> l !! i = Some y -> x <= y).
Proof.
  intros Hs. unfold lower_bound. rewrite bsearch_prefix_len by by apply partitioned_lt.
  split_and!; [apply prefix_len_le| |]; intros i y Hi Hy.
  - pose proof (prefix_len_lt _ _ _ _ Hi Hy) as H. simpl in H. lia.
  - pose proof (prefix_len_ge _ _ _ _ (partitioned_lt l x Hs) Hi Hy) as H. simpl in H. lia.
Qed.

Lemma upper_bound_spec l x : sorted l ->
  (upper_bound l x <= length l)%nat /\
  (forall i y, (i < upper_bound l x)%nat -> l !! i = Some y -> y <= x) /\
  (forall i y, (upper_bound l x <= i)%nat -> l !! i = Some y -> x < y).
Proof.
  intros Hs. unfold upper_bound. rewrite bsearch_prefix_len by by apply partitioned_le.
  split_and!; [apply prefix_len_le| |]; intros i y Hi Hy.
  - pose proof (prefix_len_lt _ _ _ _ Hi Hy) as H. simpl in H. lia.
  - pose proof (prefix_len_ge _ _ _ _ (partitioned_le l x Hs) Hi Hy) as H. simpl in H. lia.
Qed.
