(* ===== verification/Wire.v ===== *)
(** * Wire: the protobuf wire format of the builtin-object codecs

    Models [src/pj_base/src/builtin/protobuf_wire.hpp].

    - [Writer.*]: the methods of class [Writer].  The writer only appends to
      the vector it borrows, so a method is a function from the vector before
      the call to the vector after it.
    - [Reader.*]: the methods of class [Reader].  A reader is the pair of
      pointers [p_], [end_]; it is modelled by the bytes left between them (a
      null reader and an exhausted one answer every call alike).  A method
      returns [None] where the code returns [false], together with the reader
      it leaves behind: the callers go on reading after a failure.
    - [parseFields]: the tag / handler / skip loop of the decoders.  A handler
      is a C++ closure over the object being decoded, so it maps the tag, the
      reader and the object to the verdict, the reader and the object.

    The [enc_*] functions are the specification of the encoding: the bytes a
    writer method appends.  The lemmas of the last section say what the loop
    does on one encoded field, and the codecs' round trips are chains of
    them. *)

From S2P Require Import Prelude.

(** ** Tags *)

Inductive WireType : Set :=
| kVarint
| kFixed64
| kLengthDelimited
| kFixed32
| kUnnamed (raw : Z).  (** the cast of a raw value that no enumerator names *)

#[export] Instance WireType_eq_dec : EqDecision WireType.
Proof. solve_decision. Defined.

Definition wireTypeValue (t : WireType) : Z :=
  match t with
  | kVarint => 0
  | kFixed64 => 1
  | kLengthDelimited => 2
  | kFixed32 => 5
  | kUnnamed raw => raw
  end.

Definition wireTypeOf (raw : Z) : WireType :=
  match raw with
  | 0 => kVarint
  | 1 => kFixed64
  | 2 => kLengthDelimited
  | 5 => kFixed32
  | _ => kUnnamed raw
  end.

Record Tag := mkTag { tag_field : Z; tag_type : WireType }.

(** ** Writer *)

Module Writer.

Fixpoint appendVarint_loop (fuel : nat) (value : Z) (out : bytes) : bytes :=
  match fuel with
  | O => out ++ [z2b value]
  | S fuel' =>
      if 0x80 <=? value
      then appendVarint_loop fuel' (Z.shiftr value 7)
             (out ++ [z2b (Z.lor (Z.land value 0x7F) 0x80)])
      else out ++ [z2b value]
  end.

(** Each iteration shifts seven bits out, so the logarithm of the value is
    enough fuel; [appendVarint_unfold] below is the loop itself. *)
Definition appendVarint (value : Z) (out : bytes) : bytes :=
  appendVarint_loop (Z.to_nat (Z.log2 value)) value out.

Definition appendFixed (width : Z) (value : Z) (out : bytes) : bytes :=
  fold_left (fun out i => out ++ [z2b (Z.land (Z.shiftr value (8 * i)) 0xFF)]) (seqZ 0 width) out.

Definition appendFixed64 : Z -> bytes -> bytes := appendFixed 8.
Definition appendFixed32 : Z -> bytes -> bytes := appendFixed 4.

Definition tag (field : Z) (type : WireType) (out : bytes) : bytes :=
  appendVarint (Z.lor (u64 (Z.shiftl field 3)) (wireTypeValue type)) out.

Definition varint (field value : Z) (out : bytes) : bytes :=
  appendVarint value (tag field kVarint out).

Definition fixed64 (field value : Z) (out : bytes) : bytes :=
  appendFixed64 value (tag field kFixed64 out).

Definition fixed32 (field value : Z) (out : bytes) : bytes :=
  appendFixed32 value (tag field kFixed32 out).

Definition packedFixed32 (field : Z) (values : list Z) (out : bytes) : bytes :=
  match values with
  | [] => out
  | _ =>
      let out := tag field kLengthDelimited out in
      let out := appendVarint (u64 (Z.of_nat (length values) * 4)) out in
      fold_left (fun out v => appendFixed32 v out) values out
  end.

(** A [double] is its 64-bit pattern here, a [float] its 32-bit pattern: the
    methods only [memcpy] them. *)
Definition doubleField (field bits : Z) (out : bytes) : bytes := fixed64 field bits out.
Definition floatField (field bits : Z) (out : bytes) : bytes := fixed32 field bits out.

Definition packedDouble (field : Z) (values : list Z) (out : bytes) : bytes :=
  match values with
  | [] => out
  | _ =>
      let out := tag field kLengthDelimited out in
      let out := appendVarint (u64 (Z.of_nat (length values) * 8)) out in
      fold_left (fun out v => appendFixed64 v out) values out
  end.

Definition write_bytes (field : Z) (data : bytes) (out : bytes) : bytes :=
  let out := tag field kLengthDelimited out in
  let out := appendVarint (Z.of_nat (length data)) out in
  if decide (length data = O) then out else out ++ data.

Definition write_string (field : Z) (value : bytes) (out : bytes) : bytes :=
  write_bytes field value out.

Definition message (field : Z) (build_message : bytes -> bytes) (out : bytes) : bytes :=
  let body := build_message [] in
  write_bytes field body out.

End Writer.

(** ** Reader *)

Module Reader.

Definition eof (r : bytes) : bool := match r with [] => true | _ => false end.

Definition remaining (r : bytes) : nat := length r.

Fixpoint readVarint_loop (iterations : nat) (shift out : Z) (r : bytes) : option Z * bytes :=
  match iterations, r with
  | O, _ => (None, r)
  | _, [] => (None, r)
  | S iterations', b :: r' =>
      let payload := Z.land (b2z b) 0x7F in
      if (shift =? 63) && (1 <? payload) then (None, r')
      else
        let out := Z.lor out (u64 (Z.shiftl payload shift)) in
        if Z.land (b2z b) 0x80 =? 0 then (Some out, r')
        else readVarint_loop iterations' (shift + 7) out r'
  end.

Definition readVarint (r : bytes) : option Z * bytes := readVarint_loop 10 0 0 r.

Definition readTag (r : bytes) : option Tag * bytes :=
  match readVarint r with
  | (None, r') => (None, r')
  | (Some raw, r') =>
      if raw =? 0 then (None, r')
      else
        let field := u32 (Z.shiftr raw 3) in
        let type := wireTypeOf (Z.land raw 0x7) in
        if field =? 0 then (None, r') else (Some (mkTag field type), r')
  end.

Definition readFixed (width : nat) (r : bytes) : option Z * bytes :=
  if decide (remaining r < width)%nat then (None, r)
  else
    (Some (fold_left (fun out '(i, b) => Z.lor out (Z.shiftl (b2z b) (8 * i)))
             (zip (seqZ 0 (Z.of_nat width)) r) 0),
     drop width r).

Definition readFixed64 : bytes -> option Z * bytes := readFixed 8.
Definition readFixed32 : bytes -> option Z * bytes := readFixed 4.
Definition readDouble : bytes -> option Z * bytes := readFixed64.
Definition readFloat : bytes -> option Z * bytes := readFixed32.

Definition readBytesImpl (r : bytes) : option bytes * bytes :=
  match readVarint r with
  | (None, r') => (None, r')
  | (Some len, r') =>
      if Z.of_nat (remaining r') <? len then (None, r')
      else (Some (take (Z.to_nat len) r'), drop (Z.to_nat len) r')
  end.

Definition readBytes : bytes -> option bytes * bytes := readBytesImpl.
Definition readString : bytes -> option bytes * bytes := readBytes.
Definition readMessage : bytes -> option bytes * bytes := readBytes.

Definition skipBytes (size : nat) (r : bytes) : bool * bytes :=
  if decide (remaining r < size)%nat then (false, r) else (true, drop size r).

Definition skip (type : WireType) (r : bytes) : bool * bytes :=
  match type with
  | kVarint => let '(v, r') := readVarint r in (match v with Some _ => true | None => false end, r')
  | kFixed64 => skipBytes 8 r
  | kLengthDelimited => let '(v, r') := readBytes r in (match v with Some _ => true | None => false end, r')
  | kFixed32 => skipBytes 4 r
  | kUnnamed _ => (false, r)
  end.

End Reader.

(** ** The field loop *)

Abbreviation Handler S := (Tag -> bytes -> S -> bool * bytes * S).

Fixpoint parseFields_loop {S} (fuel : nat) (handler : Handler S) (r : bytes) (s : S)
  : bool * bytes * S :=
  if Reader.eof r then (true, r, s)
  else
    match fuel with
    | O => (false, r, s)
    | Datatypes.S fuel' =>
        match Reader.readTag r with
        | (None, r1) => (false, r1, s)
        | (Some tag, r1) =>
            let '(handled, r2, s') := handler tag r1 s in
            if handled then parseFields_loop fuel' handler r2 s'
            else
              let '(skipped, r3) := Reader.skip (tag_type tag) r2 in
              if skipped then parseFields_loop fuel' handler r3 s' else (false, r3, s')
        end
    end.

(** A tag takes at least a byte, so the bytes left bound the iterations; see
    [parseFields_unfold]. *)
Definition parseFields {S} (handler : Handler S) (r : bytes) (s : S) : bool * bytes * S :=
  parseFields_loop (length r) handler r s.

Fixpoint readPackedFixed_loop (width fuel : nat) (sub : bytes) (out : list Z) : bool * list Z :=
  if Reader.eof sub then (true, out)
  else
    match fuel with
    | O => (false, out)
    | S fuel' =>
        match Reader.readFixed width sub with
        | (None, _) => (false, out)
        | (Some v, sub') => readPackedFixed_loop width fuel' sub' (out ++ [v])
        end
    end.

(** [readPackedFixed32] ([width = 4]) and [readPackedDouble] ([width = 8]):
    the values are appended to [out]. *)
Definition readPacked (width : nat) (r : bytes) (out : list Z) : bool * bytes * list Z :=
  match Reader.readBytes r with
  | (None, r') => (false, r', out)
  | (Some data, r') =>
      if decide (length data mod width = O)%nat then
        let '(ok, out') := readPackedFixed_loop width (length data) data out in (ok, r', out')
      else (false, r', out)
  end.

Definition readPackedFixed32 : bytes -> list Z -> bool * bytes * list Z := readPacked 4.
Definition readPackedDouble : bytes -> list Z -> bool * bytes * list Z := readPacked 8.

Fixpoint readDoubleArray_loop (n i : nat) (sub : bytes) (out : list Z) : bool * list Z :=
  match n with
  | O => (true, out)
  | S n' =>
      match Reader.readDouble sub with
      | (None, _) => (false, out)
      | (Some v, sub') => readDoubleArray_loop n' (S i) sub' (<[i := v]> out)
      end
  end.

(** [readPackedDoubleArray<N>]: the wire length must be exactly [N * 8]. *)
Definition readPackedDoubleArray (N : nat) (r : bytes) (out : list Z) : bool * bytes * list Z :=
  match Reader.readBytes r with
  | (None, r') => (false, r', out)
  | (Some data, r') =>
      if decide (length data = N * 8)%nat then
        let '(ok, out') := readDoubleArray_loop N 0 data out in (ok, r', out')
      else (false, r', out)
  end.

(** ** The bytes each writer method appends *)

Definition enc_varint (v : Z) : bytes := Writer.appendVarint v [].
Definition enc_tag (field : Z) (type : WireType) : bytes := Writer.tag field type [].
Definition enc_bytes (data : bytes) : bytes := enc_varint (Z.of_nat (length data)) ++ data.

Definition fVarint (field v : Z) : bytes := enc_tag field kVarint ++ enc_varint v.
Definition fFixed64 (field v : Z) : bytes := enc_tag field kFixed64 ++ le_bytes 8 v.
Definition fFixed32 (field v : Z) : bytes := enc_tag field kFixed32 ++ le_bytes 4 v.
Definition fBytes (field : Z) (data : bytes) : bytes := enc_tag field kLengthDelimited ++ enc_bytes data.
Definition fPacked (width : nat) (field : Z) (values : list Z) : bytes :=
  match values with
  | [] => []
  | _ => fBytes field (concat (map (le_bytes width) values))
  end.

(** ** Varints *)

Lemma log2_shiftr7 v : 0x80 <= v -> (Z.to_nat (Z.log2 (Z.shiftr v 7)) < Z.to_nat (Z.log2 v))%nat.
Proof.
  intros Hv. pose proof (Z.log2_le_mono 128 v Hv) as Hl. change (Z.log2 128) with 7 in Hl.
  rewrite Z.log2_shiftr by lia. lia.
Qed.

Lemma appendVarint_fuel f v out : (Z.to_nat (Z.log2 v) <= f)%nat ->
  Writer.appendVarint_loop f v out = Writer.appendVarint v out.
Proof.
  unfold Writer.appendVarint. remember (Z.to_nat (Z.log2 v)) as g eqn:Hg.
  revert f v out Hg. induction (lt_wf g) as [g _ IH]. intros f v out Hg Hf.
  destruct (decide (0x80 <= v)) as [Hv|Hv].
  - pose proof (log2_shiftr7 v Hv). destruct f as [|f]; [lia|]. destruct g as [|g]; [lia|]. simpl.
    rewrite (proj2 (Z.leb_le 128 v)) by lia.
    rewrite (IH (Z.to_nat (Z.log2 (Z.shiftr v 7))) ltac:(lia) f) by lia.
    rewrite (IH (Z.to_nat (Z.log2 (Z.shiftr v 7))) ltac:(lia) g) by lia. done.
  - destruct f as [|f], g as [|g]; simpl; rewrite ?(proj2 (Z.leb_gt 128 v)) by lia; done.
Qed.

(** [appendVarint] is the loop of the code. *)
Lemma appendVarint_unfold v out :
  Writer.appendVarint v out =
    if 0x80 <=? v
    then Writer.appendVarint (Z.shiftr v 7) (out ++ [z2b (Z.lor (Z.land v 0x7F) 0x80)])
    else out ++ [z2b v].
Proof.
  rewrite <- (appendVarint_fuel (S (Z.to_nat (Z.log2 v)))) by lia. simpl.
  destruct (Z.leb_spec 0x80 v) as [Hv|Hv]; [|done].
  apply appendVarint_fuel. pose proof (log2_shiftr7 v Hv). lia.
Qed.

Lemma varint_ind (P : Z -> Prop) :
  (forall v, v < 0x80 -> P v) -> (forall v, 0x80 <= v -> P (Z.shiftr v 7) -> P v) -> forall v, P v.
Proof.
  intros Hs Hl v. remember (Z.to_nat (Z.log2 v)) as g eqn:Hg. revert v Hg.
  induction (lt_wf g) as [g _ IH]. intros v ->. destruct (decide (0x80 <= v)) as [Hv|Hv].
  - apply Hl; [done|]. by apply (IH _ (log2_shiftr7 v Hv)).
  - apply Hs. lia.
Qed.

Lemma appendVarint_enc v out : Writer.appendVarint v out = out ++ enc_varint v.
Proof.
  unfold enc_varint. revert out. induction v as [v Hv|v Hv IH] using varint_ind; intros out.
  - rewrite (appendVarint_unfold v out), (appendVarint_unfold v []).
    by rewrite (proj2 (Z.leb_gt 128 v)) by lia.
  - rewrite (appendVarint_unfold v out), (appendVarint_unfold v []).
    rewrite (proj2 (Z.leb_le 128 v)) by lia.
    rewrite (IH (out ++ _)), (IH ([] ++ _)). by rewrite app_assoc.
Qed.

Lemma enc_varint_small v : v < 0x80 -> enc_varint v = [z2b v].
Proof.
  intros. unfold enc_varint. rewrite appendVarint_unfold, (proj2 (Z.leb_gt 128 v)) by lia. done.
Qed.

Lemma enc_varint_large v : 0x80 <= v ->
  enc_varint v = z2b (Z.lor (Z.land v 0x7F) 0x80) :: enc_varint (Z.shiftr v 7).
Proof.
  intros. unfold enc_varint at 1. rewrite appendVarint_unfold, (proj2 (Z.leb_le 128 v)) by lia.
  by rewrite appendVarint_enc.
Qed.

Lemma length_enc_varint v k : 0 <= v < 2 ^ (7 * (Z.of_nat k + 1)) ->
  (1 <= length (enc_varint v) <= S k)%nat.
Proof.
  revert k. induction v as [v Hv|v Hv IH] using varint_ind; intros k Hk.
  - rewrite enc_varint_small by done. simpl. lia.
  - rewrite enc_varint_large by done. cbn [length]. destruct k as [|k].
    { change (2 ^ (7 * (Z.of_nat 0 + 1))) with 128 in Hk. lia. }
    rewrite Z.shiftr_div_pow2 in IH |- * by lia.
    specialize (IH k). replace (7 * (Z.of_nat (S k) + 1)) with (7 + 7 * (Z.of_nat k + 1)) in Hk by lia.
    rewrite Z.pow_add_r in Hk by lia. change (2 ^ 7) with 128 in *.
    assert (0 <= v / 128 < 2 ^ (7 * (Z.of_nat k + 1))) as Hd.
    { split; [apply Z.div_pos; lia|]. apply Z.div_lt_upper_bound; lia. }
    specialize (IH Hd). lia.
Qed.

(** A 64-bit value takes between one and ten bytes. *)
Lemma length_enc_varint_u64 v : in_u 64 v -> (1 <= length (enc_varint v) <= 10)%nat.
Proof.
  intros [Hv0 Hv]. apply (length_enc_varint v 9). split; [done|].
  etrans; [exact Hv|]. apply Z.pow_lt_mono_r; lia.
Qed.

Lemma lor_add_shift a b n : 0 <= n -> 0 <= a < 2 ^ n -> Z.lor a (Z.shiftl b n) = a + b * 2 ^ n.
Proof.
  intros Hn Ha. rewrite <- Z.shiftl_mul_pow2 by done. symmetry. apply Z.add_nocarry_lor.
  apply Z.bits_inj'. intros i Hi. rewrite Z.land_spec, Z.bits_0.
  destruct (decide (i < n)).
  - rewrite Z.shiftl_spec_low by lia. by rewrite andb_false_r.
  - rewrite <- (Z.mod_small a (2 ^ n)) by done. rewrite Z.mod_pow2_bits_high by lia. done.
Qed.

Lemma land_ones7 z : Z.land z 0x7F = z mod 128.
Proof. change 0x7F with (Z.ones 7). by rewrite Z.land_ones by lia. Qed.

Lemma land_bit7 z : 0 <= z < 256 -> (Z.land z 0x80 =? 0) = (z <? 0x80).
Proof.
  intros Hz. change 0x80 with (2 ^ 7) at 1. 
  assert (Z.land z (2 ^ 7) = if z <? 128 then 0 else 128) as ->; [|by destruct (z <? 128)].
  assert (forallb (fun z => Z.land z (2 ^ 7) =? (if z <? 128 then 0 else 128)) (seqZ 0 256) = true) as Hall
    by (vm_compute; reflexivity).
  rewrite forallb_forall in Hall. specialize (Hall z). rewrite Z.eqb_eq in Hall.
  apply Hall. apply list_elem_of_In, elem_of_seqZ. lia.
Qed.

Lemma lor_bit7 p : 0 <= p < 128 -> Z.lor p 0x80 = p + 128.
Proof. intros. change (Z.lor p 0x80) with (Z.lor p (Z.shiftl 1 7)). rewrite lor_add_shift by lia. lia. Qed.

(** The reader's loop on the bytes of a varint, from any iteration. *)
Lemma readVarint_loop_enc v : forall n acc r,
  (1 <= n <= 10)%nat ->
  0 <= v < 2 ^ (64 - 7 * (10 - Z.of_nat n)) -> 0 <= acc < 2 ^ (7 * (10 - Z.of_nat n)) ->
  Reader.readVarint_loop n (7 * (10 - Z.of_nat n)) acc (enc_varint v ++ r) =
    (Some (acc + v * 2 ^ (7 * (10 - Z.of_nat n))), r).
Proof.
  induction v as [v Hsm|v Hla IH] using varint_ind; intros n acc r Hn Hv Hacc.
  all: destruct n as [|n]; [lia|].
  all: assert (Hbits : 2 ^ (64 - 7 * (10 - Z.of_nat (S n))) * 2 ^ (7 * (10 - Z.of_nat (S n))) = 2 ^ 64)
    by (rewrite <- Z.pow_add_r by lia; f_equal; lia).
  - rewrite enc_varint_small by done. cbn [app Reader.readVarint_loop].
    rewrite b2z_z2b_small by lia. rewrite land_ones7, (Z.mod_small v 128) by lia.
    rewrite land_bit7, (proj2 (Z.ltb_lt v 128)) by lia.
    assert (((7 * (10 - Z.of_nat (S n)) =? 63) && (1 <? v)) = false) as ->.
    { destruct (Z.eqb_spec (7 * (10 - Z.of_nat (S n))) 63) as [E|]; [|done].
      rewrite E in Hv. simpl in Hv. apply Z.ltb_ge. lia. }
    rewrite wrapU_small; [by rewrite lor_add_shift by lia|].
    split; [apply Z.shiftl_nonneg; lia|]. rewrite Z.shiftl_mul_pow2 by lia. nia.
  - rewrite enc_varint_large by done. cbn [app Reader.readVarint_loop].
    pose proof (Z.mod_pos_bound v 128 ltac:(lia)) as Hm.
    rewrite (land_ones7 v), lor_bit7, b2z_z2b_small by lia.
    rewrite land_ones7. replace ((v mod 128 + 128) mod 128) with (v mod 128)
      by (apply Z.mod_unique with (q := 1); lia).
    rewrite land_bit7, (proj2 (Z.ltb_ge (v mod 128 + 128) 128)) by lia.
    assert (Hn63 : 7 * (10 - Z.of_nat (S n)) <> 63).
    { intros E. rewrite E in Hv. simpl in Hv. lia. }
    rewrite (proj2 (Z.eqb_neq _ _) Hn63). cbn [andb].
    pose proof (Z.div_mod v 128 ltac:(lia)) as Hdm.
    assert (Hp7 : 2 ^ (7 * (10 - Z.of_nat n)) = 128 * 2 ^ (7 * (10 - Z.of_nat (S n)))).
    { rewrite <- (Z.pow_add_r 2 7) by lia. f_equal. lia. }
    assert (Hq7 : 2 ^ (64 - 7 * (10 - Z.of_nat (S n))) = 128 * 2 ^ (64 - 7 * (10 - Z.of_nat n))).
    { rewrite <- (Z.pow_add_r 2 7) by lia. f_equal. lia. }
    rewrite Z.shiftr_div_pow2 in IH |- * by lia. change (2 ^ 7) with 128 in IH |- *.
    assert (0 <= v / 128) by (apply Z.div_pos; lia).
    rewrite wrapU_small, lor_add_shift; [|lia|lia|].
    + replace (7 * (10 - Z.of_nat (S n)) + 7) with (7 * (10 - Z.of_nat n)) by lia.
      rewrite IH; [f_equal; f_equal; nia|lia|nia|nia].
    + split; [apply Z.shiftl_nonneg; lia|]. rewrite Z.shiftl_mul_pow2 by lia. nia.
Qed.

Lemma readVarint_enc v r : in_u 64 v -> Reader.readVarint (enc_varint v ++ r) = (Some v, r).
Proof.
  intros Hv. pose proof (readVarint_loop_enc v 10 0 r ltac:(lia)) as H.
  change (7 * (10 - Z.of_nat 10)) with 0 in H. unfold Reader.readVarint. rewrite H.
  - f_equal. f_equal. lia.
  - exact Hv.
  - lia.
Qed.

(** ** The other writer methods append their encoding *)

Definition wt_ok (t : WireType) : Prop :=
  match t with kUnnamed _ => False | _ => True end.

Lemma wireTypeValue_range t : wt_ok t -> 0 <= wireTypeValue t < 8.
Proof. destruct t; simpl; lia. Qed.

Lemma tag_enc field type out : Writer.tag field type out = out ++ enc_tag field type.
Proof. apply appendVarint_enc. Qed.

Lemma z2b_land255 z : z2b (Z.land z 0xFF) = z2b z.
Proof.
  apply (inj b2z). rewrite !b2z_z2b. change 0xFF with (Z.ones 8).
  rewrite Z.land_ones by lia. apply Z.mod_mod. lia.
Qed.

Lemma fold_left_append {A} (f : A -> Byte.byte) (l : list A) out :
  fold_left (fun out i => out ++ [f i]) l out = out ++ map f l.
Proof.
  revert out. induction l as [|x l IH]; intros out; simpl; [by rewrite app_nil_r|].
  rewrite IH. by rewrite <- app_assoc.
Qed.

Lemma seqZ_S m n : 0 <= n -> seqZ m (Z.succ n) = m :: seqZ (Z.succ m) n.
Proof. intros. rewrite seqZ_cons by lia. f_equal. f_equal. lia. Qed.

Lemma map_shift_le_bytes k n v : 0 <= k ->
  map (fun i => z2b (Z.land (Z.shiftr v (8 * i)) 0xFF)) (seqZ k (Z.of_nat n))
  = le_bytes n (Z.shiftr v (8 * k)).
Proof.
  revert k. induction n as [|n IH]; intros k Hk; [done|].
  rewrite Nat2Z.inj_succ, seqZ_S by lia. simpl. rewrite z2b_land255. f_equal.
  rewrite IH by lia. f_equal. change 256 with (2 ^ 8). rewrite <- Z.shiftr_div_pow2 by lia.
  rewrite Z.shiftr_shiftr by lia. f_equal. lia.
Qed.

Lemma appendFixed_enc n v out : Writer.appendFixed (Z.of_nat n) v out = out ++ le_bytes n v.
Proof.
  unfold Writer.appendFixed. rewrite fold_left_append, (map_shift_le_bytes 0) by lia.
  by rewrite Z.shiftr_0_r.
Qed.

Lemma varint_enc field v out : Writer.varint field v out = out ++ fVarint field v.
Proof.
  unfold Writer.varint, fVarint. rewrite appendVarint_enc, tag_enc. by rewrite app_assoc.
Qed.

Lemma fixed64_enc field v out : Writer.fixed64 field v out = out ++ fFixed64 field v.
Proof.
  unfold Writer.fixed64, Writer.appendFixed64, fFixed64. rewrite (appendFixed_enc 8), tag_enc.
  by rewrite app_assoc.
Qed.

Lemma fixed32_enc field v out : Writer.fixed32 field v out = out ++ fFixed32 field v.
Proof.
  unfold Writer.fixed32, Writer.appendFixed32, fFixed32. rewrite (appendFixed_enc 4), tag_enc.
  by rewrite app_assoc.
Qed.

Lemma bytes_enc field data out : Writer.write_bytes field data out = out ++ fBytes field data.
Proof.
  unfold Writer.write_bytes, fBytes, enc_bytes. rewrite appendVarint_enc, tag_enc.
  case_decide as H.
  - apply nil_length_inv in H. subst. by rewrite app_nil_r, app_assoc.
  - by rewrite !app_assoc.
Qed.

Lemma string_enc field data out : Writer.write_string field data out = out ++ fBytes field data.
Proof. apply bytes_enc. Qed.

Lemma message_enc field build out : Writer.message field build out = out ++ fBytes field (build []).
Proof. apply bytes_enc. Qed.

Lemma length_concat_le_bytes w values :
  length (concat (map (le_bytes w) values)) = (w * length values)%nat.
Proof.
  induction values as [|v l IH]; simpl; [lia|]. rewrite length_app, length_le_bytes, IH. lia.
Qed.

Lemma fold_append_enc w values out :
  fold_left (fun out v => Writer.appendFixed (Z.of_nat w) v out) values out
  = out ++ concat (map (le_bytes w) values).
Proof.
  revert out. induction values as [|v l IH]; intros out; simpl; [by rewrite app_nil_r|].
  rewrite IH, appendFixed_enc. by rewrite app_assoc.
Qed.

Lemma packed_enc w field values out :
  Z.of_nat (length values) * Z.of_nat w < 2 ^ 64 -> values <> [] ->
  fold_left (fun out v => Writer.appendFixed (Z.of_nat w) v out) values
    (Writer.appendVarint (u64 (Z.of_nat (length values) * Z.of_nat w))
      (Writer.tag field kLengthDelimited out))
  = out ++ fPacked w field values.
Proof.
  intros Hl Hne. rewrite fold_append_enc, appendVarint_enc, tag_enc.
  rewrite wrapU_small by (unfold in_u; lia). unfold fPacked, fBytes, enc_bytes.
  rewrite length_concat_le_bytes. destruct values as [|v l]; [done|].
  rewrite <- !app_assoc. do 4 f_equal. lia.
Qed.

Lemma packedDouble_enc field values out : Z.of_nat (length values) * 8 < 2 ^ 64 ->
  Writer.packedDouble field values out = out ++ fPacked 8 field values.
Proof.
  intros Hl. destruct values as [|v l] eqn:E; [by rewrite app_nil_r|].
  apply (packed_enc 8); [done|congruence].
Qed.

Lemma packedFixed32_enc field values out : Z.of_nat (length values) * 4 < 2 ^ 64 ->
  Writer.packedFixed32 field values out = out ++ fPacked 4 field values.
Proof.
  intros Hl. destruct values as [|v l] eqn:E; [by rewrite app_nil_r|].
  apply (packed_enc 4); [done|congruence].
Qed.

(** A packed field is appended, whatever its length. *)
Lemma packedFixed32_app field values a b :
  Writer.packedFixed32 field values (a ++ b) = a ++ Writer.packedFixed32 field values b.
Proof.
  destruct values as [|v l]; [done|]. unfold Writer.packedFixed32, Writer.appendFixed32.
  rewrite !(fold_append_enc 4), !appendVarint_enc, !tag_enc. by rewrite <- !app_assoc.
Qed.

(** ** The reader methods on those encodings *)

Definition field_ok (field : Z) : Prop := 0 < field < 2 ^ 29.

Lemma tag_raw field type : field_ok field -> wt_ok type ->
  Z.lor (u64 (Z.shiftl field 3)) (wireTypeValue type) = field * 8 + wireTypeValue type.
Proof.
  intros [Hf0 Hf] Ht. pose proof (wireTypeValue_range type Ht).
  rewrite Z.shiftl_mul_pow2 by lia. change (2 ^ 3) with 8.
  rewrite wrapU_small by (unfold in_u; lia).
  rewrite Z.lor_comm. change 8 with (2 ^ 3). rewrite <- Z.shiftl_mul_pow2 by lia.
  rewrite lor_add_shift by lia. rewrite Z.shiftl_mul_pow2 by lia. lia.
Qed.

Lemma readTag_enc field type r : field_ok field -> wt_ok type ->
  Reader.readTag (enc_tag field type ++ r) = (Some (mkTag field type), r).
Proof.
  intros Hf Ht. pose proof (wireTypeValue_range type Ht) as Hw. destruct Hf as [Hf0 Hf].
  unfold Reader.readTag, enc_tag, Writer.tag. rewrite tag_raw by done.
  fold (enc_varint (field * 8 + wireTypeValue type)).
  rewrite readVarint_enc by (unfold in_u; lia).
  rewrite (proj2 (Z.eqb_neq _ 0)) by lia.
  assert (Z.shiftr (field * 8 + wireTypeValue type) 3 = field) as ->.
  { rewrite Z.shiftr_div_pow2 by lia. change (2 ^ 3) with 8.
    symmetry. apply Z.div_unique with (r := wireTypeValue type); lia. }
  assert (Z.land (field * 8 + wireTypeValue type) 7 = wireTypeValue type) as ->.
  { change 7 with (Z.ones 3). rewrite Z.land_ones by lia. change (2 ^ 3) with 8.
    symmetry. apply Z.mod_unique with (q := field); lia. }
  rewrite wrapU_small by (unfold in_u; lia). rewrite (proj2 (Z.eqb_neq _ 0)) by lia.
  by destruct type.
Qed.

Lemma length_enc_tag field type : field_ok field -> wt_ok type ->
  (1 <= length (enc_tag field type) <= 10)%nat.
Proof.
  intros Hf Ht. pose proof (wireTypeValue_range type Ht). destruct Hf.
  unfold enc_tag, Writer.tag. rewrite tag_raw by done.
  apply length_enc_varint_u64. unfold in_u. lia.
Qed.

Lemma fold_lor_le_val bs k acc : 0 <= k -> 0 <= acc < 2 ^ (8 * k) ->
  fold_left (fun out '(i, b) => Z.lor out (Z.shiftl (b2z b) (8 * i)))
    (zip (seqZ k (Z.of_nat (length bs))) bs) acc = acc + 2 ^ (8 * k) * le_val bs.
Proof.
  revert k acc. induction bs as [|b bs IH]; intros k acc Hk Hacc; [simpl; lia|].
  cbn [length]. rewrite Nat2Z.inj_succ, seqZ_S by lia. cbn [zip_with fold_left le_val].
  rewrite lor_add_shift by lia. pose proof (b2z_range b).
  assert (2 ^ (8 * Z.succ k) = 256 * 2 ^ (8 * k)) as Hp.
  { rewrite <- (Z.pow_add_r 2 8) by lia. f_equal. lia. }
  rewrite IH by (rewrite ?Hp; nia). rewrite Hp. lia.
Qed.

Lemma zip_app_l {A B} (l : list A) (k : list B) r : length l = length k -> zip l (k ++ r) = zip l k.
Proof. revert k. induction l; intros [|b k] Hl; simpl in *; try done. f_equal. auto. Qed.

Lemma readFixed_app bs r : Reader.readFixed (length bs) (bs ++ r) = (Some (le_val bs), r).
Proof.
  unfold Reader.readFixed, Reader.remaining. rewrite length_app, decide_False by lia.
  rewrite drop_app_length, zip_app_l by (rewrite length_seqZ; lia).
  rewrite fold_lor_le_val by (simpl; lia). do 2 f_equal. lia.
Qed.

Lemma readFixed_enc w v r : in_u (8 * Z.of_nat w) v ->
  Reader.readFixed w (le_bytes w v ++ r) = (Some v, r).
Proof.
  intros Hv. rewrite <- (length_le_bytes w v) at 1. rewrite readFixed_app, le_val_le_bytes.
  by rewrite Z.mod_small.
Qed.

Lemma readBytes_enc data r : Z.of_nat (length data) < 2 ^ 64 ->
  Reader.readBytes (enc_bytes data ++ r) = (Some data, r).
Proof.
  intros Hl. unfold Reader.readBytes, Reader.readBytesImpl, enc_bytes, Reader.remaining.
  rewrite <- app_assoc, readVarint_enc by (unfold in_u; lia).
  rewrite length_app, (proj2 (Z.ltb_ge _ _)) by lia.
  by rewrite Nat2Z.id, take_app_length, drop_app_length.
Qed.

(** ** Progress: no method gives bytes back *)

Lemma readVarint_loop_length n shift out r :
  (length (Reader.readVarint_loop n shift out r).2 <= length r)%nat.
Proof.
  revert shift out r. induction n as [|n IH]; intros shift out [|b r]; simpl; try lia.
  repeat case_match; simpl; try lia. etrans; [apply IH|lia].
Qed.

Lemma readVarint_loop_some n shift out r v :
  (Reader.readVarint_loop n shift out r).1 = Some v ->
  (length (Reader.readVarint_loop n shift out r).2 < length r)%nat.
Proof.
  destruct n as [|n], r as [|b r]; simpl; try done.
  repeat case_match; simpl; intros; try done; [lia|].
  pose proof (readVarint_loop_length n (shift + 7)
    (Z.lor out (u64 (Z.shiftl (Z.land (b2z b) 127) shift))) r). lia.
Qed.

(** [shrinks r o r']: a call on [r] that returned [o] and left [r'] behind
    moved forward, strictly when it succeeded. *)
Definition shrinks {A} (r : bytes) (o : option A) (r' : bytes) : Prop :=
  (length r' <= length r)%nat /\ (is_Some o -> (length r' < length r)%nat).

Lemma readVarint_shrinks r o r' : Reader.readVarint r = (o, r') -> shrinks r o r'.
Proof.
  intros H. split.
  - pose proof (readVarint_loop_length 10 0 0 r) as Hl. unfold Reader.readVarint in H.
    by rewrite H in Hl.
  - intros [v ->]. pose proof (readVarint_loop_some 10 0 0 r v) as Hl.
    unfold Reader.readVarint in H. rewrite H in Hl. by apply Hl.
Qed.

Lemma readTag_shrinks r o r' : Reader.readTag r = (o, r') -> shrinks r o r'.
Proof.
  unfold Reader.readTag. destruct (Reader.readVarint r) as [ov r1] eqn:E.
  apply readVarint_shrinks in E as [H1 H2]. intros H.
  repeat case_match; simplify_eq; split; try done; try by intros [? ?].
  intros _. apply H2. eauto.
Qed.

Lemma readFixed_shrinks w r o r' : (0 < w)%nat -> Reader.readFixed w r = (o, r') -> shrinks r o r'.
Proof.
  unfold Reader.readFixed, Reader.remaining. intros Hw. case_decide; intros [= <- <-]; split.
  - lia.
  - by intros [? ?].
  - rewrite length_drop. lia.
  - intros _. rewrite length_drop. lia.
Qed.

Lemma readBytes_shrinks r o r' : Reader.readBytes r = (o, r') -> shrinks r o r'.
Proof.
  unfold Reader.readBytes, Reader.readBytesImpl.
  destruct (Reader.readVarint r) as [ov r1] eqn:E. apply readVarint_shrinks in E as [H1 H2].
  intros H. repeat case_match; simplify_eq; split; try rewrite length_drop; try lia;
    try by intros [? ?]. intros _. specialize (H2 ltac:(eauto)). lia.
Qed.

Lemma skip_shrinks type r ok r' : Reader.skip type r = (ok, r') -> (length r' <= length r)%nat.
Proof.
  unfold Reader.skip, Reader.skipBytes. destruct type; intros H.
  - destruct (Reader.readVarint r) as [o r1] eqn:E. apply readVarint_shrinks in E as [? _].
    by simplify_eq.
  - case_decide; simplify_eq; rewrite ?length_drop; lia.
  - destruct (Reader.readBytes r) as [o r1] eqn:E. apply readBytes_shrinks in E as [? _].
    by simplify_eq.
  - case_decide; simplify_eq; rewrite ?length_drop; lia.
  - by simplify_eq.
Qed.

(** A handler that never moves the reader backwards: what the field loop asks
    of its client, and all that its termination needs. *)
Class Advancing {S} (h : Handler S) : Prop :=
  advancing : forall tag r s ok r' s', h tag r s = (ok, r', s') -> (length r' <= length r)%nat.

Lemma parseFields_loop_irrel {S} (h : Handler S) `{!Advancing h} f g r s :
  (length r <= f)%nat -> (length r <= g)%nat -> parseFields_loop f h r s = parseFields_loop g h r s.
Proof.
  revert g r s. induction f as [|f IH]; intros g r s Hf Hg.
  - destruct r; [by destruct g|simpl in *; lia].
  - destruct r as [|b r]; [by destruct g|]. destruct g as [|g]; [simpl in *; lia|].
    cbn [parseFields_loop Reader.eof].
    destruct (Reader.readTag (b :: r)) as [[tag|] r1] eqn:E1; [|done].
    apply readTag_shrinks in E1 as [_ E1]. specialize (E1 ltac:(eauto)).
    destruct (h tag r1 s) as [[ok r2] s'] eqn:E2. apply advancing in E2.
    destruct ok; [apply IH; lia|].
    destruct (Reader.skip (tag_type tag) r2) as [sk r3] eqn:E3. apply skip_shrinks in E3.
    destruct sk; [apply IH; lia|done].
Qed.

Lemma parseFields_loop_fuel {S} (h : Handler S) `{!Advancing h} f r s :
  (length r <= f)%nat -> parseFields_loop f h r s = parseFields h r s.
Proof. intros. by apply parseFields_loop_irrel. Qed.

(** [parseFields] is the loop of the code: the fuel never runs out. *)
Lemma parseFields_unfold {S} (h : Handler S) `{!Advancing h} r s :
  parseFields h r s =
    if Reader.eof r then (true, r, s)
    else
      match Reader.readTag r with
      | (None, r1) => (false, r1, s)
      | (Some tag, r1) =>
          let '(handled, r2, s') := h tag r1 s in
          if handled then parseFields h r2 s'
          else
            let '(skipped, r3) := Reader.skip (tag_type tag) r2 in
            if skipped then parseFields h r3 s' else (false, r3, s')
      end.
Proof.
  rewrite <- (parseFields_loop_fuel h (Datatypes.S (length r))) by lia. cbn [parseFields_loop].
  destruct (Reader.eof r); [done|].
  destruct (Reader.readTag r) as [[tag|] r1] eqn:E1; [|done].
  apply readTag_shrinks in E1 as [_ E1]. specialize (E1 ltac:(eauto)).
  destruct (h tag r1 s) as [[ok r2] s'] eqn:E2. apply advancing in E2.
  destruct ok; [by apply parseFields_loop_fuel; [|lia]|].
  destruct (Reader.skip (tag_type tag) r2) as [sk r3] eqn:E3. apply skip_shrinks in E3.
  destruct sk; [|done]. by apply parseFields_loop_fuel; [|lia].
Qed.

Lemma parseFields_nil {S} (h : Handler S) s : parseFields h [] s = (true, [], s).
Proof. done. Qed.

(** The loop over one encoded field that its handler accepts. *)
Lemma parseFields_field {S} (h : Handler S) `{!Advancing h} field type payload rest s s' :
  field_ok field -> wt_ok type ->
  h (mkTag field type) (payload ++ rest) s = (true, rest, s') ->
  parseFields h ((enc_tag field type ++ payload) ++ rest) s = parseFields h rest s'.
Proof.
  intros Hf Ht Hh. rewrite parseFields_unfold by done. rewrite <- app_assoc, readTag_enc by done.
  rewrite Hh. pose proof (length_enc_tag field type Hf Ht).
  by destruct (enc_tag field type); simpl in *; [lia|].
Qed.
