(* ===== verification/Fields.v ===== *)
(** * Fields: the blocks every field handler is made of

    The handlers of the codecs under [src/pj_base/src/builtin/] repeat a few
    blocks: check the wire type, read the payload with one [Reader] method,
    return [false] if that failed, and otherwise store the value in the object.
    Each [on_*] below is such a block; [set] is the assignment.  The class
    [WireMessage] is the interface a message type offers to the messages that
    nest it. *)

From S2P Require Import Prelude Wire.

Section Blocks.
Context {S : Type}.
Implicit Types (tag : Tag) (r : bytes) (s : S).

(** [if (tag.type != kVarint) return false; uint64_t v; if (!r.readVarint(v)) return false; ...] *)
Definition on_varint tag r s (set : Z -> S) : bool * bytes * S :=
  if decide (tag_type tag = kVarint) then
    match Reader.readVarint r with
    | (None, r') => (false, r', s)
    | (Some v, r') => (true, r', set v)
    end
  else (false, r, s).

(** [tag.type == kFixed64 && r.readDouble(out.x)] *)
Definition on_double tag r s (set : Z -> S) : bool * bytes * S :=
  if decide (tag_type tag = kFixed64) then
    match Reader.readDouble r with
    | (None, r') => (false, r', s)
    | (Some v, r') => (true, r', set v)
    end
  else (false, r, s).

(** The same with [kFixed32] and [readFloat]. *)
Definition on_float tag r s (set : Z -> S) : bool * bytes * S :=
  if decide (tag_type tag = kFixed32) then
    match Reader.readFloat r with
    | (None, r') => (false, r', s)
    | (Some v, r') => (true, r', set v)
    end
  else (false, r, s).

(** [tag.type == kLengthDelimited && r.readString(out.x)]; also the
    [readBytesInto...] helpers, which copy the payload into a fresh buffer. *)
Definition on_bytes tag r s (set : bytes -> S) : bool * bytes * S :=
  if decide (tag_type tag = kLengthDelimited) then
    match Reader.readBytes r with
    | (None, r') => (false, r', s)
    | (Some v, r') => (true, r', set v)
    end
  else (false, r, s).

(** [tag.type == kLengthDelimited && read...Message(r, out.x)]: the nested
    decoder works on the field in place, so what it stored before failing
    stays. *)
Definition on_message {T} (decode : bytes -> T -> bool * T) tag r s (cur : T) (set : T -> S)
  : bool * bytes * S :=
  if decide (tag_type tag = kLengthDelimited) then
    match Reader.readMessage r with
    | (None, r') => (false, r', s)
    | (Some body, r') => let '(ok, t) := decode body cur in (ok, r', set t)
    end
  else (false, r, s).

(** [tag.type == kLengthDelimited && readPrimitiveIntoVector(r, out.xs, decode)]:
    the element is a local of the helper, pushed only once decoded. *)
Definition on_element {T} (decode : bytes -> T -> bool * T) (init : T) tag r s (push : T -> S)
  : bool * bytes * S :=
  if decide (tag_type tag = kLengthDelimited) then
    match Reader.readMessage r with
    | (None, r') => (false, r', s)
    | (Some body, r') =>
        let '(ok, t) := decode body init in if ok then (true, r', push t) else (false, r', s)
    end
  else (false, r, s).

(** [tag.type == kLengthDelimited && readPackedDouble(r, out.x)] and
    [readPackedFixed32]: the values read before a failure stay appended. *)
Definition on_packed (read : bytes -> list Z -> bool * bytes * list Z) tag r s (cur : list Z)
    (set : list Z -> S) : bool * bytes * S :=
  if decide (tag_type tag = kLengthDelimited) then
    let '(ok, r', xs) := read r cur in (ok, r', set xs)
  else (false, r, s).

(** [default: return false] *)
Definition unhandled r s : bool * bytes * S := (false, r, s).

(** [if (tag.type != kLengthDelimited) return false;] before the switch, and
    its [kFixed64] and [kVarint] variants. *)
Definition require_type (t : WireType) tag r s (k : bool * bytes * S) : bool * bytes * S :=
  if decide (tag_type tag = t) then k else (false, r, s).

End Blocks.

(** A decoder made of a handler: [parseFields(reader, handler)] on a reader
    that is dropped afterwards. *)
Definition decode_fields {S} (h : Handler S) (body : bytes) (s : S) : bool * S :=
  let '(ok, _, s') := parseFields h body s in (ok, s').

(** ** The blocks advance *)

Lemma readPacked_shrinks w r out ok r' out' :
  readPacked w r out = (ok, r', out') -> (length r' <= length r)%nat.
Proof.
  unfold readPacked. destruct (Reader.readBytes r) as [o r1] eqn:E.
  apply readBytes_shrinks in E as [Hle _]. intros H. repeat case_match; by simplify_eq.
Qed.

Lemma readPackedDoubleArray_shrinks N r out ok r' out' :
  readPackedDoubleArray N r out = (ok, r', out') -> (length r' <= length r)%nat.
Proof.
  unfold readPackedDoubleArray. destruct (Reader.readBytes r) as [o r1] eqn:E.
  apply readBytes_shrinks in E as [Hle _]. intros H. repeat case_match; by simplify_eq.
Qed.

(** Turns the equations about reader calls in the context into the lengths
    they imply. *)
Ltac reader_lengths :=
  repeat match goal with
  | H : Reader.readVarint _ = _ |- _ => apply readVarint_shrinks in H as [? _]
  | H : Reader.readDouble _ = _ |- _ => apply (readFixed_shrinks 8) in H as [? _]; [|lia]
  | H : Reader.readFloat _ = _ |- _ => apply (readFixed_shrinks 4) in H as [? _]; [|lia]
  | H : Reader.readBytes _ = _ |- _ => apply readBytes_shrinks in H as [? _]
  | H : Reader.readMessage _ = _ |- _ => apply readBytes_shrinks in H as [? _]
  | H : Reader.readString _ = _ |- _ => apply readBytes_shrinks in H as [? _]
  | H : readPackedDouble _ _ = _ |- _ => apply readPacked_shrinks in H
  | H : readPackedFixed32 _ _ = _ |- _ => apply readPacked_shrinks in H
  | H : readPackedDoubleArray _ _ _ = _ |- _ => apply readPackedDoubleArray_shrinks in H
  end.

Ltac unfold_blocks :=
  unfold on_varint, on_double, on_float, on_bytes, on_message, on_element, on_packed, unhandled,
    require_type in *.

Ltac solve_advancing :=
  let H := fresh "Hcall" in
  intros ? ? ? ? ? ? H; cbv beta delta [on_varint on_double on_float on_bytes on_message
    on_element on_packed unhandled require_type] in H;
  repeat case_match; simplify_eq; reader_lengths; first [done | lia].

(** ** What a block does on the field it expects *)

(** [decode] accepts the message [body] and turns [init] into [v]. *)
Definition decodes {T} (decode : bytes -> T -> bool * T) (body : bytes) (init v : T) : Prop :=
  decode body init = (true, v).

Section OnEncoded.
Context {S : Type} (h : Handler S) `{!Advancing h}.

Lemma parse_varint field v rest s set :
  (forall r, h (mkTag field kVarint) r s = on_varint (mkTag field kVarint) r s set) ->
  field_ok field -> in_u 64 v ->
  parseFields h (fVarint field v ++ rest) s = parseFields h rest (set v).
Proof.
  intros Hh Hf Hv. apply parseFields_field; [done..|]. rewrite Hh. unfold on_varint. simpl.
  by rewrite readVarint_enc.
Qed.

Lemma parse_double field v rest s set :
  (forall r, h (mkTag field kFixed64) r s = on_double (mkTag field kFixed64) r s set) ->
  field_ok field -> in_u 64 v ->
  parseFields h (fFixed64 field v ++ rest) s = parseFields h rest (set v).
Proof.
  intros Hh Hf Hv. apply parseFields_field; [done..|]. rewrite Hh. unfold on_double. simpl tag_type.
  rewrite decide_True by done. unfold Reader.readDouble, Reader.readFixed64. by rewrite readFixed_enc.
Qed.

Lemma parse_float field v rest s set :
  (forall r, h (mkTag field kFixed32) r s = on_float (mkTag field kFixed32) r s set) ->
  field_ok field -> in_u 32 v ->
  parseFields h (fFixed32 field v ++ rest) s = parseFields h rest (set v).
Proof.
  intros Hh Hf Hv. apply parseFields_field; [done..|]. rewrite Hh. unfold on_float. simpl tag_type.
  rewrite decide_True by done. unfold Reader.readFloat, Reader.readFixed32. by rewrite readFixed_enc.
Qed.

Lemma parse_bytes field v rest s set :
  (forall r, h (mkTag field kLengthDelimited) r s = on_bytes (mkTag field kLengthDelimited) r s set) ->
  field_ok field -> Z.of_nat (length v) < 2 ^ 64 ->
  parseFields h (fBytes field v ++ rest) s = parseFields h rest (set v).
Proof.
  intros Hh Hf Hv. apply parseFields_field; [done..|]. rewrite Hh. unfold on_bytes. simpl.
  by rewrite readBytes_enc.
Qed.

Lemma parse_message {T} (decode : bytes -> T -> bool * T) field v body rest s cur set :
  (forall r, h (mkTag field kLengthDelimited) r s =
    on_message decode (mkTag field kLengthDelimited) r s cur set) ->
  field_ok field -> Z.of_nat (length body) < 2 ^ 64 -> decodes decode body cur v ->
  parseFields h (fBytes field body ++ rest) s = parseFields h rest (set v).
Proof.
  intros Hh Hf Hv Hd. apply parseFields_field; [done..|]. rewrite Hh. unfold on_message. simpl.
  unfold Reader.readMessage. by rewrite readBytes_enc, Hd.
Qed.

Lemma parse_element {T} (decode : bytes -> T -> bool * T) init field v body rest s push :
  (forall r, h (mkTag field kLengthDelimited) r s =
    on_element decode init (mkTag field kLengthDelimited) r s push) ->
  field_ok field -> Z.of_nat (length body) < 2 ^ 64 -> decodes decode body init v ->
  parseFields h (fBytes field body ++ rest) s = parseFields h rest (push v).
Proof.
  intros Hh Hf Hv Hd. apply parseFields_field; [done..|]. rewrite Hh. unfold on_element. simpl.
  unfold Reader.readMessage. by rewrite readBytes_enc, Hd.
Qed.

End OnEncoded.

(** ** Packed arrays *)

Lemma readPackedFixed_loop_enc w values : (0 < w)%nat ->
  Forall (in_u (8 * Z.of_nat w)) values -> forall fuel out, (length values <= fuel)%nat ->
  readPackedFixed_loop w fuel (concat (map (le_bytes w) values)) out = (true, out ++ values).
Proof.
  intros Hw Hall. induction Hall as [|v l Hv Hall IH]; intros fuel out Hf.
  - destruct fuel; simpl; by rewrite app_nil_r.
  - destruct fuel as [|fuel]; [simpl in *; lia|]. cbn [map concat].
    destruct (le_bytes w v ++ concat (map (le_bytes w) l)) as [|b bs] eqn:E.
    { apply (f_equal length) in E. rewrite length_app, length_le_bytes in E. simpl in E. lia. }
    cbn [readPackedFixed_loop Reader.eof]. rewrite <- E, readFixed_enc by done.
    rewrite IH by (simpl in *; lia). by rewrite <- app_assoc.
Qed.

Lemma readPacked_enc w values rest out : (0 < w)%nat ->
  Forall (in_u (8 * Z.of_nat w)) values -> Z.of_nat (length values) * Z.of_nat w < 2 ^ 64 ->
  readPacked w (enc_bytes (concat (map (le_bytes w) values)) ++ rest) out = (true, rest, out ++ values).
Proof.
  intros Hw Hall Hl. unfold readPacked.
  rewrite readBytes_enc by (rewrite length_concat_le_bytes; lia).
  rewrite length_concat_le_bytes, decide_True by (rewrite Nat.mul_comm; by apply Nat.Div0.mod_mul).
  rewrite readPackedFixed_loop_enc by (done || nia). done.
Qed.

Lemma readDoubleArray_loop_enc values : Forall (in_u 64) values -> forall i out,
  (i + length values <= length out)%nat ->
  readDoubleArray_loop (length values) i (concat (map (le_bytes 8) values)) out
  = (true, take i out ++ values ++ drop (i + length values) out).
Proof.
  intros Hall. induction Hall as [|v l Hv Hall IH]; intros i out Hl.
  - simpl. rewrite Nat.add_0_r. by rewrite take_drop.
  - cbn [length map concat readDoubleArray_loop]. unfold Reader.readDouble, Reader.readFixed64.
    rewrite readFixed_enc by done. simpl in Hl.
    rewrite IH by (rewrite length_insert; lia). f_equal.
    replace (i + S (length l))%nat with (S i + length l)%nat by lia.
    rewrite drop_insert_lt by lia. rewrite (take_S_r _ i v).
    + rewrite take_insert_ge by lia. by rewrite <- app_assoc.
    + apply list_lookup_insert_eq. lia.
Qed.

Lemma readPackedDoubleArray_enc N values rest out :
  Forall (in_u 64) values -> length values = N -> length out = N -> Z.of_nat N * 8 < 2 ^ 64 ->
  readPackedDoubleArray N (enc_bytes (concat (map (le_bytes 8) values)) ++ rest) out
  = (true, rest, values).
Proof.
  intros Hall <- Ho Hl. unfold readPackedDoubleArray.
  rewrite readBytes_enc by (rewrite length_concat_le_bytes; lia).
  rewrite length_concat_le_bytes, decide_True by lia.
  rewrite readDoubleArray_loop_enc by (done || lia).
  simpl. rewrite drop_ge by lia. by rewrite app_nil_r.
Qed.

Section OnPacked.
Context {S : Type} (h : Handler S) `{!Advancing h}.

(** A repeated scalar field: the empty array is not written at all. *)
Lemma parse_packed w field values rest s cur set :
  (0 < w)%nat ->
  (forall r, h (mkTag field kLengthDelimited) r s =
    on_packed (readPacked w) (mkTag field kLengthDelimited) r s cur set) ->
  field_ok field -> Forall (in_u (8 * Z.of_nat w)) values ->
  Z.of_nat (length values) * Z.of_nat w < 2 ^ 64 -> set cur = s ->
  parseFields h (fPacked w field values ++ rest) s = parseFields h rest (set (cur ++ values)).
Proof.
  intros Hw Hh Hf Hall Hl Hs. destruct values as [|v l] eqn:E.
  - simpl. by rewrite app_nil_r, Hs.
  - unfold fPacked. apply parseFields_field; [done..|]. rewrite Hh. unfold on_packed. simpl tag_type.
    rewrite decide_True by done. by rewrite readPacked_enc.
Qed.

Lemma parse_packed_array N field values rest s cur set :
  (forall r, h (mkTag field kLengthDelimited) r s =
    on_packed (readPackedDoubleArray N) (mkTag field kLengthDelimited) r s cur set) ->
  field_ok field -> Forall (in_u 64) values -> length values = N -> length cur = N -> (0 < N)%nat ->
  Z.of_nat N * 8 < 2 ^ 64 ->
  parseFields h (fPacked 8 field values ++ rest) s = parseFields h rest (set values).
Proof.
  intros Hh Hf Hall Hv Hc HN Hl. destruct values as [|v l] eqn:E; [simpl in *; lia|].
  unfold fPacked. apply parseFields_field; [done..|]. rewrite Hh. unfold on_packed. simpl tag_type.
  rewrite decide_True by done. by rewrite readPackedDoubleArray_enc.
Qed.

End OnPacked.

(** ** The interface of a message type *)

(** A buffer that a [size_t] can measure. *)
Definition fits (bs : bytes) : Prop := Z.of_nat (length bs) < 2 ^ 64.

Lemma fits_app a b : fits (a ++ b) -> fits a /\ fits b.
Proof. unfold fits. rewrite length_app. lia. Qed.

Lemma fits_fBytes field data : fits (fBytes field data) -> fits data.
Proof. unfold fits, fBytes, enc_bytes. rewrite !length_app. lia. Qed.

Lemma fits_fPacked w field values : fits (fPacked w field values) ->
  Z.of_nat (length values) * Z.of_nat w < 2 ^ 64.
Proof.
  destruct values as [|v l]; [simpl; lia|]. intros H%fits_fBytes. unfold fits in H.
  rewrite length_concat_le_bytes in H. lia.
Qed.

Class WireMessage (T : Type) := {
  wm_write : T -> bytes -> bytes;            (* write...(nested, value) *)
  wm_decode : bytes -> T -> bool * T;        (* decode...(reader, out) *)
  wm_init : T;                               (* the default-constructed value *)
  wm_valid : T -> Prop                       (* values of the C++ type the codec can carry *)
}.

Class WireMessageLaws (T : Type) `{WireMessage T} : Prop := {
  wm_write_app (x : T) (out : bytes) : wm_write x out = out ++ wm_write x [];
  wm_round_trip (x : T) : wm_valid x -> fits (wm_write x []) ->
    decodes wm_decode (wm_write x []) wm_init x
}.

(** [writer.message(field, ...)] for each element of a vector. *)
Definition write_each {T} `{WireMessage T} (field : Z) (xs : list T) (out : bytes) : bytes :=
  fold_left (fun out x => Writer.message field (wm_write x) out) xs out.

Lemma write_each_enc {T} `{WireMessage T} field (xs : list T) out :
  write_each field xs out = out ++ concat (map (fun x => fBytes field (wm_write x [])) xs).
Proof.
  unfold write_each. revert out. induction xs as [|x xs IH]; intros out; simpl; [by rewrite app_nil_r|].
  rewrite IH, message_enc. by rewrite <- app_assoc.
Qed.

(** A repeated message field, all of it. *)
Lemma parse_each {S T} (h : Handler S) `{!Advancing h} `{WireMessageLaws T} field (xs : list T)
    rest (cur : list T) (mk : list T -> S) :
  (forall cur r, h (mkTag field kLengthDelimited) r (mk cur) =
    on_element wm_decode wm_init (mkTag field kLengthDelimited) r (mk cur)
      (fun x => mk (cur ++ [x]))) ->
  field_ok field -> Forall wm_valid xs ->
  fits (concat (map (fun x => fBytes field (wm_write x [])) xs)) ->
  parseFields h (concat (map (fun x => fBytes field (wm_write x [])) xs) ++ rest) (mk cur)
  = parseFields h rest (mk (cur ++ xs)).
Proof.
  intros Hh Hf Hall Hfit. revert cur Hfit.
  induction Hall as [|x xs Hx Hall IH]; intros cur Hfit; simpl; [by rewrite app_nil_r|].
  simpl in Hfit. apply fits_app in Hfit as [Hfx Hfs]. apply fits_fBytes in Hfx.
  rewrite <- app_assoc.
  rewrite (parse_element h wm_decode wm_init field x _ _ (mk cur) (fun x => mk (cur ++ [x])));
    [|done..|by apply wm_round_trip].
  rewrite IH by done. by rewrite <- app_assoc.
Qed.

(** ** Automation for round trips

    [encode_fields] turns a chain of writer calls into the fields it appends;
    [parse_fields] then reads them back one by one, discharging the side
    conditions of the [parse_*] lemmas with [wire_side]. *)

Create HintDb wire.
Create Rewrite HintDb wire.
#[export] Hint Rewrite varint_enc fixed64_enc fixed32_enc bytes_enc string_enc message_enc : wire.

Lemma doubleField_enc field v out : Writer.doubleField field v out = out ++ fFixed64 field v.
Proof. apply fixed64_enc. Qed.
Lemma floatField_enc field v out : Writer.floatField field v out = out ++ fFixed32 field v.
Proof. apply fixed32_enc. Qed.
#[export] Hint Rewrite doubleField_enc floatField_enc @write_each_enc : wire.

Lemma length_fVarint field v : field_ok field -> in_u 64 v -> (length (fVarint field v) <= 20)%nat.
Proof.
  intros. unfold fVarint. rewrite length_app.
  pose proof (length_enc_tag field kVarint ltac:(done) I).
  pose proof (length_enc_varint_u64 v ltac:(done)). lia.
Qed.

Lemma length_fFixed64 field v : field_ok field -> (length (fFixed64 field v) <= 18)%nat.
Proof.
  intros. unfold fFixed64. rewrite length_app, length_le_bytes.
  pose proof (length_enc_tag field kFixed64 ltac:(done) I). lia.
Qed.

(** [length] bounds a field of bytes by its content. *)
Lemma length_fBytes field data : field_ok field -> fits data ->
  (length (fBytes field data) <= 20 + length data)%nat.
Proof.
  intros. unfold fBytes, enc_bytes. rewrite !length_app.
  pose proof (length_enc_tag field kLengthDelimited ltac:(done) I).
  pose proof (length_enc_varint_u64 (Z.of_nat (length data)) ltac:(unfold fits, in_u in *; lia)). lia.
Qed.

Ltac encode_fields := autorewrite with wire; rewrite <- ?app_assoc; cbn [app].

Ltac close_stream :=
  match goal with
  | |- context [parseFields ?h ?bs ?s] => rewrite <- (app_nil_r bs) at 1; rewrite <- ?app_assoc
  end.

Ltac wire_side :=
  lazymatch goal with
  | |- field_ok _ => unfold field_ok; lia
  | |- _ => first [ assumption | solve [eauto with wire] | apply wrapU_range; lia
                  | unfold in_u in *; lia ]
  end.

#[export] Hint Rewrite packedDouble_enc packedFixed32_enc using (first [assumption | lia]) : wire.

(** Reads back the field in front with the given lemma. *)
Ltac parse_with lemma :=
  erewrite lemma; [|apply _|intros; reflexivity|wire_side|wire_side]; cbv beta.

(** The same for a nested message, whose decoder is known by a lemma of [wire]. *)
Ltac parse_nested :=
  erewrite parse_message;
    [|apply _|intros; reflexivity|wire_side|assumption|solve [eauto with wire]]; cbv beta.

(** The same for a nested message decoded into a local. *)
Ltac parse_local :=
  erewrite parse_element;
    [|apply _|intros; reflexivity|wire_side|assumption|solve [eauto with wire]]; cbv beta.

(** The same for a packed array, appended to a vector or stored in a
    fixed-size array. *)
Ltac parse_packed_field :=
  first
    [ erewrite parse_packed;
        [|apply _|lia|intros; reflexivity|wire_side|assumption|assumption|reflexivity]; cbv beta; cbn [app]
    | erewrite parse_packed_array;
        [|apply _|intros; reflexivity|wire_side|assumption|eassumption|reflexivity|lia|lia]; cbv beta ].

(** The same for a repeated message field. *)
Ltac parse_each_field mk :=
  rewrite (parse_each _ _ _ _ _ mk); [cbv beta; cbn [app]|intros; reflexivity|wire_side|assumption|assumption].

Ltac parse_field :=
  lazymatch goal with
  | |- context [parseFields _ (fFixed64 _ _ ++ _) _] => parse_with @parse_double
  | |- context [parseFields _ (fVarint _ _ ++ _) _] => parse_with @parse_varint
  | |- context [parseFields _ (fFixed32 _ _ ++ _) _] => parse_with @parse_float
  | |- context [parseFields _ (fPacked _ _ _ ++ _) _] => parse_packed_field
  | |- context [parseFields _ (fBytes _ _ ++ _) _] => first [parse_nested | parse_local | parse_with @parse_bytes]
  end.

(** Splits the hypothesis that a whole stream fits into its fields. *)
Ltac split_fits :=
  repeat match goal with
  | H : fits (_ ++ _) |- _ => apply fits_app in H as [? ?]
  | H : fits (fBytes _ _) |- _ => apply fits_fBytes in H
  end.

(** ** Decoding a whole buffer *)

(** The shape of every [deserialize...]: an empty buffer is an error, then one
    field loop over a default-constructed object. *)
Definition deserialize {S} (what : string) (h : Handler S) (init : S) (data : bytes) : Expected S :=
  if decide (data = []) then Err (String.app what " wire: empty buffer")
  else
    let '(ok, s) := decode_fields h data init in
    if ok then Ok s else Err (String.app what " wire: decode failed").

Lemma deserialize_ok {S} what (h : Handler S) init data s :
  data <> [] -> parseFields h data init = (true, [], s) -> deserialize what h init data = Ok s.
Proof.
  intros Hne Hp. unfold deserialize, decode_fields. by rewrite decide_False, Hp.
Qed.

Lemma field_not_nil field type payload rest : field_ok field -> wt_ok type ->
  (enc_tag field type ++ payload) ++ rest <> [].
Proof.
  intros Hf Ht H. pose proof (length_enc_tag field type Hf Ht) as Hl.
  apply (f_equal length) in H. rewrite !length_app in H. simpl in H. lia.
Qed.

(** Finishes a round trip: [data] starts with a field, and every field reads back. *)
Ltac solve_round_trip :=
  apply deserialize_ok;
    [apply field_not_nil; [wire_side|exact I] | close_stream; repeat parse_field; by rewrite parseFields_nil].

(** ** Decoding a stream of messages

    The outer decoders of the repeated messages are loops of their own,
    stricter than [parseFields]: a field that is not a message is skipped, and
    a message that does not decode is an error.  [step] is the dispatch on the
    field number. *)

Section MessageLoop.
Context {S : Type} (what : string) (step : Z -> bytes -> S -> Expected S).

Fixpoint message_loop (fuel : nat) (reader : bytes) (s : S) : Expected S :=
  if Reader.eof reader then Ok s
  else
    match fuel with
    | O => Err "out of fuel"
    | Datatypes.S fuel' =>
        match Reader.readTag reader with
        | (None, _) => Err (String.app what " wire: bad tag")
        | (Some tag, reader) =>
            if decide (tag_type tag = kLengthDelimited) then
              match Reader.readMessage reader with
              | (None, _) => Err (String.app what " wire: bad nested message length")
              | (Some nested, reader) =>
                  match step (tag_field tag) nested s with
                  | Ok s' => message_loop fuel' reader s'
                  | Err e => Err e
                  end
              end
            else
              let '(skipped, reader) := Reader.skip (tag_type tag) reader in
              if skipped then message_loop fuel' reader s
              else Err (String.app what " wire: skip failed")
        end
    end.

Definition parseMessages (reader : bytes) (s : S) : Expected S :=
  message_loop (length reader) reader s.

Definition deserialize_messages (init : S) (data : bytes) : Expected S :=
  if decide (data = []) then Err (String.app what " wire: empty buffer") else parseMessages data init.

(** The fuel is enough: every iteration reads a tag. *)
Lemma message_loop_irrel f g reader s :
  (length reader <= f)%nat -> (length reader <= g)%nat ->
  message_loop f reader s = message_loop g reader s.
Proof.
  revert g reader s. induction f as [|f IH]; intros g reader s Hf Hg.
  - destruct reader; [by destruct g|simpl in *; lia].
  - destruct reader as [|b r]; [by destruct g|]. destruct g as [|g]; [simpl in *; lia|].
    cbn [message_loop Reader.eof].
    destruct (Reader.readTag (b :: r)) as [[tag|] r1] eqn:E1; [|done].
    apply readTag_shrinks in E1 as [_ E1]. specialize (E1 ltac:(eauto)).
    case_decide.
    + destruct (Reader.readMessage r1) as [[nested|] r2] eqn:E2; [|done].
      apply readBytes_shrinks in E2 as [E2 _].
      destruct (step (tag_field tag) nested s) as [s'|e]; [apply IH; lia|done].
    + destruct (Reader.skip (tag_type tag) r1) as [[] r2] eqn:E2; [|done].
      apply skip_shrinks in E2. apply IH; lia.
Qed.

Lemma parseMessages_nil s : parseMessages [] s = Ok s.
Proof. done. Qed.

Lemma parseMessages_field field nested s s' rest : field_ok field -> fits nested ->
  step field nested s = Ok s' ->
  parseMessages (fBytes field nested ++ rest) s = parseMessages rest s'.
Proof.
  intros Hf Hn Hstep. unfold parseMessages.
  pose proof (length_enc_tag field kLengthDelimited Hf I) as Htag.
  assert (Hlt : (length rest < length (fBytes field nested ++ rest))%nat).
  { unfold fBytes. rewrite !length_app. lia. }
  destruct (length (fBytes field nested ++ rest)) as [|n] eqn:Hn'; [lia|]. cbn [message_loop].
  destruct (fBytes field nested ++ rest) as [|b bs] eqn:E; [simpl in *; lia|].
  cbn [Reader.eof]. rewrite <- E. unfold fBytes. rewrite <- app_assoc, readTag_enc by done. simpl.
  unfold Reader.readMessage. rewrite readBytes_enc, Hstep by done.
  apply message_loop_irrel; lia.
Qed.

(** A repeated message of the stream, all of it. *)
Lemma parseMessages_each {T} `{WireMessageLaws T} field (xs : list T) rest (cur : list T)
    (mk : list T -> S) :
  (forall cur nested x, decodes wm_decode nested wm_init x ->
    step field nested (mk cur) = Ok (mk (cur ++ [x]))) ->
  field_ok field -> Forall wm_valid xs ->
  fits (concat (map (fun x => fBytes field (wm_write x [])) xs)) ->
  parseMessages (concat (map (fun x => fBytes field (wm_write x [])) xs) ++ rest) (mk cur)
  = parseMessages rest (mk (cur ++ xs)).
Proof.
  intros Hstep Hf Hall. revert cur. induction Hall as [|x xs Hx Hall IH]; intros cur Hfit; simpl;
    [by rewrite app_nil_r|].
  simpl in Hfit. apply fits_app in Hfit as [Hfx Hfs]. apply fits_fBytes in Hfx.
  rewrite <- app_assoc, (parseMessages_field _ _ _ (mk (cur ++ [x])));
    [|done..|by apply Hstep, wm_round_trip].
  rewrite IH by done. by rewrite <- app_assoc.
Qed.

End MessageLoop.

(** A repeated message field is not empty when the vector is not. *)
Lemma each_not_nil {T} (f : T -> bytes) field x xs rest : field_ok field ->
  concat (map (fun x => fBytes field (f x)) (x :: xs)) ++ rest <> [].
Proof. intros Hf. simpl. rewrite <- app_assoc. by apply field_not_nil. Qed.
