(* ===== verification/Float64.v ===== *)
(** * Float64: the [double] and [float] of the code

    IEEE 754 arithmetic is part of the language; it is taken from the
    Standard Library's executable specification [SpecFloat], at the binary64
    (precision 53, maximal exponent 1024) and binary32 formats.  Values that
    the code only copies stay bit patterns ([Z]); [f64_of_bits] and
    [bits_of_f64] go between a pattern and the number it denotes. *)

From Stdlib Require Export SpecFloat.
From S2P Require Import Prelude.

Abbreviation double := spec_float.

Definition decode_ieee (mbits ebits : Z) (bits : Z) : spec_float :=
  let s := Z.testbit bits (mbits + ebits) in
  let e := Z.land (Z.shiftr bits mbits) (Z.ones ebits) in
  let m := Z.land bits (Z.ones mbits) in
  let emin := 3 - 2 ^ (ebits - 1) - (mbits + 1) in
  if e =? 0 then
    match m with
    | Zpos p => S754_finite s p emin
    | _ => S754_zero s
    end
  else if e =? Z.ones ebits then
    if m =? 0 then S754_infinity s else S754_nan
  else
    match m + 2 ^ mbits with
    | Zpos p => S754_finite s p (e - 1 + emin)
    | _ => S754_nan  (* not reached: the sum is positive *)
    end.

Definition f64_of_bits : Z -> double := decode_ieee 52 11.
Definition f32_of_bits : Z -> spec_float := decode_ieee 23 8.

Definition sign_bit (s : bool) : Z := if s then 2 ^ 63 else 0.

(** The pattern, 64 bits, of a canonical binary64 value (the default pattern
    for a NaN, whose payload [spec_float] does not keep). *)
Definition bits_of_f64 (d : double) : Z :=
  wrapU 64
    match d with
    | S754_zero s => sign_bit s
    | S754_infinity s => sign_bit s + 0x7FF0000000000000
    | S754_nan => 0x7FF8000000000000
    | S754_finite s m e =>
        if Zpos m <? 2 ^ 52 then sign_bit s + Zpos m
        else sign_bit s + Z.shiftl (e + 1075) 52 + (Zpos m - 2 ^ 52)
    end.

(** [static_cast<float>] of a [double]: round to nearest, ties to even. *)
Definition f32_of_f64 (d : double) : spec_float :=
  match d with
  | S754_finite s m e => binary_normalize 24 128 (cond_Zopp s (Zpos m)) e s
  | _ => d
  end.

(** The pattern, 32 bits, of a canonical binary32 value. *)
Definition bits_of_f32 (f : spec_float) : Z :=
  let sign s := if (s : bool) then 2 ^ 31 else 0 in
  wrapU 32
    match f with
    | S754_zero s => sign s
    | S754_infinity s => sign s + 0x7F800000
    | S754_nan => 0x7FC00000
    | S754_finite s m e =>
        if Zpos m <? 2 ^ 23 then sign s + Zpos m
        else sign s + Z.shiftl (e + 150) 23 + (Zpos m - 2 ^ 23)
    end.

Definition f64_add : double -> double -> double := SFadd 53 1024.
Definition f64_sub : double -> double -> double := SFsub 53 1024.
Definition f64_mul : double -> double -> double := SFmul 53 1024.
Definition f64_div : double -> double -> double := SFdiv 53 1024.
Definition f64_lt : double -> double -> bool := SFltb.
Definition f64_eq : double -> double -> bool := SFeqb.

(** [static_cast<double>] of an integer: round to nearest, ties to even. *)
Definition f64_of_Z (z : Z) : double := binary_normalize 53 1024 z 0 false.

(** [static_cast<double>] of a [float]: exact. *)
Definition f64_of_f32 (f : spec_float) : double :=
  match f with
  | S754_finite s m e => binary_normalize 53 1024 (cond_Zopp s (Zpos m)) e false
  | _ => f
  end.

(** The integer part of a finite value; a conversion of a NaN or an infinity
    to an integer type is undefined behaviour. *)
Definition f64_trunc (d : double) : option Z :=
  match d with
  | S754_zero _ => Some 0
  | S754_finite s m e =>
      let a := if 0 <=? e then Zpos m * 2 ^ e else Zpos m / 2 ^ (- e) in
      Some (cond_Zopp s a)
  | _ => None
  end.

(** [static_cast<int64_t>] and friends: undefined outside of the target. *)
Definition f64_to_s64 (d : double) : option Z :=
  z ← f64_trunc d; if decide (in_s 64 z) then Some z else None.
Definition f64_to_u64 (d : double) : option Z :=
  z ← f64_trunc d; if decide (in_u 64 z) then Some z else None.
Definition f64_to_s32 (d : double) : option Z :=
  z ← f64_trunc d; if decide (in_s 32 z) then Some z else None.
Definition f64_to_u8 (d : double) : option Z :=
  z ← f64_trunc d; if decide (in_u 8 z) then Some z else None.

Definition f64_is_nan (d : double) : bool := match d with S754_nan => true | _ => false end.
Definition f64_is_finite (d : double) : bool :=
  match d with S754_zero _ | S754_finite _ _ _ => true | _ => false end.

Definition f64_zero : double := S754_zero false.
Definition f64_one : double := f64_of_Z 1.
Definition f64_max : double := S754_finite false (2 ^ 53 - 1) 971.
Definition f64_lowest : double := S754_finite true (2 ^ 53 - 1) 971.

#[export] Instance spec_float_eq_dec : EqDecision spec_float.
Proof. solve_decision. Defined.

(** ** Facts about the operations the code relies on *)

Lemma bits_of_f64_range d : in_u 64 (bits_of_f64 d).
Proof. by apply wrapU_range. Qed.

Lemma bits_of_f32_range f : in_u 32 (bits_of_f32 f).
Proof. by apply wrapU_range. Qed.

Lemma bits_of_f64_spot :
  map bits_of_f64 [f64_zero; f64_one; f64_of_Z (-2); f64_max; S754_infinity true]
  = [0; 0x3FF0000000000000; 0xC000000000000000; 0x7FEFFFFFFFFFFFFF; 0xFFF0000000000000].
Proof. vm_compute. reflexivity. Qed.

Lemma f64_of_bits_spot :
  map f64_of_bits [0; 0x3FF0000000000000; 0xC000000000000000; 0x7FEFFFFFFFFFFFFF; 1; 0x7FF8000000000001]
  = [f64_zero; f64_one; f64_of_Z (-2); f64_max; S754_finite false 1 (-1074); S754_nan].
Proof. vm_compute. reflexivity. Qed.

Definition f64_is_zero (d : double) : bool := match d with S754_zero _ => true | _ => false end.

(** [==] on doubles: the same number, or two zeros; never a NaN. *)
Lemma f64_eq_spec a b :
  f64_eq a b = true <->
    f64_is_nan a = false /\ (a = b \/ f64_is_zero a = true /\ f64_is_zero b = true).
Proof.
  unfold f64_eq, SFeqb, SFcompare.
  destruct a as [[]|[]| |[] m e], b as [[]|[]| |[] m' e']; simpl; try (split; [by intuition|];
    intros (?&[?|[? ?]]); congruence).
  all: change (Pos.compare_cont Eq m m') with (m ?= m')%positive;
    destruct (Z.compare_spec e e'), (Pos.compare_spec m m'); subst; simpl;
    split; try (by intuition); intros (?&[?|[? ?]]); simplify_eq; lia.
Qed.

Lemma f64_eq_refl a : f64_is_nan a = false -> f64_eq a a = true.
Proof. intros. apply f64_eq_spec. auto. Qed.

Lemma f64_eq_trans a b c : f64_eq a b = true -> f64_eq b c = true -> f64_eq a c = true.
Proof. rewrite !f64_eq_spec. intros (H1&[->|[H2 H3]]) (H4&[->|[H5 H6]]); eauto. Qed.

Lemma f64_eq_sym a b : f64_eq a b = f64_eq b a.
Proof.
  apply eq_true_iff_eq. rewrite !f64_eq_spec.
  split; intros (H1&[->|[H2 H3]]); split; auto; by destruct a, b.
Qed.

(** ** The order of the finite values *)

(** [std::min] and [std::max] on doubles. *)
Definition f64_min (a b : double) : double := if f64_lt b a then b else a.
Definition f64_max_of (a b : double) : double := if f64_lt a b then b else a.

(** Sign, exponent and mantissa order the finite values. *)
Definition f64_key (d : double) : Z * Z * Z :=
  match d with
  | S754_finite s m e => let sg x := if s then - x else x in (sg 1, sg e, sg (Zpos m))
  | _ => (0, 0, 0)
  end.

Definition key_lt (a b : Z * Z * Z) : Prop :=
  let '(s, e, m) := a in let '(s', e', m') := b in
  s < s' \/ s = s' /\ (e < e' \/ e = e' /\ m < m').

Lemma f64_lt_key a b : f64_is_finite a = true -> f64_is_finite b = true ->
  f64_lt a b = true <-> key_lt (f64_key a) (f64_key b).
Proof.
  unfold f64_lt, SFltb, SFcompare.
  destruct a as [[]|[]| |[] m e], b as [[]|[]| |[] m' e']; simpl; intros Ha Hb;
    try discriminate; try (split; intros; (done || lia)).
  all: change (Pos.compare_cont Eq m m') with (m ?= m')%positive;
    destruct (Z.compare_spec e e'), (Pos.compare_spec m m'); subst; simpl; split; intros; (done || lia).
Qed.

(** [a] is at most [b]. *)
Definition f64_le (a b : double) : Prop := f64_lt b a = false.

Lemma f64_lt_irrefl a : f64_is_finite a = true -> f64_le a a.
Proof.
  intros Ha. apply not_true_iff_false. rewrite f64_lt_key by done.
  destruct (f64_key a) as [[s e] m]. simpl. lia.
Qed.

Lemma f64_lt_le a b : f64_is_finite a = true -> f64_is_finite b = true -> f64_lt a b = true -> f64_le a b.
Proof.
  intros Ha Hb. unfold f64_le. rewrite <- not_true_iff_false, !f64_lt_key by done.
  destruct (f64_key a) as [[s e] m], (f64_key b) as [[s' e'] m']. simpl. lia.
Qed.

Lemma f64_le_trans a b c : f64_is_finite a = true -> f64_is_finite b = true -> f64_is_finite c = true ->
  f64_le a b -> f64_le b c -> f64_le a c.
Proof.
  intros Ha Hb Hc. unfold f64_le. rewrite <- !not_true_iff_false, !f64_lt_key by done.
  destruct (f64_key a) as [[s e] m], (f64_key b) as [[s' e'] m'], (f64_key c) as [[s'' e''] m'']. simpl. lia.
Qed.

(** ** Patterns and numbers

    A pattern that is not a NaN and the canonical number it denotes determine
    each other. *)

(** The numbers binary64 has. *)
Definition f64_valid (d : double) : Prop := valid_binary 53 1024 d = true.

Lemma digits2_pos_bounds m : 2 ^ (Zpos (digits2_pos m) - 1) <= Zpos m < 2 ^ Zpos (digits2_pos m).
Proof.
  induction m as [m IH|m IH|]; cbn [digits2_pos]; [..|done];
    rewrite Pos2Z.inj_succ, Z.sub_1_r, Z.pred_succ, Z.pow_succ_r by lia;
    replace (2 ^ Zpos (digits2_pos m)) with (2 * 2 ^ (Zpos (digits2_pos m) - 1)) in *
      by (rewrite <- Z.pow_succ_r by lia; f_equal; lia); lia.
Qed.

(** A mantissa of 53 bits over the exponent, or a smaller one at the bottom. *)
Lemma bounded_spec m e : bounded 53 1024 m e = true <->
  (2 ^ 52 <= Zpos m < 2 ^ 53 /\ -1074 <= e <= 971) \/ (Zpos m < 2 ^ 52 /\ e = -1074).
Proof.
  unfold bounded, canonical_mantissa, fexp, emin. rewrite andb_true_iff, Z.eqb_eq, Z.leb_le.
  pose proof (digits2_pos_bounds m) as [Hl Hu]. set (d := Zpos (digits2_pos m)) in *.
  assert (Hd : 53 <= d -> 2 ^ 52 <= Zpos m).
  { intros. etrans; [|exact Hl]. apply Z.pow_le_mono_r; lia. }
  assert (Hd' : d <= 53 -> Zpos m < 2 ^ 53).
  { intros. eapply Z.lt_le_trans; [exact Hu|]. apply Z.pow_le_mono_r; lia. }
  assert (Hd'' : d <= 52 -> Zpos m < 2 ^ 52).
  { intros. eapply Z.lt_le_trans; [exact Hu|]. apply Z.pow_le_mono_r; lia. }
  assert (Hd3 : 54 <= d -> 2 ^ 53 <= Zpos m).
  { intros. etrans; [|exact Hl]. apply Z.pow_le_mono_r; lia. }
  lia.
Qed.

(** The three parts of a pattern. *)
Lemma f64_pattern bits : in_u 64 bits ->
  let s := Z.testbit bits 63 in
  let e := Z.land (Z.shiftr bits 52) (Z.ones 11) in
  let m := Z.land bits (Z.ones 52) in
  bits = sign_bit s + e * 2 ^ 52 + m /\ 0 <= e < 2 ^ 11 /\ 0 <= m < 2 ^ 52.
Proof.
  intros [H0 H1]. cbv zeta. rewrite !Z.land_ones, Z.shiftr_div_pow2 by lia.
  pose proof (Z.mod_pos_bound (bits / 2 ^ 52) (2 ^ 11) ltac:(lia)).
  pose proof (Z.mod_pos_bound bits (2 ^ 52) ltac:(lia)). split_and!; try lia.
  rewrite Z.testbit_eqb by lia.
  pose proof (Z.div_mod bits (2 ^ 52) ltac:(lia)).
  pose proof (Z.div_mod (bits / 2 ^ 52) (2 ^ 11) ltac:(lia)) as Hq.
  rewrite Z.div_div, <- Z.pow_add_r in Hq by lia. change (52 + 11) with 63 in Hq.
  assert (0 <= bits / 2 ^ 63 < 2) by (split; [apply Z.div_pos; lia|apply Z.div_lt_upper_bound; lia]).
  assert (bits / 2 ^ 63 = 0 \/ bits / 2 ^ 63 = 1) as [Hs|Hs] by lia; rewrite Hs in *;
    [change (0 mod 2 =? 1) with false|change (1 mod 2 =? 1) with true]; unfold sign_bit; lia.
Qed.

Lemma f64_of_bits_unfold bits :
  f64_of_bits bits =
    let s := Z.testbit bits 63 in
    let e := Z.land (Z.shiftr bits 52) (Z.ones 11) in
    let m := Z.land bits (Z.ones 52) in
    if e =? 0 then match m with Zpos p => S754_finite s p (-1074) | _ => S754_zero s end
    else if e =? 2047 then (if m =? 0 then S754_infinity s else S754_nan)
    else match m + 2 ^ 52 with Zpos p => S754_finite s p (e - 1075) | _ => S754_nan end.
Proof.
  unfold f64_of_bits, decode_ieee. cbv zeta. change (52 + 11) with 63. change (Z.ones 11 =? 0) with false.
  change (Z.ones 11) with 2047 at 3. destruct (_ =? 0); [done|]. destruct (_ =? 2047); [done|].
  destruct (_ + 2 ^ 52); try done. f_equal. change (3 - 2 ^ (11 - 1) - (52 + 1)) with (-1074). lia.
Qed.

Lemma f64_of_bits_valid bits : in_u 64 bits -> f64_valid (f64_of_bits bits).
Proof.
  intros (_ & He & Hm)%f64_pattern. rewrite f64_of_bits_unfold. cbv zeta. unfold f64_valid.
  destruct (Z.eqb_spec (Z.land (Z.shiftr bits 52) (Z.ones 11)) 0).
  { destruct (Z.land bits (Z.ones 52)) as [|p|p]; [done| |done]. apply bounded_spec. right. lia. }
  destruct (Z.eqb_spec (Z.land (Z.shiftr bits 52) (Z.ones 11)) 2047); [by destruct (_ =? 0)|].
  destruct (Z.land bits (Z.ones 52) + 2 ^ 52) as [|p|p] eqn:E; [done| |done].
  apply bounded_spec. left. lia.
Qed.

Lemma sign_bit_range s : 0 <= sign_bit s <= 2 ^ 63.
Proof. destruct s; cbn; lia. Qed.

Lemma bits_of_f64_of_bits bits : in_u 64 bits -> f64_is_nan (f64_of_bits bits) = false ->
  bits_of_f64 (f64_of_bits bits) = bits.
Proof.
  intros Hb. pose proof (f64_pattern bits Hb) as (Hbits & He & Hm).
  rewrite f64_of_bits_unfold. cbv zeta in *. unfold bits_of_f64.
  set (s := Z.testbit bits 63) in *. set (e := Z.land (Z.shiftr bits 52) (Z.ones 11)) in *.
  set (m := Z.land bits (Z.ones 52)) in *. pose proof (sign_bit_range s).
  intros Hnan. transitivity (wrapU 64 bits); [|by apply wrapU_small].
  destruct (Z.eqb_spec e 0) as [E|E].
  { f_equal. destruct m as [|p|p]; [lia| |lia].
    rewrite (proj2 (Z.ltb_lt _ _)) by lia. lia. }
  destruct (Z.eqb_spec e 2047) as [E'|E'].
  { destruct (Z.eqb_spec m 0) as [Em|Em]; [|done]. f_equal. lia. }
  destruct (m + 2 ^ 52) as [|p|p] eqn:Ep; [lia| |lia]. f_equal.
  rewrite (proj2 (Z.ltb_ge _ _)) by lia. rewrite Z.shiftl_mul_pow2 by lia. lia.
Qed.

Lemma f64_of_bits_parts s e m : 0 <= e < 2 ^ 11 -> 0 <= m < 2 ^ 52 ->
  Z.testbit (sign_bit s + e * 2 ^ 52 + m) 63 = s
  /\ Z.land (Z.shiftr (sign_bit s + e * 2 ^ 52 + m) 52) (Z.ones 11) = e
  /\ Z.land (sign_bit s + e * 2 ^ 52 + m) (Z.ones 52) = m.
Proof.
  intros He Hm. rewrite !Z.land_ones, Z.shiftr_div_pow2, Z.testbit_eqb by lia.
  assert (Hs : sign_bit s = (if s then 2 ^ 11 else 0) * 2 ^ 52) by (destruct s; done).
  assert (Hd : (sign_bit s + e * 2 ^ 52 + m) / 2 ^ 52 = (if s then 2 ^ 11 else 0) + e).
  { rewrite Hs, <- Z.mul_add_distr_r, Z.div_add_l, Z.div_small by lia. lia. }
  split_and!.
  - change (2 ^ 63) with (2 ^ 52 * 2 ^ 11). rewrite <- Z.div_div, Hd by lia. destruct s.
    + replace (2 ^ 11 + e) with (1 * 2 ^ 11 + e) by lia. by rewrite Z.div_add_l, (Z.div_small e) by lia.
    + by rewrite Z.div_small by lia.
  - rewrite Hd. destruct s.
    + replace (2 ^ 11 + e) with (e + 1 * 2 ^ 11) by lia. rewrite Z.mod_add by lia. apply Z.mod_small. lia.
    + apply Z.mod_small. lia.
  - rewrite Hs, <- Z.mul_add_distr_r, Z.add_comm, Z.mod_add by lia. apply Z.mod_small. lia.
Qed.

(** The number of a canonical value's pattern is the value. *)
Lemma f64_of_bits_of_f64 d : f64_valid d -> f64_of_bits (bits_of_f64 d) = d.
Proof.
  unfold f64_valid. intros Hd. destruct d as [s|s| |s m e]; [by destruct s..|vm_compute; done|].
  cbn [valid_binary] in Hd. apply bounded_spec in Hd. pose proof (sign_bit_range s).
  assert (exists e' m', 0 <= e' < 2047 /\ 0 <= m' < 2 ^ 52 /\
    bits_of_f64 (S754_finite s m e) = sign_bit s + e' * 2 ^ 52 + m' /\
    (e' = 0 /\ m' = Zpos m /\ e = -1074 \/ e' <> 0 /\ e' - 1075 = e /\ m' + 2 ^ 52 = Zpos m)) as H1.
  { unfold bits_of_f64. destruct (Z.ltb_spec (Zpos m) (2 ^ 52)).
    - exists 0, (Zpos m). split_and!; [lia..| |lia]. rewrite wrapU_small; [lia|]. unfold in_u. lia.
    - exists (e + 1075), (Zpos m - 2 ^ 52). split_and!; [lia..| |lia].
      rewrite Z.shiftl_mul_pow2, wrapU_small by (unfold in_u; lia). lia. }
  destruct H1 as (e' & m' & He' & Hm' & -> & Hcase).
  destruct (f64_of_bits_parts s e' m' ltac:(lia) Hm') as (H1 & H2 & H3).
  rewrite f64_of_bits_unfold, H1, H2, H3. cbv zeta.
  destruct Hcase as [(-> & -> & ->)|(Hne & <- & Hm)]; [done|].
  rewrite (proj2 (Z.eqb_neq e' 0)), (proj2 (Z.eqb_neq e' 2047)), Hm by lia. done.
Qed.

(** ** Scaling by a power of two *)

Definition f64_two : double := f64_of_Z 2.
Definition f64_half : double := f64_div f64_one f64_two.

(** [m * 2^n] *)
Definition pos_shift (n : nat) (m : positive) : positive := Nat.iter n xO m.

Lemma iter_pos_nat {A} (f : A -> A) p x : SpecFloat.iter_pos f p x = Nat.iter (Pos.to_nat p) f x.
Proof.
  assert (Hadd : forall n m (y : A), Nat.iter (n + m) f y = Nat.iter n f (Nat.iter m f y)).
  { intros n m y. induction n as [|n IHn]; simpl; [done|]. by rewrite IHn. }
  revert x. induction p as [p IH|p IH|]; intros x; [..|done]; cbn [SpecFloat.iter_pos]; rewrite !IH, <- Hadd.
  - rewrite Pos2Nat.inj_xI. replace (S (2 * Pos.to_nat p)) with (Pos.to_nat p + Pos.to_nat p + 1)%nat by lia.
    by rewrite (Hadd _ 1%nat).
  - rewrite Pos2Nat.inj_xO. f_equal. lia.
Qed.

Lemma shr_pos_shift n m : Nat.iter n shr_1 (Build_shr_record (Zpos (pos_shift n m)) false false)
  = Build_shr_record (Zpos m) false false.
Proof. induction n as [|n IH]; [done|]. rewrite Nat.iter_succ_r. exact IH. Qed.

Lemma digits2_pos_shift n m : Zpos (digits2_pos (pos_shift n m)) = Zpos (digits2_pos m) + Z.of_nat n.
Proof.
  induction n as [|n IH]; [simpl; lia|].
  change (digits2_pos (pos_shift (S n) m)) with (Pos.succ (digits2_pos (pos_shift n m))).
  rewrite Pos2Z.inj_succ, IH. lia.
Qed.

Lemma pos_mul_shift n m : (m * pos_shift n 1)%positive = pos_shift n m.
Proof.
  rewrite Pos.mul_comm. induction n as [|n IH]; [done|].
  change (xO (pos_shift n 1 * m) = xO (pos_shift n m)). by rewrite IH.
Qed.

Lemma shr_exact n m E : (0 < n)%nat ->
  shr (Build_shr_record (Zpos (pos_shift n m)) false false) E (Z.of_nat n)
  = (Build_shr_record (Zpos m) false false, E + Z.of_nat n).
Proof.
  intros Hn. destruct n as [|n]; [lia|]. unfold shr.
  change (Z.of_nat (S n)) with (Zpos (Pos.of_succ_nat n)). cbv iota.
  by rewrite iter_pos_nat, SuccNat2Pos.id_succ, shr_pos_shift.
Qed.

(** Rounding a number that needs none. *)
Lemma round_exact s m n E : (0 < n)%nat -> bounded 53 1024 m (E + Z.of_nat n) = true ->
  binary_round_aux 53 1024 s (Zpos (pos_shift n m)) E loc_Exact = S754_finite s m (E + Z.of_nat n).
Proof.
  intros Hn [Hc He]%andb_true_iff. unfold canonical_mantissa in Hc. apply Z.eqb_eq in Hc.
  unfold binary_round_aux, shr_fexp. cbn [Zdigits2]. rewrite digits2_pos_shift.
  replace (Zpos (digits2_pos m) + Z.of_nat n + E) with (Zpos (digits2_pos m) + (E + Z.of_nat n)) by lia.
  rewrite Hc. replace (E + Z.of_nat n - E) with (Z.of_nat n) by lia.
  cbn [shr_record_of_loc]. rewrite shr_exact by done.
  cbn [shr_m loc_of_shr_record round_nearest_even Zdigits2]. rewrite Hc, Z.sub_diag.
  cbn [shr shr_record_of_loc shr_m]. by rewrite He.
Qed.

(** Finite, and twice it is finite too: below 2^1023. *)
Definition f64_can_double (d : double) : bool :=
  match d with S754_zero _ => true | S754_finite _ _ e => e <=? 970 | _ => false end.

(** Twice such a value, halved again, is the value: neither step rounds. *)
Lemma f64_double_halve d : f64_valid d -> f64_can_double d = true ->
  f64_valid (f64_mul d f64_two) /\ f64_mul (f64_mul d f64_two) f64_half = d.
Proof.
  assert (H2 : f64_two = S754_finite false (pos_shift 52 1) (-51)) by (vm_compute; done).
  assert (Hh : f64_half = S754_finite false (pos_shift 52 1) (-53)) by (vm_compute; done).
  rewrite H2, Hh. unfold f64_valid, f64_mul. intros Hd He.
  destruct d as [s|s| |s m e]; [by destruct s|done..|]. apply Z.leb_le in He.
  cbn [SFmul valid_binary xorb] in *. rewrite pos_mul_shift, xorb_false_r.
  apply bounded_spec in Hd as Hb. destruct (decide (2 ^ 52 <= Zpos m)) as [Hm|Hm].
  - rewrite (round_exact s m 52) by (lia || (apply bounded_spec; left; lia)).
    cbn [SFmul valid_binary]. rewrite pos_mul_shift, xorb_false_r. split; [apply bounded_spec; left; lia|].
    rewrite (round_exact s m 52) by (lia || (apply bounded_spec; left; lia)). f_equal. lia.
  - assert (e = -1074) as -> by lia.
    change (pos_shift 52 m) with (pos_shift 51 (xO m)).
    assert (bounded 53 1024 (xO m) (-1074) = true) by (apply bounded_spec; lia).
    rewrite (round_exact s (xO m) 51) by (lia || done). cbn [SFmul valid_binary].
    rewrite pos_mul_shift, xorb_false_r. split; [done|].
    change (pos_shift 52 (xO m)) with (pos_shift 53 m).
    rewrite (round_exact s m 53) by (lia || (apply bounded_spec; right; lia)). done.
Qed.

(** ** Integers that doubles tell apart *)

Lemma shr_1_half mrs : 0 <= shr_m mrs -> shr_m (shr_1 mrs) = shr_m mrs / 2.
Proof.
  destruct mrs as [[|[p|p|]|p] r s]; intros Hm; cbn [shr_m shr_1] in *; try done; [|apply Z.div_unique with 0; lia].
  apply Z.div_unique with 1; lia.
Qed.

(** Shifting out [n] bits leaves those in front of them. *)
Lemma shr_iter_bound n : forall b mrs, (n <= b)%nat -> 2 ^ Z.of_nat b <= shr_m mrs ->
  2 ^ Z.of_nat (b - n) <= shr_m (Nat.iter n shr_1 mrs).
Proof.
  induction n as [|n IH]; intros b mrs Hn Hm; [by rewrite Nat.sub_0_r|]. rewrite Nat.iter_succ_r.
  replace (b - S n)%nat with (b - 1 - n)%nat by lia. apply IH; [lia|].
  rewrite shr_1_half by (pose proof (Z.pow_pos_nonneg 2 (Z.of_nat b)); lia).
  apply Z.div_le_lower_bound; [lia|]. rewrite <- Z.pow_succ_r by lia. by replace (Z.succ (Z.of_nat (b - 1))) with (Z.of_nat b) by lia.
Qed.

Lemma shr_bound b mrs e n : n <= Z.of_nat b -> 2 ^ Z.of_nat b <= shr_m mrs ->
  1 <= shr_m (shr mrs e n).1 /\ e <= (shr mrs e n).2.
Proof.
  intros Hn Hm. assert (1 <= 2 ^ Z.of_nat b) by (pose proof (Z.pow_pos_nonneg 2 (Z.of_nat b)); lia).
  destruct n as [|p|p]; cbn [shr fst snd]; [lia| |lia]. rewrite iter_pos_nat. split; [|lia].
  pose proof (shr_iter_bound (Pos.to_nat p) b mrs ltac:(lia) Hm). pose proof (Z.pow_pos_nonneg 2 (Z.of_nat (b - Pos.to_nat p))). lia.
Qed.

Lemma digits2_ge m k : 0 <= k -> 2 ^ k <= Zpos m -> k < Zpos (digits2_pos m).
Proof.
  intros Hk Hm. pose proof (digits2_pos_bounds m) as [_ Hu]. apply (Z.pow_lt_mono_r_iff 2); lia.
Qed.

Lemma digits2_le m k : 0 <= k -> Zpos m < 2 ^ k -> Zpos (digits2_pos m) <= k.
Proof.
  intros Hk Hm. pose proof (digits2_pos_bounds m) as [Hl _].
  assert (Zpos (digits2_pos m) - 1 < k); [|lia]. apply (Z.pow_lt_mono_r_iff 2); lia.
Qed.

(** A positive integer below [2^53] is exact. *)
Lemma f64_of_Z_exact m : Zpos m < 2 ^ 53 -> exists k, (k <= 52)%nat /\
  f64_of_Z (Zpos m) = S754_finite false (pos_shift k m) (- Z.of_nat k).
Proof.
  intros Hm. pose proof (digits2_le m 53 ltac:(lia) Hm) as Hd. set (d := Zpos (digits2_pos m)) in *.
  set (k := Z.to_nat (53 - d)). exists k. split; [unfold k; lia|].
  unfold f64_of_Z, binary_normalize, binary_round, fexp, emin. fold d.
  assert (Hal : shl_align m 0 (Z.max (d + 0 - 53) (3 - 1024 - 53)) = (pos_shift k m, - Z.of_nat k)).
  { unfold shl_align. replace (Z.max (d + 0 - 53) (3 - 1024 - 53) - 0) with (- Z.of_nat k) by (unfold k; lia).
    destruct k as [|k'] eqn:Ek; cbn [Z.of_nat Z.opp]; [done|]. f_equal; [|unfold k in Ek; lia].
    by rewrite Pos2Nat.inj_iter, SuccNat2Pos.id_succ. }
  rewrite Hal. unfold binary_round_aux, shr_fexp. cbn [Zdigits2]. rewrite digits2_pos_shift. fold d.
  unfold fexp, emin. replace (Z.max (d + Z.of_nat k + - Z.of_nat k - 53) (3 - 1024 - 53) - - Z.of_nat k) with 0 by (unfold k; lia).
  cbn [shr shr_record_of_loc shr_m loc_of_shr_record round_nearest_even Zdigits2]. rewrite digits2_pos_shift. fold d.
  unfold fexp, emin. replace (Z.max (d + Z.of_nat k + - Z.of_nat k - 53) (3 - 1024 - 53) - - Z.of_nat k) with 0 by (unfold k; lia).
  cbn [shr shr_record_of_loc shr_m]. destruct (Z.leb_spec (- Z.of_nat k) (1024 - 53)); [done|lia].
Qed.

(** A greater one is no double below [2^53]. *)
Lemma f64_of_Z_big m : 2 ^ 53 <= Zpos m -> match f64_of_Z (Zpos m) with
  | S754_finite _ _ e => 1 <= e | S754_zero _ => False | _ => True end.
Proof.
  intros Hm. pose proof (digits2_ge m 53 ltac:(lia) Hm) as Hd. pose proof (digits2_pos_bounds m) as [Hlow _].
  set (d := Zpos (digits2_pos m)) in *.
  unfold f64_of_Z, binary_normalize, binary_round, fexp, emin. fold d.
  assert (Hal : shl_align m 0 (Z.max (d + 0 - 53) (3 - 1024 - 53)) = (m, 0)).
  { unfold shl_align. destruct (Z.max _ _ - 0) eqn:E; [done|done|lia]. }
  rewrite Hal. unfold binary_round_aux, shr_fexp. cbn [Zdigits2]. fold d. unfold fexp, emin.
  replace (Z.max (d + 0 - 53) (3 - 1024 - 53) - 0) with (d - 53) by lia. cbn [shr_record_of_loc].
  destruct (d - 53) as [|p|p] eqn:Ep; [lia| |lia]. cbn [shr]. rewrite iter_pos_nat.
  pose proof (shr_iter_bound (Pos.to_nat p) (Z.to_nat (d - 1)) (Build_shr_record (Zpos m) false false) ltac:(lia)
    ltac:(rewrite Z2Nat.id by lia; exact Hlow)) as Hb.
  replace (Z.to_nat (d - 1) - Pos.to_nat p)%nat with 52%nat in Hb by lia.
  set (mrs := Nat.iter (Pos.to_nat p) shr_1 _) in *.
  set (r := round_nearest_even (shr_m mrs) (loc_of_shr_record mrs)).
  assert (Hr : 2 ^ Z.of_nat 52 <= r <= shr_m mrs + 1).
  { unfold r, round_nearest_even. destruct (loc_of_shr_record mrs) as [|[]]; try lia. destruct (Z.even _); lia. }
  destruct r as [|q|q] eqn:Er; [lia| |lia]. cbn [Zdigits2].
  assert (Hn : Z.max (Zpos (digits2_pos q) + (0 + Zpos p) - 53) (3 - 1024 - 53) - (0 + Zpos p) <= Z.of_nat (Z.to_nat (Zpos (digits2_pos q) - 1))) by lia.
  pose proof (shr_bound (Z.to_nat (Zpos (digits2_pos q) - 1)) (Build_shr_record (Zpos q) false false) (0 + Zpos p) _ Hn) as [H1 H2].
  { rewrite Z2Nat.id by lia. cbn [shr_m]. apply digits2_pos_bounds. }
  cbn [shr_record_of_loc]. destruct (shr _ _ _) as [mrs'' e'']. cbn [fst snd] in *.
  destruct (shr_m mrs'') as [|q'|q']; [lia| |done]. destruct (e'' <=? _); [lia|done].
Qed.

Lemma pos_shift_val k m : Zpos (pos_shift k m) = Zpos m * 2 ^ Z.of_nat k.
Proof.
  induction k as [|k IH]; [cbn; lia|]. change (Zpos (pos_shift (S k) m)) with (2 * Zpos (pos_shift k m)).
  rewrite IH, Nat2Z.inj_succ, Z.pow_succ_r by lia. lia.
Qed.

(** Two natural numbers that compare equal as doubles are the same, or both are at least [2^53]. *)
Lemma f64_of_Z_inj a b : 0 <= a -> 0 <= b -> f64_eq (f64_of_Z a) (f64_of_Z b) = true -> a = b \/ 2 ^ 53 <= a /\ 2 ^ 53 <= b.
Proof.
  intros Ha Hb [Hnan Heq]%f64_eq_spec.
  assert (Hcase : forall z, 0 <= z -> z = 0 /\ f64_of_Z z = f64_zero \/ (exists m, z = Zpos m /\ Zpos m < 2 ^ 53) \/ exists m, z = Zpos m /\ 2 ^ 53 <= Zpos m).
  { intros [|m|m] Hz; [by left|right|lia]. destruct (decide (Zpos m < 2 ^ 53)); [left|right]; exists m; split; done || lia. }
  destruct (Hcase a Ha) as [[-> Ea]|[(ma & -> & Hma)|(ma & -> & Hma)]], (Hcase b Hb) as [[-> Eb]|[(mb & -> & Hmb)|(mb & -> & Hmb)]].
  - by left.
  - destruct (f64_of_Z_exact mb Hmb) as (k & _ & E). rewrite E, Ea in Heq. naive_solver.
  - pose proof (f64_of_Z_big mb Hmb) as Hbig. rewrite Ea in Heq. destruct (f64_of_Z (Zpos mb)); cbn in Heq; naive_solver.
  - destruct (f64_of_Z_exact ma Hma) as (k & _ & E). rewrite E, Eb in Heq. naive_solver.
  - destruct (f64_of_Z_exact ma Hma) as (k & _ & E), (f64_of_Z_exact mb Hmb) as (k' & _ & E'). rewrite E, E' in Heq.
    left. destruct Heq as [Heq|[? _]]; [|done]. injection Heq as Hp Hk. assert (k = k') as <- by lia.
    apply (f_equal Zpos) in Hp. rewrite !pos_shift_val in Hp. apply Z.mul_reg_r in Hp; [done|]. pose proof (Z.pow_pos_nonneg 2 (Z.of_nat k)). lia.
  - destruct (f64_of_Z_exact ma Hma) as (k & _ & E). pose proof (f64_of_Z_big mb Hmb) as Hbig. rewrite E in Heq.
    destruct Heq as [Heq|[? _]]; [rewrite <- Heq in Hbig; lia|done].
  - pose proof (f64_of_Z_big ma Hma) as Hbig. rewrite Eb in Heq. destruct (f64_of_Z (Zpos ma)); cbn in Heq; naive_solver.
  - destruct (f64_of_Z_exact mb Hmb) as (k & _ & E). pose proof (f64_of_Z_big ma Hma) as Hbig. rewrite E in Heq.
    destruct Heq as [Heq|[_ ?]]; [rewrite Heq in Hbig; lia|done].
  - by right.
Qed.
