(* ===== verification/Geometry.v ===== *)
(** * Geometry: the messages shared by the builtin-object codecs

    Models [src/pj_base/src/builtin/geometry_codec.hpp]: timestamps (seconds
    and nanoseconds on the wire, [int64] nanoseconds in memory), vectors,
    points, quaternions, poses and colours.  A coordinate is the bit pattern
    of its [double]; a colour channel goes through binary64 arithmetic. *)

From S2P Require Import Prelude Wire Fields Float64.

(** ** Timestamps *)

Definition kNanosecondsPerSecond : Z := 1000 * 1000 * 1000.

Record TimestampParts := mkParts { seconds : Z; nanos : Z }.

Definition splitTimestamp (timestamp_ns : Z) : TimestampParts :=
  let seconds := Z.quot timestamp_ns kNanosecondsPerSecond in
  let nanos := i32 (Z.rem timestamp_ns kNanosecondsPerSecond) in
  if nanos <? 0
  then mkParts (i64 (seconds - 1)) (i32 (nanos + kNanosecondsPerSecond))
  else mkParts seconds nanos.

Definition combineTimestamp (parts : TimestampParts) : option Z :=
  if (nanos parts <? 0) || (kNanosecondsPerSecond <=? nanos parts) then None
  else if (Z.quot INT64_MAX kNanosecondsPerSecond <? seconds parts)
          || (seconds parts <? Z.quot INT64_MIN kNanosecondsPerSecond) then None
  else
    let seconds_ns := i64 (seconds parts * kNanosecondsPerSecond) in
    if INT64_MAX - nanos parts <? seconds_ns then None
    else Some (i64 (seconds_ns + nanos parts)).

Definition writeTimestamp (timestamp_ns : Z) (out : bytes) : bytes :=
  let parts := splitTimestamp timestamp_ns in
  Writer.varint 2 (u32 (nanos parts)) (Writer.varint 1 (u64 (seconds parts)) out).

(** The lambda of [decodeTimestamp]: the varint is consumed before the field
    number is looked at. *)
Definition timestamp_handler : Handler TimestampParts := fun tag r parts =>
  if decide (tag_type tag = kVarint) then
    match Reader.readVarint r with
    | (None, r') => (false, r', parts)
    | (Some value, r') =>
        if tag_field tag =? 1 then (true, r', mkParts (i64 value) (nanos parts))
        else if tag_field tag =? 2 then (true, r', mkParts (seconds parts) (i32 value))
        else (false, r', parts)
    end
  else (false, r, parts).

Definition decodeTimestamp (body : bytes) (out : Z) : bool * Z :=
  let '(ok, _, parts) := parseFields timestamp_handler body (mkParts 0 0) in
  if ok then
    match combineTimestamp parts with
    | Some t => (true, t)
    | None => (false, out)
    end
  else (false, out).

(** ** Vectors, points, quaternions, poses *)

Record Vector3 := mkVector3 { v3_x : Z; v3_y : Z; v3_z : Z }.
Record Point3 := mkPoint3 { p3_x : Z; p3_y : Z; p3_z : Z }.
Record Quaternion := mkQuaternion { q_x : Z; q_y : Z; q_z : Z; q_w : Z }.
Record Pose := mkPose { position : Vector3; orientation : Quaternion }.

(** The bit patterns of the default member initialisers [0.0] and [1.0]. *)
Definition d0 : Z := 0.
Definition d1 : Z := 0x3FF0000000000000.

Definition writeVector3 (v : Vector3) (out : bytes) : bytes :=
  Writer.doubleField 3 (v3_z v) (Writer.doubleField 2 (v3_y v) (Writer.doubleField 1 (v3_x v) out)).

Definition vector3_handler : Handler Vector3 := fun tag r out =>
  require_type kFixed64 tag r out
    match tag_field tag with
    | 1 => on_double tag r out (fun d => mkVector3 d (v3_y out) (v3_z out))
    | 2 => on_double tag r out (fun d => mkVector3 (v3_x out) d (v3_z out))
    | 3 => on_double tag r out (fun d => mkVector3 (v3_x out) (v3_y out) d)
    | _ => unhandled r out
    end.

Definition decodeVector3 : bytes -> Vector3 -> bool * Vector3 := decode_fields vector3_handler.

Definition writePoint3 (p : Point3) (out : bytes) : bytes :=
  Writer.doubleField 3 (p3_z p) (Writer.doubleField 2 (p3_y p) (Writer.doubleField 1 (p3_x p) out)).

Definition point3_handler : Handler Point3 := fun tag r out =>
  require_type kFixed64 tag r out
    match tag_field tag with
    | 1 => on_double tag r out (fun d => mkPoint3 d (p3_y out) (p3_z out))
    | 2 => on_double tag r out (fun d => mkPoint3 (p3_x out) d (p3_z out))
    | 3 => on_double tag r out (fun d => mkPoint3 (p3_x out) (p3_y out) d)
    | _ => unhandled r out
    end.

Definition decodePoint3 : bytes -> Point3 -> bool * Point3 := decode_fields point3_handler.

Definition writeQuaternion (q : Quaternion) (out : bytes) : bytes :=
  Writer.doubleField 4 (q_w q) (Writer.doubleField 3 (q_z q)
    (Writer.doubleField 2 (q_y q) (Writer.doubleField 1 (q_x q) out))).

Definition quaternion_handler : Handler Quaternion := fun tag r out =>
  require_type kFixed64 tag r out
    match tag_field tag with
    | 1 => on_double tag r out (fun d => mkQuaternion d (q_y out) (q_z out) (q_w out))
    | 2 => on_double tag r out (fun d => mkQuaternion (q_x out) d (q_z out) (q_w out))
    | 3 => on_double tag r out (fun d => mkQuaternion (q_x out) (q_y out) d (q_w out))
    | 4 => on_double tag r out (fun d => mkQuaternion (q_x out) (q_y out) (q_z out) d)
    | _ => unhandled r out
    end.

Definition decodeQuaternion : bytes -> Quaternion -> bool * Quaternion := decode_fields quaternion_handler.

Definition writePose (p : Pose) (out : bytes) : bytes :=
  Writer.message 2 (writeQuaternion (orientation p)) (Writer.message 1 (writeVector3 (position p)) out).

Definition pose_handler : Handler Pose := fun tag r out =>
  require_type kLengthDelimited tag r out
    match tag_field tag with
    | 1 => on_message decodeVector3 tag r out (position out) (fun v => mkPose v (orientation out))
    | 2 => on_message decodeQuaternion tag r out (orientation out) (fun q => mkPose (position out) q)
    | _ => unhandled r out
    end.

Definition decodePose : bytes -> Pose -> bool * Pose := decode_fields pose_handler.

(** ** Colours *)

Record ColorRGBA := mkColor { c_r : Z; c_g : Z; c_b : Z; c_a : Z }.

(** [std::clamp] with the comparisons of the standard. *)
Definition f64_clamp (v lo hi : double) : double :=
  if f64_lt v lo then lo else if f64_lt hi v then hi else v.

(** The conversion of a NaN is undefined behaviour; the model leaves 0. *)
Definition normalizedToByte (value : double) : Z :=
  let value := f64_clamp value f64_zero f64_one in
  default 0 (f64_to_u8 (f64_add (f64_mul value (f64_of_Z 255))
    (f64_div f64_one (f64_of_Z 2)))).

(** [static_cast<double>(c) / 255.0], as the bit pattern written. *)
Definition byteToNormalized (c : Z) : Z := bits_of_f64 (f64_div (f64_of_Z c) (f64_of_Z 255)).

Definition writeColor (color : ColorRGBA) (out : bytes) : bytes :=
  Writer.doubleField 4 (byteToNormalized (c_a color))
    (Writer.doubleField 3 (byteToNormalized (c_b color))
      (Writer.doubleField 2 (byteToNormalized (c_g color))
        (Writer.doubleField 1 (byteToNormalized (c_r color)) out))).

(** The locals [r], [g], [b], [a] of [decodeColor], as a quaternion-like
    record of bit patterns. *)
Record ColorParts := mkColorParts { k_r : Z; k_g : Z; k_b : Z; k_a : Z }.

Definition color_handler : Handler ColorParts := fun tag r out =>
  require_type kFixed64 tag r out
    match tag_field tag with
    | 1 => on_double tag r out (fun d => mkColorParts d (k_g out) (k_b out) (k_a out))
    | 2 => on_double tag r out (fun d => mkColorParts (k_r out) d (k_b out) (k_a out))
    | 3 => on_double tag r out (fun d => mkColorParts (k_r out) (k_g out) d (k_a out))
    | 4 => on_double tag r out (fun d => mkColorParts (k_r out) (k_g out) (k_b out) d)
    | _ => unhandled r out
    end.

Definition decodeColor (body : bytes) (out : ColorRGBA) : bool * ColorRGBA :=
  let '(ok, _, k) := parseFields color_handler body (mkColorParts d0 d0 d0 d0) in
  if ok then
    (true, mkColor (normalizedToByte (f64_of_bits (k_r k))) (normalizedToByte (f64_of_bits (k_g k)))
      (normalizedToByte (f64_of_bits (k_b k))) (normalizedToByte (f64_of_bits (k_a k))))
  else (false, out).

(** ** The handlers advance *)

#[export] Instance timestamp_advancing : Advancing timestamp_handler.
Proof. unfold timestamp_handler. solve_advancing. Qed.
#[export] Instance vector3_advancing : Advancing vector3_handler.
Proof. unfold vector3_handler. solve_advancing. Qed.
#[export] Instance point3_advancing : Advancing point3_handler.
Proof. unfold point3_handler. solve_advancing. Qed.
#[export] Instance quaternion_advancing : Advancing quaternion_handler.
Proof. unfold quaternion_handler. solve_advancing. Qed.
#[export] Instance pose_advancing : Advancing pose_handler.
Proof. unfold pose_handler. solve_advancing. Qed.
#[export] Instance color_advancing : Advancing color_handler.
Proof. unfold color_handler. solve_advancing. Qed.

(** ** Timestamps: what survives the wire *)

Lemma splitTimestamp_spec t : in_s 64 t ->
  splitTimestamp t = mkParts (t / kNanosecondsPerSecond) (t mod kNanosecondsPerSecond).
Proof.
  unfold in_s. intros Ht. unfold splitTimestamp.
  assert (Hk : kNanosecondsPerSecond = 1000000000) by done. rewrite Hk in *.
  pose proof (Z.quot_rem' t 1000000000) as Hqr.
  pose proof (Z.rem_bound_abs t 1000000000 ltac:(lia)) as Hb.
  rewrite (wrapS_small 32 (Z.rem t 1000000000)) by (unfold in_s; lia).
  pose proof (Z.div_mod t 1000000000 ltac:(lia)) as Hdm.
  pose proof (Z.mod_pos_bound t 1000000000 ltac:(lia)) as Hmb.
  destruct (Z.ltb_spec (Z.rem t 1000000000) 0).
  - rewrite (wrapS_small 64), (wrapS_small 32) by (unfold in_s; lia). f_equal; lia.
  - f_equal; [nia|nia].
Qed.

(** [seconds * 10^9 + nanos] overflows only below [INT64_MIN / 10^9] seconds. *)
Definition kMinTimestamp : Z := -9223372036000000000.

Lemma combine_split t : in_s 64 t ->
  combineTimestamp (splitTimestamp t) = if t <? kMinTimestamp then None else Some t.
Proof.
  intros Ht. rewrite splitTimestamp_spec by done. unfold combineTimestamp. simpl seconds. simpl nanos.
  unfold in_s in Ht. assert (Hk : kNanosecondsPerSecond = 1000000000) by done. rewrite Hk.
  pose proof (Z.div_mod t 1000000000 ltac:(lia)) as Hdm.
  pose proof (Z.mod_pos_bound t 1000000000 ltac:(lia)) as Hmb.
  change (Z.quot INT64_MAX 1000000000) with 9223372036.
  change (Z.quot INT64_MIN 1000000000) with (-9223372036). unfold kMinTimestamp, INT64_MAX.
  rewrite (proj2 (Z.ltb_ge (t mod 1000000000) 0)), (proj2 (Z.leb_gt 1000000000 _)) by lia. cbn [orb].
  rewrite (proj2 (Z.ltb_ge 9223372036 _)) by lia. cbn [orb].
  destruct (Z.ltb_spec t (-9223372036000000000)).
  - rewrite (proj2 (Z.ltb_lt _ (-9223372036))) by lia. done.
  - rewrite (proj2 (Z.ltb_ge _ (-9223372036))) by lia.
    rewrite (wrapS_small 64) by (unfold in_s; lia).
    rewrite (proj2 (Z.ltb_ge _ _)) by lia.
    rewrite (wrapS_small 64) by (unfold in_s; lia). f_equal. lia.
Qed.

Lemma parse_timestamp_varint field v rest parts parts' : field_ok field -> in_u 64 v ->
  (forall r, timestamp_handler (mkTag field kVarint) (enc_varint v ++ r) parts = (true, r, parts')) ->
  parseFields timestamp_handler (fVarint field v ++ rest) parts
  = parseFields timestamp_handler rest parts'.
Proof. intros. apply parseFields_field; [apply _|done..|]. auto. Qed.

Lemma parse_writeTimestamp t : in_s 64 t ->
  parseFields timestamp_handler (writeTimestamp t []) (mkParts 0 0) = (true, [], splitTimestamp t).
Proof.
  intros Ht. unfold writeTimestamp. encode_fields. close_stream.
  pose proof (wrapU_range 64 (seconds (splitTimestamp t)) ltac:(lia)) as Hs.
  pose proof (wrapU_range 32 (nanos (splitTimestamp t)) ltac:(lia)) as Hn.
  rewrite splitTimestamp_spec in * by done. simpl seconds in *. simpl nanos in *.
  assert (Hk : kNanosecondsPerSecond = 1000000000) by done. rewrite Hk in *. unfold in_s in Ht.
  pose proof (Z.div_mod t 1000000000 ltac:(lia)) as Hdm.
  pose proof (Z.mod_pos_bound t 1000000000 ltac:(lia)) as Hmb.
  erewrite parse_timestamp_varint; [|done|done|].
  2:{ intros r. unfold timestamp_handler. simpl. by rewrite readVarint_enc. }
  erewrite parse_timestamp_varint; [|done|unfold in_u in *; lia|].
  2:{ intros r. unfold timestamp_handler. simpl. by rewrite readVarint_enc by (unfold in_u in *; lia). }
  simpl. rewrite (wrapS_wrapU 64), (wrapS_wrapU 32) by (unfold in_s; lia). done.
Qed.

Lemma decodeTimestamp_write t out : in_s 64 t ->
  decodeTimestamp (writeTimestamp t []) out
  = if t <? kMinTimestamp then (false, out) else (true, t).
Proof.
  intros Ht. unfold decodeTimestamp. rewrite parse_writeTimestamp, combine_split by done.
  by destruct (t <? kMinTimestamp).
Qed.

(** ** Round trips *)

(** A [double] or [uint64_t] bit pattern. *)
Definition is_double (z : Z) : Prop := in_u 64 z.
#[export] Hint Unfold is_double : wire.

#[export] Instance Vector3_message : WireMessage Vector3 := {|
  wm_write := writeVector3;
  wm_decode := decodeVector3;
  wm_init := mkVector3 d0 d0 d0;
  wm_valid v := is_double (v3_x v) /\ is_double (v3_y v) /\ is_double (v3_z v)
|}.

(** A decoder that reads every field overwrites whatever the object held. *)
Lemma decodeVector3_write v init : wm_valid v -> decodes decodeVector3 (writeVector3 v []) init v.
Proof.
  destruct v as [x y z]. intros (Hx & Hy & Hz). unfold decodes, decodeVector3, decode_fields, writeVector3.
  encode_fields. close_stream. cbn in Hx, Hy, Hz |- *. repeat parse_field. done.
Qed.

#[export] Instance Vector3_laws : WireMessageLaws Vector3.
Proof.
  split.
  - intros x out. simpl. unfold writeVector3. by encode_fields.
  - intros. by apply decodeVector3_write.
Qed.
#[export] Hint Resolve decodeVector3_write : wire.

#[export] Instance Point3_message : WireMessage Point3 := {|
  wm_write := writePoint3;
  wm_decode := decodePoint3;
  wm_init := mkPoint3 d0 d0 d0;
  wm_valid p := is_double (p3_x p) /\ is_double (p3_y p) /\ is_double (p3_z p)
|}.

Lemma decodePoint3_write p init : wm_valid p -> decodes decodePoint3 (writePoint3 p []) init p.
Proof.
  destruct p as [x y z]. intros (Hx & Hy & Hz). unfold decodes, decodePoint3, decode_fields, writePoint3.
  encode_fields. close_stream. cbn in Hx, Hy, Hz |- *. repeat parse_field. done.
Qed.
#[export] Hint Resolve decodePoint3_write : wire.

#[export] Instance Point3_laws : WireMessageLaws Point3.
Proof.
  split.
  - intros x out. simpl. unfold writePoint3. by encode_fields.
  - intros. by apply decodePoint3_write.
Qed.

#[export] Instance Quaternion_message : WireMessage Quaternion := {|
  wm_write := writeQuaternion;
  wm_decode := decodeQuaternion;
  wm_init := mkQuaternion d0 d0 d0 d1;
  wm_valid q := is_double (q_x q) /\ is_double (q_y q) /\ is_double (q_z q) /\ is_double (q_w q)
|}.

Lemma decodeQuaternion_write q init : wm_valid q ->
  decodes decodeQuaternion (writeQuaternion q []) init q.
Proof.
  destruct q as [x y z w]. intros (Hx & Hy & Hz & Hw).
  unfold decodes, decodeQuaternion, decode_fields, writeQuaternion.
  encode_fields. close_stream. cbn in Hx, Hy, Hz, Hw |- *. repeat parse_field. done.
Qed.
#[export] Hint Resolve decodeQuaternion_write : wire.

#[export] Instance Quaternion_laws : WireMessageLaws Quaternion.
Proof.
  split.
  - intros x out. simpl. unfold writeQuaternion. by encode_fields.
  - intros. by apply decodeQuaternion_write.
Qed.

#[export] Instance Pose_message : WireMessage Pose := {|
  wm_write := writePose;
  wm_decode := decodePose;
  wm_init := mkPose (mkVector3 d0 d0 d0) (mkQuaternion d0 d0 d0 d1);
  wm_valid p := wm_valid (position p) /\ wm_valid (orientation p)
|}.

Lemma decodePose_write p init : wm_valid p -> fits (writePose p []) ->
  decodes decodePose (writePose p []) init p.
Proof.
  destruct p as [v q]. intros [Hv Hq]. unfold decodes, decodePose, decode_fields, writePose.
  simpl position in *. simpl orientation in *.
  encode_fields. intros Hfit. split_fits. close_stream. repeat parse_field. done.
Qed.
#[export] Hint Resolve decodePose_write : wire.

#[export] Instance Pose_laws : WireMessageLaws Pose.
Proof.
  split.
  - intros x out. simpl. unfold writePose. by encode_fields.
  - intros. by apply decodePose_write.
Qed.

(** Every channel value survives the trip through a [double]. *)
Definition is_channel (c : Z) : Prop := 0 <= c < 256.

Lemma forallb_seqZ (P : Z -> bool) n c :
  forallb P (seqZ 0 n) = true -> 0 <= c < n -> P c = true.
Proof.
  intros H Hc. rewrite forallb_forall in H. apply H. apply list_elem_of_In, elem_of_seqZ. lia.
Qed.

Lemma channel_round_trip c : is_channel c -> normalizedToByte (f64_of_bits (byteToNormalized c)) = c.
Proof.
  intros Hc. apply Z.eqb_eq.
  apply (forallb_seqZ (fun c => normalizedToByte (f64_of_bits (byteToNormalized c)) =? c) 256); [|done].
  vm_compute. done.
Qed.

Lemma byteToNormalized_double c : is_channel c -> in_u 64 (byteToNormalized c).
Proof.
  intros Hc. unfold in_u.
  assert ((0 <=? byteToNormalized c) && (byteToNormalized c <? 2 ^ 64) = true) as H; [|lia].
  apply (forallb_seqZ (fun c => (0 <=? byteToNormalized c) && (byteToNormalized c <? 2 ^ 64)) 256);
    [|done].
  vm_compute. done.
Qed.
#[export] Hint Resolve byteToNormalized_double : wire.

#[export] Instance Color_message : WireMessage ColorRGBA := {|
  wm_write := writeColor;
  wm_decode := decodeColor;
  wm_init := mkColor 0 0 0 255;
  wm_valid c := is_channel (c_r c) /\ is_channel (c_g c) /\ is_channel (c_b c) /\ is_channel (c_a c)
|}.

Lemma decodeColor_write c init : wm_valid c -> decodes decodeColor (writeColor c []) init c.
Proof.
  destruct c as [r g b a]. intros (Hr & Hg & Hb & Ha). cbn in Hr, Hg, Hb, Ha.
  unfold decodes, decodeColor, writeColor. encode_fields. close_stream. cbn [c_r c_g c_b c_a].
  repeat parse_field. rewrite parseFields_nil. cbn [k_r k_g k_b k_a].
  by rewrite !channel_round_trip.
Qed.
#[export] Hint Resolve decodeColor_write : wire.

#[export] Instance Color_laws : WireMessageLaws ColorRGBA.
Proof.
  split.
  - intros x out. simpl. unfold writeColor. by encode_fields.
  - intros. by apply decodeColor_write.
Qed.

(** Timestamps, with the caller's hypothesis that [combineTimestamp] can hold
    the value. *)
Definition is_timestamp (t : Z) : Prop := kMinTimestamp <= t < 2 ^ 63.

Lemma decodeTimestamp_ok t init : is_timestamp t -> decodes decodeTimestamp (writeTimestamp t []) init t.
Proof.
  unfold decodes. intros [Hl Hu]. assert (in_s 64 t) by (unfold in_s, kMinTimestamp in *; lia).
  rewrite decodeTimestamp_write by done. by rewrite (proj2 (Z.ltb_ge _ _)).
Qed.
#[export] Hint Resolve decodeTimestamp_ok : wire.

(** Any stream of doubles starts at the seconds of the epoch: what
    [decodeTimestamp] answers on a field it does not know. *)
Example unknown_varint_misaligns :
  decodeTimestamp (writeTimestamp 1000000007 (fVarint 3 5)) 0 = (false, 0).
Proof. vm_compute. reflexivity. Qed.
