(* ===== verification/Codecs.v ===== *)
(** * Codecs: the canonical wire form of the builtin objects

    Models the [serialize...] / [deserialize...] pairs of
    [src/pj_base/src/builtin/]: one Module per message type, with the struct of
    [src/pj_base/include/pj_base/builtin/] as a Record, its default member
    initialisers, the writer, the field handler, and the theorem that what is
    written reads back.  Strings and byte blobs are [bytes] (the [BufferAnchor]
    of a blob only owns it), [uint32_t] and [Timestamp] are [Z] within their
    range, a [double] or [float] is its bit pattern. *)

From S2P Require Import Prelude Wire Fields Float64 Geometry.

(** [is_bigendian ? 1u : 0u] and back. *)
Definition boolToWire (b : bool) : Z := if b then 1 else 0.
Definition boolFromWire (v : Z) : bool := negb (v =? 0).

Lemma boolFromWire_to b : boolFromWire (boolToWire b) = b.
Proof. by destruct b. Qed.
Lemma boolToWire_range b : in_u 64 (boolToWire b).
Proof. unfold in_u. destruct b; simpl; lia. Qed.
#[export] Hint Resolve boolToWire_range : wire.

Lemma u32_to_u64 v : in_u 32 v -> in_u 64 v.
Proof. unfold in_u. lia. Qed.
#[export] Hint Resolve u32_to_u64 : wire.

(** Closes the range conditions of a concrete value. *)
Ltac solve_valid :=
  lazymatch goal with
  | |- _ /\ _ => split; solve_valid
  | |- True => exact I
  | |- Forall _ [] => apply Forall_nil_2
  | |- Forall _ (_ :: _) => apply Forall_cons_2; solve_valid
  | |- Forall ?P ?l => let l' := eval hnf in l in change (Forall P l'); solve_valid
  | |- forall _, _ = None -> _ => intros ? [=]
  | |- forall _, _ = Some _ -> _ => intros ? [= <-]; solve_valid
  | |- in_u _ _ => vm_compute; split; [discriminate|reflexivity]
  | |- in_s _ _ => vm_compute; split; [discriminate|reflexivity]
  | |- Z.le _ _ => vm_compute; discriminate
  | |- Z.lt _ _ => vm_compute; reflexivity
  | |- _ = _ => reflexivity
  | |- _ => progress hnf; cbn; solve_valid
  end.

(** ** log_codec.cpp *)

Module LogCodec.

Inductive Level : Set := kUnknown | kDebug | kInfo | kWarning | kError | kFatal.

Record Log := mkLog { timestamp_ns : Z; level : Level; message : bytes; name : bytes }.

Definition log_default : Log := mkLog 0 kUnknown [] [].

(** [static_cast<uint64_t>(log.level)] *)
Definition levelToWire (l : Level) : Z :=
  match l with kUnknown => 0 | kDebug => 1 | kInfo => 2 | kWarning => 3 | kError => 4 | kFatal => 5 end.

Definition levelFromWire (value : Z) : Level :=
  match value with 1 => kDebug | 2 => kInfo | 3 => kWarning | 4 => kError | 5 => kFatal | _ => kUnknown end.

Definition serializeLog (log : Log) : bytes :=
  let out := [] in
  let out := Writer.message 1 (writeTimestamp (timestamp_ns log)) out in
  let out := Writer.varint 2 (levelToWire (level log)) out in
  let out := Writer.write_string 3 (message log) out in
  Writer.write_string 4 (name log) out.

Definition log_handler : Handler Log := fun tag r s =>
  let '(mkLog ts lv msg nm) := s in
  match tag_field tag with
  | 1 => on_message decodeTimestamp tag r s ts (fun t => mkLog t lv msg nm)
  | 2 => on_varint tag r s (fun v => mkLog ts (levelFromWire v) msg nm)
  | 3 => on_bytes tag r s (fun v => mkLog ts lv v nm)
  | 4 => on_bytes tag r s (fun v => mkLog ts lv msg v)
  | _ => unhandled r s
  end.

Definition deserializeLog (data : bytes) : Expected Log := deserialize "Log" log_handler log_default data.

#[export] Instance log_advancing : Advancing log_handler.
Proof. unfold log_handler. solve_advancing. Qed.

Definition log_valid (log : Log) : Prop := is_timestamp (timestamp_ns log).

Lemma levelToWire_range l : in_u 64 (levelToWire l).
Proof. unfold in_u. destruct l; simpl; lia. Qed.
#[local] Hint Resolve levelToWire_range : wire.

(** A log message survives the wire: its time, level and both strings. *)
Theorem log_roundtrip log : log_valid log -> fits (serializeLog log) ->
  deserializeLog (serializeLog log) = Ok log.
Proof.
  destruct log as [ts lv msg nm]. unfold log_valid, serializeLog, deserializeLog. cbn.
  intros Hts. encode_fields. intros Hfit. split_fits.
  rewrite <- (match lv return levelFromWire (levelToWire lv) = lv with
              kUnknown | kDebug | kInfo | kWarning | kError | kFatal => eq_refl end) at 2.
  solve_round_trip.
Qed.

Lemma log_roundtrip_witness :
  let v := (mkLog (-1) kError [z2b 111; z2b 107] [z2b 47]) in
  deserializeLog (serializeLog v) = Ok v.
Proof. apply log_roundtrip; [solve_valid|vm_compute; reflexivity]. Defined.

End LogCodec.

(** ** video_frame_codec.cpp *)

Module VideoFrameCodec.

Record VideoFrame := mkVideoFrame {
  timestamp_ns : Z; frame_id : bytes; format : bytes; data : bytes }.

Definition video_frame_default : VideoFrame := mkVideoFrame 0 [] [] [].

Definition serializeVideoFrame (frame : VideoFrame) : bytes :=
  let out := [] in
  let out := Writer.message 1 (writeTimestamp (timestamp_ns frame)) out in
  let out := Writer.write_string 2 (frame_id frame) out in
  let out := Writer.write_string 3 (format frame) out in
  Writer.write_bytes 4 (data frame) out.

Definition video_frame_handler : Handler VideoFrame := fun tag r s =>
  let '(mkVideoFrame ts fr fm d) := s in
  match tag_field tag with
  | 1 => on_message decodeTimestamp tag r s ts (fun t => mkVideoFrame t fr fm d)
  | 2 => on_bytes tag r s (fun v => mkVideoFrame ts v fm d)
  | 3 => on_bytes tag r s (fun v => mkVideoFrame ts fr v d)
  | 4 => on_bytes tag r s (fun v => mkVideoFrame ts fr fm v)
  | _ => unhandled r s
  end.

Definition deserializeVideoFrame (buf : bytes) : Expected VideoFrame :=
  deserialize "VideoFrame" video_frame_handler video_frame_default buf.

#[export] Instance video_frame_advancing : Advancing video_frame_handler.
Proof. unfold video_frame_handler. solve_advancing. Qed.

Definition video_frame_valid (frame : VideoFrame) : Prop := is_timestamp (timestamp_ns frame).

Theorem video_frame_roundtrip frame : video_frame_valid frame -> fits (serializeVideoFrame frame) ->
  deserializeVideoFrame (serializeVideoFrame frame) = Ok frame.
Proof.
  destruct frame as [ts fr fm d].
  unfold video_frame_valid, serializeVideoFrame, deserializeVideoFrame. cbn.
  intros Hts. encode_fields. intros Hfit. split_fits. solve_round_trip.
Qed.

End VideoFrameCodec.

(** ** compressed_point_cloud_codec.cpp *)

Module CompressedPointCloudCodec.

Record CompressedPointCloud := mkCompressedPointCloud {
  timestamp_ns : Z; frame_id : bytes; format : bytes; data : bytes }.

Definition compressed_cloud_default : CompressedPointCloud := mkCompressedPointCloud 0 [] [] [].

Definition serializeCompressedPointCloud (cloud : CompressedPointCloud) : bytes :=
  let out := [] in
  let out := Writer.message 1 (writeTimestamp (timestamp_ns cloud)) out in
  let out := Writer.write_string 2 (frame_id cloud) out in
  let out := Writer.write_string 3 (format cloud) out in
  Writer.write_bytes 4 (data cloud) out.

Definition compressed_cloud_handler : Handler CompressedPointCloud := fun tag r s =>
  let '(mkCompressedPointCloud ts fr fm d) := s in
  require_type kLengthDelimited tag r s
    match tag_field tag with
    | 1 => on_message decodeTimestamp tag r s ts (fun t => mkCompressedPointCloud t fr fm d)
    | 2 => on_bytes tag r s (fun v => mkCompressedPointCloud ts v fm d)
    | 3 => on_bytes tag r s (fun v => mkCompressedPointCloud ts fr v d)
    | 4 => on_bytes tag r s (fun v => mkCompressedPointCloud ts fr fm v)
    | _ => unhandled r s
    end.

Definition deserializeCompressedPointCloud (buf : bytes) : Expected CompressedPointCloud :=
  deserialize "CompressedPointCloud" compressed_cloud_handler compressed_cloud_default buf.

#[export] Instance compressed_cloud_advancing : Advancing compressed_cloud_handler.
Proof. unfold compressed_cloud_handler. solve_advancing. Qed.

Definition compressed_cloud_valid (cloud : CompressedPointCloud) : Prop :=
  is_timestamp (timestamp_ns cloud).

Theorem compressed_cloud_roundtrip cloud :
  compressed_cloud_valid cloud -> fits (serializeCompressedPointCloud cloud) ->
  deserializeCompressedPointCloud (serializeCompressedPointCloud cloud) = Ok cloud.
Proof.
  destruct cloud as [ts fr fm d].
  unfold compressed_cloud_valid, serializeCompressedPointCloud, deserializeCompressedPointCloud. cbn.
  intros Hts. encode_fields. intros Hfit. split_fits. solve_round_trip.
Qed.

End CompressedPointCloudCodec.

(** ** frame_transforms_codec.cpp *)

Module FrameTransformsCodec.

Record FrameTransform := mkFrameTransform {
  timestamp : Z; parent_frame_id : bytes; child_frame_id : bytes;
  translation : Vector3; rotation : Quaternion }.

Definition frame_transform_default : FrameTransform :=
  mkFrameTransform 0 [] [] (mkVector3 d0 d0 d0) (mkQuaternion d0 d0 d0 d1).

Definition writeFrameTransform (transform : FrameTransform) (out : bytes) : bytes :=
  let out := Writer.message 1 (writeTimestamp (timestamp transform)) out in
  let out := Writer.write_string 2 (parent_frame_id transform) out in
  let out := Writer.write_string 3 (child_frame_id transform) out in
  let out := Writer.message 4 (writeVector3 (translation transform)) out in
  Writer.message 5 (writeQuaternion (rotation transform)) out.

Definition frame_transform_handler : Handler FrameTransform := fun tag r s =>
  let '(mkFrameTransform ts pa ch tr ro) := s in
  require_type kLengthDelimited tag r s
    match tag_field tag with
    | 1 => on_message decodeTimestamp tag r s ts (fun t => mkFrameTransform t pa ch tr ro)
    | 2 => on_bytes tag r s (fun v => mkFrameTransform ts v ch tr ro)
    | 3 => on_bytes tag r s (fun v => mkFrameTransform ts pa v tr ro)
    | 4 => on_message decodeVector3 tag r s tr (fun v => mkFrameTransform ts pa ch v ro)
    | 5 => on_message decodeQuaternion tag r s ro (fun v => mkFrameTransform ts pa ch tr v)
    | _ => unhandled r s
    end.

Definition decodeFrameTransform : bytes -> FrameTransform -> bool * FrameTransform :=
  decode_fields frame_transform_handler.

#[export] Instance frame_transform_advancing : Advancing frame_transform_handler.
Proof. unfold frame_transform_handler. solve_advancing. Qed.

#[export] Instance FrameTransform_message : WireMessage FrameTransform := {|
  wm_write := writeFrameTransform;
  wm_decode := decodeFrameTransform;
  wm_init := frame_transform_default;
  wm_valid t := is_timestamp (timestamp t) /\ wm_valid (translation t) /\ wm_valid (rotation t)
|}.

#[export] Instance FrameTransform_laws : WireMessageLaws FrameTransform.
Proof.
  split.
  - intros x out. simpl. unfold writeFrameTransform. by encode_fields.
  - intros [ts pa ch tr ro] (Hts & Htr & Hro). simpl timestamp in *. simpl translation in *.
    simpl rotation in *. cbn [wm_write wm_decode wm_init FrameTransform_message].
    unfold writeFrameTransform, decodes, decodeFrameTransform, decode_fields.
    cbn [timestamp parent_frame_id child_frame_id translation rotation]. encode_fields. intros Hfit. split_fits. close_stream. repeat parse_field. done.
Qed.

Definition FrameTransforms := list FrameTransform.

Definition serializeFrameTransforms (transforms : FrameTransforms) : bytes :=
  write_each 1 transforms [].

(** The body of the loop, on a message. *)
Definition transforms_step (field : Z) (nested : bytes) (transforms : FrameTransforms)
  : Expected FrameTransforms :=
  if field =? 1 then
    let '(ok, transform) := decodeFrameTransform nested frame_transform_default in
    if ok then Ok (transforms ++ [transform])
    else Err "FrameTransforms wire: FrameTransform decode failed"
  else Ok transforms.

Definition deserializeFrameTransforms (data : bytes) : Expected FrameTransforms :=
  deserialize_messages "FrameTransforms" transforms_step [] data.

(** A non-empty list of frame transforms survives the wire: the decoder,
    which accepts nothing it cannot read, gets every transform in order. *)
Theorem frame_transforms_roundtrip transforms :
  transforms <> [] -> Forall wm_valid transforms -> fits (serializeFrameTransforms transforms) ->
  deserializeFrameTransforms (serializeFrameTransforms transforms) = Ok transforms.
Proof.
  intros Hne Hall. unfold serializeFrameTransforms, deserializeFrameTransforms, deserialize_messages.
  rewrite write_each_enc, app_nil_l. intros Hfit. destruct transforms as [|t ts]; [done|].
  rewrite decide_False by (rewrite <- (app_nil_r (concat _)); by apply each_not_nil).
  rewrite <- (app_nil_r (concat _)).
  rewrite (parseMessages_each (T:=FrameTransform) (S:=FrameTransforms) _ _ 1 _ _ [] (fun ts => ts)); [done|..|done|done|done].
  intros cur nested x Hx. unfold transforms_step. simpl. unfold decodes in Hx. cbn in Hx. by rewrite Hx.
Qed.

Lemma frame_transforms_roundtrip_witness :
  let v := [mkFrameTransform 10 [z2b 97] [z2b 98] (mkVector3 1 2 3) (mkQuaternion d0 d0 d0 d1);
            mkFrameTransform (-10) [] [] (mkVector3 d0 d0 d0) (mkQuaternion d0 d0 d0 d1)] in
  deserializeFrameTransforms (serializeFrameTransforms v) = Ok v.
Proof. apply frame_transforms_roundtrip; [discriminate|solve_valid|vm_compute; reflexivity]. Defined.

End FrameTransformsCodec.

(** ** image_codec.cpp *)

Module ImageCodec.

Record Image := mkImage {
  width : Z; height : Z; encoding : bytes; row_step : Z; is_bigendian : bool; data : bytes;
  compressed_depth_min : option Z; compressed_depth_max : option Z; timestamp_ns : Z }.

Definition image_default : Image := mkImage 0 0 [] 0 false [] None None 0.

Definition serializeImage (image : Image) : bytes :=
  let out := [] in
  let out := Writer.message 1 (writeTimestamp (timestamp_ns image)) out in
  let out := Writer.varint 2 (width image) out in
  let out := Writer.varint 3 (height image) out in
  let out := Writer.write_string 4 (encoding image) out in
  let out := Writer.varint 5 (row_step image) out in
  let out := Writer.varint 6 (boolToWire (is_bigendian image)) out in
  let out := Writer.write_bytes 7 (data image) out in
  let out := match compressed_depth_min image with Some f => Writer.floatField 8 f out | None => out end in
  match compressed_depth_max image with Some f => Writer.floatField 9 f out | None => out end.

Definition image_handler : Handler Image := fun tag r s =>
  let '(mkImage w h e rs be d mn mx ts) := s in
  match tag_field tag with
  | 1 => on_message decodeTimestamp tag r s ts (fun t => mkImage w h e rs be d mn mx t)
  | 2 => on_varint tag r s (fun v => mkImage (u32 v) h e rs be d mn mx ts)
  | 3 => on_varint tag r s (fun v => mkImage w (u32 v) e rs be d mn mx ts)
  | 4 => on_bytes tag r s (fun v => mkImage w h v rs be d mn mx ts)
  | 5 => on_varint tag r s (fun v => mkImage w h e (u32 v) be d mn mx ts)
  | 6 => on_varint tag r s (fun v => mkImage w h e rs (boolFromWire v) d mn mx ts)
  | 7 => on_bytes tag r s (fun v => mkImage w h e rs be v mn mx ts)
  | 8 => on_float tag r s (fun v => mkImage w h e rs be d (Some v) mx ts)
  | 9 => on_float tag r s (fun v => mkImage w h e rs be d mn (Some v) ts)
  | _ => unhandled r s
  end.

Definition deserializeImage (buf : bytes) : Expected Image :=
  deserialize "Image" image_handler image_default buf.

#[export] Instance image_advancing : Advancing image_handler.
Proof. unfold image_handler. solve_advancing. Qed.

Definition image_valid (image : Image) : Prop :=
  is_timestamp (timestamp_ns image) /\ in_u 32 (width image) /\ in_u 32 (height image)
  /\ in_u 32 (row_step image) /\ (forall f, compressed_depth_min image = Some f -> in_u 32 f)
  /\ (forall f, compressed_depth_max image = Some f -> in_u 32 f).

(** An image survives the wire, with the depth bounds that are set and
    without those that are not. *)
Theorem image_roundtrip image : image_valid image -> fits (serializeImage image) ->
  deserializeImage (serializeImage image) = Ok image.
Proof.
  destruct image as [w h e rs be d mn mx ts]. unfold image_valid, serializeImage, deserializeImage.
  cbn [timestamp_ns width height encoding row_step is_bigendian data compressed_depth_min
       compressed_depth_max].
  intros (Hts & Hw & Hh & Hrs & Hmn & Hmx).
  destruct mn as [mn|]; [specialize (Hmn mn eq_refl)|]; (destruct mx as [mx|];
    [specialize (Hmx mx eq_refl)|]);
  encode_fields; intros Hfit; split_fits; apply deserialize_ok; try (apply field_not_nil; [wire_side|exact I]);
  close_stream; repeat parse_field; rewrite parseFields_nil, boolFromWire_to, !wrapU_small by done;
  done.
Qed.

Lemma image_roundtrip_witness :
  let v := (mkImage 2 1 [z2b 109] 2 true [z2b 0; z2b 255] None (Some 0x3F800000) 1500000000) in
  deserializeImage (serializeImage v) = Ok v.
Proof. apply image_roundtrip; [solve_valid|vm_compute; reflexivity]. Defined.

End ImageCodec.

(** ** occupancy_grid_codec.cpp *)

Module OccupancyGridCodec.

Record OccupancyGrid := mkOccupancyGrid {
  timestamp_ns : Z; frame_id : bytes; origin : Pose; resolution : Z; width : Z; height : Z;
  data : bytes }.

Definition occupancy_grid_default : OccupancyGrid :=
  mkOccupancyGrid 0 [] (mkPose (mkVector3 d0 d0 d0) (mkQuaternion d0 d0 d0 d1)) d0 0 0 [].

Definition serializeOccupancyGrid (grid : OccupancyGrid) : bytes :=
  let out := [] in
  let out := Writer.message 1 (writeTimestamp (timestamp_ns grid)) out in
  let out := Writer.write_string 2 (frame_id grid) out in
  let out := Writer.message 3 (writePose (origin grid)) out in
  let out := Writer.doubleField 4 (resolution grid) out in
  let out := Writer.varint 5 (width grid) out in
  let out := Writer.varint 6 (height grid) out in
  Writer.write_bytes 7 (data grid) out.

Definition occupancy_grid_handler : Handler OccupancyGrid := fun tag r s =>
  let '(mkOccupancyGrid ts fr o re w h d) := s in
  match tag_field tag with
  | 1 => on_message decodeTimestamp tag r s ts (fun t => mkOccupancyGrid t fr o re w h d)
  | 2 => on_bytes tag r s (fun v => mkOccupancyGrid ts v o re w h d)
  | 3 => on_message decodePose tag r s o (fun v => mkOccupancyGrid ts fr v re w h d)
  | 4 => on_double tag r s (fun v => mkOccupancyGrid ts fr o v w h d)
  | 5 => on_varint tag r s (fun v => mkOccupancyGrid ts fr o re (u32 v) h d)
  | 6 => on_varint tag r s (fun v => mkOccupancyGrid ts fr o re w (u32 v) d)
  | 7 => on_bytes tag r s (fun v => mkOccupancyGrid ts fr o re w h v)
  | _ => unhandled r s
  end.

Definition deserializeOccupancyGrid (buf : bytes) : Expected OccupancyGrid :=
  deserialize "OccupancyGrid" occupancy_grid_handler occupancy_grid_default buf.

#[export] Instance occupancy_grid_advancing : Advancing occupancy_grid_handler.
Proof. unfold occupancy_grid_handler. solve_advancing. Qed.

Definition occupancy_grid_valid (grid : OccupancyGrid) : Prop :=
  is_timestamp (timestamp_ns grid) /\ wm_valid (origin grid) /\ is_double (resolution grid)
  /\ in_u 32 (width grid) /\ in_u 32 (height grid).

Theorem occupancy_grid_roundtrip grid : occupancy_grid_valid grid ->
  fits (serializeOccupancyGrid grid) ->
  deserializeOccupancyGrid (serializeOccupancyGrid grid) = Ok grid.
Proof.
  destruct grid as [ts fr o re w h d].
  unfold occupancy_grid_valid, serializeOccupancyGrid, deserializeOccupancyGrid.
  cbn [timestamp_ns frame_id origin resolution width height data].
  intros (Hts & Ho & Hre & Hw & Hh). encode_fields. intros Hfit. split_fits.
  rewrite <- (wrapU_small 32 w Hw), <- (wrapU_small 32 h Hh) at 2.
  solve_round_trip.
Qed.

End OccupancyGridCodec.

(** ** occupancy_grid_update_codec.cpp *)

Module OccupancyGridUpdateCodec.

Record OccupancyGridUpdate := mkOccupancyGridUpdate {
  timestamp_ns : Z; frame_id : bytes; x : Z; y : Z; width : Z; height : Z; data : bytes }.

Definition grid_update_default : OccupancyGridUpdate := mkOccupancyGridUpdate 0 [] 0 0 0 0 [].

Definition serializeOccupancyGridUpdate (update : OccupancyGridUpdate) : bytes :=
  let out := [] in
  let out := Writer.message 1 (writeTimestamp (timestamp_ns update)) out in
  let out := Writer.write_string 2 (frame_id update) out in
  let out := Writer.varint 3 (u32 (x update)) out in
  let out := Writer.varint 4 (u32 (y update)) out in
  let out := Writer.varint 5 (width update) out in
  let out := Writer.varint 6 (height update) out in
  Writer.write_bytes 7 (data update) out.

Definition grid_update_handler : Handler OccupancyGridUpdate := fun tag r s =>
  let '(mkOccupancyGridUpdate ts fr x y w h d) := s in
  match tag_field tag with
  | 1 => on_message decodeTimestamp tag r s ts (fun t => mkOccupancyGridUpdate t fr x y w h d)
  | 2 => on_bytes tag r s (fun v => mkOccupancyGridUpdate ts v x y w h d)
  | 3 => on_varint tag r s (fun v => mkOccupancyGridUpdate ts fr (i32 (u32 v)) y w h d)
  | 4 => on_varint tag r s (fun v => mkOccupancyGridUpdate ts fr x (i32 (u32 v)) w h d)
  | 5 => on_varint tag r s (fun v => mkOccupancyGridUpdate ts fr x y (u32 v) h d)
  | 6 => on_varint tag r s (fun v => mkOccupancyGridUpdate ts fr x y w (u32 v) d)
  | 7 => on_bytes tag r s (fun v => mkOccupancyGridUpdate ts fr x y w h v)
  | _ => unhandled r s
  end.

Definition deserializeOccupancyGridUpdate (buf : bytes) : Expected OccupancyGridUpdate :=
  deserialize "OccupancyGridUpdate" grid_update_handler grid_update_default buf.

#[export] Instance grid_update_advancing : Advancing grid_update_handler.
Proof. unfold grid_update_handler. solve_advancing. Qed.

Definition grid_update_valid (update : OccupancyGridUpdate) : Prop :=
  is_timestamp (timestamp_ns update) /\ in_s 32 (x update) /\ in_s 32 (y update)
  /\ in_u 32 (width update) /\ in_u 32 (height update).

Lemma i32_through_u32 v : in_s 32 v -> i32 (u32 (u32 v)) = v.
Proof.
  intros. rewrite (wrapU_small 32 (u32 v)) by (apply wrapU_range; lia). by apply wrapS_wrapU.
Qed.

(** A grid update survives the wire, negative offsets included, which travel
    as unsigned 32-bit varints. *)
Theorem grid_update_roundtrip update : grid_update_valid update ->
  fits (serializeOccupancyGridUpdate update) ->
  deserializeOccupancyGridUpdate (serializeOccupancyGridUpdate update) = Ok update.
Proof.
  destruct update as [ts fr x y w h d].
  unfold grid_update_valid, serializeOccupancyGridUpdate, deserializeOccupancyGridUpdate.
  cbn [timestamp_ns frame_id OccupancyGridUpdateCodec.x OccupancyGridUpdateCodec.y width height data].
  intros (Hts & Hx & Hy & Hw & Hh). encode_fields. intros Hfit. split_fits.
  rewrite <- (i32_through_u32 x Hx), <- (i32_through_u32 y Hy) at 2.
  rewrite <- (wrapU_small 32 w Hw), <- (wrapU_small 32 h Hh) at 2.
  pose proof (wrapU_range 32 x ltac:(lia)). pose proof (wrapU_range 32 y ltac:(lia)).
  solve_round_trip.
Qed.

Lemma grid_update_roundtrip_witness :
  let v := (mkOccupancyGridUpdate 7 [z2b 109] (-3) (-2147483648) 1 1 [z2b 100]) in
  deserializeOccupancyGridUpdate (serializeOccupancyGridUpdate v) = Ok v.
Proof. apply grid_update_roundtrip; [solve_valid|vm_compute; reflexivity]. Defined.

End OccupancyGridUpdateCodec.

(** ** depth_image_codec.cpp *)

Module DepthImageCodec.

Record DepthImage := mkDepthImage {
  width : Z; height : Z; encoding : bytes; data : bytes; K : list Z; distortion_model : bytes;
  D : list Z; timestamp_ns : Z }.

Definition depth_image_default : DepthImage := mkDepthImage 0 0 [] [] (replicate 9 d0) [] [] 0.

Definition serializeDepthImage (depth : DepthImage) : bytes :=
  let out := [] in
  let out := Writer.message 1 (writeTimestamp (timestamp_ns depth)) out in
  let out := Writer.varint 2 (width depth) out in
  let out := Writer.varint 3 (height depth) out in
  let out := Writer.write_string 4 (encoding depth) out in
  let out := Writer.write_bytes 5 (data depth) out in
  let out := Writer.packedDouble 6 (K depth) out in
  let out := Writer.write_string 7 (distortion_model depth) out in
  Writer.packedDouble 8 (D depth) out.

Definition depth_image_handler : Handler DepthImage := fun tag r s =>
  let '(mkDepthImage w h e da k dm d ts) := s in
  match tag_field tag with
  | 1 => on_message decodeTimestamp tag r s ts (fun t => mkDepthImage w h e da k dm d t)
  | 2 => on_varint tag r s (fun v => mkDepthImage (u32 v) h e da k dm d ts)
  | 3 => on_varint tag r s (fun v => mkDepthImage w (u32 v) e da k dm d ts)
  | 4 => on_bytes tag r s (fun v => mkDepthImage w h v da k dm d ts)
  | 5 => on_bytes tag r s (fun v => mkDepthImage w h e v k dm d ts)
  | 6 => on_packed (readPackedDoubleArray 9) tag r s k (fun v => mkDepthImage w h e da v dm d ts)
  | 7 => on_bytes tag r s (fun v => mkDepthImage w h e da k v d ts)
  | 8 => on_packed readPackedDouble tag r s d (fun v => mkDepthImage w h e da k dm v ts)
  | _ => unhandled r s
  end.

Definition deserializeDepthImage (buf : bytes) : Expected DepthImage :=
  deserialize "DepthImage" depth_image_handler depth_image_default buf.

#[export] Instance depth_image_advancing : Advancing depth_image_handler.
Proof. unfold depth_image_handler. solve_advancing. Qed.

(** An [std::array<double, N>] and an [std::vector<double>] of any real size. *)
Definition double_array (N : nat) (xs : list Z) : Prop := Forall (in_u 64) xs /\ length xs = N.
Definition double_vector (xs : list Z) : Prop :=
  Forall (in_u 64) xs /\ Z.of_nat (length xs) * 8 < 2 ^ 64.

Definition depth_image_valid (depth : DepthImage) : Prop :=
  is_timestamp (timestamp_ns depth) /\ in_u 32 (width depth) /\ in_u 32 (height depth)
  /\ double_array 9 (K depth) /\ double_vector (D depth).

Theorem depth_image_roundtrip depth : depth_image_valid depth -> fits (serializeDepthImage depth) ->
  deserializeDepthImage (serializeDepthImage depth) = Ok depth.
Proof.
  destruct depth as [w h e da k dm d ts].
  unfold depth_image_valid, serializeDepthImage, deserializeDepthImage.
  cbn [timestamp_ns width height encoding data K distortion_model D].
  intros (Hts & Hw & Hh & (Hk & Hkl) & Hd & Hdl).
  assert (Z.of_nat (length k) * 8 < 2 ^ 64) by lia.
  encode_fields. intros Hfit. split_fits.
  rewrite <- (wrapU_small 32 w Hw), <- (wrapU_small 32 h Hh) at 2. solve_round_trip.
Qed.

End DepthImageCodec.

(** ** camera_info_codec.cpp *)

Module CameraInfoCodec.

Record CameraInfo := mkCameraInfo {
  timestamp_ns : Z; frame_id : bytes; width : Z; height : Z; distortion_model : bytes;
  D : list Z; K : list Z; R : list Z; P : list Z }.

Definition camera_info_default : CameraInfo :=
  mkCameraInfo 0 [] 0 0 [] [] (replicate 9 d0) (replicate 9 d0) (replicate 12 d0).

Definition serializeCameraInfo (info : CameraInfo) : bytes :=
  let out := [] in
  let out := Writer.message 1 (writeTimestamp (timestamp_ns info)) out in
  let out := Writer.write_string 2 (frame_id info) out in
  let out := Writer.varint 3 (width info) out in
  let out := Writer.varint 4 (height info) out in
  let out := Writer.write_string 5 (distortion_model info) out in
  let out := Writer.packedDouble 6 (D info) out in
  let out := Writer.packedDouble 7 (K info) out in
  let out := Writer.packedDouble 8 (R info) out in
  Writer.packedDouble 9 (P info) out.

Definition camera_info_handler : Handler CameraInfo := fun tag r s =>
  let '(mkCameraInfo ts fr w h dm d k rr p) := s in
  match tag_field tag with
  | 1 => on_message decodeTimestamp tag r s ts (fun t => mkCameraInfo t fr w h dm d k rr p)
  | 2 => on_bytes tag r s (fun v => mkCameraInfo ts v w h dm d k rr p)
  | 3 => on_varint tag r s (fun v => mkCameraInfo ts fr (u32 v) h dm d k rr p)
  | 4 => on_varint tag r s (fun v => mkCameraInfo ts fr w (u32 v) dm d k rr p)
  | 5 => on_bytes tag r s (fun v => mkCameraInfo ts fr w h v d k rr p)
  | 6 => on_packed readPackedDouble tag r s d (fun v => mkCameraInfo ts fr w h dm v k rr p)
  | 7 => on_packed (readPackedDoubleArray 9) tag r s k (fun v => mkCameraInfo ts fr w h dm d v rr p)
  | 8 => on_packed (readPackedDoubleArray 9) tag r s rr (fun v => mkCameraInfo ts fr w h dm d k v p)
  | 9 => on_packed (readPackedDoubleArray 12) tag r s p (fun v => mkCameraInfo ts fr w h dm d k rr v)
  | _ => unhandled r s
  end.

Definition deserializeCameraInfo (buf : bytes) : Expected CameraInfo :=
  deserialize "CameraInfo" camera_info_handler camera_info_default buf.

#[export] Instance camera_info_advancing : Advancing camera_info_handler.
Proof. unfold camera_info_handler. solve_advancing. Qed.

Definition camera_info_valid (info : CameraInfo) : Prop :=
  is_timestamp (timestamp_ns info) /\ in_u 32 (width info) /\ in_u 32 (height info)
  /\ DepthImageCodec.double_vector (D info) /\ DepthImageCodec.double_array 9 (K info)
  /\ DepthImageCodec.double_array 9 (R info) /\ DepthImageCodec.double_array 12 (P info).

(** A camera calibration survives the wire: the vector of coefficients and
    the three fixed-size matrices. *)
Theorem camera_info_roundtrip info : camera_info_valid info -> fits (serializeCameraInfo info) ->
  deserializeCameraInfo (serializeCameraInfo info) = Ok info.
Proof.
  destruct info as [ts fr w h dm d k rr p].
  unfold camera_info_valid, serializeCameraInfo, deserializeCameraInfo.
  cbn [timestamp_ns frame_id width height distortion_model D K R P].
  intros (Hts & Hw & Hh & (Hd & Hdl) & (Hk & Hkl) & (Hr & Hrl) & Hp & Hpl).
  assert (Z.of_nat (length k) * 8 < 2 ^ 64) by lia.
  assert (Z.of_nat (length rr) * 8 < 2 ^ 64) by lia.
  assert (Z.of_nat (length p) * 8 < 2 ^ 64) by lia.
  encode_fields. intros Hfit. split_fits.
  rewrite <- (wrapU_small 32 w Hw), <- (wrapU_small 32 h Hh) at 2. solve_round_trip.
Qed.

Lemma camera_info_roundtrip_witness :
  let v := (mkCameraInfo 5 [z2b 99] 640 480 [] [0x3FF0000000000000; 0] (replicate 9 1) (replicate 9 2) (replicate 12 3)) in
  deserializeCameraInfo (serializeCameraInfo v) = Ok v.
Proof. apply camera_info_roundtrip; [solve_valid|vm_compute; reflexivity]. Defined.

End CameraInfoCodec.

(** ** asset_video_codec.cpp *)

Module AssetVideoCodec.

Record AssetVideo := mkAssetVideo {
  time_origin_ns : option Z; start_ns : option Z; end_ns : option Z; file_path : bytes;
  media_type : bytes; width : Z; height : Z; frame_rate : Z }.

Definition asset_video_default : AssetVideo := mkAssetVideo None None None [] [] 0 0 d0.

Definition serializeAssetVideo (asset : AssetVideo) : bytes :=
  let out := [] in
  let out := match time_origin_ns asset with
             | Some t => Writer.message 1 (writeTimestamp t) out | None => out end in
  let out := Writer.write_string 3 (file_path asset) out in
  let out := Writer.write_string 4 (media_type asset) out in
  let out := Writer.varint 5 (width asset) out in
  let out := Writer.varint 6 (height asset) out in
  let out := Writer.doubleField 7 (frame_rate asset) out in
  let out := match start_ns asset with Some t => Writer.varint 8 (u64 t) out | None => out end in
  match end_ns asset with Some t => Writer.varint 9 (u64 t) out | None => out end.

Definition asset_video_handler : Handler AssetVideo := fun tag r s =>
  let '(mkAssetVideo o st en fp mt w h f) := s in
  match tag_field tag with
  | 1 => on_element decodeTimestamp 0 tag r s (fun t => mkAssetVideo (Some t) st en fp mt w h f)
  | 3 => on_bytes tag r s (fun v => mkAssetVideo o st en v mt w h f)
  | 4 => on_bytes tag r s (fun v => mkAssetVideo o st en fp v w h f)
  | 5 => on_varint tag r s (fun v => mkAssetVideo o st en fp mt (u32 v) h f)
  | 6 => on_varint tag r s (fun v => mkAssetVideo o st en fp mt w (u32 v) f)
  | 7 => on_double tag r s (fun v => mkAssetVideo o st en fp mt w h v)
  | 8 => on_varint tag r s (fun v => mkAssetVideo o (Some (i64 v)) en fp mt w h f)
  | 9 => on_varint tag r s (fun v => mkAssetVideo o st (Some (i64 v)) fp mt w h f)
  | _ => unhandled r s
  end.

Definition deserializeAssetVideo (buf : bytes) : Expected AssetVideo :=
  deserialize "AssetVideo" asset_video_handler asset_video_default buf.

#[export] Instance asset_video_advancing : Advancing asset_video_handler.
Proof. unfold asset_video_handler. solve_advancing. Qed.

Definition asset_video_valid (asset : AssetVideo) : Prop :=
  (forall t, time_origin_ns asset = Some t -> is_timestamp t)
  /\ (forall t, start_ns asset = Some t -> in_s 64 t) /\ (forall t, end_ns asset = Some t -> in_s 64 t)
  /\ in_u 32 (width asset) /\ in_u 32 (height asset) /\ is_double (frame_rate asset).

Lemma i64_through_u64 v : in_s 64 v -> i64 (u64 v) = v.
Proof. apply wrapS_wrapU. lia. Qed.

(** An asset video survives the wire, each optional time present exactly when
    it was. *)
Theorem asset_video_roundtrip asset : asset_video_valid asset -> fits (serializeAssetVideo asset) ->
  deserializeAssetVideo (serializeAssetVideo asset) = Ok asset.
Proof.
  destruct asset as [o st en fp mt w h f].
  unfold asset_video_valid, serializeAssetVideo, deserializeAssetVideo.
  cbn [time_origin_ns start_ns end_ns file_path media_type width height frame_rate].
  intros (Ho & Hst & Hen & Hw & Hh & Hf).
  assert (forall t, in_s 64 t -> in_u 64 (u64 t)) by (intros; apply wrapU_range; lia).
  destruct o as [o|]; [specialize (Ho o eq_refl)|]; (destruct st as [st|];
    [specialize (Hst st eq_refl)|]); (destruct en as [en|]; [specialize (Hen en eq_refl)|]);
  encode_fields; intros Hfit; split_fits; apply deserialize_ok;
    try (apply field_not_nil; [wire_side|exact I]);
  close_stream; repeat parse_field; rewrite parseFields_nil, ?i64_through_u64, !wrapU_small by done;
  done.
Qed.

Lemma asset_video_roundtrip_witness :
  let v := (mkAssetVideo (Some 12) (Some (-5)) None [z2b 118] [] 1 2 0x403E000000000000) in
  deserializeAssetVideo (serializeAssetVideo v) = Ok v.
Proof. apply asset_video_roundtrip; [solve_valid|vm_compute; reflexivity]. Defined.

End AssetVideoCodec.

(** ** point_cloud_codec.cpp *)

Module PointCloudCodec.

Inductive Datatype : Set :=
| kUnknown | kInt8 | kUint8 | kInt16 | kUint16 | kInt32 | kUint32 | kFloat32 | kFloat64.

Record PointField := mkPointField { name : bytes; offset : Z; datatype : Datatype; count : Z }.

Definition point_field_default : PointField := mkPointField [] 0 kUnknown 1.

Record PointCloud := mkPointCloud {
  width : Z; height : Z; point_step : Z; row_step : Z; is_bigendian : bool; is_dense : bool;
  frame_id : bytes; fields : list PointField; data : bytes; timestamp_ns : Z }.

Definition point_cloud_default : PointCloud := mkPointCloud 0 1 0 0 false true [] [] [] 0.

Definition datatypeToWire (dt : Datatype) : Z :=
  match dt with
  | kUnknown => 0 | kInt8 => 1 | kUint8 => 2 | kInt16 => 3 | kUint16 => 4 | kInt32 => 5
  | kUint32 => 6 | kFloat32 => 7 | kFloat64 => 8
  end.

Definition datatypeFromWire (value : Z) : Datatype :=
  match value with
  | 1 => kInt8 | 2 => kUint8 | 3 => kInt16 | 4 => kUint16 | 5 => kInt32 | 6 => kUint32
  | 7 => kFloat32 | 8 => kFloat64 | _ => kUnknown
  end.

Lemma datatype_through_wire dt : datatypeFromWire (datatypeToWire dt) = dt.
Proof. by destruct dt. Qed.
Lemma datatypeToWire_range dt : in_u 64 (datatypeToWire dt).
Proof. unfold in_u. destruct dt; simpl; lia. Qed.
#[local] Hint Resolve datatypeToWire_range : wire.

Definition writePointField (field : PointField) (out : bytes) : bytes :=
  let out := Writer.write_string 1 (name field) out in
  let out := Writer.varint 2 (offset field) out in
  let out := Writer.varint 3 (datatypeToWire (datatype field)) out in
  Writer.varint 4 (count field) out.

Definition point_field_handler : Handler PointField := fun tag r s =>
  let '(mkPointField nm off dt c) := s in
  match tag_field tag with
  | 1 => on_bytes tag r s (fun v => mkPointField v off dt c)
  | 2 => on_varint tag r s (fun v => mkPointField nm (u32 v) dt c)
  | 3 => on_varint tag r s (fun v => mkPointField nm off (datatypeFromWire v) c)
  | 4 => on_varint tag r s (fun v => mkPointField nm off dt (u32 v))
  | _ => unhandled r s
  end.

Definition decodePointField : bytes -> PointField -> bool * PointField :=
  decode_fields point_field_handler.

#[export] Instance point_field_advancing : Advancing point_field_handler.
Proof. unfold point_field_handler. solve_advancing. Qed.

#[export] Instance PointField_message : WireMessage PointField := {|
  wm_write := writePointField;
  wm_decode := decodePointField;
  wm_init := point_field_default;
  wm_valid f := in_u 32 (offset f) /\ in_u 32 (count f)
|}.

#[export] Instance PointField_laws : WireMessageLaws PointField.
Proof.
  split.
  - intros f out. cbn [wm_write PointField_message]. unfold writePointField. by encode_fields.
  - intros [nm off dt c] [Hoff Hc]. cbn [wm_write wm_decode wm_init PointField_message].
    unfold writePointField, decodes, decodePointField, decode_fields, point_field_default.
    cbn [name offset datatype count] in *. encode_fields. intros Hfit. split_fits. close_stream.
    repeat parse_field. rewrite parseFields_nil, datatype_through_wire, !wrapU_small by done. done.
Qed.

Definition serializePointCloud (cloud : PointCloud) : bytes :=
  let out := [] in
  let out := Writer.message 1 (writeTimestamp (timestamp_ns cloud)) out in
  let out := Writer.varint 2 (width cloud) out in
  let out := Writer.varint 3 (height cloud) out in
  let out := Writer.varint 4 (point_step cloud) out in
  let out := Writer.varint 5 (row_step cloud) out in
  let out := Writer.varint 6 (boolToWire (is_bigendian cloud)) out in
  let out := Writer.varint 7 (boolToWire (is_dense cloud)) out in
  let out := write_each 8 (fields cloud) out in
  let out := Writer.write_bytes 9 (data cloud) out in
  Writer.write_string 10 (frame_id cloud) out.

(** Case 8 is [readPointFieldIntoVector], case 9 [readBytesIntoCloud]. *)
Definition point_cloud_handler : Handler PointCloud := fun tag r s =>
  let '(mkPointCloud w h ps rs be de fr fs d ts) := s in
  match tag_field tag with
  | 1 => on_message decodeTimestamp tag r s ts (fun t => mkPointCloud w h ps rs be de fr fs d t)
  | 2 => on_varint tag r s (fun v => mkPointCloud (u32 v) h ps rs be de fr fs d ts)
  | 3 => on_varint tag r s (fun v => mkPointCloud w (u32 v) ps rs be de fr fs d ts)
  | 4 => on_varint tag r s (fun v => mkPointCloud w h (u32 v) rs be de fr fs d ts)
  | 5 => on_varint tag r s (fun v => mkPointCloud w h ps (u32 v) be de fr fs d ts)
  | 6 => on_varint tag r s (fun v => mkPointCloud w h ps rs (boolFromWire v) de fr fs d ts)
  | 7 => on_varint tag r s (fun v => mkPointCloud w h ps rs be (boolFromWire v) fr fs d ts)
  | 8 => on_element wm_decode wm_init tag r s (fun f => mkPointCloud w h ps rs be de fr (fs ++ [f]) d ts)
  | 9 => on_bytes tag r s (fun v => mkPointCloud w h ps rs be de fr fs v ts)
  | 10 => on_bytes tag r s (fun v => mkPointCloud w h ps rs be de v fs d ts)
  | _ => unhandled r s
  end.

Definition deserializePointCloud (buf : bytes) : Expected PointCloud :=
  deserialize "PointCloud" point_cloud_handler point_cloud_default buf.

#[export] Instance point_cloud_advancing : Advancing point_cloud_handler.
Proof. unfold point_cloud_handler. solve_advancing. Qed.

Definition point_cloud_valid (cloud : PointCloud) : Prop :=
  is_timestamp (timestamp_ns cloud) /\ in_u 32 (width cloud) /\ in_u 32 (height cloud)
  /\ in_u 32 (point_step cloud) /\ in_u 32 (row_step cloud) /\ Forall wm_valid (fields cloud).

(** A point cloud survives the wire with the list of its fields in order. *)
Theorem point_cloud_roundtrip cloud : point_cloud_valid cloud -> fits (serializePointCloud cloud) ->
  deserializePointCloud (serializePointCloud cloud) = Ok cloud.
Proof.
  destruct cloud as [w h ps rs be de fr fs d ts].
  unfold point_cloud_valid, serializePointCloud, deserializePointCloud.
  cbn [timestamp_ns width height point_step row_step is_bigendian is_dense frame_id fields data].
  intros (Hts & Hw & Hh & Hps & Hrs & Hfs). encode_fields. intros Hfit. split_fits.
  apply deserialize_ok; [apply field_not_nil; [wire_side|exact I]|].
  close_stream. repeat parse_field.
  parse_each_field (fun fs => mkPointCloud (u32 w) (u32 h) (u32 ps) (u32 rs)
    (boolFromWire (boolToWire be)) (boolFromWire (boolToWire de)) [] fs [] ts).
  repeat parse_field. by rewrite parseFields_nil, !boolFromWire_to, !wrapU_small by done.
Qed.

Lemma point_cloud_roundtrip_witness :
  let v := (mkPointCloud 1 1 8 8 false true [z2b 108] [mkPointField [z2b 120] 0 kFloat32 1; mkPointField [z2b 105] 4 kUint16 2] (replicate 8 (z2b 7)) 99) in
  deserializePointCloud (serializePointCloud v) = Ok v.
Proof. apply point_cloud_roundtrip; [solve_valid|vm_compute; reflexivity]. Defined.

End PointCloudCodec.

(** ** mesh3d_codec.cpp *)

Module Mesh3DCodec.

Record Mesh3D := mkMesh3D {
  timestamp_ns : Z; frame_id : bytes; id : bytes; pose : Pose; scale : Vector3; format : bytes;
  data : bytes; url : bytes; color : ColorRGBA; override_color : bool }.

Definition mesh_default : Mesh3D :=
  mkMesh3D 0 [] [] (mkPose (mkVector3 d0 d0 d0) (mkQuaternion d0 d0 d0 d1)) (mkVector3 d1 d1 d1)
    [] [] [] (mkColor 0 0 0 255) false.

Definition serializeMesh3D (mesh : Mesh3D) : bytes :=
  let out := [] in
  let out := Writer.message 1 (writeTimestamp (timestamp_ns mesh)) out in
  let out := Writer.write_string 2 (frame_id mesh) out in
  let out := Writer.write_string 3 (id mesh) out in
  let out := Writer.message 4 (writePose (pose mesh)) out in
  let out := Writer.message 5 (writeVector3 (scale mesh)) out in
  let out := Writer.write_string 6 (format mesh) out in
  let out := Writer.write_bytes 7 (data mesh) out in
  let out := Writer.write_string 8 (url mesh) out in
  let out := Writer.message 9 (writeColor (color mesh)) out in
  Writer.varint 10 (boolToWire (override_color mesh)) out.

Definition mesh_handler : Handler Mesh3D := fun tag r s =>
  let '(mkMesh3D ts fr i p sc fm d u c o) := s in
  match tag_field tag with
  | 1 => on_message decodeTimestamp tag r s ts (fun t => mkMesh3D t fr i p sc fm d u c o)
  | 2 => on_bytes tag r s (fun v => mkMesh3D ts v i p sc fm d u c o)
  | 3 => on_bytes tag r s (fun v => mkMesh3D ts fr v p sc fm d u c o)
  | 4 => on_message decodePose tag r s p (fun v => mkMesh3D ts fr i v sc fm d u c o)
  | 5 => on_message decodeVector3 tag r s sc (fun v => mkMesh3D ts fr i p v fm d u c o)
  | 6 => on_bytes tag r s (fun v => mkMesh3D ts fr i p sc v d u c o)
  | 7 => on_bytes tag r s (fun v => mkMesh3D ts fr i p sc fm v u c o)
  | 8 => on_bytes tag r s (fun v => mkMesh3D ts fr i p sc fm d v c o)
  | 9 => on_message decodeColor tag r s c (fun v => mkMesh3D ts fr i p sc fm d u v o)
  | 10 => on_varint tag r s (fun v => mkMesh3D ts fr i p sc fm d u c (boolFromWire v))
  | _ => unhandled r s
  end.

Definition deserializeMesh3D (buf : bytes) : Expected Mesh3D :=
  deserialize "Mesh3D" mesh_handler mesh_default buf.

#[export] Instance mesh_advancing : Advancing mesh_handler.
Proof. unfold mesh_handler. solve_advancing. Qed.

Definition mesh_valid (mesh : Mesh3D) : Prop :=
  is_timestamp (timestamp_ns mesh) /\ wm_valid (pose mesh) /\ wm_valid (scale mesh)
  /\ wm_valid (color mesh).

(** A mesh survives the wire, its 8-bit colour through normalized doubles
    included. *)
Theorem mesh_roundtrip mesh : mesh_valid mesh -> fits (serializeMesh3D mesh) ->
  deserializeMesh3D (serializeMesh3D mesh) = Ok mesh.
Proof.
  destruct mesh as [ts fr i p sc fm d u c o]. unfold mesh_valid, serializeMesh3D, deserializeMesh3D.
  cbn [timestamp_ns frame_id id pose scale format data url color override_color].
  intros (Hts & Hp & Hsc & Hc). encode_fields. intros Hfit. split_fits.
  rewrite <- (boolFromWire_to o) at 2. solve_round_trip.
Qed.

Lemma mesh_roundtrip_witness :
  let v := (mkMesh3D 1 [] [z2b 97] (mkPose (mkVector3 1 2 3) (mkQuaternion d0 d0 d0 d1)) (mkVector3 d1 d1 d1) [] [z2b 1] [] (mkColor 0 128 255 77) true) in
  deserializeMesh3D (serializeMesh3D v) = Ok v.
Proof. apply mesh_roundtrip; [solve_valid|vm_compute; reflexivity]. Defined.

End Mesh3DCodec.
