(* ===== verification/SceneCodec.v ===== *)
(** * SceneCodec: the wire form of 3D scenes

    Models [src/pj_base/src/builtin/scene_entities_codec.cpp] over the structs of
    [src/pj_base/include/pj_base/builtin/scene_entities.hpp]: nine kinds of
    primitives, the entity that bundles them, the deletion command and the
    batch.  Every message is an instance of [WireMessage]; the batch is a
    stream of messages read by [Fields.message_loop]. *)

From S2P Require Import Prelude Wire Fields Float64 Geometry Codecs.

Definition pose_default : Pose := mkPose (mkVector3 d0 d0 d0) (mkQuaternion d0 d0 d0 d1).
Definition vector3_default : Vector3 := mkVector3 d0 d0 d0.
Definition color_default : ColorRGBA := mkColor 0 0 0 255.

(** A writer only appends. *)
Ltac message_app write :=
  intros;
  lazymatch goal with
  | |- wm_write ?x ?out = _ => change (write x out = out ++ write x [])
  end;
  unfold write; encode_fields;
  first [done | by apply packedFixed32_app].

(** ** LineType *)

Inductive LineType : Set := kLineStrip | kLineLoop | kLineList.

#[export] Instance LineType_eq_dec : EqDecision LineType.
Proof. solve_decision. Defined.

Definition lineTypeToWire (type : LineType) : Z :=
  match type with kLineStrip => 1 | kLineLoop => 2 | kLineList => 3 end.

Definition lineTypeFromWire (value : Z) : LineType :=
  match value with 2 => kLineLoop | 3 => kLineList | _ => kLineStrip end.

Lemma lineType_through_wire t : lineTypeFromWire (lineTypeToWire t) = t.
Proof. by destruct t. Qed.
Lemma lineTypeToWire_range t : in_u 64 (lineTypeToWire t).
Proof. unfold in_u. destruct t; simpl; lia. Qed.
#[local] Hint Resolve lineTypeToWire_range : wire.

(** ** ArrowPrimitive *)

Record ArrowPrimitive := mkArrow {
  ar_pose : Pose; ar_shaft_length : Z; ar_shaft_diameter : Z; ar_head_length : Z;
  ar_head_diameter : Z; ar_color : ColorRGBA }.

Definition arrow_default : ArrowPrimitive := mkArrow pose_default d0 d0 d0 d0 color_default.

Definition writeArrowPrimitive (p : ArrowPrimitive) (out : bytes) : bytes :=
  let out := Writer.message 1 (writePose (ar_pose p)) out in
  let out := Writer.doubleField 2 (ar_shaft_length p) out in
  let out := Writer.doubleField 3 (ar_shaft_diameter p) out in
  let out := Writer.doubleField 4 (ar_head_length p) out in
  let out := Writer.doubleField 5 (ar_head_diameter p) out in
  Writer.message 6 (writeColor (ar_color p)) out.

Definition arrow_handler : Handler ArrowPrimitive := fun tag r s =>
  let '(mkArrow p sl sd hl hd c) := s in
  match tag_field tag with
  | 1 => on_message decodePose tag r s p (fun v => mkArrow v sl sd hl hd c)
  | 2 => on_double tag r s (fun v => mkArrow p v sd hl hd c)
  | 3 => on_double tag r s (fun v => mkArrow p sl v hl hd c)
  | 4 => on_double tag r s (fun v => mkArrow p sl sd v hd c)
  | 5 => on_double tag r s (fun v => mkArrow p sl sd hl v c)
  | 6 => on_message decodeColor tag r s c (fun v => mkArrow p sl sd hl hd v)
  | _ => unhandled r s
  end.

Definition decodeArrowPrimitive : bytes -> ArrowPrimitive -> bool * ArrowPrimitive :=
  decode_fields arrow_handler.

#[export] Instance arrow_advancing : Advancing arrow_handler.
Proof. unfold arrow_handler. solve_advancing. Qed.

#[export] Instance Arrow_message : WireMessage ArrowPrimitive := {|
  wm_write := writeArrowPrimitive;
  wm_decode := decodeArrowPrimitive;
  wm_init := arrow_default;
  wm_valid p := wm_valid (ar_pose p) /\ is_double (ar_shaft_length p) /\ is_double (ar_shaft_diameter p)
    /\ is_double (ar_head_length p) /\ is_double (ar_head_diameter p) /\ wm_valid (ar_color p)
|}.

#[export] Instance Arrow_laws : WireMessageLaws ArrowPrimitive.
Proof.
  split; [message_app writeArrowPrimitive|].
  intros [p sl sd hl hd c] (Hp & Hsl & Hsd & Hhl & Hhd & Hc).
  cbn [wm_write wm_decode wm_init Arrow_message ar_pose ar_shaft_length ar_shaft_diameter ar_head_length
       ar_head_diameter ar_color] in *.
  unfold writeArrowPrimitive, decodes, decodeArrowPrimitive, decode_fields, arrow_default.
  cbn [ar_pose ar_shaft_length ar_shaft_diameter ar_head_length ar_head_diameter ar_color].
  encode_fields. intros Hfit. split_fits. close_stream. repeat parse_field. done.
Qed.

(** ** CubePrimitive *)

Record CubePrimitive := mkCube { cu_pose : Pose; cu_size : Vector3; cu_color : ColorRGBA }.

Definition cube_default : CubePrimitive := mkCube pose_default vector3_default color_default.

Definition writeCubePrimitive (p : CubePrimitive) (out : bytes) : bytes :=
  let out := Writer.message 1 (writePose (cu_pose p)) out in
  let out := Writer.message 2 (writeVector3 (cu_size p)) out in
  Writer.message 3 (writeColor (cu_color p)) out.

Definition cube_handler : Handler CubePrimitive := fun tag r s =>
  let '(mkCube p si c) := s in
  require_type kLengthDelimited tag r s
    match tag_field tag with
    | 1 => on_message decodePose tag r s p (fun v => mkCube v si c)
    | 2 => on_message decodeVector3 tag r s si (fun v => mkCube p v c)
    | 3 => on_message decodeColor tag r s c (fun v => mkCube p si v)
    | _ => unhandled r s
    end.

Definition decodeCubePrimitive : bytes -> CubePrimitive -> bool * CubePrimitive :=
  decode_fields cube_handler.

#[export] Instance cube_advancing : Advancing cube_handler.
Proof. unfold cube_handler. solve_advancing. Qed.

#[export] Instance Cube_message : WireMessage CubePrimitive := {|
  wm_write := writeCubePrimitive;
  wm_decode := decodeCubePrimitive;
  wm_init := cube_default;
  wm_valid p := wm_valid (cu_pose p) /\ wm_valid (cu_size p) /\ wm_valid (cu_color p)
|}.

#[export] Instance Cube_laws : WireMessageLaws CubePrimitive.
Proof.
  split; [message_app writeCubePrimitive|].
  intros [p si c] (Hp & Hsi & Hc).
  cbn [wm_write wm_decode wm_init Cube_message cu_pose cu_size cu_color] in *.
  unfold writeCubePrimitive, decodes, decodeCubePrimitive, decode_fields, cube_default.
  cbn [cu_pose cu_size cu_color]. encode_fields. intros Hfit. split_fits. close_stream.
  repeat parse_field. done.
Qed.

(** ** SpherePrimitive *)

Record SpherePrimitive := mkSphere { sp_pose : Pose; sp_size : Vector3; sp_color : ColorRGBA }.

Definition sphere_default : SpherePrimitive := mkSphere pose_default vector3_default color_default.

Definition writeSpherePrimitive (p : SpherePrimitive) (out : bytes) : bytes :=
  let out := Writer.message 1 (writePose (sp_pose p)) out in
  let out := Writer.message 2 (writeVector3 (sp_size p)) out in
  Writer.message 3 (writeColor (sp_color p)) out.

Definition sphere_handler : Handler SpherePrimitive := fun tag r s =>
  let '(mkSphere p si c) := s in
  require_type kLengthDelimited tag r s
    match tag_field tag with
    | 1 => on_message decodePose tag r s p (fun v => mkSphere v si c)
    | 2 => on_message decodeVector3 tag r s si (fun v => mkSphere p v c)
    | 3 => on_message decodeColor tag r s c (fun v => mkSphere p si v)
    | _ => unhandled r s
    end.

Definition decodeSpherePrimitive : bytes -> SpherePrimitive -> bool * SpherePrimitive :=
  decode_fields sphere_handler.

#[export] Instance sphere_advancing : Advancing sphere_handler.
Proof. unfold sphere_handler. solve_advancing. Qed.

#[export] Instance Sphere_message : WireMessage SpherePrimitive := {|
  wm_write := writeSpherePrimitive;
  wm_decode := decodeSpherePrimitive;
  wm_init := sphere_default;
  wm_valid p := wm_valid (sp_pose p) /\ wm_valid (sp_size p) /\ wm_valid (sp_color p)
|}.

#[export] Instance Sphere_laws : WireMessageLaws SpherePrimitive.
Proof.
  split; [message_app writeSpherePrimitive|].
  intros [p si c] (Hp & Hsi & Hc).
  cbn [wm_write wm_decode wm_init Sphere_message sp_pose sp_size sp_color] in *.
  unfold writeSpherePrimitive, decodes, decodeSpherePrimitive, decode_fields, sphere_default.
  cbn [sp_pose sp_size sp_color]. encode_fields. intros Hfit. split_fits. close_stream.
  repeat parse_field. done.
Qed.

(** ** CylinderPrimitive *)

Record CylinderPrimitive := mkCylinder {
  cy_pose : Pose; cy_size : Vector3; cy_bottom_scale : Z; cy_top_scale : Z; cy_color : ColorRGBA }.

Definition cylinder_default : CylinderPrimitive :=
  mkCylinder pose_default vector3_default d1 d1 color_default.

Definition writeCylinderPrimitive (p : CylinderPrimitive) (out : bytes) : bytes :=
  let out := Writer.message 1 (writePose (cy_pose p)) out in
  let out := Writer.message 2 (writeVector3 (cy_size p)) out in
  let out := Writer.doubleField 3 (cy_bottom_scale p) out in
  let out := Writer.doubleField 4 (cy_top_scale p) out in
  Writer.message 5 (writeColor (cy_color p)) out.

Definition cylinder_handler : Handler CylinderPrimitive := fun tag r s =>
  let '(mkCylinder p si bs ts c) := s in
  match tag_field tag with
  | 1 => on_message decodePose tag r s p (fun v => mkCylinder v si bs ts c)
  | 2 => on_message decodeVector3 tag r s si (fun v => mkCylinder p v bs ts c)
  | 3 => on_double tag r s (fun v => mkCylinder p si v ts c)
  | 4 => on_double tag r s (fun v => mkCylinder p si bs v c)
  | 5 => on_message decodeColor tag r s c (fun v => mkCylinder p si bs ts v)
  | _ => unhandled r s
  end.

Definition decodeCylinderPrimitive : bytes -> CylinderPrimitive -> bool * CylinderPrimitive :=
  decode_fields cylinder_handler.

#[export] Instance cylinder_advancing : Advancing cylinder_handler.
Proof. unfold cylinder_handler. solve_advancing. Qed.

#[export] Instance Cylinder_message : WireMessage CylinderPrimitive := {|
  wm_write := writeCylinderPrimitive;
  wm_decode := decodeCylinderPrimitive;
  wm_init := cylinder_default;
  wm_valid p := wm_valid (cy_pose p) /\ wm_valid (cy_size p) /\ is_double (cy_bottom_scale p)
    /\ is_double (cy_top_scale p) /\ wm_valid (cy_color p)
|}.

#[export] Instance Cylinder_laws : WireMessageLaws CylinderPrimitive.
Proof.
  split; [message_app writeCylinderPrimitive|].
  intros [p si bs ts c] (Hp & Hsi & Hbs & Hts & Hc).
  cbn [wm_write wm_decode wm_init Cylinder_message cy_pose cy_size cy_bottom_scale cy_top_scale cy_color] in *.
  unfold writeCylinderPrimitive, decodes, decodeCylinderPrimitive, decode_fields, cylinder_default.
  cbn [cy_pose cy_size cy_bottom_scale cy_top_scale cy_color]. encode_fields. intros Hfit. split_fits.
  close_stream. repeat parse_field. done.
Qed.

(** ** LinePrimitive and TrianglePrimitive *)

(** An [std::vector<uint32_t>] of any real size. *)
Definition index_vector (xs : list Z) : Prop :=
  Forall (in_u 32) xs /\ Z.of_nat (length xs) * 4 < 2 ^ 64.

Record LinePrimitive := mkLine {
  ln_type : LineType; ln_pose : Pose; ln_thickness : Z; ln_scale_invariant : bool;
  ln_points : list Point3; ln_color : ColorRGBA; ln_colors : list ColorRGBA; ln_indices : list Z }.

Definition line_default : LinePrimitive :=
  mkLine kLineStrip pose_default d0 false [] color_default [] [].

Definition writeLinePrimitive (p : LinePrimitive) (out : bytes) : bytes :=
  let out := Writer.varint 1 (lineTypeToWire (ln_type p)) out in
  let out := Writer.message 2 (writePose (ln_pose p)) out in
  let out := Writer.doubleField 3 (ln_thickness p) out in
  let out := Writer.varint 4 (boolToWire (ln_scale_invariant p)) out in
  let out := write_each 5 (ln_points p) out in
  let out := Writer.message 6 (writeColor (ln_color p)) out in
  let out := write_each 7 (ln_colors p) out in
  Writer.packedFixed32 8 (ln_indices p) out.

(** Cases 5 and 7 are [readPoint3IntoVector] and [readColorIntoVector]. *)
Definition line_handler : Handler LinePrimitive := fun tag r s =>
  let '(mkLine ty p th si ps c cs ix) := s in
  match tag_field tag with
  | 1 => on_varint tag r s (fun v => mkLine (lineTypeFromWire v) p th si ps c cs ix)
  | 2 => on_message decodePose tag r s p (fun v => mkLine ty v th si ps c cs ix)
  | 3 => on_double tag r s (fun v => mkLine ty p v si ps c cs ix)
  | 4 => on_varint tag r s (fun v => mkLine ty p th (boolFromWire v) ps c cs ix)
  | 5 => on_element wm_decode wm_init tag r s (fun v => mkLine ty p th si (ps ++ [v]) c cs ix)
  | 6 => on_message decodeColor tag r s c (fun v => mkLine ty p th si ps v cs ix)
  | 7 => on_element wm_decode wm_init tag r s (fun v => mkLine ty p th si ps c (cs ++ [v]) ix)
  | 8 => on_packed readPackedFixed32 tag r s ix (fun v => mkLine ty p th si ps c cs v)
  | _ => unhandled r s
  end.

Definition decodeLinePrimitive : bytes -> LinePrimitive -> bool * LinePrimitive :=
  decode_fields line_handler.

#[export] Instance line_advancing : Advancing line_handler.
Proof. unfold line_handler. solve_advancing. Qed.

#[export] Instance Line_message : WireMessage LinePrimitive := {|
  wm_write := writeLinePrimitive;
  wm_decode := decodeLinePrimitive;
  wm_init := line_default;
  wm_valid p := wm_valid (ln_pose p) /\ is_double (ln_thickness p) /\ Forall wm_valid (ln_points p)
    /\ wm_valid (ln_color p) /\ Forall wm_valid (ln_colors p) /\ index_vector (ln_indices p)
|}.

#[export] Instance Line_laws : WireMessageLaws LinePrimitive.
Proof.
  split; [message_app writeLinePrimitive|].
  intros [ty p th si ps c cs ix] (Hp & Hth & Hps & Hc & Hcs & Hix & Hixl).
  cbn [wm_write wm_decode wm_init Line_message ln_type ln_pose ln_thickness ln_scale_invariant
       ln_points ln_color ln_colors ln_indices] in *.
  unfold writeLinePrimitive, decodes, decodeLinePrimitive, decode_fields, line_default.
  cbn [ln_type ln_pose ln_thickness ln_scale_invariant ln_points ln_color ln_colors ln_indices].
  encode_fields. intros Hfit. split_fits. close_stream. repeat parse_field.
  rewrite lineType_through_wire, boolFromWire_to.
  parse_each_field (fun ps => mkLine ty p th si ps color_default [] []). repeat parse_field.
  parse_each_field (fun cs => mkLine ty p th si ps c cs []). repeat parse_field.
  by rewrite parseFields_nil.
Qed.

Record TrianglePrimitive := mkTriangle {
  tr_pose : Pose; tr_points : list Point3; tr_color : ColorRGBA; tr_colors : list ColorRGBA;
  tr_indices : list Z }.

Definition triangle_default : TrianglePrimitive := mkTriangle pose_default [] color_default [] [].

Definition writeTrianglePrimitive (p : TrianglePrimitive) (out : bytes) : bytes :=
  let out := Writer.message 1 (writePose (tr_pose p)) out in
  let out := write_each 2 (tr_points p) out in
  let out := Writer.message 3 (writeColor (tr_color p)) out in
  let out := write_each 4 (tr_colors p) out in
  Writer.packedFixed32 5 (tr_indices p) out.

Definition triangle_handler : Handler TrianglePrimitive := fun tag r s =>
  let '(mkTriangle p ps c cs ix) := s in
  require_type kLengthDelimited tag r s
    match tag_field tag with
    | 1 => on_message decodePose tag r s p (fun v => mkTriangle v ps c cs ix)
    | 2 => on_element wm_decode wm_init tag r s (fun v => mkTriangle p (ps ++ [v]) c cs ix)
    | 3 => on_message decodeColor tag r s c (fun v => mkTriangle p ps v cs ix)
    | 4 => on_element wm_decode wm_init tag r s (fun v => mkTriangle p ps c (cs ++ [v]) ix)
    | 5 => on_packed readPackedFixed32 tag r s ix (fun v => mkTriangle p ps c cs v)
    | _ => unhandled r s
    end.

Definition decodeTrianglePrimitive : bytes -> TrianglePrimitive -> bool * TrianglePrimitive :=
  decode_fields triangle_handler.

#[export] Instance triangle_advancing : Advancing triangle_handler.
Proof. unfold triangle_handler. solve_advancing. Qed.

#[export] Instance Triangle_message : WireMessage TrianglePrimitive := {|
  wm_write := writeTrianglePrimitive;
  wm_decode := decodeTrianglePrimitive;
  wm_init := triangle_default;
  wm_valid p := wm_valid (tr_pose p) /\ Forall wm_valid (tr_points p) /\ wm_valid (tr_color p)
    /\ Forall wm_valid (tr_colors p) /\ index_vector (tr_indices p)
|}.

#[export] Instance Triangle_laws : WireMessageLaws TrianglePrimitive.
Proof.
  split; [message_app writeTrianglePrimitive|].
  intros [p ps c cs ix] (Hp & Hps & Hc & Hcs & Hix & Hixl).
  cbn [wm_write wm_decode wm_init Triangle_message tr_pose tr_points tr_color tr_colors tr_indices] in *.
  unfold writeTrianglePrimitive, decodes, decodeTrianglePrimitive, decode_fields, triangle_default.
  cbn [tr_pose tr_points tr_color tr_colors tr_indices].
  encode_fields. intros Hfit. split_fits. close_stream. repeat parse_field.
  parse_each_field (fun ps => mkTriangle p ps color_default [] []). repeat parse_field.
  parse_each_field (fun cs => mkTriangle p ps c cs []). repeat parse_field.
  by rewrite parseFields_nil.
Qed.

(** ** TextPrimitive, AxesPrimitive and ModelPrimitive *)

Record TextPrimitive := mkText {
  tx_pose : Pose; tx_billboard : bool; tx_font_size : Z; tx_scale_invariant : bool;
  tx_color : ColorRGBA; tx_text : bytes }.

Definition text_default : TextPrimitive := mkText pose_default false d0 false color_default [].

Definition writeTextPrimitive (p : TextPrimitive) (out : bytes) : bytes :=
  let out := Writer.message 1 (writePose (tx_pose p)) out in
  let out := Writer.varint 2 (boolToWire (tx_billboard p)) out in
  let out := Writer.doubleField 3 (tx_font_size p) out in
  let out := Writer.varint 4 (boolToWire (tx_scale_invariant p)) out in
  let out := Writer.message 5 (writeColor (tx_color p)) out in
  Writer.write_string 6 (tx_text p) out.

Definition text_handler : Handler TextPrimitive := fun tag r s =>
  let '(mkText p bb fs si c tx) := s in
  match tag_field tag with
  | 1 => on_message decodePose tag r s p (fun v => mkText v bb fs si c tx)
  | 2 => on_varint tag r s (fun v => mkText p (boolFromWire v) fs si c tx)
  | 3 => on_double tag r s (fun v => mkText p bb v si c tx)
  | 4 => on_varint tag r s (fun v => mkText p bb fs (boolFromWire v) c tx)
  | 5 => on_message decodeColor tag r s c (fun v => mkText p bb fs si v tx)
  | 6 => on_bytes tag r s (fun v => mkText p bb fs si c v)
  | _ => unhandled r s
  end.

Definition decodeTextPrimitive : bytes -> TextPrimitive -> bool * TextPrimitive :=
  decode_fields text_handler.

#[export] Instance text_advancing : Advancing text_handler.
Proof. unfold text_handler. solve_advancing. Qed.

#[export] Instance Text_message : WireMessage TextPrimitive := {|
  wm_write := writeTextPrimitive;
  wm_decode := decodeTextPrimitive;
  wm_init := text_default;
  wm_valid p := wm_valid (tx_pose p) /\ is_double (tx_font_size p) /\ wm_valid (tx_color p)
|}.

#[export] Instance Text_laws : WireMessageLaws TextPrimitive.
Proof.
  split; [message_app writeTextPrimitive|].
  intros [p bb fs si c tx] (Hp & Hfs & Hc).
  cbn [wm_write wm_decode wm_init Text_message tx_pose tx_billboard tx_font_size tx_scale_invariant
       tx_color tx_text] in *.
  unfold writeTextPrimitive, decodes, decodeTextPrimitive, decode_fields, text_default.
  cbn [tx_pose tx_billboard tx_font_size tx_scale_invariant tx_color tx_text].
  encode_fields. intros Hfit. split_fits. close_stream. repeat parse_field.
  by rewrite parseFields_nil, !boolFromWire_to.
Qed.

Record AxesPrimitive := mkAxes {
  ax_pose : Pose; ax_length : Z; ax_thickness : Z; ax_scale_invariant : bool }.

Definition axes_default : AxesPrimitive := mkAxes pose_default d0 d0 false.

Definition writeAxesPrimitive (p : AxesPrimitive) (out : bytes) : bytes :=
  let out := Writer.message 1 (writePose (ax_pose p)) out in
  let out := Writer.doubleField 2 (ax_length p) out in
  let out := Writer.doubleField 3 (ax_thickness p) out in
  Writer.varint 4 (boolToWire (ax_scale_invariant p)) out.

Definition axes_handler : Handler AxesPrimitive := fun tag r s =>
  let '(mkAxes p le th si) := s in
  match tag_field tag with
  | 1 => on_message decodePose tag r s p (fun v => mkAxes v le th si)
  | 2 => on_double tag r s (fun v => mkAxes p v th si)
  | 3 => on_double tag r s (fun v => mkAxes p le v si)
  | 4 => on_varint tag r s (fun v => mkAxes p le th (boolFromWire v))
  | _ => unhandled r s
  end.

Definition decodeAxesPrimitive : bytes -> AxesPrimitive -> bool * AxesPrimitive :=
  decode_fields axes_handler.

#[export] Instance axes_advancing : Advancing axes_handler.
Proof. unfold axes_handler. solve_advancing. Qed.

#[export] Instance Axes_message : WireMessage AxesPrimitive := {|
  wm_write := writeAxesPrimitive;
  wm_decode := decodeAxesPrimitive;
  wm_init := axes_default;
  wm_valid p := wm_valid (ax_pose p) /\ is_double (ax_length p) /\ is_double (ax_thickness p)
|}.

#[export] Instance Axes_laws : WireMessageLaws AxesPrimitive.
Proof.
  split; [message_app writeAxesPrimitive|].
  intros [p le th si] (Hp & Hle & Hth).
  cbn [wm_write wm_decode wm_init Axes_message ax_pose ax_length ax_thickness ax_scale_invariant] in *.
  unfold writeAxesPrimitive, decodes, decodeAxesPrimitive, decode_fields, axes_default.
  cbn [ax_pose ax_length ax_thickness ax_scale_invariant].
  encode_fields. intros Hfit. split_fits. close_stream. repeat parse_field.
  by rewrite parseFields_nil, !boolFromWire_to.
Qed.

Record ModelPrimitive := mkModel {
  md_pose : Pose; md_scale : Vector3; md_color : ColorRGBA; md_override_color : bool;
  md_url : bytes; md_media_type : bytes; md_data : bytes }.

Definition model_default : ModelPrimitive :=
  mkModel pose_default vector3_default color_default false [] [] [].

(** The inline data is written only if there is any. *)
Definition writeModelPrimitive (p : ModelPrimitive) (out : bytes) : bytes :=
  let out := Writer.message 1 (writePose (md_pose p)) out in
  let out := Writer.message 2 (writeVector3 (md_scale p)) out in
  let out := Writer.message 3 (writeColor (md_color p)) out in
  let out := Writer.varint 4 (boolToWire (md_override_color p)) out in
  let out := Writer.write_string 5 (md_url p) out in
  let out := Writer.write_string 6 (md_media_type p) out in
  match md_data p with [] => out | data => Writer.write_bytes 7 data out end.

Definition model_handler : Handler ModelPrimitive := fun tag r s =>
  let '(mkModel p sc c oc u mt d) := s in
  match tag_field tag with
  | 1 => on_message decodePose tag r s p (fun v => mkModel v sc c oc u mt d)
  | 2 => on_message decodeVector3 tag r s sc (fun v => mkModel p v c oc u mt d)
  | 3 => on_message decodeColor tag r s c (fun v => mkModel p sc v oc u mt d)
  | 4 => on_varint tag r s (fun v => mkModel p sc c (boolFromWire v) u mt d)
  | 5 => on_bytes tag r s (fun v => mkModel p sc c oc v mt d)
  | 6 => on_bytes tag r s (fun v => mkModel p sc c oc u v d)
  | 7 => on_bytes tag r s (fun v => mkModel p sc c oc u mt v)
  | _ => unhandled r s
  end.

Definition decodeModelPrimitive : bytes -> ModelPrimitive -> bool * ModelPrimitive :=
  decode_fields model_handler.

#[export] Instance model_advancing : Advancing model_handler.
Proof. unfold model_handler. solve_advancing. Qed.

#[export] Instance Model_message : WireMessage ModelPrimitive := {|
  wm_write := writeModelPrimitive;
  wm_decode := decodeModelPrimitive;
  wm_init := model_default;
  wm_valid p := wm_valid (md_pose p) /\ wm_valid (md_scale p) /\ wm_valid (md_color p)
|}.

#[export] Instance Model_laws : WireMessageLaws ModelPrimitive.
Proof.
  split.
  { intros [p sc c oc u mt d] out. cbn [wm_write Model_message]. unfold writeModelPrimitive.
    cbn [md_data]. by destruct d as [|b d]; encode_fields. }
  intros [p sc c oc u mt d] (Hp & Hsc & Hc).
  cbn [wm_write wm_decode wm_init Model_message md_pose md_scale md_color md_override_color md_url
       md_media_type md_data] in *.
  unfold writeModelPrimitive, decodes, decodeModelPrimitive, decode_fields, model_default.
  cbn [md_pose md_scale md_color md_override_color md_url md_media_type md_data].
  destruct d as [|b d]; encode_fields; intros Hfit; split_fits; close_stream; repeat parse_field;
    by rewrite parseFields_nil, boolFromWire_to.
Qed.

(** ** SceneEntityDeletion and KeyValuePair *)

Inductive DeletionType : Set := kMatchingId | kAll.

#[export] Instance DeletionType_eq_dec : EqDecision DeletionType.
Proof. solve_decision. Defined.

(** [static_cast<uint64_t>(d.type)], and [v == 1] back. *)
Definition deletionTypeToWire (type : DeletionType) : Z :=
  match type with kMatchingId => 0 | kAll => 1 end.
Definition deletionTypeFromWire (v : Z) : DeletionType := if v =? 1 then kAll else kMatchingId.

Lemma deletionType_through_wire t : deletionTypeFromWire (deletionTypeToWire t) = t.
Proof. by destruct t. Qed.
Lemma deletionTypeToWire_range t : in_u 64 (deletionTypeToWire t).
Proof. unfold in_u. destruct t; simpl; lia. Qed.
#[local] Hint Resolve deletionTypeToWire_range : wire.

Record SceneEntityDeletion := mkDeletion { dl_type : DeletionType; dl_timestamp : Z; dl_id : bytes }.

Definition deletion_default : SceneEntityDeletion := mkDeletion kMatchingId 0 [].

Definition writeSceneEntityDeletion (d : SceneEntityDeletion) (out : bytes) : bytes :=
  let out := Writer.message 1 (writeTimestamp (dl_timestamp d)) out in
  let out := Writer.varint 2 (deletionTypeToWire (dl_type d)) out in
  Writer.write_string 3 (dl_id d) out.

Definition deletion_handler : Handler SceneEntityDeletion := fun tag r s =>
  let '(mkDeletion ty ts i) := s in
  match tag_field tag with
  | 1 => on_message decodeTimestamp tag r s ts (fun v => mkDeletion ty v i)
  | 2 => on_varint tag r s (fun v => mkDeletion (deletionTypeFromWire v) ts i)
  | 3 => on_bytes tag r s (fun v => mkDeletion ty ts v)
  | _ => unhandled r s
  end.

Definition decodeSceneEntityDeletion : bytes -> SceneEntityDeletion -> bool * SceneEntityDeletion :=
  decode_fields deletion_handler.

#[export] Instance deletion_advancing : Advancing deletion_handler.
Proof. unfold deletion_handler. solve_advancing. Qed.

#[export] Instance Deletion_message : WireMessage SceneEntityDeletion := {|
  wm_write := writeSceneEntityDeletion;
  wm_decode := decodeSceneEntityDeletion;
  wm_init := deletion_default;
  wm_valid d := is_timestamp (dl_timestamp d)
|}.

#[export] Instance Deletion_laws : WireMessageLaws SceneEntityDeletion.
Proof.
  split; [message_app writeSceneEntityDeletion|].
  intros [ty ts i] Hts. cbn [wm_write wm_decode wm_init wm_valid Deletion_message dl_type dl_timestamp dl_id] in *.
  unfold writeSceneEntityDeletion, decodes, decodeSceneEntityDeletion, decode_fields, deletion_default.
  cbn [dl_type dl_timestamp dl_id]. encode_fields. intros Hfit. split_fits. close_stream.
  repeat parse_field. by rewrite parseFields_nil, deletionType_through_wire.
Qed.

Record KeyValuePair := mkKeyValue { kv_key : bytes; kv_value : bytes }.

Definition key_value_default : KeyValuePair := mkKeyValue [] [].

Definition writeKeyValuePair (kv : KeyValuePair) (out : bytes) : bytes :=
  let out := Writer.write_string 1 (kv_key kv) out in
  Writer.write_string 2 (kv_value kv) out.

Definition key_value_handler : Handler KeyValuePair := fun tag r s =>
  let '(mkKeyValue k v) := s in
  require_type kLengthDelimited tag r s
    match tag_field tag with
    | 1 => on_bytes tag r s (fun x => mkKeyValue x v)
    | 2 => on_bytes tag r s (fun x => mkKeyValue k x)
    | _ => unhandled r s
    end.

Definition decodeKeyValuePair : bytes -> KeyValuePair -> bool * KeyValuePair :=
  decode_fields key_value_handler.

#[export] Instance key_value_advancing : Advancing key_value_handler.
Proof. unfold key_value_handler. solve_advancing. Qed.

#[export] Instance KeyValue_message : WireMessage KeyValuePair := {|
  wm_write := writeKeyValuePair;
  wm_decode := decodeKeyValuePair;
  wm_init := key_value_default;
  wm_valid kv := True
|}.

#[export] Instance KeyValue_laws : WireMessageLaws KeyValuePair.
Proof.
  split; [message_app writeKeyValuePair|].
  intros [k v] _. cbn [wm_write wm_decode wm_init KeyValue_message].
  unfold writeKeyValuePair, decodes, decodeKeyValuePair, decode_fields, key_value_default.
  cbn [kv_key kv_value]. encode_fields. intros Hfit. split_fits. close_stream. repeat parse_field. done.
Qed.

(** ** SceneEntity *)

Record SceneEntity := mkEntity {
  en_timestamp : Z; en_frame_id : bytes; en_id : bytes; en_lifetime_ns : Z; en_frame_locked : bool;
  en_metadata : list KeyValuePair; en_arrows : list ArrowPrimitive; en_cubes : list CubePrimitive;
  en_spheres : list SpherePrimitive; en_cylinders : list CylinderPrimitive;
  en_lines : list LinePrimitive; en_triangles : list TrianglePrimitive;
  en_texts : list TextPrimitive; en_models : list ModelPrimitive; en_axes : list AxesPrimitive }.

Definition entity_default : SceneEntity :=
  mkEntity 0 [] [] 0 false [] [] [] [] [] [] [] [] [] [].

Definition writeSceneEntity (e : SceneEntity) (out : bytes) : bytes :=
  let out := Writer.message 1 (writeTimestamp (en_timestamp e)) out in
  let out := Writer.write_string 2 (en_frame_id e) out in
  let out := Writer.write_string 3 (en_id e) out in
  let out := Writer.message 4 (writeTimestamp (en_lifetime_ns e)) out in
  let out := Writer.varint 5 (boolToWire (en_frame_locked e)) out in
  let out := write_each 6 (en_metadata e) out in
  let out := write_each 7 (en_arrows e) out in
  let out := write_each 8 (en_cubes e) out in
  let out := write_each 9 (en_spheres e) out in
  let out := write_each 10 (en_cylinders e) out in
  let out := write_each 11 (en_lines e) out in
  let out := write_each 12 (en_triangles e) out in
  let out := write_each 13 (en_texts e) out in
  let out := write_each 14 (en_models e) out in
  write_each 15 (en_axes e) out.

(** Cases 6 to 15 are [readPrimitiveIntoVector]. *)
Definition entity_handler : Handler SceneEntity := fun tag r s =>
  let '(mkEntity ts fr i lt fl me ar cu sp cy ln tr tx md ax) := s in
  match tag_field tag with
  | 1 => on_message decodeTimestamp tag r s ts
           (fun v => mkEntity v fr i lt fl me ar cu sp cy ln tr tx md ax)
  | 2 => on_bytes tag r s (fun v => mkEntity ts v i lt fl me ar cu sp cy ln tr tx md ax)
  | 3 => on_bytes tag r s (fun v => mkEntity ts fr v lt fl me ar cu sp cy ln tr tx md ax)
  | 4 => on_message decodeTimestamp tag r s lt
           (fun v => mkEntity ts fr i v fl me ar cu sp cy ln tr tx md ax)
  | 5 => on_varint tag r s
           (fun v => mkEntity ts fr i lt (boolFromWire v) me ar cu sp cy ln tr tx md ax)
  | 6 => on_element decodeKeyValuePair key_value_default tag r s
           (fun x => mkEntity ts fr i lt fl (me ++ [x]) ar cu sp cy ln tr tx md ax)
  | 7 => on_element decodeArrowPrimitive arrow_default tag r s
           (fun x => mkEntity ts fr i lt fl me (ar ++ [x]) cu sp cy ln tr tx md ax)
  | 8 => on_element decodeCubePrimitive cube_default tag r s
           (fun x => mkEntity ts fr i lt fl me ar (cu ++ [x]) sp cy ln tr tx md ax)
  | 9 => on_element decodeSpherePrimitive sphere_default tag r s
           (fun x => mkEntity ts fr i lt fl me ar cu (sp ++ [x]) cy ln tr tx md ax)
  | 10 => on_element decodeCylinderPrimitive cylinder_default tag r s
           (fun x => mkEntity ts fr i lt fl me ar cu sp (cy ++ [x]) ln tr tx md ax)
  | 11 => on_element decodeLinePrimitive line_default tag r s
           (fun x => mkEntity ts fr i lt fl me ar cu sp cy (ln ++ [x]) tr tx md ax)
  | 12 => on_element decodeTrianglePrimitive triangle_default tag r s
           (fun x => mkEntity ts fr i lt fl me ar cu sp cy ln (tr ++ [x]) tx md ax)
  | 13 => on_element decodeTextPrimitive text_default tag r s
           (fun x => mkEntity ts fr i lt fl me ar cu sp cy ln tr (tx ++ [x]) md ax)
  | 14 => on_element decodeModelPrimitive model_default tag r s
           (fun x => mkEntity ts fr i lt fl me ar cu sp cy ln tr tx (md ++ [x]) ax)
  | 15 => on_element decodeAxesPrimitive axes_default tag r s
           (fun x => mkEntity ts fr i lt fl me ar cu sp cy ln tr tx md (ax ++ [x]))
  | _ => unhandled r s
  end.

Definition decodeSceneEntity : bytes -> SceneEntity -> bool * SceneEntity :=
  decode_fields entity_handler.

#[export] Instance entity_advancing : Advancing entity_handler.
Proof. unfold entity_handler. solve_advancing. Qed.

#[export] Instance Entity_message : WireMessage SceneEntity := {|
  wm_write := writeSceneEntity;
  wm_decode := decodeSceneEntity;
  wm_init := entity_default;
  wm_valid e := is_timestamp (en_timestamp e) /\ is_timestamp (en_lifetime_ns e)
    /\ Forall wm_valid (en_metadata e) /\ Forall wm_valid (en_arrows e) /\ Forall wm_valid (en_cubes e)
    /\ Forall wm_valid (en_spheres e) /\ Forall wm_valid (en_cylinders e)
    /\ Forall wm_valid (en_lines e) /\ Forall wm_valid (en_triangles e)
    /\ Forall wm_valid (en_texts e) /\ Forall wm_valid (en_models e) /\ Forall wm_valid (en_axes e)
|}.

#[export] Instance Entity_laws : WireMessageLaws SceneEntity.
Proof.
  split; [message_app writeSceneEntity|].
  intros [ts fr i lt fl me ar cu sp cy ln tr tx md ax] Hvalid.
  cbn [wm_valid Entity_message en_timestamp en_frame_id en_id en_lifetime_ns en_frame_locked en_metadata
       en_arrows en_cubes en_spheres en_cylinders en_lines en_triangles en_texts en_models en_axes] in Hvalid.
  destruct Hvalid as (Hts & Hlt & Hme & Har & Hcu & Hsp & Hcy & Hln & Htr & Htx & Hmd & Hax).
  cbn [wm_write wm_decode wm_init Entity_message].
  unfold writeSceneEntity, decodes, decodeSceneEntity, decode_fields, entity_default.
  cbn [en_timestamp en_frame_id en_id en_lifetime_ns en_frame_locked en_metadata
       en_arrows en_cubes en_spheres en_cylinders en_lines en_triangles en_texts en_models en_axes].
  encode_fields. intros Hfit. split_fits. close_stream. repeat parse_field. rewrite boolFromWire_to.
  parse_each_field (fun l => mkEntity ts fr i lt fl l [] [] [] [] [] [] [] [] []).
  parse_each_field (fun l => mkEntity ts fr i lt fl me l [] [] [] [] [] [] [] []).
  parse_each_field (fun l => mkEntity ts fr i lt fl me ar l [] [] [] [] [] [] []).
  parse_each_field (fun l => mkEntity ts fr i lt fl me ar cu l [] [] [] [] [] []).
  parse_each_field (fun l => mkEntity ts fr i lt fl me ar cu sp l [] [] [] [] []).
  parse_each_field (fun l => mkEntity ts fr i lt fl me ar cu sp cy l [] [] [] []).
  parse_each_field (fun l => mkEntity ts fr i lt fl me ar cu sp cy ln l [] [] []).
  parse_each_field (fun l => mkEntity ts fr i lt fl me ar cu sp cy ln tr l [] []).
  parse_each_field (fun l => mkEntity ts fr i lt fl me ar cu sp cy ln tr tx l []).
  parse_each_field (fun l => mkEntity ts fr i lt fl me ar cu sp cy ln tr tx md l).
  done.
Qed.

(** ** The batch *)

Record SceneEntities := mkScene { sc_entities : list SceneEntity; sc_deletions : list SceneEntityDeletion }.

Definition scene_default : SceneEntities := mkScene [] [].

(** [SceneEntities::empty] *)
Definition scene_empty (s : SceneEntities) : bool :=
  match sc_entities s, sc_deletions s with [], [] => true | _, _ => false end.

Definition serializeSceneEntities (entities : SceneEntities) : bytes :=
  let out := [] in
  let out := write_each 1 (sc_deletions entities) out in
  write_each 2 (sc_entities entities) out.

(** The body of the loop of [deserializeSceneEntities], on a message. *)
Definition scene_step (field : Z) (nested : bytes) (s : SceneEntities) : Expected SceneEntities :=
  if field =? 1 then
    let '(ok, deletion) := decodeSceneEntityDeletion nested deletion_default in
    if ok then Ok (mkScene (sc_entities s) (sc_deletions s ++ [deletion]))
    else Err "SceneEntities wire: SceneEntityDeletion decode failed"
  else if field =? 2 then
    let '(ok, entity) := decodeSceneEntity nested entity_default in
    if ok then Ok (mkScene (sc_entities s ++ [entity]) (sc_deletions s))
    else Err "SceneEntities wire: SceneEntity decode failed"
  else Ok s.

Definition deserializeSceneEntities (data : bytes) : Expected SceneEntities :=
  deserialize_messages "SceneEntities" scene_step scene_default data.

Definition scene_valid (s : SceneEntities) : Prop :=
  Forall wm_valid (sc_entities s) /\ Forall wm_valid (sc_deletions s).

Lemma scene_empty_default s : scene_empty s = true -> s = scene_default.
Proof. by destruct s as [[|] [|]]. Qed.

Lemma scene_stream s :
  serializeSceneEntities s
  = concat (map (fun x => fBytes 1 (wm_write x [])) (sc_deletions s))
    ++ concat (map (fun x => fBytes 2 (wm_write x [])) (sc_entities s)).
Proof. unfold serializeSceneEntities. by rewrite !write_each_enc, app_nil_l. Qed.

Lemma scene_stream_nil s : serializeSceneEntities s = [] -> scene_empty s = true.
Proof.
  rewrite scene_stream. destruct s as [es ds]. unfold scene_empty. cbn [sc_entities sc_deletions].
  destruct ds as [|d ds]; [|by intros ?%each_not_nil]. rewrite app_nil_l.
  destruct es as [|e es]; [done|]. rewrite <- (app_nil_r (concat _)). by intros ?%each_not_nil.
Qed.

(** C39: A scene with anything in it survives the wire, every primitive of every
    entity and every deletion in order; the empty scene is written as no bytes,
    which the decoder refuses. *)
Theorem scene_entities_roundtrip s : scene_valid s -> fits (serializeSceneEntities s) ->
  deserializeSceneEntities (serializeSceneEntities s)
  = if scene_empty s then Err "SceneEntities wire: empty buffer" else Ok s.
Proof.
  intros [Hes Hds] Hfit. destruct (scene_empty s) eqn:Hempty.
  { by rewrite (scene_empty_default s Hempty). }
  unfold deserializeSceneEntities, deserialize_messages.
  rewrite decide_False by (intros H%scene_stream_nil; congruence).
  rewrite scene_stream in *. destruct s as [es ds]. cbn [sc_entities sc_deletions] in *.
  apply fits_app in Hfit as [Hfd Hfe].
  rewrite (parseMessages_each _ _ 1 ds _ [] (fun l => mkScene [] l)); [|..|done|done|done];
    [|intros cur nested x Hx; unfold scene_step; cbn in *; by rewrite Hx].
  rewrite <- (app_nil_r (concat _)).
  rewrite (parseMessages_each _ _ 2 es _ [] (fun l => mkScene l ds)); [done|..|done|done|done].
  intros cur nested x Hx. unfold scene_step. cbn in *. by rewrite Hx.
Qed.

Lemma scene_entities_roundtrip_witness :
  let pose := mkPose (mkVector3 1 2 3) (mkQuaternion d0 d0 d0 d1) in
  let v := mkScene
    [mkEntity 1500000000 [z2b 109] [z2b 105] (-1) true [mkKeyValue [z2b 107] [z2b 118]]
       [mkArrow pose d1 d1 d1 d1 (mkColor 1 2 3 4)] [] [mkSphere pose (mkVector3 d1 d1 d1) (mkColor 255 0 77 128)]
       [] [mkLine kLineList pose d1 true [mkPoint3 1 2 3; mkPoint3 4 5 6] color_default
             [mkColor 9 9 9 9; mkColor 8 8 8 8] [1; 0; 4294967295]] [] []
       [mkModel pose (mkVector3 d1 d1 d1) color_default true [] [z2b 103] [z2b 0; z2b 255]] []]
    [mkDeletion kAll (-7) []; mkDeletion kMatchingId 8 [z2b 120]] in
  deserializeSceneEntities (serializeSceneEntities v)
  = if scene_empty v then Err "SceneEntities wire: empty buffer" else Ok v.
Proof. apply scene_entities_roundtrip; [solve_valid|vm_compute; reflexivity]. Defined.
