(* ===== verification/AnnotationsCodec.v ===== *)
(** * AnnotationsCodec: the wire form of image annotations

    Models [src/pj_base/src/builtin/image_annotations_codec.cpp] over the structs
    of [src/pj_base/include/pj_base/builtin/image_annotations.hpp].  The field
    loops of this codec are its own: they stop at a field that cannot be read,
    where [parseFields] would go on after it.  The time and the topic of an
    annotation are not on the wire. *)

From S2P Require Import Prelude Wire Fields Float64 Geometry Codecs.

(** ** The field loops

    What the body of a loop does with a field: [continue] once it is read,
    [break] out of the switch, so that the field is skipped, or
    [return false]. *)

Inductive Verdict : Set := Continue | Break | ReturnFalse.

Abbreviation Body S := (Tag -> bytes -> S -> Verdict * bytes * S).

Fixpoint strict_loop {S} (fuel : nat) (body : Body S) (reader : bytes) (s : S) : bool * S :=
  if Reader.eof reader then (true, s)
  else
    match fuel with
    | O => (false, s)
    | Datatypes.S fuel' =>
        match Reader.readTag reader with
        | (None, _) => (false, s)
        | (Some tag, reader) =>
            match body tag reader s with
            | (Continue, reader, s) => strict_loop fuel' body reader s
            | (Break, reader, s) =>
                let '(skipped, reader) := Reader.skip (tag_type tag) reader in
                if skipped then strict_loop fuel' body reader s else (false, s)
            | (ReturnFalse, _, s) => (false, s)
            end
        end
    end.

Definition strict_fields {S} (body : Body S) (reader : bytes) (s : S) : bool * S :=
  strict_loop (length reader) body reader s.

(** [if (tag.type == t) { if (!read(...)) return false; continue; } break;] *)
Definition expect {S} (t : WireType) (tag : Tag) (r : bytes) (s : S) (read : bool * bytes * S)
  : Verdict * bytes * S :=
  if decide (tag_type tag = t) then
    let '(ok, r', s') := read in (if ok then Continue else ReturnFalse, r', s')
  else (Break, r, s).

(** [default: break] *)
Definition skip_field {S} (r : bytes) (s : S) : Verdict * bytes * S := (Break, r, s).

(** A body never puts bytes back. *)
Definition consuming {S} (body : Body S) : Prop :=
  forall tag r s v r' s', body tag r s = (v, r', s') -> (length r' <= length r)%nat.

Class Consuming {S} (body : Body S) : Prop := consuming_body : consuming body.

Lemma strict_loop_irrel {S} (body : Body S) `{!Consuming body} f g reader s :
  (length reader <= f)%nat -> (length reader <= g)%nat ->
  strict_loop f body reader s = strict_loop g body reader s.
Proof.
  revert g reader s. induction f as [|f IH]; intros g reader s Hf Hg.
  - destruct reader; [by destruct g|simpl in *; lia].
  - destruct reader as [|b r]; [by destruct g|]. destruct g as [|g]; [simpl in *; lia|].
    cbn [strict_loop Reader.eof].
    destruct (Reader.readTag (b :: r)) as [[tag|] r1] eqn:E1; [|done].
    apply readTag_shrinks in E1 as [_ E1]. specialize (E1 ltac:(eauto)).
    destruct (body tag r1 s) as [[[] r2] s'] eqn:E2; [..|done]; apply consuming_body in E2.
    + apply IH; lia.
    + destruct (Reader.skip (tag_type tag) r2) as [[] r3] eqn:E3; [|done].
      apply skip_shrinks in E3. apply IH; lia.
Qed.

Lemma strict_fields_nil {S} (body : Body S) s : strict_fields body [] s = (true, s).
Proof. done. Qed.

(** A field the body reads. *)
Lemma strict_fields_field {S} (body : Body S) `{!Consuming body} field type payload rest s s' :
  field_ok field -> wt_ok type ->
  body (mkTag field type) (payload ++ rest) s = (Continue, rest, s') ->
  strict_fields body ((enc_tag field type ++ payload) ++ rest) s = strict_fields body rest s'.
Proof.
  intros Hf Ht Hb. unfold strict_fields. pose proof (length_enc_tag field type Hf Ht) as Htag.
  assert (Hlt : (length rest < length ((enc_tag field type ++ payload) ++ rest))%nat).
  { rewrite !length_app. lia. }
  destruct (length ((enc_tag field type ++ payload) ++ rest)) as [|n] eqn:Hn; [lia|].
  cbn [strict_loop]. destruct ((enc_tag field type ++ payload) ++ rest) as [|b bs] eqn:E; [simpl in *; lia|].
  cbn [Reader.eof]. rewrite <- E, <- app_assoc, readTag_enc by done. rewrite Hb.
  apply strict_loop_irrel; [done|lia..].
Qed.

Section StrictEncoded.
Context {S : Type} (body : Body S) `{!Consuming body}.

Lemma strict_double field v rest s set :
  (forall r, body (mkTag field kFixed64) r s
    = expect kFixed64 (mkTag field kFixed64) r s (on_double (mkTag field kFixed64) r s set)) ->
  field_ok field -> in_u 64 v ->
  strict_fields body (fFixed64 field v ++ rest) s = strict_fields body rest (set v).
Proof.
  intros Hh Hf Hv. apply strict_fields_field; [done..|]. rewrite Hh. unfold expect, on_double.
  cbn [tag_type]. rewrite !decide_True by done. unfold Reader.readDouble, Reader.readFixed64.
  by rewrite readFixed_enc.
Qed.

Lemma strict_varint field v rest s set :
  (forall r, body (mkTag field kVarint) r s
    = expect kVarint (mkTag field kVarint) r s (on_varint (mkTag field kVarint) r s set)) ->
  field_ok field -> in_u 64 v ->
  strict_fields body (fVarint field v ++ rest) s = strict_fields body rest (set v).
Proof.
  intros Hh Hf Hv. apply strict_fields_field; [done..|]. rewrite Hh. unfold expect, on_varint.
  cbn [tag_type]. rewrite !decide_True by done. by rewrite readVarint_enc.
Qed.

Lemma strict_bytes field v rest s set :
  (forall r, body (mkTag field kLengthDelimited) r s
    = expect kLengthDelimited (mkTag field kLengthDelimited) r s
        (on_bytes (mkTag field kLengthDelimited) r s set)) ->
  field_ok field -> fits v ->
  strict_fields body (fBytes field v ++ rest) s = strict_fields body rest (set v).
Proof.
  intros Hh Hf Hv. apply strict_fields_field; [done..|]. rewrite Hh. unfold expect, on_bytes.
  cbn [tag_type]. rewrite !decide_True by done. by rewrite readBytes_enc.
Qed.

Lemma strict_message {T} (decode : bytes -> T -> bool * T) field v body' rest s cur set :
  (forall r, body (mkTag field kLengthDelimited) r s
    = expect kLengthDelimited (mkTag field kLengthDelimited) r s
        (on_message decode (mkTag field kLengthDelimited) r s cur set)) ->
  field_ok field -> fits body' -> decodes decode body' cur v ->
  strict_fields body (fBytes field body' ++ rest) s = strict_fields body rest (set v).
Proof.
  intros Hh Hf Hv Hd. apply strict_fields_field; [done..|]. rewrite Hh. unfold expect, on_message.
  cbn [tag_type]. rewrite !decide_True by done. unfold Reader.readMessage. by rewrite readBytes_enc, Hd.
Qed.

(** A repeated message field, all of it. *)
Lemma strict_each `{WireMessageLaws T} field (xs : list T) rest (cur : list T) (mk : list T -> S) :
  (forall cur r, body (mkTag field kLengthDelimited) r (mk cur)
    = expect kLengthDelimited (mkTag field kLengthDelimited) r (mk cur)
        (on_element wm_decode wm_init (mkTag field kLengthDelimited) r (mk cur)
          (fun x => mk (cur ++ [x])))) ->
  field_ok field -> Forall wm_valid xs ->
  fits (concat (map (fun x => fBytes field (wm_write x [])) xs)) ->
  strict_fields body (concat (map (fun x => fBytes field (wm_write x [])) xs) ++ rest) (mk cur)
  = strict_fields body rest (mk (cur ++ xs)).
Proof.
  intros Hh Hf Hall. revert cur. induction Hall as [|x xs Hx Hall IH]; intros cur Hfit; simpl;
    [by rewrite app_nil_r|].
  simpl in Hfit. apply fits_app in Hfit as [Hfx Hfs]. apply fits_fBytes in Hfx.
  rewrite <- app_assoc. etrans.
  - apply strict_fields_field; [done..|]. rewrite Hh. unfold expect, on_element.
    cbn [tag_type]. rewrite !decide_True by done. unfold Reader.readMessage.
    rewrite readBytes_enc by done. pose proof (wm_round_trip x Hx Hfx) as Hd. unfold decodes in Hd.
    by rewrite Hd.
  - rewrite IH by done. by rewrite <- app_assoc.
Qed.

End StrictEncoded.

Ltac solve_consuming :=
  let H := fresh "Hcall" in
  intros ? ? ? ? ? ? H; cbv beta delta [expect skip_field on_varint on_double on_float on_bytes
    on_message on_element on_packed] in H;
  repeat case_match; simplify_eq; reader_lengths; first [done | lia].

(** Reads back the field in front. *)
Ltac strict_with lemma :=
  erewrite lemma; [|apply _|intros; reflexivity|wire_side|wire_side]; cbv beta.

Ltac strict_field :=
  lazymatch goal with
  | |- context [strict_fields _ (fFixed64 _ _ ++ _) _] => strict_with @strict_double
  | |- context [strict_fields _ (fVarint _ _ ++ _) _] => strict_with @strict_varint
  | |- context [strict_fields _ (fBytes _ _ ++ _) _] =>
      first
        [ erewrite strict_message;
            [|apply _|intros; reflexivity|wire_side|assumption|solve [eauto with wire]]; cbv beta
        | strict_with @strict_bytes ]
  end.

Ltac strict_each_field mk :=
  rewrite (strict_each _ _ _ _ _ mk); [cbv beta; cbn [app]|intros; reflexivity|wire_side|assumption|assumption].

Ltac close_strict :=
  match goal with
  | |- context [strict_fields ?b ?bs ?s] => rewrite <- (app_nil_r bs) at 1; rewrite <- ?app_assoc
  end.

(** ** Points and colours *)

Record Point2 := mkPoint2 { p2_x : Z; p2_y : Z }.

Definition writePoint2 (point : Point2) (out : bytes) : bytes :=
  Writer.doubleField 2 (p2_y point) (Writer.doubleField 1 (p2_x point) out).

Definition point2_body : Body Point2 := fun tag r out =>
  match tag_field tag with
  | 1 => expect kFixed64 tag r out (on_double tag r out (fun d => mkPoint2 d (p2_y out)))
  | 2 => expect kFixed64 tag r out (on_double tag r out (fun d => mkPoint2 (p2_x out) d))
  | _ => skip_field r out
  end.

Definition decodePoint2 : bytes -> Point2 -> bool * Point2 := strict_fields point2_body.

#[export] Instance point2_consuming : Consuming point2_body.
Proof. unfold point2_body. solve_consuming. Qed.

#[export] Instance Point2_message : WireMessage Point2 := {|
  wm_write := writePoint2;
  wm_decode := decodePoint2;
  wm_init := mkPoint2 d0 d0;
  wm_valid p := is_double (p2_x p) /\ is_double (p2_y p)
|}.

Lemma decodePoint2_write p init : wm_valid p -> decodes decodePoint2 (writePoint2 p []) init p.
Proof.
  destruct p as [x y]. intros (Hx & Hy). unfold decodes, decodePoint2, writePoint2.
  encode_fields. close_strict. cbn in Hx, Hy |- *. repeat strict_field. done.
Qed.
#[export] Hint Resolve decodePoint2_write : wire.

#[export] Instance Point2_laws : WireMessageLaws Point2.
Proof.
  split.
  - intros x out. simpl. unfold writePoint2. by encode_fields.
  - intros. by apply decodePoint2_write.
Qed.

(** The file's own copy of the colour codec: [writeColor] and
    [normalizedToByte] are those of [Geometry], and a missing alpha is opaque. *)
Definition annotation_color_body : Body ColorParts := fun tag r out =>
  match tag_field tag with
  | 1 => expect kFixed64 tag r out (on_double tag r out (fun d => mkColorParts d (k_g out) (k_b out) (k_a out)))
  | 2 => expect kFixed64 tag r out (on_double tag r out (fun d => mkColorParts (k_r out) d (k_b out) (k_a out)))
  | 3 => expect kFixed64 tag r out (on_double tag r out (fun d => mkColorParts (k_r out) (k_g out) d (k_a out)))
  | 4 => expect kFixed64 tag r out (on_double tag r out (fun d => mkColorParts (k_r out) (k_g out) (k_b out) d))
  | _ => skip_field r out
  end.

Definition annotation_decodeColor (body : bytes) (out : ColorRGBA) : bool * ColorRGBA :=
  let '(ok, k) := strict_fields annotation_color_body body (mkColorParts d0 d0 d0 d1) in
  if ok then
    (true, mkColor (normalizedToByte (f64_of_bits (k_r k))) (normalizedToByte (f64_of_bits (k_g k)))
      (normalizedToByte (f64_of_bits (k_b k))) (normalizedToByte (f64_of_bits (k_a k))))
  else (false, out).

#[export] Instance annotation_color_consuming : Consuming annotation_color_body.
Proof. unfold annotation_color_body. solve_consuming. Qed.

Lemma annotation_decodeColor_write c init : wm_valid c ->
  decodes annotation_decodeColor (writeColor c []) init c.
Proof.
  destruct c as [r g b a]. intros (Hr & Hg & Hb & Ha). cbn in Hr, Hg, Hb, Ha.
  unfold decodes, annotation_decodeColor, writeColor. encode_fields. close_strict. cbn [c_r c_g c_b c_a].
  repeat strict_field. rewrite strict_fields_nil. cbn [k_r k_g k_b k_a].
  by rewrite !channel_round_trip.
Qed.
#[export] Hint Resolve annotation_decodeColor_write : wire.

(** In this file a colour is read by the decoder above. *)
#[local] Instance AnnotationColor_message : WireMessage ColorRGBA := {|
  wm_write := writeColor;
  wm_decode := annotation_decodeColor;
  wm_init := mkColor 0 0 0 255;
  wm_valid c := is_channel (c_r c) /\ is_channel (c_g c) /\ is_channel (c_b c) /\ is_channel (c_a c)
|}.

#[local] Instance AnnotationColor_laws : WireMessageLaws ColorRGBA.
Proof.
  split.
  - intros x out. simpl. unfold writeColor. by encode_fields.
  - intros. by apply annotation_decodeColor_write.
Qed.

(** ** PointsAnnotation *)

Inductive AnnotationTopology : Set := kPoints | kLineList | kLineStrip | kLineLoop.

Definition topologyToEnum (topology : AnnotationTopology) : Z :=
  match topology with kPoints => 1 | kLineLoop => 2 | kLineStrip => 3 | kLineList => 4 end.

Definition mapTopology (type : Z) : AnnotationTopology :=
  match type with 2 => kLineLoop | 3 => kLineStrip | 4 => kLineList | _ => kPoints end.

Lemma topology_through_wire t : mapTopology (topologyToEnum t) = t.
Proof. by destruct t. Qed.
Lemma topologyToEnum_range t : in_u 64 (topologyToEnum t).
Proof. unfold in_u. destruct t; simpl; lia. Qed.
#[local] Hint Resolve topologyToEnum_range : wire.

Record PointsAnnotation := mkPoints {
  pt_topology : AnnotationTopology; pt_points : list Point2; pt_thickness : Z;
  pt_color : ColorRGBA; pt_colors : list ColorRGBA; pt_fill_color : ColorRGBA }.

(** The bits of the default [2.0]. *)
Definition d2 : Z := 0x4000000000000000.

Definition green : ColorRGBA := mkColor 0 255 0 255.
Definition no_color : ColorRGBA := mkColor 0 0 0 0.

Definition points_default : PointsAnnotation := mkPoints kPoints [] d2 green [] no_color.

Definition writePointsAnnotation (points : PointsAnnotation) (out : bytes) : bytes :=
  let out := Writer.varint 2 (topologyToEnum (pt_topology points)) out in
  let out := write_each 3 (pt_points points) out in
  let out := Writer.message 4 (writeColor (pt_color points)) out in
  let out := write_each 5 (pt_colors points) out in
  let out := Writer.message 6 (writeColor (pt_fill_color points)) out in
  Writer.doubleField 7 (pt_thickness points) out.

Definition points_body : Body PointsAnnotation := fun tag r s =>
  let '(mkPoints to ps th c cs fc) := s in
  match tag_field tag with
  | 2 => expect kVarint tag r s (on_varint tag r s (fun v => mkPoints (mapTopology v) ps th c cs fc))
  | 3 => expect kLengthDelimited tag r s
           (on_element wm_decode wm_init tag r s (fun p => mkPoints to (ps ++ [p]) th c cs fc))
  | 4 => expect kLengthDelimited tag r s
           (on_message annotation_decodeColor tag r s c (fun v => mkPoints to ps th v cs fc))
  | 5 => expect kLengthDelimited tag r s
           (on_element wm_decode wm_init tag r s (fun v => mkPoints to ps th c (cs ++ [v]) fc))
  | 6 => expect kLengthDelimited tag r s
           (on_message annotation_decodeColor tag r s fc (fun v => mkPoints to ps th c cs v))
  | 7 => expect kFixed64 tag r s (on_double tag r s (fun v => mkPoints to ps v c cs fc))
  | _ => skip_field r s
  end.

Definition decodePointsAnnotation : bytes -> PointsAnnotation -> bool * PointsAnnotation :=
  strict_fields points_body.

#[export] Instance points_consuming : Consuming points_body.
Proof. unfold points_body. solve_consuming. Qed.

#[export] Instance Points_message : WireMessage PointsAnnotation := {|
  wm_write := writePointsAnnotation;
  wm_decode := decodePointsAnnotation;
  wm_init := points_default;
  wm_valid p := Forall wm_valid (pt_points p) /\ is_double (pt_thickness p) /\ wm_valid (pt_color p)
    /\ Forall wm_valid (pt_colors p) /\ wm_valid (pt_fill_color p)
|}.

#[export] Instance Points_laws : WireMessageLaws PointsAnnotation.
Proof.
  split.
  { intros x out. cbn [wm_write Points_message]. unfold writePointsAnnotation. by encode_fields. }
  intros [to ps th c cs fc] (Hps & Hth & Hc & Hcs & Hfc).
  cbn [wm_write wm_decode wm_init Points_message pt_topology pt_points pt_thickness pt_color pt_colors
       pt_fill_color] in *.
  unfold writePointsAnnotation, decodes, decodePointsAnnotation, points_default.
  cbn [pt_topology pt_points pt_thickness pt_color pt_colors pt_fill_color].
  encode_fields. intros Hfit. split_fits. close_strict. repeat strict_field.
  rewrite topology_through_wire. strict_each_field (fun l => mkPoints to l d2 green [] no_color).
  repeat strict_field. strict_each_field (fun l => mkPoints to ps d2 c l no_color).
  repeat strict_field. done.
Qed.

(** ** CircleAnnotation

    The radius travels as a diameter: doubled by the writer, halved by the
    reader, in [double] arithmetic. *)

Definition radiusToWire (radius : Z) : Z := bits_of_f64 (f64_mul (f64_of_bits radius) f64_two).
Definition radiusFromWire (diameter : Z) : Z := bits_of_f64 (f64_mul (f64_of_bits diameter) f64_half).

(** A finite radius whose double is finite. *)
Definition radius_ok (radius : Z) : Prop :=
  in_u 64 radius /\ f64_can_double (f64_of_bits radius) = true.

Lemma radius_through_wire r : radius_ok r -> radiusFromWire (radiusToWire r) = r.
Proof.
  intros [Hr Hd]. unfold radiusFromWire, radiusToWire.
  destruct (f64_double_halve _ (f64_of_bits_valid r Hr) Hd) as [Hv Hh].
  rewrite f64_of_bits_of_f64, Hh by done. apply bits_of_f64_of_bits; [done|].
  by destruct (f64_of_bits r).
Qed.

Lemma radiusToWire_range r : in_u 64 (radiusToWire r).
Proof. apply bits_of_f64_range. Qed.
#[local] Hint Resolve radiusToWire_range : wire.

Record CircleAnnotation := mkCircle {
  ci_center : Point2; ci_radius : Z; ci_thickness : Z; ci_color : ColorRGBA; ci_fill_color : ColorRGBA }.

Definition circle_default : CircleAnnotation := mkCircle (mkPoint2 d0 d0) d1 d2 green no_color.

Definition writeCircleAnnotation (circle : CircleAnnotation) (out : bytes) : bytes :=
  let out := Writer.message 2 (writePoint2 (ci_center circle)) out in
  let out := Writer.doubleField 3 (radiusToWire (ci_radius circle)) out in
  let out := Writer.doubleField 4 (ci_thickness circle) out in
  let out := Writer.message 5 (writeColor (ci_fill_color circle)) out in
  Writer.message 6 (writeColor (ci_color circle)) out.

Definition circle_body : Body CircleAnnotation := fun tag r s =>
  let '(mkCircle ce ra th c fc) := s in
  match tag_field tag with
  | 2 => expect kLengthDelimited tag r s
           (on_message decodePoint2 tag r s ce (fun v => mkCircle v ra th c fc))
  | 3 => expect kFixed64 tag r s (on_double tag r s (fun v => mkCircle ce (radiusFromWire v) th c fc))
  | 4 => expect kFixed64 tag r s (on_double tag r s (fun v => mkCircle ce ra v c fc))
  | 5 => expect kLengthDelimited tag r s
           (on_message annotation_decodeColor tag r s fc (fun v => mkCircle ce ra th c v))
  | 6 => expect kLengthDelimited tag r s
           (on_message annotation_decodeColor tag r s c (fun v => mkCircle ce ra th v fc))
  | _ => skip_field r s
  end.

(** The decoder sets the defaults itself, the centre excepted. *)
Definition decodeCircleAnnotation (reader : bytes) (out : CircleAnnotation) : bool * CircleAnnotation :=
  strict_fields circle_body reader (mkCircle (ci_center out) d1 d2 green no_color).

#[export] Instance circle_consuming : Consuming circle_body.
Proof. unfold circle_body. solve_consuming. Qed.

#[export] Instance Circle_message : WireMessage CircleAnnotation := {|
  wm_write := writeCircleAnnotation;
  wm_decode := decodeCircleAnnotation;
  wm_init := circle_default;
  wm_valid c := wm_valid (ci_center c) /\ radius_ok (ci_radius c) /\ is_double (ci_thickness c)
    /\ wm_valid (ci_color c) /\ wm_valid (ci_fill_color c)
|}.

#[export] Instance Circle_laws : WireMessageLaws CircleAnnotation.
Proof.
  split.
  { intros x out. cbn [wm_write Circle_message]. unfold writeCircleAnnotation. by encode_fields. }
  intros [ce ra th c fc] (Hce & Hra & Hth & Hc & Hfc).
  cbn [wm_write wm_decode wm_init Circle_message ci_center ci_radius ci_thickness ci_color ci_fill_color] in *.
  unfold writeCircleAnnotation, decodes, decodeCircleAnnotation, circle_default.
  cbn [ci_center ci_radius ci_thickness ci_color ci_fill_color].
  encode_fields. intros Hfit. split_fits. close_strict. repeat strict_field.
  by rewrite strict_fields_nil, radius_through_wire.
Qed.

(** ** TextAnnotation *)

Record TextAnnotation := mkTextAnnotation {
  ta_position : Point2; ta_font_size : Z; ta_color : ColorRGBA; ta_text : bytes }.

(** The bits of [14.0]. *)
Definition d14 : Z := 0x402C000000000000.
Definition white : ColorRGBA := mkColor 255 255 255 255.

Definition text_annotation_default : TextAnnotation := mkTextAnnotation (mkPoint2 d0 d0) d14 white [].

Definition writeTextAnnotation (text : TextAnnotation) (out : bytes) : bytes :=
  let out := Writer.message 2 (writePoint2 (ta_position text)) out in
  let out := Writer.write_string 3 (ta_text text) out in
  let out := Writer.doubleField 4 (ta_font_size text) out in
  Writer.message 5 (writeColor (ta_color text)) out.

Definition text_annotation_body : Body TextAnnotation := fun tag r s =>
  let '(mkTextAnnotation po fs c tx) := s in
  match tag_field tag with
  | 2 => expect kLengthDelimited tag r s
           (on_message decodePoint2 tag r s po (fun v => mkTextAnnotation v fs c tx))
  | 3 => expect kLengthDelimited tag r s (on_bytes tag r s (fun v => mkTextAnnotation po fs c v))
  | 4 => expect kFixed64 tag r s (on_double tag r s (fun v => mkTextAnnotation po v c tx))
  | 5 => expect kLengthDelimited tag r s
           (on_message annotation_decodeColor tag r s c (fun v => mkTextAnnotation po fs v tx))
  | _ => skip_field r s
  end.

Definition decodeTextAnnotation (reader : bytes) (out : TextAnnotation) : bool * TextAnnotation :=
  strict_fields text_annotation_body reader (mkTextAnnotation (ta_position out) d14 white (ta_text out)).

#[export] Instance text_annotation_consuming : Consuming text_annotation_body.
Proof. unfold text_annotation_body. solve_consuming. Qed.

#[export] Instance TextAnnotation_message : WireMessage TextAnnotation := {|
  wm_write := writeTextAnnotation;
  wm_decode := decodeTextAnnotation;
  wm_init := text_annotation_default;
  wm_valid t := wm_valid (ta_position t) /\ is_double (ta_font_size t) /\ wm_valid (ta_color t)
|}.

#[export] Instance TextAnnotation_laws : WireMessageLaws TextAnnotation.
Proof.
  split.
  { intros x out. cbn [wm_write TextAnnotation_message]. unfold writeTextAnnotation. by encode_fields. }
  intros [po fs c tx] (Hpo & Hfs & Hc).
  cbn [wm_write wm_decode wm_init TextAnnotation_message ta_position ta_font_size ta_color ta_text] in *.
  unfold writeTextAnnotation, decodes, decodeTextAnnotation, text_annotation_default.
  cbn [ta_position ta_font_size ta_color ta_text].
  encode_fields. intros Hfit. split_fits. close_strict. repeat strict_field. done.
Qed.

(** ** The batch *)

Record ImageAnnotations := mkAnnotations {
  an_timestamp : Z; an_image_topic : bytes; an_points : list PointsAnnotation;
  an_circles : list CircleAnnotation; an_texts : list TextAnnotation }.

Definition annotations_default : ImageAnnotations := mkAnnotations 0 [] [] [] [].

(** [ImageAnnotations::empty] *)
Definition annotations_empty (a : ImageAnnotations) : bool :=
  match an_points a, an_circles a, an_texts a with [], [], [] => true | _, _, _ => false end.

Definition serializeImageAnnotations (annotations : ImageAnnotations) : bytes :=
  let out := [] in
  let out := write_each 1 (an_circles annotations) out in
  let out := write_each 2 (an_points annotations) out in
  write_each 3 (an_texts annotations) out.

(** The body of the loop of [deserializeImageAnnotations], on a message. *)
Definition annotations_step (field : Z) (nested : bytes) (a : ImageAnnotations) : Expected ImageAnnotations :=
  let '(mkAnnotations ts topic points circles texts) := a in
  match field with
  | 1 =>
      let '(ok, circle) := decodeCircleAnnotation nested circle_default in
      if ok then Ok (mkAnnotations ts topic points (circles ++ [circle]) texts)
      else Err "ImageAnnotations wire: CircleAnnotation decode failed"
  | 2 =>
      let '(ok, p) := decodePointsAnnotation nested (mkPoints kPoints [] d2 green [] no_color) in
      if ok then Ok (mkAnnotations ts topic (points ++ [p]) circles texts)
      else Err "ImageAnnotations wire: PointsAnnotation decode failed"
  | 3 =>
      let '(ok, text) := decodeTextAnnotation nested text_annotation_default in
      if ok then Ok (mkAnnotations ts topic points circles (texts ++ [text]))
      else Err "ImageAnnotations wire: TextAnnotation decode failed"
  | _ => Ok a
  end.

Definition deserializeImageAnnotations (data : bytes) : Expected ImageAnnotations :=
  deserialize_messages "ImageAnnotations" annotations_step annotations_default data.

Definition annotations_valid (a : ImageAnnotations) : Prop :=
  Forall wm_valid (an_points a) /\ Forall wm_valid (an_circles a) /\ Forall wm_valid (an_texts a).

(** What of the annotations is on the wire. *)
Definition without_context (a : ImageAnnotations) : ImageAnnotations :=
  mkAnnotations 0 [] (an_points a) (an_circles a) (an_texts a).

Lemma annotations_stream a :
  serializeImageAnnotations a
  = concat (map (fun x => fBytes 1 (wm_write x [])) (an_circles a))
    ++ concat (map (fun x => fBytes 2 (wm_write x [])) (an_points a))
    ++ concat (map (fun x => fBytes 3 (wm_write x [])) (an_texts a)).
Proof. unfold serializeImageAnnotations. by rewrite !write_each_enc, app_nil_l, <- app_assoc. Qed.

Lemma annotations_stream_nil a : serializeImageAnnotations a = [] <-> annotations_empty a = true.
Proof.
  rewrite annotations_stream. destruct a as [ts topic ps cs xs]. unfold annotations_empty.
  cbn [an_points an_circles an_texts].
  destruct cs as [|c cs]; [rewrite app_nil_l|by split; [intros ?%each_not_nil|destruct ps]].
  destruct ps as [|p ps]; [rewrite app_nil_l|by split; [intros ?%each_not_nil|]].
  destruct xs as [|x xs]; [done|]. split; [|done]. rewrite <- (app_nil_r (concat _)).
  by intros ?%each_not_nil.
Qed.

(** C40: Annotations survive the wire: every circle, shape and text in order, each
    radius through its diameter.  The time and the topic do not, and annotations
    without a primitive are written as no bytes, which the decoder refuses. *)
Theorem image_annotations_roundtrip a : annotations_valid a -> fits (serializeImageAnnotations a) ->
  deserializeImageAnnotations (serializeImageAnnotations a)
  = if annotations_empty a then Err "ImageAnnotations wire: empty buffer" else Ok (without_context a).
Proof.
  intros (Hps & Hcs & Hxs) Hfit. unfold deserializeImageAnnotations, deserialize_messages.
  destruct (annotations_empty a) eqn:Hempty.
  { apply annotations_stream_nil in Hempty. by rewrite decide_True. }
  rewrite decide_False by (intros H%annotations_stream_nil; congruence).
  rewrite annotations_stream in *. destruct a as [ts topic ps cs xs].
  unfold without_context. cbn [an_points an_circles an_texts] in *.
  apply fits_app in Hfit as [Hfc [Hfp Hfx]%fits_app].
  rewrite (parseMessages_each _ _ 1 cs _ [] (fun l => mkAnnotations 0 [] [] l [])); [|..|done|done|done];
    [|intros cur nested x Hx; unfold annotations_step; cbn in *; by rewrite Hx].
  rewrite (parseMessages_each _ _ 2 ps _ [] (fun l => mkAnnotations 0 [] l cs [])); [|..|done|done|done];
    [|intros cur nested x Hx; unfold annotations_step; cbn in *; unfold points_default in Hx; by rewrite Hx].
  rewrite <- (app_nil_r (concat _)).
  rewrite (parseMessages_each _ _ 3 xs _ [] (fun l => mkAnnotations 0 [] ps cs l)); [done|..|done|done|done].
  intros cur nested x Hx. unfold annotations_step. cbn in *. by rewrite Hx.
Qed.

Lemma image_annotations_roundtrip_witness :
  let v := mkAnnotations 5 [z2b 105]
    [mkPoints kLineLoop [mkPoint2 1 2; mkPoint2 d1 d2] d2 green [mkColor 1 2 3 4] no_color]
    [mkCircle (mkPoint2 d1 d1) 0x3FF8000000000000 d1 white green]
    [mkTextAnnotation (mkPoint2 0 0) d14 white [z2b 104; z2b 105]] in
  deserializeImageAnnotations (serializeImageAnnotations v)
  = if annotations_empty v then Err "ImageAnnotations wire: empty buffer" else Ok (without_context v).
Proof. apply image_annotations_roundtrip; [solve_valid|vm_compute; reflexivity]. Defined.
