(* ===== verification/Json.v ===== *)
(** * Json: JSON values, their text, and numbers in decimal

    The dialog protocol of [src/pj_plugins/dialog_protocol/] and the plugin
    manifests go through [nlohmann::json].  The library is not in the
    repository: what the code holds is a JSON value, and the text it goes
    through is an abstract type with [dump] and [parse], of which [JsonTextLaws]
    states the documented round trip.  The second half is decimal integers:
    [std::to_string], [std::stoll], and [parseNumber] of
    [src/pj_base/include/pj_base/number_parse.hpp]. *)

From Stdlib Require Import Ascii.
From S2P Require Import Prelude Float64.

(** ** Values

    [JInt] is both integer types of the library (every test of the code accepts
    either), [JFloat] holds the bits of a [double], and the members of an object
    are ordered by their keys, as the [std::map] of the library is. *)

Inductive json : Type :=
| JNull
| JBool (b : bool)
| JInt (z : Z)
| JFloat (bits : Z)
| JString (s : string)
| JArray (elements : list json)
| JObject (members : gmap string json).

(** [find(key)]: [end()] on anything but an object. *)
Definition obj_find (j : json) (key : string) : option json :=
  match j with JObject m => m !! key | _ => None end.

(** [j[key] = v]: null becomes an object; another value throws [type_error]. *)
Definition obj_set (key : string) (v : json) (j : json) : option json :=
  match j with
  | JObject m => Some (JObject (<[key := v]> m))
  | JNull => Some (JObject {[key := v]})
  | _ => None
  end.

Definition is_object (j : json) : bool := match j with JObject _ => true | _ => false end.

(** [is_x() ? get<X>() : nullopt]; [get<int>] of a wider integer keeps its low
    bits. *)
Definition as_string (j : json) : option string := match j with JString s => Some s | _ => None end.
Definition as_bool (j : json) : option bool := match j with JBool b => Some b | _ => None end.
Definition as_int (j : json) : option Z := match j with JInt z => Some (i32 z) | _ => None end.
Definition as_double (j : json) : option Z :=
  match j with JFloat d => Some d | JInt z => Some (bits_of_f64 (f64_of_Z z)) | _ => None end.
Definition as_array (j : json) : option (list json) := match j with JArray l => Some l | _ => None end.

(** [items()]: the members in the order of the keys. *)
Definition key_le (a b : string * json) : Prop := String.leb a.1 b.1 = true.
#[export] Instance key_le_dec a b : Decision (key_le a b).
Proof. unfold key_le. apply _. Defined.
Definition items (m : gmap string json) : list (string * json) := merge_sort key_le (map_to_list m).

Lemma elem_of_items m k v : (k, v) ∈ items m <-> m !! k = Some v.
Proof. unfold items. rewrite merge_sort_Permutation. apply elem_of_map_to_list. Qed.

Lemma NoDup_items m : NoDup (items m).*1.
Proof. unfold items. rewrite merge_sort_Permutation. apply NoDup_fst_map_to_list. Qed.

(** ** Text *)

(** What a value becomes on its way through text: JSON has no infinities and no
    NaN, [dump] writes [null] for them. *)
Fixpoint through_text (j : json) : json :=
  match j with
  | JFloat d => if f64_is_finite (f64_of_bits d) then j else JNull
  | JArray l => JArray (map through_text l)
  | JObject m => JObject (through_text <$> m)
  | _ => j
  end.

Class JsonText (text : Type) := {
  json_dump : json -> option text;  (* dump(): throws at a string that is not UTF-8 *)
  json_parse : text -> option json  (* parse(text, nullptr, false): discarded if it is not JSON *)
}.

Class JsonTextLaws (text : Type) `{JsonText text} : Prop := {
  parse_dump (j : json) (t : text) : json_dump j = Some t -> json_parse t = Some (through_text j)
}.

Lemma obj_find_through j key : obj_find (through_text j) key = through_text <$> obj_find j key.
Proof.
  destruct j as [| | |d| | |m]; cbn [through_text obj_find]; [reflexivity..| | | |apply lookup_fmap];
    [destruct (f64_is_finite (f64_of_bits d))|..]; reflexivity.
Qed.

Lemma is_object_through j : is_object (through_text j) = is_object j.
Proof.
  destruct j as [| | |d| | |]; cbn [through_text is_object]; try reflexivity.
  destruct (f64_is_finite (f64_of_bits d)); reflexivity.
Qed.

Lemma obj_find_set key v j j' key' : obj_set key v j = Some j' ->
  obj_find j' key' = if decide (key = key') then Some v else obj_find j key'.
Proof.
  destruct j; simpl; intros [= <-]; cbn [obj_find]; destruct (decide (key = key')) as [->|Hne].
  - by rewrite lookup_singleton_eq.
  - rewrite lookup_singleton_ne; done.
  - by rewrite lookup_insert_eq.
  - by rewrite lookup_insert_ne.
Qed.

(** A double JSON can write. *)
Definition finite (bits : Z) : bool := f64_is_finite (f64_of_bits bits).

(** The last value a list of members gives a key. *)
Definition lookup_last (members : list (string * json)) (key : string) : option json :=
  foldl (fun acc kv => if String.eqb kv.1 key then Some kv.2 else acc) None members.

Lemma lookup_last_snoc ms kv key :
  lookup_last (ms ++ [kv]) key = if String.eqb kv.1 key then Some kv.2 else lookup_last ms key.
Proof. unfold lookup_last. by rewrite foldl_app. Qed.

Lemma lookup_last_None ms key : key ∉ ms.*1 -> lookup_last ms key = None.
Proof.
  induction ms as [|kv ms IH] using rev_ind; [done|].
  rewrite fmap_app, lookup_last_snoc. intros Hk.
  destruct (String.eqb_spec kv.1 key) as [<-|]; [set_solver|apply IH; set_solver].
Qed.

Lemma through_strings l : map through_text (map JString l) = map JString l.
Proof. induction l as [|s l IH]; [done|]. cbn [map]. by rewrite IH. Qed.
Lemma through_ints l : map through_text (map JInt l) = map JInt l.
Proof. induction l as [|s l IH]; [done|]. cbn [map]. by rewrite IH. Qed.

Lemma omap_strings l : omap as_string (map JString l) = l.
Proof. induction l as [|s l IH]; [done|]. simpl. f_equal. exact IH. Qed.
Lemma omap_ints l : Forall (in_s 32) l -> omap as_int (map JInt l) = l.
Proof.
  induction 1 as [|z l Hz Hl IH]; [done|]. simpl. rewrite wrapS_small by (lia || exact Hz). f_equal. exact IH.
Qed.

(** ** Decimal integers *)

Definition digit_of (c : ascii) : option Z :=
  let n := Z.of_N (N_of_ascii c) in
  if (48 <=? n) && (n <=? 57) then Some (n - 48) else None.

(** The digits in front, and the rest. *)
Fixpoint read_digits (s : string) (acc : Z) : Z * string :=
  match s with
  | String c r => match digit_of c with Some d => read_digits r (acc * 10 + d) | None => (acc, s) end
  | EmptyString => (acc, s)
  end.

Definition starts_with_digit (s : string) : bool :=
  match s with String c _ => bool_decide (is_Some (digit_of c)) | EmptyString => false end.

(** The sign in front, from those in [signs], and the rest. *)
Definition split_sign (signs : list ascii) (s : string) : bool * string :=
  match s with
  | String c r => if decide (c ∈ signs) then (Ascii.eqb c "-", r) else (false, s)
  | EmptyString => (false, s)
  end.

(** [parseNumber<T>] for a signed [T] of [w] bits: [std::from_chars], which
    takes a minus sign but neither a plus nor spaces, on the whole text. *)
Definition parseNumber (w : Z) (text : string) : option Z :=
  let '(neg, r) := split_sign ["-"%char] text in
  if starts_with_digit r then
    let '(v, rest) := read_digits r 0 in
    let v := if neg then - v else v in
    if decide (in_s w v /\ rest = "") then Some v else None
  else None.

(** The branch for floating-point types.  The parser, of [fast_float] or
    [std::strtold], is not in the repository: it gives the number a text starts
    with and what follows it, or an error. *)
Section FloatingPoint.
Context {T : Type} (from_chars : string -> option (T * string)).

Definition parseWithFastFloat (text : string) : option T :=
  '(out, ptr) ← from_chars text; if decide (ptr = "") then Some out else None.

Definition parseFloatingNumber (text : string) : option T :=
  if decide (text = "") then None else parseWithFastFloat text.

(** Exactly the texts that are one number are numbers. *)
Lemma parseFloatingNumber_spec text v : parseFloatingNumber text = Some v <-> text <> "" /\ from_chars text = Some (v, "").
Proof.
  unfold parseFloatingNumber, parseWithFastFloat. case_decide as Ht; [naive_solver|].
  destruct (from_chars text) as [[out ptr]|]; cbn; [case_decide|]; naive_solver.
Qed.

End FloatingPoint.

(** [std::isspace] in the "C" locale. *)
Definition is_space (c : ascii) : bool :=
  let n := Z.of_N (N_of_ascii c) in (n =? 32) || ((9 <=? n) && (n <=? 13)).

Fixpoint skip_spaces (s : string) : string :=
  match s with
  | String c r => if is_space c then skip_spaces r else s
  | EmptyString => s
  end.

(** [std::stoll]: [None] when it throws; what follows the digits is ignored. *)
Definition stoll (text : string) : option Z :=
  let s := skip_spaces text in
  let '(neg, r) := split_sign ["-"%char; "+"%char] s in
  if starts_with_digit r then
    let v := (read_digits r 0).1 in
    let v := if neg then - v else v in
    if decide (in_s 64 v) then Some v else None
  else None.

(** [std::to_string] *)
Definition to_string (z : Z) : string := pretty z.

Lemma digit_of_pretty x : (x < 10)%N -> digit_of (pretty_N_char x) = Some (Z.of_N x).
Proof.
  intros Hx.
  assert (x = 0 \/ x = 1 \/ x = 2 \/ x = 3 \/ x = 4 \/ x = 5 \/ x = 6 \/ x = 7 \/ x = 8 \/ x = 9)%N as H
    by lia.
  naive_solver.
Qed.

Lemma read_digits_go x s : read_digits (pretty_N_go x s) 0 = read_digits s (Z.of_N x).
Proof.
  revert s. induction (N.lt_wf_0 x) as [x _ IH]; intros s.
  destruct (decide (x = 0)%N) as [->|Hx]; [done|].
  rewrite pretty_N_go_step by lia. rewrite IH by (apply N.div_lt; lia).
  cbn [read_digits]. rewrite digit_of_pretty by (apply N.mod_lt; lia). f_equal.
  rewrite (N.div_mod x 10) at 3 by lia. lia.
Qed.

Lemma starts_with_digit_go x s : (0 < x)%N -> starts_with_digit (pretty_N_go x s) = true.
Proof.
  revert s. induction (N.lt_wf_0 x) as [x _ IH]; intros s Hx. rewrite pretty_N_go_step by done.
  destruct (decide (x < 10)%N) as [Hs|Hs].
  - rewrite N.div_small, pretty_N_go_0 by done. simpl.
    rewrite digit_of_pretty by (apply N.mod_lt; lia). by apply bool_decide_eq_true_2.
  - apply IH; [apply N.div_lt; lia|apply N.div_str_pos; lia].
Qed.

Lemma read_digits_pretty (p : positive) :
  read_digits (pretty p) 0 = (Zpos p, "") /\ starts_with_digit (pretty p) = true.
Proof.
  change (pretty p) with (pretty (N.pos p)). unfold pretty, pretty_N. rewrite decide_False by done.
  rewrite read_digits_go. split; [done|]. by apply starts_with_digit_go.
Qed.

(** The first character of a number is neither a sign nor a space. *)
Lemma digit_head s signs : starts_with_digit s = true -> Forall (fun c => digit_of c = None) signs ->
  split_sign signs s = (false, s) /\ skip_spaces s = s.
Proof.
  destruct s as [|c r]; [done|]. cbn [starts_with_digit split_sign skip_spaces].
  intros [d Hd]%bool_decide_eq_true Hsigns. rewrite decide_False.
  - split; [done|]. assert (is_space c = false) as ->; [|done].
    unfold digit_of, is_space in *. case_match eqn:E; [|done]. lia.
  - intros Hin. rewrite Forall_forall in Hsigns. specialize (Hsigns c Hin). congruence.
Qed.

Lemma minus_head s signs : ("-"%char ∈ signs) ->
  split_sign signs ("-" +:+ s) = (true, s) /\ skip_spaces ("-" +:+ s) = "-" +:+ s.
Proof.
  intros H. split; [|done]. change ("-" +:+ s) with (String "-"%char s). cbn [split_sign].
  by rewrite decide_True.
Qed.

(** A number written in decimal is read back. *)
Lemma parseNumber_to_string w z : in_s w z -> parseNumber w (to_string z) = Some z.
Proof.
  intros Hz. unfold parseNumber, to_string. destruct z as [|p|p]; cbn [pretty pretty_Z].
  - change (split_sign ["-"%char] _) with (false, "0"). cbv iota beta.
    change (starts_with_digit "0") with true. change (read_digits "0" 0) with (0, ""). cbv iota beta.
    by rewrite decide_True.
  - destruct (read_digits_pretty p) as [Hr Hs].
    destruct (digit_head _ ["-"%char] Hs) as [-> _]; [by repeat constructor|].
    rewrite Hs, Hr. by rewrite decide_True.
  - destruct (read_digits_pretty p) as [Hr Hs].
    destruct (minus_head (pretty p) ["-"%char]) as [-> _]; [set_solver|].
    rewrite Hs, Hr. by rewrite decide_True.
Qed.

Lemma stoll_to_string z : in_s 64 z -> stoll (to_string z) = Some z.
Proof.
  intros Hz. unfold stoll, to_string. destruct z as [|p|p]; cbn [pretty pretty_Z].
  - done.
  - destruct (read_digits_pretty p) as [Hr Hs].
    destruct (digit_head _ ["-"%char; "+"%char] Hs) as [Hsg ->]; [by repeat constructor|].
    rewrite Hsg, Hs, Hr. by rewrite decide_True.
  - destruct (read_digits_pretty p) as [Hr Hs].
    destruct (minus_head (pretty p) ["-"%char; "+"%char]) as [Hsg ->]; [set_solver|].
    rewrite Hsg, Hs, Hr. by rewrite decide_True.
Qed.

(** ** An instance

    The simplest text there is: the value itself, without its infinities. *)

Module ValueText.
#[export] Instance value_text : JsonText json := {|
  json_dump j := Some (through_text j);
  json_parse := Some
|}.

#[export] Instance value_text_laws : JsonTextLaws json.
Proof. split. intros j t Ht. symmetry. exact Ht. Qed.
End ValueText.
