(* ===== verification/WidgetEvents.v ===== *)
(** * WidgetEvents: what a dialog tells its plugin

    Models the events of the dialog protocol, over
    [src/pj_plugins/dialog_protocol/include/pj_plugins/]: the host builds the text
    of an event ([host/widget_event_builder.hpp]), the plugin reads it
    ([sdk/widget_event.hpp]) and calls one of its typed methods
    ([sdk/dialog_plugin_typed.hpp]).  The theorem is that the method called is
    the one of the event, with its arguments. *)

From S2P Require Import Prelude Float64 Json.

(** ** WidgetEventBuilder

    Each function fills an object member by member and dumps it; [None] is the
    exception of [dump]. *)

Module WidgetEventBuilder.
Section Builder.
Context {text : Type} `{JsonText text}.

(** [nlohmann::json j; j[k1] = v1; ...; return j.dump();] *)
Definition dump_members (members : list (string * json)) : option text :=
  json_dump (JObject (foldl (fun m kv => <[kv.1 := kv.2]> m) ∅ members)).

Definition textChanged (t : string) : option text := dump_members [("text", JString t)].
Definition indexChanged (index : Z) : option text := dump_members [("current_index", JInt index)].
Definition indexChanged_text (index : Z) (current_text : string) : option text :=
  dump_members [("current_index", JInt index); ("current_text", JString current_text)].
Definition toggled (checked : bool) : option text := dump_members [("checked", JBool checked)].
Definition valueChanged_int (value : Z) : option text := dump_members [("value", JInt value)].
Definition valueChanged_double (value : Z) : option text := dump_members [("value", JFloat value)].
Definition selectionChanged (selected : list string) : option text :=
  dump_members [("selected_items", JArray (map JString selected))].
Definition clicked : option text := dump_members [("clicked", JBool true)].
Definition fileSelected (path : string) : option text := dump_members [("file_selected", JString path)].
Definition folderSelected (path : string) : option text := dump_members [("folder_selected", JString path)].
Definition tabChanged (index : Z) : option text := dump_members [("tab_index", JInt index)].
Definition itemDoubleClicked (index : Z) : option text :=
  dump_members [("item_double_clicked_index", JInt index)].
Definition headerClicked (section : Z) : option text := dump_members [("header_section", JInt section)].
Definition codeChanged (code : string) (cursor : Z) : option text :=
  dump_members (("code_changed", JString code)
    :: if decide (0 <= cursor) then [("code_cursor", JInt cursor)] else []).
Definition itemsDropped (labels : list string) : option text :=
  dump_members [("items_dropped", JArray (map JString labels))].
Definition dateRangeChanged (from_iso to_iso : string) : option text :=
  dump_members [("date_from_iso", JString from_iso); ("date_to_iso", JString to_iso)].
Definition rangeChanged (lower upper : Z) : option text :=
  dump_members [("range_lower", JInt lower); ("range_upper", JInt upper)].
Definition chartViewChanged (x_min x_max y_min y_max : Z) : option text :=
  dump_members [("chart_x_min", JFloat x_min); ("chart_x_max", JFloat x_max);
                ("chart_y_min", JFloat y_min); ("chart_y_max", JFloat y_max)].

End Builder.
End WidgetEventBuilder.

(** ** WidgetEvent *)

Module WidgetEvent.
Section Event.
Context {text : Type} `{JsonText text}.

(** The constructor: what is not JSON is read as an empty object. *)
Definition make (event_json : text) : json :=
  match json_parse event_json with Some j => j | None => JObject ∅ end.
End Event.

Definition getString (data : json) (key : string) : option string := obj_find data key ≫= as_string.
Definition getInt (data : json) (key : string) : option Z := obj_find data key ≫= as_int.
Definition getBool (data : json) (key : string) : option bool := obj_find data key ≫= as_bool.
Definition getDouble (data : json) (key : string) : option Z := obj_find data key ≫= as_double.

(** The strings of an array; elements of other types are dropped. *)
Definition getStringArray (data : json) (key : string) : option (list string) :=
  match obj_find data key ≫= as_array with
  | Some l => Some (omap as_string l)
  | None => None
  end.

Definition text_of (data : json) : option string := getString data "text".
Definition currentIndex (data : json) : option Z := getInt data "current_index".
Definition currentText (data : json) : option string := getString data "current_text".
Definition checked (data : json) : option bool := getBool data "checked".
Definition valueInt (data : json) : option Z := getInt data "value".
Definition valueDouble (data : json) : option Z := getDouble data "value".
Definition selectedItems (data : json) : option (list string) := getStringArray data "selected_items".
Definition clicked (data : json) : bool := default false (getBool data "clicked").
Definition fileSelected (data : json) : option string := getString data "file_selected".
Definition folderSelected (data : json) : option string := getString data "folder_selected".
Definition tabIndex (data : json) : option Z := getInt data "tab_index".
Definition itemDoubleClickedIndex (data : json) : option Z := getInt data "item_double_clicked_index".
Definition headerSection (data : json) : option Z := getInt data "header_section".
Definition codeChanged (data : json) : option string := getString data "code_changed".
Definition codeCursor (data : json) : option Z := getInt data "code_cursor".
Definition itemsDropped (data : json) : option (list string) := getStringArray data "items_dropped".
Definition dateRangeChanged (data : json) : option (string * string) :=
  from ← getString data "date_from_iso"; to ← getString data "date_to_iso"; Some (from, to).
Definition rangeChanged (data : json) : option (Z * Z) :=
  lo ← getInt data "range_lower"; hi ← getInt data "range_upper"; Some (lo, hi).
Definition chartViewChanged (data : json) : option (Z * Z * Z * Z) :=
  xmin ← getDouble data "chart_x_min"; xmax ← getDouble data "chart_x_max";
  ymin ← getDouble data "chart_y_min"; ymax ← getDouble data "chart_y_max";
  Some (xmin, xmax, ymin, ymax).

(** [has(key)] *)
Definition has (data : json) (key : string) : bool := bool_decide (is_Some (obj_find data key)).

End WidgetEvent.

(** ** DialogPluginTyped *)

(** A call of one of the virtual methods. *)
Inductive Call : Set :=
| OnTextChanged (widget text : string)
| OnIndexChanged (widget : string) (index : Z)
| OnToggled (widget : string) (checked : bool)
| OnValueChangedInt (widget : string) (value : Z)
| OnValueChangedDouble (widget : string) (value : Z)
| OnSelectionChanged (widget : string) (selected : list string)
| OnClicked (widget : string)
| OnFileSelected (widget path : string)
| OnFolderSelected (widget path : string)
| OnTabChanged (widget : string) (index : Z)
| OnItemDoubleClicked (widget : string) (index : Z)
| OnHeaderClicked (widget : string) (section : Z)
| OnCodeChangedWithCursor (widget code : string) (cursor : Z)
| OnItemsDropped (widget : string) (items : list string)
| OnChartViewChanged (widget : string) (x_min x_max y_min y_max : Z)
| OnRangeChanged (widget : string) (lower upper : Z)
| OnDateRangeChanged (widget from_iso to_iso : string).

(** The first field of [onWidgetEvent] that the event has, in its order. *)
Definition dispatch (w : string) (event : json) : option Call :=
  match WidgetEvent.chartViewChanged event with
  | Some (x_min, x_max, y_min, y_max) => Some (OnChartViewChanged w x_min x_max y_min y_max)
  | None =>
  match WidgetEvent.rangeChanged event with
  | Some (lower, upper) => Some (OnRangeChanged w lower upper)
  | None =>
  match WidgetEvent.dateRangeChanged event with
  | Some (from_iso, to_iso) => Some (OnDateRangeChanged w from_iso to_iso)
  | None =>
  match WidgetEvent.itemsDropped event with
  | Some v => Some (OnItemsDropped w v)
  | None =>
  match WidgetEvent.codeChanged event with
  | Some v => Some (OnCodeChangedWithCursor w v (default (-1) (WidgetEvent.codeCursor event)))
  | None =>
  match WidgetEvent.text_of event with
  | Some v => Some (OnTextChanged w v)
  | None =>
  match WidgetEvent.currentIndex event with
  | Some v => Some (OnIndexChanged w v)
  | None =>
  match WidgetEvent.checked event with
  | Some v => Some (OnToggled w v)
  | None =>
  match WidgetEvent.fileSelected event with
  | Some v => Some (OnFileSelected w v)
  | None =>
  match WidgetEvent.folderSelected event with
  | Some v => Some (OnFolderSelected w v)
  | None =>
  if WidgetEvent.clicked event then Some (OnClicked w) else
  match WidgetEvent.selectedItems event with
  | Some v => Some (OnSelectionChanged w v)
  | None =>
  match WidgetEvent.tabIndex event with
  | Some v => Some (OnTabChanged w v)
  | None =>
  match WidgetEvent.itemDoubleClickedIndex event with
  | Some v => Some (OnItemDoubleClicked w v)
  | None =>
  match WidgetEvent.headerSection event with
  | Some v => Some (OnHeaderClicked w v)
  | None =>
  match WidgetEvent.valueInt event with
  | Some v => Some (OnValueChangedInt w v)
  | None =>
  match WidgetEvent.valueDouble event with
  | Some v => Some (OnValueChangedDouble w v)
  | None => None
  end end end end end end end end end end end end end end end end.

(** A plugin is the state its methods share and what a method does to it. *)
Definition onWidgetEvent {text} `{JsonText text} {S} (plugin : Call -> S -> bool * S)
    (widget_name : string) (event_json : text) (s : S) : bool * S :=
  match dispatch widget_name (WidgetEvent.make event_json) with
  | Some call => plugin call s
  | None => (false, s)
  end.

(** ** The events of the host *)

(** One constructor per function of the builder. *)
Inductive HostEvent : Set :=
| TextChanged (t : string)
| IndexChanged (index : Z)
| IndexChangedText (index : Z) (current_text : string)
| Toggled (checked : bool)
| ValueChangedInt (value : Z)
| ValueChangedDouble (value : Z)
| SelectionChanged (selected : list string)
| Clicked
| FileSelected (path : string)
| FolderSelected (path : string)
| TabChanged (index : Z)
| ItemDoubleClicked (index : Z)
| HeaderClicked (section : Z)
| CodeChanged (code : string) (cursor : Z)
| ItemsDropped (labels : list string)
| DateRangeChanged (from_iso to_iso : string)
| RangeChanged (lower upper : Z)
| ChartViewChanged (x_min x_max y_min y_max : Z).

Definition build {text} `{JsonText text} (e : HostEvent) : option text :=
  match e with
  | TextChanged t => WidgetEventBuilder.textChanged t
  | IndexChanged i => WidgetEventBuilder.indexChanged i
  | IndexChangedText i t => WidgetEventBuilder.indexChanged_text i t
  | Toggled b => WidgetEventBuilder.toggled b
  | ValueChangedInt v => WidgetEventBuilder.valueChanged_int v
  | ValueChangedDouble v => WidgetEventBuilder.valueChanged_double v
  | SelectionChanged l => WidgetEventBuilder.selectionChanged l
  | Clicked => WidgetEventBuilder.clicked
  | FileSelected p => WidgetEventBuilder.fileSelected p
  | FolderSelected p => WidgetEventBuilder.folderSelected p
  | TabChanged i => WidgetEventBuilder.tabChanged i
  | ItemDoubleClicked i => WidgetEventBuilder.itemDoubleClicked i
  | HeaderClicked i => WidgetEventBuilder.headerClicked i
  | CodeChanged c i => WidgetEventBuilder.codeChanged c i
  | ItemsDropped l => WidgetEventBuilder.itemsDropped l
  | DateRangeChanged a b => WidgetEventBuilder.dateRangeChanged a b
  | RangeChanged a b => WidgetEventBuilder.rangeChanged a b
  | ChartViewChanged a b c d => WidgetEventBuilder.chartViewChanged a b c d
  end.

(** The arguments of type [int] are ints. *)
Definition event_ok (e : HostEvent) : Prop :=
  match e with
  | IndexChanged i | IndexChangedText i _ | ValueChangedInt i | TabChanged i
  | ItemDoubleClicked i | HeaderClicked i | CodeChanged _ i => in_s 32 i
  | RangeChanged a b => in_s 32 a /\ in_s 32 b
  | _ => True
  end.

(** The call an event stands for.  A double that is not finite does not travel:
    such a value, or such a view, is no event. *)
Definition intended (w : string) (e : HostEvent) : option Call :=
  match e with
  | TextChanged t => Some (OnTextChanged w t)
  | IndexChanged i | IndexChangedText i _ => Some (OnIndexChanged w i)
  | Toggled b => Some (OnToggled w b)
  | ValueChangedInt v => Some (OnValueChangedInt w v)
  | ValueChangedDouble v => if finite v then Some (OnValueChangedDouble w v) else None
  | SelectionChanged l => Some (OnSelectionChanged w l)
  | Clicked => Some (OnClicked w)
  | FileSelected p => Some (OnFileSelected w p)
  | FolderSelected p => Some (OnFolderSelected w p)
  | TabChanged i => Some (OnTabChanged w i)
  | ItemDoubleClicked i => Some (OnItemDoubleClicked w i)
  | HeaderClicked i => Some (OnHeaderClicked w i)
  | CodeChanged c i => Some (OnCodeChangedWithCursor w c (Z.max i (-1)))
  | ItemsDropped l => Some (OnItemsDropped w l)
  | DateRangeChanged a b => Some (OnDateRangeChanged w a b)
  | RangeChanged a b => Some (OnRangeChanged w a b)
  | ChartViewChanged a b c d =>
      if finite a && finite b && finite c && finite d then Some (OnChartViewChanged w a b c d) else None
  end.

(** ** What arrives *)

Definition members (ms : list (string * json)) : gmap string json :=
  foldl (fun m kv => <[kv.1 := kv.2]> m) ∅ ms.

Lemma through_members ms :
  through_text (JObject (members ms)) = JObject (members (map (fun kv => (kv.1, through_text kv.2)) ms)).
Proof.
  cbn [through_text]. f_equal. unfold members.
  assert (forall m : gmap string json, through_text <$> foldl (fun m kv => <[kv.1 := kv.2]> m) m ms
    = foldl (fun m kv => <[kv.1 := kv.2]> m) (through_text <$> m)
        (map (fun kv => (kv.1, through_text kv.2)) ms)) as H.
  { induction ms as [|kv ms IH]; intros m; [done|]. cbn [foldl map fst snd]. by rewrite IH, fmap_insert. }
  by rewrite H, fmap_empty.
Qed.

(** The last member of that key. *)
Lemma obj_find_members ms key :
  obj_find (JObject (members ms)) key
  = lookup_last ms key.
Proof.
  cbn [obj_find]. unfold members, lookup_last.
  assert (forall m : gmap string json, foldl (fun m kv => <[kv.1 := kv.2]> m) m ms !! key
    = foldl (fun acc kv => if String.eqb kv.1 key then Some kv.2 else acc) (m !! key) ms) as Hm.
  { induction ms as [|kv ms IH]; intros m; [done|]. cbn [foldl]. rewrite IH. f_equal.
    destruct (String.eqb_spec kv.1 key) as [->|Hne]; [by rewrite lookup_insert_eq|by rewrite lookup_insert_ne]. }
  by rewrite Hm, lookup_empty.
Qed.

Section Arrival.
Context {text : Type} `{JsonTextLaws text}.

Lemma make_dump ms t : WidgetEventBuilder.dump_members ms = Some t ->
  WidgetEvent.make t = JObject (members (map (fun kv => (kv.1, through_text kv.2)) ms)).
Proof.
  intros Ht. unfold WidgetEvent.make. rewrite (parse_dump _ _ Ht). apply through_members.
Qed.

(** Evaluates [dispatch] on an object whose keys are known. *)
Ltac eval_dispatch :=
  cbn [map fst snd through_text]; rewrite ?through_strings;
  repeat match goal with |- context [if f64_is_finite (f64_of_bits ?d) then _ else _] =>
    change (f64_is_finite (f64_of_bits d)) with (finite d); destruct (finite d) end;
  cbv -[obj_find members wrapS omap Z.max bits_of_f64 f64_of_Z]; rewrite !obj_find_members;
  cbv -[wrapS omap Z.max bits_of_f64 f64_of_Z].

Lemma dispatch_build e w t : event_ok e -> build e = Some t ->
  dispatch w (WidgetEvent.make t) = intended w e.
Proof.
  destruct e; intros Hok Ht; apply make_dump in Ht; rewrite Ht; cbn [event_ok intended] in *.
  14: { destruct (decide (0 <= cursor)) as [Hc|Hc]; eval_dispatch.
        - rewrite wrapS_small by done. do 2 f_equal. lia.
        - do 2 f_equal. lia. }
  all: eval_dispatch; try destruct Hok; rewrite ?wrapS_small by done;
    change (omap as_string) with (omap (M := list) as_string); rewrite ?omap_strings; done.
Qed.
End Arrival.

(** Whatever happens in a dialog, the plugin gets exactly the call of that
    event, with its arguments, and answers for it; a value that is not finite is
    no call, and the plugin does not handle it. *)
Theorem event_dispatched {text} `{JsonTextLaws text} {S} (plugin : Call -> S -> bool * S) w e t s :
  event_ok e -> build e = Some t ->
  onWidgetEvent plugin w t s
  = match intended w e with Some call => plugin call s | None => (false, s) end.
Proof. intros Hok Ht. unfold onWidgetEvent. by rewrite (dispatch_build e w t Hok Ht). Qed.

Import ValueText.

Lemma event_dispatched_witness :
  let plugin call s :=
    match call with
    | OnRangeChanged w lo hi => (true, (w, lo, hi) :: s)
    | _ => (false, s)
    end in
  exists t : json, build (RangeChanged (-5) 7) = Some t /\
  onWidgetEvent plugin "slider" t [] = (true, [("slider", -5, 7)]).
Proof.
  intros plugin. eexists. split; [reflexivity|].
  apply (event_dispatched plugin "slider" (RangeChanged (-5) 7)); [by cbn|reflexivity].
Defined.
