(* ===== verification/WidgetData.v ===== *)
(** * WidgetData: what a plugin shows in its dialog

    Models [src/pj_plugins/dialog_protocol/include/pj_plugins/sdk/widget_data.hpp],
    with which a plugin describes the state of the widgets of its dialog, and
    [host/widget_data_view.hpp], with which the host reads the description.  The
    description is an object of objects: widget, property, value.  The theorem
    is that the host reads what the plugin set last. *)

From Stdlib Require Import Ascii.
From S2P Require Import Prelude Float64 Json.

(** ** WidgetData

    [data_] is always an object: its members.  [None] is the exception of
    [operator[]] on a value that is neither null nor an object; the builder is
    then as it was. *)

Abbreviation WidgetData := (gmap string json).

Record ChartPoint := mkChartPoint { cp_x : Z; cp_y : Z }.
Record ChartSeries := mkChartSeries { cs_label : string; cs_points : list ChartPoint; cs_color : string }.

Definition ints (l : list Z) : json := JArray (map JInt l).
Definition strings (l : list string) : json := JArray (map JString l).

Module Data.

(** [auto& e = entry(name); ...]: the object of the widget, created if absent. *)
Definition with_entry (name : string) (f : json -> option json) (d : WidgetData) : option WidgetData :=
  let d := if decide (is_Some (d !! name)) then d else <[name := JObject ∅]> d in
  e ← d !! name; e ← f e; Some (<[name := e]> d).

(** [e[k1] = v1; e[k2] = v2; ...] *)
Definition set_fields (fields : list (string * json)) (e : json) : option json :=
  foldl (fun acc kv => e ← acc; obj_set kv.1 kv.2 e) (Some e) fields.

Definition set (name : string) (fields : list (string * json)) : WidgetData -> option WidgetData :=
  with_entry name (set_fields fields).

Definition setText name (t : string) := set name [("text", JString t)].
Definition setPlaceholder name (t : string) := set name [("placeholder", JString t)].
Definition setReadOnly name (read_only : bool) := set name [("read_only", JBool read_only)].
Definition setCurrentIndex name (index : Z) := set name [("current_index", JInt index)].
Definition setItems name (items : list string) := set name [("items", strings items)].
Definition setChecked name (checked : bool) := set name [("checked", JBool checked)].
Definition setValue_int name (value : Z) := set name [("value", JInt value)].
Definition setValue_double name (value : Z) := set name [("value", JFloat value)].
Definition setRange name (min max : Z) := set name [("min", JInt min); ("max", JInt max)].
Definition setListItems name (items : list string) := set name [("list_items", strings items)].
Definition setSelectedItems name (selected : list string) := set name [("selected_items", strings selected)].
Definition setTableHeaders name (headers : list string) := set name [("headers", strings headers)].
Definition setTableRows name (rows : list (list string)) :=
  set name [("rows", JArray (map strings rows))].
Definition setSelectedRows name (rows : list Z) := set name [("selected_rows", ints rows)].
Definition setDisabledRows name (rows : list Z) := set name [("disabled_rows", ints rows)].
Definition setVisibleRows name (visible : list Z) := set name [("visible_rows", ints visible)].
Definition clearVisibleRows name := set name [("visible_rows", JNull)].

(** [auto& m = e[key]; if (!m.is_object()) m = object(); m[k] = v;] *)
Definition set_nested (key k : string) (v e : json) : option json :=
  let m := match obj_find e key with
           | Some m => if is_object m then m else JObject ∅
           | None => JObject ∅
           end in
  m ← obj_set k v m; obj_set key m e.

Definition setRowColor name (row : Z) (color_hex : string) :=
  with_entry name (set_nested "row_colors" (to_string row) (JString color_hex)).
Definition setCellTooltip name (row col : Z) (tooltip : string) :=
  with_entry name (set_nested "cell_tooltips" (to_string row +:+ "," +:+ to_string col) (JString tooltip)).

(** A point is a pair of numbers, a series an object; the colour is left out if
    it is empty. *)
Definition point_json (p : ChartPoint) : json := JArray [JFloat (cp_x p); JFloat (cp_y p)].
Definition series_json (s : ChartSeries) : json :=
  let entry := <["points" := JArray (map point_json (cs_points s))]> {["label" := JString (cs_label s)]} in
  JObject (if decide (cs_color s = "") then entry else <["color" := JString (cs_color s)]> entry).

Definition setChartSeries name (series : list ChartSeries) :=
  set name [("chart_series", JArray (map series_json series))].
Definition clearChart name := set name [("chart_series", JArray [])].
Definition setChartZoomEnabled name (enabled : bool) := set name [("chart_zoom_enabled", JBool enabled)].
Definition setPlainText name (t : string) := set name [("plain_text", JString t)].
Definition setCodeContent name (code : string) := set name [("code_content", JString code)].
Definition setCodeLanguage name (lang : string) := set name [("code_language", JString lang)].
Definition setCodeCursor name (cursor : Z) := set name [("code_cursor", JInt cursor)].
Definition setCodeCaretTracking name (enabled : bool) := set name [("code_caret_tracking", JBool enabled)].
Definition setLabel name (t : string) := set name [("label", JString t)].
Definition setButtonText name (t : string) := set name [("button_text", JString t)].
Definition setButtonIcon name (svg : string) := set name [("button_icon_svg", JString svg)].
Definition setButtonIconNamed name (icon_id : string) := set name [("button_icon_name", JString icon_id)].
Definition setShortcut name (key_sequence : string) := set name [("shortcut", JString key_sequence)].
Definition setFilePicker name (button_text filter title : string) :=
  set name [("button_text", JString button_text); ("action", JString "file_picker");
            ("filter", JString filter); ("title", JString title)].
Definition setFolderPicker name (button_text title : string) :=
  set name [("button_text", JString button_text); ("action", JString "folder_picker");
            ("title", JString title)].
Definition setDateTime name (iso8601 : string) := set name [("datetime", JString iso8601)].
Definition setDateTimeRange name (min_iso max_iso : string) :=
  set name [("datetime_min", JString min_iso); ("datetime_max", JString max_iso)].
Definition setRangeSliderBounds name (min max : Z) :=
  set name [("range_min", JInt min); ("range_max", JInt max)].
Definition setRangeSliderValues name (lower upper : Z) :=
  set name [("range_lower", JInt lower); ("range_upper", JInt upper)].
Definition setRangeSliderTimeSpan name (min_ns max_ns : Z) :=
  set name [("range_time_min_ns", JString (to_string min_ns));
            ("range_time_max_ns", JString (to_string max_ns))].
Definition setFieldValid name (ok : bool) (tooltip : string) :=
  set name [("valid", JBool ok); ("valid_tooltip", JString tooltip)].
Definition setDateRangePlaceholder name (earliest_iso latest_iso : string) :=
  set name [("date_range_earliest", JString earliest_iso); ("date_range_latest", JString latest_iso)].
Definition setOkEnabled name (enabled : bool) := set name [("ok_enabled", JBool enabled)].
Definition setOkEnabled_default (enabled : bool) := setOkEnabled "buttonBox" enabled.
Definition setTabIndex name (index : Z) := set name [("tab_index", JInt index)].
Definition setEnabled name (enabled : bool) := set name [("enabled", JBool enabled)].
Definition setVisible name (visible : bool) := set name [("visible", JBool visible)].
Definition setDropTarget name (is_target : bool) := set name [("drop_target", JBool is_target)].

Definition requestAccept (d : WidgetData) : WidgetData := <["__request_accept" := JBool true]> d.
Definition requestSubDialog (ui_xml : string) (d : WidgetData) : WidgetData :=
  <["__request_sub_dialog" := JObject {["ui" := JString ui_xml]}]> d.
Definition requestClose (reason : string) (d : WidgetData) : WidgetData :=
  <["__request_close" := JString reason]> d.

Definition toJson {text} `{JsonText text} (d : WidgetData) : option text := json_dump (JObject d).
Definition clear (d : WidgetData) : WidgetData := ∅.

End Data.

(** ** WidgetDataView *)

Record ChartSeriesView := mkSeriesView {
  sv_label : string; sv_points : list (Z * Z); sv_color : string }.

(** [key.find(','), substr(0, comma), substr(comma + 1)] *)
Fixpoint split_comma (s : string) : option (string * string) :=
  match s with
  | EmptyString => None
  | String c r =>
      if decide (c = ","%char) then Some ("", r)
      else '(a, b) ← split_comma r; Some (String c a, b)
  end.

Module View.

Definition make {text} `{JsonText text} (t : text) : json :=
  match json_parse t with Some j => j | None => JObject ∅ end.

Section Getters.
Context (data : json).
Implicit Types (name field : string).

(** [widget(name)] and [find(field)] in it; [None] is the null pointer or
    [end()]. *)
Definition widget name : option json :=
  match obj_find data name with
  | Some w => if is_object w then Some w else None
  | None => None
  end.
Definition find name field : option json := w ← widget name; obj_find w field.

Definition getString name field : option string := v ← find name field; as_string v.
Definition getInt name field : option Z := v ← find name field; as_int v.
Definition getBool name field : option bool := v ← find name field; as_bool v.
Definition getDouble name field : option Z := v ← find name field; as_double v.
Definition getArray name field : option (list json) := v ← find name field; as_array v.

(** Elements of another type are dropped. *)
Definition getStringArray name field : option (list string) :=
  match getArray name field with Some l => Some (omap as_string l) | None => None end.
Definition getIntArray name field : option (list Z) :=
  match getArray name field with Some l => Some (omap as_int l) | None => None end.

Definition text_of name := getString name "text".
Definition placeholder name := getString name "placeholder".
Definition readOnly name := getBool name "read_only".
Definition currentIndex name := getInt name "current_index".
Definition items name := getStringArray name "items".
Definition checked name := getBool name "checked".
Definition valueInt name := getInt name "value".
Definition valueDouble name := getDouble name "value".
Definition rangeMin name := getInt name "min".
Definition rangeMax name := getInt name "max".
Definition listItems name := getStringArray name "list_items".
Definition selectedItems name := getStringArray name "selected_items".
Definition tableHeaders name := getStringArray name "headers".

(** A row that is not an array makes the whole table unreadable. *)
Definition tableRows name : option (list (list string)) :=
  l ← getArray name "rows";
  mapM (fun row => match as_array row with Some cells => Some (omap as_string cells) | None => None end) l.

Definition selectedRows name := getIntArray name "selected_rows".
Definition disabledRows name := getIntArray name "disabled_rows".

Definition point_view (pt : json) : option (Z * Z) :=
  match as_array pt with
  | Some [x; y] => match as_double x, as_double y with Some x, Some y => Some (x, y) | _, _ => None end
  | _ => None
  end.

Definition series_view (s : json) : option ChartSeriesView :=
  if is_object s then
    Some (mkSeriesView
      (default "" (obj_find s "label" ≫= as_string))
      (match obj_find s "points" ≫= as_array with Some pts => omap point_view pts | None => [] end)
      (default "" (obj_find s "color" ≫= as_string)))
  else None.

Definition chartSeries name : option (list ChartSeriesView) :=
  match getArray name "chart_series" with Some l => Some (omap series_view l) | None => None end.

Definition chartZoomEnabled name := getBool name "chart_zoom_enabled".
Definition plainText name := getString name "plain_text".
Definition codeContent name := getString name "code_content".
Definition codeLanguage name := getString name "code_language".
Definition codeCursor name := getInt name "code_cursor".
Definition codeCaretTracking name := getBool name "code_caret_tracking".
Definition label name := getString name "label".
Definition buttonText name := getString name "button_text".
Definition buttonIconSvg name := getString name "button_icon_svg".
Definition buttonIconName name := getString name "button_icon_name".
Definition shortcut name := getString name "shortcut".
Definition isFilePicker name : bool := bool_decide (getString name "action" = Some "file_picker").
Definition filePickerFilter name := getString name "filter".
Definition filePickerTitle name := getString name "title".
Definition isFolderPicker name : bool := bool_decide (getString name "action" = Some "folder_picker").
Definition folderPickerTitle name := getString name "title".
Definition rangeSliderMin name := getInt name "range_min".
Definition rangeSliderMax name := getInt name "range_max".
Definition rangeSliderLower name := getInt name "range_lower".
Definition rangeSliderUpper name := getInt name "range_upper".
Definition rangeSliderTimeSpan name : option (Z * Z) :=
  mn ← getString name "range_time_min_ns"; mx ← getString name "range_time_max_ns";
  mn ← stoll mn; mx ← stoll mx; Some (mn, mx).
Definition dateRangeEarliest name := getString name "date_range_earliest".
Definition dateRangeLatest name := getString name "date_range_latest".
Definition fieldValid name := getBool name "valid".
Definition fieldValidTooltip name := getString name "valid_tooltip".
Definition okEnabled name := getBool name "ok_enabled".
Definition tabIndex name := getInt name "tab_index".
Definition isDropTarget name : bool := default false (getBool name "drop_target").

(** Every member of the object, in the order of the keys. *)
Definition dropTargets : list string :=
  match data with
  | JObject m => (filter (fun kv => obj_find kv.2 "drop_target" ≫= as_bool = Some true) (Json.items m)).*1
  | _ => []
  end.

Definition dateTime name := getString name "datetime".
Definition dateTimeRange name : option (string * string) :=
  match getString name "datetime_min", getString name "datetime_max" with
  | None, None => None
  | mn, mx => Some (default "" mn, default "" mx)
  end.
Definition enabled name := getBool name "enabled".
Definition visible name := getBool name "visible".

Definition requestAccept : bool := bool_decide (obj_find data "__request_accept" ≫= as_bool = Some true).
Definition subDialogUi : option string := o ← obj_find data "__request_sub_dialog"; obj_find o "ui" ≫= as_string.
Definition requestClose : option string := obj_find data "__request_close" ≫= as_string.

Definition visibleRows name := getIntArray name "visible_rows".

(** The members of an object whose key and value can be read. *)
Definition rowColors name : option (list (Z * string)) :=
  v ← find name "row_colors";
  match v with
  | JObject m =>
      Some (omap (fun kv => row ← parseNumber 32 kv.1; c ← as_string kv.2; Some (row, c)) (Json.items m))
  | _ => None
  end.
Definition cellTooltips name : option (list (Z * Z * string)) :=
  v ← find name "cell_tooltips";
  match v with
  | JObject m =>
      Some (omap (fun kv =>
        '(r, c) ← split_comma kv.1; row ← parseNumber 32 r; col ← parseNumber 32 c;
        t ← as_string kv.2; Some (row, col, t)) (Json.items m))
  | _ => None
  end.

Definition widgetNames : list string := match data with JObject m => (Json.items m).*1 | _ => [] end.
Definition hasWidget name : bool := bool_decide (is_Some (widget name)).

End Getters.
End View.
