(* ===== verification/WidgetReadback.v ===== *)
(** * WidgetReadback: the host reads what the plugin set

    The calls of [WidgetData] as steps, in any order and on any widgets, and what
    the getters of [WidgetDataView] then find.  A widget must not be named like a
    command of the dialog ([__request_accept] and the like share the object with
    the widgets). *)

From Stdlib Require Import Ascii.
From S2P Require Import Prelude Float64 Json WidgetData.

(** ** The calls *)

Inductive Update : Set :=
| SetText (n : string) (t : string)
| SetPlaceholder (n : string) (t : string)
| SetReadOnly (n : string) (b : bool)
| SetCurrentIndex (n : string) (i : Z)
| SetItems (n : string) (l : list string)
| SetChecked (n : string) (b : bool)
| SetValueInt (n : string) (i : Z)
| SetValueDouble (n : string) (x : Z)
| SetRange (n : string) (a b : Z)
| SetListItems (n : string) (l : list string)
| SetSelectedItems (n : string) (l : list string)
| SetTableHeaders (n : string) (l : list string)
| SetTableRows (n : string) (ls : list (list string))
| SetSelectedRows (n : string) (zs : list Z)
| SetDisabledRows (n : string) (zs : list Z)
| SetVisibleRows (n : string) (zs : list Z)
| ClearVisibleRows (n : string)
| SetRowColor (n : string) (i : Z) (c : string)
| SetCellTooltip (n : string) (i j : Z) (t : string)
| SetChartSeries (n : string) (cs : list ChartSeries)
| ClearChart (n : string)
| SetChartZoomEnabled (n : string) (b : bool)
| SetPlainText (n : string) (t : string)
| SetCodeContent (n : string) (t : string)
| SetCodeLanguage (n : string) (t : string)
| SetCodeCursor (n : string) (i : Z)
| SetCodeCaretTracking (n : string) (b : bool)
| SetLabel (n : string) (t : string)
| SetButtonText (n : string) (t : string)
| SetButtonIcon (n : string) (t : string)
| SetButtonIconNamed (n : string) (t : string)
| SetShortcut (n : string) (t : string)
| SetFilePicker (n : string) (b f t : string)
| SetFolderPicker (n : string) (b t : string)
| SetDateTime (n : string) (t : string)
| SetDateTimeRange (n : string) (a b : string)
| SetRangeSliderBounds (n : string) (a b : Z)
| SetRangeSliderValues (n : string) (a b : Z)
| SetRangeSliderTimeSpan (n : string) (a b : Z)
| SetFieldValid (n : string) (b : bool) (t : string)
| SetDateRangePlaceholder (n : string) (a b : string)
| SetOkEnabled (n : string) (b : bool)
| SetTabIndex (n : string) (i : Z)
| SetEnabled (n : string) (b : bool)
| SetVisible (n : string) (b : bool)
| SetDropTarget (n : string) (b : bool)
| RequestAccept
| RequestSubDialog (ui_xml : string)
| RequestClose (reason : string)
| Clear.

Definition apply (u : Update) (d : WidgetData) : option WidgetData :=
  match u with
  | SetText n t => Data.setText n t d
  | SetPlaceholder n t => Data.setPlaceholder n t d
  | SetReadOnly n b => Data.setReadOnly n b d
  | SetCurrentIndex n i => Data.setCurrentIndex n i d
  | SetItems n l => Data.setItems n l d
  | SetChecked n b => Data.setChecked n b d
  | SetValueInt n i => Data.setValue_int n i d
  | SetValueDouble n x => Data.setValue_double n x d
  | SetRange n a b => Data.setRange n a b d
  | SetListItems n l => Data.setListItems n l d
  | SetSelectedItems n l => Data.setSelectedItems n l d
  | SetTableHeaders n l => Data.setTableHeaders n l d
  | SetTableRows n ls => Data.setTableRows n ls d
  | SetSelectedRows n zs => Data.setSelectedRows n zs d
  | SetDisabledRows n zs => Data.setDisabledRows n zs d
  | SetVisibleRows n zs => Data.setVisibleRows n zs d
  | ClearVisibleRows n => Data.clearVisibleRows n d
  | SetRowColor n i c => Data.setRowColor n i c d
  | SetCellTooltip n i j t => Data.setCellTooltip n i j t d
  | SetChartSeries n cs => Data.setChartSeries n cs d
  | ClearChart n => Data.clearChart n d
  | SetChartZoomEnabled n b => Data.setChartZoomEnabled n b d
  | SetPlainText n t => Data.setPlainText n t d
  | SetCodeContent n t => Data.setCodeContent n t d
  | SetCodeLanguage n t => Data.setCodeLanguage n t d
  | SetCodeCursor n i => Data.setCodeCursor n i d
  | SetCodeCaretTracking n b => Data.setCodeCaretTracking n b d
  | SetLabel n t => Data.setLabel n t d
  | SetButtonText n t => Data.setButtonText n t d
  | SetButtonIcon n t => Data.setButtonIcon n t d
  | SetButtonIconNamed n t => Data.setButtonIconNamed n t d
  | SetShortcut n t => Data.setShortcut n t d
  | SetFilePicker n b f t => Data.setFilePicker n b f t d
  | SetFolderPicker n b t => Data.setFolderPicker n b t d
  | SetDateTime n t => Data.setDateTime n t d
  | SetDateTimeRange n a b => Data.setDateTimeRange n a b d
  | SetRangeSliderBounds n a b => Data.setRangeSliderBounds n a b d
  | SetRangeSliderValues n a b => Data.setRangeSliderValues n a b d
  | SetRangeSliderTimeSpan n a b => Data.setRangeSliderTimeSpan n a b d
  | SetFieldValid n b t => Data.setFieldValid n b t d
  | SetDateRangePlaceholder n a b => Data.setDateRangePlaceholder n a b d
  | SetOkEnabled n b => Data.setOkEnabled n b d
  | SetTabIndex n i => Data.setTabIndex n i d
  | SetEnabled n b => Data.setEnabled n b d
  | SetVisible n b => Data.setVisible n b d
  | SetDropTarget n b => Data.setDropTarget n b d
  | RequestAccept => Some (Data.requestAccept d)
  | RequestSubDialog x => Some (Data.requestSubDialog x d)
  | RequestClose x => Some (Data.requestClose x d)
  | Clear => Some (Data.clear d)
  end.

(** The widget and the properties of a call that just stores values. *)
Definition stored (u : Update) : option (string * list (string * json)) :=
  match u with
  | SetText n t => Some (n, [("text", JString t)])
  | SetPlaceholder n t => Some (n, [("placeholder", JString t)])
  | SetReadOnly n b => Some (n, [("read_only", JBool b)])
  | SetCurrentIndex n i => Some (n, [("current_index", JInt i)])
  | SetItems n l => Some (n, [("items", strings l)])
  | SetChecked n b => Some (n, [("checked", JBool b)])
  | SetValueInt n i => Some (n, [("value", JInt i)])
  | SetValueDouble n x => Some (n, [("value", JFloat x)])
  | SetRange n a b => Some (n, [("min", JInt a); ("max", JInt b)])
  | SetListItems n l => Some (n, [("list_items", strings l)])
  | SetSelectedItems n l => Some (n, [("selected_items", strings l)])
  | SetTableHeaders n l => Some (n, [("headers", strings l)])
  | SetTableRows n ls => Some (n, [("rows", JArray (map strings ls))])
  | SetSelectedRows n zs => Some (n, [("selected_rows", ints zs)])
  | SetDisabledRows n zs => Some (n, [("disabled_rows", ints zs)])
  | SetVisibleRows n zs => Some (n, [("visible_rows", ints zs)])
  | ClearVisibleRows n => Some (n, [("visible_rows", JNull)])
  | SetChartSeries n cs => Some (n, [("chart_series", JArray (map Data.series_json cs))])
  | ClearChart n => Some (n, [("chart_series", JArray [])])
  | SetChartZoomEnabled n b => Some (n, [("chart_zoom_enabled", JBool b)])
  | SetPlainText n t => Some (n, [("plain_text", JString t)])
  | SetCodeContent n t => Some (n, [("code_content", JString t)])
  | SetCodeLanguage n t => Some (n, [("code_language", JString t)])
  | SetCodeCursor n i => Some (n, [("code_cursor", JInt i)])
  | SetCodeCaretTracking n b => Some (n, [("code_caret_tracking", JBool b)])
  | SetLabel n t => Some (n, [("label", JString t)])
  | SetButtonText n t => Some (n, [("button_text", JString t)])
  | SetButtonIcon n t => Some (n, [("button_icon_svg", JString t)])
  | SetButtonIconNamed n t => Some (n, [("button_icon_name", JString t)])
  | SetShortcut n t => Some (n, [("shortcut", JString t)])
  | SetFilePicker n b f t => Some (n, [("button_text", JString b); ("action", JString "file_picker"); ("filter", JString f); ("title", JString t)])
  | SetFolderPicker n b t => Some (n, [("button_text", JString b); ("action", JString "folder_picker"); ("title", JString t)])
  | SetDateTime n t => Some (n, [("datetime", JString t)])
  | SetDateTimeRange n a b => Some (n, [("datetime_min", JString a); ("datetime_max", JString b)])
  | SetRangeSliderBounds n a b => Some (n, [("range_min", JInt a); ("range_max", JInt b)])
  | SetRangeSliderValues n a b => Some (n, [("range_lower", JInt a); ("range_upper", JInt b)])
  | SetRangeSliderTimeSpan n a b => Some (n, [("range_time_min_ns", JString (to_string a)); ("range_time_max_ns", JString (to_string b))])
  | SetFieldValid n b t => Some (n, [("valid", JBool b); ("valid_tooltip", JString t)])
  | SetDateRangePlaceholder n a b => Some (n, [("date_range_earliest", JString a); ("date_range_latest", JString b)])
  | SetOkEnabled n b => Some (n, [("ok_enabled", JBool b)])
  | SetTabIndex n i => Some (n, [("tab_index", JInt i)])
  | SetEnabled n b => Some (n, [("enabled", JBool b)])
  | SetVisible n b => Some (n, [("visible", JBool b)])
  | SetDropTarget n b => Some (n, [("drop_target", JBool b)])
  | _ => None
  end.

Definition args_ok (u : Update) : Prop :=
  match u with
  | SetCurrentIndex n i => in_s 32 i
  | SetValueInt n i => in_s 32 i
  | SetRange n a b => in_s 32 a /\ in_s 32 b
  | SetSelectedRows n zs => Forall (in_s 32) zs
  | SetDisabledRows n zs => Forall (in_s 32) zs
  | SetVisibleRows n zs => Forall (in_s 32) zs
  | SetRowColor n i c => in_s 32 i
  | SetCellTooltip n i j t => in_s 32 i /\ in_s 32 j
  | SetCodeCursor n i => in_s 32 i
  | SetRangeSliderBounds n a b => in_s 32 a /\ in_s 32 b
  | SetRangeSliderValues n a b => in_s 32 a /\ in_s 32 b
  | SetRangeSliderTimeSpan n a b => in_s 64 a /\ in_s 64 b
  | SetTabIndex n i => in_s 32 i
  | _ => True
  end.

(** A series as the host shows it: a point that is not finite is dropped. *)
Definition series_shown (s : ChartSeries) : ChartSeriesView :=
  mkSeriesView (cs_label s)
    (omap (fun p => if finite (cp_x p) && finite (cp_y p) then Some (cp_x p, cp_y p) else None) (cs_points s))
    (cs_color s).

(** What the host reads after a call. *)
Definition reads (u : Update) (v : json) : Prop :=
  match u with
  | SetText n t => View.text_of v n = Some t
  | SetPlaceholder n t => View.placeholder v n = Some t
  | SetReadOnly n b => View.readOnly v n = Some b
  | SetCurrentIndex n i => View.currentIndex v n = Some i
  | SetItems n l => View.items v n = Some l
  | SetChecked n b => View.checked v n = Some b
  | SetValueInt n i => View.valueInt v n = Some i /\ View.valueDouble v n = Some (bits_of_f64 (f64_of_Z i))
  | SetValueDouble n x => View.valueInt v n = None /\ View.valueDouble v n = if finite x then Some x else None
  | SetRange n a b => View.rangeMin v n = Some a /\ View.rangeMax v n = Some b
  | SetListItems n l => View.listItems v n = Some l
  | SetSelectedItems n l => View.selectedItems v n = Some l
  | SetTableHeaders n l => View.tableHeaders v n = Some l
  | SetTableRows n ls => View.tableRows v n = Some ls
  | SetSelectedRows n zs => View.selectedRows v n = Some zs
  | SetDisabledRows n zs => View.disabledRows v n = Some zs
  | SetVisibleRows n zs => View.visibleRows v n = Some zs
  | ClearVisibleRows n => View.visibleRows v n = None
  | SetRowColor n i c => exists l, View.rowColors v n = Some l /\ (i, c) ∈ l
  | SetCellTooltip n i j t => exists l, View.cellTooltips v n = Some l /\ (i, j, t) ∈ l
  | SetChartSeries n cs => View.chartSeries v n = Some (map series_shown cs)
  | ClearChart n => View.chartSeries v n = Some []
  | SetChartZoomEnabled n b => View.chartZoomEnabled v n = Some b
  | SetPlainText n t => View.plainText v n = Some t
  | SetCodeContent n t => View.codeContent v n = Some t
  | SetCodeLanguage n t => View.codeLanguage v n = Some t
  | SetCodeCursor n i => View.codeCursor v n = Some i
  | SetCodeCaretTracking n b => View.codeCaretTracking v n = Some b
  | SetLabel n t => View.label v n = Some t
  | SetButtonText n t => View.buttonText v n = Some t
  | SetButtonIcon n t => View.buttonIconSvg v n = Some t
  | SetButtonIconNamed n t => View.buttonIconName v n = Some t
  | SetShortcut n t => View.shortcut v n = Some t
  | SetFilePicker n b f t => View.isFilePicker v n = true /\ View.isFolderPicker v n = false /\ View.buttonText v n = Some b
      /\ View.filePickerFilter v n = Some f /\ View.filePickerTitle v n = Some t
  | SetFolderPicker n b t => View.isFolderPicker v n = true /\ View.isFilePicker v n = false /\ View.buttonText v n = Some b
      /\ View.folderPickerTitle v n = Some t
  | SetDateTime n t => View.dateTime v n = Some t
  | SetDateTimeRange n a b => View.dateTimeRange v n = Some (a, b)
  | SetRangeSliderBounds n a b => View.rangeSliderMin v n = Some a /\ View.rangeSliderMax v n = Some b
  | SetRangeSliderValues n a b => View.rangeSliderLower v n = Some a /\ View.rangeSliderUpper v n = Some b
  | SetRangeSliderTimeSpan n a b => View.rangeSliderTimeSpan v n = Some (a, b)
  | SetFieldValid n b t => View.fieldValid v n = Some b /\ View.fieldValidTooltip v n = Some t
  | SetDateRangePlaceholder n a b => View.dateRangeEarliest v n = Some a /\ View.dateRangeLatest v n = Some b
  | SetOkEnabled n b => View.okEnabled v n = Some b
  | SetTabIndex n i => View.tabIndex v n = Some i
  | SetEnabled n b => View.enabled v n = Some b
  | SetVisible n b => View.visible v n = Some b
  | SetDropTarget n b => View.isDropTarget v n = b /\ (n ∈ View.dropTargets v <-> b = true)
  | RequestAccept => View.requestAccept v = true
  | RequestSubDialog x => View.subDialogUi v = Some x
  | RequestClose x => View.requestClose v = Some x
  | Clear => True
  end.

(** ** Places

    A place is a property of a widget, a member of such a property (the colour of
    one row, the tooltip of one cell), or a member that is a command. *)

Definition commands : list string := ["__request_accept"; "__request_sub_dialog"; "__request_close"].

Definition widget_of (u : Update) : option string :=
  match stored u, u with
  | Some (n, _), _ => Some n
  | None, SetRowColor n _ _ | None, SetCellTooltip n _ _ _ => Some n
  | None, _ => None
  end.

Definition update_ok (u : Update) : Prop :=
  (forall n, widget_of u = Some n -> n ∉ commands) /\ args_ok u.

Definition Place : Type := string * option (string * option string).

(** The properties that are objects of their own. *)
Definition nested : list string := ["row_colors"; "cell_tooltips"].

Definition writes (u : Update) : list Place :=
  match stored u, u with
  | Some (n, fs), _ => map (fun kv => (n, Some (kv.1, None))) fs
  | None, SetRowColor n i _ => [(n, Some ("row_colors", Some (to_string i)))]
  | None, SetCellTooltip n i j _ => [(n, Some ("cell_tooltips", Some (to_string i +:+ "," +:+ to_string j)))]
  | None, RequestAccept => [("__request_accept", None)]
  | None, RequestSubDialog _ => [("__request_sub_dialog", None)]
  | None, RequestClose _ => [("__request_close", None)]
  | None, _ => []
  end.

(** A property of the object of a widget, or a member of one. *)
Definition entry_value (e : json) (q : string * option string) : option json :=
  match q with
  | (f, None) => obj_find e f
  | (f, Some k) => v ← obj_find e f; obj_find v k
  end.

Definition value_at (d : WidgetData) (place : Place) : option json :=
  match place with
  | (n, Some q) => match d !! n with Some e => entry_value e q | None => None end
  | (n, None) => d !! n
  end.

Definition place_ok (place : Place) : Prop :=
  match place with
  | (n, Some (f, None)) => (n ∉ commands) /\ (f ∉ nested)
  | (n, Some (f, Some _)) => (n ∉ commands) /\ (f ∈ nested)
  | (n, None) => n ∈ commands
  end.

(** Widgets are objects. *)
Definition safe (d : WidgetData) : Prop := forall n e, d !! n = Some e -> n ∉ commands -> is_object e = true.

(** ** One call *)

Lemma obj_set_object key v e : is_object e = true ->
  exists e', obj_set key v e = Some e' /\ is_object e' = true.
Proof. destruct e; try done. intros _. eexists. split; [reflexivity|done]. Qed.

Lemma set_fields_spec fs e : is_object e = true ->
  exists e', Data.set_fields fs e = Some e' /\ is_object e' = true /\
  forall f, obj_find e' f = match lookup_last fs f with Some v => Some v | None => obj_find e f end.
Proof.
  intros He. induction fs as [|kv fs IH] using rev_ind; [by exists e|].
  destruct IH as (e' & Hset & Hobj & Hfind). unfold Data.set_fields in *.
  rewrite foldl_app. cbn [foldl]. rewrite Hset. cbn [mbind option_bind].
  destruct (obj_set_object kv.1 kv.2 e' Hobj) as (e'' & Hset' & Hobj'). exists e''.
  split_and!; [done..|]. intros f. rewrite lookup_last_snoc, (obj_find_set _ _ _ _ f Hset').
  destruct (String.eqb_spec kv.1 f) as [->|Hne]; [by rewrite decide_True|by rewrite decide_False].
Qed.

Lemma set_nested_spec key k v e : is_object e = true ->
  exists e', Data.set_nested key k v e = Some e' /\ is_object e' = true /\
  entry_value e' (key, Some k) = Some v /\
  (forall k', k' <> k -> entry_value e' (key, Some k') = entry_value e (key, Some k')) /\
  forall f, f <> key -> obj_find e' f = obj_find e f.
Proof.
  intros He. unfold Data.set_nested. set (m := match obj_find e key with Some m => _ | None => _ end).
  assert (Hm : is_object m = true).
  { unfold m. destruct (obj_find e key) as [x|]; [|done]. by destruct (is_object x) eqn:E. }
  assert (Hold : forall k', entry_value e (key, Some k') = obj_find m k').
  { intros k'. unfold m. cbn [entry_value]. destruct (obj_find e key) as [x|]; [|done]. cbn [mbind option_bind].
    destruct x; done. }
  destruct (obj_set_object k v m Hm) as (m' & Hset & Hm'). rewrite Hset. cbn [mbind option_bind].
  destruct (obj_set_object key m' e He) as (e' & Hset' & He'). exists e'.
  assert (Hkey : obj_find e' key = Some m') by (by rewrite (obj_find_set _ _ _ _ key Hset'), decide_True).
  split_and!; [done|done| | |].
  - cbn [entry_value]. rewrite Hkey. cbn [mbind option_bind]. by rewrite (obj_find_set _ _ _ _ k Hset), decide_True.
  - intros k' Hk. rewrite Hold. cbn [entry_value]. rewrite Hkey. cbn [mbind option_bind].
    by rewrite (obj_find_set _ _ _ _ k' Hset), decide_False.
  - intros f Hf. by rewrite (obj_find_set _ _ _ _ f Hset'), decide_False.
Qed.

Lemma with_entry_spec n f d (P : json -> json -> Prop) : safe d -> n ∉ commands ->
  (forall e, is_object e = true -> exists e', f e = Some e' /\ is_object e' = true /\ P e e') ->
  exists e e', Data.with_entry n f d = Some (<[n := e']> d) /\ is_object e' = true /\ P e e' /\
    (forall q, entry_value e q = value_at d (n, Some q)).
Proof.
  intros Hd Hn Hf. unfold Data.with_entry. destruct (d !! n) as [e|] eqn:E.
  - rewrite decide_True by done. rewrite E. cbn [mbind option_bind].
    destruct (Hf e (Hd n e E Hn)) as (e' & -> & He' & HP). exists e, e'. split_and!; [done..|].
    intros q. cbn [value_at]. by rewrite E.
  - rewrite decide_False by (by intros [? ?]). rewrite lookup_insert_eq. cbn [mbind option_bind].
    destruct (Hf (JObject ∅) eq_refl) as (e' & -> & He' & HP). exists (JObject ∅), e'.
    cbn [mbind option_bind]. rewrite insert_insert_eq. split_and!; [done..|].
    intros [g [k|]]; cbn [value_at entry_value obj_find]; by rewrite E, lookup_empty.
Qed.

(** What a call leaves at its places. *)
Definition wrote (u : Update) (d : WidgetData) : Prop :=
  match stored u, u with
  | Some (n, fs), _ => forall f v, lookup_last fs f = Some v -> value_at d (n, Some (f, None)) = Some v
  | None, SetRowColor n i c => value_at d (n, Some ("row_colors", Some (to_string i))) = Some (JString c)
  | None, SetCellTooltip n i j t =>
      value_at d (n, Some ("cell_tooltips", Some (to_string i +:+ "," +:+ to_string j))) = Some (JString t)
  | None, RequestAccept => value_at d ("__request_accept", None) = Some (JBool true)
  | None, RequestSubDialog x =>
      value_at d ("__request_sub_dialog", None) = Some (JObject {["ui" := JString x]})
  | None, RequestClose x => value_at d ("__request_close", None) = Some (JString x)
  | None, _ => True
  end.

Lemma lookup_last_Some ms key v : lookup_last ms key = Some v -> key ∈ ms.*1.
Proof.
  intros H. destruct (decide (key ∈ ms.*1)) as [|Hn]; [done|]. by rewrite lookup_last_None in H.
Qed.

(** It depends on those places only. *)
Lemma wrote_ext u d d' : (forall p, p ∈ writes u -> value_at d' p = value_at d p) -> wrote u d -> wrote u d'.
Proof.
  unfold wrote, writes. destruct (stored u) as [[n fs]|].
  - intros Hp Hw f v Hf. rewrite Hp; [by apply Hw|].
    apply lookup_last_Some in Hf. apply list_elem_of_fmap in Hf as (kv & -> & Hkv).
    apply list_elem_of_fmap. by exists kv.
  - intros Hp. destruct u; rewrite ?Hp by set_solver; done.
Qed.

Lemma value_at_insert d n e' p : place_ok p -> n ∉ commands -> (forall q, p <> (n, Some q)) ->
  value_at (<[n := e']> d) p = value_at d p.
Proof.
  destruct p as [n' [q|]]; cbn [place_ok value_at]; intros Hp Hn Hne.
  - rewrite lookup_insert_ne; [done|]. intros ->. by apply (Hne q).
  - rewrite lookup_insert_ne; [done|]. by intros ->.
Qed.

Lemma safe_insert d n e' : safe d -> (n ∉ commands -> is_object e' = true) -> safe (<[n := e']> d).
Proof.
  intros Hd He k x. destruct (decide (n = k)) as [->|Hne].
  - rewrite lookup_insert_eq. intros [= <-]. exact He.
  - rewrite lookup_insert_ne by done. apply Hd.
Qed.

(** A call that sets properties of a widget: it does not throw, writes what it
    says, and nothing else. *)
Lemma entry_update n f d keys (P : (string * option string -> option json) -> Prop) : safe d -> n ∉ commands ->
  (forall e, is_object e = true -> exists e', f e = Some e' /\ is_object e' = true /\
     P (entry_value e') /\
     (forall q, place_ok (n, Some q) -> q ∉ keys -> entry_value e' q = entry_value e q)) ->
  exists d', Data.with_entry n f d = Some d' /\ safe d' /\ P (fun q => value_at d' (n, Some q)) /\
    (forall p, place_ok p -> p ∉ map (fun q => (n, Some q)) keys -> value_at d' p = value_at d p).
Proof.
  intros Hd Hn Hf.
  destruct (with_entry_spec n f d (fun e e' => P (entry_value e') /\
      (forall q, place_ok (n, Some q) -> q ∉ keys -> entry_value e' q = entry_value e q))
    Hd Hn) as (e & e' & -> & He' & [HP Hrest] & Hold); [exact Hf|].
  assert (Hval : forall q, value_at (<[n := e']> d) (n, Some q) = entry_value e' q)
    by (intros q; cbn [value_at]; by rewrite lookup_insert_eq).
  exists (<[n := e']> d). split_and!; [done|by apply safe_insert| |].
  - cbn [value_at]. rewrite lookup_insert_eq. exact HP.
  - intros [n' [q|]] Hp Hnot; [|by apply value_at_insert]. destruct (decide (n' = n)) as [->|Hne].
    + rewrite Hval, Hrest; [apply Hold|done|]. intros Hg. apply Hnot. apply list_elem_of_fmap. by exists q.
    + apply value_at_insert; [done..|]. intros q' [= ? ?]. done.
Qed.

(** One member of a nested property: the others stay. *)
Lemma nested_update n key k v d : safe d -> n ∉ commands -> key ∈ nested ->
  exists d', Data.with_entry n (Data.set_nested key k v) d = Some d' /\ safe d' /\
    value_at d' (n, Some (key, Some k)) = Some v /\
    (forall p, place_ok p -> p ∉ [(n, Some (key, Some k))] -> value_at d' p = value_at d p).
Proof.
  intros Hd Hn Hkey. apply (entry_update n (Data.set_nested key k v) d [(key, Some k)]
    (fun find => find (key, Some k) = Some v) Hd Hn).
  intros e He. destruct (set_nested_spec key k v e He) as (e' & H1 & H2 & H3 & H4 & H5).
  exists e'. split_and!; [done..|]. intros [g [k'|]] Hq Hg.
  - destruct (decide (g = key)) as [->|Hne]; [apply H4; set_solver|]. cbn [entry_value]. by rewrite H5.
  - cbn [entry_value]. apply H5. intros ->. by destruct Hq.
Qed.

(** The calls that store values store none of the nested properties. *)
Lemma stored_plain u n fs : stored u = Some (n, fs) -> Forall (fun f => f ∉ nested) fs.*1.
Proof. destruct u; intros [= <- <-]; cbn; repeat constructor; set_solver. Qed.

Lemma command_update k v d : k ∈ commands -> safe d ->
  safe (<[k := v]> d) /\ value_at (<[k := v]> d) (k, None) = Some v /\
  (forall p, place_ok p -> p <> (k, None) -> value_at (<[k := v]> d) p = value_at d p).
Proof.
  intros Hk Hd. split_and!.
  - apply safe_insert; [done|]. by intros.
  - cbn [value_at]. by rewrite lookup_insert_eq.
  - intros [n' [f|]] Hp Hne; cbn [value_at place_ok] in *; (rewrite lookup_insert_ne; [done|]).
    + intros <-. destruct f as [f [k'|]]; by destruct Hp.
    + by intros <-.
Qed.

Lemma apply_stored u n fs d : stored u = Some (n, fs) -> apply u d = Data.set n fs d.
Proof. destruct u; intros [= <- <-]; reflexivity. Qed.

(** A call with arguments that are fine does not throw, keeps the widgets
    objects, writes its places and no other. *)
Lemma apply_spec u d : update_ok u -> safe d ->
  exists d', apply u d = Some d' /\ safe d' /\ wrote u d' /\
    (u <> Clear -> forall p, place_ok p -> p ∉ writes u -> value_at d' p = value_at d p).
Proof.
  intros [Hn _] Hd. unfold wrote, writes. unfold widget_of in Hn.
  destruct (stored u) as [[n fs]|] eqn:Hs.
  - specialize (Hn n eq_refl). rewrite (apply_stored u n fs d Hs).
    destruct (entry_update n (Data.set_fields fs) d (map (fun kv => (kv.1, None)) fs)
      (fun find => forall f v, lookup_last fs f = Some v -> find (f, None) = Some v) Hd Hn) as (d' & H1 & H2 & H3 & H4).
    + intros e He. destruct (set_fields_spec fs e He) as (e' & H1 & H2 & H3). exists e'.
      split_and!; [done..| |].
      * intros f v Hf. cbn [entry_value]. by rewrite H3, Hf.
      * intros [g [k|]] Hq Hg; cbn [entry_value]; rewrite H3, lookup_last_None; try done.
        -- destruct Hq as [_ Hq]. intros Hin. pose proof (stored_plain u n fs Hs) as Hpl. rewrite Forall_forall in Hpl.
           by apply (Hpl g).
        -- intros ([g' v] & -> & Hin)%list_elem_of_fmap. apply Hg. apply list_elem_of_fmap. by exists (g', v).
    + exists d'. split_and!; [done..|]. intros _ p Hp Hnot. apply H4; [done|]. by rewrite map_map.
  - destruct u; try discriminate Hs; try specialize (Hn n eq_refl).
    + destruct (nested_update n "row_colors" (to_string i) (JString c) d Hd Hn ltac:(set_solver)) as (d' & H1 & H2 & H3 & H4).
      by exists d'.
    + destruct (nested_update n "cell_tooltips" (to_string i +:+ "," +:+ to_string j) (JString t) d Hd Hn
        ltac:(set_solver)) as (d' & H1 & H2 & H3 & H4). by exists d'.
    + destruct (command_update "__request_accept" (JBool true) d ltac:(set_solver) Hd) as (H1 & H2 & H3).
      eexists. split_and!; [reflexivity|done..|]. intros _ p Hp Hnot. apply H3; set_solver.
    + destruct (command_update "__request_sub_dialog" (JObject {["ui" := JString ui_xml]}) d ltac:(set_solver) Hd)
        as (H1 & H2 & H3).
      eexists. split_and!; [reflexivity|done..|]. intros _ p Hp Hnot. apply H3; set_solver.
    + destruct (command_update "__request_close" (JString reason) d ltac:(set_solver) Hd) as (H1 & H2 & H3).
      eexists. split_and!; [reflexivity|done..|]. intros _ p Hp Hnot. apply H3; set_solver.
    + eexists. split_and!; [reflexivity|by intros ? ?|done|done].
Qed.

(** ** Any calls *)

Fixpoint run (us : list Update) (d : WidgetData) : option WidgetData :=
  match us with
  | [] => Some d
  | u :: us => match apply u d with Some d => run us d | None => None end
  end.

Lemma run_app us vs d : run (us ++ vs) d = match run us d with Some d => run vs d | None => None end.
Proof. revert d. induction us as [|u us IH]; intros d; [done|]. cbn [app run]. by destruct (apply u d). Qed.

Lemma run_safe us d : Forall update_ok us -> safe d -> exists d', run us d = Some d' /\ safe d'.
Proof.
  intros Hus. revert d. induction Hus as [|u us Hu Hus IH]; intros d Hd; [by exists d|].
  destruct (apply_spec u d Hu Hd) as (d' & H1 & H2 & _). cbn [run]. rewrite H1. by apply IH.
Qed.

Lemma writes_ok u : update_ok u -> Forall place_ok (writes u).
Proof.
  intros [Hn _]. unfold writes. unfold widget_of in Hn. destruct (stored u) as [[n fs]|] eqn:Hs.
  - pose proof (stored_plain u n fs Hs) as Hp. apply Forall_map. rewrite Forall_fmap in Hp.
    eapply Forall_impl; [exact Hp|]. intros kv Hkv. split; [exact (Hn n eq_refl)|exact Hkv].
  - destruct u; try discriminate Hs; repeat constructor; try (exact (Hn n eq_refl)); cbn [place_ok]; set_solver.
Qed.

(** Later calls that write other places leave a call's places alone. *)
Lemma run_keeps us d d' ps : Forall update_ok us -> safe d -> run us d = Some d' -> Forall place_ok ps ->
  Forall (fun v => v <> Clear /\ writes v ## ps) us -> forall p, p ∈ ps -> value_at d' p = value_at d p.
Proof.
  intros Hus Hd Hrun Hps Hdis p Hp. revert d Hd Hrun.
  induction Hus as [|u us Hu Hus IH]; intros d Hd Hrun; [by simplify_eq/=|].
  apply Forall_cons in Hdis as [[Hc Hw] Hdis]. destruct (apply_spec u d Hu Hd) as (d1 & H1 & H2 & _ & H3).
  cbn [run] in Hrun. rewrite H1 in Hrun. rewrite (IH Hdis d1 H2 Hrun). apply H3; [done| |].
  - rewrite Forall_forall in Hps. by apply Hps.
  - intros Hin. by apply (Hw p).
Qed.

(** ** What the getters find *)

Section Reading.
Context {text : Type} `{JsonTextLaws text}.

Lemma make_toJson d t : Data.toJson d = Some t -> View.make t = through_text (JObject d).
Proof. intros Ht. unfold View.make. by rewrite (parse_dump _ _ Ht). Qed.
End Reading.

Lemma find_view d n f : View.find (through_text (JObject d)) n f
  = match value_at d (n, Some (f, None)) with Some v => Some (through_text v) | None => None end.
Proof.
  unfold View.find, View.widget. rewrite obj_find_through. cbn [obj_find value_at entry_value].
  destruct (d !! n) as [e|]; [|done]. cbn [fmap option_fmap option_map]. rewrite is_object_through.
  destruct (is_object e) eqn:He; cbn [mbind option_bind].
  - rewrite obj_find_through. by destruct (obj_find e f).
  - destruct e; try discriminate He; done.
Qed.

Lemma command_view d k : obj_find (through_text (JObject d)) k
  = match value_at d (k, None) with Some v => Some (through_text v) | None => None end.
Proof. rewrite obj_find_through. cbn [obj_find value_at]. by destruct (d !! k). Qed.

Lemma mapM_rows ls :
  mapM (fun row => match as_array row with Some cells => Some (omap as_string cells) | None => None end)
    (map through_text (map strings ls)) = Some ls.
Proof.
  apply mapM_Some. induction ls as [|l ls IH]; [constructor|]. cbn [map]. constructor; [|exact IH].
  unfold strings. cbn [through_text as_array]. by rewrite through_strings, omap_strings.
Qed.

Lemma omap_map {A B C} (f : B -> option C) (g : A -> B) (h : A -> option C) l :
  (forall x, f (g x) = h x) -> omap f (map g l) = omap h l.
Proof.
  intros Hfg. induction l as [|x l IH]; [done|]. simpl. rewrite Hfg. destruct (h x); [f_equal|]; exact IH.
Qed.

Lemma points_view ps :
  omap View.point_view (map through_text (map Data.point_json ps))
  = omap (fun p => if finite (cp_x p) && finite (cp_y p) then Some (cp_x p, cp_y p) else None) ps.
Proof.
  rewrite map_map. apply omap_map. intros [x y]. unfold Data.point_json, View.point_view.
  cbn [through_text map as_array cp_x cp_y].
  change (f64_is_finite (f64_of_bits x)) with (finite x). change (f64_is_finite (f64_of_bits y)) with (finite y).
  by destruct (finite x), (finite y).
Qed.

Lemma series_view_json s : View.series_view (through_text (Data.series_json s)) = Some (series_shown s).
Proof.
  destruct s as [l ps c]. unfold Data.series_json, View.series_view, series_shown.
  cbn [cs_label cs_points cs_color]. rewrite is_object_through. cbn [is_object].
  rewrite !obj_find_through. cbn [obj_find]. rewrite <- points_view. destruct (decide (c = "")) as [->|Hc].
  - rewrite lookup_insert_ne, lookup_singleton_eq, lookup_insert_eq by done.
    rewrite lookup_insert_ne, lookup_singleton_ne by done. done.
  - rewrite !(lookup_insert_ne _ "color"), lookup_insert_ne, lookup_singleton_eq, !lookup_insert_eq by done. done.
Qed.

Lemma all_series_view cs : omap View.series_view (map through_text (map Data.series_json cs)) = map series_shown cs.
Proof.
  rewrite map_map, (omap_map _ _ (fun s => Some (series_shown s))) by (intros s; apply series_view_json).
  induction cs as [|s cs IH]; [done|]. simpl. by f_equal.
Qed.

Lemma split_comma_go x s a b : split_comma s = Some (a, b) ->
  split_comma (pretty_N_go x s) = Some (pretty_N_go x a, b).
Proof.
  revert s a. induction (N.lt_wf_0 x) as [x _ IH]; intros s a Hs.
  destruct (decide (x = 0)%N) as [->|Hx]; [done|]. rewrite !(pretty_N_go_step x) by lia.
  apply IH; [apply N.div_lt; lia|]. cbn [split_comma]. rewrite decide_False, Hs; [done|].
  unfold pretty_N_char. by repeat case_match.
Qed.

Lemma pretty_go_app x s s' : pretty_N_go x s +:+ s' = pretty_N_go x (s +:+ s').
Proof.
  revert s. induction (N.lt_wf_0 x) as [x _ IH]; intros s.
  destruct (decide (x = 0)%N) as [->|Hx]; [done|]. rewrite !(pretty_N_go_step x) by lia.
  rewrite IH by (apply N.div_lt; lia). done.
Qed.

Lemma split_comma_number z s : split_comma (to_string z +:+ "," +:+ s) = Some (to_string z, s).
Proof.
  assert (Hp : forall p : positive, split_comma (pretty p +:+ "," +:+ s) = Some (pretty p, s)).
  { intros p. change (pretty p) with (pretty (N.pos p)). unfold pretty, pretty_N.
    rewrite decide_False by done. rewrite pretty_go_app. by apply split_comma_go. }
  unfold to_string. destruct z as [|p|p]; cbn [pretty pretty_Z]; [done|apply Hp|].
  change (("-" +:+ pretty p) +:+ "," +:+ s) with (String "-"%char (pretty p +:+ "," +:+ s)).
  cbn [split_comma]. rewrite decide_False by done. by rewrite Hp.
Qed.

Lemma dropTargets_spec v n : n ∈ View.dropTargets v <-> View.getBool v n "drop_target" = Some true.
Proof.
  assert (Hb : View.getBool v n "drop_target"
    = match obj_find v n with Some w => obj_find w "drop_target" ≫= as_bool | None => None end).
  { unfold View.getBool, View.find, View.widget. destruct (obj_find v n) as [w|]; [|done].
    destruct w; cbn [is_object mbind option_bind obj_find]; done. }
  rewrite Hb. destruct v as [| | | | | |m]; cbn [View.dropTargets obj_find]; try (split; [set_solver|done]).
  rewrite list_elem_of_fmap. split.
  - intros ([k w] & -> & [Hw Hm]%list_elem_of_filter). apply elem_of_items in Hm. cbn [fst snd] in *. by rewrite Hm.
  - intros Hw. destruct (m !! n) as [w|] eqn:E; [|done]. exists (n, w). split; [done|].
    apply list_elem_of_filter. split; [done|]. by apply elem_of_items.
Qed.

(** A getter reads the property it names: [View.find] on each. *)
Ltac read_field Hw :=
  repeat match goal with
  | |- context [View.find ?v ?n ?f] => rewrite (Hw f _ eq_refl)
  end; cbn [snd mbind option_bind through_text as_string as_bool as_int as_double as_array].

Lemma reads_of_find u v : args_ok u ->
  (forall n fs, stored u = Some (n, fs) ->
    (forall f x, lookup_last fs f = Some x -> View.find v n f = Some (through_text x)) -> reads u v).
Proof.
  intros Hok n fs Hs Hw.
  destruct u; try discriminate Hs; injection Hs as <- <-; cbn [args_ok reads] in *.
  all: cbv [View.text_of View.placeholder View.readOnly View.currentIndex View.items View.checked View.valueInt
    View.valueDouble View.rangeMin View.rangeMax View.listItems View.selectedItems View.tableHeaders View.tableRows
    View.selectedRows View.disabledRows View.visibleRows View.chartSeries View.chartZoomEnabled View.plainText
    View.codeContent View.codeLanguage View.codeCursor View.codeCaretTracking View.label View.buttonText
    View.buttonIconSvg View.buttonIconName View.shortcut View.isFilePicker View.isFolderPicker
    View.filePickerFilter View.filePickerTitle View.folderPickerTitle View.rangeSliderMin View.rangeSliderMax
    View.rangeSliderLower View.rangeSliderUpper View.rangeSliderTimeSpan View.dateRangeEarliest
    View.dateRangeLatest View.fieldValid View.fieldValidTooltip View.okEnabled View.tabIndex View.isDropTarget
    View.dateTime View.dateTimeRange View.enabled View.visible View.getString View.getInt View.getBool
    View.getDouble View.getArray View.getStringArray View.getIntArray].
  all: rewrite ?dropTargets_spec; unfold View.getBool; read_field Hw.
  all: try reflexivity; repeat split; try reflexivity; try (intros [= ->]; reflexivity); try (intros ->; reflexivity).
  all: unfold strings, ints; cbn [through_text as_array mbind option_bind];
    rewrite ?through_strings, ?through_ints, ?omap_strings, ?omap_ints by done; try reflexivity.
  all: try (f_equal; apply wrapS_small; [lia|apply Hok]).
  - unfold finite. by destruct (f64_is_finite (f64_of_bits x)).
  - unfold finite. by destruct (f64_is_finite (f64_of_bits x)).
  - apply mapM_rows.
  - by rewrite all_series_view.
  - destruct Hok as [Ha Hb]. by rewrite !stoll_to_string.
Qed.

Section ReadBack.
Context {text : Type} `{JsonTextLaws text}.

(** A member of a property, which is then an object. *)
Lemma nested_find d n key k v : value_at d (n, Some (key, Some k)) = Some v ->
  exists m, value_at d (n, Some (key, None)) = Some (JObject m) /\ m !! k = Some v.
Proof.
  cbn [value_at entry_value]. destruct (d !! n) as [e|]; [|done]. destruct (obj_find e key) as [x|]; [|done].
  cbn [mbind option_bind]. destruct x as [| | | | | |m]; try done. intros Hm. by exists m.
Qed.

(** What a call wrote is what the getters read. *)
Lemma reads_of_wrote u d : args_ok u -> wrote u d -> reads u (through_text (JObject d)).
Proof.
  intros Hok Hw. unfold wrote in Hw. destruct (stored u) as [[n fs]|] eqn:Hs.
  - apply (reads_of_find u _ Hok n fs Hs). intros f x Hf. by rewrite find_view, (Hw f x Hf).
  - destruct u; try discriminate Hs; cbn [reads args_ok] in *.
    + apply nested_find in Hw as (m & Hm & Hc). unfold View.rowColors. rewrite find_view, Hm.
      cbn [mbind option_bind through_text]. eexists. split; [reflexivity|].
      apply list_elem_of_omap. exists (to_string i, JString c). split.
      * apply elem_of_items. by rewrite lookup_fmap, Hc.
      * cbn [fst snd]. by rewrite parseNumber_to_string.
    + apply nested_find in Hw as (m & Hm & Hc). unfold View.cellTooltips. rewrite find_view, Hm.
      cbn [mbind option_bind through_text]. eexists. split; [reflexivity|].
      apply list_elem_of_omap. exists (to_string i +:+ "," +:+ to_string j, JString t). split.
      * apply elem_of_items. by rewrite lookup_fmap, Hc.
      * cbn [fst snd]. rewrite split_comma_number. cbn [mbind option_bind].
        destruct Hok as [Hi Hj]. by rewrite !parseNumber_to_string.
    + unfold View.requestAccept. by rewrite command_view, Hw.
    + unfold View.subDialogUi. rewrite command_view, Hw. cbn [mbind option_bind].
      rewrite obj_find_through. cbn [obj_find]. by rewrite lookup_singleton_eq.
    + unfold View.requestClose. by rewrite command_view, Hw.
    + done.
Qed.

(** C34: Whatever a plugin sets in its dialog, in any order, on widgets that are
    not named like one of the three commands and with numbers in the range of
    their types, the setters do not throw; and if the object has a text (all its
    strings are UTF-8), the host reads from the text what was set last at every
    place: a property of a widget, the colour of a row, the tooltip of a cell or
    a command, whatever was set at other places, such as the colours of other
    rows, before and after. *)
Theorem widget_data_read_back us u vs :
  Forall update_ok (us ++ u :: vs) ->
  Forall (fun v => v <> Clear /\ writes v ## writes u) vs ->
  exists d, run (us ++ u :: vs) ∅ = Some d /\
    forall t : text, Data.toJson d = Some t -> reads u (View.make t).
Proof.
  intros [Hus [Hu Hvs]%Forall_cons]%Forall_app Hdis.
  destruct (run_safe us ∅ Hus) as (d1 & H1 & Hsafe1); [by intros ? ?|].
  destruct (apply_spec u d1 Hu Hsafe1) as (d2 & H2 & Hsafe2 & Hw & _).
  destruct (run_safe vs d2 Hvs Hsafe2) as (d3 & H3 & _). exists d3. split.
  - rewrite run_app, H1. cbn [run]. by rewrite H2.
  - intros t Ht. rewrite (make_toJson d3 t Ht). apply reads_of_wrote; [apply Hu|].
    apply (wrote_ext u d2); [|done]. intros p Hp.
    apply (run_keeps vs d2 d3 (writes u)); try done. by apply writes_ok.
Qed.
End ReadBack.

Import ValueText.

Lemma widget_data_read_back_witness :
  exists d, run [SetText "edit" "a"; SetRowColor "table" 3 "#ff0000"; SetText "edit" "b"; SetRowColor "table" 4 "#00ff00"] ∅ = Some d /\
    forall t : json, Data.toJson d = Some t ->
      exists l, View.rowColors (View.make t) "table" = Some l /\ (3, "#ff0000") ∈ l.
Proof.
  assert (Hn : forall n, n = "edit" \/ n = "table" -> n ∉ commands).
  { intros n [-> | ->] Hin; repeat (apply elem_of_cons in Hin as [Hin|Hin]; [discriminate|]);
      by apply elem_of_nil in Hin. }
  apply (widget_data_read_back [SetText "edit" "a"] (SetRowColor "table" 3 "#ff0000")
    [SetText "edit" "b"; SetRowColor "table" 4 "#00ff00"]).
  - repeat constructor; try (intros n [= <-]; apply Hn; auto); vm_compute; done.
  - repeat constructor; try discriminate; intros p Hp Hq; apply list_elem_of_singleton in Hq as ->;
      cbn in Hp; repeat (apply elem_of_cons in Hp as [Hp|Hp]; [discriminate|]); by apply elem_of_nil in Hp.
Defined.

(** The commands of a dialog share the object with its widgets: the view lists
    them among the names, and a widget named like one cannot be set after it. *)
Example commands_are_members :
  View.widgetNames (JObject (Data.requestAccept ∅)) = ["__request_accept"]
  /\ apply (SetText "__request_accept" "x") (Data.requestAccept ∅) = None.
Proof. split; vm_compute; reflexivity. Qed.
