(* ===== verification/PluginDso.v ===== *)
(** * PluginDso: the shared libraries of plugins

    Models what the host does with a plugin library once the system has loaded
    it: the ABI check of [src/pj_plugins/src/detail/library_loader.hpp], the
    slot checks of [vtable_validation.cpp], the [load] functions of
    [data_source_library.cpp], [message_parser_library.cpp],
    [toolbox_library.cpp] and [dialog_library.cpp], and the probes of
    [plugin_catalog.cpp].  A library is what its symbols give: [dlopen] and
    [dlsym] are the fields of the records here, and so is the code of the
    plugin. *)

From S2P Require Import Prelude.

(** ** What a library exports *)

(** A family vtable.  [vt_slots] are the function pointers that are not null;
    [capabilities] gets whether [create] gave an instance, and
    [get_manifest] is called on one. *)
Record Vtable := mkVtable {
  protocol_version : Z;
  struct_size : Z;
  vt_slots : gset string;
  manifest_json : option string;
  vt_create : bool;
  vt_capabilities : bool -> Z;
  vt_get_manifest : option string
}.

(** The symbols: what [dlsym] answers, and what the entry point then returns
    ([None] is a null pointer). *)
Record Dso := mkDso {
  pj_plugin_abi_version : Expected (option Z);
  PJ_get_data_source_vtable : Expected (option Vtable);
  PJ_get_message_parser_vtable : Expected (option Vtable);
  PJ_get_toolbox_vtable : Expected (option Vtable);
  PJ_get_dialog_vtable : Expected (option Vtable)
}.

(** ** Constants

    The minimal sizes are the offset of the last slot of version 4.0 and the
    size of that slot, with pointers of 8 bytes. *)

Definition PJ_ABI_VERSION : Z := 5.
Definition PJ_DATA_SOURCE_PROTOCOL_VERSION : Z := 4.
Definition PJ_MESSAGE_PARSER_PROTOCOL_VERSION : Z := 4.
Definition PJ_TOOLBOX_PLUGIN_PROTOCOL_VERSION : Z := 4.
Definition PJ_DIALOG_PROTOCOL_VERSION : Z := 4.
Definition PJ_DATA_SOURCE_MIN_VTABLE_SIZE : Z := 8 + 14 * 8 + 8.
Definition PJ_MESSAGE_PARSER_MIN_VTABLE_SIZE : Z := 8 + 8 * 8 + 8.
Definition PJ_TOOLBOX_MIN_VTABLE_SIZE : Z := 8 + 9 * 8 + 8.
Definition PJ_DIALOG_MIN_VTABLE_SIZE : Z := 8 + 10 * 8 + 8.

(** The dialog vtable ends with [manifest_json], a later addition. *)
Definition dialog_manifest_end : Z := PJ_DIALOG_MIN_VTABLE_SIZE + 8.

(** ** Validation *)

Definition checkPluginAbiVersion (lib : Dso) : Expected unit :=
  match pj_plugin_abi_version lib with
  | Err e => Err ("plugin missing pj_plugin_abi_version symbol: " +:+ e)
  | Ok plugin_abi =>
      if decide (plugin_abi = Some PJ_ABI_VERSION) then Ok ()
      else
        let actual := match plugin_abi with None => "null" | Some v => pretty v end in
        Err ("plugin pj_plugin_abi_version mismatch (expected " +:+ pretty PJ_ABI_VERSION +:+ ", got "
             +:+ actual +:+ ")")
  end.

(** [vtable->name != nullptr] *)
Definition slot_present (vt : Vtable) (name : string) : bool :=
  if decide (name = "manifest_json") then bool_decide (is_Some (manifest_json vt))
  else bool_decide (name ∈ vt_slots vt).

Definition validateSlots (family : string) (slots : list string) (vt : Vtable) : Expected unit :=
  match list_find (fun name => slot_present vt name = false) slots with
  | Some (_, name) => Err (family +:+ " vtable missing required slot: " +:+ name)
  | None => Ok ()
  end.

Definition data_source_slots : list string :=
  ["create"; "destroy"; "manifest_json"; "capabilities"; "bind"; "save_config"; "load_config"; "start";
   "stop"; "pause"; "resume"; "poll"; "current_state"; "get_dialog"; "get_plugin_extension"].
Definition message_parser_slots : list string :=
  ["create"; "destroy"; "manifest_json"; "bind"; "bind_schema"; "save_config"; "load_config"; "parse";
   "get_plugin_extension"].
Definition toolbox_slots : list string :=
  ["create"; "destroy"; "manifest_json"; "capabilities"; "bind"; "save_config"; "load_config"; "get_dialog";
   "on_data_changed"; "get_plugin_extension"].
Definition dialog_slots : list string :=
  ["create"; "destroy"; "get_manifest"; "get_ui_content"; "get_widget_data"; "on_widget_event"; "on_tick";
   "on_accepted"; "on_rejected"; "save_config"; "load_config"].

(** The sequence every loader and every probe runs on a family: symbol, entry
    point, protocol version, size, slots. *)
Definition resolve_vtable (sym : Expected (option Vtable)) (symbol family : string)
    (expected_protocol min_vtable_size : Z) (slots : list string) : Expected Vtable :=
  match sym with
  | Err e => Err e
  | Ok None => Err (symbol +:+ " returned null")
  | Ok (Some vt) =>
      if decide (protocol_version vt <> expected_protocol) then Err (family +:+ " protocol version mismatch")
      else if decide (struct_size vt < min_vtable_size) then
        Err (family +:+ " vtable smaller than v4.0 baseline")
      else
        match validateSlots family slots vt with
        | Err e => Err e
        | Ok _ => Ok vt
        end
  end.

Definition resolve_data_source (lib : Dso) : Expected Vtable :=
  resolve_vtable (PJ_get_data_source_vtable lib) "PJ_get_data_source_vtable" "DataSource"
    PJ_DATA_SOURCE_PROTOCOL_VERSION PJ_DATA_SOURCE_MIN_VTABLE_SIZE data_source_slots.
Definition resolve_message_parser (lib : Dso) : Expected Vtable :=
  resolve_vtable (PJ_get_message_parser_vtable lib) "PJ_get_message_parser_vtable" "MessageParser"
    PJ_MESSAGE_PARSER_PROTOCOL_VERSION PJ_MESSAGE_PARSER_MIN_VTABLE_SIZE message_parser_slots.
Definition resolve_toolbox (lib : Dso) : Expected Vtable :=
  resolve_vtable (PJ_get_toolbox_vtable lib) "PJ_get_toolbox_vtable" "Toolbox"
    PJ_TOOLBOX_PLUGIN_PROTOCOL_VERSION PJ_TOOLBOX_MIN_VTABLE_SIZE toolbox_slots.
(** [resolveDialogVtable] of the three libraries, and the probe of a dialog. *)
Definition resolveDialogVtable (lib : Dso) : Expected Vtable :=
  resolve_vtable (PJ_get_dialog_vtable lib) "PJ_get_dialog_vtable" "Dialog"
    PJ_DIALOG_PROTOCOL_VERSION PJ_DIALOG_MIN_VTABLE_SIZE dialog_slots.

(** ** The libraries *)

(** [DataSourceLibrary], [MessageParserLibrary], [ToolboxLibrary] and
    [DialogLibrary]: the handle, the vtable of the family, and the path. *)
Record Library := mkLibrary { lib_handle : Dso; lib_vtable : Vtable; lib_path : string }.

Section Load.
(** [dlopen]: the library at a path, or the message of [dlerror]. *)
Context (loadLibraryHandle : string -> Expected Dso).

Definition load_library (resolve : Dso -> Expected Vtable) (path : string) : Expected Library :=
  match loadLibraryHandle path with
  | Err e => Err e
  | Ok handle =>
      match checkPluginAbiVersion handle with
      | Err e => Err e
      | Ok _ =>
          match resolve handle with
          | Err e => Err e
          | Ok vt => Ok (mkLibrary handle vt path)
          end
      end
  end.

Definition DataSourceLibrary_load := load_library resolve_data_source.
Definition MessageParserLibrary_load := load_library resolve_message_parser.
Definition ToolboxLibrary_load := load_library resolve_toolbox.
Definition DialogLibrary_load := load_library resolveDialogVtable.
End Load.

(** [createHandle().capabilities()] *)
Definition handle_capabilities (lib : Library) : Z :=
  vt_capabilities (lib_vtable lib) (vt_create (lib_vtable lib)).

(** ** Lemmas *)

Lemma validateSlots_spec family slots vt :
  validateSlots family slots vt = Ok () <-> Forall (fun name => slot_present vt name = true) slots.
Proof.
  unfold validateSlots. destruct (list_find _ slots) as [[i name]|] eqn:E.
  - apply list_find_Some in E as (Hi & Hp & _). split; [done|]. rewrite Forall_lookup. intros H.
    apply H in Hi. congruence.
  - apply list_find_None in E. split; [|done]. intros _. eapply Forall_impl; [exact E|].
    intros x Hx. cbn beta in Hx. by destruct (slot_present vt x).
Qed.

(** A vtable a loader hands out has the version it knows, is no smaller than
    the slots it was checked for, and has all of them. *)
Definition vtable_ok (expected_protocol min_vtable_size : Z) (slots : list string) (vt : Vtable) : Prop :=
  protocol_version vt = expected_protocol /\ min_vtable_size <= struct_size vt
  /\ Forall (fun name => slot_present vt name = true) slots.

Lemma resolve_vtable_spec sym symbol family proto size slots vt :
  resolve_vtable sym symbol family proto size slots = Ok vt
  <-> sym = Ok (Some vt) /\ vtable_ok proto size slots vt.
Proof.
  unfold resolve_vtable, vtable_ok. destruct sym as [[vt'|]|e]; [|by split; [|intros [? _]]..].
  destruct (decide _) as [Hp|Hp]; [split; [done|intros ([= ->] & ? & _); done]|].
  destruct (decide _) as [Hs|Hs]; [split; [done|intros ([= ->] & ? & ? & _); lia]|].
  destruct (validateSlots family slots vt') as [[]|e] eqn:Ev.
  - apply validateSlots_spec in Ev. split; [|by intros ([= ->] & _)]. intros [= ->].
    repeat split; [|lia|exact Ev]. destruct (decide (protocol_version vt = proto)); [done|tauto].
  - split; [done|]. intros ([= ->] & _ & _ & H). apply (validateSlots_spec family) in H. congruence.
Qed.

Lemma checkPluginAbiVersion_spec lib :
  checkPluginAbiVersion lib = Ok () <-> pj_plugin_abi_version lib = Ok (Some PJ_ABI_VERSION).
Proof.
  unfold checkPluginAbiVersion. destruct (pj_plugin_abi_version lib) as [o|e]; [|done].
  destruct (decide (o = Some PJ_ABI_VERSION)) as [->|H]; [done|]. split; [done|]. intros [= ->]. done.
Qed.

Lemma load_library_spec loadLibraryHandle resolve path lib :
  load_library loadLibraryHandle resolve path = Ok lib <->
  loadLibraryHandle path = Ok (lib_handle lib) /\ checkPluginAbiVersion (lib_handle lib) = Ok ()
  /\ resolve (lib_handle lib) = Ok (lib_vtable lib) /\ lib_path lib = path.
Proof.
  unfold load_library. destruct lib as [h vt p]; cbn.
  destruct (loadLibraryHandle path) as [h'|e]; [|by split; [|intros (? & _)]].
  destruct (checkPluginAbiVersion h') as [[]|e] eqn:Ha.
  - destruct (resolve h') as [vt'|e] eqn:Hr.
    + split; [by intros [= -> -> ->]|]. intros ([= ->] & _ & Hr' & ->). congruence.
    + split; [done|]. intros ([= ->] & _ & Hr' & _). congruence.
  - split; [done|]. intros ([= ->] & Ha' & _). congruence.
Qed.
