(* ===== verification/PluginCatalog.v ===== *)
(** * PluginCatalog: the plugins in a directory

    Models [src/pj_plugins/src/plugin_catalog.cpp]: the manifest a library
    carries, its decoding, and the walk over a directory.  The file system is
    the record [FileSystem]; manifests are text of which [Json.JsonText] says
    what they parse to. *)

From Stdlib Require Import Ascii.
From S2P Require Import Prelude Float64 Json PluginDso.

(** ** Paths

    [std::filesystem::path] on POSIX: the elements between the slashes, by which
    paths are ordered, and the extension of the last one. *)

Fixpoint split_slash (s : string) : string * list string :=
  match s with
  | EmptyString => ("", [])
  | String c r =>
      let '(first, others) := split_slash r in
      if decide (c = "/"%char) then ("", first :: others) else (String c first, others)
  end.
Definition elements (path : string) : list string :=
  let '(first, others) := split_slash path in filter (.≠ "") (first :: others).
Definition filename (path : string) : string :=
  let '(first, others) := split_slash path in default first (last others).

(** What follows the last dot, with the dot. *)
Fixpoint last_dot (s : string) : option string :=
  match s with
  | EmptyString => None
  | String c r =>
      match last_dot r with
      | Some ext => Some ext
      | None => if decide (c = "."%char) then Some s else None
      end
  end.
Definition extension (path : string) : string :=
  let name := filename path in
  if decide (name = "..") then ""
  else match name with
       | EmptyString => ""
       | String _ r => default "" (last_dot r)
       end.

Fixpoint elements_leb (a b : list string) : bool :=
  match a, b with
  | [], _ => true
  | _ :: _, [] => false
  | x :: a, y :: b => match String.compare x y with Lt => true | Gt => false | Eq => elements_leb a b end
  end.
Definition path_le (a b : string) : Prop := elements_leb (elements a) (elements b) = true.
#[export] Instance path_le_dec a b : Decision (path_le a b).
Proof. unfold path_le. apply _. Defined.

Definition kDsoSuffix : string := ".so".
Definition hasDsoSuffix (path : string) : bool := bool_decide (extension path = kDsoSuffix).

(** ** Data *)

Inductive PluginFamily := kUnknown | kDataSource | kMessageParser | kToolbox | kDialog.
#[export] Instance PluginFamily_eq_dec : EqDecision PluginFamily.
Proof. solve_decision. Defined.

Definition toString (family : PluginFamily) : string :=
  match family with
  | kDataSource => "data_source"
  | kMessageParser => "message_parser"
  | kToolbox => "toolbox"
  | kDialog => "dialog"
  | kUnknown => "unknown"
  end.

Record PluginDescriptor := mkDescriptor {
  dso_path : string;
  abi_major : Z;
  family : PluginFamily;
  pd_id : string;
  pd_name : string;
  pd_version : string;
  description : string;
  category : string;
  encoding : list string;
  pd_file_extensions : list string;
  pd_capabilities : list string
}.

Record PluginDiagnostic := mkPluginDiagnostic { pdg_path : string; pdg_message : string }.
Record PluginScanResult := mkScan { plugins : list PluginDescriptor; diagnostics : list PluginDiagnostic }.
Record ManifestCandidate := mkCandidate { mc_family : PluginFamily; mc_manifest_json : string }.

(** One entry of a directory and what lies below it: whether it is a regular
    file, or why that is unknown, and what goes wrong in going on. *)
Record DirEntry := mkEntry {
  de_path : string; is_regular_file : Expected bool; increment_error : option string }.

(** The system: [exists] and [is_directory] (false on an error), the walk of a
    recursive iterator from its construction on, [dlopen],
    [weakly_canonical] and [last_write_time] ([None] is an error). *)
Record FileSystem := mkFileSystem {
  fs_exists : string -> bool;
  fs_is_directory : string -> bool;
  recursive_directory_iterator : string -> Expected (list DirEntry);
  dlopen : string -> Expected Dso;
  weakly_canonical : string -> option string;
  last_write_time : string -> option Z
}.

(** ** Manifests *)

(** [probeDirectVtable], whose checks are those of the loaders. *)
Definition probeDirectVtable (f : PluginFamily) (resolved : Expected Vtable) : Expected ManifestCandidate :=
  vt ← resolved; Ok (mkCandidate f (default "" (manifest_json vt))).
Definition tryDataSource (lib : Dso) := probeDirectVtable kDataSource (resolve_data_source lib).
Definition tryMessageParser (lib : Dso) := probeDirectVtable kMessageParser (resolve_message_parser lib).
Definition tryToolbox (lib : Dso) := probeDirectVtable kToolbox (resolve_toolbox lib).

(** The manifest slot of a dialog is read if the vtable is long enough to have
    it; otherwise an instance is asked. *)
Definition tryDialog (lib : Dso) : Expected ManifestCandidate :=
  vt ← resolveDialogVtable lib;
  match (if decide (dialog_manifest_end <= struct_size vt) then manifest_json vt else None) with
  | Some manifest => Ok (mkCandidate kDialog manifest)
  | None =>
      if vt_create vt then Ok (mkCandidate kDialog (default "" (vt_get_manifest vt)))
      else Err "PJ_dialog_vtable_t::create returned null"
  end.

Definition findEmbeddedManifest (lib : Dso) : Expected ManifestCandidate :=
  match tryDataSource lib with
  | Ok candidate => Ok candidate
  | Err e1 =>
  match tryMessageParser lib with
  | Ok candidate => Ok candidate
  | Err e2 =>
  match tryToolbox lib with
  | Ok candidate => Ok candidate
  | Err e3 =>
  match tryDialog lib with
  | Ok candidate => Ok candidate
  | Err e4 =>
      Err ("no supported plugin vtable found; data_source: " +:+ e1 +:+ "; message_parser: " +:+ e2
           +:+ "; toolbox: " +:+ e3 +:+ "; dialog: " +:+ e4)
  end end end end.

Fixpoint read_strings (key : string) (elements : list json) : Expected (list string) :=
  match elements with
  | [] => Ok []
  | value :: rest =>
      match as_string value with
      | None => Err ("plugin embedded manifest key contains a non-string value: " +:+ key)
      | Some s => others ← read_strings key rest; Ok (s :: others)
      end
  end.

Definition readStringArray (j : json) (key : string) : Expected (list string) :=
  match obj_find j key with
  | None => Ok []
  | Some it =>
      match as_array it with
      | None => Err ("plugin embedded manifest key must be an array of strings: " +:+ key)
      | Some values => read_strings key values
      end
  end.

Definition requiredString (j : json) (key : string) : Expected string :=
  match obj_find j key ≫= as_string with
  | Some (String c r) => Ok (String c r)
  | _ => Err ("plugin embedded manifest missing required string key: " +:+ key)
  end.

Definition optionalString (j : json) (key : string) : Expected string :=
  match obj_find j key with
  | None => Ok ""
  | Some it =>
      match as_string it with
      | None => Err ("plugin embedded manifest key must be a string: " +:+ key)
      | Some s => Ok s
      end
  end.

Section Manifest.
Context `{JsonText string}.
(** The message of the exception of [parse]. *)
Context (what : string -> string).

Definition decodeManifest (path : string) (f : PluginFamily) (manifest_json : string)
    : Expected PluginDescriptor :=
  if decide (manifest_json = "") then Err "plugin embedded manifest is empty" else
  match json_parse manifest_json with
  | None => Err ("plugin embedded manifest is invalid JSON: " +:+ what manifest_json)
  | Some j =>
      if negb (is_object j) then Err "plugin embedded manifest must be a JSON object" else
      id ← requiredString j "id";
      name ← requiredString j "name";
      version ← requiredString j "version";
      description ← optionalString j "description";
      category ← optionalString j "category";
      file_extensions ← readStringArray j "file_extensions";
      capabilities ← readStringArray j "capabilities";
      encoding ← readStringArray j "encoding";
      if decide (f = kMessageParser /\ encoding = [])
      then Err "plugin embedded manifest missing required encoding array"
      else Ok (mkDescriptor path PJ_ABI_VERSION f id name version description category encoding
                 file_extensions capabilities)
  end.

(** ** Inspection *)

Section Inspect.
Context (fs : FileSystem).

Definition inspectPluginDso (path : string) : Expected PluginDescriptor :=
  if negb (hasDsoSuffix path) then Err ("not a platform plugin DSO: " +:+ path) else
  let withPath {A} (e : Expected A) : Expected A :=
    match e with Ok a => Ok a | Err error => Err (path +:+ ": " +:+ error) end in
  lib ← withPath (dlopen fs path);
  _ ← withPath (checkPluginAbiVersion lib);
  candidate ← withPath (findEmbeddedManifest lib);
  withPath (decodeManifest path (mc_family candidate) (mc_manifest_json candidate)).

Definition add_plugin (d : PluginDescriptor) (r : PluginScanResult) : PluginScanResult :=
  mkScan (plugins r ++ [d]) (diagnostics r).
Definition add_diagnostic (path message : string) (r : PluginScanResult) : PluginScanResult :=
  mkScan (plugins r) (diagnostics r ++ [mkPluginDiagnostic path message]).

Definition visit (entry : DirEntry) (r : PluginScanResult) : PluginScanResult :=
  match is_regular_file entry with
  | Err message => add_diagnostic (de_path entry) ("stat failed: " +:+ message) r
  | Ok is_file =>
      if is_file && hasDsoSuffix (de_path entry) then
        match inspectPluginDso (de_path entry) with
        | Ok d => add_plugin d r
        | Err error => add_diagnostic (de_path entry) error r
        end
      else r
  end.

(** An iterator that reports an error becomes the end iterator, on which
    [pop()] is not allowed: after its diagnostic the walk is undefined. *)
Fixpoint scan_loop (entries : list DirEntry) (r : PluginScanResult) : option PluginScanResult :=
  match entries with
  | [] => Some r
  | entry :: rest =>
      match increment_error entry with
      | Some _ => None
      | None => scan_loop rest (visit entry r)
      end
  end.

Definition by_dso_path (a b : PluginDescriptor) : Prop := path_le (dso_path a) (dso_path b).
Definition by_path (a b : PluginDiagnostic) : Prop := path_le (pdg_path a) (pdg_path b).
#[export] Instance by_dso_path_dec a b : Decision (by_dso_path a b).
Proof. unfold by_dso_path. apply _. Defined.
#[export] Instance by_path_dec a b : Decision (by_path a b).
Proof. unfold by_path. apply _. Defined.

(** [std::sort] gives the one sorted order, for the paths of a walk differ. *)
Definition scanPluginDsos (directory : string) : option (Expected PluginScanResult) :=
  if negb (fs_exists fs directory) then Some (Err ("plugin directory not found: " +:+ directory))
  else if negb (fs_is_directory fs directory) then
    Some (Err ("plugin path is not a directory: " +:+ directory))
  else
    match recursive_directory_iterator fs directory with
    | Err message =>
        Some (Ok (mkScan [] [mkPluginDiagnostic directory ("directory iteration failed: " +:+ message)]))
    | Ok entries =>
        result ← scan_loop entries (mkScan [] []);
        Some (Ok (mkScan (merge_sort by_dso_path (plugins result)) (merge_sort by_path (diagnostics result))))
    end.

End Inspect.
End Manifest.

(** ** What the scan promises *)

(** The facts about a descriptor every later stage relies on. *)
Record descriptor_ok (d : PluginDescriptor) : Prop := {
  dk_abi : abi_major d = PJ_ABI_VERSION;
  dk_id : pd_id d <> "";
  dk_name : pd_name d <> "";
  dk_version : pd_version d <> "";
  dk_encoding : family d = kMessageParser -> encoding d <> [];
  dk_suffix : hasDsoSuffix (dso_path d) = true
}.

Lemma requiredString_ok j key s : requiredString j key = Ok s -> s <> "".
Proof.
  unfold requiredString. destruct (obj_find j key ≫= as_string) as [[|c r]|]; [done| |done]. by intros [= <-].
Qed.

(** Takes a chain of binds that succeeded apart. *)
Ltac bind_inv H := repeat (apply bind_Ok in H as (? & ? & H)).

Section ScanFacts.
Context `{JsonText string} (what : string -> string) (fs : FileSystem).

Lemma decodeManifest_ok path f m d : decodeManifest what path f m = Ok d ->
  dso_path d = path /\ family d = f /\ (hasDsoSuffix path = true -> descriptor_ok d).
Proof.
  unfold decodeManifest. case_decide; [done|]. destruct (json_parse m) as [j|]; [|done].
  destruct (negb (is_object j)); [done|].
  intros Hd. bind_inv Hd.
  case_decide as Henc; [done|]. injection Hd as <-. split; [done|]. split; [done|]. intros Hs.
  split; cbn; try (eapply requiredString_ok; eassumption); try done.
  intros -> ->. by apply Henc.
Qed.

(** Which vtable a candidate comes from. *)
Definition provides (f : PluginFamily) (lib : Dso) : Prop :=
  match f with
  | kDataSource => exists vt, resolve_data_source lib = Ok vt
  | kMessageParser => exists vt, resolve_message_parser lib = Ok vt
  | kToolbox => exists vt, resolve_toolbox lib = Ok vt
  | kDialog => exists vt, resolveDialogVtable lib = Ok vt
  | kUnknown => False
  end.

Lemma probe_provides f r c : probeDirectVtable f r = Ok c ->
  mc_family c = f /\ exists vt, r = Ok vt.
Proof. intros (vt & Hr & [= <-])%bind_Ok. eauto. Qed.

Lemma findEmbeddedManifest_provides lib c :
  findEmbeddedManifest lib = Ok c -> provides (mc_family c) lib.
Proof.
  unfold findEmbeddedManifest.
  destruct (tryDataSource lib) as [c1|e1] eqn:H1; [|destruct (tryMessageParser lib) as [c2|e2] eqn:H2;
    [|destruct (tryToolbox lib) as [c3|e3] eqn:H3; [|destruct (tryDialog lib) as [c4|e4] eqn:H4; [|done]]]];
    intros [= ->].
  - by apply (probe_provides) in H1 as [-> ?].
  - by apply (probe_provides) in H2 as [-> ?].
  - by apply (probe_provides) in H3 as [-> ?].
  - apply bind_Ok in H4 as (vt & Hvt & Hc). assert (mc_family c = kDialog) as ->; [|by exists vt].
    destruct (if decide _ then _ else _); [by injection Hc as <-|]. destruct (vt_create vt); [|done].
    by injection Hc as <-.
Qed.

(** A descriptor is about a library the loader of its family accepts. *)
Lemma inspect_ok path d : inspectPluginDso what fs path = Ok d ->
  dso_path d = path /\ descriptor_ok d /\
  exists lib, dlopen fs path = Ok lib /\ checkPluginAbiVersion lib = Ok () /\ provides (family d) lib.
Proof.
  unfold inspectPluginDso. destruct (hasDsoSuffix path) eqn:Hs; [|done]. cbn [negb].
  destruct (dlopen fs path) as [lib|]; [|done]. intros (? & [= <-] & Hd)%bind_Ok.
  destruct (checkPluginAbiVersion lib) as [[]|] eqn:Ha; [|done]. apply bind_Ok in Hd as (? & _ & Hd).
  destruct (findEmbeddedManifest lib) as [c|] eqn:Hf; [|done]. apply bind_Ok in Hd as (? & [= <-] & Hd).
  destruct (decodeManifest _ _ _ _) as [d'|] eqn:Hdec; [|done]. injection Hd as ->.
  apply decodeManifest_ok in Hdec as (Hp & Hfam & Hok). apply findEmbeddedManifest_provides in Hf.
  split; [done|]. split; [by apply Hok|]. exists lib. by rewrite Hfam.
Qed.

(** What an entry contributes. *)
Definition found (entry : DirEntry) : option PluginDescriptor :=
  match is_regular_file entry with
  | Ok true =>
      if hasDsoSuffix (de_path entry) then
        match inspectPluginDso what fs (de_path entry) with Ok d => Some d | Err _ => None end
      else None
  | _ => None
  end.

Lemma visit_plugins e r :
  plugins (visit what fs e r) = plugins r ++ match found e with Some d => [d] | None => [] end.
Proof.
  unfold visit, found.
  destruct (is_regular_file e) as [[|]|]; cbn [andb add_diagnostic plugins]; [|by rewrite app_nil_r..].
  destruct (hasDsoSuffix (de_path e)); [|by rewrite app_nil_r].
  destruct (inspectPluginDso _ _ _); [done|by rewrite app_nil_r].
Qed.

Lemma scan_loop_plugins entries r r' : scan_loop what fs entries r = Some r' ->
  plugins r' = plugins r ++ omap found entries.
Proof.
  revert r. induction entries as [|e es IH]; intros r; cbn [scan_loop].
  - intros [= ->]. by rewrite app_nil_r.
  - destruct (increment_error e); [done|]. intros ->%IH. rewrite visit_plugins, <- app_assoc. f_equal. simpl.
    by destruct (found e).
Qed.

Lemma scan_plugins directory r d : scanPluginDsos what fs directory = Some (Ok r) -> d ∈ plugins r ->
  inspectPluginDso what fs (dso_path d) = Ok d.
Proof.
  unfold scanPluginDsos. destruct (negb (fs_exists _ _)); [done|]. destruct (negb (fs_is_directory _ _)); [done|].
  destruct (recursive_directory_iterator fs directory) as [entries|msg]; [|intros [= <-]; set_solver].
  destruct (scan_loop _ _ _ _) as [res|] eqn:Hloop; [|done]. intros [= <-]. cbn [plugins].
  rewrite merge_sort_Permutation, (scan_loop_plugins _ _ _ Hloop). cbn [plugins app].
  intros (e & _ & He)%list_elem_of_omap. unfold found in He.
  destruct (is_regular_file e) as [[|]|]; [|done..]. destruct (hasDsoSuffix _); [|done].
  destruct (inspectPluginDso what fs (de_path e)) as [d'|] eqn:Hi; [|done]. injection He as ->.
  by destruct (inspect_ok _ _ Hi) as [-> _].
Qed.

(** The libraries of a descriptor in the loaders of its family. *)
Lemma inspect_loads path d : inspectPluginDso what fs path = Ok d ->
  match family d with
  | kDataSource => exists lib, DataSourceLibrary_load (dlopen fs) path = Ok lib
  | kMessageParser => exists lib, MessageParserLibrary_load (dlopen fs) path = Ok lib
  | kToolbox => exists lib, ToolboxLibrary_load (dlopen fs) path = Ok lib
  | kDialog => exists lib, DialogLibrary_load (dlopen fs) path = Ok lib
  | kUnknown => False
  end.
Proof.
  intros (_ & _ & lib & Hlib & Ha & Hp)%inspect_ok.
  destruct (family d); cbn in Hp; [done|..]; destruct Hp as [vt Hvt]; exists (mkLibrary lib vt path);
    apply load_library_spec; done.
Qed.
End ScanFacts.
