(* ===== verification/RuntimeCatalog.v ===== *)
(** * RuntimeCatalog: the plugins an application has loaded

    Models [PluginRuntimeCatalog] of
    [src/pj_plugins/src/plugin_runtime_catalog.cpp]: what a scan loads, how a
    reload reconciles the loaded plugins with the files on disk, and the
    look-ups.  The three vectors hold plugins of one record here, of which each
    family uses its fields.  The sink of diagnostics is the log of its calls. *)

From Stdlib Require Import Ascii.
From S2P Require Import Prelude Float64 Json PluginDso PluginCatalog.

(** ** Data *)

Record RuntimePlugin := mkPlugin {
  library : Library;
  rp_path : string;
  rp_name : string;
  rp_id : string;
  rp_version : string;
  file_extensions : list string;
  encodings : list string;
  capabilities : Z;
  loaded_mtime : Z
}.

Inductive DiagnosticLevel := kInfo | kWarning | kError.
Record Diagnostic := mkDiagnostic {
  dg_level : DiagnosticLevel; dg_source : string; dg_id : string; dg_message : string }.

Record PluginRuntimeCatalog := mkCatalog {
  plugin_dir : string;
  has_sink : bool;
  diagnostic_source : string;
  data_sources : list RuntimePlugin;
  message_parsers : list RuntimePlugin;
  toolbox_plugins : list RuntimePlugin;
  sink_log : list Diagnostic
}.

(** The vectors, by their family. *)
Definition with_vectors (c : PluginRuntimeCatalog) (ds mp tb : list RuntimePlugin) : PluginRuntimeCatalog :=
  mkCatalog (plugin_dir c) (has_sink c) (diagnostic_source c) ds mp tb (sink_log c).
Definition with_log (c : PluginRuntimeCatalog) (log : list Diagnostic) : PluginRuntimeCatalog :=
  mkCatalog (plugin_dir c) (has_sink c) (diagnostic_source c) (data_sources c) (message_parsers c)
    (toolbox_plugins c) log.

Definition PJ_DATA_SOURCE_CAPABILITY_FINITE_IMPORT : Z := 1.
Definition PJ_DATA_SOURCE_CAPABILITY_CONTINUOUS_STREAM : Z := 2.
Definition PJ_DATA_SOURCE_CAPABILITY_HAS_DIALOG : Z := 32.
Definition PJ_TOOLBOX_CAPABILITY_HAS_DIALOG : Z := 1.

Definition quote : string := String (ascii_of_nat 34) EmptyString.

Definition has_capability (caps capability : Z) : bool := bool_decide (Z.land caps capability <> 0).

Definition normalizeExtension (ext : string) : string :=
  match ext with
  | EmptyString => ext
  | String c _ => if decide (c = "."%char) then ext else String "." ext
  end.

Definition report (level : DiagnosticLevel) (id message : string) (c : PluginRuntimeCatalog)
    : PluginRuntimeCatalog :=
  if has_sink c then with_log c (sink_log c ++ [mkDiagnostic level (diagnostic_source c) id message]) else c.

Definition reportScanDiagnostics (scan : PluginScanResult) (c : PluginRuntimeCatalog) : PluginRuntimeCatalog :=
  foldl (fun c d => report kError "" (pdg_path d +:+ ": " +:+ pdg_message d) c) c (diagnostics scan).

Definition make (dir : string) (sink : bool) (source : string) : PluginRuntimeCatalog :=
  mkCatalog dir sink source [] [] [] [].
Definition setPluginDir (dir : string) (c : PluginRuntimeCatalog) : PluginRuntimeCatalog :=
  mkCatalog dir (has_sink c) (diagnostic_source c) (data_sources c) (message_parsers c) (toolbox_plugins c)
    (sink_log c).
Definition setDiagnosticSink (sink : bool) (c : PluginRuntimeCatalog) : PluginRuntimeCatalog :=
  mkCatalog (plugin_dir c) sink (diagnostic_source c) (data_sources c) (message_parsers c) (toolbox_plugins c)
    (sink_log c).

(** ** Operations *)

Section Operations.
Context `{JsonText string} (what : string -> string).
(** The disk during one call. *)
Context (fs : FileSystem).

Definition canonicalPath (path : string) : string := default path (weakly_canonical fs path).
(** The default [file_time_type] stands for an unknown time. *)
Definition safeMtime (path : string) : Z := default 0 (last_write_time fs path).

Definition loadAndRegisterDataSource (d : PluginDescriptor) (c : PluginRuntimeCatalog)
    : bool * PluginRuntimeCatalog :=
  match DataSourceLibrary_load (dlopen fs) (dso_path d) with
  | Err e => (false, report kError (pd_id d) (dso_path d +:+ ": " +:+ e) c)
  | Ok lib =>
      let loaded := mkPlugin lib (canonicalPath (dso_path d)) (pd_name d) (pd_id d) (pd_version d)
        (map normalizeExtension (pd_file_extensions d)) [] (handle_capabilities lib) (safeMtime (dso_path d)) in
      let register c :=
        let c := report kInfo (rp_id loaded)
          ("Loaded DataSource " +:+ rp_name loaded +:+ " from " +:+ rp_path loaded) c in
        (true, with_vectors c (data_sources c ++ [loaded]) (message_parsers c) (toolbox_plugins c)) in
      if has_capability (capabilities loaded) PJ_DATA_SOURCE_CAPABILITY_HAS_DIALOG then
        match resolveDialogVtable (lib_handle lib) with
        | Err e => (false, report kError (pd_id d)
            (dso_path d +:+ ": advertises kCapabilityHasDialog but " +:+ e) c)
        | Ok _ => register c
        end
      else register c
  end.

Definition loadAndRegisterMessageParser (d : PluginDescriptor) (c : PluginRuntimeCatalog)
    : bool * PluginRuntimeCatalog :=
  match MessageParserLibrary_load (dlopen fs) (dso_path d) with
  | Err e => (false, report kError (pd_id d) (dso_path d +:+ ": " +:+ e) c)
  | Ok lib =>
      let loaded := mkPlugin lib (canonicalPath (dso_path d)) (pd_name d) (pd_id d) (pd_version d)
        [] (encoding d) 0 (safeMtime (dso_path d)) in
      let c := report kInfo (rp_id loaded)
        ("Loaded MessageParser " +:+ rp_name loaded +:+ " from " +:+ rp_path loaded) c in
      (true, with_vectors c (data_sources c) (message_parsers c ++ [loaded]) (toolbox_plugins c))
  end.

Definition loadAndRegisterToolbox (d : PluginDescriptor) (c : PluginRuntimeCatalog)
    : bool * PluginRuntimeCatalog :=
  match ToolboxLibrary_load (dlopen fs) (dso_path d) with
  | Err e => (false, report kError (pd_id d) (dso_path d +:+ ": " +:+ e) c)
  | Ok lib =>
      let loaded := mkPlugin lib (canonicalPath (dso_path d)) (pd_name d) (pd_id d) (pd_version d)
        [] [] (handle_capabilities lib) (safeMtime (dso_path d)) in
      let register c :=
        let c := report kInfo (rp_id loaded)
          ("Loaded Toolbox " +:+ rp_name loaded +:+ " from " +:+ rp_path loaded) c in
        (true, with_vectors c (data_sources c) (message_parsers c) (toolbox_plugins c ++ [loaded])) in
      if has_capability (capabilities loaded) PJ_TOOLBOX_CAPABILITY_HAS_DIALOG then
        match resolveDialogVtable (lib_handle lib) with
        | Err e => (false, report kError (pd_id d)
            (dso_path d +:+ ": advertises kToolboxCapabilityHasDialog but " +:+ e) c)
        | Ok _ => register c
        end
      else register c
  end.

Definition loadAndRegister (d : PluginDescriptor) (c : PluginRuntimeCatalog) : bool * PluginRuntimeCatalog :=
  match family d with
  | kDataSource => loadAndRegisterDataSource d c
  | kMessageParser => loadAndRegisterMessageParser d c
  | kToolbox => loadAndRegisterToolbox d c
  | kDialog =>
      (false, report kWarning (pd_id d)
        (dso_path d +:+ ": standalone dialog plugin " +:+ quote +:+ pd_name d +:+ quote
         +:+ " discovered; dialogs are loaded through owning plugins") c)
  | kUnknown => (false, c)
  end.

Definition failed_to_load (d : PluginDescriptor) (c : PluginRuntimeCatalog) : PluginRuntimeCatalog :=
  report kError (pd_id d) (dso_path d +:+ ": failed to load " +:+ toString (family d) +:+ " plugin") c.

Definition scan_step (c : PluginRuntimeCatalog) (d : PluginDescriptor) : PluginRuntimeCatalog :=
  let '(loaded, c) := loadAndRegister d c in if loaded then c else failed_to_load d c.

(** [None] where the scan is undefined. *)
Definition scanDirectory (c : PluginRuntimeCatalog) : option PluginRuntimeCatalog :=
  let c := with_vectors c [] [] [] in
  scan ← scanPluginDsos what fs (plugin_dir c);
  match scan with
  | Err e => Some (report kError "" e c)
  | Ok scan => Some (foldl scan_step (reportScanDiagnostics scan c) (plugins scan))
  end.

(** [std::erase_if] with a report for what goes; and whether anything went. *)
Definition drop_missing (on_disk : list string) (family : string) (vec : list RuntimePlugin)
    (c : PluginRuntimeCatalog) : list RuntimePlugin * bool * PluginRuntimeCatalog :=
  let kept := filter (fun p => rp_path p ∈ on_disk) vec in
  let c := foldl (fun c p => if decide (rp_path p ∈ on_disk) then c
      else report kInfo (rp_id p) ("Unloaded " +:+ family +:+ ": " +:+ rp_path p) c) c vec in
  (kept, bool_decide (length kept <> length vec), c).

Definition drop_all_missing (on_disk : list string) (c : PluginRuntimeCatalog) : bool * PluginRuntimeCatalog :=
  let '(ds, changed1, c) := drop_missing on_disk "DataSource" (data_sources c) c in
  let '(mp, changed2, c) := drop_missing on_disk "MessageParser" (message_parsers c) c in
  let '(tb, changed3, c) := drop_missing on_disk "Toolbox" (toolbox_plugins c) c in
  (changed1 || changed2 || changed3, with_vectors c ds mp tb).

Definition evictByPath (path : string) (c : PluginRuntimeCatalog) : PluginRuntimeCatalog :=
  let erase_path := filter (fun p => rp_path p <> path) in
  with_vectors c (erase_path (data_sources c)) (erase_path (message_parsers c)) (erase_path (toolbox_plugins c)).

Definition find_mtime (path : string) (vec : list RuntimePlugin) : Z :=
  match list_find (fun p => rp_path p = path) vec with Some (_, p) => loaded_mtime p | None => 0 end.

Definition loadedMtimeForPath (path : string) (c : PluginRuntimeCatalog) : Z :=
  if decide (find_mtime path (data_sources c) <> 0) then find_mtime path (data_sources c)
  else if decide (find_mtime path (message_parsers c) <> 0) then find_mtime path (message_parsers c)
  else find_mtime path (toolbox_plugins c).

(** The second loop of [reload]. *)
Definition reload_step (st : bool * PluginRuntimeCatalog) (d : PluginDescriptor) : bool * PluginRuntimeCatalog :=
  let '(changed, c) := st in
  let path := canonicalPath (dso_path d) in
  let disk_mtime := safeMtime (dso_path d) in
  if decide (disk_mtime = 0) then
    (changed, report kWarning (pd_id d) (dso_path d +:+ ": could not read mtime") c)
  else
    let prior_mtime := loadedMtimeForPath path c in
    let already_loaded := bool_decide (prior_mtime <> 0) in
    if already_loaded && (disk_mtime <=? prior_mtime) then (changed, c)
    else
      let '(changed, c) := if already_loaded then (true, evictByPath path c) else (changed, c) in
      let '(loaded, c) := loadAndRegister d c in
      if loaded then (true, c) else (changed, failed_to_load d c).

Definition reload (c : PluginRuntimeCatalog) : option (bool * PluginRuntimeCatalog) :=
  scan ← scanPluginDsos what fs (plugin_dir c);
  match scan with
  | Err e => Some (false, report kError "" e c)
  | Ok scan =>
      let c := reportScanDiagnostics scan c in
      let on_disk := map (fun d => canonicalPath (dso_path d)) (plugins scan) in
      Some (foldl reload_step (drop_all_missing on_disk c) (plugins scan))
  end.
End Operations.

(** ** Look-ups *)

Definition fileImportSources (c : PluginRuntimeCatalog) : list RuntimePlugin :=
  filter (fun p => has_capability (capabilities p) PJ_DATA_SOURCE_CAPABILITY_FINITE_IMPORT) (data_sources c).
Definition streamSources (c : PluginRuntimeCatalog) : list RuntimePlugin :=
  filter (fun p => has_capability (capabilities p) PJ_DATA_SOURCE_CAPABILITY_CONTINUOUS_STREAM) (data_sources c).
Definition findSourcesForExtension (ext : string) (c : PluginRuntimeCatalog) : list RuntimePlugin :=
  filter (fun p => has_capability (capabilities p) PJ_DATA_SOURCE_CAPABILITY_FINITE_IMPORT = true
                   /\ ext ∈ file_extensions p) (data_sources c).
Definition findParserByEncoding (enc : string) (c : PluginRuntimeCatalog) : option RuntimePlugin :=
  snd <$> list_find (fun p => enc ∈ encodings p) (message_parsers c).

(** The pieces of a file dialog filter: the loops append to both strings. *)
Definition filter_extension (acc : string * string) (i : nat) (ext : string) : string * string :=
  let '(all_exts, per_plugin) := acc in
  let per_plugin := if decide (0 < i)%nat then per_plugin +:+ " " else per_plugin in
  let per_plugin := per_plugin +:+ ("*" +:+ ext) in
  let all_exts := if decide (all_exts = "") then all_exts else all_exts +:+ " " in
  (all_exts +:+ ("*" +:+ ext), per_plugin).
Definition filter_source (acc : string * string) (source : RuntimePlugin) : string * string :=
  if decide (has_capability (capabilities source) PJ_DATA_SOURCE_CAPABILITY_FINITE_IMPORT = false
             \/ file_extensions source = []) then acc
  else
    let '(all_exts, per_plugin) := acc in
    let per_plugin := if decide (per_plugin = "") then per_plugin else per_plugin +:+ ";;" in
    let per_plugin := per_plugin +:+ (rp_name source +:+ " (") in
    let '(all_exts, per_plugin) :=
      foldl (fun acc ie => filter_extension acc ie.1 ie.2) (all_exts, per_plugin)
        (imap pair (file_extensions source)) in
    (all_exts, per_plugin +:+ ")").
Definition buildFileFilter (c : PluginRuntimeCatalog) : string :=
  let '(all_exts, per_plugin) := foldl filter_source ("", "") (data_sources c) in
  let flt :=
    if decide (all_exts = "") then per_plugin
    else
      let flt := "All supported files (" +:+ all_exts +:+ ")" in
      if decide (per_plugin = "") then flt else flt +:+ (";;" +:+ per_plugin) in
  let flt := if decide (flt = "") then flt else flt +:+ ";;" in
  flt +:+ "All files (*)".

Definition unique_encodings (c : PluginRuntimeCatalog) : list string :=
  foldl (fun acc parser =>
    foldl (fun acc enc => if decide (enc ∈ acc) then acc else acc ++ [enc]) acc (encodings parser))
    [] (message_parsers c).
Definition listAvailableEncodings {text} `{JsonText text} (c : PluginRuntimeCatalog) : option text :=
  json_dump (JArray (map JString (unique_encodings c))).

(** ** The loaded plugins, by path *)

Definition tagged := (PluginFamily * RuntimePlugin)%type.

(** All plugins, with the vector they are in. *)
Definition all (c : PluginRuntimeCatalog) : list tagged :=
  map (pair kDataSource) (data_sources c) ++ map (pair kMessageParser) (message_parsers c)
  ++ map (pair kToolbox) (toolbox_plugins c).

Definition tag_path (e : tagged) : string := rp_path e.2.

Fixpoint find_path (p : string) (l : list tagged) : option tagged :=
  match l with
  | [] => None
  | e :: l => if decide (tag_path e = p) then Some e else find_path p l
  end.
Definition entry_at (c : PluginRuntimeCatalog) (p : string) : option tagged := find_path p (all c).

(** Every path is loaded once, at a known time. *)
Definition tracked (c : PluginRuntimeCatalog) : Prop :=
  NoDup (map tag_path (all c)) /\ Forall (fun e => loaded_mtime e.2 <> 0) (all c).

Lemma find_path_Some p l e : find_path p l = Some e -> e ∈ l /\ tag_path e = p.
Proof.
  induction l as [|x l IH]; [done|]. cbn [find_path]. case_decide as Hx.
  - intros [= ->]. split; [left|done].
  - intros [? ?]%IH. split; [by right|done].
Qed.

Lemma find_path_None p l : find_path p l = None <-> p ∉ map tag_path l.
Proof.
  induction l as [|x l IH]; cbn [find_path map]; [split; [intros _; apply not_elem_of_nil|done]|].
  rewrite not_elem_of_cons. case_decide as Hx; [split; [done|intros [? _]; congruence]|]. rewrite IH. naive_solver.
Qed.

Lemma find_path_unique p l e : NoDup (map tag_path l) -> e ∈ l -> tag_path e = p -> find_path p l = Some e.
Proof.
  induction l as [|x l IH]; [by intros _ ?%not_elem_of_nil|]. cbn [map find_path].
  rewrite NoDup_cons. intros [Hx Hnd] [->|Hin]%elem_of_cons Hp; [by rewrite decide_True|].
  rewrite decide_False; [by apply IH|]. intros Hxp. apply Hx. rewrite Hxp, <- Hp.
  apply list_elem_of_fmap. by exists e.
Qed.

Lemma find_path_filter (P : string -> Prop) `{!forall s, Decision (P s)} p l :
  find_path p (filter (fun e => P (tag_path e)) l) = if decide (P p) then find_path p l else None.
Proof.
  induction l as [|x l IH]; [by case_decide|]. rewrite filter_cons. cbn [find_path].
  destruct (decide (P (tag_path x))) as [Hx|Hx]; cbn [find_path]; rewrite IH;
    destruct (decide (tag_path x = p)) as [Heq|Hne]; repeat case_decide; try done; by rewrite Heq in Hx.
Qed.

(** Only the plugins are compared, not the log. *)
Definition same_plugins (c c' : PluginRuntimeCatalog) : Prop :=
  data_sources c' = data_sources c /\ message_parsers c' = message_parsers c
  /\ toolbox_plugins c' = toolbox_plugins c /\ plugin_dir c' = plugin_dir c.

#[export] Instance same_plugins_equiv : Equivalence same_plugins.
Proof.
  split; [done|by intros ? ? (? & ? & ? & ?)|].
  intros x y z (? & ? & ? & ?) (? & ? & ? & ?). repeat split; congruence.
Qed.

Lemma same_all c c' : same_plugins c c' -> all c' = all c.
Proof. intros (H1 & H2 & H3 & _). unfold all. by rewrite H1, H2, H3. Qed.

Lemma report_same level id msg c : same_plugins c (report level id msg c).
Proof. unfold report. by destruct (has_sink c). Qed.

Lemma foldl_same {B} (f : PluginRuntimeCatalog -> B -> PluginRuntimeCatalog) l c :
  (forall c b, same_plugins c (f c b)) -> same_plugins c (foldl f c l).
Proof.
  intros Hf. revert c. induction l as [|b l IH]; intros c; [done|]. cbn [foldl].
  etransitivity; [apply (Hf c b)|apply IH].
Qed.

Lemma reportScanDiagnostics_same scan c : same_plugins c (reportScanDiagnostics scan c).
Proof. apply foldl_same. intros. apply report_same. Qed.

Lemma map_filter_tag (P : string -> Prop) `{!forall s, Decision (P s)} f (vec : list RuntimePlugin) :
  map (pair f) (filter (fun p => P (rp_path p)) vec) = filter (fun e => P (tag_path e)) (map (pair f) vec).
Proof.
  induction vec as [|x vec IH]; [done|]. rewrite filter_cons. cbn [map]. rewrite filter_cons.
  change (tag_path (f, x)) with (rp_path x). destruct (decide (P (rp_path x))); cbn [map]; by rewrite IH.
Qed.

Lemma all_filter (P : string -> Prop) `{!forall s, Decision (P s)} c :
  let keep := filter (fun p => P (rp_path p)) in
  all (with_vectors c (keep (data_sources c)) (keep (message_parsers c)) (keep (toolbox_plugins c)))
  = filter (fun e => P (tag_path e)) (all c).
Proof. cbn zeta. unfold all. cbn. by rewrite !filter_app, !map_filter_tag. Qed.

Lemma tracked_all c c' : tracked c ->
  (exists P : tagged -> Prop, exists dec : forall e, Decision (P e), all c' = filter P (all c)) -> tracked c'.
Proof.
  unfold tracked. intros [Hnd Hm] (P & dec & ->). split.
  - eapply sublist_NoDup; [exact Hnd|]. apply fmap_sublist, sublist_filter.
  - rewrite Forall_forall in *. intros e [_ ?]%list_elem_of_filter. by apply Hm.
Qed.

Lemma tracked_push c c' e : tracked c -> all c' ≡ₚ e :: all c -> tag_path e ∉ map tag_path (all c) ->
  loaded_mtime e.2 <> 0 ->
  tracked c' /\ forall q, entry_at c' q = if decide (q = tag_path e) then Some e else entry_at c q.
Proof.
  intros [Hnd Hm] Hall Hfresh Hmt.
  assert (tracked c') as Ht.
  { split.
    - rewrite Hall. cbn [map]. by constructor.
    - rewrite Hall. by constructor. }
  split; [done|]. intros q. destruct Ht as [Hnd' _]. unfold entry_at.
  destruct (decide (q = tag_path e)) as [->|Hq].
  - apply find_path_unique; [done|rewrite Hall; left|done].
  - destruct (find_path q (all c)) as [x|] eqn:Hx.
    + apply find_path_Some in Hx as [Hin Hp]. apply find_path_unique; [done|rewrite Hall; by right|done].
    + apply find_path_None. apply find_path_None in Hx. rewrite Hall. cbn [map]. by rewrite not_elem_of_cons.
Qed.

Section Loads.
Context (fs : FileSystem).

(** What a descriptor is loaded as: what it is in a catalog without anything
    else. *)
Definition loads (d : PluginDescriptor) : option tagged := head (all (loadAndRegister fs d (make "" false "")).2).

Lemma loadAndRegister_spec d c :
  match loads d with
  | Some e =>
      e.1 = family d /\ tag_path e = canonicalPath fs (dso_path d) /\ loaded_mtime e.2 = safeMtime fs (dso_path d)
      /\ exists c', loadAndRegister fs d c = (true, c') /\ all c' ≡ₚ e :: all c /\ plugin_dir c' = plugin_dir c
  | None => exists c', loadAndRegister fs d c = (false, c') /\ same_plugins c c'
  end.
Proof.
  assert (forall level id msg c, data_sources (report level id msg c) = data_sources c
    /\ message_parsers (report level id msg c) = message_parsers c
    /\ toolbox_plugins (report level id msg c) = toolbox_plugins c
    /\ plugin_dir (report level id msg c) = plugin_dir c) as Hrep.
  { intros. unfold report. by destruct (has_sink _). }
  unfold loads, loadAndRegister, loadAndRegisterDataSource, loadAndRegisterMessageParser, loadAndRegisterToolbox.
  destruct (family d) eqn:Hf; cbn zeta.
  - eexists. split; [reflexivity|]. reflexivity.
  - destruct (DataSourceLibrary_load _ _) as [lib|e]; [|eexists; split; [reflexivity|apply report_same]].
    destruct (has_capability _ _); [destruct (resolveDialogVtable _) as [vt|e]|];
      try (eexists; split; [reflexivity|apply report_same]).
    all: cbn; repeat split; eexists; split; [reflexivity|]; unfold all; cbn.
    all: match goal with |- context [report ?a ?b ?m ?c] => destruct (Hrep a b m c) as (-> & -> & -> & ->) end.
    all: split; [|done]; rewrite map_app; cbn [map]; rewrite <- app_assoc; cbn [app].
    all: by rewrite <- Permutation_middle.
  - destruct (MessageParserLibrary_load _ _) as [lib|e]; [|eexists; split; [reflexivity|apply report_same]].
    cbn. repeat split. eexists. split; [reflexivity|]. unfold all. cbn.
    match goal with |- context [report ?a ?b ?m ?c] => destruct (Hrep a b m c) as (-> & -> & -> & ->) end.
    split; [|done]. rewrite map_app. cbn [map]. rewrite <- !app_assoc. cbn [app].
    by rewrite app_assoc, <- Permutation_middle, app_assoc.
  - destruct (ToolboxLibrary_load _ _) as [lib|e]; [|eexists; split; [reflexivity|apply report_same]].
    destruct (has_capability _ _); [destruct (resolveDialogVtable _) as [vt|e]|];
      try (eexists; split; [reflexivity|apply report_same]).
    all: cbn; repeat split; eexists; split; [reflexivity|]; unfold all; cbn.
    all: match goal with |- context [report ?a ?b ?m ?c] => destruct (Hrep a b m c) as (-> & -> & -> & ->) end.
    all: split; [|done]; rewrite map_app; cbn [map]; rewrite !app_assoc.
    all: by rewrite <- Permutation_cons_append.
  - eexists. split; [reflexivity|apply report_same].
Qed.

Lemma find_path_app p l1 l2 :
  find_path p (l1 ++ l2) = match find_path p l1 with Some e => Some e | None => find_path p l2 end.
Proof. induction l1 as [|x l1 IH]; [done|]. cbn [app find_path]. by case_decide. Qed.

Definition mtime_of (o : option tagged) : Z := match o with Some e => loaded_mtime e.2 | None => 0 end.

Lemma find_mtime_path p f vec : find_mtime p vec = mtime_of (find_path p (map (pair f) vec)).
Proof.
  unfold find_mtime. induction vec as [|x vec IH]; [done|]. cbn [list_find map find_path].
  change (tag_path (f, x)) with (rp_path x). destruct (decide (rp_path x = p)); [done|]. rewrite <- IH.
  by destruct (list_find _ vec) as [[i y]|].
Qed.

Lemma loadedMtimeForPath_spec p c : tracked c -> loadedMtimeForPath p c = mtime_of (entry_at c p).
Proof.
  intros [_ Hm]. unfold loadedMtimeForPath, entry_at.
  rewrite (find_mtime_path p kDataSource), (find_mtime_path p kMessageParser), (find_mtime_path p kToolbox).
  unfold all in *. rewrite !find_path_app.
  rewrite !Forall_app in Hm. destruct Hm as (H1 & H2 & H3). rewrite Forall_forall in *.
  destruct (find_path p (map (pair kDataSource) _)) as [e|] eqn:E1.
  { apply find_path_Some in E1 as [Hin _]. apply H1 in Hin. by rewrite decide_True. }
  rewrite decide_False by (cbn; congruence).
  destruct (find_path p (map (pair kMessageParser) _)) as [e|] eqn:E2.
  { apply find_path_Some in E2 as [Hin _]. apply H2 in Hin. by rewrite decide_True. }
  by rewrite decide_False by (cbn; congruence).
Qed.

Lemma evictByPath_all p c : all (evictByPath p c) = filter (fun e => tag_path e <> p) (all c).
Proof. unfold evictByPath. cbn zeta. exact (all_filter (fun s => s <> p) c). Qed.

Lemma length_filter_ne {A} (P : A -> Prop) `{!forall x, Decision (P x)} (l : list A) :
  length (filter P l) <> length l <-> exists x, x ∈ l /\ ~ P x.
Proof.
  induction l as [|x l IH]; [split; [done|by intros (? & ?%not_elem_of_nil & _)]|].
  rewrite filter_cons. setoid_rewrite elem_of_cons. pose proof (length_filter P l) as Hle.
  destruct (decide (P x)) as [Hx|Hx]; cbn [length].
  - rewrite Nat.succ_inj_wd_neg, IH. naive_solver.
  - split; [eauto|lia].
Qed.

Lemma drop_missing_same on_disk family vec c : same_plugins c (drop_missing on_disk family vec c).2.
Proof. apply foldl_same. intros. case_decide; [done|apply report_same]. Qed.

Lemma drop_all_missing_spec on_disk c : exists b c', drop_all_missing on_disk c = (b, c')
  /\ all c' = filter (fun e => tag_path e ∈ on_disk) (all c) /\ plugin_dir c' = plugin_dir c
  /\ (b = true <-> exists e, e ∈ all c /\ tag_path e ∉ on_disk).
Proof.
  unfold drop_all_missing.
  destruct (drop_missing on_disk "DataSource" (data_sources c) c) as [[ds ch1] c1] eqn:H1.
  destruct (drop_missing on_disk "MessageParser" (message_parsers c1) c1) as [[mp ch2] c2] eqn:H2.
  destruct (drop_missing on_disk "Toolbox" (toolbox_plugins c2) c2) as [[tb ch3] c3] eqn:H3.
  pose proof (drop_missing_same on_disk "DataSource" (data_sources c) c) as S1. rewrite H1 in S1.
  pose proof (drop_missing_same on_disk "MessageParser" (message_parsers c1) c1) as S2. rewrite H2 in S2.
  pose proof (drop_missing_same on_disk "Toolbox" (toolbox_plugins c2) c2) as S3. rewrite H3 in S3. cbn in S1, S2, S3.
  destruct S1 as (D1 & M1 & T1 & P1), S2 as (D2 & M2 & T2 & P2), S3 as (D3 & M3 & T3 & P3).
  injection H1 as <- <- _. injection H2 as <- <- _. injection H3 as <- <- _.
  rewrite T2, T1, M1. eexists _, _. split; [reflexivity|]. split; [|split; [cbn; congruence|]].
  - exact (all_filter (fun s => s ∈ on_disk) c).
  - rewrite !orb_true_iff, !bool_decide_eq_true.
    assert (forall f vec, length (filter (fun p => rp_path p ∈ on_disk) vec) <> length vec <->
      exists e, e ∈ map (pair f) vec /\ tag_path e ∉ on_disk) as Hlen.
    { intros f vec. rewrite length_filter_ne. split.
      - intros (x & Hx & Hp). exists (f, x). split; [apply list_elem_of_fmap; by exists x|done].
      - intros ([f' x] & (y & [= -> ->] & Hy)%list_elem_of_fmap & Hp). by exists y. }
    rewrite (Hlen kDataSource), (Hlen kMessageParser), (Hlen kToolbox). unfold all.
    setoid_rewrite elem_of_app. setoid_rewrite elem_of_app. naive_solver.
Qed.
End Loads.

(** ** Reload *)

Section Reload.
Context `{JsonText string} (what : string -> string) (fs : FileSystem).

Abbreviation canonical d := (canonicalPath fs (dso_path d)).

(** What the file of a descriptor makes of the entry at its path. *)
Definition after (d : PluginDescriptor) (e : option tagged) : option tagged :=
  let disk_mtime := safeMtime fs (dso_path d) in
  if decide (disk_mtime = 0) then e
  else if decide (mtime_of e <> 0 /\ disk_mtime <= mtime_of e) then e
  else loads fs d.

Definition descriptor_at (p : string) (ds : list PluginDescriptor) : option PluginDescriptor :=
  head (filter (fun d => canonical d = p) ds).

Lemma failed_to_load_same d c : same_plugins c (failed_to_load d c).
Proof. apply report_same. Qed.

Lemma same_entry c c' q : same_plugins c c' -> entry_at c' q = entry_at c q.
Proof. intros Hs. unfold entry_at. by rewrite (same_all c c'). Qed.
Lemma same_tracked c c' : same_plugins c c' -> tracked c -> tracked c'.
Proof. intros Hs. unfold tracked. by rewrite (same_all c c'). Qed.

Lemma entry_mtime c q e : tracked c -> entry_at c q = Some e -> loaded_mtime e.2 <> 0.
Proof. intros [_ Hm] [Hin _]%find_path_Some. rewrite Forall_forall in Hm. by apply Hm. Qed.

Lemma evict_spec p c : tracked c -> tracked (evictByPath p c) /\ plugin_dir (evictByPath p c) = plugin_dir c
  /\ forall q, entry_at (evictByPath p c) q = if decide (q = p) then None else entry_at c q.
Proof.
  intros Ht. split; [|split; [done|]].
  - apply (tracked_all c); [done|]. eexists _, _. apply evictByPath_all.
  - intros q. unfold entry_at. rewrite evictByPath_all.
    etransitivity; [exact (find_path_filter (fun s => s <> p) q (all c))|]. repeat case_decide; done || congruence.
Qed.

(** A load where nothing is loaded. *)
Lemma install_spec changed d c : tracked c -> entry_at c (canonical d) = None -> safeMtime fs (dso_path d) <> 0 ->
  exists ch' c',
    (let '(loaded, c) := loadAndRegister fs d c in if loaded then (true, c) else (changed, failed_to_load d c))
    = (ch', c')
  /\ tracked c' /\ plugin_dir c' = plugin_dir c
  /\ (forall q, entry_at c' q = if decide (q = canonical d) then loads fs d else entry_at c q)
  /\ (ch' = true <-> changed = true \/ loads fs d <> None).
Proof.
  intros Ht Hnone Hmt. pose proof (loadAndRegister_spec fs d c) as Hl.
  destruct (loads fs d) as [e|].
  - destruct Hl as (_ & Hp & Hm & c' & -> & Hall & Hdir).
    destruct (tracked_push c c' e) as [Ht' He]; [done..| |congruence|].
    { rewrite Hp. by apply find_path_None. }
    exists true, c'. repeat split; try done; try apply Ht'; [|naive_solver]. intros q. by rewrite He, Hp.
  - destruct Hl as (c' & -> & Hs).
    assert (same_plugins c (failed_to_load d c')) as Hs' by (etransitivity; [exact Hs|apply failed_to_load_same]).
    eexists _, _. split; [reflexivity|]. split; [by apply (same_tracked c)|]. split; [apply Hs'|].
    split; [|naive_solver]. intros q. rewrite (same_entry c) by done. by case_decide; subst.
Qed.

(** A plugin that is replaced has a later time than the one that goes. *)
Lemma after_replaced d c : entry_at c (canonical d) <> None ->
  safeMtime fs (dso_path d) <> 0 -> ~ safeMtime fs (dso_path d) <= mtime_of (entry_at c (canonical d)) ->
  loads fs d <> entry_at c (canonical d).
Proof.
  intros Hsome Ht Hnew Heq. pose proof (loadAndRegister_spec fs d c) as Hl. rewrite Heq in Hl.
  destruct (entry_at c (canonical d)) as [e|]; [|done]. destruct Hl as (_ & _ & Hm & _).
  cbn [mtime_of] in Hnew. lia.
Qed.

Lemma after_load d e : safeMtime fs (dso_path d) <> 0 ->
  ~ (mtime_of e <> 0 /\ safeMtime fs (dso_path d) <= mtime_of e) -> after d e = loads fs d.
Proof. intros H1 H2. unfold after. by rewrite !decide_False. Qed.

Lemma reload_step_spec changed c d : tracked c ->
  exists ch' c', reload_step fs (changed, c) d = (ch', c') /\ tracked c' /\ plugin_dir c' = plugin_dir c
  /\ (forall q, entry_at c' q = if decide (q = canonical d) then after d (entry_at c q) else entry_at c q)
  /\ (ch' = true <-> changed = true \/ after d (entry_at c (canonical d)) <> entry_at c (canonical d)).
Proof.
  intros Ht. unfold reload_step. rewrite loadedMtimeForPath_spec by done.
  destruct (decide (safeMtime fs (dso_path d) = 0)) as [Ht0|Ht0].
  { assert (forall e, after d e = e) as Hid by (intros e; unfold after; by rewrite decide_True).
    rewrite Hid. eexists _, _. split; [reflexivity|]. split; [eapply same_tracked; [apply report_same|done]|].
    split; [apply report_same|]. split; [|naive_solver].
    intros q. rewrite (same_entry c) by apply report_same. rewrite Hid. by case_decide. }
  destruct (decide (mtime_of (entry_at c (canonical d)) <> 0 /\
    safeMtime fs (dso_path d) <= mtime_of (entry_at c (canonical d)))) as [Hold|Hnew].
  { rewrite bool_decide_true by apply Hold. rewrite (proj2 (Z.leb_le _ _)) by apply Hold. cbn [andb].
    assert (after d (entry_at c (canonical d)) = entry_at c (canonical d)) as Hid
      by (unfold after; rewrite decide_False by done; by rewrite decide_True).
    rewrite Hid. eexists _, _. split; [reflexivity|]. do 2 (split; [done|]). split; [|naive_solver].
    intros q. by case_decide as Hq; [subst q|]. }
  replace (bool_decide (mtime_of (entry_at c (canonical d)) <> 0)
    && (safeMtime fs (dso_path d) <=? mtime_of (entry_at c (canonical d)))) with false.
  2: { symmetry. apply andb_false_iff. destruct (decide (mtime_of (entry_at c (canonical d)) <> 0));
         [right; lia|left; by apply bool_decide_false]. }
  rewrite (after_load d (entry_at c (canonical d))) by done.
  assert (Hq : forall q, (if decide (q = canonical d) then after d (entry_at c q) else entry_at c q)
    = if decide (q = canonical d) then loads fs d else entry_at c q)
    by (intros q; case_decide; [subst; by apply after_load|done]).
  setoid_rewrite Hq. destruct (entry_at c (canonical d)) as [e|] eqn:He.
  - assert (mtime_of (Some e) <> 0) as H0 by (by apply (entry_mtime c (canonical d))).
    rewrite bool_decide_true by done. destruct (evict_spec (canonical d) c Ht) as (Ht1 & Hdir1 & He1).
    destruct (install_spec true d (evictByPath (canonical d) c)) as (ch' & c' & Hc' & Ht' & Hdir & Hent & Hch);
      [done|by rewrite He1, decide_True|done|].
    eexists _, _. split; [exact Hc'|]. split; [done|]. split; [congruence|]. split.
    + intros q. rewrite Hent, He1. by case_decide.
    + rewrite <- He. assert (loads fs d <> entry_at c (canonical d)) by
        (apply after_replaced; [by rewrite He|done|rewrite He; tauto]). naive_solver.
  - rewrite bool_decide_false by (cbn; lia).
    destruct (install_spec changed d c) as (ch' & c' & Hc' & Ht' & Hdir & Hent & Hch); [done..|].
    eexists _, _. split; [exact Hc'|]. done.
Qed.

(** Distinct files do not disturb each other. *)
Lemma reload_loop_spec ds changed c : NoDup (map (fun d => canonical d) ds) -> tracked c ->
  exists ch' c', foldl (reload_step fs) (changed, c) ds = (ch', c') /\ tracked c' /\ plugin_dir c' = plugin_dir c
  /\ (forall q, entry_at c' q =
        match descriptor_at q ds with Some d => after d (entry_at c q) | None => entry_at c q end)
  /\ (ch' = true <-> changed = true \/ exists q, entry_at c' q <> entry_at c q).
Proof.
  revert changed c. induction ds as [|d ds IH]; intros changed c Hnd Ht.
  { eexists _, _. split; [reflexivity|]. do 3 (split; [done|]). split; [by left|]. naive_solver. }
  cbn [map] in Hnd. apply NoDup_cons in Hnd as [Hd Hnd].
  destruct (reload_step_spec changed c d Ht) as (ch1 & c1 & H1 & Ht1 & Hdir1 & He1 & Hch1).
  destruct (IH ch1 c1 Hnd Ht1) as (ch2 & c2 & H2 & Ht2 & Hdir2 & He2 & Hch2).
  exists ch2, c2. cbn [foldl]. rewrite H1. split; [done|]. split; [done|]. split; [congruence|].
  assert (Hnone : descriptor_at (canonical d) ds = None).
  { unfold descriptor_at. destruct (filter _ ds) as [|x l] eqn:Hf; [done|].
    assert (x ∈ filter (fun x => canonical x = canonical d) ds) as [Hx Hin]%list_elem_of_filter
      by (rewrite Hf; left).
    destruct Hd. apply list_elem_of_fmap. by exists x. }
  assert (Hq : forall q, entry_at c2 q =
    match descriptor_at q (d :: ds) with Some d => after d (entry_at c q) | None => entry_at c q end).
  { intros q. rewrite He2, He1. unfold descriptor_at at 2. rewrite filter_cons.
    destruct (decide (q = canonical d)) as [->|Hne].
    - by rewrite Hnone, decide_True.
    - by rewrite (decide_False (P := canonical d = q)) by congruence. }
  split; [done|]. rewrite Hch2, Hch1. split.
  - intros [[?|Ha]|[q Hdiff]]; [by left| |].
    + right. exists (canonical d). by rewrite He2, Hnone, He1, decide_True.
    + right. exists q. rewrite He1 in Hdiff. case_decide as Hqd; [|done]. subst q.
      by rewrite He2, Hnone, He1, decide_True in Hdiff.
  - intros [?|[q Hdiff]]; [by left; left|]. destruct (decide (q = canonical d)) as [->|Hne].
    + left. right. by rewrite He2, Hnone, He1, decide_True in Hdiff.
    + right. exists q. by rewrite He1, decide_False.
Qed.

(** What is on the disk, and what the catalog has of it. *)
Definition settled (ds : list PluginDescriptor) (c : PluginRuntimeCatalog) (p : string) : option tagged :=
  match descriptor_at p ds with Some d => after d (entry_at c p) | None => None end.

Lemma descriptor_at_None p ds : descriptor_at p ds = None <-> p ∉ map (fun d => canonical d) ds.
Proof.
  unfold descriptor_at. induction ds as [|d ds IH]; [split; [intros _; apply not_elem_of_nil|done]|].
  rewrite filter_cons. cbn [map]. rewrite not_elem_of_cons. case_decide; [naive_solver|]. rewrite IH. naive_solver.
Qed.

Lemma reload_spec c ds dg : tracked c ->
  scanPluginDsos what fs (plugin_dir c) = Some (Ok (mkScan ds dg)) -> NoDup (map (fun d => canonical d) ds) ->
  exists changed c', reload what fs c = Some (changed, c') /\ tracked c' /\ plugin_dir c' = plugin_dir c
  /\ (forall p, entry_at c' p = settled ds c p)
  /\ (changed = true <-> exists p, entry_at c' p <> entry_at c p).
Proof.
  intros Ht Hscan Hnd. unfold reload. rewrite Hscan. cbn [mbind option_bind plugins].
  set (c0 := reportScanDiagnostics (mkScan ds dg) c).
  assert (same_plugins c c0) as Hs0 by apply reportScanDiagnostics_same.
  destruct (drop_all_missing_spec (map (fun d => canonical d) ds) c0) as (ch1 & c1 & H1 & Hall & Hdir1 & Hch1).
  rewrite H1. assert (Ht1 : tracked c1).
  { apply (tracked_all c0); [by apply (same_tracked c)|]. by eexists _, _. }
  destruct (reload_loop_spec ds ch1 c1 Hnd Ht1) as (ch2 & c2 & H2 & Ht2 & Hdir2 & He2 & Hch2).
  exists ch2, c2. rewrite H2. split; [done|]. split; [done|].
  split; [rewrite Hdir2, Hdir1; apply Hs0|].
  assert (He1 : forall p, entry_at c1 p = if decide (p ∈ map (fun d => canonical d) ds) then entry_at c p else None).
  { intros p. rewrite <- (same_entry c c0) by done. unfold entry_at. rewrite Hall.
    exact (find_path_filter (fun s => s ∈ map (fun d => canonical d) ds) p (all c0)). }
  assert (Hset : forall p, entry_at c2 p = settled ds c p).
  { intros p. rewrite He2, He1. unfold settled. destruct (descriptor_at p ds) as [d|] eqn:Hd.
    - rewrite decide_True; [done|]. destruct (decide (p ∈ map (fun d => canonical d) ds)) as [|Hn]; [done|].
      apply descriptor_at_None in Hn. congruence.
    - apply descriptor_at_None in Hd. by rewrite decide_False. }
  split; [done|]. rewrite Hch2, Hch1. clear Hch1 Hch2. split.
  - intros [(e & Hin & Hgone)|[p Hdiff]].
    + exists (tag_path e). rewrite Hset. unfold settled. rewrite (proj2 (descriptor_at_None _ _)) by done.
      unfold entry_at. rewrite <- (same_all c c0) by done.
      assert (tracked c0) as [Hndc _] by (by apply (same_tracked c)).
      by rewrite (find_path_unique _ _ e Hndc Hin eq_refl).
    + exists p. rewrite He1 in Hdiff. case_decide as Hp; [done|]. rewrite Hset in Hdiff. unfold settled in Hdiff.
      by rewrite (proj2 (descriptor_at_None _ _)) in Hdiff.
  - intros [p Hdiff]. destruct (decide (p ∈ map (fun d => canonical d) ds)) as [Hp|Hp].
    + right. exists p. by rewrite He1, decide_True.
    + left. rewrite Hset in Hdiff. unfold settled in Hdiff. rewrite (proj2 (descriptor_at_None _ _)) in Hdiff by done.
      destruct (entry_at c p) as [e|] eqn:He; [|done]. exists e. rewrite <- (same_entry c c0) in He by done.
      apply find_path_Some in He as [Hin <-]. done.
Qed.

Lemma after_after d e : after d (after d e) = after d e.
Proof.
  unfold after at 1. case_decide as H0; [done|]. case_decide as H1; [done|].
  unfold after. rewrite decide_False by done. case_decide as H2; [|done].
  exfalso. apply H1. unfold after. rewrite decide_False by done. by rewrite decide_True.
Qed.
End Reload.

(** C37: A reload of a catalog in which every path is loaded once and at a known time, from a
    directory that can be scanned and names no file twice, reconciles it with the disk: at every path
    is then nothing if the file is gone, what was there if the file is no newer or its time unknown,
    and otherwise the plugin the file holds, if it loads.  The answer is whether anything changed, and
    a second reload from the same disk changes nothing.  A plugin that was scanned while its time was
    unknown is loaded again by every reload ([unknown_time_loads_twice]). *)
Theorem reload_reconciles `{JsonText string} what fs c ds dg : tracked c ->
  scanPluginDsos what fs (plugin_dir c) = Some (Ok (mkScan ds dg)) ->
  NoDup (map (fun d => canonicalPath fs (dso_path d)) ds) ->
  exists changed c', reload what fs c = Some (changed, c') /\ tracked c'
  /\ (forall p, entry_at c' p = settled fs ds c p)
  /\ (changed = true <-> exists p, entry_at c' p <> entry_at c p)
  /\ exists c'', reload what fs c' = Some (false, c'') /\ forall p, entry_at c'' p = entry_at c' p.
Proof.
  intros Ht Hscan Hnd. destruct (reload_spec what fs c ds dg Ht Hscan Hnd) as (ch & c' & Hr & Ht' & Hdir & He & Hch).
  exists ch, c'. do 4 (split; [done|]). rewrite <- Hdir in Hscan.
  destruct (reload_spec what fs c' ds dg Ht' Hscan Hnd) as (ch2 & c2 & Hr2 & _ & _ & He2 & Hch2).
  assert (Hid : forall p, entry_at c2 p = entry_at c' p).
  { intros p. rewrite He2. unfold settled. rewrite He. unfold settled.
    destruct (descriptor_at fs p ds) as [d|]; [apply after_after|done]. }
  exists c2. split; [|done]. rewrite Hr2. repeat f_equal. destruct ch2; [|done].
  destruct (proj1 Hch2 eq_refl) as [p Hp]. by destruct Hp.
Qed.

(** ** What is loaded *)

(** What the protocol header of a family asks of a library: the entry point, the
    version, and the fields of the table of version 4.0, after its two numbers
    of four bytes. *)
Record Protocol := mkProtocol {
  pr_entry : Dso -> Expected (option Vtable);
  pr_version : Z;
  pr_fields : list string
}.

Definition data_source_protocol : Protocol := mkProtocol PJ_get_data_source_vtable 4
  ["create"; "destroy"; "manifest_json"; "capabilities"; "bind"; "save_config"; "load_config"; "start"; "stop";
   "pause"; "resume"; "poll"; "current_state"; "get_dialog"; "get_plugin_extension"].
Definition message_parser_protocol : Protocol := mkProtocol PJ_get_message_parser_vtable 4
  ["create"; "destroy"; "manifest_json"; "bind"; "bind_schema"; "save_config"; "load_config"; "parse";
   "get_plugin_extension"].
Definition toolbox_protocol : Protocol := mkProtocol PJ_get_toolbox_vtable 4
  ["create"; "destroy"; "manifest_json"; "capabilities"; "bind"; "save_config"; "load_config"; "get_dialog";
   "on_data_changed"; "get_plugin_extension"].
Definition dialog_protocol : Protocol := mkProtocol PJ_get_dialog_vtable 4
  ["create"; "destroy"; "get_manifest"; "get_ui_content"; "get_widget_data"; "on_widget_event"; "on_tick";
   "on_accepted"; "on_rejected"; "save_config"; "load_config"].

(** The library exports [vt], and no field of it is null or out of its size. *)
Record exports (pr : Protocol) (lib : Dso) (vt : Vtable) : Prop := {
  ex_entry : pr_entry pr lib = Ok (Some vt);
  ex_version : protocol_version vt = pr_version pr;
  ex_size : 8 + 8 * Z.of_nat (length (pr_fields pr)) <= struct_size vt;
  ex_fields : forall name, name ∈ pr_fields pr -> name <> "manifest_json" -> name ∈ vt_slots vt;
  ex_manifest : "manifest_json" ∈ pr_fields pr -> manifest_json vt <> None
}.

(** The families a catalog holds, and the bit of their capabilities that
    promises a dialog. *)
Definition family_protocol (f : PluginFamily) : option (Protocol * option Z) :=
  match f with
  | kDataSource => Some (data_source_protocol, Some 5)
  | kMessageParser => Some (message_parser_protocol, None)
  | kToolbox => Some (toolbox_protocol, Some 0)
  | _ => None
  end.

(** A plugin of the catalog can be used as what it is listed as. *)
Record plugin_ok (e : tagged) : Prop := {
  pk_id : rp_id e.2 <> "" /\ rp_name e.2 <> "" /\ rp_version e.2 <> "";
  pk_vtable : exists pr dialog_bit, family_protocol e.1 = Some (pr, dialog_bit)
    /\ exports pr (lib_handle (library e.2)) (lib_vtable (library e.2))
    /\ (forall bit, dialog_bit = Some bit -> Z.testbit (capabilities e.2) bit = true ->
         exists vt, exports dialog_protocol (lib_handle (library e.2)) vt);
  pk_abi : pj_plugin_abi_version (lib_handle (library e.2)) = Ok (Some 5);
  pk_encodings : e.1 = kMessageParser -> encodings e.2 <> [];
  pk_extensions : Forall (fun ext => ext = "" \/ exists rest, ext = String "." rest) (file_extensions e.2)
}.

Lemma exports_resolved pr sym symbol family lib vt proto size slots :
  resolve_vtable sym symbol family proto size slots = Ok vt ->
  pr_entry pr lib = sym -> pr_version pr = proto -> 8 + 8 * Z.of_nat (length (pr_fields pr)) = size -> pr_fields pr = slots ->
  exports pr lib vt.
Proof.
  intros (Hsym & Hproto & Hsize & Hslots)%resolve_vtable_spec He Hv Hz Hf. rewrite Forall_forall in Hslots.
  split; [congruence|congruence|lia|..].
  - intros name Hin Hne. rewrite Hf in Hin. specialize (Hslots name Hin). unfold slot_present in Hslots.
    rewrite decide_False in Hslots by done. by apply bool_decide_eq_true in Hslots.
  - intros Hin. rewrite Hf in Hin. specialize (Hslots _ Hin). unfold slot_present in Hslots.
    rewrite decide_True in Hslots by done. apply bool_decide_eq_true in Hslots as [? ->]. done.
Qed.

Lemma resolve_data_source_exports lib vt : resolve_data_source lib = Ok vt -> exports data_source_protocol lib vt.
Proof. intros Hr. by eapply exports_resolved. Qed.
Lemma resolve_message_parser_exports lib vt : resolve_message_parser lib = Ok vt -> exports message_parser_protocol lib vt.
Proof. intros Hr. by eapply exports_resolved. Qed.
Lemma resolve_toolbox_exports lib vt : resolve_toolbox lib = Ok vt -> exports toolbox_protocol lib vt.
Proof. intros Hr. by eapply exports_resolved. Qed.
Lemma resolveDialogVtable_exports lib vt : resolveDialogVtable lib = Ok vt -> exports dialog_protocol lib vt.
Proof. intros Hr. by eapply exports_resolved. Qed.

(** A capability of one bit. *)
Lemma has_capability_bit caps bit : 0 <= bit -> has_capability caps (2 ^ bit) = Z.testbit caps bit.
Proof.
  intros Hb. unfold has_capability.
  assert (Z.testbit (Z.land caps (2 ^ bit)) bit = Z.testbit caps bit) as Hbit
    by (by rewrite Z.land_spec, Z.pow2_bits_true, andb_true_r).
  destruct (Z.testbit caps bit) eqn:E.
  - apply bool_decide_true. intros Hz. by rewrite Hz, Z.bits_0 in Hbit.
  - apply bool_decide_false. intros Hne. apply Hne, Z.bits_inj. intros i. rewrite Z.land_spec, Z.bits_0.
    destruct (decide (i = bit)) as [->|Hi]; [by rewrite E|]. by rewrite Z.pow2_bits_false, andb_false_r.
Qed.

Lemma normalizeExtension_dotted ext : normalizeExtension ext = "" \/ exists rest, normalizeExtension ext = String "." rest.
Proof. destruct ext as [|c r]; [by left|]. right. cbn [normalizeExtension]. case_decide as Hc; [rewrite Hc|]; by eexists. Qed.

Section Loaded.
Context `{JsonText string} (what : string -> string).

Lemma loads_ok fs path d e : inspectPluginDso what fs path = Ok d -> loads fs d = Some e -> plugin_ok e.
Proof.
  intros Hi. pose proof (inspect_ok what fs path d Hi) as (_ & [_ Hid Hname Hversion Henc _] & _).
  unfold loads, loadAndRegister, loadAndRegisterDataSource, loadAndRegisterMessageParser, loadAndRegisterToolbox.
  destruct (family d) eqn:Hf; cbn zeta; [done|..|done].
  - destruct (DataSourceLibrary_load _ _) as [lib|] eqn:Hl; [|done].
    apply load_library_spec in Hl as (_ & Ha & Hv%resolve_data_source_exports & _). apply checkPluginAbiVersion_spec in Ha. cbn [capabilities].
    change PJ_DATA_SOURCE_CAPABILITY_HAS_DIALOG with (2 ^ 5). rewrite has_capability_bit by done.
    destruct (Z.testbit _ 5) eqn:Hc; [destruct (resolveDialogVtable _) as [vt|] eqn:Hd; [apply resolveDialogVtable_exports in Hd|done]|];
      intros [= <-]; (split; cbn [fst snd rp_id rp_name rp_version library encodings file_extensions family_protocol capabilities]; try done;
      [do 2 eexists; split_and!; [done|done|intros bit [= <-]; congruence || by eauto]
      |apply Forall_map, Forall_true, normalizeExtension_dotted]).
  - destruct (MessageParserLibrary_load _ _) as [lib|] eqn:Hl; [|done].
    apply load_library_spec in Hl as (_ & Ha & Hv%resolve_message_parser_exports & _). apply checkPluginAbiVersion_spec in Ha.
    intros [= <-]; split; cbn; try done. by do 2 eexists.
  - destruct (ToolboxLibrary_load _ _) as [lib|] eqn:Hl; [|done].
    apply load_library_spec in Hl as (_ & Ha & Hv%resolve_toolbox_exports & _). apply checkPluginAbiVersion_spec in Ha. cbn [capabilities].
    change PJ_TOOLBOX_CAPABILITY_HAS_DIALOG with (2 ^ 0). rewrite has_capability_bit by done.
    destruct (Z.testbit _ 0) eqn:Hc; [destruct (resolveDialogVtable _) as [vt|] eqn:Hd; [apply resolveDialogVtable_exports in Hd|done]|];
      intros [= <-]; (split; cbn [fst snd rp_id rp_name rp_version library encodings file_extensions family_protocol capabilities]; try done;
      do 2 eexists; split_and!; [done|done|intros bit [= <-]; congruence || by eauto]).
Qed.

Lemma scan_step_all fs c d : all (scan_step fs c d) ≡ₚ option_list (loads fs d) ++ all c.
Proof.
  unfold scan_step. pose proof (loadAndRegister_spec fs d c) as Hl. destruct (loads fs d) as [e|].
  - by destruct Hl as (_ & _ & _ & c' & -> & Hall & _).
  - destruct Hl as (c' & -> & Hs). cbn [option_list app].
    rewrite (same_all c'), (same_all c); [done|done|apply report_same].
Qed.

Lemma scan_loop_all fs ds c : all (foldl (scan_step fs) c ds) ≡ₚ omap (loads fs) ds ++ all c.
Proof.
  revert c. induction ds as [|d ds IH]; intros c; [done|]. cbn [foldl]. rewrite IH, scan_step_all. simpl.
  destruct (loads fs d); cbn [option_list app]; [by rewrite Permutation_middle|done].
Qed.

Lemma scanDirectory_all fs c c' ds dg :
  scanPluginDsos what fs (plugin_dir c) = Some (Ok (mkScan ds dg)) -> scanDirectory what fs c = Some c' ->
  all c' ≡ₚ omap (loads fs) ds.
Proof.
  intros Hscan. unfold scanDirectory. cbn [plugin_dir with_vectors]. rewrite Hscan. intros [= <-]. cbn [plugins].
  rewrite scan_loop_all. rewrite (same_all _ _ (reportScanDiagnostics_same _ _)). by rewrite app_nil_r.
Qed.

Lemma Forall_keep {A} (P Q : A -> Prop) `{!forall x, Decision (Q x)} l : Forall P l -> Forall P (filter Q l).
Proof. rewrite !Forall_forall. intros Hl x [_ ?]%list_elem_of_filter. by apply Hl. Qed.

Lemma reload_step_Forall fs (P : tagged -> Prop) st d :
  Forall P (all st.2) -> (forall e, loads fs d = Some e -> P e) -> Forall P (all (reload_step fs st d).2).
Proof.
  destruct st as [ch c]. cbn [snd]. intros Hc Hd. unfold reload_step.
  case_decide; [cbn; by rewrite (same_all c) by apply report_same|].
  destruct (_ && _); [done|].
  set (st1 := if bool_decide _ then (true, evictByPath _ c) else (ch, c)).
  assert (Forall P (all st1.2)) as H1.
  { unfold st1. case_bool_decide; [|done]. cbn [snd]. rewrite evictByPath_all. by apply Forall_keep. }
  destruct st1 as [ch1 c1]. cbn [snd] in H1. pose proof (loadAndRegister_spec fs d c1) as Hl.
  destruct (loads fs d) as [e|].
  - destruct Hl as (_ & _ & _ & c' & -> & Hall & _). cbn [snd]. rewrite Hall. constructor; [by apply Hd|done].
  - destruct Hl as (c' & -> & Hs). cbn [snd]. rewrite (same_all c'), (same_all c1); [done|done|apply report_same].
Qed.

Lemma reload_loop_Forall fs (P : tagged -> Prop) ds st :
  Forall P (all st.2) -> (forall d e, d ∈ ds -> loads fs d = Some e -> P e) ->
  Forall P (all (foldl (reload_step fs) st ds).2).
Proof.
  revert st. induction ds as [|d ds IH]; intros st Hst Hd; [done|]. cbn [foldl]. apply IH.
  - apply reload_step_Forall; [done|]. intros e. apply Hd. left.
  - intros d' e Hin. apply Hd. by right.
Qed.

(** Any calls, with any state of the disk at each of them. *)
Inductive reachable : PluginRuntimeCatalog -> Prop :=
| reach_make dir sink source : reachable (make dir sink source)
| reach_setPluginDir dir c : reachable c -> reachable (setPluginDir dir c)
| reach_setDiagnosticSink sink c : reachable c -> reachable (setDiagnosticSink sink c)
| reach_scanDirectory fs c c' : reachable c -> scanDirectory what fs c = Some c' -> reachable c'
| reach_reload fs c changed c' : reachable c -> reload what fs c = Some (changed, c') -> reachable c'.

Lemma reachable_ok c : reachable c -> Forall plugin_ok (all c).
Proof.
  induction 1 as [|dir c _ IH|sink c _ IH|fs c c' _ _ Hs|fs c ch c' _ IH Hr]; [constructor|exact IH..| |].
  - unfold scanDirectory in Hs. cbn [plugin_dir with_vectors] in Hs.
    destruct (scanPluginDsos _ _ _) as [[[ds dg]|e]|] eqn:Hscan; [| |done]; injection Hs as <-.
    + rewrite scan_loop_all, (same_all _ _ (reportScanDiagnostics_same _ _)). cbn [plugins].
      rewrite app_nil_r, Forall_forall. intros x (d & Hin & Hd)%list_elem_of_omap.
      eapply loads_ok; [|exact Hd]. eapply scan_plugins; [exact Hscan|exact Hin].
    + rewrite (same_all _ _ (report_same _ _ _ _)). constructor.
  - unfold reload in Hr. destruct (scanPluginDsos _ _ _) as [[[ds dg]|e]|] eqn:Hscan; [| |done].
    + injection Hr as Hr. cbn [plugins] in Hr. pose proof (reload_loop_Forall fs plugin_ok ds) as Hl.
      match type of Hr with foldl _ ?st _ = _ => specialize (Hl st) end. rewrite Hr in Hl. cbn [snd] in Hl.
      apply Hl; clear Hl Hr.
      * destruct (drop_all_missing_spec (map (fun d => canonicalPath fs (dso_path d)) ds)
          (reportScanDiagnostics (mkScan ds dg) c)) as (b & c1 & -> & Hall & _).
        cbn [snd]. rewrite Hall, (same_all _ _ (reportScanDiagnostics_same _ _)). by apply Forall_keep.
      * intros d x Hin Hd. eapply loads_ok; [|exact Hd]. eapply scan_plugins; [exact Hscan|exact Hin].
    + injection Hr as _ <-. by rewrite (same_all _ _ (report_same _ _ _ _)).
Qed.

(** A library whose plugin promises a dialog the library does not have. *)
Definition promises_dialog (fs : FileSystem) (d : PluginDescriptor) : Prop :=
  exists lib vt e, dlopen fs (dso_path d) = Ok lib /\ resolveDialogVtable lib = Err e /\
    match family d with
    | kDataSource => resolve_data_source lib = Ok vt /\
        has_capability (vt_capabilities vt (vt_create vt)) PJ_DATA_SOURCE_CAPABILITY_HAS_DIALOG = true
    | kToolbox => resolve_toolbox lib = Ok vt /\
        has_capability (vt_capabilities vt (vt_create vt)) PJ_TOOLBOX_CAPABILITY_HAS_DIALOG = true
    | _ => False
    end.

Lemma loads_None fs d : inspectPluginDso what fs (dso_path d) = Ok d ->
  loads fs d = None <-> family d = kDialog \/ promises_dialog fs d.
Proof.
  intros Hi. pose proof (inspect_loads what fs _ d Hi) as Hload. unfold promises_dialog.
  unfold loads, loadAndRegister, loadAndRegisterDataSource, loadAndRegisterMessageParser, loadAndRegisterToolbox.
  destruct (family d) eqn:Hf; cbn zeta; [done|..|by split; [left|]].
  - destruct Hload as [lib Hl]. rewrite Hl. apply load_library_spec in Hl as (Hh & _ & Hv & _). cbn [capabilities].
    unfold handle_capabilities. destruct (has_capability _ _) eqn:Hc.
    + destruct (resolveDialogVtable (lib_handle lib)) as [vt|e] eqn:Hd; cbn.
      * split; [done|]. intros [?|(l & v & e & ? & ? & _)]; congruence.
      * split; [intros _; right; by eexists _, _, _|done].
    + split; [done|]. intros [?|(l & v & e & ? & ? & ? & ?)]; congruence.
  - destruct Hload as [lib Hl]. rewrite Hl. split; [done|]. intros [?|(? & ? & ? & ? & ? & ?)]; done.
  - destruct Hload as [lib Hl]. rewrite Hl. apply load_library_spec in Hl as (Hh & _ & Hv & _). cbn [capabilities].
    unfold handle_capabilities. destruct (has_capability _ _) eqn:Hc.
    + destruct (resolveDialogVtable (lib_handle lib)) as [vt|e] eqn:Hd; cbn.
      * split; [done|]. intros [?|(l & v & e & ? & ? & _)]; congruence.
      * split; [intros _; right; by eexists _, _, _|done].
    + split; [done|]. intros [?|(l & v & e & ? & ? & ? & ?)]; congruence.
Qed.
End Loaded.

(** C38: Whatever is called on a catalog, and however the disk changes between
    the calls, every plugin in it has an identity and the ABI version 5; its
    library exports a table of the family it is listed in, of the protocol
    version, large enough for version 4.0 and with none of its fields null, and
    likewise a dialog table if its capabilities promise one; a parser has an
    encoding, and an extension that is not empty starts with a dot. *)
Theorem catalog_invariant `{JsonText string} what c : reachable what c -> Forall plugin_ok (all c).
Proof. apply reachable_ok. Qed.

(** After a scan the catalog holds what the libraries the scan found are
    loaded as, and nothing else; not loaded are exactly standalone dialogs and
    plugins that promise a dialog their library does not export. *)
Theorem scan_loads `{JsonText string} what fs c c' ds dg :
  scanPluginDsos what fs (plugin_dir c) = Some (Ok (mkScan ds dg)) -> scanDirectory what fs c = Some c' ->
  all c' ≡ₚ omap (loads fs) ds
  /\ forall d, d ∈ ds -> loads fs d = None <-> family d = kDialog \/ promises_dialog fs d.
Proof.
  intros Hscan Hc. split; [by eapply scanDirectory_all|]. intros d Hd. apply (loads_None what).
  eapply scan_plugins; [exact Hscan|exact Hd].
Qed.

(** ** Look-ups *)

Definition encodings_of (parsers : list RuntimePlugin) : list string := concat (map encodings parsers).

Definition add_unique (acc : list string) (enc : string) : list string :=
  if decide (enc ∈ acc) then acc else acc ++ [enc].

Lemma unique_encodings_flat c : unique_encodings c = foldl add_unique [] (encodings_of (message_parsers c)).
Proof.
  change (unique_encodings c)
    with (foldl (fun acc parser => foldl add_unique acc (encodings parser)) [] (message_parsers c)).
  unfold encodings_of. generalize (@nil string) as acc. induction (message_parsers c) as [|p l IH];
    intros acc; [done|]. cbn [foldl map concat]. rewrite foldl_app. apply IH.
Qed.

Lemma add_unique_spec l acc : NoDup acc ->
  NoDup (foldl add_unique acc l) /\ forall x, x ∈ foldl add_unique acc l <-> x ∈ acc \/ x ∈ l.
Proof.
  revert acc. induction l as [|y l IH]; intros acc Hacc; cbn [foldl].
  - split; [done|]. intros x. rewrite elem_of_nil. tauto.
  - assert (NoDup (add_unique acc y) /\ forall x, x ∈ add_unique acc y <-> x ∈ acc \/ x = y) as [Hnd Hy].
    { unfold add_unique. case_decide as Hin; [split; [done|naive_solver]|]. split.
      - apply NoDup_app. split; [done|]. split; [|apply NoDup_singleton]. intros x Hx ->%list_elem_of_singleton. done.
      - intros x. by rewrite elem_of_app, list_elem_of_singleton. }
    destruct (IH _ Hnd) as [Hn Hx]. split; [done|]. intros x. rewrite Hx, Hy, elem_of_cons. naive_solver.
Qed.

Lemma elem_of_concat {A} (x : A) ls : x ∈ concat ls <-> exists l, x ∈ l /\ l ∈ ls.
Proof. rewrite list_elem_of_In, in_concat. setoid_rewrite list_elem_of_In. naive_solver. Qed.

(** The encodings a catalog advertises are each listed once, and are exactly
    those for which it finds a parser, the first that handles them. *)
Theorem encodings_advertised c :
  NoDup (unique_encodings c) /\
  forall enc,
    match findParserByEncoding enc c with
    | Some p => enc ∈ unique_encodings c /\ exists before later, message_parsers c = before ++ p :: later
        /\ enc ∈ encodings p /\ Forall (fun q => enc ∉ encodings q) before
    | None => enc ∉ unique_encodings c
    end.
Proof.
  rewrite unique_encodings_flat.
  destruct (add_unique_spec (encodings_of (message_parsers c)) []) as [Hnd Hin]; [constructor|].
  split; [done|]. intros enc. unfold findParserByEncoding.
  destruct (list_find _ (message_parsers c)) as [[i p]|] eqn:Hf; cbn [fmap option_fmap option_map snd];
    rewrite Hin; unfold encodings_of.
  - apply list_find_Some in Hf as (Hi & Hp & Hbefore). split.
    + right. apply elem_of_concat. exists (encodings p). split; [done|]. apply list_elem_of_fmap.
      exists p. split; [done|]. by apply list_elem_of_lookup_2 in Hi.
    + exists (take i (message_parsers c)), (drop (S i) (message_parsers c)). split; [by rewrite take_drop_middle|].
      split; [done|]. apply Forall_lookup. intros j q Hq.
      apply lookup_take_Some in Hq as [Hq Hj]. by apply (Hbefore j).
  - apply list_find_None in Hf. intros [?%not_elem_of_nil|Hx]; [done|].
    apply elem_of_concat in Hx as (l & Hl & (p & -> & Hp)%list_elem_of_fmap).
    rewrite Forall_forall in Hf. by apply (Hf p).
Qed.

(** *** The filter of a file dialog *)

Fixpoint join (sep : string) (l : list string) : string :=
  match l with
  | [] => ""
  | [x] => x
  | x :: l => x +:+ sep +:+ join sep l
  end.

Definition star (ext : string) : string := "*" +:+ ext.
Definition importers (c : PluginRuntimeCatalog) : list RuntimePlugin :=
  filter (fun p => has_capability (capabilities p) PJ_DATA_SOURCE_CAPABILITY_FINITE_IMPORT = true
                   /\ file_extensions p <> []) (data_sources c).
Definition source_filter (p : RuntimePlugin) : string :=
  rp_name p +:+ " (" +:+ join " " (map star (file_extensions p)) +:+ ")".

Lemma join_snoc sep l x : join sep (l ++ [x]) = if decide (l = []) then x else join sep l +:+ sep +:+ x.
Proof.
  induction l as [|y l IH]; [done|]. cbn [app join]. destruct l as [|z l]; [done|]. cbn [app] in *.
  rewrite IH. cbn [join]. by rewrite !append_assoc.
Qed.

Lemma join_empty sep l : Forall (.≠ "") l -> join sep l = "" <-> l = [].
Proof.
  intros Hl. destruct Hl as [|x l Hx Hl]; [done|]. split; [|done].
  destruct l, x; cbn; try done; by destruct Hx.
Qed.

(** [if (!s.empty()) s += sep; s += x], the loop of a list. *)
Lemma join_step sep l x : Forall (.≠ "") l ->
  (if decide (join sep l = "") then join sep l else join sep l +:+ sep) +:+ x = join sep (l ++ [x]).
Proof.
  intros Hl. rewrite join_snoc. destruct (decide (l = [])) as [->|Hne]; [done|].
  rewrite decide_False by (by rewrite join_empty). by rewrite append_assoc.
Qed.

Lemma stars_nonempty l : Forall (.≠ "") (map star l).
Proof. apply Forall_map, Forall_true. done. Qed.

(** The inner loop, after [done] extensions of a source. *)
Lemma filter_extensions_spec exts : forall pre before head,
  foldl (fun acc ie => filter_extension acc ie.1 ie.2)
    (join " " (map star (pre ++ before)), head +:+ join " " (map star before))
    (imap (fun i x => ((length before + i)%nat, x)) exts)
  = (join " " (map star (pre ++ before ++ exts)), head +:+ join " " (map star (before ++ exts))).
Proof.
  induction exts as [|x exts IH]; intros pre before head; [cbn [imap foldl]; by rewrite !app_nil_r|].
  cbn [imap foldl fst snd]. rewrite Nat.add_0_r. unfold filter_extension at 2. cbn [fst snd].
  rewrite join_step by apply stars_nonempty.
  replace ((if decide (0 < length before)%nat then (head +:+ join " " (map star before)) +:+ " "
      else head +:+ join " " (map star before)) +:+ ("*" +:+ x))
    with (head +:+ join " " (map star (before ++ [x]))).
  2: { rewrite map_app. cbn [map]. rewrite join_snoc. destruct before as [|y before].
       { rewrite decide_True, decide_False by (done || cbn; lia). cbn [map join]. by rewrite string_app_nil_r. }
       rewrite decide_False by done. rewrite decide_True by (cbn; lia).
       by rewrite !append_assoc. }
  specialize (IH pre (before ++ [x]) head). rewrite <- !(assoc_L (++)) in IH. cbn [app] in IH.
  rewrite <- IH, map_app. cbn [map]. rewrite <- (assoc_L (++)). f_equal.
  - by rewrite !map_app.
  - apply imap_ext. intros i y _. cbn. rewrite length_app. cbn [length]. f_equal. lia.
Qed.

Lemma source_filter_nonempty l : Forall (.≠ "") (map source_filter l).
Proof. apply Forall_map, Forall_true. intros p. unfold source_filter. by destruct (rp_name p). Qed.

Lemma filter_source_spec l p : filter (fun p => has_capability (capabilities p)
    PJ_DATA_SOURCE_CAPABILITY_FINITE_IMPORT = true /\ file_extensions p <> []) [p] = [p] ->
  filter_source (join " " (map star (concat (map file_extensions l))), join ";;" (map source_filter l)) p
  = (join " " (map star (concat (map file_extensions (l ++ [p])))), join ";;" (map source_filter (l ++ [p]))).
Proof.
  rewrite filter_cons. case_decide as Hp; [|done]. intros _. destruct Hp as [Hcap Hext].
  unfold filter_source. rewrite decide_False by (rewrite Hcap; intros [?|?]; done).
  set (per := join ";;" (map source_filter l)).
  set (head := (if decide (per = "") then per else per +:+ ";;") +:+ (rp_name p +:+ " (")).
  pose proof (filter_extensions_spec (file_extensions p) (concat (map file_extensions l)) [] head) as Hin.
  cbn [length map join] in Hin. rewrite app_nil_r, string_app_nil_r in Hin. cbn [app Nat.add] in Hin.
  change (imap pair (file_extensions p)) with (imap (fun i x => (i, x)) (file_extensions p)).
  rewrite Hin, !map_app, concat_app. cbn [map concat]. rewrite app_nil_r. f_equal; [by rewrite map_app|].
  rewrite <- (join_step ";;") by apply source_filter_nonempty. fold per.
  unfold head, source_filter. by rewrite !append_assoc.
Qed.

Lemma filter_sources_spec sources : forall l,
  foldl filter_source (join " " (map star (concat (map file_extensions l))), join ";;" (map source_filter l)) sources
  = let l := l ++ filter (fun p => has_capability (capabilities p) PJ_DATA_SOURCE_CAPABILITY_FINITE_IMPORT = true
                   /\ file_extensions p <> []) sources in
    (join " " (map star (concat (map file_extensions l))), join ";;" (map source_filter l)).
Proof.
  induction sources as [|p sources IH]; intros l; [by rewrite app_nil_r|]. cbn [foldl].
  rewrite filter_cons. case_decide as Hp.
  - rewrite filter_source_spec by (by rewrite filter_cons, decide_True). rewrite IH. cbn zeta.
    by rewrite <- (assoc_L (++)).
  - replace (filter_source _ p)
      with (join " " (map star (concat (map file_extensions l))), join ";;" (map source_filter l)); [apply IH|].
    unfold filter_source. rewrite decide_True; [done|]. destruct (decide (file_extensions p = [])); [by right|left].
    destruct (has_capability _ _); [by destruct Hp|done].
Qed.

(** The filter of the file dialog names every importer with its extensions,
    after one entry for all of them if there is any, and before one for all
    files. *)
Theorem buildFileFilter_spec c :
  buildFileFilter c =
  match importers c with
  | [] => "All files (*)"
  | sources =>
      "All supported files (" +:+ join " " (map star (concat (map file_extensions sources))) +:+ ");;"
      +:+ join ";;" (map source_filter sources) +:+ ";;All files (*)"
  end.
Proof.
  unfold buildFileFilter. change (foldl filter_source ("", "") (data_sources c))
    with (foldl filter_source (join " " (map star (concat (map file_extensions (@nil RuntimePlugin)))),
      join ";;" (map source_filter [])) (data_sources c)).
  rewrite filter_sources_spec. cbn zeta. cbn [app]. fold (importers c).
  destruct (importers c) as [|p l] eqn:Hi; [done|].
  assert (concat (map file_extensions (p :: l)) <> []) as Hne.
  { assert (p ∈ importers c) as [[_ Hp] _]%list_elem_of_filter by (rewrite Hi; left).
    cbn [map concat]. by intros [??]%app_eq_nil. }
  rewrite (decide_False (P := join " " _ = ""))
    by (intros ?%join_empty; [by apply map_eq_nil in H|apply stars_nonempty]).
  rewrite (decide_False (P := join ";;" _ = "")) by (intros ?%join_empty; [done|apply source_filter_nonempty]).
  rewrite decide_False by done. by rewrite !append_assoc.
Qed.
