(* ===== verification/CatalogDemo.v ===== *)
(** * CatalogDemo: a directory of plugins

    A concrete disk, on which the theorems of [RuntimeCatalog] are used: a data
    source and a parser, a library that is no plugin, and a data source that
    promises a dialog it does not have.  The second part is what happens where
    the hypotheses fail. *)

From S2P Require Import Prelude Float64 Json PluginDso PluginCatalog RuntimeCatalog.

(** Manifests are parsed by a table. *)
Definition manifest (id : string) (others : list (string * json)) : json :=
  JObject (list_to_map ([("id", JString id); ("name", JString id); ("version", JString "1.0")] ++ others)).
Definition manifests : list (string * json) :=
  [("{csv}", manifest "csv" [("file_extensions", JArray [JString "csv"; JString ".tsv"])]);
   ("{ros}", manifest "ros" [("encoding", JArray [JString "cdr"])]);
   ("{liar}", manifest "liar" [])].

#[local] Instance table_text : JsonText string := {|
  json_dump _ := None;
  json_parse t := snd <$> list_find (fun kv => kv.1 = t) manifests ≫= fun kv => Some kv.2
|}.

Definition what (t : string) : string := "syntax error in " +:+ t.

Definition no_symbol {A} (name : string) : Expected A := Err ("undefined symbol: " +:+ name).
Definition vtable (size : Z) (slots : list string) (json : string) (caps : Z) : Vtable :=
  mkVtable 4 size (list_to_set slots) (Some json) true (fun _ => caps) None.

Definition data_source_dso (json : string) (caps : Z) : Dso :=
  mkDso (Ok (Some 5)) (Ok (Some (vtable 128 data_source_slots json caps)))
    (no_symbol "PJ_get_message_parser_vtable") (no_symbol "PJ_get_toolbox_vtable")
    (no_symbol "PJ_get_dialog_vtable").
Definition parser_dso (json : string) : Dso :=
  mkDso (Ok (Some 5)) (no_symbol "PJ_get_data_source_vtable")
    (Ok (Some (vtable 88 message_parser_slots json 0))) (no_symbol "PJ_get_toolbox_vtable")
    (no_symbol "PJ_get_dialog_vtable").

(** The files, and the time of the data source. *)
Definition demo_fs (files : list string) (csv_time : Z) : FileSystem := {|
  fs_exists p := bool_decide (p = "/p");
  fs_is_directory p := bool_decide (p = "/p");
  recursive_directory_iterator _ := Ok (map (fun f => mkEntry f (Ok true) None) files);
  dlopen p :=
    if decide (p = "/p/csv.so") then Ok (data_source_dso "{csv}" 1)
    else if decide (p = "/p/link.so") then Ok (data_source_dso "{csv}" 1)
    else if decide (p = "/p/ros.so") then Ok (parser_dso "{ros}")
    else if decide (p = "/p/liar.so") then Ok (data_source_dso "{liar}" 33)
    else Err "invalid ELF header";
  weakly_canonical p := if decide (p = "/p/link.so") then Some "/p/csv.so" else Some p;
  last_write_time p := if decide (p = "/p/csv.so" \/ p = "/p/link.so") then Some csv_time else Some 3
|}.

Definition before : FileSystem := demo_fs ["/p/ros.so"; "/p/csv.so"; "/p/readme.txt"] 5.
Definition later : FileSystem := demo_fs ["/p/csv.so"; "/p/liar.so"; "/p/broken.so"] 7.

Definition scanned : PluginRuntimeCatalog :=
  default (make "/p" true "demo") (scanDirectory what before (make "/p" true "demo")).

Definition found_in (fs : FileSystem) : PluginScanResult :=
  match scanPluginDsos what fs "/p" with Some (Ok r) => r | _ => mkScan [] [] end.

Example scanned_plugins : map (fun e => (e.1, rp_id e.2, loaded_mtime e.2)) (all scanned)
  = [(kDataSource, "csv", 5); (kMessageParser, "ros", 3)].
Proof. vm_compute. reflexivity. Qed.

(** The source is newer, the parser gone, the liar refused. *)
Example reloaded_plugins :
  (fun r => (r.1, map (fun e => (e.1, rp_id e.2, loaded_mtime e.2)) (all r.2))) <$> reload what later scanned
  = Some (true, [(kDataSource, "csv", 7)]).
Proof. vm_compute. reflexivity. Qed.

Example demo_filter : buildFileFilter scanned
  = "All supported files (*.csv *.tsv);;csv (*.csv *.tsv);;All files (*)".
Proof. vm_compute. reflexivity. Qed.

Lemma NoDup_by (l l' : list string) : l = l' -> bool_decide (NoDup l') = true -> NoDup l.
Proof. intros ->. apply bool_decide_eq_true. Qed.

Lemma tracked_by c paths times : map tag_path (all c) = paths -> map (fun e => loaded_mtime e.2) (all c) = times ->
  bool_decide (NoDup paths) = true -> bool_decide (Forall (fun t => t <> 0) times) = true -> tracked c.
Proof.
  intros Hp Ht Hnd Hne. split.
  - by apply (NoDup_by _ paths).
  - apply bool_decide_eq_true in Hne. rewrite <- Ht, Forall_forall in Hne.
    apply Forall_forall. intros e He. apply Hne, list_elem_of_fmap. by exists e.
Qed.

Lemma scanned_tracked : tracked scanned.
Proof. apply (tracked_by _ ["/p/csv.so"; "/p/ros.so"] [5; 3]); vm_compute; reflexivity. Qed.

Lemma reload_reconciles_witness :
  exists changed c', reload what later scanned = Some (changed, c') /\ tracked c'
  /\ (forall p, entry_at c' p = settled later (plugins (found_in later)) scanned p)
  /\ (changed = true <-> exists p, entry_at c' p <> entry_at scanned p)
  /\ exists c'', reload what later c' = Some (false, c'') /\ forall p, entry_at c'' p = entry_at c' p.
Proof.
  apply (reload_reconciles what later scanned (plugins (found_in later)) (diagnostics (found_in later))).
  - apply scanned_tracked.
  - vm_compute. reflexivity.
  - apply (NoDup_by _ ["/p/csv.so"; "/p/liar.so"]); vm_compute; reflexivity.
Defined.

Lemma catalog_invariant_witness : Forall plugin_ok (all scanned).
Proof.
  apply (catalog_invariant what). apply (reach_scanDirectory what before (make "/p" true "demo")); [apply reach_make|].
  vm_compute. reflexivity.
Defined.

Lemma scan_loads_witness :
  all scanned ≡ₚ omap (loads before) (plugins (found_in before))
  /\ forall d, d ∈ plugins (found_in before) ->
       loads before d = None <-> family d = kDialog \/ promises_dialog before d.
Proof.
  apply (scan_loads what before (make "/p" true "demo") scanned _ (diagnostics (found_in before)));
    vm_compute; reflexivity.
Defined.

(** ** Where a file is reachable twice

    A link to a library and the library have one canonical path.  A reload
    loads the pair once; a scan loads it twice. *)

Definition linked : FileSystem := demo_fs ["/p/csv.so"; "/p/link.so"] 5.

Example scan_loads_links_twice :
  length ∘ all <$> scanDirectory what linked (make "/p" true "demo") = Some 2%nat
  /\ length ∘ all ∘ snd <$> reload what linked (make "/p" true "demo") = Some 1%nat.
Proof. split; vm_compute; reflexivity. Qed.

(** ** Where a time is unknown

    A plugin that was scanned while its time could not be read counts as not
    loaded, and its entry is found before a newer one: every reload loads it
    again. *)

Definition timeless (fs : FileSystem) : FileSystem := {|
  fs_exists := fs_exists fs; fs_is_directory := fs_is_directory fs;
  recursive_directory_iterator := recursive_directory_iterator fs; dlopen := dlopen fs;
  weakly_canonical := weakly_canonical fs; last_write_time _ := None |}.

Example unknown_time_loads_twice :
  (c ← scanDirectory what (timeless before) (make "/p" true "demo");
   r ← reload what before c;
   r' ← reload what before r.2;
   Some (r.1, map (fun e => rp_id e.2) (all r.2), r'.1, map (fun e => rp_id e.2) (all r'.2)))
  = Some (true, ["csv"; "csv"; "ros"; "ros"], true, ["csv"; "csv"; "csv"; "ros"; "ros"; "ros"]).
Proof. vm_compute. reflexivity. Qed.

(** ** Where a directory cannot be read

    The walk does not go on after an error. *)
Example unreadable_subtree :
  scanPluginDsos what {|
    fs_exists _ := true; fs_is_directory _ := true;
    recursive_directory_iterator _ :=
      Ok [mkEntry "/p/private" (Ok false) (Some "Permission denied"); mkEntry "/p/csv.so" (Ok true) None];
    dlopen := dlopen before; weakly_canonical p := Some p; last_write_time _ := Some 1 |} "/p" = None.
Proof. vm_compute. reflexivity. Qed.
