(* ===== verification/Types.v ===== *)
(** * Types: field types and their storage

    Models the enumerations of [src/pj_base/include/pj_base/type_tree.hpp]
    ([PrimitiveType]) and of
    [src/pj_datastore/include/pj_datastore/column_buffer.hpp] ([StorageKind],
    [EncodingType], [ColumnDescriptor]). *)

From S2P Require Import Prelude.

Inductive PrimitiveType : Set :=
| kFloat32 | kFloat64 | kInt8 | kInt16 | kInt32 | kInt64
| kUint8 | kUint16 | kUint32 | kUint64 | kBool | kString | kUnspecified.

#[export] Instance PrimitiveType_eq_dec : EqDecision PrimitiveType.
Proof. solve_decision. Defined.

Module StorageKind.
Inductive t : Set := kFloat32 | kFloat64 | kInt32 | kInt64 | kUint64 | kBool | kString.
End StorageKind.

#[export] Instance StorageKind_eq_dec : EqDecision StorageKind.t.
Proof. solve_decision. Defined.

Definition storageKindOf (t : PrimitiveType) : StorageKind.t :=
  match t with
  | kFloat32 => StorageKind.kFloat32
  | kFloat64 => StorageKind.kFloat64
  | kInt8 | kInt16 => StorageKind.kInt64
  | kInt32 => StorageKind.kInt32
  | kInt64 => StorageKind.kInt64
  | kUint8 | kUint16 | kUint32 | kUint64 => StorageKind.kUint64
  | kBool => StorageKind.kBool
  | kString => StorageKind.kString
  | kUnspecified => StorageKind.kFloat64
  end.

(** Byte size of a fixed-width element; 0 for strings. *)
Definition storageKindSize (k : StorageKind.t) : nat :=
  match k with
  | StorageKind.kFloat32 => 4
  | StorageKind.kFloat64 => 8
  | StorageKind.kInt32 => 4
  | StorageKind.kInt64 => 8
  | StorageKind.kUint64 => 8
  | StorageKind.kBool => 1
  | StorageKind.kString => 0
  end.

Inductive EncodingType : Set := kRaw | kDictionary | kPackedBool | kConstant | kFrameOfReference.

(** [field_id] is a [uint32_t]. *)
Record ColumnDescriptor := mkColumnDescriptor {
  field_id : Z; logical_type : PrimitiveType; field_path : string }.

#[export] Instance ColumnDescriptor_eq_dec : EqDecision ColumnDescriptor.
Proof. solve_decision. Defined.

Definition kind_of (d : ColumnDescriptor) : StorageKind.t := storageKindOf (logical_type d).
