(* ===== verification/Buffer.v ===== *)
(** * Buffer: byte buffers and validity bitmaps

    Models [src/pj_datastore/src/buffer.cpp] ([RawBuffer], [BitVector]) and the
    [BitSpan] view of [src/pj_base/include/pj_base/span.hpp].  Both classes are
    one [std::vector<uint8_t>] (and a bit count): a method is a function from
    the object before the call to the object after it, [None] where the code
    indexes the vector out of its bounds.  Capacity is not modelled. *)

From S2P Require Import Prelude.

(** ** RawBuffer *)

Module RawBuffer.

Definition append (buf data : bytes) : bytes := buf ++ data.

Definition resize (buf : bytes) (new_size : nat) : bytes :=
  take new_size buf ++ replicate (new_size - length buf) (z2b 0).

Definition clear (buf : bytes) : bytes := [].

End RawBuffer.

(** ** BitSpan *)

(** The bit [i] of packed bytes, least significant bit first; [false] past
    their end.  The specification of every bit access below. *)
Definition bit_at (bs : bytes) (i : nat) : bool :=
  match bs !! (i / 8)%nat with
  | Some b => Z.testbit (b2z b) (Z.of_nat (i mod 8))
  | None => false
  end.

(** [(byte & (1u << (i % 8))) != 0] *)
Definition byte_test (byte : Z) (k : nat) : bool :=
  negb (Z.land byte (Z.shiftl 1 (Z.of_nat k)) =? 0).

Record BitSpan := mkBitSpan { bs_bytes : bytes; bit_offset : nat; bit_length : nat }.

(** [PJ_ASSERT] is the guard. *)
Definition BitSpan_test (s : BitSpan) (i : nat) : option bool :=
  if decide (i < bit_length s)%nat then
    let bit := (bit_offset s + i)%nat in
    byte ← bs_bytes s !! (bit / 8)%nat;
    Some (byte_test (b2z byte) (bit mod 8))
  else None.

Definition BitSpan_subspan (s : BitSpan) (offset_bits count_bits : nat) : option BitSpan :=
  if decide (offset_bits <= bit_length s)%nat then
    if decide (offset_bits + count_bits <= bit_length s)%nat then
      Some (mkBitSpan (bs_bytes s) (bit_offset s + offset_bits) count_bits)
    else None
  else None.

(** ** BitVector *)

Record BitVector := mkBitVector { bv_bytes : bytes; bit_count : nat }.

Module BitVector.

Definition empty : BitVector := mkBitVector [] 0.

Definition bytesForBits (num_bits : nat) : nat := ((num_bits + 7) / 8)%nat.

Definition initValid (num_bits : nat) : BitVector :=
  mkBitVector (replicate (bytesForBits num_bits) (z2b 0xFF)) num_bits.

Definition ensureSize (bv : BitVector) (num_bits : nat) : BitVector :=
  let count := if decide (bit_count bv < num_bits)%nat then num_bits else bit_count bv in
  let needed := bytesForBits num_bits in
  if decide (length (bv_bytes bv) < needed)%nat
  then mkBitVector (RawBuffer.resize (bv_bytes bv) needed) count
  else mkBitVector (bv_bytes bv) count.

Definition setValid (bv : BitVector) (bit_index : nat) : option BitVector :=
  byte ← bv_bytes bv !! (bit_index / 8)%nat;
  let v := Z.lor (b2z byte) (u8 (Z.shiftl 1 (Z.of_nat (bit_index mod 8)))) in
  Some (mkBitVector (<[(bit_index / 8)%nat := z2b v]> (bv_bytes bv)) (bit_count bv)).

Definition setNull (bv : BitVector) (bit_index : nat) : option BitVector :=
  byte ← bv_bytes bv !! (bit_index / 8)%nat;
  let v := Z.land (b2z byte) (u8 (Z.lnot (Z.shiftl 1 (Z.of_nat (bit_index mod 8))))) in
  Some (mkBitVector (<[(bit_index / 8)%nat := z2b v]> (bv_bytes bv)) (bit_count bv)).

Definition isValid (bv : BitVector) (bit_index : nat) : option bool :=
  byte ← bv_bytes bv !! (bit_index / 8)%nat;
  Some (byte_test (b2z byte) (bit_index mod 8)).

Definition popcount (byte : Z) : nat :=
  length (filter (fun k => Z.testbit byte (Z.of_nat k) = true) (seq 0 8)).

Definition countNulls (bv : BitVector) (num_bits : nat) : option nat :=
  let num_bytes := bytesForBits num_bits in
  let full_bytes := (num_bits / 8)%nat in
  if decide (length (bv_bytes bv) < num_bytes)%nat then None
  else
    let total_set_bits := sum_list_with (fun b => popcount (b2z b)) (take full_bytes (bv_bytes bv)) in
    let remaining_bits := (num_bits mod 8)%nat in
    if decide (0 < remaining_bits /\ 0 < num_bytes)%nat then
      let mask := u8 (Z.shiftl 1 (Z.of_nat remaining_bits) - 1) in
      byte ← bv_bytes bv !! full_bytes;
      Some (num_bits - (total_set_bits + popcount (Z.land (b2z byte) mask)))%nat
    else Some (num_bits - total_set_bits)%nat.

Definition assignBytes (data : bytes) (count : nat) : BitVector := mkBitVector data count.

Definition bitSpan (bv : BitVector) : BitSpan := mkBitSpan (bv_bytes bv) 0 (bit_count bv).

Definition isEmpty (bv : BitVector) : bool := bool_decide (bit_count bv = 0%nat).

End BitVector.

(** ** Bits *)

Lemma byte_test_testbit byte k : byte_test byte k = Z.testbit byte (Z.of_nat k).
Proof.
  unfold byte_test. rewrite Z.shiftl_1_l.
  assert (Z.land byte (2 ^ Z.of_nat k) = if Z.testbit byte (Z.of_nat k) then 2 ^ Z.of_nat k else 0) as ->.
  { apply Z.bits_inj'. intros n Hn. rewrite Z.land_spec, Z.pow2_bits_eqb by lia.
    destruct (Z.eqb_spec (Z.of_nat k) n) as [<-|Hne].
    - destruct (Z.testbit byte (Z.of_nat k)); [by rewrite Z.pow2_bits_true by lia|by rewrite Z.bits_0].
    - rewrite andb_false_r. destruct (Z.testbit byte (Z.of_nat k)).
      + by rewrite Z.pow2_bits_false by lia.
      + by rewrite Z.bits_0. }
  destruct (Z.testbit byte (Z.of_nat k)); [|done].
  rewrite (proj2 (Z.eqb_neq _ 0)); [done|]. lia.
Qed.

Lemma div8_lt i n : (i < 8 * n)%nat -> (i / 8 < n)%nat.
Proof. intros. apply Nat.Div0.div_lt_upper_bound. lia. Qed.

Lemma bit_at_lookup bs i : (i < 8 * length bs)%nat ->
  exists b, bs !! (i / 8)%nat = Some b /\ bit_at bs i = Z.testbit (b2z b) (Z.of_nat (i mod 8)).
Proof.
  intros Hi. destruct (lookup_lt_is_Some_2 bs (i / 8)%nat (div8_lt _ _ Hi)) as [b Hb].
  exists b. split; [done|]. unfold bit_at. by rewrite Hb.
Qed.

(** Writing one byte of packed bits changes the eight bits of that byte. *)
Lemma bit_at_insert bs q z j : (q < length bs)%nat ->
  bit_at (<[q := z2b z]> bs) j
  = if decide (j / 8 = q)%nat then Z.testbit z (Z.of_nat (j mod 8)) else bit_at bs j.
Proof.
  intros Hq. unfold bit_at. case_decide as Hj.
  - rewrite Hj, list_lookup_insert_eq by done. rewrite b2z_z2b. change 256 with (2 ^ 8).
    pose proof (Nat.mod_upper_bound j 8). apply Z.mod_pow2_bits_low. lia.
  - by rewrite list_lookup_insert_ne by done.
Qed.

Lemma div_mod_eq8 i j : (i / 8 = j / 8)%nat -> (i mod 8 = j mod 8)%nat -> i = j.
Proof. intros H1 H2. rewrite (Nat.div_mod_eq i 8), (Nat.div_mod_eq j 8). lia. Qed.

Module BitVectorFacts.
Import BitVector.

Lemma isValid_bit bv i : (i < 8 * length (bv_bytes bv))%nat -> isValid bv i = Some (bit_at (bv_bytes bv) i).
Proof.
  intros Hi. destruct (bit_at_lookup _ _ Hi) as (b & Hb & ->). unfold isValid. rewrite Hb. simpl.
  by rewrite byte_test_testbit.
Qed.

(** [setValid] and [setNull] write one bit and keep every other. *)
Lemma setValid_bit bv i : (i < 8 * length (bv_bytes bv))%nat ->
  exists bs, setValid bv i = Some (mkBitVector bs (bit_count bv))
    /\ length bs = length (bv_bytes bv)
    /\ forall j, bit_at bs j = if decide (j = i) then true else bit_at (bv_bytes bv) j.
Proof.
  intros Hi. pose proof (div8_lt _ _ Hi) as Hq. destruct (bit_at_lookup _ _ Hi) as (b & Hb & _).
  pose proof (Nat.mod_upper_bound i 8 ltac:(lia)) as Hm.
  unfold setValid. rewrite Hb. cbn [mbind option_bind]. eexists. split; [done|].
  rewrite length_insert. split; [done|]. intros j. rewrite bit_at_insert by done.
  rewrite wrapU_small.
  2:{ rewrite Z.shiftl_1_l. split; [lia|]. apply Z.pow_lt_mono_r; lia. }
  rewrite Z.shiftl_1_l. case_decide as Hj.
  - rewrite Z.lor_spec, Z.pow2_bits_eqb by lia. case_decide as Hji.
    + subst. by rewrite Z.eqb_refl, orb_true_r.
    + rewrite (proj2 (Z.eqb_neq _ _)).
      * rewrite orb_false_r. unfold bit_at. by rewrite Hj, Hb.
      * intros He. apply Hji, div_mod_eq8; lia.
  - rewrite decide_False; [done|congruence].
Qed.

Lemma setNull_bit bv i : (i < 8 * length (bv_bytes bv))%nat ->
  exists bs, setNull bv i = Some (mkBitVector bs (bit_count bv))
    /\ length bs = length (bv_bytes bv)
    /\ forall j, bit_at bs j = if decide (j = i) then false else bit_at (bv_bytes bv) j.
Proof.
  intros Hi. pose proof (div8_lt _ _ Hi) as Hq. destruct (bit_at_lookup _ _ Hi) as (b & Hb & _).
  pose proof (Nat.mod_upper_bound i 8 ltac:(lia)) as Hm.
  unfold setNull. rewrite Hb. cbn [mbind option_bind]. eexists. split; [done|].
  rewrite length_insert. split; [done|]. intros j. rewrite bit_at_insert by done.
  case_decide as Hj.
  - pose proof (Nat.mod_upper_bound j 8 ltac:(lia)) as Hmj.
    rewrite Z.land_spec. unfold wrapU. rewrite Z.mod_pow2_bits_low by lia.
    rewrite Z.lnot_spec by lia. rewrite Z.shiftl_1_l, Z.pow2_bits_eqb by lia.
    case_decide as Hji.
    + subst. by rewrite Z.eqb_refl, andb_false_r.
    + rewrite (proj2 (Z.eqb_neq _ _)).
      * rewrite andb_true_r. unfold bit_at. by rewrite Hj, Hb.
      * intros He. apply Hji, div_mod_eq8; lia.
  - rewrite decide_False; [done|congruence].
Qed.

Lemma bytesForBits_enough n : (n <= 8 * bytesForBits n)%nat.
Proof.
  unfold bytesForBits. pose proof (Nat.div_mod_eq (n + 7) 8).
  pose proof (Nat.mod_upper_bound (n + 7) 8). lia.
Qed.

Lemma initValid_bit n i : (i < n)%nat -> bit_at (bv_bytes (initValid n)) i = true.
Proof.
  intros Hi. pose proof (bytesForBits_enough n). unfold initValid, bit_at. cbn [bv_bytes].
  rewrite lookup_replicate_2 by (apply div8_lt; lia).
  pose proof (Nat.mod_upper_bound i 8 ltac:(lia)) as Hm.
  rewrite b2z_z2b. change (255 mod 256) with (Z.ones 8). apply Z.ones_spec_low. lia.
Qed.

Lemma ensureSize_length bv n : (n <= 8 * length (bv_bytes (ensureSize bv n)))%nat
  /\ (length (bv_bytes bv) <= length (bv_bytes (ensureSize bv n)))%nat.
Proof.
  pose proof (bytesForBits_enough n). unfold ensureSize, RawBuffer.resize.
  destruct (decide (length (bv_bytes bv) < bytesForBits n)%nat); cbn [bv_bytes]; [|lia].
  rewrite length_app, length_take, length_replicate. lia.
Qed.

Lemma ensureSize_count bv n :
  (n <= bit_count (ensureSize bv n))%nat /\ (bit_count bv <= bit_count (ensureSize bv n))%nat.
Proof.
  unfold ensureSize. destruct (decide (length (bv_bytes bv) < bytesForBits n)%nat); cbn [bit_count];
    destruct (decide (bit_count bv < n)%nat); lia.
Qed.

(** Growing the bitmap keeps the bits it had. *)
Lemma ensureSize_bit bv n i : (i < 8 * length (bv_bytes bv))%nat ->
  bit_at (bv_bytes (ensureSize bv n)) i = bit_at (bv_bytes bv) i.
Proof.
  intros Hi%div8_lt. unfold ensureSize, RawBuffer.resize, bit_at.
  destruct (decide (length (bv_bytes bv) < bytesForBits n)%nat); cbn [bv_bytes]; [|done].
  rewrite lookup_app_l by (rewrite length_take; lia). by rewrite lookup_take_lt by lia.
Qed.

(** ** Counting nulls *)

Definition count_bits (f : nat -> bool) (n : nat) : nat :=
  length (filter (fun i => f i = true) (seq 0 n)).

Lemma count_bits_S f n : count_bits f (S n) = (count_bits f n + if f n then 1 else 0)%nat.
Proof.
  unfold count_bits. rewrite seq_S, filter_app, length_app. simpl. f_equal.
  rewrite filter_cons. destruct (f n); by case_decide.
Qed.

Lemma count_bits_add f m n : count_bits f (m + n) = (count_bits f m + count_bits (fun i => f (m + i)%nat) n)%nat.
Proof.
  induction n as [|n IH]; [rewrite Nat.add_0_r; unfold count_bits; simpl; lia|].
  rewrite Nat.add_succ_r, !count_bits_S, IH. lia.
Qed.

Lemma count_bits_ext f g n : (forall i, (i < n)%nat -> f i = g i) -> count_bits f n = count_bits g n.
Proof.
  induction n as [|n IH]; intros H; [done|]. rewrite !count_bits_S, IH, H by (intros; auto with lia). done.
Qed.

Lemma count_bits_le f n : (count_bits f n <= n)%nat.
Proof. induction n as [|n IH]; [done|]. rewrite count_bits_S. destruct (f n); lia. Qed.

Lemma popcount_bits byte : popcount byte = count_bits (fun k => Z.testbit byte (Z.of_nat k)) 8.
Proof. done. Qed.

Lemma bit_at_cons b bs i : bit_at (b :: bs) (8 + i) = bit_at bs i.
Proof.
  unfold bit_at. replace (8 + i)%nat with (i + 1 * 8)%nat by lia.
  rewrite Nat.div_add, Nat.Div0.mod_add by done. by rewrite Nat.add_1_r.
Qed.

Lemma bit_at_head b bs i : (i < 8)%nat -> bit_at (b :: bs) i = Z.testbit (b2z b) (Z.of_nat i).
Proof. intros. unfold bit_at. rewrite Nat.div_small, Nat.mod_small by done. done. Qed.

Lemma popcount_bytes k bs : (k <= length bs)%nat ->
  sum_list_with (fun b => popcount (b2z b)) (take k bs) = count_bits (bit_at bs) (8 * k).
Proof.
  revert bs. induction k as [|k IH]; intros [|b bs] Hk; try done; [simpl in *; lia|].
  cbn [take sum_list_with]. rewrite IH by (simpl in *; lia).
  replace (8 * S k)%nat with (8 + 8 * k)%nat by lia. rewrite count_bits_add.
  rewrite popcount_bits. rewrite (count_bits_ext (bit_at (b :: bs)) (fun i => Z.testbit (b2z b) (Z.of_nat i)) 8).
  - rewrite (count_bits_ext (fun i => bit_at (b :: bs) (8 + i)) (bit_at bs) (8 * k)); [done|].
    intros. by rewrite bit_at_cons.
  - intros. by rewrite bit_at_head.
Qed.

Lemma popcount_mask byte r : (r <= 8)%nat ->
  popcount (Z.land byte (u8 (Z.shiftl 1 (Z.of_nat r) - 1)))
  = count_bits (fun k => Z.testbit byte (Z.of_nat k)) r.
Proof.
  intros Hr. rewrite popcount_bits. rewrite Z.shiftl_1_l.
  replace (2 ^ Z.of_nat r - 1) with (Z.ones (Z.of_nat r)) by (rewrite Z.ones_equiv; lia).
  replace 8%nat with (r + (8 - r))%nat by lia. rewrite count_bits_add.
  rewrite (count_bits_ext _ (fun k => Z.testbit byte (Z.of_nat k)) r).
  - rewrite (count_bits_ext _ (fun _ => false) (8 - r)).
    + enough (count_bits (fun _ => false) (8 - r) = 0)%nat by lia.
      generalize (8 - r)%nat as n. induction n as [|n IH]; [done|]. rewrite count_bits_S, IH. done.
    + intros i Hi. rewrite Z.land_spec. unfold wrapU.
      rewrite Z.mod_pow2_bits_low, Z.ones_spec_high by lia. apply andb_false_r.
  - intros i Hi. rewrite Z.land_spec. unfold wrapU.
    rewrite Z.mod_pow2_bits_low, Z.ones_spec_low by lia. apply andb_true_r.
Qed.

Lemma countNulls_bits bv n : (n <= 8 * length (bv_bytes bv))%nat ->
  countNulls bv n = Some (n - count_bits (bit_at (bv_bytes bv)) n)%nat.
Proof.
  intros Hn. pose proof (Nat.div_mod_eq n 8) as Hdm. pose proof (Nat.mod_upper_bound n 8 ltac:(lia)) as Hm.
  assert (Hb : (bytesForBits n = n / 8 + if decide (0 < n mod 8) then 1 else 0)%nat).
  { unfold bytesForBits. case_decide as Hd.
    - symmetry. apply (Nat.div_unique _ _ _ (n mod 8 - 1)); lia.
    - symmetry. apply (Nat.div_unique _ _ _ 7); lia. }
  unfold countNulls. rewrite decide_False by (rewrite Hb; case_decide; lia).
  rewrite popcount_bytes by lia.
  destruct (decide (0 < n mod 8 /\ 0 < bytesForBits n)%nat) as [Hr|Hr].
  - assert (Hlt : (n / 8 < length (bv_bytes bv))%nat) by (rewrite decide_True in Hb by lia; lia).
    destruct (lookup_lt_is_Some_2 _ _ Hlt) as [b Hl]. rewrite Hl. cbn [mbind option_bind].
    rewrite popcount_mask by lia. do 2 f_equal.
    transitivity (count_bits (bit_at (bv_bytes bv)) (8 * (n / 8) + n mod 8)); [|by rewrite <- Hdm].
    rewrite count_bits_add. f_equal. apply count_bits_ext. intros i Hi. unfold bit_at.
    replace (8 * (n / 8) + i)%nat with (i + n / 8 * 8)%nat by lia.
    rewrite Nat.div_add, Nat.Div0.mod_add, Nat.div_small, Nat.mod_small by lia. by rewrite Nat.add_0_l, Hl.
  - assert (Hz : (n mod 8 = 0)%nat).
    { destruct (decide (n mod 8 = 0)%nat); [done|]. exfalso. apply Hr. rewrite Hb, decide_True; lia. }
    rewrite Hz, Nat.add_0_r in Hdm. by rewrite <- Hdm.
Qed.

(** ** Views *)

Lemma BitSpan_test_bit s i : (i < bit_length s)%nat ->
  (bit_offset s + bit_length s <= 8 * length (bs_bytes s))%nat ->
  BitSpan_test s i = Some (bit_at (bs_bytes s) (bit_offset s + i)).
Proof.
  intros Hi Hl. unfold BitSpan_test. rewrite decide_True by done.
  destruct (bit_at_lookup (bs_bytes s) (bit_offset s + i) ltac:(lia)) as (b & Hb & ->).
  rewrite Hb. cbn [mbind option_bind]. by rewrite byte_test_testbit.
Qed.

(** A sub-view reads the bits of the view it was cut from. *)
Lemma BitSpan_subspan_test s off n s' i :
  BitSpan_subspan s off n = Some s' -> (i < n)%nat -> BitSpan_test s' i = BitSpan_test s (off + i).
Proof.
  unfold BitSpan_subspan. intros H Hi. repeat case_decide; simplify_eq.
  unfold BitSpan_test. cbn [bit_length bit_offset bs_bytes]. rewrite !decide_True by lia.
  by rewrite Nat.add_assoc.
Qed.

End BitVectorFacts.
