(* ===== verification/Encoding.v ===== *)
(** * Encoding: the column encodings of sealed chunks

    Models [src/pj_datastore/src/encoding.cpp]: constant, frame of reference,
    dictionary and packed-bool encodings.  A [memcpy] out of a buffer is
    [load], and a result is [None] where the code would read past the end of
    its input.  Integers keep their width: what is written narrow is reduced
    modulo the width, what is read is what those bytes denote. *)

From S2P Require Import Prelude Float64 Types Buffer.

(** ** The variants of [EncodedData] *)

Record ConstantEncoded := mkConstant {
  value_bytes : bytes; value_kind : StorageKind.t; value_size : nat; const_count : nat }.

Record FrameOfReferenceEncoded := mkFor {
  reference : Z; offset_bytes : nat; for_offsets : bytes; for_count : nat }.

Record DictionaryEncoded := mkDict {
  dictionary : list bytes; indices : bytes; index_bytes : nat; dict_count : nat }.

Record PackedBools := mkPacked { bits : bytes; packed_count : nat }.

Inductive EncodedData :=
| Raw (buf : bytes)
| Constant (enc : ConstantEncoded)
| FrameOfReference (enc : FrameOfReferenceEncoded)
| Dictionary (enc : DictionaryEncoded)
| Packed (enc : PackedBools).

Definition indexBytesFor (dict_size : Z) : nat :=
  if dict_size <=? 256 then 1 else if dict_size <=? 65536 then 2 else 4.

Definition offsetBytesFor (range : Z) : nat :=
  if range <? 256 then 1 else if range <? 65536 then 2
  else if range <? Z.shiftl 1 32 then 4 else 8.

(** The width [write_index] and [forEncode] really use: their [default]
    branch stores 32 bits. *)
Definition stored_width (width : nat) : nat := match width with 1%nat => 1 | 2%nat => 2 | _ => 4 end.

Definition write_index (buf : bytes) (index : Z) (width : nat) : bytes :=
  RawBuffer.append buf (le_bytes (stored_width width) index).

Definition read_index (data : bytes) (row : nat) (width : nat) : option Z :=
  match width with
  | 1%nat => load 1 row data
  | 2%nat => load 2 (row * 2) data
  | _ => load 4 (row * 4) data
  end.

(** ** Constant encoding *)

Definition zero_bytes (n : nat) : bytes := replicate n (z2b 0).

Definition constantEncode (data : bytes) (kind : StorageKind.t) (count : nat) : option ConstantEncoded :=
  let esize := storageKindSize kind in
  if decide (0 < esize /\ 0 < count)%nat then
    if decide (esize <= length data)%nat
    then Some (mkConstant (take esize data ++ zero_bytes (8 - esize)) kind esize count)
    else None
  else Some (mkConstant (zero_bytes 8) kind esize count).

Definition constantDecodeAsDouble (enc : ConstantEncoded) : option double :=
  let ptr := value_bytes enc in
  match value_kind enc with
  | StorageKind.kFloat32 => v ← load 4 0 ptr; Some (f64_of_f32 (f32_of_bits v))
  | StorageKind.kFloat64 => v ← load 8 0 ptr; Some (f64_of_bits v)
  | StorageKind.kInt32 => v ← load 4 0 ptr; Some (f64_of_Z (i32 v))
  | StorageKind.kInt64 => v ← load 8 0 ptr; Some (f64_of_Z (i64 v))
  | StorageKind.kUint64 => v ← load 8 0 ptr; Some (f64_of_Z v)
  | StorageKind.kBool | StorageKind.kString => Some f64_zero
  end.

Definition constantDecodeAsInt64 (enc : ConstantEncoded) : option Z :=
  let ptr := value_bytes enc in
  match value_kind enc with
  | StorageKind.kInt32 => v ← load 4 0 ptr; Some (i32 v)
  | StorageKind.kInt64 => v ← load 8 0 ptr; Some (i64 v)
  | StorageKind.kUint64 => v ← load 8 0 ptr; Some (i64 v)
  | StorageKind.kFloat32 => v ← load 4 0 ptr; f64_to_s64 (f32_of_bits v)
  | StorageKind.kFloat64 => v ← load 8 0 ptr; f64_to_s64 (f64_of_bits v)
  | _ => Some 0
  end.

Definition constantDecodeAsUint64 (enc : ConstantEncoded) : option Z :=
  let ptr := value_bytes enc in
  match value_kind enc with
  | StorageKind.kUint64 => load 8 0 ptr
  | StorageKind.kInt32 => v ← load 4 0 ptr; Some (u64 (i32 v))
  | StorageKind.kInt64 => v ← load 8 0 ptr; Some (u64 (i64 v))
  | StorageKind.kFloat32 => v ← load 4 0 ptr; f64_to_u64 (f32_of_bits v)
  | StorageKind.kFloat64 => v ← load 8 0 ptr; f64_to_u64 (f64_of_bits v)
  | _ => Some 0
  end.

(** ** Frame of reference *)

(** The value read at row [i] of an integer column: an [int32_t] is
    sign-extended, everything else is read as an [int64_t]. *)
Definition read_integer (data : bytes) (kind : StorageKind.t) (i : nat) : option Z :=
  let esize := storageKindSize kind in
  if decide (kind = StorageKind.kInt32) then i32 <$> load 4 (i * esize) data
  else i64 <$> load 8 (i * esize) data.

Fixpoint forEncode_loop (n i : nat) (data : bytes) (kind : StorageKind.t) (min_val : Z)
    (width : nat) (out : bytes) : option bytes :=
  match n with
  | O => Some out
  | S n' =>
      val ← read_integer data kind i;
      let offset := u64 (val - min_val) in
      forEncode_loop n' (S i) data kind min_val width
        (RawBuffer.append out (le_bytes (stored_width width) offset))
  end.

Definition forEncode (data : bytes) (kind : StorageKind.t) (count : nat) (min_val max_val : Z)
  : option FrameOfReferenceEncoded :=
  let range := u64 (i64 (max_val - min_val)) in
  let width := offsetBytesFor range in
  offsets ← forEncode_loop count 0 data kind min_val width [];
  Some (mkFor min_val width offsets count).

(** [for_read_offset] has the body of [read_index]. *)
Definition for_read_offset (data : bytes) (row width : nat) : option Z := read_index data row width.

Definition forDecodeOneAsDouble (enc : FrameOfReferenceEncoded) (row : nat) : option double :=
  offset ← for_read_offset (for_offsets enc) row (offset_bytes enc);
  Some (f64_add (f64_of_Z (reference enc)) (f64_of_Z offset)).

Definition forDecodeOneAsInt64 (enc : FrameOfReferenceEncoded) (row : nat) : option Z :=
  offset ← for_read_offset (for_offsets enc) row (offset_bytes enc);
  Some (i64 (reference enc + i64 offset)).

(** [out[i] = ref + double(src[i])] for each [i] below [count]. *)
Definition forDecodeRangeAsDoubles (enc : FrameOfReferenceEncoded) (count row_start : nat)
  : option (list double) :=
  let ref := f64_of_Z (reference enc) in
  let base := for_offsets enc in
  match offset_bytes enc with
  | 1%nat => mapM (fun i => v ← load 1 (row_start + i) base; Some (f64_add ref (f64_of_Z v))) (seq 0 count)
  | 2%nat => mapM (fun i => v ← load 2 (row_start * 2 + i * 2) base; Some (f64_add ref (f64_of_Z v)))
           (seq 0 count)
  | _ => mapM (fun i => v ← load 4 (row_start * 4 + i * 4) base; Some (f64_add ref (f64_of_Z v)))
           (seq 0 count)
  end.

(** ** Dictionary encoding *)

(** [std::string_view(data + start, len)]. *)
Definition substring (data : bytes) (start len : nat) : option bytes :=
  if decide (start + len <= length data)%nat then Some (take len (drop start data)) else None.

(** Row [row] of an offsets-and-values pair; [end - start] is a [uint32_t]. *)
Definition read_string_at (offsets_data values_data : bytes) (row : nat) : option bytes :=
  start_offset ← load 4 (row * 4) offsets_data;
  end_offset ← load 4 ((row + 1) * 4) offsets_data;
  substring values_data (Z.to_nat start_offset) (Z.to_nat (u32 (end_offset - start_offset))).

Record DictState := mkDictState {
  ds_dictionary : list bytes; ds_lookup : gmap bytes Z; ds_indices : list Z }.

(** One iteration of the first pass, on the key just read. *)
Definition dict_add (s : DictState) (key_str : bytes) : DictState :=
  match ds_lookup s !! key_str with
  | Some index => mkDictState (ds_dictionary s) (ds_lookup s) (ds_indices s ++ [index])
  | None =>
      let index := u32 (Z.of_nat (length (ds_dictionary s))) in
      mkDictState (ds_dictionary s ++ [key_str]) (<[key_str := index]> (ds_lookup s))
        (ds_indices s ++ [index])
  end.

Fixpoint dict_loop (n row : nat) (offsets_data values_data : bytes) (s : DictState) : option DictState :=
  match n with
  | O => Some s
  | S n' =>
      key_str ← read_string_at offsets_data values_data row;
      dict_loop n' (S row) offsets_data values_data (dict_add s key_str)
  end.

Definition dictionaryEncodeStrings (offsets_data values_data : bytes) (row_count : nat)
  : option DictionaryEncoded :=
  if decide (row_count = 0)%nat then Some (mkDict [] [] 1 0)
  else
    s ← dict_loop row_count 0 offsets_data values_data (mkDictState [] ∅ []);
    let width := indexBytesFor (Z.of_nat (length (ds_dictionary s))) in
    Some (mkDict (ds_dictionary s)
            (fold_left (fun buf idx => write_index buf idx width) (ds_indices s) []) width row_count).

Definition dictionaryLookup (encoded : DictionaryEncoded) (row : nat) : option bytes :=
  index ← read_index (indices encoded) row (index_bytes encoded);
  if Z.of_nat (length (dictionary encoded)) <=? index then Some []
  else dictionary encoded !! Z.to_nat index.

(** ** Packed bools *)

Definition packBools_step (values : bytes) (bit_data : bytes) (i : nat) : bytes :=
  if b2z (nth i values (z2b 0)) =? 0 then bit_data
  else
    match bit_data !! (i / 8)%nat with
    | Some b => <[(i / 8)%nat := z2b (Z.lor (b2z b) (u8 (Z.shiftl 1 (Z.of_nat (i mod 8)))))]> bit_data
    | None => bit_data  (* not reached: the buffer holds a bit per value *)
    end.

Definition packBools (values : bytes) : PackedBools :=
  let count := length values in
  if decide (count = 0)%nat then mkPacked [] 0
  else
    let num_bytes := ((count + 7) / 8)%nat in
    mkPacked (fold_left (packBools_step values) (seq 0 count) (zero_bytes num_bytes)) count.

Definition unpackBool (packed : PackedBools) (index : nat) : option bool :=
  byte_val ← load 1 (index / 8)%nat (bits packed);
  Some (byte_test byte_val (index mod 8)).

(** ** Narrow indices and offsets *)

Lemma read_index_load data row w : read_index data row w = load (stored_width w) (row * stored_width w) data.
Proof. destruct w as [|[|[|w]]]; simpl; try done. by rewrite Nat.mul_1_r. Qed.

(** What a column of narrow values holds, read back at row [i]. *)
Lemma read_index_narrow zs w i z k :
  zs !! i = Some z -> in_u (8 * Z.of_nat (stored_width w)) z ->
  read_index (concat (map (le_bytes (stored_width w)) zs) ++ k) i w = Some z.
Proof.
  intros Hi Hz. rewrite read_index_load, (load_block_le _ _ _ _ _ Hi). by rewrite Z.mod_small.
Qed.

Lemma offsetBytesFor_fits range : 0 <= range < 2 ^ 32 ->
  in_u (8 * Z.of_nat (stored_width (offsetBytesFor range))) range.
Proof.
  intros Hr. unfold offsetBytesFor, in_u. change (Z.shiftl 1 32) with (2 ^ 32).
  repeat case_match; simpl; lia.
Qed.

Lemma indexBytesFor_fits n i : 0 <= i < n -> n <= 2 ^ 32 ->
  in_u (8 * Z.of_nat (stored_width (indexBytesFor n))) i.
Proof. intros Hi Hn. unfold indexBytesFor, in_u. repeat case_match; simpl; lia. Qed.

(** ** Frame of reference: what is encoded decodes *)

Lemma forEncode_loop_app n i data kind mn w out zs :
  (forall k, (k < n)%nat -> read_integer data kind (i + k) = zs !! k) -> length zs = n ->
  forEncode_loop n i data kind mn w out
  = Some (out ++ concat (map (fun z => le_bytes (stored_width w) (u64 (z - mn))) zs)).
Proof.
  revert i out zs. induction n as [|n IH]; intros i out zs Hr Hl.
  - destruct zs; [|done]. simpl. by rewrite app_nil_r.
  - destruct zs as [|z zs]; [done|]. simpl. pose proof (Hr 0%nat ltac:(lia)) as H0.
    rewrite Nat.add_0_r in H0. rewrite H0. cbn [lookup list_lookup mbind option_bind].
    rewrite (IH (S i) _ zs); [unfold RawBuffer.append; by rewrite <- app_assoc| |by simplify_eq/=].
    intros k Hk. specialize (Hr (S k) ltac:(lia)). rewrite Nat.add_succ_r in Hr. done.
Qed.

(** The values of an integer column are the rows [zs]. *)
Definition integer_rows (data : bytes) (kind : StorageKind.t) (zs : list Z) : Prop :=
  forall k, (k < length zs)%nat -> read_integer data kind k = zs !! k.

Lemma forEncode_ok data kind zs mn mx :
  integer_rows data kind zs -> Forall (fun z => mn <= z <= mx) zs ->
  in_s 64 mn -> mx - mn < 2 ^ 32 -> zs <> [] ->
  exists enc, forEncode data kind (length zs) mn mx = Some enc /\ for_count enc = length zs
    /\ reference enc = mn /\ offset_bytes enc = offsetBytesFor (mx - mn)
    /\ for_offsets enc = concat (map (le_bytes (stored_width (offset_bytes enc)))
                                   (map (fun z => z - mn) zs)).
Proof.
  intros Hrows Hall Hmn Hrange Hne.
  assert (Hw : u64 (i64 (mx - mn)) = mx - mn).
  { assert (mn <= mx) by (destruct Hall; [done|lia]).
    rewrite wrapS_small, wrapU_small; unfold in_u, in_s; lia. }
  unfold forEncode. rewrite (forEncode_loop_app _ _ _ _ _ _ _ zs) by done.
  eexists. split; [done|]. cbn [for_count reference offset_bytes for_offsets]. rewrite Hw.
  do 3 (split; [done|]). rewrite app_nil_l. f_equal. rewrite map_map.
  apply map_ext_in. intros z Hz%list_elem_of_In. rewrite Forall_forall in Hall.
  specialize (Hall z Hz). by rewrite wrapU_small by (unfold in_u; lia).
Qed.

Lemma forDecode_ok data kind zs mn mx enc i z :
  integer_rows data kind zs -> Forall (fun z => mn <= z <= mx) zs ->
  in_s 64 mn -> in_s 64 mx -> mx - mn < 2 ^ 32 ->
  forEncode data kind (length zs) mn mx = Some enc -> zs !! i = Some z ->
  for_read_offset (for_offsets enc) i (offset_bytes enc) = Some (z - mn)
  /\ forDecodeOneAsInt64 enc i = Some z.
Proof.
  intros Hrows Hall Hmn Hmx Hrange Henc Hi.
  assert (Hne : zs <> []) by (by intros ->).
  destruct (forEncode_ok data kind zs mn mx) as (e & He & _ & Href & Hob & Hoff); [done..|].
  rewrite Henc in He. simplify_eq.
  rewrite Forall_lookup in Hall. pose proof (Hall i z Hi) as Hz.
  assert (Hread : for_read_offset (for_offsets e) i (offset_bytes e) = Some (z - reference e)).
  { unfold for_read_offset. rewrite Hoff, <- (app_nil_r (concat _)). apply read_index_narrow.
    - rewrite list_lookup_fmap, Hi. done.
    - rewrite Hob. pose proof (offsetBytesFor_fits (mx - reference e) ltac:(lia)).
      unfold in_u in *. lia. }
  split; [done|]. unfold forDecodeOneAsInt64. rewrite Hread. cbn [mbind option_bind]. f_equal.
  unfold in_s in *. rewrite (wrapS_small 64 (z - reference e)) by (unfold in_s; lia).
  rewrite wrapS_small by (unfold in_s; lia). lia.
Qed.

(** The bulk decoder agrees with the row decoder on every row. *)
Lemma mapM_ext_seq {A} (f g : nat -> option A) s n :
  (forall i, (s <= i < s + n)%nat -> f i = g i) -> mapM f (seq s n) = mapM g (seq s n).
Proof.
  revert s. induction n as [|n IH]; intros s H; [done|]. cbn [seq mapM].
  rewrite H by lia. destruct (g s); [|done]. simpl. by rewrite IH by (intros; apply H; lia).
Qed.

Lemma forDecodeRange_rows enc count row_start :
  forDecodeRangeAsDoubles enc count row_start
  = mapM (fun i => forDecodeOneAsDouble enc (row_start + i)) (seq 0 count).
Proof.
  unfold forDecodeRangeAsDoubles, forDecodeOneAsDouble, for_read_offset, read_index.
  destruct (offset_bytes enc) as [|[|[|w]]]; try done; apply mapM_ext_seq; intros i _;
    by rewrite <- Nat.mul_add_distr_r.
Qed.

(** ** Dictionary *)

(** The offsets of consecutive strings from [base] on, the sentinel included. *)
Fixpoint string_offsets (base : nat) (ss : list bytes) : list Z :=
  match ss with
  | [] => [Z.of_nat base]
  | s :: ss' => Z.of_nat base :: string_offsets (base + length s) ss'
  end.

Lemma string_offsets_lookup base ss i : (i <= length ss)%nat ->
  string_offsets base ss !! i = Some (Z.of_nat (base + length (concat (take i ss)))).
Proof.
  revert base i. induction ss as [|s ss IH]; intros base [|i] Hi; simpl in *.
  - by rewrite Nat.add_0_r.
  - lia.
  - by rewrite Nat.add_0_r.
  - rewrite IH by lia. do 2 f_equal. rewrite length_app. lia.
Qed.

Lemma string_offsets_snoc base ss s :
  string_offsets base (ss ++ [s])
  = string_offsets base ss ++ [Z.of_nat (base + length (concat ss) + length s)].
Proof.
  revert base. induction ss as [|a ss IH]; intros base; simpl.
  - by rewrite Nat.add_0_r.
  - rewrite IH. do 3 f_equal. rewrite length_app. lia.
Qed.

Lemma concat_take_drop_mid {A} (ss : list (list A)) i s : ss !! i = Some s ->
  concat ss = concat (take i ss) ++ s ++ concat (drop (S i) ss).
Proof.
  intros Hi. rewrite <- (take_drop_middle _ _ _ Hi) at 1. by rewrite concat_app.
Qed.

(** Offsets and values written for [ss] give the strings back. *)
Lemma read_string_at_ok ss i s :
  ss !! i = Some s -> Z.of_nat (length (concat ss)) < 2 ^ 32 ->
  read_string_at (concat (map (le_bytes 4) (string_offsets 0 ss))) (concat ss) i = Some s.
Proof.
  intros Hi Hl. pose proof (lookup_lt_Some _ _ _ Hi) as Hlt.
  pose proof (concat_take_drop_mid _ _ _ Hi) as Hmid.
  pose proof (f_equal length Hmid) as Hlen. rewrite !length_app in Hlen.
  unfold read_string_at. rewrite <- (app_nil_r (concat (map _ _))).
  rewrite (load_block_le 4 _ i (Z.of_nat (length (concat (take i ss)))))
    by (rewrite string_offsets_lookup by lia; done).
  rewrite (load_block_le 4 _ (i + 1) (Z.of_nat (length (concat (take i ss)) + length s))).
  2:{ rewrite string_offsets_lookup by lia. rewrite Nat.add_1_r, (take_S_r _ _ _ Hi).
      rewrite concat_app, length_app. simpl. by rewrite app_nil_r. }
  cbn [mbind option_bind]. rewrite !Z.mod_small by lia.
  rewrite wrapU_small by (unfold in_u; lia).
  replace (Z.to_nat (Z.of_nat _ - Z.of_nat _)) with (length s) by lia. rewrite Nat2Z.id.
  unfold substring. rewrite decide_True by lia. rewrite Hmid.
  by rewrite drop_app_length, take_app_length.
Qed.

(** The invariant of the first pass: the lookup table inverts the dictionary,
    whose entries are distinct, and the indices decode to the rows read. *)
Record dict_inv (s : DictState) (rows : list bytes) : Prop := {
  di_nodup : NoDup (ds_dictionary s);
  di_lookup : forall k i, ds_lookup s !! k = Some i <->
    exists n, i = Z.of_nat n /\ ds_dictionary s !! n = Some k;
  di_rows : Forall2 (fun i row => exists n, i = Z.of_nat n /\ ds_dictionary s !! n = Some row)
              (ds_indices s) rows;
  di_size : (length (ds_dictionary s) <= length rows)%nat
}.

Lemma dict_inv_empty : dict_inv (mkDictState [] ∅ []) [].
Proof.
  split; simpl; [apply NoDup_nil_2| |constructor|lia].
  intros k i. rewrite lookup_empty. split; [done|]. by intros (n & _ & ?).
Qed.

Lemma dict_add_inv s rows key : dict_inv s rows -> Z.of_nat (length rows) < 2 ^ 32 ->
  dict_inv (dict_add s key) (rows ++ [key]).
Proof.
  intros [Hnd Hlk Hrows Hsz] Hlen. unfold dict_add. destruct (ds_lookup s !! key) as [index|] eqn:E.
  - apply Hlk in E as (n & -> & Hn). split; cbn [ds_dictionary ds_lookup ds_indices]; try done.
    + apply Forall2_app; [done|]. constructor; [eauto|constructor].
    + rewrite length_app. lia.
  - rewrite wrapU_small by (unfold in_u; lia).
    assert (Hnew : key ∉ ds_dictionary s).
    { intros [n Hn]%list_elem_of_lookup. enough (ds_lookup s !! key = Some (Z.of_nat n)) by congruence.
      apply Hlk. eauto. }
    assert (Hext : forall n row, ds_dictionary s !! n = Some row ->
              (ds_dictionary s ++ [key]) !! n = Some row) by (intros; by apply lookup_app_l_Some).
    split; cbn [ds_dictionary ds_lookup ds_indices].
    + apply NoDup_app. split_and!; [done| |apply NoDup_singleton].
      intros x Hx ->%list_elem_of_singleton. done.
    + intros k i. rewrite lookup_insert_Some, Hlk. split.
      * intros [[<- <-]|(Hk & n & -> & Hn)]; [|eauto 10].
        exists (length (ds_dictionary s)). split; [done|]. by apply list_lookup_middle.
      * intros (n & -> & Hn). apply lookup_snoc_Some in Hn as [[? Hn]|[-> <-]]; [|auto].
        right. split; [|eauto]. intros <-. apply Hnew. by eapply list_elem_of_lookup_2.
    + apply Forall2_app.
      * eapply Forall2_impl; [done|]. intros i row (n & -> & Hn). eauto.
      * constructor; [|constructor]. eexists. split; [done|]. by apply list_lookup_middle.
    + rewrite !length_app. simpl. lia.
Qed.

Lemma dict_loop_inv n row od vd s rows more :
  dict_inv s rows -> Z.of_nat (length (rows ++ more)) < 2 ^ 32 -> length more = n ->
  (forall k r, more !! k = Some r -> read_string_at od vd (row + k) = Some r) ->
  exists s', dict_loop n row od vd s = Some s' /\ dict_inv s' (rows ++ more).
Proof.
  revert row s rows more. induction n as [|n IH]; intros row s rows more Hinv Hlen Hn Hread.
  - destruct more; [|done]. rewrite app_nil_r. eauto.
  - destruct more as [|r more]; [done|]. pose proof (Hread 0%nat r eq_refl) as H0.
    rewrite Nat.add_0_r in H0. cbn [dict_loop]. rewrite H0. cbn [mbind option_bind].
    rewrite length_app in Hlen. simpl in Hlen.
    destruct (IH (S row) (dict_add s r) (rows ++ [r]) more) as (s' & Hs & Hi).
    + apply dict_add_inv; [done|lia].
    + rewrite !length_app. simpl. lia.
    + by simplify_eq/=.
    + intros k r' Hk. rewrite Nat.add_succ_comm. by apply Hread.
    + exists s'. split; [done|]. by rewrite <- app_assoc in Hi.
Qed.

Lemma write_indices_concat idxs w buf :
  fold_left (fun buf idx => write_index buf idx w) idxs buf
  = buf ++ concat (map (le_bytes (stored_width w)) idxs).
Proof.
  revert buf. induction idxs as [|i idxs IH]; intros buf; simpl; [by rewrite app_nil_r|].
  rewrite IH. unfold write_index, RawBuffer.append. by rewrite <- app_assoc.
Qed.

Lemma dictionary_ok ss :
  Z.of_nat (length ss) < 2 ^ 32 -> Z.of_nat (length (concat ss)) < 2 ^ 32 ->
  exists enc, dictionaryEncodeStrings (concat (map (le_bytes 4) (string_offsets 0 ss))) (concat ss)
                (length ss) = Some enc
    /\ NoDup (dictionary enc) /\ dict_count enc = length ss
    /\ forall i s, ss !! i = Some s -> dictionaryLookup enc i = Some s.
Proof.
  intros Hrows Hbytes. unfold dictionaryEncodeStrings. case_decide as H0.
  { exists (mkDict [] [] 1 0). apply nil_length_inv in H0 as ->. split_and!; try done. apply NoDup_nil_2. }
  destruct (dict_loop_inv (length ss) 0 (concat (map (le_bytes 4) (string_offsets 0 ss))) (concat ss)
    (mkDictState [] ∅ []) [] ss dict_inv_empty) as (s & -> & [Hnd Hlk Hix Hsz]); [done..| |].
  { intros k r Hk. by apply read_string_at_ok. }
  cbn [mbind option_bind app] in *. eexists. split; [done|].
  cbn [dictionary dict_count]. do 2 (split; [done|]). intros i str Hi. unfold dictionaryLookup.
  cbn [indices index_bytes dictionary]. rewrite write_indices_concat, app_nil_l.
  destruct (Forall2_lookup_r _ _ _ _ _ Hix Hi) as (z & Hz & n & -> & Hn).
  pose proof (lookup_lt_Some _ _ _ Hn) as Hlt.
  rewrite <- (app_nil_r (concat _)), (read_index_narrow _ _ _ _ _ Hz)
    by (apply indexBytesFor_fits; lia).
  cbn [mbind option_bind]. rewrite (proj2 (Z.leb_gt _ _)) by lia. by rewrite Nat2Z.id.
Qed.

(** ** Packed bools *)

Lemma packBools_step_bits values bd i j :
  (i < length values)%nat -> (length values <= 8 * length bd)%nat ->
  length (packBools_step values bd i) = length bd
  /\ bit_at (packBools_step values bd i) j
     = if decide (j = i) then bit_at bd j || negb (b2z (nth i values (z2b 0)) =? 0) else bit_at bd j.
Proof.
  intros Hi Hbd. unfold packBools_step. destruct (b2z (nth i values (z2b 0)) =? 0) eqn:E.
  - split; [done|]. by rewrite orb_false_r; case_decide.
  - assert (Hlt : (i < 8 * length (bv_bytes (mkBitVector bd 0)))%nat) by (simpl; lia).
    destruct (BitVectorFacts.setValid_bit (mkBitVector bd 0) i Hlt) as (bs & Hs & Hlen & Hbit).
    unfold BitVector.setValid in Hs. cbn [bv_bytes bit_count] in *.
    destruct (lookup_lt_is_Some_2 bd (i / 8)%nat (div8_lt _ _ Hlt)) as [b Hb].
    rewrite Hb in Hs. cbn [mbind option_bind] in Hs. simplify_eq.
    rewrite Hb. split; [done|]. rewrite Hbit. by case_decide; [rewrite orb_true_r|].
Qed.

Lemma bit_at_zero n j : bit_at (zero_bytes n) j = false.
Proof.
  unfold bit_at, zero_bytes. destruct (replicate n (z2b 0) !! (j / 8)%nat) as [b|] eqn:E; [|done].
  apply lookup_replicate in E as [-> _]. rewrite b2z_z2b. apply Z.testbit_0_l.
Qed.

Lemma packBools_fold values n bd : (n <= length values)%nat -> (length values <= 8 * length bd)%nat ->
  (forall j, bit_at bd j = false) ->
  length (fold_left (packBools_step values) (seq 0 n) bd) = length bd
  /\ forall j, bit_at (fold_left (packBools_step values) (seq 0 n) bd) j
              = (j <? n)%nat && negb (b2z (nth j values (z2b 0)) =? 0).
Proof.
  intros Hn Hl H0. induction n as [|n IH]; [simpl; auto|].
  destruct (IH ltac:(lia)) as [IHl IHb]. rewrite seq_S, fold_left_app. cbn [fold_left plus].
  set (bd' := fold_left (packBools_step values) (seq 0 n) bd) in *.
  split; [by rewrite (proj1 (packBools_step_bits values bd' n 0 ltac:(lia) ltac:(lia)))|].
  intros j. rewrite (proj2 (packBools_step_bits values bd' n j ltac:(lia) ltac:(lia))), IHb.
  case_decide as Hj; subst.
  - by rewrite Nat.ltb_irrefl, (proj2 (Nat.ltb_lt n (S n))) by lia.
  - f_equal. apply eq_true_iff_eq. rewrite !Nat.ltb_lt. lia.
Qed.

Lemma load1_byte bs q b : bs !! q = Some b -> load 1 q bs = Some (b2z b).
Proof.
  intros Hb. pose proof (lookup_lt_Some _ _ _ Hb). unfold load. rewrite decide_True by lia.
  rewrite (drop_S _ _ _ Hb). simpl. f_equal. lia.
Qed.

Lemma packBools_ok values i b : values !! i = Some b ->
  unpackBool (packBools values) i = Some (negb (b2z b =? 0)).
Proof.
  intros Hi. pose proof (lookup_lt_Some _ _ _ Hi) as Hlt. unfold packBools.
  rewrite decide_False by lia.
  pose proof (BitVectorFacts.bytesForBits_enough (length values)) as Hen.
  unfold BitVector.bytesForBits in Hen.
  destruct (packBools_fold values (length values) (zero_bytes ((length values + 7) / 8))) as [Hlen Hbit].
  - done.
  - unfold zero_bytes. rewrite length_replicate. lia.
  - intros. apply bit_at_zero.
  - unfold unpackBool. cbn [bits].
    set (out := fold_left _ _ _) in *. unfold zero_bytes in Hlen. rewrite length_replicate in Hlen.
    destruct (bit_at_lookup out i ltac:(lia)) as (x & Hx & Hxb).
    rewrite (load1_byte _ _ _ Hx). cbn [mbind option_bind].
    rewrite byte_test_testbit, <- Hxb, Hbit, (proj2 (Nat.ltb_lt _ _)) by done.
    by rewrite (nth_lookup_Some _ _ _ _ Hi).
Qed.
