(* ===== verification/Column.v ===== *)
(** * Column: the typed column buffer

    Models [src/pj_datastore/src/column_buffer.cpp].  A buffer keeps the bytes
    of its values, for strings an offsets array, and a validity bitmap that is
    created at the first null.  An operation is [None] when an [assert] of the
    code fails or when it would touch memory outside of a buffer.

    The specification of a buffer is a list of cells, one per row: whether the
    row is valid, and the bytes of its value slot.  [repr] relates the two, and
    the refinement lemmas say what each operation does to the list. *)

From S2P Require Import Prelude Float64 Types Buffer Encoding.

(** A value handed to [append...] / [TopicChunkBuilder::set<T>]; floats are
    bit patterns. *)
Inductive Value :=
| VFloat32 (b : Z) | VFloat64 (b : Z) | VInt32 (z : Z) | VInt64 (z : Z) | VUint64 (z : Z)
| VBool (b : bool) | VString (s : bytes).

Definition kind_of_value (v : Value) : StorageKind.t :=
  match v with
  | VFloat32 _ => StorageKind.kFloat32 | VFloat64 _ => StorageKind.kFloat64
  | VInt32 _ => StorageKind.kInt32 | VInt64 _ => StorageKind.kInt64
  | VUint64 _ => StorageKind.kUint64 | VBool _ => StorageKind.kBool
  | VString _ => StorageKind.kString
  end.

(** A value of the C++ type. *)
Definition value_ok (v : Value) : Prop :=
  match v with
  | VFloat32 b => in_u 32 b | VFloat64 b => in_u 64 b | VInt32 z => in_s 32 z
  | VInt64 z => in_s 64 z | VUint64 z => in_u 64 z | VBool _ | VString _ => True
  end.

Record TypedColumnBuffer := mkColumn {
  descriptor : ColumnDescriptor;
  values_ : bytes;
  validity_ : BitVector;
  offsets_ : bytes;
  row_count_ : nat;
  null_count_ : nat;
  validity_initialized_ : bool
}.

Definition column_kind (c : TypedColumnBuffer) : StorageKind.t := kind_of (descriptor c).

Module ColumnBuffer.

Definition make (d : ColumnDescriptor) : TypedColumnBuffer :=
  mkColumn d [] BitVector.empty [] 0 0 false.

Definition hasNulls (c : TypedColumnBuffer) : bool := bool_decide (0 < null_count_ c)%nat.

Definition isValid (c : TypedColumnBuffer) (row : nat) : option bool :=
  if validity_initialized_ c then BitVector.isValid (validity_ c) row else Some true.

Definition isNull (c : TypedColumnBuffer) (row : nat) : option bool :=
  if validity_initialized_ c then negb <$> BitVector.isValid (validity_ c) row else Some false.

Definition ensureValidityInitialized (c : TypedColumnBuffer) : TypedColumnBuffer :=
  if validity_initialized_ c then c
  else mkColumn (descriptor c) (values_ c) (BitVector.initValid (row_count_ c)) (offsets_ c)
         (row_count_ c) (null_count_ c) true.

(** [for (i = first; i < first + n; ++i) validity_.setValid(i);] *)
Fixpoint setValid_range (bv : BitVector) (first n : nat) : option BitVector :=
  match n with
  | O => Some bv
  | S n' => bv' ← BitVector.setValid bv first; setValid_range bv' (S first) n'
  end.

(** The block [if (validity_initialized_)] of the append functions. *)
Definition mark_valid (c : TypedColumnBuffer) (n : nat) : option BitVector :=
  if validity_initialized_ c
  then setValid_range (BitVector.ensureSize (validity_ c) (row_count_ c + n)) (row_count_ c) n
  else Some (validity_ c).

Definition appendFixed (c : TypedColumnBuffer) (size : nat) (value : Z) : option TypedColumnBuffer :=
  let values := RawBuffer.append (values_ c) (le_bytes size value) in
  validity ← mark_valid c 1;
  Some (mkColumn (descriptor c) values validity (offsets_ c) (row_count_ c + 1) (null_count_ c)
          (validity_initialized_ c)).

Definition guard_kind (c : TypedColumnBuffer) (k : StorageKind.t) (r : option TypedColumnBuffer)
  : option TypedColumnBuffer :=
  if decide (column_kind c = k) then r else None.

Definition appendFloat32 c value := guard_kind c StorageKind.kFloat32 (appendFixed c 4 value).
Definition appendFloat64 c value := guard_kind c StorageKind.kFloat64 (appendFixed c 8 value).
Definition appendInt32 c value := guard_kind c StorageKind.kInt32 (appendFixed c 4 value).
Definition appendInt64 c value := guard_kind c StorageKind.kInt64 (appendFixed c 8 value).
Definition appendUint64 c value := guard_kind c StorageKind.kUint64 (appendFixed c 8 value).
Definition appendBool c (value : bool) :=
  guard_kind c StorageKind.kBool (appendFixed c 1 (if value then 1 else 0)).

(** The first row of a string column also writes the offset 0. *)
Definition first_offset (c : TypedColumnBuffer) : bytes :=
  if decide (row_count_ c = 0)%nat then RawBuffer.append (offsets_ c) (le_bytes 4 0) else offsets_ c.

Definition appendString c (value : bytes) : option TypedColumnBuffer :=
  guard_kind c StorageKind.kString (
    let offsets := first_offset c in
    let values := RawBuffer.append (values_ c) value in
    let end_offset := u32 (Z.of_nat (length values)) in
    let offsets := RawBuffer.append offsets (le_bytes 4 end_offset) in
    validity ← mark_valid c 1;
    Some (mkColumn (descriptor c) values validity offsets (row_count_ c + 1) (null_count_ c)
            (validity_initialized_ c))).

Definition appendNull (c : TypedColumnBuffer) : option TypedColumnBuffer :=
  let c := ensureValidityInitialized c in
  let validity := BitVector.ensureSize (validity_ c) (row_count_ c + 1) in
  validity ← BitVector.setNull validity (row_count_ c);
  let kind := column_kind c in
  let '(values, offsets) :=
    if decide (kind = StorageKind.kString) then
      (values_ c,
       RawBuffer.append (first_offset c) (le_bytes 4 (u32 (Z.of_nat (length (values_ c))))))
    else (RawBuffer.append (values_ c) (le_bytes (storageKindSize kind) 0), offsets_ c) in
  Some (mkColumn (descriptor c) values validity offsets (row_count_ c + 1) (null_count_ c + 1)
          (validity_initialized_ c)).

(** [appendFixedBulk<T>] on the elements [data]; the typed wrappers only check
    the kind and fix the element size. *)
Definition appendFixedBulk (c : TypedColumnBuffer) (size : nat) (data : list Z)
  : option TypedColumnBuffer :=
  let count := length data in
  if decide (count = 0)%nat then Some c
  else
    let values := RawBuffer.append (values_ c) (concat (map (le_bytes size) data)) in
    validity ← mark_valid c count;
    Some (mkColumn (descriptor c) values validity (offsets_ c) (row_count_ c + count) (null_count_ c)
            (validity_initialized_ c)).

Definition appendFloat32Bulk c data := guard_kind c StorageKind.kFloat32 (appendFixedBulk c 4 data).
Definition appendFloat64Bulk c data := guard_kind c StorageKind.kFloat64 (appendFixedBulk c 8 data).
Definition appendInt32Bulk c data := guard_kind c StorageKind.kInt32 (appendFixedBulk c 4 data).
Definition appendInt64Bulk c data := guard_kind c StorageKind.kInt64 (appendFixedBulk c 8 data).
Definition appendUint64Bulk c data := guard_kind c StorageKind.kUint64 (appendFixedBulk c 8 data).
Definition appendBoolBulk c data := guard_kind c StorageKind.kBool (appendFixedBulk c 1 data).

Definition appendStringsBulk (c : TypedColumnBuffer) (offsets : list Z) (data : bytes)
  : option TypedColumnBuffer :=
  guard_kind c StorageKind.kString (
    match offsets with
    | [] => Some c
    | src_base :: rest =>
        let count := length rest in
        if decide (count = 0)%nat then Some c
        else
          let last_offset := List.last offsets 0 in
          let base_data_offset := u32 (Z.of_nat (length (values_ c))) in
          let offs := first_offset c in
          let total_string_bytes := u32 (last_offset - src_base) in
          if decide (src_base <= u32 (Z.of_nat (length data)) /\ last_offset <= u32 (Z.of_nat (length data)))
          then
            new_bytes ← substring data (Z.to_nat src_base) (Z.to_nat total_string_bytes);
            let values := RawBuffer.append (values_ c) new_bytes in
            let adjusted := map (fun o => u32 (base_data_offset + u32 (o - src_base))) rest in
            let offs := RawBuffer.append offs (concat (map (le_bytes 4) adjusted)) in
            validity ← mark_valid c count;
            Some (mkColumn (descriptor c) values validity offs (row_count_ c + count) (null_count_ c)
                    (validity_initialized_ c))
          else None
    end).

(** The loop of [appendValidityBulk]: the bitmap and the null count. *)
Fixpoint validity_loop (n i start_row : nat) (view : BitSpan) (bv : BitVector) (nulls : nat)
  : option (BitVector * nat) :=
  match n with
  | O => Some (bv, nulls)
  | S n' =>
      valid ← BitSpan_test view i;
      if (valid : bool) then
        bv' ← BitVector.setValid bv (start_row + i); validity_loop n' (S i) start_row view bv' nulls
      else
        bv' ← BitVector.setNull bv (start_row + i); validity_loop n' (S i) start_row view bv' (S nulls)
  end.

Definition appendValidityBulk (c : TypedColumnBuffer) (view : BitSpan) : option TypedColumnBuffer :=
  let count := bit_length view in
  if decide (count = 0)%nat then Some c
  else if decide (row_count_ c < count)%nat then None
  else
    let c := ensureValidityInitialized c in
    let start_row := (row_count_ c - count)%nat in
    let validity := BitVector.ensureSize (validity_ c) (row_count_ c) in
    '(validity, nulls) ← validity_loop count 0 start_row view validity (null_count_ c);
    Some (mkColumn (descriptor c) (values_ c) validity (offsets_ c) (row_count_ c) nulls
            (validity_initialized_ c)).

Definition readFixed (c : TypedColumnBuffer) (size row : nat) : option Z :=
  load size (row * size) (values_ c).

Definition readFloat32 c row := readFixed c 4 row.
Definition readFloat64 c row := readFixed c 8 row.
Definition readInt32 c row := i32 <$> readFixed c 4 row.
Definition readInt64 c row := i64 <$> readFixed c 8 row.
Definition readUint64 c row := readFixed c 8 row.
Definition readBool c row : option bool := (fun b => negb (b =? 0)) <$> readFixed c 1 row.
Definition readString c row : option bytes := read_string_at (offsets_ c) (values_ c) row.

Definition readAsDouble (c : TypedColumnBuffer) (row : nat) : option double :=
  match column_kind c with
  | StorageKind.kFloat32 => v ← readFloat32 c row; Some (f64_of_f32 (f32_of_bits v))
  | StorageKind.kFloat64 => v ← readFloat64 c row; Some (f64_of_bits v)
  | StorageKind.kInt32 => v ← readInt32 c row; Some (f64_of_Z v)
  | StorageKind.kInt64 => v ← readInt64 c row; Some (f64_of_Z v)
  | StorageKind.kUint64 => v ← readUint64 c row; Some (f64_of_Z v)
  | StorageKind.kBool => v ← readBool c row; Some (if (v : bool) then f64_one else f64_zero)
  | StorageKind.kString => Some S754_nan
  end.

(** The append call that a value of some type selects. *)
Definition append (c : TypedColumnBuffer) (v : Value) : option TypedColumnBuffer :=
  match v with
  | VFloat32 b => appendFloat32 c b | VFloat64 b => appendFloat64 c b
  | VInt32 z => appendInt32 c z | VInt64 z => appendInt64 c z | VUint64 z => appendUint64 c z
  | VBool b => appendBool c b | VString s => appendString c s
  end.

(** The read call for the kind of the column. *)
Definition read (c : TypedColumnBuffer) (row : nat) : option Value :=
  match column_kind c with
  | StorageKind.kFloat32 => VFloat32 <$> readFloat32 c row
  | StorageKind.kFloat64 => VFloat64 <$> readFloat64 c row
  | StorageKind.kInt32 => VInt32 <$> readInt32 c row
  | StorageKind.kInt64 => VInt64 <$> readInt64 c row
  | StorageKind.kUint64 => VUint64 <$> readUint64 c row
  | StorageKind.kBool => VBool <$> readBool c row
  | StorageKind.kString => VString <$> readString c row
  end.

End ColumnBuffer.

(** ** The specification: a list of cells *)

Record Cell := mkCell { valid : bool; slot : bytes }.

(** The bytes a value takes in its slot. *)
Definition encode_value (v : Value) : bytes :=
  match v with
  | VFloat32 b => le_bytes 4 b | VFloat64 b => le_bytes 8 b
  | VInt32 z => le_bytes 4 z | VInt64 z => le_bytes 8 z | VUint64 z => le_bytes 8 z
  | VBool b => le_bytes 1 (if b then 1 else 0) | VString s => s
  end.

Definition null_cell (k : StorageKind.t) : Cell := mkCell false (le_bytes (storageKindSize k) 0).

Definition count_nulls (cells : list Cell) : nat := length (filter (fun x => valid x = false) cells).

Definition offsets_of (cells : list Cell) : bytes :=
  match cells with
  | [] => []
  | _ => concat (map (le_bytes 4) (string_offsets 0 (map slot cells)))
  end.

Definition validity_repr (initialized : bool) (bv : BitVector) (cells : list Cell) : Prop :=
  if initialized then
    (length cells <= 8 * length (bv_bytes bv))%nat /\ (length cells <= bit_count bv)%nat
    /\ forall i x, cells !! i = Some x -> bit_at (bv_bytes bv) i = valid x
  else Forall (fun x => valid x = true) cells.

Record repr (c : TypedColumnBuffer) (cells : list Cell) : Prop := {
  rp_rows : row_count_ c = length cells;
  rp_nulls : null_count_ c = count_nulls cells;
  rp_values : values_ c = concat (map slot cells);
  rp_width : column_kind c <> StorageKind.kString ->
    Forall (fun x => length (slot x) = storageKindSize (column_kind c)) cells;
  rp_offsets : offsets_ c = if decide (column_kind c = StorageKind.kString) then offsets_of cells else [];
  rp_validity : validity_repr (validity_initialized_ c) (validity_ c) cells
}.

Lemma length_encode_value v : kind_of_value v <> StorageKind.kString ->
  length (encode_value v) = storageKindSize (kind_of_value v).
Proof. intros H. destruct v; try apply length_le_bytes. by destruct H. Qed.

Lemma count_nulls_app xs ys : count_nulls (xs ++ ys) = (count_nulls xs + count_nulls ys)%nat.
Proof. unfold count_nulls. by rewrite filter_app, length_app. Qed.

Lemma count_nulls_valid xs : Forall (fun x => valid x = true) xs -> count_nulls xs = 0%nat.
Proof.
  unfold count_nulls. induction 1 as [|x xs Hx _ IH]; [done|].
  rewrite filter_cons, decide_False by congruence. done.
Qed.

Lemma count_nulls_1 b s : count_nulls [mkCell b s] = if b then 0%nat else 1%nat.
Proof. by destruct b. Qed.

Lemma make_repr d : repr (ColumnBuffer.make d) [].
Proof. split; simpl; try done. by case_decide. Qed.

(** ** Validity *)

Lemma setValid_range_bits n : forall bv first,
  (first + n <= 8 * length (bv_bytes bv))%nat ->
  exists bv', ColumnBuffer.setValid_range bv first n = Some bv'
    /\ length (bv_bytes bv') = length (bv_bytes bv) /\ bit_count bv' = bit_count bv
    /\ forall j, bit_at (bv_bytes bv') j
       = if decide (first <= j < first + n)%nat then true else bit_at (bv_bytes bv) j.
Proof.
  induction n as [|n IH]; intros bv first Hl.
  - exists bv. do 3 (split; [done|]). intros j. by rewrite decide_False by lia.
  - destruct (BitVectorFacts.setValid_bit bv first ltac:(lia)) as (bs & Hs & Hlen & Hbit).
    cbn [ColumnBuffer.setValid_range]. rewrite Hs. cbn [mbind option_bind].
    destruct (IH (mkBitVector bs (bit_count bv)) (S first)) as (bv' & Hr & Hl' & Hc' & Hb');
      [cbn [bv_bytes]; lia|].
    cbn [bv_bytes bit_count] in *. exists bv'. split; [done|]. do 2 (split; [lia|]). intros j. rewrite Hb', Hbit.
    repeat case_decide; try done; lia.
Qed.

(** Marking the rows just appended extends the bitmap with valid cells. *)
Lemma mark_valid_repr c cells (new : list Cell) : repr c cells -> Forall (fun x => valid x = true) new ->
  exists bv, ColumnBuffer.mark_valid c (length new) = Some bv
    /\ validity_repr (validity_initialized_ c) bv (cells ++ new).
Proof.
  intros [Hrows _ _ _ _ Hv] Hnew. unfold ColumnBuffer.mark_valid, validity_repr in *.
  destruct (validity_initialized_ c).
  - destruct Hv as (Hlen & Hcnt & Hbits). rewrite Hrows.
    pose proof (BitVectorFacts.ensureSize_length (validity_ c) (length cells + length new)) as [He1 He2].
    pose proof (BitVectorFacts.ensureSize_count (validity_ c) (length cells + length new)) as [He3 He4].
    destruct (setValid_range_bits (length new) (BitVector.ensureSize (validity_ c) (length cells + length new))
      (length cells)) as (bv & -> & Hl & Hc & Hb); [lia|].
    exists bv. split; [done|]. do 2 (split; [rewrite length_app; lia|]).
    intros i x Hx. rewrite Hb. apply lookup_app_Some in Hx as [Hx|[Hi Hx]].
    + pose proof (lookup_lt_Some _ _ _ Hx). rewrite decide_False by lia.
      rewrite BitVectorFacts.ensureSize_bit by lia. by apply Hbits.
    + pose proof (lookup_lt_Some _ _ _ Hx). rewrite decide_True by lia.
      rewrite Forall_lookup in Hnew. symmetry. by apply (Hnew _ _ Hx).
  - exists (validity_ c). split; [done|]. by apply Forall_app.
Qed.

Lemma ensureValidity_repr c cells : repr c cells ->
  repr (ColumnBuffer.ensureValidityInitialized c) cells
  /\ validity_initialized_ (ColumnBuffer.ensureValidityInitialized c) = true
  /\ descriptor (ColumnBuffer.ensureValidityInitialized c) = descriptor c.
Proof.
  intros Hr. unfold ColumnBuffer.ensureValidityInitialized.
  destruct (validity_initialized_ c) eqn:E; [by rewrite E|]. destruct Hr as [Hrows Hn Hval Hw Ho Hv].
  split; [|done]. split; try done. rewrite E in Hv. simpl in *. rewrite Hrows.
  split_and!.
  - pose proof (BitVectorFacts.bytesForBits_enough (length cells)).
    unfold BitVector.initValid. simpl. rewrite length_replicate. lia.
  - done.
  - intros i x Hx. rewrite (Forall_lookup_1 _ _ _ _ Hv Hx).
    apply BitVectorFacts.initValid_bit. by eapply lookup_lt_Some.
Qed.

(** ** Offsets *)

Lemma le_bytes_wrap n z : le_bytes n (z mod 2 ^ (8 * Z.of_nat n)) = le_bytes n z.
Proof.
  rewrite <- le_val_le_bytes. pose proof (le_bytes_le_val (le_bytes n z)) as H.
  by rewrite length_le_bytes in H.
Qed.

Lemma le_bytes4_u32 z : le_bytes 4 (u32 z) = le_bytes 4 z.
Proof. apply (le_bytes_wrap 4). Qed.

Lemma string_offsets_head base ss :
  string_offsets base ss = Z.of_nat base :: tail (string_offsets base ss).
Proof. by destruct ss. Qed.

Lemma string_offsets_app base xs ys :
  string_offsets base (xs ++ ys)
  = string_offsets base xs ++ tail (string_offsets (base + length (concat xs)) ys).
Proof.
  revert base. induction xs as [|x xs IH]; intros base; simpl.
  - rewrite Nat.add_0_r. apply string_offsets_head.
  - rewrite IH. do 4 f_equal. rewrite length_app. lia.
Qed.

(** The offsets a string column appends for new rows. *)
Lemma offsets_extend c cells new : repr c cells -> column_kind c = StorageKind.kString -> new <> [] ->
  RawBuffer.append (ColumnBuffer.first_offset c)
    (concat (map (le_bytes 4) (tail (string_offsets (length (values_ c)) (map slot new)))))
  = offsets_of (cells ++ new).
Proof.
  intros Hr Hk Hne. unfold ColumnBuffer.first_offset, RawBuffer.append.
  rewrite (rp_rows _ _ Hr), (rp_offsets _ _ Hr), (rp_values _ _ Hr).
  destruct (decide (column_kind c = StorageKind.kString)); [|done].
  assert (offsets_of (cells ++ new)
          = concat (map (le_bytes 4) (string_offsets 0 (map slot (cells ++ new))))) as ->.
  { unfold offsets_of. by destruct cells, new. }
  rewrite map_app, string_offsets_app, map_app, concat_app, Nat.add_0_l. f_equal.
  destruct cells as [|x cells]; simpl; by rewrite ?app_nil_r.
Qed.

(** ** What the operations do to the cells *)

Local Ltac fixed_offsets Hr := cbn [offsets_ descriptor]; rewrite (rp_offsets _ _ Hr), !decide_False by done.

(** Appending fixed-width rows, one or many. *)
Lemma append_fixed_rows c cells size zs bv :
  repr c cells -> column_kind c <> StorageKind.kString -> storageKindSize (column_kind c) = size ->
  validity_repr (validity_initialized_ c) bv (cells ++ map (fun z => mkCell true (le_bytes size z)) zs) ->
  repr (mkColumn (descriptor c) (RawBuffer.append (values_ c) (concat (map (le_bytes size) zs))) bv
          (offsets_ c) (row_count_ c + length zs) (null_count_ c) (validity_initialized_ c))
    (cells ++ map (fun z => mkCell true (le_bytes size z)) zs).
Proof.
  intros Hr Hk Hs Hv. split; cbn [row_count_ null_count_ values_ validity_ validity_initialized_].
  - by rewrite (rp_rows _ _ Hr), length_app, length_map.
  - rewrite (rp_nulls _ _ Hr), count_nulls_app, (count_nulls_valid (map _ _)); [lia|].
    apply Forall_map, Forall_true. done.
  - unfold RawBuffer.append. rewrite (rp_values _ _ Hr), map_app, concat_app, map_map. done.
  - intros _. apply Forall_app. split; [by apply (rp_width _ _ Hr)|].
    apply Forall_map, Forall_true. intros. change (length (le_bytes size x) = storageKindSize (column_kind c)).
    by rewrite length_le_bytes.
  - unfold column_kind in *. fixed_offsets Hr. done.
  - done.
Qed.

Lemma appendFixedBulk_repr c cells size zs :
  repr c cells -> column_kind c <> StorageKind.kString -> storageKindSize (column_kind c) = size ->
  exists c', ColumnBuffer.appendFixedBulk c size zs = Some c' /\ descriptor c' = descriptor c
    /\ repr c' (cells ++ map (fun z => mkCell true (le_bytes size z)) zs).
Proof.
  intros Hr Hk Hs. unfold ColumnBuffer.appendFixedBulk. case_decide as H0.
  { apply nil_length_inv in H0 as ->. exists c. by rewrite app_nil_r. }
  destruct (mark_valid_repr c cells (map (fun z => mkCell true (le_bytes size z)) zs) Hr) as (bv & Hm & Hv).
  { apply Forall_map, Forall_true. done. }
  rewrite length_map in Hm. rewrite Hm. cbn [mbind option_bind]. eexists. split; [done|]. split; [done|].
  by apply append_fixed_rows.
Qed.

Lemma appendFixed_repr c cells size z :
  repr c cells -> column_kind c <> StorageKind.kString -> storageKindSize (column_kind c) = size ->
  exists c', ColumnBuffer.appendFixed c size z = Some c' /\ descriptor c' = descriptor c
    /\ repr c' (cells ++ [mkCell true (le_bytes size z)]).
Proof.
  intros Hr Hk Hs. unfold ColumnBuffer.appendFixed.
  destruct (mark_valid_repr c cells [mkCell true (le_bytes size z)] Hr) as (bv & Hm & Hv); [by repeat constructor|].
  cbn [length] in Hm. rewrite Hm. cbn [mbind option_bind]. eexists. split; [done|]. split; [done|].
  pose proof (append_fixed_rows c cells size [z] bv Hr Hk Hs Hv) as H.
  cbn [map concat length] in H. by rewrite app_nil_r in H.
Qed.

(** Appending string rows, one or many. *)
Lemma append_string_rows c cells (new : list Cell) bv nulls initialized :
  repr c cells -> column_kind c = StorageKind.kString -> new <> [] ->
  nulls = (null_count_ c + count_nulls new)%nat -> validity_repr initialized bv (cells ++ new) ->
  repr (mkColumn (descriptor c) (RawBuffer.append (values_ c) (concat (map slot new))) bv
          (RawBuffer.append (ColumnBuffer.first_offset c)
            (concat (map (le_bytes 4) (tail (string_offsets (length (values_ c)) (map slot new))))))
          (row_count_ c + length new) nulls initialized)
    (cells ++ new).
Proof.
  intros Hr Hk Hne Hn Hv. rewrite (offsets_extend _ cells) by done.
  split; cbn [row_count_ null_count_ values_ validity_ validity_initialized_ offsets_].
  - by rewrite (rp_rows _ _ Hr), length_app.
  - by rewrite Hn, count_nulls_app, (rp_nulls _ _ Hr).
  - unfold RawBuffer.append. by rewrite (rp_values _ _ Hr), map_app, concat_app.
  - intros H. by destruct H.
  - unfold column_kind in *. cbn [descriptor]. by rewrite decide_True.
  - done.
Qed.

Lemma appendString_repr c cells s :
  repr c cells -> column_kind c = StorageKind.kString ->
  exists c', ColumnBuffer.appendString c s = Some c' /\ descriptor c' = descriptor c
    /\ repr c' (cells ++ [mkCell true s]).
Proof.
  intros Hr Hk. unfold ColumnBuffer.appendString, ColumnBuffer.guard_kind. rewrite decide_True by done.
  destruct (mark_valid_repr c cells [mkCell true s] Hr) as (bv & Hm & Hv); [by repeat constructor|].
  cbn [length] in Hm. cbv zeta. rewrite Hm. cbn [mbind option_bind]. eexists. split; [done|]. split; [done|].
  pose proof (append_string_rows c cells [mkCell true s] bv (null_count_ c) (validity_initialized_ c)
    Hr Hk ltac:(done) ltac:(rewrite count_nulls_1; lia) Hv) as H.
  cbn [map concat length slot tail string_offsets] in H. rewrite !app_nil_r in H.
  unfold RawBuffer.append in *. rewrite length_app, le_bytes4_u32. done.
Qed.

(** Every typed append pushes one valid cell. *)
Lemma append_repr c cells v : repr c cells -> kind_of_value v = column_kind c ->
  exists c', ColumnBuffer.append c v = Some c' /\ descriptor c' = descriptor c
    /\ repr c' (cells ++ [mkCell true (encode_value v)]).
Proof.
  intros Hr Hk. destruct v; simpl in Hk; cbn [ColumnBuffer.append encode_value];
    unfold ColumnBuffer.appendFloat32, ColumnBuffer.appendFloat64, ColumnBuffer.appendInt32,
      ColumnBuffer.appendInt64, ColumnBuffer.appendUint64, ColumnBuffer.appendBool, ColumnBuffer.guard_kind;
    rewrite ?decide_True by done; first [by apply appendString_repr | apply appendFixed_repr];
    try done; by rewrite <- Hk.
Qed.

(** A null row pushes an invalid cell whose slot is zero. *)
Lemma appendNull_repr c cells : repr c cells ->
  exists c', ColumnBuffer.appendNull c = Some c' /\ descriptor c' = descriptor c
    /\ repr c' (cells ++ [null_cell (column_kind c)]).
Proof.
  intros Hr0. destruct (ensureValidity_repr c cells Hr0) as (Hr & Hi & Hd).
  unfold ColumnBuffer.appendNull. set (c1 := ColumnBuffer.ensureValidityInitialized c) in *.
  assert (Hk : column_kind c1 = column_kind c) by (unfold column_kind; by rewrite Hd).
  pose proof (rp_validity _ _ Hr) as Hv. rewrite Hi in Hv. destruct Hv as (Hlen & Hcnt & Hbits).
  pose proof (BitVectorFacts.ensureSize_length (validity_ c1) (row_count_ c1 + 1)) as [He1 He2].
  pose proof (BitVectorFacts.ensureSize_count (validity_ c1) (row_count_ c1 + 1)) as [He3 He4].
  destruct (BitVectorFacts.setNull_bit (BitVector.ensureSize (validity_ c1) (row_count_ c1 + 1)) (row_count_ c1))
    as (bs & Hs & Hl & Hb); [lia|].
  cbv zeta. rewrite Hs. cbn [mbind option_bind]. set (bv := mkBitVector bs _) in *.
  pose proof (rp_rows _ _ Hr) as Hrows.
  assert (Hv : validity_repr true bv (cells ++ [null_cell (column_kind c)])).
  { do 2 (split; [simpl; rewrite length_app; simpl; lia|]). intros i x Hx. simpl. rewrite Hb.
    apply lookup_snoc_Some in Hx as [[Hi' Hx]|[-> <-]].
    - rewrite decide_False by lia. rewrite BitVectorFacts.ensureSize_bit by lia. by apply Hbits.
    - by rewrite decide_True. }
  destruct (decide (column_kind c1 = StorageKind.kString)) as [Hstr|Hstr];
    eexists; (split; [done|]); (split; [done|]).
  - pose proof (append_string_rows c1 cells [null_cell (column_kind c)] bv (null_count_ c1 + 1)
      (validity_initialized_ c1) Hr Hstr ltac:(done) ltac:(unfold null_cell; rewrite count_nulls_1; lia)) as H. rewrite Hi in *. specialize (H Hv).
    rewrite <- Hk, Hstr in H |- *. cbn [map concat length slot tail string_offsets null_cell storageKindSize] in H.
    unfold RawBuffer.append in *. rewrite !app_nil_r in H. cbn [le_bytes length app] in H.
    rewrite Nat.add_0_r in H. by rewrite le_bytes4_u32.
  - split; cbn [row_count_ null_count_ values_ validity_ validity_initialized_ offsets_].
    + by rewrite Hrows, length_app.
    + rewrite (rp_nulls _ _ Hr), count_nulls_app. done.
    + unfold RawBuffer.append. rewrite (rp_values _ _ Hr), map_app, concat_app, Hk. simpl.
      by rewrite app_nil_r.
    + intros Hns. apply Forall_app. split; [by apply (rp_width _ _ Hr)|]. repeat constructor.
      unfold column_kind in *. cbn [descriptor slot null_cell] in *. by rewrite length_le_bytes, Hd.
    + unfold column_kind in *. fixed_offsets Hr. done.
    + by rewrite Hi.
Qed.

(** *** Bulk strings *)

Lemma last_string_offsets base ss d :
  List.last (string_offsets base ss) d = Z.of_nat (base + length (concat ss)).
Proof.
  revert base. induction ss as [|s ss IH]; intros base; [simpl; by rewrite Nat.add_0_r|].
  change (string_offsets base (s :: ss)) with (Z.of_nat base :: string_offsets (base + length s) ss).
  specialize (IH (base + length s)%nat).
  destruct (string_offsets (base + length s) ss) as [|o os] eqn:E; [by destruct ss|].
  change (List.last (Z.of_nat base :: o :: os) d) with (List.last (o :: os) d).
  rewrite IH. cbn [concat]. rewrite length_app. f_equal. lia.
Qed.

Lemma length_string_offsets base ss : length (string_offsets base ss) = S (length ss).
Proof. revert base. induction ss; intros; simpl; auto. Qed.

(** Rebasing the offsets of the incoming strings onto the value buffer. *)
Lemma rebase_offsets from base ss :
  Z.of_nat (from + length (concat ss)) < 2 ^ 32 ->
  map (fun o => le_bytes 4 (u32 (u32 (Z.of_nat base) + u32 (o - Z.of_nat from)))) (tail (string_offsets from ss))
  = map (le_bytes 4) (tail (string_offsets base ss)).
Proof.
  intros Hl. assert (H : forall pre post, ss = pre ++ post ->
    map (fun o => le_bytes 4 (u32 (u32 (Z.of_nat base) + u32 (o - Z.of_nat from))))
      (tail (string_offsets (from + length (concat pre)) post))
    = map (le_bytes 4) (tail (string_offsets (base + length (concat pre)) post))); cycle 1.
  { specialize (H [] ss eq_refl). simpl in H. by rewrite !Nat.add_0_r in H. }
  intros pre post. revert pre. induction post as [|s post IH]; intros pre Hss; [done|].
  cbn [string_offsets tail]. specialize (IH (pre ++ [s])).
  rewrite concat_app, length_app in IH. cbn [concat] in IH. rewrite app_nil_r, !Nat.add_assoc in IH.
  rewrite (string_offsets_head (_ + length s) post), (string_offsets_head (base + _ + length s) post).
  cbn [map]. rewrite IH by (by rewrite <- app_assoc). f_equal.
  rewrite Hss, concat_app, !length_app in Hl. simpl in Hl. rewrite length_app in Hl.
  rewrite (wrapU_small 32 (_ - _)) by (unfold in_u; lia).
  rewrite wrapU_add_cancel by lia. rewrite le_bytes4_u32. f_equal. lia.
Qed.

(** The incoming pair of arrays is in Arrow layout: the offsets of the strings
    [ss], which sit in [data] behind [pre]. *)
Lemma appendStringsBulk_repr c cells pre ss post :
  repr c cells -> column_kind c = StorageKind.kString ->
  Z.of_nat (length (pre ++ concat ss ++ post)) < 2 ^ 32 ->
  exists c', ColumnBuffer.appendStringsBulk c (string_offsets (length pre) ss) (pre ++ concat ss ++ post) = Some c'
    /\ descriptor c' = descriptor c /\ repr c' (cells ++ map (mkCell true) ss).
Proof.
  intros Hr Hk Hl. rewrite !length_app in Hl.
  unfold ColumnBuffer.appendStringsBulk, ColumnBuffer.guard_kind. rewrite decide_True by done.
  pose proof (last_string_offsets (length pre) ss 0) as Hlast.
  pose proof (length_string_offsets (length pre) ss) as Hlen.
  rewrite string_offsets_head in Hlast, Hlen |- *. cbn [length] in Hlen.
  set (rest := tail _) in *. assert (Hcount : length rest = length ss) by lia.
  case_decide as H0.
  { rewrite Hcount in H0. apply nil_length_inv in H0 as ->. exists c. by rewrite app_nil_r. }
  cbv zeta. rewrite Hlast, !length_app, (wrapU_small 32 (Z.of_nat (length pre + _))) by (unfold in_u; lia).
  rewrite decide_True by lia.
  replace (Z.of_nat (length pre + length (concat ss)) - Z.of_nat (length pre)) with (Z.of_nat (length (concat ss))) by lia.
  rewrite (wrapU_small 32 (Z.of_nat (length (concat ss)))) by (unfold in_u; lia).
  rewrite !Nat2Z.id. unfold substring.
  rewrite decide_True by (rewrite !length_app; lia).
  rewrite drop_app_length, take_app_length. cbn [mbind option_bind].
  destruct (mark_valid_repr c cells (map (mkCell true) ss) Hr) as (bv & Hm & Hv).
  { apply Forall_map, Forall_true. done. }
  rewrite length_map in Hm. rewrite Hcount, Hm. cbn [mbind option_bind].
  eexists. split; [done|]. split; [done|].
  pose proof (append_string_rows c cells (map (mkCell true) ss) bv (null_count_ c) (validity_initialized_ c)
    Hr Hk) as H. rewrite map_map, map_id, length_map in H. unfold rest. rewrite map_map.
  rewrite rebase_offsets by lia. apply H; [|rewrite count_nulls_valid; [lia|]|done].
  - intros Hnil. apply (f_equal length) in Hnil. rewrite length_map in Hnil. simpl in Hnil. lia.
  - apply Forall_map, Forall_true. done.
Qed.

(** *** Bulk validity *)

(** The cells after the validity bits [flags] were given to the last rows. *)
Definition set_flags (flags : list bool) (cells : list Cell) : list Cell :=
  zip_with (fun f x => mkCell f (slot x)) flags cells.

Lemma validity_loop_bits n : forall i start view bv nulls,
  (i + n = bit_length view)%nat ->
  (bit_offset view + bit_length view <= 8 * length (bs_bytes view))%nat ->
  (start + bit_length view <= 8 * length (bv_bytes bv))%nat ->
  exists bv', ColumnBuffer.validity_loop n i start view bv nulls
      = Some (bv', nulls + (n - BitVectorFacts.count_bits (fun k => bit_at (bs_bytes view) (bit_offset view + (i + k))) n))%nat
    /\ length (bv_bytes bv') = length (bv_bytes bv) /\ bit_count bv' = bit_count bv
    /\ forall j, bit_at (bv_bytes bv') j
       = if decide (start + i <= j < start + bit_length view)%nat
         then bit_at (bs_bytes view) (bit_offset view + (j - start)) else bit_at (bv_bytes bv) j.
Proof.
  induction n as [|n IH]; intros i start view bv nulls Hn Hview Hbv.
  - exists bv. cbn. split; [do 2 f_equal; lia|]. do 2 (split; [done|]). intros. by rewrite decide_False by lia.
  - cbn [ColumnBuffer.validity_loop]. rewrite BitVectorFacts.BitSpan_test_bit by lia. cbn [mbind option_bind].
    replace (S n) with (1 + n)%nat by lia. rewrite BitVectorFacts.count_bits_add.
    rewrite BitVectorFacts.count_bits_S. cbn [BitVectorFacts.count_bits]. rewrite Nat.add_0_r.
    change (BitVectorFacts.count_bits _ 0) with 0%nat.
    rewrite (BitVectorFacts.count_bits_ext
      (fun k => bit_at (bs_bytes view) (bit_offset view + (i + (1 + k))))
      (fun k => bit_at (bs_bytes view) (bit_offset view + (S i + k)))) by (intros; f_equal; lia).
    pose proof (BitVectorFacts.count_bits_le (fun k => bit_at (bs_bytes view) (bit_offset view + (S i + k))) n).
    destruct (bit_at (bs_bytes view) (bit_offset view + i)) eqn:Eb.
    + destruct (BitVectorFacts.setValid_bit bv (start + i) ltac:(lia)) as (bs & -> & Hlen & Hbit).
      cbn [mbind option_bind].
      destruct (IH (S i) start view (mkBitVector bs (bit_count bv)) nulls) as (bv' & -> & Hl & Hc & Hb);
        [lia|done|cbn [bv_bytes]; lia|]. cbn [bv_bytes bit_count] in *.
      exists bv'. split; [do 2 f_equal; lia|]. do 2 (split; [lia|]). intros j. rewrite Hb, Hbit.
      repeat case_decide; try done; try lia. subst. by rewrite Nat.add_sub_swap, Nat.sub_diag.
    + destruct (BitVectorFacts.setNull_bit bv (start + i) ltac:(lia)) as (bs & -> & Hlen & Hbit).
      cbn [mbind option_bind].
      destruct (IH (S i) start view (mkBitVector bs (bit_count bv)) (S nulls)) as (bv' & -> & Hl & Hc & Hb);
        [lia|done|cbn [bv_bytes]; lia|]. cbn [bv_bytes bit_count] in *.
      exists bv'. split; [do 2 f_equal; lia|]. do 2 (split; [lia|]). intros j. rewrite Hb, Hbit.
      repeat case_decide; try done; try lia. subst. by rewrite Nat.add_sub_swap, Nat.sub_diag.
Qed.

Definition view_bits (view : BitSpan) : list bool :=
  map (fun k => bit_at (bs_bytes view) (bit_offset view + k)) (seq 0 (bit_length view)).

Lemma set_flags_lookup flags cells i :
  set_flags flags cells !! i = (f ← flags !! i; x ← cells !! i; Some (mkCell f (slot x))).
Proof. unfold set_flags. rewrite lookup_zip_with. done. Qed.

Lemma length_set_flags flags cells : length flags = length cells ->
  length (set_flags flags cells) = length cells.
Proof. intros H. unfold set_flags. rewrite length_zip_with. lia. Qed.

Lemma set_flags_slots flags cells : length flags = length cells ->
  map slot (set_flags flags cells) = map slot cells.
Proof.
  revert cells. induction flags as [|f flags IH]; intros [|x cells] H; simplify_eq/=; [done|]. f_equal. by apply IH.
Qed.

Lemma set_flags_nulls f cells :
  count_nulls (set_flags (map f (seq 0 (length cells))) cells)
  = (length cells - BitVectorFacts.count_bits f (length cells))%nat.
Proof.
  induction cells as [|x cells IH] using rev_ind; [done|].
  rewrite length_app. cbn [length]. rewrite Nat.add_1_r, seq_S, map_app. cbn [map plus].
  unfold set_flags in *. rewrite zip_with_app by (by rewrite length_map, length_seq).
  rewrite count_nulls_app, IH, BitVectorFacts.count_bits_S. cbn [zip_with]. rewrite count_nulls_1.
  pose proof (BitVectorFacts.count_bits_le f (length cells)). destruct (f (length cells)); lia.
Qed.

Lemma slots_repr c cells cells' bv nulls :
  repr c cells -> map slot cells' = map slot cells -> nulls = count_nulls cells' ->
  validity_repr (validity_initialized_ c) bv cells' ->
  repr (mkColumn (descriptor c) (values_ c) bv (offsets_ c) (row_count_ c) nulls (validity_initialized_ c)) cells'.
Proof.
  intros Hr Hs Hn Hv. pose proof (f_equal length Hs) as Hl. rewrite !length_map in Hl.
  split; cbn [row_count_ null_count_ values_ validity_ validity_initialized_ offsets_ descriptor].
  - by rewrite (rp_rows _ _ Hr).
  - done.
  - by rewrite (rp_values _ _ Hr), Hs.
  - intros Hk. pose proof (rp_width _ _ Hr Hk) as Hw. rewrite <- (Forall_map slot (fun s => length s = _)) in Hw.
    change (Forall (fun x => length (slot x) = storageKindSize (column_kind c)) cells').
    by rewrite <- (Forall_map slot (fun s => length s = _)), Hs.
  - rewrite (rp_offsets _ _ Hr). unfold column_kind. cbn [descriptor]. case_decide; [|done].
    unfold offsets_of. destruct cells, cells'; try done. by rewrite Hs.
  - done.
Qed.

(** The validity bits given to the rows just appended, all valid so far. *)
Lemma appendValidityBulk_repr c front back view :
  repr c (front ++ back) -> length back = bit_length view -> Forall (fun x => valid x = true) back ->
  (bit_offset view + bit_length view <= 8 * length (bs_bytes view))%nat ->
  exists c', ColumnBuffer.appendValidityBulk c view = Some c' /\ descriptor c' = descriptor c
    /\ repr c' (front ++ set_flags (view_bits view) back).
Proof.
  intros Hr0 Hlen Hback Hview. unfold ColumnBuffer.appendValidityBulk. case_decide as H0.
  { exists c. rewrite H0 in Hlen. apply nil_length_inv in Hlen as ->.
    unfold set_flags. by rewrite zip_with_nil_r. }
  pose proof (rp_rows _ _ Hr0) as Hrows. rewrite length_app in Hrows. rewrite decide_False by lia.
  destruct (ensureValidity_repr c _ Hr0) as (Hr & Hi & Hd).
  set (c1 := ColumnBuffer.ensureValidityInitialized c) in *. cbv zeta.
  pose proof (rp_validity _ _ Hr) as Hv. rewrite Hi in Hv. destruct Hv as (Hl & Hcnt & Hbits).
  pose proof (rp_rows _ _ Hr) as Hrows1. rewrite length_app in Hl, Hcnt, Hrows1.
  pose proof (BitVectorFacts.ensureSize_length (validity_ c1) (row_count_ c1)) as [He1 He2].
  pose proof (BitVectorFacts.ensureSize_count (validity_ c1) (row_count_ c1)) as [He3 He4].
  destruct (validity_loop_bits (bit_length view) 0 (row_count_ c1 - bit_length view) view
    (BitVector.ensureSize (validity_ c1) (row_count_ c1)) (null_count_ c1)) as (bv & -> & Hlb & Hlc & Hb); [lia|done|lia|].
  cbn [mbind option_bind]. eexists. split; [done|]. split; [done|].
  assert (Hfl : length (view_bits view) = length back) by (unfold view_bits; by rewrite length_map, length_seq).
  apply (slots_repr c1 (front ++ back)); [done| | |].
  - by rewrite !map_app, set_flags_slots.
  - rewrite (rp_nulls _ _ Hr), !count_nulls_app, (count_nulls_valid back) by done.
    unfold view_bits. rewrite <- Hlen, set_flags_nulls. cbn. lia.
  - rewrite Hi. do 2 (split; [rewrite length_app, length_set_flags by done; lia|]).
    intros i x Hx. rewrite Hb. apply lookup_app_Some in Hx as [Hx|[Hge Hx]].
    + pose proof (lookup_lt_Some _ _ _ Hx). rewrite decide_False by lia.
      rewrite BitVectorFacts.ensureSize_bit by lia. apply Hbits. by apply lookup_app_l_Some.
    + pose proof (lookup_lt_Some _ _ _ Hx) as Hlt. rewrite length_set_flags in Hlt by done.
      rewrite decide_True by lia. rewrite set_flags_lookup in Hx. unfold view_bits in Hx.
      rewrite list_lookup_fmap, lookup_seq_lt in Hx by lia. simpl in Hx.
      destruct (back !! (i - length front)%nat) as [y|]; simplify_eq/=. do 2 f_equal. lia.
Qed.

(** ** Reading a row *)

Lemma readFixed_repr c cells i x size :
  repr c cells -> column_kind c <> StorageKind.kString -> storageKindSize (column_kind c) = size ->
  cells !! i = Some x -> ColumnBuffer.readFixed c size i = Some (le_val (slot x)).
Proof.
  intros Hr Hk Hs Hi. unfold ColumnBuffer.readFixed.
  rewrite (rp_values _ _ Hr), <- (app_nil_r (concat _)). apply load_block.
  - apply Forall_map. pose proof (rp_width _ _ Hr Hk) as Hw. by rewrite Hs in Hw.
  - by rewrite list_lookup_fmap, Hi.
Qed.

(** A row reads back the value that its slot encodes. *)
Lemma read_repr c cells i x v :
  repr c cells -> cells !! i = Some x -> slot x = encode_value v -> kind_of_value v = column_kind c ->
  value_ok v -> Z.of_nat (length (values_ c)) < 2 ^ 32 ->
  ColumnBuffer.read c i = Some v.
Proof.
  intros Hr Hi Hslot Hk Hok Hsz. unfold ColumnBuffer.read. rewrite <- Hk.
  assert (Hfix : forall size, kind_of_value v <> StorageKind.kString -> storageKindSize (kind_of_value v) = size ->
    ColumnBuffer.readFixed c size i = Some (le_val (encode_value v))).
  { intros size Hns Hs. rewrite Hk in Hns, Hs. rewrite <- Hslot. by eapply readFixed_repr. }
  destruct v; cbn [kind_of_value] in *;
    unfold ColumnBuffer.readFloat32, ColumnBuffer.readFloat64, ColumnBuffer.readInt32, ColumnBuffer.readInt64,
      ColumnBuffer.readUint64, ColumnBuffer.readBool, ColumnBuffer.readString.
  - rewrite (Hfix 4%nat) by done. cbn [encode_value]. by rewrite le_val_le_bytes, Z.mod_small.
  - rewrite (Hfix 8%nat) by done. cbn [encode_value]. by rewrite le_val_le_bytes, Z.mod_small.
  - rewrite (Hfix 4%nat) by done. cbn [encode_value]. rewrite le_val_le_bytes. cbn. do 2 f_equal. by apply (wrapS_wrapU 32).
  - rewrite (Hfix 8%nat) by done. cbn [encode_value]. rewrite le_val_le_bytes. cbn. do 2 f_equal. by apply (wrapS_wrapU 64).
  - rewrite (Hfix 8%nat) by done. cbn [encode_value]. by rewrite le_val_le_bytes, Z.mod_small.
  - rewrite (Hfix 1%nat) by done. by destruct b.
  - pose proof (rp_offsets _ _ Hr) as Ho. rewrite decide_True in Ho by done.
    rewrite Ho, (rp_values _ _ Hr) in *. unfold offsets_of. destruct cells as [|y cells]; [done|].
    rewrite (read_string_at_ok (map slot (y :: cells)) i (slot x)); [by rewrite Hslot| |done].
    by rewrite list_lookup_fmap, Hi.
Qed.

Lemma isNull_repr c cells i x : repr c cells -> cells !! i = Some x ->
  ColumnBuffer.isNull c i = Some (negb (valid x)) /\ ColumnBuffer.isValid c i = Some (valid x).
Proof.
  intros Hr Hi. pose proof (rp_validity _ _ Hr) as Hv. unfold ColumnBuffer.isNull, ColumnBuffer.isValid.
  pose proof (lookup_lt_Some _ _ _ Hi). destruct (validity_initialized_ c).
  - destruct Hv as (Hl & _ & Hb). rewrite BitVectorFacts.isValid_bit by lia. by rewrite (Hb _ _ Hi).
  - by rewrite (Forall_lookup_1 _ _ _ _ Hv Hi).
Qed.
