(* ===== verification/Chunk.v ===== *)
(** * Chunk: building, sealing and reading columnar chunks

    Models [src/pj_datastore/src/chunk.cpp]: [TopicChunkBuilder], the choice of
    an encoding per column at [seal], and the read accessors of [TopicChunk].
    An operation is [None] when a [PJ_ASSERT] fails or memory outside of a
    buffer would be read.  The chunk id counter, a static of the class, is an
    argument of [seal]; the builder is not used after it. *)

From S2P Require Import Prelude Float64 Types Buffer Encoding Column.

Record ColumnStats := mkColumnStats {
  cs_null_count : Z; run_count : Z; is_constant : bool;
  min_value : option double; max_value : option double }.

Definition ColumnStats_init : ColumnStats := mkColumnStats 0 0 true None None.

Record ChunkStats := mkChunkStats {
  t_min : Z; t_max : Z; row_count : Z; column_stats : list ColumnStats }.

Record ChunkColumn := mkChunkColumn {
  col_data : EncodedData; validity_bitmap : option BitVector; col_descriptor : ColumnDescriptor }.

Record TopicChunk := mkChunk {
  id : Z; topic_id : Z; schema_version : Z; stats : ChunkStats;
  timestamps : list Z; columns : list ChunkColumn }.

Record TopicChunkBuilder := mkBuilder {
  topic_id_ : Z; schema_id_ : Z; max_rows_ : Z;
  timestamps_ : list Z;
  columns_ : list TypedColumnBuffer;
  column_descriptors_ : list ColumnDescriptor;
  stats_ : ChunkStats;
  row_in_progress_ : bool;
  current_timestamp_ : Z;
  last_timestamp_ : Z;
  last_column_values_ : list double;
  bulk_pending_rows_ : nat
}.

Module Builder.

Definition make (topic schema : Z) (cols : list ColumnDescriptor) (max_rows : Z) : TopicChunkBuilder :=
  mkBuilder topic schema max_rows [] (map ColumnBuffer.make cols) cols
    (mkChunkStats INT64_MAX INT64_MIN 0 (replicate (length cols) ColumnStats_init))
    false 0 INT64_MIN (replicate (length cols) f64_zero) 0.

Definition rowCount (b : TopicChunkBuilder) : Z := row_count (stats_ b).
Definition isFull (b : TopicChunkBuilder) : bool := max_rows_ b <=? rowCount b.
Definition remainingCapacity (b : TopicChunkBuilder) : Z := u32 (max_rows_ b - rowCount b).

(** *** Assignments to members *)

Definition with_row (b : TopicChunkBuilder) (in_progress : bool) (current last : Z) : TopicChunkBuilder :=
  mkBuilder (topic_id_ b) (schema_id_ b) (max_rows_ b) (timestamps_ b) (columns_ b)
    (column_descriptors_ b) (stats_ b) in_progress current last (last_column_values_ b)
    (bulk_pending_rows_ b).

Definition with_stats (b : TopicChunkBuilder) (s : ChunkStats) : TopicChunkBuilder :=
  mkBuilder (topic_id_ b) (schema_id_ b) (max_rows_ b) (timestamps_ b) (columns_ b)
    (column_descriptors_ b) s (row_in_progress_ b) (current_timestamp_ b) (last_timestamp_ b)
    (last_column_values_ b) (bulk_pending_rows_ b).

Definition with_timestamps (b : TopicChunkBuilder) (ts : list Z) : TopicChunkBuilder :=
  mkBuilder (topic_id_ b) (schema_id_ b) (max_rows_ b) ts (columns_ b)
    (column_descriptors_ b) (stats_ b) (row_in_progress_ b) (current_timestamp_ b) (last_timestamp_ b)
    (last_column_values_ b) (bulk_pending_rows_ b).

Definition with_pending (b : TopicChunkBuilder) (n : nat) : TopicChunkBuilder :=
  mkBuilder (topic_id_ b) (schema_id_ b) (max_rows_ b) (timestamps_ b) (columns_ b)
    (column_descriptors_ b) (stats_ b) (row_in_progress_ b) (current_timestamp_ b) (last_timestamp_ b)
    (last_column_values_ b) n.

Definition set_column (b : TopicChunkBuilder) (i : nat) (c : TypedColumnBuffer) : TopicChunkBuilder :=
  mkBuilder (topic_id_ b) (schema_id_ b) (max_rows_ b) (timestamps_ b) (<[i := c]> (columns_ b))
    (column_descriptors_ b) (stats_ b) (row_in_progress_ b) (current_timestamp_ b) (last_timestamp_ b)
    (last_column_values_ b) (bulk_pending_rows_ b).

Definition set_column_stats (b : TopicChunkBuilder) (i : nat) (cs : ColumnStats) : TopicChunkBuilder :=
  let s := stats_ b in
  with_stats b (mkChunkStats (t_min s) (t_max s) (row_count s) (<[i := cs]> (column_stats s))).

Definition set_last_value (b : TopicChunkBuilder) (i : nat) (d : double) : TopicChunkBuilder :=
  mkBuilder (topic_id_ b) (schema_id_ b) (max_rows_ b) (timestamps_ b) (columns_ b)
    (column_descriptors_ b) (stats_ b) (row_in_progress_ b) (current_timestamp_ b) (last_timestamp_ b)
    (<[i := d]> (last_column_values_ b)) (bulk_pending_rows_ b).

(** *** Row by row *)

Definition beginRow (b : TopicChunkBuilder) (timestamp : Z) : option TopicChunkBuilder :=
  if row_in_progress_ b then None
  else if timestamp <? last_timestamp_ b then None
  else Some (with_row b true timestamp timestamp).

(** The new statistics of a column after [value] was appended at [current_row]. *)
Definition updateColumnStats (cs : ColumnStats) (current_row : nat) (last value : double) : ColumnStats :=
  let mn := match min_value cs with
            | Some m => if f64_lt value m then Some value else Some m
            | None => Some value end in
  let mx := match max_value cs with
            | Some m => if f64_lt m value then Some value else Some m
            | None => Some value end in
  if decide (current_row = 0)%nat then mkColumnStats (cs_null_count cs) 1 (is_constant cs) mn mx
  else if f64_eq value last then mkColumnStats (cs_null_count cs) (run_count cs) (is_constant cs) mn mx
  else mkColumnStats (cs_null_count cs) (u32 (run_count cs + 1)) false mn mx.

(** The statistics part of [set<std::string_view>]. *)
Definition updateStringStats (cs : ColumnStats) (current_row : nat) (value prev : bytes) : ColumnStats :=
  if decide (current_row = 0)%nat
  then mkColumnStats (cs_null_count cs) 1 (is_constant cs) (min_value cs) (max_value cs)
  else if decide (value = prev) then cs
  else mkColumnStats (cs_null_count cs) (u32 (run_count cs + 1)) false (min_value cs) (max_value cs).

(** [static_cast<double>(value)] of the numeric setters. *)
Definition value_as_double (v : Value) : double :=
  match v with
  | VFloat32 b => f64_of_f32 (f32_of_bits b)
  | VFloat64 b => f64_of_bits b
  | VInt32 z | VInt64 z | VUint64 z => f64_of_Z z
  | VBool b => if b then f64_one else f64_zero
  | VString _ => S754_nan
  end.

Definition set (b : TopicChunkBuilder) (col_index : nat) (value : Value) : option TopicChunkBuilder :=
  if row_in_progress_ b then
    col ← columns_ b !! col_index;
    col ← ColumnBuffer.append col value;
    cs ← column_stats (stats_ b) !! col_index;
    let current_row := (row_count_ col - 1)%nat in
    let b := set_column b col_index col in
    match value with
    | VString s =>
        prev ← (if decide (current_row = 0)%nat then Some [] else ColumnBuffer.readString col (current_row - 1));
        Some (set_column_stats b col_index (updateStringStats cs current_row s prev))
    | _ =>
        last ← last_column_values_ b !! col_index;
        let d := value_as_double value in
        Some (set_last_value (set_column_stats b col_index (updateColumnStats cs current_row last d)) col_index d)
    end
  else None.

Definition bump_null (cs : ColumnStats) : ColumnStats :=
  mkColumnStats (u32 (cs_null_count cs + 1)) (run_count cs) (is_constant cs) (min_value cs) (max_value cs).

(** [columns_[i].appendNull(); stats_.column_stats[i].null_count++;] *)
Definition push_null (b : TopicChunkBuilder) (i : nat) : option TopicChunkBuilder :=
  col ← columns_ b !! i;
  col ← ColumnBuffer.appendNull col;
  cs ← column_stats (stats_ b) !! i;
  Some (set_column_stats (set_column b i col) i (bump_null cs)).

Definition setNull (b : TopicChunkBuilder) (col_index : nat) : option TopicChunkBuilder :=
  if row_in_progress_ b then push_null b col_index else None.

Fixpoint fill_loop (n i : nat) (expected : Z) (b : TopicChunkBuilder) : option TopicChunkBuilder :=
  match n with
  | O => Some b
  | S n' =>
      col ← columns_ b !! i;
      b ← (if Z.of_nat (row_count_ col) <? expected then push_null b i else Some b);
      fill_loop n' (S i) expected b
  end.

Definition finishRow (b : TopicChunkBuilder) : option TopicChunkBuilder :=
  if row_in_progress_ b then
    let expected := u32 (rowCount b + 1) in
    b ← fill_loop (length (columns_ b)) 0 expected b;
    let s := stats_ b in
    let t := current_timestamp_ b in
    let b := with_timestamps b (timestamps_ b ++ [t]) in
    let b := with_stats b (mkChunkStats (Z.min (t_min s) t) (Z.max (t_max s) t)
                             (u32 (row_count s + 1)) (column_stats s)) in
    Some (with_row b false t (last_timestamp_ b))
  else None.

(** *** Bulk append *)

Definition appendTimestamps (b : TopicChunkBuilder) (ts : list Z) : option TopicChunkBuilder :=
  if row_in_progress_ b then None
  else
    match ts with
    | [] => Some b
    | first :: _ =>
        if first <? last_timestamp_ b then None
        else
          let final := List.last ts 0 in
          let s := stats_ b in
          let b := with_timestamps b (timestamps_ b ++ ts) in
          let b := with_stats b (mkChunkStats (Z.min (t_min s) first) (Z.max (t_max s) final)
                                   (row_count s) (column_stats s)) in
          let b := with_row b (row_in_progress_ b) (current_timestamp_ b) final in
          Some (with_pending b (length ts))
    end.

(** [appendColumn<T>] on the elements of a [Span<const T>]. *)
Inductive BulkData :=
| BFloat32 (l : list Z) | BFloat64 (l : list Z) | BInt32 (l : list Z) | BInt64 (l : list Z)
| BUint64 (l : list Z) | BBool (l : list Z).

Definition appendColumn (b : TopicChunkBuilder) (col_index : nat) (data : BulkData) : option TopicChunkBuilder :=
  col ← columns_ b !! col_index;
  col ← match data with
        | BFloat32 l => ColumnBuffer.appendFloat32Bulk col l
        | BFloat64 l => ColumnBuffer.appendFloat64Bulk col l
        | BInt32 l => ColumnBuffer.appendInt32Bulk col l
        | BInt64 l => ColumnBuffer.appendInt64Bulk col l
        | BUint64 l => ColumnBuffer.appendUint64Bulk col l
        | BBool l => ColumnBuffer.appendBoolBulk col l
        end;
  Some (set_column b col_index col).

Definition appendColumnStrings (b : TopicChunkBuilder) (col_index : nat) (offsets : list Z) (data : bytes)
  : option TopicChunkBuilder :=
  col ← columns_ b !! col_index;
  col ← ColumnBuffer.appendStringsBulk col offsets data;
  Some (set_column b col_index col).

Definition appendColumnValidity (b : TopicChunkBuilder) (col_index : nat) (validity : BitSpan)
  : option TopicChunkBuilder :=
  col ← columns_ b !! col_index;
  col ← ColumnBuffer.appendValidityBulk col validity;
  Some (set_column b col_index col).

(** The loop state of [computeBulkNumericStats]: the column's statistics, the
    local minimum and maximum, the previous value, [had_valid]. *)
Record BulkState := mkBulk {
  bk_cs : ColumnStats; local_min : double; local_max : double; prev : double; had_valid : bool }.

Definition bulk_step (s : BulkState) (v : double) : BulkState :=
  let mn := if f64_lt v (local_min s) then v else local_min s in
  let mx := if f64_lt (local_max s) v then v else local_max s in
  let cs := bk_cs s in
  if had_valid s then
    if f64_eq v (prev s) then mkBulk cs mn mx v true
    else mkBulk (mkColumnStats (cs_null_count cs) (u32 (run_count cs + 1)) false (min_value cs) (max_value cs))
           mn mx v true
  else mkBulk (mkColumnStats (cs_null_count cs) 1 (is_constant cs) (min_value cs) (max_value cs)) mn mx v true.

Definition bulk_null (s : BulkState) : BulkState :=
  mkBulk (bump_null (bk_cs s)) (local_min s) (local_max s) (prev s) (had_valid s).

Fixpoint bulk_loop (n row : nat) (col : TypedColumnBuffer) (has_validity : bool) (s : BulkState)
  : option BulkState :=
  match n with
  | O => Some s
  | S n' =>
      ok ← (if has_validity then ColumnBuffer.isValid col row else Some true);
      if (ok : bool) then
        v ← ColumnBuffer.readAsDouble col row;
        bulk_loop n' (S row) col has_validity (bulk_step s v)
      else bulk_loop n' (S row) col has_validity (bulk_null s)
  end.

(** The numeric and the bool branch have the same loop; [readAsDouble] is the
    element converted to [double] in both. *)
Definition computeBulkNumericStats (b : TopicChunkBuilder) (col_index first_row count : nat)
  : option TopicChunkBuilder :=
  if decide (count = 0)%nat then Some b
  else
    col ← columns_ b !! col_index;
    cs ← column_stats (stats_ b) !! col_index;
    last ← last_column_values_ b !! col_index;
    s ← bulk_loop count first_row col (ColumnBuffer.hasNulls col)
          (mkBulk cs (default f64_max (min_value cs)) (default f64_lowest (max_value cs)) last
             (0 <? run_count cs));
    let cs := bk_cs s in
    let cs := if had_valid s
              then mkColumnStats (cs_null_count cs) (run_count cs) (is_constant cs) (Some (local_min s)) (Some (local_max s))
              else cs in
    Some (set_last_value (set_column_stats b col_index cs) col_index (prev s)).

Fixpoint last_valid_before (j : nat) (col : TypedColumnBuffer) (has_validity : bool) : option (option bytes) :=
  match j with
  | O => Some None
  | S j' =>
      ok ← (if has_validity then ColumnBuffer.isValid col j' else Some true);
      if (ok : bool) then s ← ColumnBuffer.readString col j'; Some (Some s)
      else last_valid_before j' col has_validity
  end.

Fixpoint bulk_string_loop (n row : nat) (col : TypedColumnBuffer) (has_validity : bool) (cs : ColumnStats)
    (last_valid : option bytes) : option ColumnStats :=
  match n with
  | O => Some cs
  | S n' =>
      ok ← (if has_validity then ColumnBuffer.isValid col row else Some true);
      if (ok : bool) then
        current ← ColumnBuffer.readString col row;
        let cs :=
          match last_valid with
          | None => mkColumnStats (cs_null_count cs) 1 (is_constant cs) (min_value cs) (max_value cs)
          | Some l =>
              if decide (current = l) then cs
              else mkColumnStats (cs_null_count cs) (u32 (run_count cs + 1)) false (min_value cs) (max_value cs)
          end in
        bulk_string_loop n' (S row) col has_validity cs (Some current)
      else bulk_string_loop n' (S row) col has_validity (bump_null cs) last_valid
  end.

Definition computeBulkStringStats (b : TopicChunkBuilder) (col_index first_row count : nat)
  : option TopicChunkBuilder :=
  if decide (count = 0)%nat then Some b
  else
    col ← columns_ b !! col_index;
    cs ← column_stats (stats_ b) !! col_index;
    let has_validity := ColumnBuffer.hasNulls col in
    last_valid ← (if decide (0 < first_row)%nat then
                    if 0 <? run_count cs then last_valid_before first_row col has_validity else Some None
                  else Some None);
    cs ← bulk_string_loop count first_row col has_validity cs last_valid;
    Some (set_column_stats b col_index cs).

Fixpoint finish_loop (n col : nat) (count : nat) (b : TopicChunkBuilder) : option TopicChunkBuilder :=
  match n with
  | O => Some b
  | S n' =>
      c ← columns_ b !! col;
      d ← column_descriptors_ b !! col;
      if decide (row_count_ c < count)%nat then None
      else
        let first_row := (row_count_ c - count)%nat in
        b ← (if decide (kind_of d = StorageKind.kString)
             then computeBulkStringStats b col first_row count
             else computeBulkNumericStats b col first_row count);
        finish_loop n' (S col) count b
  end.

Definition finishBulkAppend (b : TopicChunkBuilder) : option TopicChunkBuilder :=
  if row_in_progress_ b then None
  else if decide (bulk_pending_rows_ b = 0)%nat then Some b
  else
    let count := bulk_pending_rows_ b in
    b ← finish_loop (length (columns_ b)) 0 count b;
    let s := stats_ b in
    let b := with_stats b (mkChunkStats (t_min s) (t_max s) (u32 (row_count s + Z.of_nat count)) (column_stats s)) in
    Some (with_pending b 0).

(** *** seal *)

Record ExactStats := mkExact { exact_min : Z; exact_max : Z; exact_is_constant : bool; first_val : Z }.

Definition exact_step (s : ExactStats) (r : nat) (v : Z) : ExactStats :=
  let '(first, const) :=
    if decide (r = 0)%nat then (v, exact_is_constant s)
    else if v =? first_val s then (first_val s, exact_is_constant s) else (first_val s, false) in
  mkExact (Z.min (exact_min s) v) (Z.max (exact_max s) v) const first.

Fixpoint exact_loop (n r : nat) (data : bytes) (kind : StorageKind.t) (s : ExactStats) : option ExactStats :=
  match n with
  | O => Some s
  | S n' =>
      v ← read_integer data kind r;
      exact_loop n' (S r) data kind (exact_step s r v)
  end.

(** The body of the loop of [seal] over the columns. [exact_max - exact_min]
    is a signed subtraction, wrapped here. *)
Definition encode_column (col : TypedColumnBuffer) (kind : StorageKind.t) (cs : ColumnStats)
  : option EncodedData :=
  let rows := row_count_ col in
  let data := values_ col in
  match kind with
  | StorageKind.kString => Dictionary <$> dictionaryEncodeStrings (offsets_ col) data rows
  | StorageKind.kBool =>
      if is_constant cs && bool_decide (0 < rows)%nat then Constant <$> constantEncode data kind rows
      else if decide (rows <= length data)%nat then Some (Packed (packBools (take rows data))) else None
  | StorageKind.kInt32 | StorageKind.kInt64 =>
      s ← exact_loop rows 0 data kind (mkExact INT64_MAX INT64_MIN true 0);
      if exact_is_constant s && bool_decide (0 < rows)%nat then Constant <$> constantEncode data kind rows
      else if decide (0 < rows)%nat then
        let range := u64 (i64 (exact_max s - exact_min s)) in
        let ob := offsetBytesFor range in
        if decide (ob < storageKindSize kind)%nat
        then FrameOfReference <$> forEncode data kind rows (exact_min s) (exact_max s)
        else Some (Raw data)
      else Some (Raw data)
  | _ =>
      if is_constant cs && bool_decide (0 < rows)%nat then Constant <$> constantEncode data kind rows
      else Some (Raw data)
  end.

Definition seal_column (col : TypedColumnBuffer) (d : ColumnDescriptor) (cs : ColumnStats)
  : option ChunkColumn :=
  enc ← encode_column col (kind_of d) cs;
  let bm := if ColumnBuffer.hasNulls col
            then Some (BitVector.assignBytes (bv_bytes (validity_ col)) (bit_count (validity_ col)))
            else None in
  Some (mkChunkColumn enc bm d).

Fixpoint seal_columns (cols : list TypedColumnBuffer) (ds : list ColumnDescriptor) (css : list ColumnStats)
  : option (list ChunkColumn) :=
  match cols, ds, css with
  | [], _, _ => Some []
  | col :: cols', d :: ds', cs :: css' =>
      c ← seal_column col d cs; rest ← seal_columns cols' ds' css'; Some (c :: rest)
  | _, _, _ => None
  end.

Definition seal (b : TopicChunkBuilder) (next_chunk_id : Z) : option TopicChunk :=
  cols ← seal_columns (columns_ b) (column_descriptors_ b) (column_stats (stats_ b));
  Some (mkChunk next_chunk_id (topic_id_ b) (schema_id_ b) (stats_ b) (timestamps_ b) cols).

End Builder.

(** ** Reading a sealed chunk *)

Module Chunk.

Definition columnEncoding (c : TopicChunk) (index : nat) : option EncodingType :=
  col ← columns c !! index;
  Some match col_data col with
       | Raw _ => kRaw
       | Constant _ => kConstant
       | FrameOfReference _ => kFrameOfReference
       | Dictionary _ => kDictionary
       | Packed _ => kPackedBool
       end.

Definition readTimestamp (c : TopicChunk) (row : nat) : option Z := timestamps c !! row.

Definition readTimestamps (c : TopicChunk) (count row_start : nat) : option (list Z) :=
  if decide (row_start + count <= length (timestamps c))%nat
  then Some (take count (drop row_start (timestamps c))) else None.

(** [read_raw_as<R>]: the raw number, converted by [conv] for its type;
    [other] for a kind that is not numeric. *)
Definition read_raw_as {R} (buf : bytes) (kind : StorageKind.t) (row : nat)
    (of_float : double -> option R) (of_int : Z -> R) (other : R) : option R :=
  match kind with
  | StorageKind.kFloat32 => v ← load 4 (row * 4) buf; of_float (f64_of_f32 (f32_of_bits v))
  | StorageKind.kFloat64 => v ← load 8 (row * 8) buf; of_float (f64_of_bits v)
  | StorageKind.kInt32 => v ← load 4 (row * 4) buf; Some (of_int (i32 v))
  | StorageKind.kInt64 => v ← load 8 (row * 8) buf; Some (of_int (i64 v))
  | StorageKind.kUint64 => v ← load 8 (row * 8) buf; Some (of_int v)
  | _ => Some other
  end.

Definition readNumericAsDouble (c : TopicChunk) (col_index row : nat) : option double :=
  col ← columns c !! col_index;
  match col_data col with
  | Raw buf => read_raw_as buf (kind_of (col_descriptor col)) row Some f64_of_Z f64_zero
  | Constant enc => constantDecodeAsDouble enc
  | FrameOfReference enc => forDecodeOneAsDouble enc row
  | _ => Some f64_zero
  end.

Definition readNumericAsInt64 (c : TopicChunk) (col_index row : nat) : option Z :=
  col ← columns c !! col_index;
  match col_data col with
  | Raw buf => read_raw_as buf (kind_of (col_descriptor col)) row f64_to_s64 i64 0
  | Constant enc => constantDecodeAsInt64 enc
  | FrameOfReference enc => forDecodeOneAsInt64 enc row
  | _ => Some 0
  end.

Definition readNumericAsUint64 (c : TopicChunk) (col_index row : nat) : option Z :=
  col ← columns c !! col_index;
  match col_data col with
  | Raw buf => read_raw_as buf (kind_of (col_descriptor col)) row f64_to_u64 u64 0
  | Constant enc => constantDecodeAsUint64 enc
  | FrameOfReference enc => u64 <$> forDecodeOneAsInt64 enc row
  | _ => Some 0
  end.

(** [std::get] throws on another variant: [None]. *)
Definition readString (c : TopicChunk) (col_index row : nat) : option bytes :=
  col ← columns c !! col_index;
  match col_data col with
  | Dictionary enc => dictionaryLookup enc row
  | _ => None
  end.

Definition readBool (c : TopicChunk) (col_index row : nat) : option bool :=
  col ← columns c !! col_index;
  match col_data col with
  | Constant enc => v ← load 1 0 (value_bytes enc); Some (negb (v =? 0))
  | Packed enc => unpackBool enc row
  | _ => Some false
  end.

Definition isNull (c : TopicChunk) (col_index row : nat) : option bool :=
  col ← columns c !! col_index;
  match validity_bitmap col with
  | None => Some false
  | Some bm => if BitVector.isEmpty bm then Some false else negb <$> BitVector.isValid bm row
  end.

(** The value loop of [readColumnAsDoubles], before nulls are masked. *)
Definition decode_column (col : ChunkColumn) (count row_start : nat) : option (list double) :=
  match col_data col with
  | Constant enc => v ← constantDecodeAsDouble enc; Some (replicate count v)
  | FrameOfReference enc => forDecodeRangeAsDoubles enc count row_start
  | Raw buf =>
      match kind_of (col_descriptor col) with
      | StorageKind.kBool | StorageKind.kString => Some (replicate count S754_nan)
      | kind => mapM (fun i => read_raw_as buf kind (row_start + i) Some f64_of_Z f64_zero) (seq 0 count)
      end
  | _ => Some (replicate count S754_nan)
  end.

Fixpoint mask_nulls (out : list double) (i row_start : nat) (bm : BitVector) : option (list double) :=
  match out with
  | [] => Some []
  | d :: out' =>
      ok ← BitVector.isValid bm (row_start + i);
      rest ← mask_nulls out' (S i) row_start bm;
      Some ((if (ok : bool) then d else S754_nan) :: rest)
  end.

Definition readColumnAsDoubles (c : TopicChunk) (col_index count row_start : nat) : option (list double) :=
  col ← columns c !! col_index;
  out ← decode_column col count row_start;
  match validity_bitmap col with
  | Some bm => mask_nulls out 0 row_start bm
  | None => Some out
  end.

(** The read accessor for the kind of a column, as one function. *)
Definition readValue (c : TopicChunk) (col_index row : nat) : option Value :=
  col ← columns c !! col_index;
  match kind_of (col_descriptor col) with
  | StorageKind.kInt32 => VInt32 <$> readNumericAsInt64 c col_index row
  | StorageKind.kInt64 => VInt64 <$> readNumericAsInt64 c col_index row
  | StorageKind.kUint64 => VUint64 <$> readNumericAsUint64 c col_index row
  | StorageKind.kBool => VBool <$> readBool c col_index row
  | StorageKind.kString => VString <$> readString c col_index row
  | _ => None
  end.

End Chunk.

(** ** Slots as numbers *)

Definition slot_int (k : StorageKind.t) (s : bytes) : Z :=
  if decide (k = StorageKind.kInt32) then i32 (le_val s) else i64 (le_val s).

Definition slot_double (k : StorageKind.t) (s : bytes) : double :=
  match k with
  | StorageKind.kFloat32 => f64_of_f32 (f32_of_bits (le_val s))
  | StorageKind.kFloat64 => f64_of_bits (le_val s)
  | StorageKind.kInt32 | StorageKind.kInt64 => f64_of_Z (slot_int k s)
  | StorageKind.kUint64 => f64_of_Z (le_val s)
  | StorageKind.kBool => if le_val s =? 0 then f64_zero else f64_one
  | StorageKind.kString => S754_nan
  end.

(** The same number up to what [==] on doubles tells apart: [0.0 == -0.0]. *)
Definition same_number (a b : double) : Prop := a = b \/ f64_eq a b = true.

Definition is_numeric (k : StorageKind.t) : Prop := k <> StorageKind.kString.

Lemma slot_double_value v : value_ok v -> kind_of_value v <> StorageKind.kString ->
  slot_double (kind_of_value v) (encode_value v) = Builder.value_as_double v.
Proof.
  destruct v; intros Hok Hk; cbn [kind_of_value encode_value slot_double Builder.value_as_double value_ok] in *;
    unfold slot_int; rewrite ?le_val_le_bytes, ?decide_True, ?decide_False by done.
  - by rewrite Z.mod_small.
  - by rewrite Z.mod_small.
  - f_equal. by apply (wrapS_wrapU 32).
  - f_equal. by apply (wrapS_wrapU 64).
  - by rewrite Z.mod_small.
  - by destruct b.
  - by destruct Hk.
Qed.

Lemma slot_int_value v z : value_ok v -> v = VInt32 z \/ v = VInt64 z ->
  slot_int (kind_of_value v) (encode_value v) = z.
Proof.
  intros Hok [-> | ->]; unfold slot_int; cbn [kind_of_value encode_value value_ok] in *;
    rewrite le_val_le_bytes.
  - rewrite decide_True by done. by apply (wrapS_wrapU 32).
  - rewrite decide_False by done. by apply (wrapS_wrapU 64).
Qed.

Lemma readAsDouble_repr c cells i x : repr c cells -> cells !! i = Some x ->
  ColumnBuffer.readAsDouble c i = Some (slot_double (column_kind c) (slot x)).
Proof.
  intros Hr Hi. unfold ColumnBuffer.readAsDouble.
  pose proof (fun size Hk Hs => readFixed_repr c cells i x size Hr Hk Hs Hi) as Hfix.
  destruct (column_kind c) eqn:Ek;
    unfold ColumnBuffer.readFloat32, ColumnBuffer.readFloat64, ColumnBuffer.readInt32, ColumnBuffer.readInt64,
      ColumnBuffer.readUint64, ColumnBuffer.readBool; try done;
    [rewrite (Hfix 4%nat)|rewrite (Hfix 8%nat)|rewrite (Hfix 4%nat)|rewrite (Hfix 8%nat)
    |rewrite (Hfix 8%nat)|rewrite (Hfix 1%nat)]; try done.
  cbn. by destruct (le_val (slot x) =? 0).
Qed.

(** ** The exact integer statistics of [seal] *)

Record exact_inv (s : Builder.ExactStats) (l : list Z) : Prop := {
  ex_bounds : Forall (fun z => Builder.exact_min s <= z <= Builder.exact_max s) l;
  ex_first : forall z, l !! 0%nat = Some z -> Builder.first_val s = z;
  ex_attained : l <> [] -> Builder.exact_min s ∈ l /\ Builder.exact_max s ∈ l;
  ex_empty : l = [] -> Builder.exact_min s = INT64_MAX /\ Builder.exact_max s = INT64_MIN;
  ex_const : Builder.exact_is_constant s = true -> Forall (fun z => z = Builder.first_val s) l
}.

Lemma exact_step_inv s l v : in_s 64 v -> exact_inv s l ->
  exact_inv (Builder.exact_step s (length l) v) (l ++ [v]).
Proof.
  intros Hv [Hb Hf Ha He Hc]. unfold Builder.exact_step. destruct l as [|a l].
  - destruct (He eq_refl) as [-> ->]. cbn. unfold in_s, INT64_MAX, INT64_MIN in *.
    rewrite Z.min_r, Z.max_r by lia.
    split; cbn; [by repeat constructor|by intros z [= ->]|intros _; rewrite !list_elem_of_singleton; done|done|].
    intros. by repeat constructor.
  - destruct (Ha ltac:(done)) as [Hmin Hmax]. cbn [length]. rewrite decide_False by lia.
    rewrite (Hf a eq_refl) in *.
    assert (Hbounds : Forall (fun z => Z.min (Builder.exact_min s) v <= z <= Z.max (Builder.exact_max s) v) ((a :: l) ++ [v])).
    { apply Forall_app. split; [eapply Forall_impl; [exact Hb|]; simpl; lia|]. repeat constructor; lia. }
    assert (Hatt : Z.min (Builder.exact_min s) v ∈ (a :: l) ++ [v] /\ Z.max (Builder.exact_max s) v ∈ (a :: l) ++ [v]).
    { rewrite !elem_of_app, !list_elem_of_singleton. split.
      - destruct (Z.min_spec (Builder.exact_min s) v) as [[_ ->]|[_ ->]]; auto.
      - destruct (Z.max_spec (Builder.exact_max s) v) as [[_ ->]|[_ ->]]; auto. }
    destruct (v =? a) eqn:E; split;
      cbn [Builder.exact_min Builder.exact_max Builder.exact_is_constant Builder.first_val]; try done;
      try (by intros z [= <-]).
    intros Hk. apply Forall_app. split; [by apply Hc|]. repeat constructor. by apply Z.eqb_eq.
Qed.

Lemma exact_loop_inv data kind zs rest s :
  integer_rows data kind (zs ++ rest) -> Forall (in_s 64) rest -> exact_inv s zs ->
  exists s', Builder.exact_loop (length rest) (length zs) data kind s = Some s' /\ exact_inv s' (zs ++ rest).
Proof.
  revert zs s. induction rest as [|v rest IH]; intros zs s Hrows Hall Hinv.
  - rewrite app_nil_r. eauto.
  - cbn [length Builder.exact_loop]. apply Forall_cons in Hall as [Hv Hall].
    rewrite Hrows by (rewrite length_app; simpl; lia). rewrite list_lookup_middle by done. cbn [mbind option_bind].
    destruct (IH (zs ++ [v]) (Builder.exact_step s (length zs) v)) as (s' & Hs & Hi);
      [by rewrite <- app_assoc|done|by apply exact_step_inv|].
    rewrite length_app in Hs. cbn [length] in Hs. rewrite Nat.add_1_r in Hs.
    exists s'. split; [done|]. by rewrite <- app_assoc in Hi.
Qed.

Lemma exact_inv_start : exact_inv (Builder.mkExact INT64_MAX INT64_MIN true 0) [].
Proof. by split. Qed.

(** ** What a sealed column answers *)

Definition ints_of (k : StorageKind.t) (cells : list Cell) : list Z := map (fun x => slot_int k (slot x)) cells.

Definition is_integer (k : StorageKind.t) : Prop := k = StorageKind.kInt32 \/ k = StorageKind.kInt64.

Lemma integer_rows_repr c cells : repr c cells -> is_integer (column_kind c) ->
  integer_rows (values_ c) (column_kind c) (ints_of (column_kind c) cells).
Proof.
  intros Hr Hk i Hi. unfold ints_of in *. rewrite length_map in Hi.
  destruct (lookup_lt_is_Some_2 cells i Hi) as [x Hx]. rewrite list_lookup_fmap, Hx. cbn.
  assert (Hns : column_kind c <> StorageKind.kString) by (destruct Hk as [-> | ->]; done).
  pose proof (readFixed_repr c cells i x _ Hr Hns eq_refl Hx) as Hf.
  unfold ColumnBuffer.readFixed in Hf. unfold read_integer, slot_int.
  destruct Hk as [Hk|Hk]; rewrite Hk in Hf |- *; cbn in Hf |- *; by rewrite Hf.
Qed.

Lemma slot_int_range k s : is_integer k -> in_s 64 (slot_int k s).
Proof.
  intros _. unfold slot_int. case_decide; [|by apply wrapS_range].
  pose proof (wrapS_range 32 (le_val s) ltac:(lia)). unfold in_s in *. lia.
Qed.

(** The first slot, which a constant encoding keeps. *)
Lemma constantEncode_slot c cells x0 : repr c cells -> column_kind c <> StorageKind.kString ->
  cells !! 0%nat = Some x0 ->
  exists enc, constantEncode (values_ c) (column_kind c) (row_count_ c) = Some enc
    /\ value_kind enc = column_kind c
    /\ value_bytes enc = slot x0 ++ zero_bytes (8 - storageKindSize (column_kind c))
    /\ length (slot x0) = storageKindSize (column_kind c).
Proof.
  intros Hr Hk Hx. pose proof (lookup_lt_Some _ _ _ Hx) as Hl. rewrite <- (rp_rows _ _ Hr) in Hl.
  pose proof (Forall_lookup_1 _ _ _ _ (rp_width _ _ Hr Hk) Hx) as Hw. cbn in Hw.
  unfold constantEncode. rewrite decide_True by (destruct (column_kind c); simpl in *; try done; lia).
  rewrite (rp_values _ _ Hr). destruct cells as [|y cells]; simplify_eq/=.
  rewrite decide_True by (rewrite length_app; lia).
  eexists. split; [done|]. cbn [value_kind value_bytes]. by rewrite <- Hw, take_app_length.
Qed.

Lemma load_exact s k : load (length s) 0 (s ++ k) = Some (le_val s).
Proof.
  unfold load. rewrite length_app, decide_True by lia. by rewrite drop_0, take_app_length.
Qed.

Lemma constant_double enc k s p : value_kind enc = k -> value_bytes enc = s ++ p ->
  length s = storageKindSize k -> k <> StorageKind.kString -> k <> StorageKind.kBool ->
  constantDecodeAsDouble enc = Some (slot_double k s).
Proof.
  intros Hk Hb Hl Hs Hbl. unfold constantDecodeAsDouble. rewrite Hk, Hb.
  pose proof (load_exact s p) as H. rewrite Hl in H.
  destruct k; simpl in H; try done; rewrite H; done.
Qed.

Lemma constant_int enc k s p : value_kind enc = k -> value_bytes enc = s ++ p ->
  length s = storageKindSize k -> is_integer k -> constantDecodeAsInt64 enc = Some (slot_int k s).
Proof.
  intros Hk Hb Hl Hi. unfold constantDecodeAsInt64, slot_int. rewrite Hk, Hb.
  pose proof (load_exact s p) as H. rewrite Hl in H.
  destruct Hi as [-> | ->]; simpl in H; by rewrite H.
Qed.

(** Column [j] of the chunk holds [enc]. *)
Definition sealed_as (chunk : TopicChunk) (j : nat) (enc : EncodedData) (k : StorageKind.t) : Prop :=
  exists cc, columns chunk !! j = Some cc /\ col_data cc = enc /\ kind_of (col_descriptor cc) = k.

Lemma raw_read c cells i x w : repr c cells -> column_kind c <> StorageKind.kString ->
  cells !! i = Some x -> storageKindSize (column_kind c) = w ->
  load w (i * w) (values_ c) = Some (le_val (slot x)).
Proof. intros Hr Hk Hi Hw. by apply (readFixed_repr c cells i x w Hr Hk Hw Hi). Qed.

(** Integers are exact, whatever the encoding. *)
Lemma encode_integer_ok c cells cs : repr c cells -> is_integer (column_kind c) ->
  exists enc, Builder.encode_column c (column_kind c) cs = Some enc
    /\ forall chunk j i x, sealed_as chunk j enc (column_kind c) -> cells !! i = Some x ->
       Chunk.readNumericAsInt64 chunk j i = Some (slot_int (column_kind c) (slot x)).
Proof.
  intros Hr Hk. set (k := column_kind c) in *. set (zs := ints_of k cells).
  assert (Hns : k <> StorageKind.kString) by (destruct Hk as [-> | ->]; done).
  pose proof (integer_rows_repr c cells Hr Hk) as Hrows. fold k zs in Hrows.
  assert (Hlen : length zs = row_count_ c) by (unfold zs, ints_of; by rewrite length_map, (rp_rows _ _ Hr)).
  assert (Hrange : Forall (in_s 64) zs).
  { apply Forall_map, Forall_true. intros. by apply slot_int_range. }
  assert (Hzs : forall i x, cells !! i = Some x -> zs !! i = Some (slot_int k (slot x))).
  { intros i x Hi. unfold zs, ints_of. by rewrite list_lookup_fmap, Hi. }
  destruct (exact_loop_inv (values_ c) k [] zs _ Hrows Hrange exact_inv_start) as (s & Hs & [Hb Hf Ha He Hc]).
  cbn [app length] in *. rewrite Hlen in Hs.
  assert (Hencode : Builder.encode_column c k cs =
    (if Builder.exact_is_constant s && bool_decide (0 < row_count_ c)%nat
     then Constant <$> constantEncode (values_ c) k (row_count_ c)
     else if decide (0 < row_count_ c)%nat then
       if decide (offsetBytesFor (u64 (i64 (Builder.exact_max s - Builder.exact_min s))) < storageKindSize k)%nat
       then FrameOfReference <$> forEncode (values_ c) k (row_count_ c) (Builder.exact_min s) (Builder.exact_max s)
       else Some (Raw (values_ c))
     else Some (Raw (values_ c)))).
  { unfold Builder.encode_column. destruct Hk as [Hk|Hk]; rewrite Hk in Hs |- *; by rewrite Hs. }
  rewrite Hencode. clear Hencode Hs.
  assert (Hraw : forall chunk j i x, sealed_as chunk j (Raw (values_ c)) k -> cells !! i = Some x ->
    Chunk.readNumericAsInt64 chunk j i = Some (slot_int k (slot x))).
  { intros chunk j i x (cc & Hcc & Hd & Hkc) Hi. unfold Chunk.readNumericAsInt64. rewrite Hcc.
    cbn [mbind option_bind]. rewrite Hd, Hkc. unfold Chunk.read_raw_as.
    pose proof (raw_read c cells i x _ Hr Hns Hi eq_refl) as Hl. fold k in Hl. unfold slot_int.
    pose proof (wrapS_range 32 (le_val (slot x)) ltac:(lia)).
    destruct Hk as [Hk|Hk]; rewrite Hk in Hl |- *; cbn in Hl |- *; rewrite Hl; cbn; f_equal;
      apply wrapS_small; try lia; rewrite ?decide_True by done;
      [unfold in_s in *; lia|by apply wrapS_range]. }
  destruct (bool_decide_reflect (0 < row_count_ c)%nat) as [Hpos|Hpos].
  2:{ rewrite andb_false_r, decide_False by done. eauto. }
  rewrite andb_true_r, (decide_True (P := (0 < row_count_ c)%nat)) by done.
  destruct (Builder.exact_is_constant s) eqn:Econst.
  - destruct (lookup_lt_is_Some_2 cells 0) as [x0 Hx0]; [rewrite <- (rp_rows _ _ Hr); lia|].
    destruct (constantEncode_slot c cells x0 Hr Hns Hx0) as (enc & He' & Hvk & Hvb & Hvl).
    fold k in He'. rewrite He'. eexists. split; [done|]. intros chunk j i x (cc & Hcc & Hd & Hkc) Hi.
    unfold Chunk.readNumericAsInt64. rewrite Hcc. cbn [mbind option_bind]. rewrite Hd.
    rewrite (constant_int enc k (slot x0) _ Hvk Hvb Hvl Hk). f_equal.
    specialize (Hc eq_refl). rewrite Forall_lookup in Hc.
    by rewrite (Hc i _ (Hzs i x Hi)), (Hc 0%nat _ (Hzs 0%nat x0 Hx0)).
  - assert (Hne : zs <> []) by (intros ->; simpl in *; lia). destruct (Ha Hne) as [Hmin Hmax].
    rewrite Forall_forall in Hrange. pose proof (Hrange _ Hmin) as Hmn. pose proof (Hrange _ Hmax) as Hmx.
    assert (Hle : Builder.exact_min s <= Builder.exact_max s).
    { rewrite Forall_forall in Hb. specialize (Hb _ Hmin). lia. }
    assert (Hu : u64 (i64 (Builder.exact_max s - Builder.exact_min s)) = Builder.exact_max s - Builder.exact_min s).
    { rewrite wrapU_wrapS. apply wrapU_small. unfold in_u, in_s in *. lia. }
    rewrite Hu. case_decide as Hob; [|eauto].
    assert (Hsmall : Builder.exact_max s - Builder.exact_min s < 2 ^ 32).
    { unfold offsetBytesFor in Hob. change (Z.shiftl 1 32) with (2 ^ 32) in Hob.
      assert (storageKindSize k <= 8)%nat by (destruct k; simpl; lia).
      repeat case_match; lia. }
    rewrite <- Hlen. destruct (forEncode_ok (values_ c) k zs (Builder.exact_min s) (Builder.exact_max s))
      as (enc & Henc & _); [done..|]. rewrite Henc. eexists. split; [done|].
    intros chunk j i x (cc & Hcc & Hd & Hkc) Hi. unfold Chunk.readNumericAsInt64. rewrite Hcc.
    cbn [mbind option_bind]. rewrite Hd.
    by apply (forDecode_ok (values_ c) k zs (Builder.exact_min s) (Builder.exact_max s) enc i); try done; apply Hzs.
Qed.

(** What the incremental statistics promise when they say a column is
    constant: every valid slot compares equal, as a double, to the first slot. *)
Definition const_sound (cs : ColumnStats) (k : StorageKind.t) (cells : list Cell) : Prop :=
  is_constant cs = true -> forall i x0 x, cells !! 0%nat = Some x0 -> cells !! i = Some x ->
    valid x = true -> i = 0%nat \/ f64_eq (slot_double k (slot x0)) (slot_double k (slot x)) = true.

Definition is_default (k : StorageKind.t) : Prop :=
  k = StorageKind.kFloat32 \/ k = StorageKind.kFloat64 \/ k = StorageKind.kUint64.

(** Column [j] of the chunk is one constant. *)
Definition constant_column (chunk : TopicChunk) (j : nat) : Prop :=
  exists cc enc, columns chunk !! j = Some cc /\ col_data cc = Constant enc.

Lemma constant_uint enc s p : value_kind enc = StorageKind.kUint64 -> value_bytes enc = s ++ p ->
  length s = 8%nat -> constantDecodeAsUint64 enc = Some (le_val s).
Proof.
  intros Hk Hb Hl. unfold constantDecodeAsUint64. rewrite Hk, Hb. rewrite <- Hl. apply load_exact.
Qed.

(** Floats and unsigned integers: the slot read is the slot written, except in
    a constant column, which has the first slot for all; the two compare equal
    as doubles. *)
Lemma encode_default_ok c cells cs : repr c cells -> is_default (column_kind c) ->
  const_sound cs (column_kind c) cells ->
  exists enc, Builder.encode_column c (column_kind c) cs = Some enc
    /\ forall chunk j i x, sealed_as chunk j enc (column_kind c) -> cells !! i = Some x -> valid x = true ->
       exists y, Chunk.readNumericAsDouble chunk j i = Some (slot_double (column_kind c) (slot y))
         /\ (column_kind c = StorageKind.kUint64 -> Chunk.readNumericAsUint64 chunk j i = Some (le_val (slot y)))
         /\ (y = x \/ i <> 0%nat /\ constant_column chunk j /\ cells !! 0%nat = Some y
              /\ (column_kind c = StorageKind.kUint64 ->
                  Chunk.readNumericAsUint64 chunk j 0 = Some (le_val (slot y)))
              /\ f64_eq (slot_double (column_kind c) (slot y)) (slot_double (column_kind c) (slot x)) = true).
Proof.
  intros Hr Hk Hsound. set (k := column_kind c) in *.
  assert (Hns : k <> StorageKind.kString /\ k <> StorageKind.kBool) by (destruct Hk as [-> | [-> | ->]]; done).
  destruct Hns as [Hns Hnb].
  assert (Hencode : Builder.encode_column c k cs =
    (if is_constant cs && bool_decide (0 < row_count_ c)%nat
     then Constant <$> constantEncode (values_ c) k (row_count_ c) else Some (Raw (values_ c)))).
  { unfold Builder.encode_column. by destruct Hk as [-> | [-> | ->]]. }
  rewrite Hencode. destruct (is_constant cs && bool_decide (0 < row_count_ c)%nat) eqn:E.
  - apply andb_true_iff in E as [Hconst Hpos%bool_decide_eq_true].
    destruct (lookup_lt_is_Some_2 cells 0) as [x0 Hx0]; [rewrite <- (rp_rows _ _ Hr); lia|].
    destruct (constantEncode_slot c cells x0 Hr Hns Hx0) as (enc & He & Hvk & Hvb & Hvl). fold k in He, Hvk, Hvl.
    rewrite He. eexists. split; [done|]. intros chunk j i x (cc & Hcc & Hd & Hkc) Hi Hv.
    assert (Hu : forall i', k = StorageKind.kUint64 -> Chunk.readNumericAsUint64 chunk j i' = Some (le_val (slot x0))).
    { intros i' Ek. unfold Chunk.readNumericAsUint64. rewrite Hcc. cbn [mbind option_bind]. rewrite Hd.
      rewrite Ek in Hvk, Hvl. by eapply constant_uint. }
    exists x0. split; [|split; [by apply Hu|]].
    + unfold Chunk.readNumericAsDouble. rewrite Hcc. cbn [mbind option_bind]. rewrite Hd. by eapply constant_double.
    + destruct (decide (i = 0%nat)) as [->|Hne]; [left; congruence|].
      destruct (Hsound Hconst i x0 x Hx0 Hi Hv) as [-> |Heq]; [done|].
      right. split_and!; [done|by exists cc, enc|done|by apply Hu|done].
  - eexists. split; [done|]. intros chunk j i x (cc & Hcc & Hd & Hkc) Hi Hv.
    exists x. pose proof (raw_read c cells i x _ Hr Hns Hi eq_refl) as Hl. fold k in Hl.
    split_and!; [| |by left].
    + unfold Chunk.readNumericAsDouble. rewrite Hcc. cbn [mbind option_bind]. rewrite Hd, Hkc.
      destruct Hk as [Hk | [Hk | Hk]]; rewrite Hk in Hl |- *; cbn in Hl |- *; by rewrite Hl.
    + intros Ek. unfold Chunk.readNumericAsUint64. rewrite Hcc. cbn [mbind option_bind]. rewrite Hd, Hkc.
      rewrite Ek in Hl |- *. cbn in Hl |- *. rewrite Hl. cbn. f_equal. apply wrapU_small. unfold in_u.
      pose proof (load_range _ _ _ _ Hl). change (8 * Z.of_nat 8) with 64 in *. done.
Qed.

(** Bools are exact: the two doubles that stand for them do not compare equal. *)
Lemma encode_bool_ok c cells cs : repr c cells -> column_kind c = StorageKind.kBool ->
  const_sound cs StorageKind.kBool cells ->
  exists enc, Builder.encode_column c StorageKind.kBool cs = Some enc
    /\ forall chunk j i x, sealed_as chunk j enc StorageKind.kBool -> cells !! i = Some x -> valid x = true ->
       Chunk.readBool chunk j i = Some (negb (le_val (slot x) =? 0)).
Proof.
  intros Hr Hk Hsound. assert (Hns : column_kind c <> StorageKind.kString) by congruence.
  unfold Builder.encode_column.
  assert (Hlen : length (values_ c) = row_count_ c).
  { rewrite (rp_values _ _ Hr), (length_concat_blocks 1), length_map, (rp_rows _ _ Hr); [lia|].
    apply Forall_map. pose proof (rp_width _ _ Hr Hns) as Hw. by rewrite Hk in Hw. }
  destruct (is_constant cs && bool_decide (0 < row_count_ c)%nat) eqn:E.
  - apply andb_true_iff in E as [Hconst Hpos%bool_decide_eq_true].
    destruct (lookup_lt_is_Some_2 cells 0) as [x0 Hx0]; [rewrite <- (rp_rows _ _ Hr); lia|].
    destruct (constantEncode_slot c cells x0 Hr Hns Hx0) as (enc & He & Hvk & Hvb & Hvl). rewrite Hk in He, Hvl, Hvb.
    rewrite He. eexists. split; [done|]. intros chunk j i x (cc & Hcc & Hd & _) Hi Hv.
    unfold Chunk.readBool. rewrite Hcc. cbn [mbind option_bind]. rewrite Hd, Hvb.
    pose proof (load_exact (slot x0) (zero_bytes (8 - storageKindSize StorageKind.kBool))) as Hl.
    rewrite Hvl in Hl. cbn [storageKindSize] in Hl. cbn [storageKindSize]. rewrite Hl. cbn [mbind option_bind]. f_equal.
    destruct (Hsound Hconst i x0 x Hx0 Hi Hv) as [-> |Heq]; [congruence|].
    cbn [slot_double] in Heq. by destruct (le_val (slot x0) =? 0), (le_val (slot x) =? 0).
  - rewrite decide_True by lia. eexists. split; [done|]. intros chunk j i x (cc & Hcc & Hd & _) Hi Hv.
    unfold Chunk.readBool. rewrite Hcc. cbn [mbind option_bind]. rewrite Hd, <- Hlen, take_ge by done.
    pose proof (raw_read c cells i x 1 Hr Hns Hi ltac:(by rewrite Hk)) as Hl. rewrite Nat.mul_1_r in Hl.
    destruct (values_ c !! i) as [b|] eqn:Eb.
    + rewrite (packBools_ok _ _ _ Eb). rewrite (load1_byte _ _ _ Eb) in Hl. by injection Hl as ->.
    + apply lookup_ge_None in Eb. pose proof (lookup_lt_Some _ _ _ Hi).
      rewrite <- (rp_rows _ _ Hr) in *. lia.
Qed.

Lemma encode_string_ok c cells cs : repr c cells -> column_kind c = StorageKind.kString ->
  Z.of_nat (length cells) < 2 ^ 32 -> Z.of_nat (length (values_ c)) < 2 ^ 32 ->
  exists enc, Builder.encode_column c StorageKind.kString cs = Some enc
    /\ forall chunk j i x, sealed_as chunk j enc StorageKind.kString -> cells !! i = Some x ->
       Chunk.readString chunk j i = Some (slot x).
Proof.
  intros Hr Hk Hrows Hbytes. unfold Builder.encode_column.
  pose proof (rp_offsets _ _ Hr) as Ho. rewrite decide_True in Ho by done.
  rewrite (rp_values _ _ Hr) in *. rewrite (rp_rows _ _ Hr), Ho.
  assert (exists enc, dictionaryEncodeStrings (offsets_of cells) (concat (map slot cells)) (length cells) = Some enc
    /\ forall i x, cells !! i = Some x -> dictionaryLookup enc i = Some (slot x)) as (enc & -> & Hlk).
  { destruct cells as [|y cells]; [by eexists|].
    destruct (dictionary_ok (map slot (y :: cells))) as (enc & He & _ & _ & Hlk); [by rewrite length_map|done|].
    rewrite length_map in He. exists enc. split; [done|]. intros i x Hi. apply Hlk.
    by rewrite list_lookup_fmap, Hi. }
  eexists. split; [done|]. intros chunk j i x (cc & Hcc & Hd & _) Hi.
  unfold Chunk.readString. rewrite Hcc. cbn [mbind option_bind]. rewrite Hd. by apply Hlk.
Qed.

(** The encoding of a sealed column is one for its kind. *)
Definition column_fits (cc : ChunkColumn) : Prop :=
  let k := kind_of (col_descriptor cc) in
  match col_data cc with
  | Raw _ => k <> StorageKind.kBool /\ k <> StorageKind.kString
  | Constant enc => value_kind enc = k /\ k <> StorageKind.kString
  | FrameOfReference _ => is_integer k
  | Dictionary _ => k = StorageKind.kString
  | Packed _ => k = StorageKind.kBool
  end.

Lemma constantEncode_kind data kind count enc : constantEncode data kind count = Some enc -> value_kind enc = kind.
Proof. unfold constantEncode. intros. repeat case_decide; by simplify_eq. Qed.

Lemma seal_column_fits c d cs cc : Builder.seal_column c d cs = Some cc -> column_fits cc.
Proof.
  unfold Builder.seal_column. intros Hs. apply bind_Some in Hs as (enc & He & [= <-]). unfold column_fits. cbn.
  assert (Hconst : forall n, Constant <$> constantEncode (values_ c) (kind_of d) n = Some enc -> kind_of d <> StorageKind.kString ->
    match enc with Constant e => value_kind e = kind_of d /\ kind_of d <> StorageKind.kString | _ => False end).
  { intros n Hc Hk. apply fmap_Some in Hc as (e & Hc & ->). split; [by eapply constantEncode_kind|done]. }
  unfold Builder.encode_column, is_integer in *. destruct (kind_of d) eqn:Ek;
    try (destruct (_ && _); [specialize (Hconst _ He ltac:(done)); by destruct enc|]).
  - by injection He as <-.
  - by injection He as <-.
  - apply bind_Some in He as (s & _ & He). destruct (_ && _); [specialize (Hconst _ He ltac:(done)); by destruct enc|].
    repeat case_decide; simplify_eq; try done. apply fmap_Some in He as (e & _ & ->). by left.
  - apply bind_Some in He as (s & _ & He). destruct (_ && _); [specialize (Hconst _ He ltac:(done)); by destruct enc|].
    repeat case_decide; simplify_eq; try done. apply fmap_Some in He as (e & _ & ->). by right.
  - by injection He as <-.
  - case_decide; by simplify_eq.
  - by apply fmap_Some in He as (e & _ & ->).
Qed.

Lemma seal_columns_fit cols : forall ds css ccs, Builder.seal_columns cols ds css = Some ccs -> Forall column_fits ccs.
Proof.
  induction cols as [|c cols IH]; intros ds css ccs Hs; cbn in Hs; [by injection Hs as <-|].
  destruct ds as [|d ds], css as [|cs css]; try done. apply bind_Some in Hs as (cc & Hcc & Hs).
  apply bind_Some in Hs as (rest & Hrest & [= <-]). constructor; [by eapply seal_column_fits|by eapply IH].
Qed.

Lemma seal_fits b next chunk : Builder.seal b next = Some chunk -> Forall column_fits (columns chunk).
Proof. unfold Builder.seal. intros Hs. apply bind_Some in Hs as (cols & Hc & [= <-]). by eapply seal_columns_fit. Qed.

(** ** A sealed column against its cells *)

(** Two natural numbers that only a double cannot tell apart. *)
Definition conflated (n z : Z) : Prop := 2 ^ 53 <= n /\ 2 ^ 53 <= z /\ f64_of_Z n = f64_of_Z z.

(** The column is one constant, taken from a first row which is another row
    than [i] and was given the value [n]. *)
Definition first_row_repeated (chunk : TopicChunk) (j i : nat) (n : Z) : Prop :=
  constant_column chunk j /\ i <> 0%nat /\ Chunk.isNull chunk j 0 = Some false
  /\ Chunk.readNumericAsUint64 chunk j 0 = Some n.

(** What the accessors of [chunk] say about row [i] of column [j], for a row
    that was given the value [v].  A [uint64_t] is exact but for one case: in a
    column sealed as a constant, a value of [2^53] or more may read as the
    first row's, which rounds to the same double.  A float is exact but for
    the sign of a zero in a constant column. *)
Definition value_reads (chunk : TopicChunk) (j i : nat) (v : Value) : Prop :=
  match v with
  | VInt32 z | VInt64 z => Chunk.readNumericAsInt64 chunk j i = Some z
  | VBool b => Chunk.readBool chunk j i = Some b
  | VString s => Chunk.readString chunk j i = Some s
  | VUint64 z => exists n, Chunk.readNumericAsUint64 chunk j i = Some n
      /\ Chunk.readNumericAsDouble chunk j i = Some (f64_of_Z n)
      /\ (n = z \/ conflated n z /\ first_row_repeated chunk j i n)
  | VFloat32 _ | VFloat64 _ => exists d, Chunk.readNumericAsDouble chunk j i = Some d
      /\ (d = Builder.value_as_double v
          \/ constant_column chunk j /\ f64_is_zero d = true /\ f64_is_zero (Builder.value_as_double v) = true)
  end.

(** For a row that was given the value [v], or none. *)
Definition cell_reads (chunk : TopicChunk) (j i : nat) (v : option Value) : Prop :=
  Chunk.isNull chunk j i = Some (bool_decide (v = None)) /\
  match v with Some v => value_reads chunk j i v | None => True end.

Lemma conflate n z : 0 <= n -> 0 <= z -> f64_eq (f64_of_Z n) (f64_of_Z z) = true -> n = z \/ conflated n z.
Proof.
  intros Hn Hz Heq. destruct (f64_of_Z_inj n z Hn Hz Heq) as [->|[Hn' Hz']]; [by left|]. right. split_and!; [done..|].
  apply f64_eq_spec in Heq as [_ [Heq|[Hzero _]]]; [done|]. exfalso.
  destruct n as [|m|m]; [lia| |lia]. pose proof (f64_of_Z_big m Hn') as Hbig. by destruct (f64_of_Z (Zpos m)).
Qed.

(** The cell a row leaves in a column of kind [k]. *)
Definition cell_of (k : StorageKind.t) (v : option Value) : Cell :=
  match v with Some v => mkCell true (encode_value v) | None => null_cell k end.

Definition row_value_ok (k : StorageKind.t) (v : option Value) : Prop :=
  match v with Some v => kind_of_value v = k /\ value_ok v | None => True end.

Lemma seal_nulls chunk j cc c cells i x : repr c cells -> columns chunk !! j = Some cc ->
  validity_bitmap cc = (if ColumnBuffer.hasNulls c
    then Some (BitVector.assignBytes (bv_bytes (validity_ c)) (bit_count (validity_ c))) else None) ->
  cells !! i = Some x -> Chunk.isNull chunk j i = Some (negb (valid x)).
Proof.
  intros Hr Hcc Hbm Hi. unfold Chunk.isNull. rewrite Hcc. cbn [mbind option_bind]. rewrite Hbm.
  unfold ColumnBuffer.hasNulls. pose proof (rp_validity _ _ Hr) as Hv. pose proof (lookup_lt_Some _ _ _ Hi) as Hlt.
  rewrite (rp_nulls _ _ Hr). case_bool_decide as Hn.
  - destruct (validity_initialized_ c).
    + destruct Hv as (Hl & Hc & Hb). unfold BitVector.isEmpty, BitVector.assignBytes. cbn [bit_count].
      rewrite bool_decide_false by lia. rewrite BitVectorFacts.isValid_bit by (cbn [bv_bytes]; lia).
      cbn. by rewrite (Hb i x Hi).
    + rewrite (count_nulls_valid cells Hv) in Hn. lia.
  - assert (valid x = true) as ->; [|done]. destruct (valid x) eqn:Ev; [done|].
    exfalso. apply Hn. unfold count_nulls. pose proof (list_elem_of_lookup_2 _ _ _ Hi) as Hin.
    destruct (filter (fun x => valid x = false) cells) eqn:Ef; [|simpl; lia].
    assert (x ∈ filter (fun x => valid x = false) cells) as H by (by apply list_elem_of_filter).
    rewrite Ef in H. by apply not_elem_of_nil in H.
Qed.

Lemma slot_double_zero k : k <> StorageKind.kString ->
  slot_double k (le_bytes (storageKindSize k) 0) = f64_zero.
Proof. intros Hk. destruct k; try done; vm_compute; reflexivity. Qed.

(** The slot [encode_default_ok] reads, as the value of the row. *)
Lemma default_reads chunk j i k vs v y : is_default k -> Forall (row_value_ok k) vs ->
  kind_of_value v = k -> value_ok v ->
  (forall v0, vs !! 0%nat = Some v0 -> Chunk.isNull chunk j 0 = Some (bool_decide (v0 = None))) ->
  Chunk.readNumericAsDouble chunk j i = Some (slot_double k (slot y)) ->
  (k = StorageKind.kUint64 -> Chunk.readNumericAsUint64 chunk j i = Some (le_val (slot y))) ->
  (y = cell_of k (Some v) \/ i <> 0%nat /\ constant_column chunk j /\ map (cell_of k) vs !! 0%nat = Some y
     /\ (k = StorageKind.kUint64 -> Chunk.readNumericAsUint64 chunk j 0 = Some (le_val (slot y)))
     /\ f64_eq (slot_double k (slot y)) (slot_double k (slot (cell_of k (Some v)))) = true) ->
  value_reads chunk j i v.
Proof.
  intros Hk Hok <- Hv Hnull Hd Hu Hy. assert (Hns : kind_of_value v <> StorageKind.kString) by (destruct Hk as [-> |[-> | ->]]; done).
  pose proof (slot_double_value v Hv Hns) as Hsd.
  destruct Hy as [-> |(Hne & Hconst & Hy & Hu0 & Heq)]; cbn [cell_of slot] in *.
  { rewrite Hsd in Hd. destruct v as [x|x|x|x|x|x|x]; try (by destruct Hk as [Hk|[Hk|Hk]]); cbn [value_reads].
    1-2: eexists; split; [exact Hd|by left].
    exists x. specialize (Hu eq_refl). cbn [encode_value] in Hu. rewrite le_val_le_bytes in Hu.
    rewrite Z.mod_small in Hu by exact Hv. by split_and!; [| |left]. }
  rewrite Hsd in Heq. rewrite list_lookup_fmap in Hy. apply fmap_Some in Hy as (v0 & Hv0 & ->).
  specialize (Hnull v0 Hv0). pose proof (Forall_lookup_1 _ _ _ _ Hok Hv0) as Hok0.
  destruct v as [x|x|x|x|x|x|x]; try (by destruct Hk as [Hk|[Hk|Hk]]); cbn [value_reads kind_of_value] in *.
  1-2: eexists; split; [exact Hd|]; apply f64_eq_spec in Heq as [_ [Heq|[H1 H2]]]; [by left|by right].
  specialize (Hu eq_refl). specialize (Hu0 eq_refl). eexists. split_and!; [exact Hu|exact Hd|].
  cbn [slot_double Builder.value_as_double] in Heq. cbn in Hv.
  destruct v0 as [v0|]; cbn [cell_of slot null_cell row_value_ok] in *.
  - destruct Hok0 as [Hk0 Hv0']. destruct v0; try done. cbn [encode_value value_ok] in *.
    rewrite le_val_le_bytes, Z.mod_small in * by exact Hv0'.
    unfold in_u in *. destruct (conflate z x ltac:(lia) ltac:(lia) Heq) as [->|Hc]; [by left|]. by right.
  - left. cbn [storageKindSize] in *. rewrite le_val_le_bytes in *.
    rewrite Z.mod_small in * by (vm_compute; by split).
    unfold in_u in *. destruct (conflate 0 x ltac:(lia) ltac:(lia) Heq) as [->|(Hc & _)]; [done|lia].
Qed.

Lemma seal_column_ok c d cs (vs : list (option Value)) :
  repr c (map (cell_of (column_kind c)) vs) -> descriptor c = d ->
  (kind_of d <> StorageKind.kString -> const_sound cs (kind_of d) (map (cell_of (column_kind c)) vs)) ->
  Forall (row_value_ok (column_kind c)) vs ->
  Z.of_nat (length vs) < 2 ^ 32 ->
  (kind_of d = StorageKind.kString -> Z.of_nat (length (values_ c)) < 2 ^ 32) ->
  exists cc, Builder.seal_column c d cs = Some cc
    /\ forall chunk j i v, columns chunk !! j = Some cc -> vs !! i = Some v -> cell_reads chunk j i v.
Proof.
  intros Hr Hd Hsound Hok Hrows Hbytes. assert (Hk : column_kind c = kind_of d) by (unfold column_kind; by rewrite Hd).
  set (cells := map (cell_of (column_kind c)) vs) in *. rewrite Hk in *. unfold Builder.seal_column.
  assert (Hcell : forall i v, vs !! i = Some v -> cells !! i = Some (cell_of (kind_of d) v)).
  { intros i v Hi. unfold cells. rewrite list_lookup_fmap, Hi. cbn. by rewrite Hk. }
  assert (Hval : forall i v, vs !! i = Some (Some v) -> kind_of_value v = kind_of d /\ value_ok v).
  { intros i v Hi. by apply (Forall_lookup_1 _ _ _ _ Hok Hi). }
  assert (Hencode : exists enc, Builder.encode_column c (kind_of d) cs = Some enc /\
    forall chunk j i v, sealed_as chunk j enc (kind_of d) ->
      (forall v0, vs !! 0%nat = Some v0 -> Chunk.isNull chunk j 0 = Some (bool_decide (v0 = None))) ->
      vs !! i = Some (Some v) -> value_reads chunk j i v).
  { pose proof (encode_default_ok c cells cs Hr) as HD. pose proof (encode_integer_ok c cells cs Hr) as HI.
    pose proof (encode_bool_ok c cells cs Hr) as HB. pose proof (encode_string_ok c cells cs Hr) as HS.
    rewrite Hk in *. unfold is_integer in *.
    assert (Hlc : length cells = length vs) by (unfold cells; by rewrite length_map). rewrite Hlc in HS.
    assert (Hdef : is_default (kind_of d) -> kind_of d <> StorageKind.kString).
    { intros [-> |[-> | ->]]; done. }
    destruct (decide (is_default (kind_of d))) as [Hdk|Hdk].
    { destruct (HD Hdk (Hsound (Hdef Hdk))) as (enc & He & Hread). exists enc. split; [done|].
      intros chunk j i v Hs Hnull Hi. destruct (Hval i v Hi) as [Hkv Hov].
      destruct (Hread chunk j i _ Hs (Hcell i _ Hi) eq_refl) as (y & Hd1 & Hu & Hy).
      unfold cells in Hy. rewrite Hk in Hy. by eapply default_reads. }
    clear HD. unfold is_default in Hdk.
    destruct (kind_of d) eqn:Ekd; try (by destruct Hdk; auto);
      [edestruct HI as (enc & He & Hread)|edestruct HI as (enc & He & Hread)
      |edestruct HB as (enc & He & Hread)|edestruct HS as (enc & He & Hread)]; eauto; try (by apply Hsound);
      exists enc; (split; [done|]); intros chunk j i v Hs _ Hi;
      pose proof (Hcell i _ Hi) as Hc; destruct (Hval i v Hi) as [Hkv Hov];
      destruct v; try done; specialize (Hread chunk j i _ Hs Hc);
      cbn [cell_of slot valid value_reads] in Hread |- *; try specialize (Hread eq_refl);
      rewrite <- ?Hkv, ?slot_double_value in Hread by done; try done.
    - rewrite Hread. f_equal. by apply (slot_int_value (VInt32 z)); [|left].
    - rewrite Hread. f_equal. by apply (slot_int_value (VInt64 z)); [|right].
    - rewrite Hread. by destruct b. }
  destruct Hencode as (enc & -> & Hread). cbn [mbind option_bind]. eexists. split; [done|].
  intros chunk j i v Hcc Hi.
  assert (Hnull : forall i v, vs !! i = Some v -> Chunk.isNull chunk j i = Some (bool_decide (v = None))).
  { intros i' v' Hi'. rewrite (seal_nulls chunk j _ c cells i' _ Hr Hcc eq_refl (Hcell i' v' Hi')). by destruct v'. }
  split; [by apply Hnull|]. destruct v as [v|]; [|done]. apply (Hread chunk j i v); [by eexists|by apply Hnull|done].
Qed.

(** ** The builder against a table

    The specification of a builder is the table of the rows it was given: a
    timestamp and one optional value per column.  [col_state] says that one
    column of the builder holds the values [vs]; [built] says it of the whole
    builder between two rows. *)

Definition track (cs : ColumnStats) (k : StorageKind.t) (cells : list Cell) (last : double) : Prop :=
  const_sound cs k cells
  /\ (is_constant cs = true -> forall x0, cells !! 0%nat = Some x0 -> same_number (slot_double k (slot x0)) last)
  /\ (cells = [] -> last = f64_zero).

Inductive col_state (b : TopicChunkBuilder) (j : nat) (vs : list (option Value)) : Prop :=
| mkColState (c : TypedColumnBuffer) (cs : ColumnStats) (last : double) :
    columns_ b !! j = Some c ->
    column_stats (stats_ b) !! j = Some cs ->
    last_column_values_ b !! j = Some last ->
    column_descriptors_ b !! j = Some (descriptor c) ->
    repr c (map (cell_of (column_kind c)) vs) ->
    (column_kind c <> StorageKind.kString ->
     track cs (column_kind c) (map (cell_of (column_kind c)) vs) last) ->
    col_state b j vs.

Lemma track_set cs k cells last v : k <> StorageKind.kString -> kind_of_value v = k -> value_ok v ->
  track cs k cells last ->
  track (Builder.updateColumnStats cs (length cells) last (Builder.value_as_double v)) k
    (cells ++ [mkCell true (encode_value v)]) (Builder.value_as_double v).
Proof.
  intros Hk Hkv Hok (Hs & Hf & He). subst k.
  assert (Hd : slot_double (kind_of_value v) (encode_value v) = Builder.value_as_double v) by by apply slot_double_value.
  set (d := Builder.value_as_double v) in *. unfold Builder.updateColumnStats.
  destruct cells as [|y cells].
  - rewrite decide_True by done. split_and!; [|by intros _ x0 [= <-]; left|done].
    intros _ [|i] x0 x Hx0 Hi Hv; [by left|done].
  - cbn [length]. rewrite decide_False by lia. destruct (f64_eq d last) eqn:E; [|by split_and!].
    split_and!; [| |done].
    + intros Hc i x0 x Hx0 Hi Hv. cbn [is_constant] in Hc. injection Hx0 as <-.
      apply lookup_snoc_Some in Hi as [[_ Hi]|[-> <-]]; [by apply (Hs Hc i)|]. right. cbn [slot]. rewrite Hd.
      destruct (Hf Hc y eq_refl) as [-> | Hy]; [by rewrite f64_eq_sym|].
      eapply f64_eq_trans; [exact Hy|by rewrite f64_eq_sym].
    + intros Hc x0 Hx0. cbn [is_constant] in Hc. injection Hx0 as <-. right.
      destruct (Hf Hc y eq_refl) as [-> | Hy]; [by rewrite f64_eq_sym|].
      eapply f64_eq_trans; [exact Hy|by rewrite f64_eq_sym].
Qed.

Lemma track_null cs k cells last : k <> StorageKind.kString -> track cs k cells last ->
  track (Builder.bump_null cs) k (cells ++ [null_cell k]) last.
Proof.
  intros Hk (Hs & Hf & He). destruct cells as [|y cells].
  - split_and!; [|intros _ x0 [= <-]; left; cbn [slot null_cell]; rewrite slot_double_zero, He; done|done].
    intros _ [|i] x0 x Hx0 Hi Hv; [by left|done].
  - split_and!; [| |done].
    + intros Hc i x0 x Hx0 Hi Hv. injection Hx0 as <-.
      apply lookup_snoc_Some in Hi as [[_ Hi]|[-> <-]]; [by apply (Hs Hc i)|done].
    + intros Hc x0 Hx0. injection Hx0 as <-. by apply Hf.
Qed.

(** What the column operations leave alone. *)
Record same_frame (b b' : TopicChunkBuilder) : Prop := {
  sf_lengths : length (columns_ b') = length (columns_ b);
  sf_desc : column_descriptors_ b' = column_descriptors_ b;
  sf_times : timestamps_ b' = timestamps_ b;
  sf_t_min : t_min (stats_ b') = t_min (stats_ b);
  sf_t_max : t_max (stats_ b') = t_max (stats_ b);
  sf_rows : row_count (stats_ b') = row_count (stats_ b);
  sf_progress : row_in_progress_ b' = row_in_progress_ b;
  sf_current : current_timestamp_ b' = current_timestamp_ b;
  sf_last_ts : last_timestamp_ b' = last_timestamp_ b;
  sf_pending : bulk_pending_rows_ b' = bulk_pending_rows_ b
}.

#[export] Instance same_frame_preorder : PreOrder same_frame.
Proof.
  split; [by split|]. intros b1 b2 b3 [] []. split; congruence.
Qed.

(** The builder [b'] differs from [b] in column [j] only. *)
Record same_but (b b' : TopicChunkBuilder) (j : nat) : Prop := {
  sb_cols : forall i, i <> j -> columns_ b' !! i = columns_ b !! i;
  sb_stats : forall i, i <> j -> column_stats (stats_ b') !! i = column_stats (stats_ b) !! i;
  sb_last : forall i, i <> j -> last_column_values_ b' !! i = last_column_values_ b !! i;
  sb_frame : same_frame b b'
}.

Lemma col_state_other b b' j i vs : same_but b b' j -> i <> j -> col_state b i vs -> col_state b' i vs.
Proof.
  intros Hsb Hij [c cs last H1 H2 H3 H4 H5 H6].
  apply (mkColState b' i vs c cs last); try done.
  - by rewrite (sb_cols _ _ _ Hsb).
  - by rewrite (sb_stats _ _ _ Hsb).
  - by rewrite (sb_last _ _ _ Hsb).
  - by rewrite (sf_desc _ _ (sb_frame _ _ _ Hsb)).
Qed.

Local Ltac same_but_tac :=
  split; simpl; [intros; by rewrite ?list_lookup_insert_ne by done..|];
  split; simpl; by rewrite ?length_insert.

(** [set<T>] pushes the value on its column. *)
Lemma set_state b j vs v : row_in_progress_ b = true -> col_state b j vs ->
  (forall c, columns_ b !! j = Some c -> row_value_ok (column_kind c) (Some v)) ->
  (forall c, columns_ b !! j = Some c -> column_kind c = StorageKind.kString ->
     Z.of_nat (length (values_ c) + length (encode_value v)) < 2 ^ 32) ->
  exists b', Builder.set b j v = Some b' /\ col_state b' j (vs ++ [Some v]) /\ same_but b b' j.
Proof.
  intros Hp [c cs last Hc Hcs Hl Hd Hr Ht] Hok Hsz. destruct (Hok c Hc) as [Hk Hv]. specialize (Hsz c Hc).
  unfold Builder.set. rewrite Hp, Hc. cbn [mbind option_bind].
  destruct (append_repr c _ v Hr Hk) as (c' & -> & Hd' & Hr'). cbn [mbind option_bind]. rewrite Hcs.
  cbn [mbind option_bind].
  assert (Hkind : column_kind c' = column_kind c) by (unfold column_kind; by rewrite Hd').
  pose proof (rp_rows _ _ Hr') as Hrows. rewrite length_app, length_map in Hrows. cbn [length] in Hrows.
  assert (Hcells : map (cell_of (column_kind c)) vs ++ [mkCell true (encode_value v)]
                   = map (cell_of (column_kind c')) (vs ++ [Some v])) by (rewrite Hkind, map_app; done).
  pose proof (lookup_lt_Some _ _ _ Hc) as Hj1. pose proof (lookup_lt_Some _ _ _ Hcs) as Hj2.
  pose proof (lookup_lt_Some _ _ _ Hl) as Hj3. replace (row_count_ c' - 1)%nat with (length vs) by lia.
  destruct (decide (column_kind c = StorageKind.kString)) as [Hs|Hs].
  - specialize (Hsz Hs). destruct v; rewrite Hs in Hk; try discriminate Hk.
    assert (exists prev, (if decide (length vs = 0)%nat then Some []
      else ColumnBuffer.readString c' (length vs - 1)) = Some prev) as [prev Hprev].
    { case_decide as H0; [by eexists|].
      destruct (lookup_lt_is_Some_2 (map slot (map (cell_of (column_kind c)) vs ++ [mkCell true (encode_value (VString s))])) (length vs - 1)) as [x Hx].
      { rewrite length_map, length_app, length_map. simpl. lia. }
      exists x. unfold ColumnBuffer.readString. pose proof (rp_offsets _ _ Hr') as Ho.
      rewrite decide_True in Ho by (by rewrite Hkind). rewrite Ho.
      pose proof (rp_values _ _ Hr') as Hvv. pose proof (rp_values _ _ Hr) as Hvv0.
      assert (Hlen : Z.of_nat (length (values_ c')) < 2 ^ 32).
      { rewrite Hvv, map_app, concat_app, <- Hvv0, length_app. simpl. rewrite app_nil_r. done. }
      rewrite Hvv in *. unfold offsets_of.
      destruct (map (cell_of (column_kind c)) vs ++ [mkCell true (encode_value (VString s))]) eqn:El; [done|].
      by apply read_string_at_ok. }
    rewrite Hprev. cbn [mbind option_bind]. eexists. split; [done|]. split; [|same_but_tac].
    eapply (mkColState _ _ _ c' _ last); simpl; try done.
    + by rewrite list_lookup_insert_eq.
    + by rewrite list_lookup_insert_eq.
    + by rewrite Hd'.
    + by rewrite <- Hcells.
    + intros Hns. by rewrite Hkind in Hns.
  - exists (Builder.set_last_value (Builder.set_column_stats (Builder.set_column b j c') j
      (Builder.updateColumnStats cs (length vs) last (Builder.value_as_double v))) j (Builder.value_as_double v)).
    assert (Hl' : last_column_values_ (Builder.set_column b j c') !! j = Some last) by done.
    split; [destruct v; try (by destruct Hs; rewrite <- Hk); by rewrite Hl'|]. split; [|same_but_tac].
    eapply (mkColState _ _ _ c'); simpl.
    + by rewrite list_lookup_insert_eq.
    + by rewrite list_lookup_insert_eq.
    + by rewrite list_lookup_insert_eq.
    + by rewrite Hd'.
    + by rewrite <- Hcells.
    + intros _. rewrite <- Hcells, Hkind. rewrite <- (length_map (cell_of (column_kind c)) vs).
      by apply track_set; auto.
Qed.

(** A null pushes a missing value. *)
Lemma push_null_state b j vs : col_state b j vs ->
  exists b', Builder.push_null b j = Some b' /\ col_state b' j (vs ++ [None]) /\ same_but b b' j.
Proof.
  intros [c cs last Hc Hcs Hl Hd Hr Ht]. unfold Builder.push_null. rewrite Hc. cbn [mbind option_bind].
  destruct (appendNull_repr c _ Hr) as (c' & -> & Hd' & Hr'). cbn [mbind option_bind]. rewrite Hcs.
  cbn [mbind option_bind]. eexists. split; [done|]. split; [|same_but_tac].
  assert (Hkind : column_kind c' = column_kind c) by (unfold column_kind; by rewrite Hd').
  pose proof (lookup_lt_Some _ _ _ Hc) as Hj1. pose proof (lookup_lt_Some _ _ _ Hcs) as Hj2.
  assert (Hcells : map (cell_of (column_kind c)) vs ++ [null_cell (column_kind c)]
                   = map (cell_of (column_kind c')) (vs ++ [None])) by (rewrite Hkind, map_app; done).
  eapply (mkColState _ _ _ c' _ last); simpl; try done.
  - by rewrite list_lookup_insert_eq.
  - by rewrite list_lookup_insert_eq.
  - by rewrite Hd'.
  - by rewrite <- Hcells.
  - intros Hns. rewrite <- Hcells, Hkind. rewrite Hkind in Hns. by apply track_null; auto.
Qed.

(** *** A row *)

(** What a client does to a column within a row. *)
Inductive Assign := Skip | Null | Put (v : Value).

Definition assign (b : TopicChunkBuilder) (j : nat) (a : Assign) : option TopicChunkBuilder :=
  match a with Skip => Some b | Null => Builder.setNull b j | Put v => Builder.set b j v end.

Fixpoint assign_all (b : TopicChunkBuilder) (j : nat) (l : list Assign) : option TopicChunkBuilder :=
  match l with [] => Some b | a :: l' => b ← assign b j a; assign_all b (S j) l' end.

(** [beginRow(t)], one call per assigned column, [finishRow()]. *)
Definition append_row (b : TopicChunkBuilder) (t : Z) (l : list Assign) : option TopicChunkBuilder :=
  b ← Builder.beginRow b t;
  b ← assign_all b 0 l;
  Builder.finishRow b.

Definition pushed (a : Assign) : list (option Value) :=
  match a with Skip => [] | Null => [None] | Put v => [Some v] end.

Definition assigned (a : Assign) : option Value := match a with Put v => Some v | _ => None end.

Definition kind_at (b : TopicChunkBuilder) (j : nat) : StorageKind.t :=
  match column_descriptors_ b !! j with Some d => kind_of d | None => StorageKind.kFloat64 end.

Definition slots_size (k : StorageKind.t) (vs : list (option Value)) : Z :=
  Z.of_nat (length (concat (map slot (map (cell_of k) vs)))).

Lemma assign_state b j vs a : row_in_progress_ b = true -> col_state b j vs ->
  row_value_ok (kind_at b j) (assigned a) ->
  (kind_at b j = StorageKind.kString -> slots_size (kind_at b j) (vs ++ pushed a) < 2 ^ 32) ->
  exists b', assign b j a = Some b' /\ col_state b' j (vs ++ pushed a) /\ same_but b b' j.
Proof.
  intros Hp Hst Hok Hsz. assert (Hkind : forall c, columns_ b !! j = Some c -> column_kind c = kind_at b j).
  { destruct Hst as [c cs last Hc _ _ Hd _ _]. intros c' Hc'. unfold kind_at. rewrite Hd.
    by replace c' with c by congruence. }
  destruct a as [| |v]; cbn [assign pushed assigned] in *.
  - exists b. rewrite app_nil_r. split; [done|]. split; [done|]. by split.
  - unfold Builder.setNull. rewrite Hp. by apply push_null_state.
  - apply set_state; [done..| |].
    + intros c Hc. by rewrite (Hkind c Hc).
    + intros c Hc Hs. rewrite (Hkind c Hc) in Hs. specialize (Hsz Hs). unfold slots_size in Hsz.
      destruct Hst as [c0 cs last Hc0 _ _ _ Hr _]. replace c0 with c in * by congruence.
      rewrite (rp_values _ _ Hr), (Hkind c Hc). rewrite !map_app, concat_app, length_app in Hsz. simpl in Hsz.
      by rewrite app_nil_r in Hsz.
Qed.

(** The columns from [j] on receive the assignments, the others nothing. *)
Definition pushed_at (j : nat) (l : list Assign) (i : nat) : list (option Value) :=
  if decide (j <= i)%nat then match l !! (i - j)%nat with Some a => pushed a | None => [] end else [].

Lemma kind_at_frame b b' j : same_frame b b' -> kind_at b' j = kind_at b j.
Proof. intros H. unfold kind_at. by rewrite (sf_desc _ _ H). Qed.

Lemma assign_all_state l : forall b j (vss : nat -> list (option Value)) m,
  row_in_progress_ b = true -> (j + length l <= m)%nat -> (forall i, (i < m)%nat -> col_state b i (vss i)) ->
  (forall i a, l !! i = Some a -> row_value_ok (kind_at b (j + i)) (assigned a)) ->
  (forall i a, l !! i = Some a -> kind_at b (j + i) = StorageKind.kString ->
     slots_size (kind_at b (j + i)) (vss (j + i)%nat ++ pushed a) < 2 ^ 32) ->
  exists b', assign_all b j l = Some b' /\ same_frame b b'
    /\ forall i, (i < m)%nat -> col_state b' i (vss i ++ pushed_at j l i).
Proof.
  induction l as [|a l IH]; intros b j vss m Hp Hj Hcols Hok Hsz.
  - exists b. split; [done|]. split; [done|]. intros i Hi. unfold pushed_at. rewrite lookup_nil.
    case_decide; rewrite app_nil_r; by apply Hcols.
  - simpl in Hj. pose proof (Hok 0%nat a eq_refl) as Hok0. pose proof (Hsz 0%nat a eq_refl) as Hsz0.
    rewrite Nat.add_0_r in Hok0, Hsz0.
    destruct (assign_state b j (vss j) a Hp (Hcols j ltac:(lia)) Hok0 Hsz0) as (b1 & Ha & Hst & Hsb).
    cbn [assign_all]. rewrite Ha. cbn [mbind option_bind].
    pose proof (sb_frame _ _ _ Hsb) as Hf.
    destruct (IH b1 (S j) (fun i => if decide (i = j) then vss j ++ pushed a else vss i) m)
      as (b' & Hb' & Hf' & Hcols').
    + by rewrite (sf_progress _ _ Hf).
    + lia.
    + intros i Hi. case_decide; [by subst|]. by eapply col_state_other; eauto.
    + intros i x Hx. rewrite (kind_at_frame b b1) by done. rewrite Nat.add_succ_comm. by apply (Hok (S i)).
    + intros i x Hx. rewrite (kind_at_frame b b1) by done. rewrite decide_False by lia.
      rewrite Nat.add_succ_comm. by apply (Hsz (S i)).
    + exists b'. split; [done|]. split; [by transitivity b1|]. intros i Hi. specialize (Hcols' i Hi).
      unfold pushed_at in *. destruct (decide (i = j)) as [->|Hne].
      * rewrite decide_False in Hcols' by lia. rewrite app_nil_r in Hcols'. rewrite decide_True by lia.
        by rewrite Nat.sub_diag.
      * destruct (decide (S j <= i)%nat).
        -- rewrite decide_True by lia. replace (i - j)%nat with (S (i - S j)) by lia. done.
        -- by rewrite decide_False by lia.
Qed.

(** [finishRow] completes the columns that were not set. *)
Definition padded (expected : nat) (vs : list (option Value)) : list (option Value) :=
  if decide (length vs < expected)%nat then vs ++ [None] else vs.

Lemma fill_loop_state n : forall b i (vss : nat -> list (option Value)) m expected,
  (i + n = m)%nat -> (forall j, (j < m)%nat -> col_state b j (vss j)) ->
  exists b', Builder.fill_loop n i (Z.of_nat expected) b = Some b' /\ same_frame b b'
    /\ forall j, (j < m)%nat ->
        col_state b' j (if decide (i <= j)%nat then padded expected (vss j) else vss j).
Proof.
  induction n as [|n IH]; intros b i vss m expected Hn Hcols.
  - exists b. split; [done|]. split; [done|]. intros j Hj. rewrite decide_False by lia. auto.
  - cbn [Builder.fill_loop]. pose proof (Hcols i ltac:(lia)) as Hi.
    assert (exists c, columns_ b !! i = Some c /\ row_count_ c = length (vss i)) as (c & Hc & Hrc).
    { destruct Hi as [c cs last Hc _ _ _ Hr _]. exists c. split; [done|].
      by rewrite (rp_rows _ _ Hr), length_map. }
    rewrite Hc. cbn [mbind option_bind]. rewrite Hrc.
    assert (exists b1, (if Z.of_nat (length (vss i)) <? Z.of_nat expected then Builder.push_null b i else Some b) = Some b1
      /\ col_state b1 i (padded expected (vss i)) /\ same_but b b1 i) as (b1 & -> & Hst & Hsb).
    { unfold padded. destruct (Z.ltb_spec (Z.of_nat (length (vss i))) (Z.of_nat expected)).
      - rewrite decide_True by lia. by apply push_null_state.
      - rewrite decide_False by lia. exists b. split; [done|]. split; [done|]. by split. }
    cbn [mbind option_bind].
    destruct (IH b1 (S i) (fun j => if decide (j = i) then padded expected (vss i) else vss j) m expected)
      as (b' & Hb' & Hf' & Hcols'); [lia| |].
    + intros j Hj. case_decide; [by subst|]. by eapply col_state_other; eauto.
    + exists b'. split; [done|]. split; [transitivity b1; [by apply (sb_frame _ _ _ Hsb)|done]|].
      intros j Hj. specialize (Hcols' j Hj). destruct (decide (j = i)) as [->|Hne].
      * rewrite decide_False in Hcols' by lia. by rewrite decide_True by lia.
      * destruct (decide (S i <= j)%nat); [by rewrite decide_True by lia|by rewrite decide_False by lia].
Qed.

(** *** The table *)

Abbreviation Row := (Z * list Assign)%type.

(** The value a row holds in column [j]. *)
Definition row_value (row : Row) (j : nat) : option Value := assigned (nth j row.2 Skip).
Definition col_values (rows : list Row) (j : nat) : list (option Value) := map (fun r => row_value r j) rows.

(** A row that the columns [ds] can take: not too many values, each of the
    kind of its column. *)
Definition row_ok (ds : list ColumnDescriptor) (row : Row) : Prop :=
  (length row.2 <= length ds)%nat
  /\ forall j d, ds !! j = Some d -> row_value_ok (kind_of d) (row_value row j).

(** The strings of a column fit a [uint32_t] offset. *)
Definition strings_fit (ds : list ColumnDescriptor) (rows : list Row) : Prop :=
  forall j d, ds !! j = Some d -> kind_of d = StorageKind.kString ->
    slots_size (kind_of d) (col_values rows j) < 2 ^ 32.

Definition last_time (times : list Z) : Z := default INT64_MIN (last times).

Record built (b : TopicChunkBuilder) (ds : list ColumnDescriptor) (rows : list Row) : Prop := {
  bl_desc : column_descriptors_ b = ds;
  bl_length : length (columns_ b) = length ds;
  bl_cols : forall j, (j < length ds)%nat -> col_state b j (col_values rows j);
  bl_times : timestamps_ b = map fst rows;
  bl_idle : row_in_progress_ b = false;
  bl_rows : row_count (stats_ b) = Z.of_nat (length rows);
  bl_t_max : t_max (stats_ b) = last_time (map fst rows);
  bl_t_min : t_min (stats_ b) = default INT64_MAX (head (map fst rows));
  bl_last : last_timestamp_ b = last_time (map fst rows);
  bl_sorted : sorted (map fst rows)
}.

Lemma make_built topic schema ds max_rows : built (Builder.make topic schema ds max_rows) ds [].
Proof.
  split; cbn; try done; [by rewrite length_map| |constructor].
  intros j Hj. destruct (lookup_lt_is_Some_2 ds j Hj) as [d Hd].
  apply (mkColState _ _ _ (ColumnBuffer.make d) ColumnStats_init f64_zero); cbn.
  - by rewrite list_lookup_fmap, Hd.
  - by apply lookup_replicate_2.
  - by apply lookup_replicate_2.
  - done.
  - apply make_repr.
  - intros _. split_and!; [by intros _ i x0 x|by intros _ x0|done].
Qed.

Lemma pushed_padded vs l j (k : nat) : length vs = k ->
  padded (S k) (vs ++ pushed_at 0 l j) = vs ++ [assigned (nth j l Skip)].
Proof.
  intros Hk. unfold padded, pushed_at. rewrite (decide_True (P := (0 <= j)%nat)), Nat.sub_0_r by lia.
  destruct (l !! j) as [a|] eqn:E.
  - rewrite (nth_lookup_Some _ _ _ _ E). destruct a; cbn [pushed assigned]; rewrite length_app; cbn [length].
    + by rewrite decide_True, app_nil_r by lia.
    + by rewrite decide_False by lia.
    + by rewrite decide_False by lia.
  - rewrite nth_overflow by (by apply lookup_ge_None). rewrite app_nil_r, decide_True by lia. done.
Qed.

Lemma slots_size_app k xs ys : slots_size k (xs ++ ys) = slots_size k xs + slots_size k ys.
Proof. unfold slots_size. rewrite !map_app, concat_app, length_app. lia. Qed.

Lemma pushed_size k a : slots_size k (pushed a) <= slots_size k [assigned a].
Proof. destruct a; unfold slots_size; simpl; lia. Qed.

Lemma last_snoc_time rows (row : Row) : last_time (map fst (rows ++ [row])) = row.1.
Proof. unfold last_time. rewrite map_app. cbn [map]. by rewrite last_snoc. Qed.

Lemma sorted_last_ge l t x : sorted l -> x ∈ l -> last_time l <= t -> x <= t.
Proof.
  intros Hs [i Hi]%list_elem_of_lookup Ht. pose proof (lookup_lt_Some _ _ _ Hi).
  unfold last_time in Ht. rewrite last_lookup in Ht.
  destruct (lookup_lt_is_Some_2 l (pred (length l)) ltac:(lia)) as [y Hy]. rewrite Hy in Ht. simpl in Ht.
  pose proof (sorted_lookup l i (pred (length l)) x y Hs ltac:(lia) Hi Hy). lia.
Qed.

(** [finishRow] ends a row whose assigned columns have got their value. *)
Lemma finish_row_built b ds rows t l b2 :
  built b ds rows -> last_time (map fst rows) <= t -> in_s 64 t -> Z.of_nat (length rows) + 1 < 2 ^ 32 ->
  same_frame (Builder.with_row b true t t) b2 ->
  (forall j, (j < length ds)%nat -> col_state b2 j (col_values rows j ++ pushed_at 0 l j)) ->
  exists b', Builder.finishRow b2 = Some b' /\ built b' ds (rows ++ [(t, l)]).
Proof.
  intros [Hd Hlen Hcols Htimes Hidle Hrows Htmax Htmin Hlast Hsorted] Ht Hr64 Hn Hf2 Hc2.
  set (b1 := Builder.with_row b true t t) in *. unfold Builder.finishRow, Builder.rowCount.
  rewrite (sf_progress _ _ Hf2), (sf_rows _ _ Hf2). cbn [b1 Builder.with_row row_in_progress_ stats_].
  rewrite Hrows, wrapU_small by (unfold in_u; lia).
  replace (Z.of_nat (length rows) + 1) with (Z.of_nat (S (length rows))) by lia.
  pose proof (sf_lengths _ _ Hf2) as Hl2. cbn [b1 Builder.with_row columns_] in Hl2. rewrite Hl2, Hlen.
  destruct (fill_loop_state (length ds) b2 0 _ (length ds) (S (length rows)) eq_refl Hc2)
    as (b3 & -> & Hf3 & Hc3).
  cbn [mbind option_bind]. eexists. split; [done|].
  assert (Hf : same_frame b1 b3) by (by transitivity b2). destruct Hf as [].
  cbn [b1 Builder.with_row columns_ column_descriptors_ timestamps_ stats_ last_timestamp_ current_timestamp_] in *.
  split; cbn.
  - congruence.
  - congruence.
  - intros j Hj. specialize (Hc3 j Hj). rewrite decide_True in Hc3 by lia.
    rewrite pushed_padded in Hc3 by (unfold col_values; by rewrite length_map).
    unfold col_values in *. rewrite map_app. by destruct Hc3; econstructor.
  - rewrite map_app. cbn. congruence.
  - done.
  - rewrite sf_rows0, Hrows, wrapU_small by (unfold in_u; lia). rewrite length_app. simpl. lia.
  - rewrite last_snoc_time, sf_t_max0, Htmax, sf_current0. by apply Z.max_r.
  - rewrite sf_t_min0, Htmin, sf_current0. rewrite map_app. destruct rows as [|r rows]; cbn.
    + unfold INT64_MAX, in_s in *. lia.
    + enough (r.1 <= t) by lia. eapply (sorted_last_ge (map fst (r :: rows))); [done|by left|done].
  - by rewrite last_snoc_time, sf_last_ts0.
  - rewrite map_app. cbn [map]. apply sorted_snoc; [done|]. intros y Hy. unfold last_time in Ht. by rewrite Hy in Ht.
Qed.

(** The row that has just begun has taken no value. *)
Lemma begin_row_built b ds rows t : built b ds rows -> last_time (map fst rows) <= t ->
  Builder.beginRow b t = Some (Builder.with_row b true t t)
  /\ (forall j, (j < length ds)%nat -> col_state (Builder.with_row b true t t) j (col_values rows j))
  /\ (forall j d, ds !! j = Some d -> kind_at (Builder.with_row b true t t) j = kind_of d).
Proof.
  intros [Hd Hlen Hcols Htimes Hidle Hrows Htmax Htmin Hlast Hsorted] Ht.
  unfold Builder.beginRow. rewrite Hidle, Hlast, (proj2 (Z.ltb_ge _ _)) by done. split_and!; [done| |].
  - intros j Hj. by destruct (Hcols j Hj); econstructor.
  - intros j d Hj. unfold kind_at. simpl. by rewrite Hd, Hj.
Qed.

(** One row, written through the builder, is one row of the table. *)
Lemma append_row_built b ds rows t l :
  built b ds rows -> row_ok ds (t, l) -> last_time (map fst rows) <= t -> in_s 64 t ->
  Z.of_nat (length rows) + 1 < 2 ^ 32 -> strings_fit ds (rows ++ [(t, l)]) ->
  exists b', append_row b t l = Some b' /\ built b' ds (rows ++ [(t, l)]).
Proof.
  intros Hb [Hl Hok] Ht Hr64 Hn Hfit. destruct (begin_row_built b ds rows t Hb Ht) as (Hbegin & Hcols & Hkind).
  unfold append_row. rewrite Hbegin. cbn [mbind option_bind]. set (b1 := Builder.with_row b true t t) in *.
  assert (Hds : forall i a, l !! i = Some a -> exists d, ds !! i = Some d).
  { intros i a Hi%lookup_lt_Some. apply lookup_lt_is_Some_2. simpl in Hl. lia. }
  destruct (assign_all_state l b1 0 (col_values rows) (length ds)) as (b2 & -> & Hf2 & Hc2); [done|done|done| | |].
  { intros i a Hi. destruct (Hds i a Hi) as [d Hdi]. cbn [plus]. rewrite (Hkind i d Hdi).
    specialize (Hok i d Hdi). unfold row_value in Hok. simpl in Hok. by rewrite (nth_lookup_Some _ _ _ _ Hi) in Hok. }
  { intros i a Hi. destruct (Hds i a Hi) as [d Hdi]. cbn [plus]. rewrite (Hkind i d Hdi). intros Hs.
    specialize (Hfit i d Hdi Hs). unfold col_values in Hfit. rewrite map_app, slots_size_app in Hfit. cbn [map] in Hfit.
    unfold row_value in Hfit at 2. simpl in Hfit. rewrite (nth_lookup_Some _ _ _ _ Hi) in Hfit.
    pose proof (pushed_size (kind_of d) a). rewrite slots_size_app. unfold col_values. lia. }
  cbn [mbind option_bind]. by apply (finish_row_built b).
Qed.

(** ** From rows to a sealed chunk *)

Lemma seal_columns_ok (P : nat -> ChunkColumn -> Prop) cols : forall ds css j0,
  (forall j c, cols !! j = Some c -> exists d cs cc, ds !! j = Some d /\ css !! j = Some cs
     /\ Builder.seal_column c d cs = Some cc /\ P (j0 + j)%nat cc) ->
  exists ccs, Builder.seal_columns cols ds css = Some ccs /\ length ccs = length cols
    /\ forall j cc, ccs !! j = Some cc -> P (j0 + j)%nat cc.
Proof.
  induction cols as [|c cols IH]; intros ds css j0 H; [by exists []|].
  destruct (H 0%nat c eq_refl) as (d & cs & cc & Hd & Hcs & Hcc & HP).
  destruct ds as [|d' ds], css as [|cs' css]; simplify_eq/=.
  rewrite Hcc. cbn [mbind option_bind].
  destruct (IH ds css (S j0)) as (ccs & -> & Hl & HPs).
  { intros j c' Hj. destruct (H (S j) c' Hj) as (d' & cs' & cc' & ? & ? & ? & ?).
    exists d', cs', cc'. split_and!; try done. by rewrite Nat.add_succ_comm. }
  exists (cc :: ccs). split; [done|]. split; [by rewrite <- Hl|]. intros [|j] cc' Hj; simplify_eq/=; [done|].
  rewrite <- Nat.add_succ_comm. by apply HPs.
Qed.

Definition append_rows (b : TopicChunkBuilder) (rows : list Row) : option TopicChunkBuilder :=
  fold_left (fun ob row => b ← ob; append_row b row.1 row.2) rows (Some b).

(** Everything a table must respect for the builder to hold it. *)
Record table_ok (ds : list ColumnDescriptor) (rows : list Row) : Prop := {
  tb_rows : Forall (row_ok ds) rows;
  tb_sorted : sorted (map fst rows);
  tb_range : Forall (fun row => in_s 64 row.1) rows;
  tb_count : Z.of_nat (length rows) < 2 ^ 32;
  tb_strings : strings_fit ds rows
}.

Lemma strings_fit_prefix ds rows more : strings_fit ds (rows ++ more) -> strings_fit ds rows.
Proof.
  intros H j d Hd Hs. specialize (H j d Hd Hs). unfold col_values in *. rewrite map_app, slots_size_app in H.
  unfold slots_size in *. lia.
Qed.

Lemma table_ok_prefix ds rows more : table_ok ds (rows ++ more) -> table_ok ds rows.
Proof.
  intros [H1 H2 H3 H4 H5]. apply Forall_app in H1 as [H1 _]. apply Forall_app in H3 as [H3 _].
  rewrite map_app in H2. apply sorted_app_iff in H2 as (H2 & _ & _). rewrite length_app in H4.
  split; try done; [lia|by eapply strings_fit_prefix].
Qed.

Lemma sorted_last_le l x : sorted (l ++ [x]) -> in_s 64 x -> last_time l <= x.
Proof.
  intros Hs Hx. unfold last_time. destruct (last l) as [y|] eqn:E; simpl; [|unfold INT64_MIN, in_s in *; lia].
  apply last_Some in E as [l' ->]. apply sorted_app_iff in Hs as (_ & _ & H). apply H; [|by left].
  apply elem_of_app. right. by left.
Qed.

Lemma append_rows_built topic schema ds max_rows rows : table_ok ds rows ->
  exists b, append_rows (Builder.make topic schema ds max_rows) rows = Some b /\ built b ds rows.
Proof.
  induction rows as [|[t l] rows IH] using rev_ind; intros Hok.
  - eexists. split; [done|]. apply make_built.
  - destruct (IH (table_ok_prefix _ _ _ Hok)) as (b & Hb & Hbuilt). unfold append_rows in *.
    rewrite fold_left_app, Hb. cbn [fold_left mbind option_bind fst snd].
    destruct Hok as [H1 H2 H3 H4 H5]. apply Forall_app in H1 as [_ H1]. apply Forall_app in H3 as [_ H3].
    rewrite Forall_singleton in H1, H3. rewrite length_app in H4. simpl in H4. rewrite map_app in H2.
    apply append_row_built; try done; [by apply sorted_last_le|lia].
Qed.

Lemma seal_built b ds rows next : built b ds rows -> table_ok ds rows ->
  exists chunk, Builder.seal b next = Some chunk /\ id chunk = next
    /\ timestamps chunk = map fst rows /\ stats chunk = stats_ b
    /\ length (columns chunk) = length ds
    /\ forall i row j, rows !! i = Some row -> (j < length ds)%nat -> cell_reads chunk j i (row_value row j).
Proof.
  intros [Hd Hlen Hcols Htimes _ _ _ _ _ _] [Hrows _ _ Hcount Hfit]. unfold Builder.seal.
  destruct (seal_columns_ok (fun j cc => forall chunk j' i v, columns chunk !! j' = Some cc ->
    col_values rows j !! i = Some v -> cell_reads chunk j' i v)
    (columns_ b) (column_descriptors_ b) (column_stats (stats_ b)) 0) as (ccs & -> & Hl & HP).
  - intros j c Hc. pose proof (lookup_lt_Some _ _ _ Hc) as Hj. rewrite Hlen in Hj.
    destruct (Hcols j Hj) as [c' cs last Hc' Hcs _ Hdj Hr Ht]. replace c' with c in * by congruence.
    exists (descriptor c), cs.
    destruct (seal_column_ok c (descriptor c) cs (col_values rows j) Hr eq_refl) as (cc & Hcc & Hread); eauto.
    + intros Hns. by apply Ht.
    + apply Forall_lookup. intros i v Hi. unfold col_values in Hi. rewrite list_lookup_fmap in Hi.
      destruct (rows !! i) as [row|] eqn:Ei; [|done]. injection Hi as <-. rewrite Hd in Hdj.
      by apply (proj2 (Forall_lookup_1 _ _ _ _ Hrows Ei)).
    + unfold col_values. rewrite length_map. lia.
    + intros Hs. rewrite Hd in Hdj. specialize (Hfit j _ Hdj Hs). unfold slots_size in Hfit.
      by rewrite (rp_values _ _ Hr).
  - cbn [mbind option_bind]. eexists. split; [done|]. cbn. split_and!; try done; [congruence|].
    intros i row j Hi Hj. destruct (lookup_lt_is_Some_2 ccs j) as [cc Hcc]; [congruence|].
    apply (HP j cc Hcc _ j i); [done|]. unfold col_values. by rewrite list_lookup_fmap, Hi.
Qed.

(** ** A small table, for the witnesses *)

Definition demo_columns : list ColumnDescriptor :=
  [mkColumnDescriptor 0 kFloat64 "x"; mkColumnDescriptor 1 kInt32 "n"; mkColumnDescriptor 2 kString "s";
   mkColumnDescriptor 3 kBool "b"].
Definition demo_rows : list Row :=
  [(10, [Put (VFloat64 (bits_of_f64 (f64_of_Z 3))); Put (VInt32 (-5)); Put (VString [z2b 104; z2b 105]); Put (VBool true)]);
   (20, [Null; Put (VInt32 7)]);
   (20, [Put (VFloat64 (bits_of_f64 (f64_of_Z (-4)))); Null; Put (VString []); Put (VBool false)])].
Lemma demo_table_ok : table_ok demo_columns demo_rows.
Proof.
  split.
  - repeat constructor; try (cbn; lia); intros [|[|[|[|j]]]] d Hd; simplify_eq/=; try done; cbn; try (split; [done|vm_compute; intuition congruence]).
  - repeat constructor; cbn; lia.
  - repeat constructor; vm_compute; intuition congruence.
  - done.
  - intros [|[|[|[|j]]]] d Hd; simplify_eq/=; try done.
Qed.
Definition demo_chunk (rows : list Row) : TopicChunk :=
  match (b ← append_rows (Builder.make 1 1 demo_columns 1024) rows; Builder.seal b 1) with
  | Some c => c
  | None => mkChunk 0 0 0 (mkChunkStats 0 0 0 []) [] []
  end.

(** ** Properties *)

(** C1: Rows written one by one (with nulls and unset columns) and sealed read back, if every value
    has the kind of its column, the times are in order, and there are less than [2^32] rows and, in a
    column, bytes of text: the chunk has the timestamps of the rows, its statistics are their number
    and their first and last timestamp, and every cell of every column reads as the value that was
    set, whatever encoding [seal] chose, or as null.  Two exceptions are stated by [value_reads]: in
    a column that is sealed as a constant, a [uint64_t] of [2^53] or more may read as the value of
    the first row, which rounds to the same double ([uint64_constant_loses_data]), and a zero may
    change its sign. *)
Theorem chunk_faithful topic schema ds max_rows rows next :
  table_ok ds rows ->
  exists b chunk, append_rows (Builder.make topic schema ds max_rows) rows = Some b
    /\ Builder.seal b next = Some chunk
    /\ timestamps chunk = map fst rows
    /\ row_count (stats chunk) = Z.of_nat (length rows)
    /\ t_min (stats chunk) = default INT64_MAX (head (map fst rows))
    /\ t_max (stats chunk) = default INT64_MIN (last (map fst rows))
    /\ forall i row j, rows !! i = Some row -> (j < length ds)%nat -> cell_reads chunk j i (row_value row j).
Proof.
  intros Hok. destruct (append_rows_built topic schema ds max_rows rows Hok) as (b & Hb & Hbuilt).
  destruct (seal_built b ds rows next Hbuilt Hok) as (chunk & Hs & _ & Ht & Hst & _ & Hread).
  exists b, chunk. rewrite Hst. destruct Hbuilt. by split_and!.
Qed.

Lemma chunk_faithful_witness : exists b chunk,
  append_rows (Builder.make 1 1 demo_columns 1024) demo_rows = Some b /\ Builder.seal b 7 = Some chunk
  /\ timestamps chunk = [10; 20; 20].
Proof.
  destruct (chunk_faithful 1 1 demo_columns 1024 demo_rows 7 demo_table_ok) as (b & chunk & H1 & H2 & H3 & _).
  exists b, chunk. split; [exact H1|]. split; [exact H2|]. exact H3.
Defined.

(** Two distinct [uint64_t] values that round to the same double. *)
Example uint64_constant_loses_data :
  (b ← append_rows (Builder.make 1 1 [mkColumnDescriptor 0 kUint64 "u"] 10)
         [(1, [Put (VUint64 (2 ^ 53))]); (2, [Put (VUint64 (2 ^ 53 + 1))])];
   chunk ← Builder.seal b 1;
   Chunk.readNumericAsUint64 chunk 0 1) = Some (2 ^ 53).
Proof. vm_compute. reflexivity. Qed.

(** A bulk column [null, 5.0] is sealed as the constant of its null slot. *)
Example bulk_null_first_loses_data :
  (b ← Builder.appendTimestamps (Builder.make 1 1 [mkColumnDescriptor 0 kFloat64 "f"] 10) [1; 2];
   b ← Builder.appendColumn b 0 (Builder.BFloat64 [0; bits_of_f64 (f64_of_Z 5)]);
   b ← Builder.appendColumnValidity b 0 (mkBitSpan [z2b 2] 0 2);
   b ← Builder.finishBulkAppend b;
   chunk ← Builder.seal b 1;
   d ← Chunk.readNumericAsDouble chunk 0 1; n ← Chunk.isNull chunk 0 1; Some (d, n))
  = Some (f64_zero, false).
Proof. vm_compute. reflexivity. Qed.
