(* ===== verification/Query.v ===== *)
(** * Query: reading committed chunks by time

    Models [src/pj_datastore/src/query.cpp].  A [std::deque<TopicChunk>] is a
    list of chunks and a pointer to a chunk of it is its index.  A callback is
    modelled by the list of the samples it is called with, in order.  A cursor
    is the pair of indices it keeps; its loops run on fuel, and the theorems
    show that the rows of the deque are always enough.

    The specification is the flat list of the rows of all chunks. *)

From S2P Require Import Prelude Float64 Types Buffer Encoding Column Chunk.

Record Range (A : Type) := mkRange { range_min : A; range_max : A }.
Arguments mkRange {A}. Arguments range_min {A}. Arguments range_max {A}.

Definition normalized (range : Range Z) : Range Z :=
  if range_max range <? range_min range then mkRange (range_max range) (range_min range) else range.

Record SampleRow := mkSampleRow { sr_timestamp : Z; sr_chunk : nat; sr_row : nat }.
Record ChunkRowRange := mkChunkRowRange { cr_chunk : nat; row_start : nat; row_end : nat }.
Record SeriesSample := mkSeriesSample { ss_timestamp : Z; ss_value : double; ss_chunk : nat; ss_row : nat }.
Record SeriesBounds := mkSeriesBounds { sb_time : Range Z; sb_value : Range double; sample_count : nat }.

Definition rows (c : TopicChunk) : nat := Z.to_nat (row_count (stats c)).

Definition isBoolColumn (chunk : TopicChunk) (column_index : nat) : bool :=
  match columns chunk !! column_index with
  | Some col => bool_decide (logical_type (col_descriptor col) = kBool)
  | None => false
  end.

(** The outer option is a read out of bounds, the inner one [std::nullopt]. *)
Definition readSeriesValue (chunk : TopicChunk) (column_index row : nat) : option (option double) :=
  if decide (length (columns chunk) <= column_index)%nat then Some None
  else if decide (rows chunk <= row)%nat then Some None
  else
    null ← Chunk.isNull chunk column_index row;
    if (null : bool) then Some None
    else if isBoolColumn chunk column_index then
      v ← Chunk.readBool chunk column_index row; Some (Some (if (v : bool) then f64_one else f64_zero))
    else v ← Chunk.readNumericAsDouble chunk column_index row; Some (Some v).

(** ** RangeCursor *)

Module RangeCursor.

Record t := mk { chunk_index : nat; row_index : nat }.

Section Cursor.
Context (chunks : list TopicChunk) (t_min_ t_max_ : Z).

Definition exhausted : t := mk (length chunks) 0.

Definition valid (c : t) : bool := bool_decide (chunk_index c < length chunks)%nat.

Definition findFirstValid : t :=
  let k := bsearch (fun chunk => t_max (stats chunk) <? t_min_) chunks in
  match chunks !! k with
  | None => exhausted
  | Some chunk =>
      let ts := take (rows chunk) (timestamps chunk) in
      let r := lower_bound ts t_min_ in
      match ts !! r with
      | None => exhausted
      | Some x => if t_max_ <? x then exhausted else mk k r
      end
  end.

Definition current (c : t) : option SampleRow :=
  chunk ← chunks !! chunk_index c;
  ts ← Chunk.readTimestamp chunk (row_index c);
  Some (mkSampleRow ts (chunk_index c) (row_index c)).

Definition skipToValid (c : t) : option t :=
  if valid c then
    chunk ← chunks !! chunk_index c;
    ts ← Chunk.readTimestamp chunk (row_index c);
    Some (if t_max_ <? ts then mk (length chunks) (row_index c) else c)
  else Some c.

Definition advance (c : t) : option t :=
  chunk ← chunks !! chunk_index c;
  let row := S (row_index c) in
  let c := if decide (rows chunk <= row)%nat then mk (S (chunk_index c)) 0 else mk (chunk_index c) row in
  skipToValid c.

Fixpoint forEach_loop (fuel : nat) (c : t) (called : list SampleRow) : option (list SampleRow) :=
  if valid c then
    match fuel with
    | O => None
    | S fuel' => s ← current c; c' ← advance c; forEach_loop fuel' c' (called ++ [s])
    end
  else Some called.

(** [while (first < row_count && readTimestamp(first) < t_min_) ++first;] on
    the timestamps from [first] on. *)
Fixpoint scan_while (p : Z -> bool) (ts : list Z) : nat :=
  match ts with [] => 0 | x :: ts' => if p x then S (scan_while p ts') else 0 end.

(** The chunks from [chunk_index] on; [row] is the row index in the first. *)
Fixpoint forEachChunk_loop (todo : list TopicChunk) (k row : nat) (called : list ChunkRowRange)
  : list ChunkRowRange :=
  match todo with
  | [] => called
  | chunk :: todo' =>
      if t_max (stats chunk) <? t_min_ then forEachChunk_loop todo' (S k) row called
      else if t_max_ <? t_min (stats chunk) then called
      else
        let ts := take (rows chunk) (timestamps chunk) in
        let early x := x <? t_min_ in
        let in_time x := x <=? t_max_ in
        let first := (row + scan_while early (drop row ts))%nat in
        let final := (first + scan_while in_time (drop first ts))%nat in
        let called := if decide (first < final)%nat then called ++ [mkChunkRowRange k first final] else called in
        forEachChunk_loop todo' (S k) 0 called
  end.

End Cursor.

Definition total_rows (chunks : list TopicChunk) : nat := sum_list_with rows chunks.

(** [RangeCursor(chunks, t_min, t_max).forEach(callback)] *)
Definition forEach (chunks : list TopicChunk) (t_min_ t_max_ : Z) : option (list SampleRow) :=
  forEach_loop chunks t_max_ (total_rows chunks) (findFirstValid chunks t_min_ t_max_) [].

Definition forEachChunk (chunks : list TopicChunk) (t_min_ t_max_ : Z) : list ChunkRowRange :=
  let c := findFirstValid chunks t_min_ t_max_ in
  forEachChunk_loop t_min_ t_max_ (drop (chunk_index c) chunks) (chunk_index c) (row_index c) [].

End RangeCursor.

(** ** latestAt *)

Definition latestAt (chunks : list TopicChunk) (t : Z) : option SampleRow :=
  let after := bsearch (fun chunk => negb (t <? t_min (stats chunk))) chunks in
  match after with
  | O => None
  | S k =>
      chunk ← chunks !! k;
      let ts := take (rows chunk) (timestamps chunk) in
      match upper_bound ts t with
      | O => None
      | S row => x ← Chunk.readTimestamp chunk row; Some (mkSampleRow x k row)
      end
  end.

(** ** The rows of a deque *)

Definition chunk_rows (k : nat) (c : TopicChunk) : list SampleRow :=
  imap (fun r x => mkSampleRow x k r) (timestamps c).

Fixpoint all_rows_from (k : nat) (chunks : list TopicChunk) : list SampleRow :=
  match chunks with [] => [] | c :: cs => chunk_rows k c ++ all_rows_from (S k) cs end.

Definition all_rows (chunks : list TopicChunk) : list SampleRow := all_rows_from 0 chunks.

(** A committed chunk: not empty, its timestamps in order, its statistics
    those of its rows. *)
Record chunk_wf (c : TopicChunk) : Prop := {
  cw_rows : row_count (stats c) = Z.of_nat (length (timestamps c));
  cw_sorted : sorted (timestamps c);
  cw_min : head (timestamps c) = Some (t_min (stats c));
  cw_max : last (timestamps c) = Some (t_max (stats c));
  cw_range : Forall (in_s 64) (timestamps c)
}.

(** Committed chunks follow each other in time. *)
Inductive deque_wf : list TopicChunk -> Prop :=
| deque_nil : deque_wf []
| deque_one c : chunk_wf c -> deque_wf [c]
| deque_cons c c' cs : chunk_wf c -> t_max (stats c) <= t_min (stats c') ->
    deque_wf (c' :: cs) -> deque_wf (c :: c' :: cs).

(** ** Facts about committed deques *)

Lemma deque_wf_cons c cs : deque_wf (c :: cs) -> chunk_wf c /\ deque_wf cs.
Proof. inversion 1; subst; split; try done. constructor. Qed.

Lemma deque_wf_forall cs : deque_wf cs -> Forall chunk_wf cs.
Proof. induction cs; intros H; constructor; apply deque_wf_cons in H as []; auto. Qed.

Lemma deque_wf_lookup cs k c : deque_wf cs -> cs !! k = Some c -> chunk_wf c.
Proof. intros H%deque_wf_forall Hk. by apply (Forall_lookup_1 _ _ _ _ H Hk). Qed.

Lemma deque_wf_drop n cs : deque_wf cs -> deque_wf (drop n cs).
Proof.
  revert cs. induction n as [|n IH]; intros [|c cs] H; try done.
  apply IH. by apply deque_wf_cons in H as [].
Qed.

Lemma rows_length c : chunk_wf c -> rows c = length (timestamps c).
Proof. intros H. unfold rows. rewrite (cw_rows _ H). lia. Qed.

Lemma chunk_not_empty c : chunk_wf c -> (0 < length (timestamps c))%nat.
Proof. intros H. pose proof (cw_min _ H). destruct (timestamps c); [done|simpl; lia]. Qed.

Lemma chunk_bounds c x : chunk_wf c -> x ∈ timestamps c -> t_min (stats c) <= x <= t_max (stats c).
Proof.
  intros H [i Hi]%list_elem_of_lookup. pose proof (cw_min _ H) as Hmin. pose proof (cw_max _ H) as Hmax.
  rewrite head_lookup in Hmin. rewrite last_lookup in Hmax. pose proof (lookup_lt_Some _ _ _ Hi).
  split.
  - by apply (sorted_lookup _ 0 i _ _ (cw_sorted _ H)); [lia| |].
  - by apply (sorted_lookup _ i (pred (length (timestamps c))) _ _ (cw_sorted _ H)); [lia| |].
Qed.

Lemma chunk_min_max c : chunk_wf c -> t_min (stats c) <= t_max (stats c).
Proof.
  intros H. pose proof (cw_min _ H) as Hmin. apply (chunk_bounds c _ H).
  destruct (timestamps c); simplify_eq/=. by left.
Qed.

(** Later chunks are later in time. *)
Lemma deque_wf_le cs i j a b : deque_wf cs -> (i < j)%nat -> cs !! i = Some a -> cs !! j = Some b ->
  t_max (stats a) <= t_min (stats b).
Proof.
  intros H. revert i j a b. induction H as [|c Hc|c c' cs Hc Hle Hcs IH]; intros i j a b Hij Hi Hj; [done| |].
  - destruct i, j; simplify_eq/=; lia.
  - destruct i as [|i], j as [|j]; try lia; simplify_eq/=.
    + destruct j as [|j]; simplify_eq/=; [done|].
      pose proof (IH 0%nat (S j) c' b ltac:(lia) eq_refl Hj).
      assert (chunk_wf c') as Hc' by (by apply deque_wf_cons in Hcs as []).
      pose proof (chunk_min_max _ Hc'). lia.
    + apply (IH i j a b); [lia|done|done].
Qed.

Lemma partitioned_t_max cs t : deque_wf cs -> partitioned (fun c => t_max (stats c) <? t) cs.
Proof.
  intros H i j a b Hij Hi Hj. rewrite !Z.ltb_lt. destruct (decide (i = j)); [simplify_eq; lia|].
  pose proof (deque_wf_le cs i j a b H ltac:(lia) Hi Hj).
  pose proof (chunk_min_max b (deque_wf_lookup _ _ _ H Hj)). lia.
Qed.

Lemma partitioned_t_min cs t : deque_wf cs -> partitioned (fun c => negb (t <? t_min (stats c))) cs.
Proof.
  intros H i j a b Hij Hi Hj. rewrite !negb_true_iff, !Z.ltb_ge. destruct (decide (i = j)); [simplify_eq; lia|].
  pose proof (deque_wf_le cs i j a b H ltac:(lia) Hi Hj).
  pose proof (chunk_min_max a (deque_wf_lookup _ _ _ H Hi)). lia.
Qed.

(** ** The rows from a position on *)

Definition rows_from (chunks : list TopicChunk) (k r : nat) : list SampleRow :=
  match drop k chunks with [] => [] | c :: cs => drop r (chunk_rows k c) ++ all_rows_from (S k) cs end.

Lemma rows_from_0 chunks k : rows_from chunks k 0 = all_rows_from k (drop k chunks).
Proof. unfold rows_from. by destruct (drop k chunks). Qed.

Lemma chunk_rows_lookup k c r : chunk_rows k c !! r = (fun x => mkSampleRow x k r) <$> (timestamps c !! r).
Proof. unfold chunk_rows. by rewrite list_lookup_imap. Qed.

Lemma length_chunk_rows k c : length (chunk_rows k c) = length (timestamps c).
Proof. apply length_imap. Qed.

(** One step of a cursor. *)
Lemma rows_from_step chunks k r c x : chunks !! k = Some c -> timestamps c !! r = Some x ->
  rows_from chunks k r = mkSampleRow x k r ::
    (if decide (length (timestamps c) <= S r)%nat then rows_from chunks (S k) 0 else rows_from chunks k (S r)).
Proof.
  intros Hk Hr. unfold rows_from at 1. rewrite (drop_S _ _ _ Hk).
  rewrite (drop_S (chunk_rows k c) (mkSampleRow x k r) r) by (rewrite chunk_rows_lookup, Hr; done).
  cbn [app]. f_equal. case_decide as Hl.
  - rewrite rows_from_0, drop_ge by (by rewrite length_chunk_rows). done.
  - unfold rows_from. by rewrite (drop_S _ _ _ Hk).
Qed.

Lemma all_rows_split chunks k r c : chunks !! k = Some c ->
  all_rows chunks = all_rows_from 0 (take k chunks) ++ take r (chunk_rows k c) ++ rows_from chunks k r.
Proof.
  intros Hk. assert (H : forall j, all_rows_from j chunks = all_rows_from j (take k chunks) ++ all_rows_from (j + k) (drop k chunks)).
  { clear. revert chunks. induction k as [|k IH]; intros [|c cs] j; simpl; try done.
    - by rewrite Nat.add_0_r.
    - rewrite (IH cs (S j)), app_assoc. by rewrite Nat.add_succ_r. }
  unfold all_rows. rewrite (H 0%nat). cbn [plus]. f_equal. unfold rows_from. rewrite (drop_S _ _ _ Hk).
  cbn [all_rows_from]. by rewrite app_assoc, take_drop.
Qed.

Lemma elem_of_chunk_rows k c s : s ∈ chunk_rows k c -> sr_timestamp s ∈ timestamps c.
Proof.
  intros [r Hr]%list_elem_of_lookup. rewrite chunk_rows_lookup in Hr.
  destruct (timestamps c !! r) eqn:E; simplify_eq/=. by eapply list_elem_of_lookup_2.
Qed.

Lemma elem_of_all_rows_from j cs s : s ∈ all_rows_from j cs ->
  exists k c, cs !! k = Some c /\ s ∈ chunk_rows (j + k) c.
Proof.
  revert j. induction cs as [|c cs IH]; intros j Hs; cbn [all_rows_from] in Hs; [by apply not_elem_of_nil in Hs|].
  apply elem_of_app in Hs as [Hs|Hs].
  - exists 0%nat, c. by rewrite Nat.add_0_r.
  - destruct (IH (S j) Hs) as (k & c' & Hk & Hin). exists (S k), c'. by rewrite Nat.add_succ_r.
Qed.

Lemma chunk_rows_times k c : map sr_timestamp (chunk_rows k c) = timestamps c.
Proof.
  apply list_eq. intros i. rewrite list_lookup_fmap, chunk_rows_lookup. by destruct (timestamps c !! i).
Qed.

(** The rows of a committed deque are in time order. *)
Lemma all_rows_sorted j cs : deque_wf cs -> sorted (map sr_timestamp (all_rows_from j cs)).
Proof.
  intros H. revert j. induction cs as [|c cs IH]; intros j; cbn [all_rows_from]; [constructor|].
  apply deque_wf_cons in H as Hcons. destruct Hcons as [Hc Hcs]. rewrite map_app, chunk_rows_times.
  apply sorted_app_iff. split_and!; [by apply cw_sorted|by apply IH|].
  intros x y Hx Hy. apply list_elem_of_fmap in Hy as (s & -> & Hs).
  apply elem_of_all_rows_from in Hs as (k & c' & Hk & Hin). apply elem_of_chunk_rows in Hin.
  pose proof (deque_wf_le (c :: cs) 0 (S k) c c' H ltac:(lia) eq_refl Hk).
  pose proof (chunk_bounds c x Hc Hx). pose proof (chunk_bounds c' _ (deque_wf_lookup cs k c' Hcs Hk) Hin). lia.
Qed.

(** ** Iterating a range *)

(** The rows up to the first one past [m]. *)
Fixpoint until (m : Z) (l : list SampleRow) : list SampleRow :=
  match l with [] => [] | s :: l' => if sr_timestamp s <=? m then s :: until m l' else [] end.

Lemma until_filter m l : sorted (map sr_timestamp l) -> until m l = filter (fun s => sr_timestamp s <= m) l.
Proof.
  induction l as [|s l IH]; intros Hs; [done|]. cbn [map] in Hs. inversion_clear Hs as [|? ? Hs' Hall].
  cbn [until]. rewrite filter_cons. destruct (Z.leb_spec (sr_timestamp s) m).
  - rewrite decide_True by done. by rewrite IH.
  - rewrite decide_False by lia. symmetry. rewrite Forall_map in Hall.
    clear -Hall H. induction Hall as [|x l Hx Hall IH]; [done|]. rewrite filter_cons, decide_False by (simpl in *; lia). done.
Qed.

Definition cursor_rows (chunks : list TopicChunk) (c : RangeCursor.t) : list SampleRow :=
  rows_from chunks (RangeCursor.chunk_index c) (RangeCursor.row_index c).

(** A cursor stands on a row, or is exhausted. *)
Definition on_row (chunks : list TopicChunk) (c : RangeCursor.t) (x : Z) : Prop :=
  exists chunk, chunks !! RangeCursor.chunk_index c = Some chunk
    /\ timestamps chunk !! RangeCursor.row_index c = Some x.

Lemma on_row_valid chunks c x : on_row chunks c x -> RangeCursor.valid chunks c = true.
Proof. intros (chunk & Hk & _). apply bool_decide_eq_true. by eapply lookup_lt_Some. Qed.

(** [advance] moves to the next row of the deque, or past the end when that
    row is out of the range. *)
Lemma advance_spec chunks m c x : deque_wf chunks -> on_row chunks c x ->
  exists c', RangeCursor.advance chunks m c = Some c' /\
    exists rest, cursor_rows chunks c = mkSampleRow x (RangeCursor.chunk_index c) (RangeCursor.row_index c) :: rest /\
    ((exists y, on_row chunks c' y /\ y <= m /\ cursor_rows chunks c' = rest)
     \/ (RangeCursor.valid chunks c' = false /\ until m rest = [])).
Proof.
  intros Hwf (chunk & Hk & Hr). destruct c as [k r]. cbn [RangeCursor.chunk_index RangeCursor.row_index] in *.
  unfold RangeCursor.advance, cursor_rows. cbn [RangeCursor.chunk_index RangeCursor.row_index]. rewrite Hk.
  cbn [mbind option_bind]. rewrite (rows_from_step chunks k r chunk x Hk Hr).
  pose proof (deque_wf_lookup _ _ _ Hwf Hk) as Hc. rewrite (rows_length _ Hc).
  set (next := if decide (length (timestamps chunk) <= S r)%nat then RangeCursor.mk (S k) 0 else RangeCursor.mk k (S r)).
  assert (Hrest : (if decide (length (timestamps chunk) <= S r)%nat then rows_from chunks (S k) 0 else rows_from chunks k (S r))
    = cursor_rows chunks next) by (unfold next; by case_decide).
  rewrite Hrest. unfold RangeCursor.skipToValid.
  assert (Hnext : (exists y, on_row chunks next y) \/ RangeCursor.valid chunks next = false /\ cursor_rows chunks next = []).
  { unfold next, on_row, RangeCursor.valid, cursor_rows. case_decide as Hl; cbn [RangeCursor.chunk_index RangeCursor.row_index].
    - destruct (chunks !! S k) as [chunk'|] eqn:E.
      + left. destruct (lookup_lt_is_Some_2 (timestamps chunk') 0) as [y Hy]; [|by exists y, chunk'].
        apply chunk_not_empty. by eapply deque_wf_lookup.
      + right. apply lookup_ge_None in E. rewrite bool_decide_false by lia.
        rewrite rows_from_0, drop_ge by done. done.
    - left. destruct (lookup_lt_is_Some_2 (timestamps chunk) (S r) ltac:(lia)) as [y Hy]. by exists y, chunk. }
  destruct Hnext as [[y Hy]|[Hv Hnil]].
  - rewrite (on_row_valid _ _ _ Hy). destruct Hy as (chunk' & Hk' & Hr'). unfold Chunk.readTimestamp. rewrite Hk'.
    cbn [mbind option_bind]. rewrite Hr'. cbn [mbind option_bind]. eexists. split; [done|].
    eexists. split; [done|]. destruct (Z.ltb_spec m y).
    + right. split; [unfold RangeCursor.valid; cbn; by rewrite bool_decide_false by lia|].
      unfold cursor_rows. rewrite (rows_from_step _ _ _ _ _ Hk' Hr'). cbn [until sr_timestamp].
      by rewrite (proj2 (Z.leb_gt _ _)).
    + left. exists y. split; [by exists chunk'|]. split; [lia|done].
  - rewrite Hv. eexists. split; [done|]. eexists. split; [done|]. right. split; [done|]. by rewrite Hnil.
Qed.

Lemma forEach_loop_spec chunks m fuel : forall c x called, deque_wf chunks -> on_row chunks c x -> x <= m ->
  (length (cursor_rows chunks c) <= fuel)%nat ->
  RangeCursor.forEach_loop chunks m fuel c called = Some (called ++ until m (cursor_rows chunks c)).
Proof.
  induction fuel as [|fuel IH]; intros c x called Hwf Hon Hx Hf;
    destruct (advance_spec chunks m c x Hwf Hon) as (c' & Hadv & rest & Hrows & Hnext).
  - rewrite Hrows in Hf. simpl in Hf. lia.
  - cbn [RangeCursor.forEach_loop]. rewrite (on_row_valid _ _ _ Hon).
    destruct Hon as (chunk & Hk & Hr). unfold RangeCursor.current, Chunk.readTimestamp. rewrite Hk.
    cbn [mbind option_bind]. rewrite Hr. cbn [mbind option_bind]. rewrite Hadv. cbn [mbind option_bind].
    rewrite Hrows in Hf |- *. cbn [until sr_timestamp]. rewrite (proj2 (Z.leb_le _ _)) by done.
    destruct Hnext as [(y & Hy & Hym & Hrest)|[Hv Hnil]].
    + rewrite (IH c' y) by (try done; rewrite Hrest; simpl in Hf; lia). rewrite Hrest. by rewrite <- app_assoc.
    + rewrite Hnil. destruct fuel; simpl; by rewrite Hv.
Qed.

(** ** Where a range starts *)

Lemma bsearch_lookup {A} (p : A -> bool) l : partitioned p l ->
  (forall i x, (i < bsearch p l)%nat -> l !! i = Some x -> p x = true)
  /\ (forall x, l !! bsearch p l = Some x -> p x = false)
  /\ (bsearch p l <= length l)%nat.
Proof.
  intros Hp. rewrite (bsearch_prefix_len p l Hp). split_and!.
  - intros. by eapply prefix_len_lt.
  - intros. by eapply prefix_len_ge.
  - apply prefix_len_le.
Qed.

(** [findFirstValid] separates the rows before [lo] from the others. *)
Lemma findFirstValid_spec chunks lo hi : deque_wf chunks ->
  let c := RangeCursor.findFirstValid chunks lo hi in
  (exists x front, on_row chunks c x /\ lo <= x <= hi /\ all_rows chunks = front ++ cursor_rows chunks c
     /\ Forall (fun s => sr_timestamp s < lo) front)
  \/ (RangeCursor.valid chunks c = false
      /\ Forall (fun s => sr_timestamp s < lo \/ hi < sr_timestamp s) (all_rows chunks)).
Proof.
  intros Hwf. cbv zeta. unfold RangeCursor.findFirstValid.
  destruct (bsearch_lookup _ chunks (partitioned_t_max chunks lo Hwf)) as (Hbefore & Hat & Hle).
  set (k := bsearch _ chunks) in *.
  assert (Hfront : Forall (fun s => sr_timestamp s < lo) (all_rows_from 0 (take k chunks))).
  { apply Forall_forall. intros s (i & ch & Hi & Hin)%elem_of_all_rows_from.
    apply elem_of_chunk_rows in Hin. pose proof (lookup_lt_Some _ _ _ Hi) as Hlt. rewrite length_take in Hlt.
    rewrite lookup_take_lt in Hi by lia. pose proof (Hbefore i ch ltac:(lia) Hi) as Hb. apply Z.ltb_lt in Hb.
    pose proof (chunk_bounds ch _ (deque_wf_lookup _ _ _ Hwf Hi) Hin). lia. }
  assert (Hinv : RangeCursor.valid chunks (RangeCursor.exhausted chunks) = false).
  { unfold RangeCursor.valid. cbn. by rewrite bool_decide_false by lia. }
  destruct (chunks !! k) as [chunk|] eqn:Ek.
  2:{ right. split; [done|]. apply lookup_ge_None in Ek. rewrite take_ge in Hfront by done.
      eapply Forall_impl; [exact Hfront|]. auto. }
  pose proof (deque_wf_lookup _ _ _ Hwf Ek) as Hc. specialize (Hat chunk eq_refl). apply Z.ltb_ge in Hat.
  rewrite (rows_length _ Hc), (take_ge (timestamps chunk)) by done.
  destruct (lower_bound_spec (timestamps chunk) lo (cw_sorted _ Hc)) as (Hrl & Hrb & Hra).
  set (r := lower_bound (timestamps chunk) lo) in *.
  destruct (timestamps chunk !! r) as [x|] eqn:Er.
  2:{ exfalso. apply lookup_ge_None in Er. pose proof (cw_max _ Hc) as Hmax. rewrite last_lookup in Hmax.
      pose proof (chunk_not_empty _ Hc). pose proof (Hrb (pred (length (timestamps chunk))) _ ltac:(lia) Hmax). lia. }
  assert (Hx : lo <= x) by (by apply (Hra r x)).
  rewrite (all_rows_split chunks k r chunk Ek).
  assert (Htake : Forall (fun s => sr_timestamp s < lo) (take r (chunk_rows k chunk))).
  { apply Forall_lookup. intros i s Hi. apply lookup_take_Some in Hi as [Hi Hir].
    rewrite chunk_rows_lookup in Hi. destruct (timestamps chunk !! i) as [y|] eqn:Ey; simplify_eq/=. by apply (Hrb i). }
  destruct (Z.ltb_spec hi x).
  - right. split; [done|]. rewrite app_assoc. apply Forall_app. split.
    + apply Forall_app. split; (eapply Forall_impl; [eassumption|]); auto.
    + pose proof (all_rows_sorted 0 chunks Hwf) as Hs. unfold all_rows in *.
      pose proof (all_rows_split chunks k r chunk Ek) as Hsplit. unfold all_rows in Hsplit.
      rewrite Hsplit, !map_app in Hs. apply sorted_app_iff in Hs as (_ & Hs & _).
      apply sorted_app_iff in Hs as (_ & Hs & _).
      rewrite (rows_from_step _ _ _ _ _ Ek Er) in Hs |- *. cbn [map sr_timestamp] in Hs.
      inversion_clear Hs as [|? ? _ Hall]. constructor; [simpl; lia|]. rewrite Forall_map in Hall.
      eapply Forall_impl; [exact Hall|]. simpl. lia.
  - left. exists x, (all_rows_from 0 (take k chunks) ++ take r (chunk_rows k chunk)). split_and!; try done.
    + by exists chunk.
    + unfold cursor_rows. cbn. by rewrite app_assoc.
    + apply Forall_app. by split.
Qed.

Lemma filter_none {A} (P : A -> Prop) `{!forall x, Decision (P x)} l : Forall (fun x => ~ P x) l -> filter P l = [].
Proof. induction 1 as [|x l Hx _ IH]; [done|]. by rewrite filter_cons, decide_False. Qed.

Lemma filter_congr {A} (P Q : A -> Prop) `{!forall x, Decision (P x), !forall x, Decision (Q x)} l :
  Forall (fun x => P x <-> Q x) l -> filter P l = filter Q l.
Proof.
  induction 1 as [|x l Hx _ IH]; [done|]. rewrite !filter_cons, IH. repeat case_decide; tauto.
Qed.

Lemma length_all_rows_from j cs : Forall chunk_wf cs -> length (all_rows_from j cs) = RangeCursor.total_rows cs.
Proof.
  intros H. revert j. induction H as [|c cs Hc _ IH]; intros j; [done|]. cbn [all_rows_from].
  rewrite length_app, length_chunk_rows, IH. unfold RangeCursor.total_rows. cbn [sum_list_with].
  by rewrite (rows_length _ Hc).
Qed.

Lemma range_rows_in_order chunks lo hi : deque_wf chunks ->
  RangeCursor.forEach chunks lo hi
  = Some (filter (fun s => lo <= sr_timestamp s <= hi) (all_rows chunks)).
Proof.
  intros Hwf. unfold RangeCursor.forEach.
  destruct (findFirstValid_spec chunks lo hi Hwf) as [(x & front & Hon & Hx & Hall & Hfront)|[Hv Hall]].
  - set (c := RangeCursor.findFirstValid chunks lo hi) in *.
    pose proof (all_rows_sorted 0 chunks Hwf) as Hs. fold (all_rows chunks) in Hs. rewrite Hall, map_app in Hs.
    apply sorted_app_iff in Hs as (_ & Hs & Hle).
    rewrite (forEach_loop_spec chunks hi _ c x); [|done|done|lia|].
    + rewrite Hall, filter_app, (filter_none _ front).
      2:{ eapply Forall_impl; [exact Hfront|]. simpl. lia. }
      rewrite until_filter by done. simpl. f_equal. apply filter_congr. apply Forall_forall. intros s Hin.
      assert (x <= sr_timestamp s); [|lia].
      destruct Hon as (chunk & Hk & Hr). unfold cursor_rows in Hs, Hin.
      rewrite (rows_from_step _ _ _ _ _ Hk Hr) in Hs, Hin. cbn [map sr_timestamp] in Hs.
      inversion_clear Hs as [|? ? _ Hf]. rewrite Forall_map, Forall_forall in Hf.
      apply elem_of_cons in Hin as [-> |Hin]; [simpl; lia|by apply Hf].
    + pose proof (f_equal length Hall) as Hl. rewrite length_app in Hl.
      rewrite <- (length_all_rows_from 0) by (by apply deque_wf_forall). unfold all_rows in Hl. lia.
  - rewrite filter_none.
    + destruct (RangeCursor.total_rows chunks); simpl; by rewrite Hv.
    + eapply Forall_impl; [exact Hall|]. simpl. lia.
Qed.

(** ** latestAt *)

Lemma last_filter_app {A} (P : A -> Prop) `{!forall x, Decision (P x)} front back :
  Forall P front -> Forall (fun x => ~ P x) back -> filter P (front ++ back) = front.
Proof.
  intros Hf Hb. rewrite filter_app, (filter_none P back Hb), app_nil_r.
  induction Hf as [|x l Hx _ IH]; [done|]. by rewrite filter_cons, decide_True, IH.
Qed.

(** The point query returns the last of all rows at or before the time
    (the later chunk at a shared boundary), and nothing when every row is
    later. *)
Theorem latestAt_rows chunks t : deque_wf chunks ->
  latestAt chunks t = last (filter (fun s => sr_timestamp s <= t) (all_rows chunks)).
Proof.
  intros Hwf. unfold latestAt.
  destruct (bsearch_lookup _ chunks (partitioned_t_min chunks t Hwf)) as (Hbefore & Hat & Hle).
  set (after := bsearch _ chunks) in *.
  assert (Hlate : forall i c, (after <= i)%nat -> chunks !! i = Some c -> t < t_min (stats c)).
  { intros i c Hi Hc. destruct (lookup_lt_is_Some_2 chunks after) as [a Ha]; [apply lookup_lt_Some in Hc; lia|].
    pose proof (Hat a Ha) as Hat'. apply negb_false_iff, Z.ltb_lt in Hat'.
    destruct (decide (after = i)) as [<-|Hne]; [by simplify_eq|].
    pose proof (deque_wf_le chunks after i a c Hwf ltac:(lia) Ha Hc).
    pose proof (chunk_min_max a (deque_wf_lookup _ _ _ Hwf Ha)). lia. }
  destruct after as [|k] eqn:Eafter.
  - rewrite filter_none; [done|]. apply Forall_forall. intros s (i & c & Hi & Hin)%elem_of_all_rows_from.
    apply elem_of_chunk_rows in Hin. pose proof (Hlate i c ltac:(lia) Hi).
    pose proof (chunk_bounds c _ (deque_wf_lookup _ _ _ Hwf Hi) Hin). lia.
  - destruct (lookup_lt_is_Some_2 chunks k ltac:(lia)) as [chunk Hk]. rewrite Hk. cbn [mbind option_bind].
    pose proof (deque_wf_lookup _ _ _ Hwf Hk) as Hc. rewrite (rows_length _ Hc), take_ge by done.
    pose proof (Hbefore k chunk ltac:(lia) Hk) as Hmin. apply negb_true_iff, Z.ltb_ge in Hmin.
    destruct (upper_bound_spec (timestamps chunk) t (cw_sorted _ Hc)) as (Hrl & Hrb & Hra).
    set (r := upper_bound (timestamps chunk) t) in *.
    assert (Hr0 : r <> 0%nat).
    { intros Hr0. pose proof (cw_min _ Hc) as Hm. rewrite head_lookup in Hm. pose proof (Hra 0%nat _ ltac:(lia) Hm). lia. }
    destruct r as [|row] eqn:Er; [done|].
    destruct (lookup_lt_is_Some_2 (timestamps chunk) row ltac:(lia)) as [x Hx].
    unfold Chunk.readTimestamp. rewrite Hx. cbn [mbind option_bind].
    rewrite (all_rows_split chunks k (S row) chunk Hk), app_assoc.
    rewrite (last_filter_app _ (all_rows_from 0 (take k chunks) ++ take (S row) (chunk_rows k chunk))).
    + rewrite (take_S_r _ _ (mkSampleRow x k row)) by (by rewrite chunk_rows_lookup, Hx).
      by rewrite app_assoc, last_snoc.
    + apply Forall_app. split.
      * apply Forall_forall. intros s (i & c & Hi & Hin)%elem_of_all_rows_from.
        apply elem_of_chunk_rows in Hin. pose proof (lookup_lt_Some _ _ _ Hi) as Hlt. rewrite length_take in Hlt.
        rewrite lookup_take_lt in Hi by lia. pose proof (deque_wf_le chunks i k c chunk Hwf ltac:(lia) Hi Hk).
        pose proof (chunk_bounds c _ (deque_wf_lookup _ _ _ Hwf Hi) Hin). lia.
      * apply Forall_lookup. intros i s Hi. apply lookup_take_Some in Hi as [Hi Hir]. rewrite chunk_rows_lookup in Hi.
        destruct (timestamps chunk !! i) as [y|] eqn:Ey; simplify_eq/=. by apply (Hrb i).
    + unfold rows_from. rewrite (drop_S _ _ _ Hk). apply Forall_app. split.
      * apply Forall_lookup. intros i s Hi. rewrite lookup_drop, chunk_rows_lookup in Hi.
        destruct (timestamps chunk !! (S row + i)%nat) as [y|] eqn:Ey; simplify_eq/=.
        pose proof (Hra (S row + i)%nat y ltac:(lia) Ey). lia.
      * apply Forall_forall. intros s (i & c & Hi & Hin)%elem_of_all_rows_from.
        rewrite lookup_drop in Hi. apply elem_of_chunk_rows in Hin. pose proof (Hlate (S k + i)%nat c ltac:(lia) Hi).
        pose proof (chunk_bounds c _ (deque_wf_lookup _ _ _ Hwf Hi) Hin). lia.
Qed.

(** ** The bulk path *)

(** The rows a range stands for. *)
Definition range_rows (chunks : list TopicChunk) (cr : ChunkRowRange) : list SampleRow :=
  match chunks !! cr_chunk cr with
  | Some c => take (row_end cr - row_start cr) (drop (row_start cr) (chunk_rows (cr_chunk cr) c))
  | None => []
  end.

Lemma scan_filter lo hi (l : list SampleRow) : sorted (map sr_timestamp l) ->
  let a := RangeCursor.scan_while (fun x => x <? lo) (map sr_timestamp l) in
  let b := RangeCursor.scan_while (fun x => x <=? hi) (drop a (map sr_timestamp l)) in
  filter (fun s => lo <= sr_timestamp s <= hi) l = take b (drop a l) /\ (a + b <= length l)%nat.
Proof.
  induction l as [|s l IH]; intros Hs; [done|]. cbn [map] in *. inversion_clear Hs as [|? ? Hs' Hall].
  specialize (IH Hs'). cbn [RangeCursor.scan_while]. rewrite filter_cons.
  destruct (Z.ltb_spec (sr_timestamp s) lo).
  - rewrite decide_False by lia. cbv zeta in IH |- *. cbn [drop length]. destruct IH as [-> Hl]. split; [done|]. lia.
  - clear IH. cbv zeta. cbn [drop RangeCursor.scan_while].
    assert (Hge : Forall (fun x => lo <= sr_timestamp x) l).
    { rewrite Forall_map in Hall. eapply Forall_impl; [exact Hall|]. simpl. lia. }
    assert (Hu : forall l, sorted (map sr_timestamp l) -> Forall (fun x => lo <= sr_timestamp x) l ->
      filter (fun s => lo <= sr_timestamp s <= hi) l = take (RangeCursor.scan_while (fun x => (x <=? hi)%Z) (map sr_timestamp l)) l
      /\ (RangeCursor.scan_while (fun x => (x <=? hi)%Z) (map sr_timestamp l) <= length l)%nat).
    { clear. induction l as [|s l IH]; intros Hs Hge; [done|]. cbn [map] in *. inversion_clear Hs as [|? ? Hs' Hall].
      inversion_clear Hge as [|? ? Hg Hge']. destruct (IH Hs' Hge') as [IH1 IH2]. rewrite filter_cons.
      cbn [RangeCursor.scan_while]. destruct (Z.leb_spec (sr_timestamp s) hi).
      - rewrite decide_True by lia. cbn [take length]. rewrite IH1. split; [done|lia].
      - rewrite decide_False by lia. split; [|simpl; lia]. apply filter_none. rewrite Forall_map in Hall.
        eapply Forall_impl; [exact Hall|]. simpl. lia. }
    destruct (Hu (s :: l)) as [Hu1 Hu2]; [by constructor|by constructor|].
    cbn [map RangeCursor.scan_while] in Hu1, Hu2. rewrite filter_cons in Hu1. by rewrite Hu1.
Qed.

Lemma sorted_map_drop n (l : list SampleRow) : sorted (map sr_timestamp l) -> sorted (map sr_timestamp (drop n l)).
Proof. intros H. pose proof (sorted_drop n _ H) as Hd. by rewrite skipn_map in Hd. Qed.

(** The row index is only kept across chunks that the first test skips, which
    [findFirstValid] leaves none of. *)
Lemma forEachChunk_loop_spec chunks lo hi : deque_wf chunks -> forall todo k r called,
  todo = drop k chunks ->
  (r = 0%nat \/ forall c, chunks !! k = Some c -> lo <= t_max (stats c)) ->
  concat (map (range_rows chunks) (RangeCursor.forEachChunk_loop lo hi todo k r called))
  = concat (map (range_rows chunks) called) ++ filter (fun s => lo <= sr_timestamp s <= hi) (rows_from chunks k r).
Proof.
  intros Hwf. induction todo as [|chunk todo IH]; intros k r called Htodo Hskip.
  { unfold rows_from. rewrite <- Htodo. cbn. by rewrite app_nil_r. }
  assert (Hk : chunks !! k = Some chunk).
  { rewrite <- (Nat.add_0_r k), <- lookup_drop, <- Htodo. done. }
  assert (Htodo' : todo = drop (S k) chunks) by (rewrite (drop_S _ _ _ Hk) in Htodo; congruence).
  pose proof (deque_wf_lookup _ _ _ Hwf Hk) as Hc. cbn [RangeCursor.forEachChunk_loop].
  assert (Hrows : rows_from chunks k r = drop r (chunk_rows k chunk) ++ rows_from chunks (S k) 0).
  { unfold rows_from at 1. rewrite <- Htodo, rows_from_0, Htodo'. done. }
  assert (Hin : Forall (fun s => t_min (stats chunk) <= sr_timestamp s <= t_max (stats chunk)) (drop r (chunk_rows k chunk))).
  { apply Forall_drop, Forall_forall. intros s Hin%elem_of_chunk_rows. by apply chunk_bounds. }
  rewrite Hrows, filter_app.
  destruct (Z.ltb_spec (t_max (stats chunk)) lo) as [Hlt|Hge].
  { destruct Hskip as [-> | Hskip]; [|specialize (Hskip chunk Hk); lia].
    rewrite (IH (S k) 0%nat called Htodo') by auto. rewrite (filter_none _ (drop 0 _)); [done|].
    eapply Forall_impl; [exact Hin|]. simpl. lia. }
  destruct (Z.ltb_spec hi (t_min (stats chunk))) as [Hlt|Hge'].
  { rewrite !filter_none; [by rewrite app_nil_r| |].
    - rewrite rows_from_0, <- Htodo'. apply Forall_forall. intros s (i & c & Hi & Hs)%elem_of_all_rows_from.
      rewrite Htodo', lookup_drop in Hi. apply elem_of_chunk_rows in Hs.
      pose proof (deque_wf_le chunks k (S k + i) chunk c Hwf ltac:(lia) Hk Hi).
      pose proof (chunk_bounds c _ (deque_wf_lookup _ _ _ Hwf Hi) Hs). pose proof (chunk_min_max chunk Hc). lia.
    - eapply Forall_impl; [exact Hin|]. simpl. lia. }
  rewrite (rows_length _ Hc), take_ge by done. cbv zeta. rewrite (IH (S k) 0%nat) by auto.
  rewrite app_assoc. f_equal.
  assert (Hs : sorted (map sr_timestamp (drop r (chunk_rows k chunk)))).
  { apply sorted_map_drop. rewrite chunk_rows_times. by apply cw_sorted. }
  destruct (scan_filter lo hi (drop r (chunk_rows k chunk)) Hs) as [Hf Hb]. rewrite Hf.
  rewrite <- skipn_map, chunk_rows_times in *.
  set (a := RangeCursor.scan_while (fun x => x <? lo) (drop r (timestamps chunk))) in *.
  rewrite !drop_drop. set (b := RangeCursor.scan_while (fun x => x <=? hi) _).
  case_decide.
  - rewrite map_app, concat_app. cbn [map concat]. rewrite app_nil_r. f_equal. unfold range_rows.
    cbn [cr_chunk row_start row_end]. rewrite Hk. f_equal. lia.
  - replace b with 0%nat by lia. by rewrite take_0, app_nil_r.
Qed.

(** The bulk path yields row intervals whose rows are exactly those the
    row-by-row path calls back, in the same order. *)
Theorem forEachChunk_rows chunks lo hi : deque_wf chunks ->
  concat (map (range_rows chunks) (RangeCursor.forEachChunk chunks lo hi))
  = filter (fun s => lo <= sr_timestamp s <= hi) (all_rows chunks).
Proof.
  intros Hwf. unfold RangeCursor.forEachChunk. cbv zeta.
  destruct (findFirstValid_spec chunks lo hi Hwf) as [(x & front & Hon & Hx & Hall & Hfront)|[Hv Hall]].
  - rewrite forEachChunk_loop_spec; [|done|done|].
    + cbn. rewrite Hall, filter_app, (filter_none _ front); [done|].
      eapply Forall_impl; [exact Hfront|]. simpl. lia.
    + right. intros c Hc. destruct Hon as (chunk & Hk & Hr). replace c with chunk by congruence.
      pose proof (chunk_bounds chunk x (deque_wf_lookup _ _ _ Hwf Hk)) as Hb.
      pose proof (list_elem_of_lookup_2 _ _ _ Hr). specialize (Hb ltac:(done)). lia.
  - apply bool_decide_eq_false in Hv. rewrite drop_ge by lia. cbn. symmetry. apply filter_none.
    eapply Forall_impl; [exact Hall|]. simpl. lia.
Qed.

(** ** Iteration *)

(** C2: Iterating a range over committed chunks calls back exactly the rows
    of the deque whose timestamp is in the closed interval, each once and in
    order; the loop ends. *)
Theorem forEach_rows chunks lo hi : deque_wf chunks ->
  RangeCursor.forEach chunks lo hi
  = Some (filter (fun s => lo <= sr_timestamp s <= hi) (all_rows chunks)).
Proof. apply range_rows_in_order. Qed.

(** ** Witnesses *)

Definition demo_later : list Row := [(20, [Put (VFloat64 (bits_of_f64 (f64_of_Z 9)))]); (35, [])].

(** Two chunks that share a boundary timestamp. *)
Definition demo_deque : list TopicChunk := Eval vm_compute in [demo_chunk demo_rows; demo_chunk demo_later].

Lemma demo_deque_wf : deque_wf demo_deque.
Proof. repeat constructor; vm_compute; congruence. Qed.

Lemma forEach_rows_witness : RangeCursor.forEach demo_deque 15 30
  = Some [mkSampleRow 20 0 1; mkSampleRow 20 0 2; mkSampleRow 20 1 0].
Proof. rewrite (forEach_rows demo_deque 15 30 demo_deque_wf). vm_compute. reflexivity. Defined.

Lemma latestAt_rows_witness : latestAt demo_deque 20 = Some (mkSampleRow 20 1 0).
Proof. rewrite (latestAt_rows demo_deque 20 demo_deque_wf). vm_compute. reflexivity. Defined.

Lemma forEachChunk_rows_witness :
  concat (map (range_rows demo_deque) (RangeCursor.forEachChunk demo_deque 15 30))
  = [mkSampleRow 20 0 1; mkSampleRow 20 0 2; mkSampleRow 20 1 0].
Proof. rewrite (forEachChunk_rows demo_deque 15 30 demo_deque_wf). vm_compute. reflexivity. Defined.
