(* ===== verification/Series.v ===== *)
(** * Series: one column of a topic as a time series

    Models the SeriesCursor and SeriesReader of
    [src/pj_datastore/src/query.cpp].  A series is the sequence of the rows of
    the committed chunks whose value in the column is not null.  The
    specification is that list ([samples]); every operation of the reader and
    the cursor is shown to be the list operation it stands for.  The outer
    [option] of an operation is undefined behaviour (a read out of bounds, a
    violated [assert]), the inner one [std::nullopt]. *)

From S2P Require Import Prelude Float64 Types Buffer Encoding Column Chunk Query.

(** The data of the class: the deque is a parameter of the operations. *)
Record SeriesCursorState := mkCursor { sc_chunk : nat; sc_row : nat }.

(** How the scan of the rows of one chunk ends. *)
Inductive RowScan := Found (row : nat) | PastRange (row : nat) | NoSample.

Module SeriesCursor.
Section Cursor.
Context (chunks : list TopicChunk) (column_index : nat) (time_range : Range Z).

Definition valid (c : SeriesCursorState) : bool := bool_decide (sc_chunk c < length chunks)%nat.

(** [while (row_index_ < row_count)]: [n] rows are left. *)
Fixpoint scan_rows (n : nat) (chunk : TopicChunk) (row : nat) : option RowScan :=
  match n with
  | O => Some NoSample
  | S n' =>
      ts ← Chunk.readTimestamp chunk row;
      if ts <? range_min time_range then scan_rows n' chunk (S row)
      else if range_max time_range <? ts then Some (PastRange row)
      else
        v ← readSeriesValue chunk column_index row;
        match v with Some _ => Some (Found row) | None => scan_rows n' chunk (S row) end
  end.

(** [todo]: the chunks from [k] on. *)
Fixpoint skip_loop (todo : list TopicChunk) (k row : nat) : option SeriesCursorState :=
  match todo with
  | [] => Some (mkCursor k row)
  | chunk :: todo' =>
      if (row_count (stats chunk) =? 0) || (t_max (stats chunk) <? range_min time_range)
         || bool_decide (length (columns chunk) <= column_index)%nat
      then skip_loop todo' (S k) 0
      else if range_max time_range <? t_min (stats chunk) then Some (mkCursor (length chunks) row)
      else
        scan ← scan_rows (rows chunk - row) chunk row;
        match scan with
        | Found r => Some (mkCursor k r)
        | PastRange r => Some (mkCursor (length chunks) r)
        | NoSample => skip_loop todo' (S k) 0
        end
  end.

Definition skipToSample (c : SeriesCursorState) : option SeriesCursorState :=
  skip_loop (drop (sc_chunk c) chunks) (sc_chunk c) (sc_row c).

Definition make : option SeriesCursorState := skipToSample (mkCursor 0 0).

(** [makeSeriesSample], with its [assert]. *)
Definition makeSeriesSample (k : nat) (chunk : TopicChunk) (row : nat) : option SeriesSample :=
  value ← readSeriesValue chunk column_index row;
  v ← value;
  ts ← Chunk.readTimestamp chunk row;
  Some (mkSeriesSample ts v k row).

Definition current (c : SeriesCursorState) : option SeriesSample :=
  chunk ← chunks !! sc_chunk c; makeSeriesSample (sc_chunk c) chunk (sc_row c).

Definition advance (c : SeriesCursorState) : option SeriesCursorState :=
  if valid c then skipToSample (mkCursor (sc_chunk c) (S (sc_row c))) else None.

Fixpoint forEach_loop (fuel : nat) (c : SeriesCursorState) (called : list SeriesSample)
  : option (list SeriesSample) :=
  if valid c then
    match fuel with
    | O => None
    | S fuel' => s ← current c; c' ← advance c; forEach_loop fuel' c' (called ++ [s])
    end
  else Some called.

End Cursor.

(** [SeriesCursor(chunks, column_index, time_range).forEach(callback)]: the
    samples the callback gets. *)
Definition forEach (chunks : list TopicChunk) (column_index : nat) (time_range : Range Z)
  : option (list SeriesSample) :=
  let time_range := normalized time_range in
  c ← make chunks column_index time_range;
  forEach_loop chunks column_index time_range (RangeCursor.total_rows chunks) c [].

End SeriesCursor.

(** ** SeriesReader *)

Module SeriesReader.
Section Reader.
Context (chunks : list TopicChunk) (column_index : nat).

Definition has_column (chunk : TopicChunk) : bool := bool_decide (column_index < length (columns chunk))%nat.

(** The [for] loops of the rows of a chunk run over [seq 0 (rows chunk)]; a
    result [inl] is a [return] out of both loops, [inr] the value the loop
    leaves. *)

Fixpoint count_rows (chunk : TopicChunk) (rs : list nat) (count : nat) : option nat :=
  match rs with
  | [] => Some count
  | row :: rs' =>
      v ← readSeriesValue chunk column_index row;
      count_rows chunk rs' (match v with Some _ => S count | None => count end)
  end.

Fixpoint size_loop (todo : list TopicChunk) (count : nat) : option nat :=
  match todo with
  | [] => Some count
  | chunk :: todo' =>
      if has_column chunk then
        count ← count_rows chunk (seq 0 (rows chunk)) count; size_loop todo' count
      else size_loop todo' count
  end.

Definition size : option nat := size_loop chunks 0.
Definition empty : option bool := n ← size; Some (n =? 0)%nat.

Fixpoint sampleAt_rows (k : nat) (chunk : TopicChunk) (rs : list nat) (index series_index : nat)
  : option (SeriesSample + nat) :=
  match rs with
  | [] => Some (inr series_index)
  | row :: rs' =>
      v ← readSeriesValue chunk column_index row;
      match v with
      | None => sampleAt_rows k chunk rs' index series_index
      | Some _ =>
          if (series_index =? index)%nat
          then s ← SeriesCursor.makeSeriesSample column_index k chunk row; Some (inl s)
          else sampleAt_rows k chunk rs' index (S series_index)
      end
  end.

Fixpoint sampleAt_loop (k : nat) (todo : list TopicChunk) (index series_index : nat)
  : option (option SeriesSample) :=
  match todo with
  | [] => Some None
  | chunk :: todo' =>
      if has_column chunk then
        r ← sampleAt_rows k chunk (seq 0 (rows chunk)) index series_index;
        match r with
        | inl s => Some (Some s)
        | inr series_index => sampleAt_loop (S k) todo' index series_index
        end
      else sampleAt_loop (S k) todo' index series_index
  end.

Definition sampleAt (index : nat) : option (option SeriesSample) := sampleAt_loop 0 chunks index 0.

Fixpoint before_rows (chunk : TopicChunk) (rs : list nat) (t : Z) (latest : option nat) (series_index : nat)
  : option (option nat + (option nat * nat)) :=
  match rs with
  | [] => Some (inr (latest, series_index))
  | row :: rs' =>
      ts ← Chunk.readTimestamp chunk row;
      if t <? ts then Some (inl latest)
      else
        v ← readSeriesValue chunk column_index row;
        match v with
        | Some _ => before_rows chunk rs' t (Some series_index) (S series_index)
        | None => before_rows chunk rs' t latest series_index
        end
  end.

Fixpoint before_loop (todo : list TopicChunk) (t : Z) (latest : option nat) (series_index : nat)
  : option (option nat) :=
  match todo with
  | [] => Some latest
  | chunk :: todo' =>
      if (row_count (stats chunk) =? 0) || negb (has_column chunk) then before_loop todo' t latest series_index
      else if t <? t_min (stats chunk) then Some latest
      else
        r ← before_rows chunk (seq 0 (rows chunk)) t latest series_index;
        match r with
        | inl latest => Some latest
        | inr (latest, series_index) => before_loop todo' t latest series_index
        end
  end.

Definition indexAtOrBeforeTime (t : Z) : option (option nat) := before_loop chunks t None 0.

Fixpoint after_rows (chunk : TopicChunk) (rs : list nat) (t : Z) (series_index : nat) : option (nat + nat) :=
  match rs with
  | [] => Some (inr series_index)
  | row :: rs' =>
      v ← readSeriesValue chunk column_index row;
      match v with
      | None => after_rows chunk rs' t series_index
      | Some _ =>
          ts ← Chunk.readTimestamp chunk row;
          if t <=? ts then Some (inl series_index) else after_rows chunk rs' t (S series_index)
      end
  end.

Fixpoint after_loop (todo : list TopicChunk) (t : Z) (series_index : nat) : option (option nat) :=
  match todo with
  | [] => Some None
  | chunk :: todo' =>
      if (row_count (stats chunk) =? 0) || negb (has_column chunk) then after_loop todo' t series_index
      else if t_max (stats chunk) <? t then
        series_index ← count_rows chunk (seq 0 (rows chunk)) series_index; after_loop todo' t series_index
      else
        r ← after_rows chunk (seq 0 (rows chunk)) t series_index;
        match r with
        | inl i => Some (Some i)
        | inr series_index => after_loop todo' t series_index
        end
  end.

Definition indexAtOrAfterTime (t : Z) : option (option nat) := after_loop chunks t 0.

Definition sampleAtOrBeforeTime (t : Z) : option (option SeriesSample) :=
  index ← indexAtOrBeforeTime t;
  match index with Some i => sampleAt i | None => Some None end.

Definition sampleAtOrAfterTime (t : Z) : option (option SeriesSample) :=
  index ← indexAtOrAfterTime t;
  match index with Some i => sampleAt i | None => Some None end.

(** The variables the callback of [bounds] captures. *)
Record BoundsState := mkBounds { b_result : SeriesBounds; found_time : bool; found_value : bool }.

Definition bounds_step (b : BoundsState) (s : SeriesSample) : BoundsState :=
  let r := b_result b in
  let time := if found_time b
    then mkRange (Z.min (range_min (sb_time r)) (ss_timestamp s)) (Z.max (range_max (sb_time r)) (ss_timestamp s))
    else mkRange (ss_timestamp s) (ss_timestamp s) in
  let value :=
    if f64_is_finite (ss_value s) then
      if found_value b
      then mkRange (f64_min (range_min (sb_value r)) (ss_value s)) (f64_max_of (range_max (sb_value r)) (ss_value s))
      else mkRange (ss_value s) (ss_value s)
    else sb_value r in
  mkBounds (mkSeriesBounds time value (S (sample_count r))) true (found_value b || f64_is_finite (ss_value s)).

Definition bounds_init : BoundsState :=
  mkBounds (mkSeriesBounds (mkRange INT64_MIN INT64_MAX) (mkRange f64_lowest f64_max) 0) false false.

Definition bounds (time_range : Range Z) : option (option SeriesBounds) :=
  samples ← SeriesCursor.forEach chunks column_index time_range;
  let b := fold_left bounds_step samples bounds_init in
  Some (if found_time b && found_value b then Some (b_result b) else None).

Definition allTime : Range Z := mkRange INT64_MIN INT64_MAX.

End Reader.
End SeriesReader.

(** ** The specification: the list of the samples *)

Definition chunk_samples (column_index k : nat) (c : TopicChunk) (r n : nat) : list SeriesSample :=
  omap (SeriesCursor.makeSeriesSample column_index k c) (seq r n).

Fixpoint samples_from (column_index k : nat) (cs : list TopicChunk) : list SeriesSample :=
  match cs with
  | [] => []
  | c :: cs' => chunk_samples column_index k c 0 (rows c) ++ samples_from column_index (S k) cs'
  end.

Definition samples (chunks : list TopicChunk) (column_index : nat) : list SeriesSample :=
  samples_from column_index 0 chunks.

(** The reads of the column are within its buffers. *)
Definition column_defined (column_index : nat) (c : TopicChunk) : Prop :=
  forall r, (r < rows c)%nat -> is_Some (readSeriesValue c column_index r).

(** The index of the last of [n] samples counted from [si]. *)
Definition last_index (latest : option nat) (si n : nat) : option nat :=
  match n with O => latest | S m => Some (si + m)%nat end.

Section Series.
Context (column_index : nat).

Abbreviation sample := (SeriesCursor.makeSeriesSample column_index).
Abbreviation good := (fun c => chunk_wf c /\ column_defined column_index c).

Lemma row_cases k c r : chunk_wf c -> column_defined column_index c -> (r < rows c)%nat ->
  exists x, timestamps c !! r = Some x
    /\ (readSeriesValue c column_index r = Some None /\ sample k c r = None
        \/ exists v, readSeriesValue c column_index r = Some (Some v) /\ sample k c r = Some (mkSeriesSample x v k r)).
Proof.
  intros Hc Hd Hr. pose proof Hr as Hlt. rewrite (rows_length _ Hc) in Hlt.
  destruct (lookup_lt_is_Some_2 (timestamps c) r Hlt) as [x Hx]. exists x. split; [done|].
  destruct (Hd r Hr) as [[v|] Hv]; unfold SeriesCursor.makeSeriesSample, Chunk.readTimestamp; rewrite Hv, ?Hx; eauto.
Qed.

Lemma chunk_samples_nil k c r n : (length (columns c) <= column_index)%nat -> chunk_samples column_index k c r n = [].
Proof.
  intros Hl. unfold chunk_samples. revert r. induction n as [|n IH]; intros r; [done|].
  cbn [seq omap list_omap]. unfold SeriesCursor.makeSeriesSample at 1, readSeriesValue. rewrite decide_True by done.
  apply IH.
Qed.

Lemma chunk_samples_elem k c r n s : s ∈ chunk_samples column_index k c r n ->
  exists i, (r <= i < r + n)%nat /\ timestamps c !! i = Some (ss_timestamp s).
Proof.
  intros (i & Hi & Hs)%list_elem_of_omap. apply elem_of_seq in Hi. exists i. split; [lia|].
  unfold SeriesCursor.makeSeriesSample, Chunk.readTimestamp in Hs.
  destruct (readSeriesValue _ _ _) as [[v|]|]; simplify_eq/=. destruct (timestamps c !! i); by simplify_eq/=.
Qed.

Lemma chunk_samples_bounds k c r n s : chunk_wf c -> s ∈ chunk_samples column_index k c r n ->
  t_min (stats c) <= ss_timestamp s <= t_max (stats c).
Proof. intros Hc (i & _ & Hi)%chunk_samples_elem. apply chunk_bounds; [done|]. by eapply list_elem_of_lookup_2. Qed.

Lemma samples_from_elem k cs s : s ∈ samples_from column_index k cs ->
  exists i c, cs !! i = Some c /\ s ∈ chunk_samples column_index (k + i) c 0 (rows c).
Proof.
  revert k. induction cs as [|c cs IH]; intros k Hs; cbn [samples_from] in Hs; [by apply not_elem_of_nil in Hs|].
  apply elem_of_app in Hs as [Hs|Hs].
  - exists 0%nat, c. by rewrite Nat.add_0_r.
  - destruct (IH (S k) Hs) as (i & c' & Hi & Hin). exists (S i), c'. by rewrite Nat.add_succ_r.
Qed.

(** The samples of the later chunks are not before those of a chunk. *)
Lemma samples_from_later k c cs s : deque_wf (c :: cs) -> s ∈ samples_from column_index k cs ->
  t_max (stats c) <= ss_timestamp s.
Proof.
  intros H (i & c' & Hi & Hin)%samples_from_elem. pose proof (deque_wf_cons _ _ H) as [_ Hcs].
  pose proof (deque_wf_le (c :: cs) 0 (S i) c c' H ltac:(lia) eq_refl Hi).
  pose proof (chunk_samples_bounds _ _ _ _ _ (deque_wf_lookup _ _ _ Hcs Hi) Hin). lia.
Qed.

Lemma chunk_samples_sorted k c r n : chunk_wf c -> sorted (map ss_timestamp (chunk_samples column_index k c r n)).
Proof.
  intros Hc. revert r. induction n as [|n IH]; intros r; [constructor|].
  unfold chunk_samples. cbn [seq omap list_omap]. destruct (sample k c r) as [s|] eqn:Es; [|apply IH].
  cbn [map]. constructor; [apply IH|]. apply Forall_map, Forall_forall. intros s' Hs'.
  destruct (chunk_samples_elem _ _ _ _ _ Hs') as (i & Hi & Hx).
  assert (s ∈ chunk_samples column_index k c r 1) as Hs.
  { unfold chunk_samples. cbn [seq omap list_omap]. rewrite Es. left. }
  destruct (chunk_samples_elem _ _ _ _ _ Hs) as (j & Hj & Hy).
  apply (sorted_lookup _ j i _ _ (cw_sorted _ Hc)); [lia|done|done].
Qed.

(** A series is in time order. *)
Lemma samples_sorted k cs : deque_wf cs -> sorted (map ss_timestamp (samples_from column_index k cs)).
Proof.
  revert k. induction cs as [|c cs IH]; intros k H; [constructor|].
  pose proof (deque_wf_cons _ _ H) as [Hc Hcs]. cbn [samples_from]. rewrite map_app. apply sorted_app_iff.
  split_and!; [by apply chunk_samples_sorted|by apply IH|].
  intros x y Hx Hy. apply list_elem_of_fmap in Hx as (s & -> & Hs). apply list_elem_of_fmap in Hy as (s' & -> & Hs').
  pose proof (chunk_samples_bounds _ _ _ _ _ Hc Hs). pose proof (samples_from_later _ _ _ _ H Hs'). lia.
Qed.

(** *** size and sampleAt *)

Lemma count_rows_ok k c r n count : good c -> (r + n <= rows c)%nat ->
  SeriesReader.count_rows column_index c (seq r n) count
  = Some (count + length (chunk_samples column_index k c r n))%nat.
Proof.
  intros [Hc Hd]. revert r count. induction n as [|n IH]; intros r count Hr.
  { cbn. by rewrite Nat.add_0_r. }
  unfold chunk_samples. cbn [seq SeriesReader.count_rows omap list_omap].
  destruct (row_cases k c r Hc Hd ltac:(lia)) as (x & _ & [[-> ->]|(v & -> & ->)]);
    cbn [mbind option_bind]; rewrite IH by lia; unfold chunk_samples; f_equal; cbn [length]; lia.
Qed.

Lemma has_column_false c r n k : SeriesReader.has_column column_index c = false ->
  chunk_samples column_index k c r n = [].
Proof. intros H%bool_decide_eq_false. apply chunk_samples_nil. lia. Qed.

Lemma size_loop_ok k cs count : Forall good cs ->
  SeriesReader.size_loop column_index cs count = Some (count + length (samples_from column_index k cs))%nat.
Proof.
  intros H. revert k count. induction H as [|c cs Hc _ IH]; intros k count; cbn [SeriesReader.size_loop samples_from].
  { cbn. by rewrite Nat.add_0_r. }
  rewrite length_app. destruct (SeriesReader.has_column column_index c) eqn:E.
  - rewrite (count_rows_ok k) by (done || lia). cbn [mbind option_bind]. rewrite (IH (S k)). f_equal. lia.
  - rewrite (IH (S k)), has_column_false by done. done.
Qed.

Lemma sampleAt_rows_ok k c r n index si : good c -> (r + n <= rows c)%nat -> (si <= index)%nat ->
  SeriesReader.sampleAt_rows column_index k c (seq r n) index si
  = Some (match chunk_samples column_index k c r n !! (index - si)%nat with
          | Some s => inl s
          | None => inr (si + length (chunk_samples column_index k c r n))%nat
          end).
Proof.
  intros [Hc Hd]. revert r si. induction n as [|n IH]; intros r si Hr Hsi.
  { cbn. by rewrite Nat.add_0_r. }
  unfold chunk_samples. cbn [seq SeriesReader.sampleAt_rows omap list_omap].
  destruct (row_cases k c r Hc Hd ltac:(lia)) as (x & _ & [[-> ->]|(v & -> & ->)]); cbn [mbind option_bind].
  { by apply IH; [lia|]. }
  destruct (Nat.eqb_spec si index) as [->|Hne].
  - by rewrite Nat.sub_diag.
  - rewrite IH by lia. replace (index - si)%nat with (S (index - S si)) by lia. cbn [lookup list_lookup length].
    unfold chunk_samples. rewrite Nat.add_succ_r. done.
Qed.

Lemma sampleAt_loop_ok k cs index si : Forall good cs -> (si <= index)%nat ->
  SeriesReader.sampleAt_loop column_index k cs index si = Some (samples_from column_index k cs !! (index - si)%nat).
Proof.
  intros H. revert k si. induction H as [|c cs Hc _ IH]; intros k si Hsi;
    cbn [SeriesReader.sampleAt_loop samples_from]; [done|].
  destruct (SeriesReader.has_column column_index c) eqn:E.
  - rewrite sampleAt_rows_ok by (done || lia). cbn [mbind option_bind].
    destruct (chunk_samples column_index k c 0 (rows c) !! (index - si)%nat) as [s|] eqn:El.
    + by rewrite (lookup_app_l_Some _ _ _ _ El).
    + apply lookup_ge_None in El. rewrite IH, lookup_app_r by lia. f_equal. f_equal. lia.
  - rewrite IH, has_column_false by done. done.
Qed.

(** *** Searching by time *)

Abbreviation not_after t := (filter (fun s => ss_timestamp s <= t)).

Lemma not_after_none t l : Forall (fun s => t < ss_timestamp s) l -> not_after t l = [].
Proof. intros H. apply filter_none. eapply Forall_impl; [exact H|]. simpl. lia. Qed.

Lemma last_index_add latest si n m :
  last_index (last_index latest si n) (si + n) m = last_index latest si (n + m).
Proof. destruct n, m; simpl; rewrite ?Nat.add_0_r; try done; f_equal; lia. Qed.

Lemma before_rows_ok k c r n t latest si : good c -> (r + n <= rows c)%nat ->
  let l := chunk_samples column_index k c r n in
  SeriesReader.before_rows column_index c (seq r n) t latest si
    = Some (inr (last_index latest si (length l), si + length l)%nat) /\ not_after t l = l
  \/ SeriesReader.before_rows column_index c (seq r n) t latest si
    = Some (inl (last_index latest si (length (not_after t l)))) /\ t < t_max (stats c).
Proof.
  intros [Hc Hd]. revert r latest si. induction n as [|n IH]; intros r latest si Hr.
  { left. cbn. by rewrite Nat.add_0_r. }
  cbv zeta. unfold chunk_samples. cbn [seq SeriesReader.before_rows].
  change (omap (sample k c) (r :: seq (S r) n)) with
    (match sample k c r with Some s => s :: chunk_samples column_index k c (S r) n | None => chunk_samples column_index k c (S r) n end).
  destruct (row_cases k c r Hc Hd ltac:(lia)) as (x & Hx & Hcase). unfold Chunk.readTimestamp. rewrite Hx. cbn [mbind option_bind].
  destruct (Z.ltb_spec t x) as [Hlt|Hge].
  - right. pose proof (chunk_bounds c x Hc (list_elem_of_lookup_2 _ _ _ Hx)). split; [|lia].
    rewrite not_after_none; [done|]. apply Forall_forall. intros s Hs.
    assert (Hs' : s ∈ chunk_samples column_index k c r (S n)) by done.
    apply chunk_samples_elem in Hs' as (i & Hi & Hy).
    pose proof (sorted_lookup _ r i _ _ (cw_sorted _ Hc) ltac:(lia) Hx Hy). lia.
  - destruct Hcase as [[-> ->]|(v & -> & ->)]; cbn [mbind option_bind].
    + apply IH; lia.
    + rewrite filter_cons_True by done.
      destruct (IH (S r) (Some si) (S si) ltac:(lia)) as [[-> ->]|[-> Hmax]]; [left|right]; (split; [|done]);
        cbn [length]; rewrite <- (last_index_add latest si 1), ?Nat.add_1_r; cbn [last_index];
        rewrite ?Nat.add_0_r, ?Nat.add_succ_r; done.
Qed.

Lemma before_loop_ok k cs t latest si : deque_wf cs -> Forall (column_defined column_index) cs ->
  SeriesReader.before_loop column_index cs t latest si
  = Some (last_index latest si (length (not_after t (samples_from column_index k cs)))).
Proof.
  intros H Hd. revert k latest si H. induction Hd as [|c cs Hdc _ IH]; intros k latest si H; [done|].
  pose proof (deque_wf_cons _ _ H) as [Hc Hcs]. cbn [SeriesReader.before_loop samples_from].
  pose proof (chunk_not_empty c Hc). pose proof (cw_rows _ Hc).
  replace (row_count (stats c) =? 0) with false by (symmetry; apply Z.eqb_neq; lia). cbn [orb].
  destruct (SeriesReader.has_column column_index c) eqn:E; cbn [negb]; rewrite filter_app, length_app.
  2: { rewrite (IH (S k)) by done. by rewrite has_column_false. }
  assert (Hlate : t < t_max (stats c) -> not_after t (samples_from column_index (S k) cs) = []).
  { intros Ht. apply not_after_none, Forall_forall. intros s Hs.
    pose proof (samples_from_later _ _ _ _ H Hs). lia. }
  pose proof (chunk_min_max c Hc). destruct (Z.ltb_spec t (t_min (stats c))) as [Hlt|Hge].
  - rewrite Hlate by lia. rewrite not_after_none; [done|]. apply Forall_forall. intros s Hs.
    pose proof (chunk_samples_bounds _ _ _ _ _ Hc Hs). lia.
  - destruct (before_rows_ok k c 0 (rows c) t latest si ltac:(done) ltac:(lia)) as [[-> Hl]|[-> Hmax]]; cbn [mbind option_bind].
    + rewrite (IH (S k)) by done. by rewrite last_index_add, Hl.
    + rewrite Hlate by done. by rewrite Nat.add_0_r.
Qed.

(** The first sample at or after a time, counted from [si]. *)
Definition first_index (t : Z) (si : nat) (l : list SeriesSample) : option nat :=
  (fun p => (si + p.1)%nat) <$> list_find (fun s => t <= ss_timestamp s) l.

Lemma first_index_cons t si s l : first_index t si (s :: l) = if t <=? ss_timestamp s then Some si else first_index t (S si) l.
Proof.
  unfold first_index. cbn [list_find]. destruct (Z.leb_spec t (ss_timestamp s)).
  - rewrite decide_True by done. cbn. by rewrite Nat.add_0_r.
  - rewrite decide_False by lia. destruct (list_find _ l) as [[i x]|]; cbn; [f_equal; lia|done].
Qed.

Lemma first_index_app t si l l' : first_index t si (l ++ l') =
  match first_index t si l with Some i => Some i | None => first_index t (si + length l) l' end.
Proof.
  revert si. induction l as [|s l IH]; intros si.
  { cbn [app length]. by rewrite Nat.add_0_r. }
  cbn [app]. rewrite !first_index_cons. destruct (t <=? ss_timestamp s); [done|].
  rewrite IH. cbn [length]. by rewrite Nat.add_succ_r.
Qed.

Lemma first_index_none t si l : Forall (fun s => ss_timestamp s < t) l -> first_index t si l = None.
Proof.
  intros H. revert si. induction H as [|s l Hs _ IH]; intros si; [done|].
  rewrite first_index_cons. destruct (Z.leb_spec t (ss_timestamp s)); [lia|]. apply IH.
Qed.

Lemma after_rows_ok k c r n t si : good c -> (r + n <= rows c)%nat ->
  SeriesReader.after_rows column_index c (seq r n) t si
  = Some (match first_index t si (chunk_samples column_index k c r n) with
          | Some i => inl i
          | None => inr (si + length (chunk_samples column_index k c r n))%nat
          end).
Proof.
  intros [Hc Hd]. revert r si. induction n as [|n IH]; intros r si Hr.
  { cbn. by rewrite Nat.add_0_r. }
  unfold chunk_samples. cbn [seq SeriesReader.after_rows omap list_omap].
  destruct (row_cases k c r Hc Hd ltac:(lia)) as (x & Hx & [[-> ->]|(v & -> & ->)]); cbn [mbind option_bind].
  { by apply IH; lia. }
  unfold Chunk.readTimestamp. rewrite Hx. cbn [mbind option_bind]. rewrite first_index_cons. cbn [ss_timestamp].
  destruct (t <=? x); [done|]. rewrite IH by lia. cbn [length]. by rewrite Nat.add_succ_r.
Qed.

Lemma after_loop_ok k cs t si : Forall good cs ->
  SeriesReader.after_loop column_index cs t si = Some (first_index t si (samples_from column_index k cs)).
Proof.
  intros H. revert k si. induction H as [|c cs [Hc Hd] _ IH]; intros k si; [done|].
  cbn [SeriesReader.after_loop samples_from].
  pose proof (chunk_not_empty c Hc). pose proof (cw_rows _ Hc).
  replace (row_count (stats c) =? 0) with false by (symmetry; apply Z.eqb_neq; lia). cbn [orb].
  rewrite first_index_app. destruct (SeriesReader.has_column column_index c) eqn:E; cbn [negb].
  2: { rewrite (IH (S k)), has_column_false by done. cbn. by rewrite Nat.add_0_r. }
  destruct (Z.ltb_spec (t_max (stats c)) t) as [Hlt|Hge].
  - rewrite (count_rows_ok k) by (try lia; by split). cbn [mbind option_bind]. rewrite (IH (S k)).
    rewrite (first_index_none t si (chunk_samples _ _ _ _ _)); [done|]. apply Forall_forall. intros s Hs.
    pose proof (chunk_samples_bounds _ _ _ _ _ Hc Hs). lia.
  - rewrite (after_rows_ok k) by (try lia; by split). cbn [mbind option_bind].
    destruct (first_index t si _); [done|]. apply IH.
Qed.

End Series.

(** ** The reader implements the list *)

Definition series_ok (chunks : list TopicChunk) (column_index : nat) : Prop :=
  deque_wf chunks /\ Forall (column_defined column_index) chunks.

Lemma series_ok_good chunks ci : series_ok chunks ci ->
  Forall (fun c => chunk_wf c /\ column_defined ci c) chunks.
Proof. intros [H Hd]. apply Forall_and. split; [by apply deque_wf_forall|done]. Qed.

Lemma size_samples chunks ci : series_ok chunks ci -> SeriesReader.size chunks ci = Some (length (samples chunks ci)).
Proof. intros H. unfold SeriesReader.size. by rewrite (size_loop_ok ci 0) by (by apply series_ok_good). Qed.

Lemma sampleAt_samples chunks ci i : series_ok chunks ci ->
  SeriesReader.sampleAt chunks ci i = Some (samples chunks ci !! i).
Proof.
  intros H. unfold SeriesReader.sampleAt. rewrite sampleAt_loop_ok by (try lia; by apply series_ok_good).
  by rewrite Nat.sub_0_r.
Qed.

Lemma sorted_split {A} (f : A -> Z) t (l : list A) : sorted (map f l) ->
  exists a b, l = a ++ b /\ Forall (fun s => f s <= t) a /\ Forall (fun s => t < f s) b.
Proof.
  induction l as [|s l IH]; intros H; [by exists [], []|]. cbn [map] in H. inversion_clear H as [|? ? Hs Hall].
  destruct (decide (f s <= t)) as [Hle|Hgt].
  - destruct (IH Hs) as (a & b & -> & Ha & Hb). exists (s :: a), b. split_and!; [done|by constructor|done].
  - exists [], (s :: l). split_and!; [done|constructor|]. rewrite Forall_map in Hall. constructor; [lia|].
    eapply Forall_impl; [exact Hall|]. simpl. lia.
Qed.

Lemma filter_split {A} (P : A -> Prop) `{!forall x, Decision (P x)} a b :
  Forall P a -> Forall (fun x => ~ P x) b -> filter P (a ++ b) = a.
Proof. apply last_filter_app. Qed.

(** The reader's sample at or before a time is the last sample of the
    series not after it: the indices it computes agree with the positions
    [sampleAt] counts. *)
Theorem sampleAtOrBefore_samples chunks ci t : series_ok chunks ci ->
  SeriesReader.sampleAtOrBeforeTime chunks ci t
  = Some (last (filter (fun s => ss_timestamp s <= t) (samples chunks ci))).
Proof.
  intros H. pose proof H as [Hwf Hd]. unfold SeriesReader.sampleAtOrBeforeTime, SeriesReader.indexAtOrBeforeTime.
  rewrite (before_loop_ok ci 0) by done. cbn [mbind option_bind]. fold (samples chunks ci).
  destruct (sorted_split ss_timestamp t (samples chunks ci)) as (a & b & Hab & Ha & Hb); [by apply samples_sorted|].
  assert (Hf : filter (fun s => ss_timestamp s <= t) (samples chunks ci) = a).
  { rewrite Hab. apply filter_split; [done|]. eapply Forall_impl; [exact Hb|]. simpl. lia. }
  rewrite Hf. destruct a as [|s a' _] using rev_ind; [done|].
  rewrite length_app. cbn [length]. rewrite Nat.add_1_r. cbn [last_index]. rewrite sampleAt_samples by done.
  rewrite Hab, last_snoc, <- app_assoc. cbn [app]. rewrite Nat.add_0_l. by rewrite list_lookup_middle.
Qed.

(** The reader's sample at or after a time is the first sample of the
    series not before it. *)
Theorem sampleAtOrAfter_samples chunks ci t : series_ok chunks ci ->
  SeriesReader.sampleAtOrAfterTime chunks ci t
  = Some (head (filter (fun s => t <= ss_timestamp s) (samples chunks ci))).
Proof.
  intros H. unfold SeriesReader.sampleAtOrAfterTime, SeriesReader.indexAtOrAfterTime.
  rewrite (after_loop_ok ci 0) by (by apply series_ok_good). cbn [mbind option_bind]. fold (samples chunks ci).
  unfold first_index. destruct (list_find _ _) as [[i s]|] eqn:E; cbn.
  - rewrite sampleAt_samples by done. apply list_find_Some in E as (Hi & Hs & Hbefore). rewrite Hi. f_equal.
    rewrite <- (take_drop_middle _ _ _ Hi), filter_app, filter_cons_True by done.
    rewrite filter_none; [done|]. apply Forall_lookup. intros j y Hj. apply lookup_take_Some in Hj as [Hj Hlt]. by apply (Hbefore j).
  - apply list_find_None in E. by rewrite filter_none.
Qed.

(** ** The cursor *)

Section CursorFacts.
Context (chunks : list TopicChunk) (lo hi : Z) (column_index : nat).
Context (Hok : series_ok chunks column_index).

Abbreviation range := (mkRange lo hi).
Abbreviation sample := (SeriesCursor.makeSeriesSample column_index).
Abbreviation in_range := (filter (fun s => lo <= ss_timestamp s <= hi)).

(** The samples from a position on. *)
Definition samples_at (k r : nat) : list SeriesSample :=
  match drop k chunks with
  | [] => []
  | c :: cs => chunk_samples column_index k c r (rows c - r) ++ samples_from column_index (S k) cs
  end.

Lemma samples_at_0 k : samples_at k 0 = samples_from column_index k (drop k chunks).
Proof. unfold samples_at. destruct (drop k chunks); [done|]. by rewrite Nat.sub_0_r. Qed.

Lemma in_range_none l : Forall (fun s => ss_timestamp s < lo \/ hi < ss_timestamp s) l -> in_range l = [].
Proof. intros H. apply filter_none. eapply Forall_impl; [exact H|]. simpl. lia. Qed.

Lemma chunk_samples_step k c r n : chunk_samples column_index k c r (S n) =
  match sample k c r with
  | Some s => s :: chunk_samples column_index k c (S r) n
  | None => chunk_samples column_index k c (S r) n
  end.
Proof. done. Qed.

Lemma scan_rows_ok k c r n : chunk_wf c -> column_defined column_index c -> (r + n = rows c)%nat ->
  exists scan, SeriesCursor.scan_rows column_index range n c r = Some scan
    /\ match scan with
       | NoSample => in_range (chunk_samples column_index k c r n) = []
       | PastRange _ => in_range (chunk_samples column_index k c r n) = [] /\ hi < t_max (stats c)
       | Found r' => exists s, (r' < rows c)%nat /\ sample k c r' = Some s
           /\ in_range (chunk_samples column_index k c r n)
              = s :: in_range (chunk_samples column_index k c (S r') (rows c - S r'))
       end.
Proof.
  intros Hc Hd. revert r. induction n as [|n IH]; intros r Hr; [by exists NoSample|].
  cbn [SeriesCursor.scan_rows]. rewrite chunk_samples_step.
  destruct (row_cases column_index k c r Hc Hd ltac:(lia)) as (x & Hx & Hcase).
  destruct (IH (S r) ltac:(lia)) as (scan & Escan & Hscan).
  unfold Chunk.readTimestamp. rewrite Hx. cbn [mbind option_bind range_min range_max].
  destruct (Z.ltb_spec x lo) as [Hlt|Hge].
  { exists scan. split; [done|]. destruct Hcase as [[_ ->]|(v & _ & ->)]; [done|].
    rewrite filter_cons_False by (simpl; lia). done. }
  destruct (Z.ltb_spec hi x) as [Hgt|Hle].
  { exists (PastRange r). split; [done|]. pose proof (chunk_bounds c x Hc (list_elem_of_lookup_2 _ _ _ Hx)).
    split; [|lia]. rewrite <- chunk_samples_step. apply in_range_none, Forall_forall.
    intros s (i & Hi & Hy)%chunk_samples_elem. pose proof (sorted_lookup _ r i _ _ (cw_sorted _ Hc) ltac:(lia) Hx Hy). lia. }
  destruct Hcase as [[-> ->]|(v & -> & Hs)]; cbn [mbind option_bind]; [by exists scan|].
  exists (Found r). split; [done|]. eexists. rewrite Hs. split_and!; [lia|done|].
  rewrite filter_cons_True by (simpl; lia). by replace (rows c - S r)%nat with n by lia.
Qed.

(** What [skipToSample] establishes: the cursor is exhausted and no sample is
    left, or it stands on the next one. *)
Definition stands (c : SeriesCursorState) (l : list SeriesSample) : Prop :=
  SeriesCursor.valid chunks c = false /\ l = []
  \/ exists s, SeriesCursor.valid chunks c = true /\ SeriesCursor.current chunks column_index c = Some s
       /\ l = s :: in_range (samples_at (sc_chunk c) (S (sc_row c))).

Lemma later_none k c cs : deque_wf (c :: cs) -> hi < t_max (stats c) -> in_range (samples_from column_index k cs) = [].
Proof.
  intros H Hhi. apply in_range_none, Forall_forall. intros s Hs.
  pose proof (samples_from_later _ _ _ _ _ H Hs). lia.
Qed.

Lemma exhausted_stands r : stands (mkCursor (length chunks) r) [].
Proof. left. split; [|done]. apply bool_decide_eq_false. simpl. lia. Qed.

Lemma skip_loop_ok todo k r : todo = drop k chunks ->
  (forall c, chunks !! k = Some c -> (r <= rows c)%nat) ->
  exists c, SeriesCursor.skip_loop chunks column_index range todo k r = Some c /\ stands c (in_range (samples_at k r)).
Proof.
  destruct Hok as [Hwf Hd]. revert k r. induction todo as [|c todo IH]; intros k r Htodo Hr.
  { exists (mkCursor k r). split; [done|]. left. unfold samples_at. rewrite <- Htodo. split; [|done].
    apply bool_decide_eq_false. pose proof (f_equal length Htodo) as Hl. rewrite length_drop in Hl. simpl in *. lia. }
  assert (Hk : chunks !! k = Some c) by (rewrite <- (Nat.add_0_r k), <- lookup_drop, <- Htodo; done).
  assert (Htodo' : todo = drop (S k) chunks) by (rewrite (drop_S _ _ _ Hk) in Htodo; congruence).
  destruct (IH (S k) 0%nat Htodo' ltac:(lia)) as (c' & Ec' & Hc').
  assert (Hat : samples_at k r = chunk_samples column_index k c r (rows c - r) ++ samples_from column_index (S k) todo).
  { unfold samples_at. by rewrite <- Htodo. }
  assert (Hdq : deque_wf (c :: todo)) by (rewrite Htodo; by apply deque_wf_drop).
  pose proof (deque_wf_cons _ _ Hdq) as [Hc _]. pose proof (Forall_lookup_1 _ _ _ _ Hd Hk) as Hdc.
  rewrite samples_at_0, <- Htodo' in Hc'. pose proof (Hr c Hk).
  cbn [SeriesCursor.skip_loop range_min range_max]. rewrite Hat, filter_app.
  pose proof (chunk_not_empty c Hc). pose proof (cw_rows _ Hc).
  replace (row_count (stats c) =? 0) with false by (symmetry; apply Z.eqb_neq; lia). cbn [orb].
  destruct (Z.ltb_spec (t_max (stats c)) lo) as [Hlt|Hge]; cbn [orb].
  { exists c'. split; [done|]. rewrite in_range_none; [done|]. apply Forall_forall. intros s Hs.
    pose proof (chunk_samples_bounds _ _ _ _ _ _ Hc Hs). lia. }
  case_bool_decide as Hcol.
  { exists c'. split; [done|]. by rewrite chunk_samples_nil. }
  pose proof (chunk_min_max c Hc). destruct (Z.ltb_spec hi (t_min (stats c))) as [Hlt|Hge'].
  { eexists. split; [done|]. rewrite (later_none (S k) c todo) by (done || lia). rewrite in_range_none.
    - apply exhausted_stands.
    - apply Forall_forall. intros s Hs. pose proof (chunk_samples_bounds _ _ _ _ _ _ Hc Hs). lia. }
  destruct (scan_rows_ok k c r (rows c - r) Hc Hdc ltac:(lia)) as ([r'|r'|] & -> & Hscan); cbn [mbind option_bind].
  - destruct Hscan as (s & Hr' & Hs & ->). eexists. split; [done|]. right. exists s.
    unfold SeriesCursor.valid, SeriesCursor.current, samples_at. cbn [sc_chunk sc_row].
    split_and!; [by apply bool_decide_eq_true, (lookup_lt_Some _ _ _ Hk)|by rewrite Hk|].
    rewrite <- Htodo. by rewrite filter_app.
  - destruct Hscan as [-> Hhi]. eexists. split; [done|]. rewrite (later_none (S k) c todo) by done. apply exhausted_stands.
  - rewrite Hscan. by exists c'.
Qed.

Lemma skipToSample_ok k r : (forall c, chunks !! k = Some c -> (r <= rows c)%nat) ->
  exists c, SeriesCursor.skipToSample chunks column_index range (mkCursor k r) = Some c
    /\ stands c (in_range (samples_at k r)).
Proof. by apply skip_loop_ok. Qed.

Lemma forEach_loop_ok fuel c l called : stands c l -> (length l <= fuel)%nat ->
  SeriesCursor.forEach_loop chunks column_index range fuel c called = Some (called ++ l).
Proof.
  revert c l called. induction fuel as [|fuel IH]; intros c l called [[Hv ->]|(s & Hv & Hs & ->)] Hl;
    cbn [SeriesCursor.forEach_loop length] in *; rewrite Hv; rewrite ?app_nil_r; try done; [lia|].
  rewrite Hs. cbn [mbind option_bind]. unfold SeriesCursor.advance. rewrite Hv.
  destruct (skipToSample_ok (sc_chunk c) (S (sc_row c))) as (c' & -> & Hc').
  { intros chunk Hk. unfold SeriesCursor.current in Hs. rewrite Hk in Hs. cbn [mbind option_bind] in Hs.
    unfold SeriesCursor.makeSeriesSample, readSeriesValue in Hs. repeat case_decide; try done. lia. }
  cbn [mbind option_bind]. rewrite (IH _ _ _ Hc') by lia. by rewrite <- app_assoc.
Qed.

End CursorFacts.

Lemma length_samples_from ci k cs : (length (samples_from ci k cs) <= RangeCursor.total_rows cs)%nat.
Proof.
  revert k. induction cs as [|c cs IH]; intros k; cbn; [lia|]. rewrite length_app. specialize (IH (S k)).
  unfold RangeCursor.total_rows in IH.
  assert (H : forall r n, (length (chunk_samples ci k c r n) <= n)%nat).
  { intros r n. revert r. induction n as [|n IHn]; intros r; [done|]. rewrite chunk_samples_step.
    destruct (SeriesCursor.makeSeriesSample _ _ _ _); cbn [length]; specialize (IHn (S r)); lia. }
  specialize (H 0%nat (rows c)). lia.
Qed.

Lemma forEach_samples chunks ci tr : series_ok chunks ci ->
  SeriesCursor.forEach chunks ci tr
  = Some (filter (fun s => range_min (normalized tr) <= ss_timestamp s <= range_max (normalized tr)) (samples chunks ci)).
Proof.
  intros H. unfold SeriesCursor.forEach, SeriesCursor.make. destruct (normalized tr) as [lo hi]. cbv zeta.
  destruct (skipToSample_ok chunks lo hi ci H 0 0) as (c & -> & Hc); [lia|]. cbn [mbind option_bind range_min range_max].
  rewrite (forEach_loop_ok chunks lo hi ci H _ _ _ [] Hc).
  - by rewrite samples_at_0, drop_0.
  - rewrite samples_at_0, drop_0, length_filter. apply length_samples_from.
Qed.

(** ** Bounds *)

(** The finite values of samples, and their extremes. *)
Definition finite_values (l : list SeriesSample) : list double :=
  filter (fun v => f64_is_finite v = true) (map ss_value l).

Definition least_of (v : double) (vs : list double) : Prop := v ∈ vs /\ Forall (f64_le v) vs.
Definition greatest_of (v : double) (vs : list double) : Prop := v ∈ vs /\ Forall (fun x => f64_le x v) vs.

(** What [bounds] promises about the samples of the range. *)
Definition bounds_of (l : list SeriesSample) (b : SeriesBounds) : Prop :=
  sample_count b = length l
  /\ Some (range_min (sb_time b)) = ss_timestamp <$> head l
  /\ Some (range_max (sb_time b)) = ss_timestamp <$> last l
  /\ least_of (range_min (sb_value b)) (finite_values l)
  /\ greatest_of (range_max (sb_value b)) (finite_values l).

Record bounds_inv (l : list SeriesSample) (b : SeriesReader.BoundsState) : Prop := {
  bi_count : sample_count (SeriesReader.b_result b) = length l;
  bi_found : SeriesReader.found_time b = negb (bool_decide (l = []));
  bi_time : l <> [] -> Some (range_min (sb_time (SeriesReader.b_result b))) = ss_timestamp <$> head l
    /\ Some (range_max (sb_time (SeriesReader.b_result b))) = ss_timestamp <$> last l;
  bi_value : SeriesReader.found_value b = negb (bool_decide (finite_values l = []));
  bi_extremes : finite_values l <> [] ->
    least_of (range_min (sb_value (SeriesReader.b_result b))) (finite_values l)
    /\ greatest_of (range_max (sb_value (SeriesReader.b_result b))) (finite_values l)
}.

Lemma finite_values_snoc l s : finite_values (l ++ [s])
  = finite_values l ++ (if f64_is_finite (ss_value s) then [ss_value s] else []).
Proof.
  unfold finite_values. rewrite map_app, filter_app. f_equal. cbn [map].
  destruct (f64_is_finite (ss_value s)) eqn:E; [by rewrite filter_cons_True|].
  rewrite filter_cons_False; [done|]. by rewrite E.
Qed.

Lemma finite_values_finite l v : v ∈ finite_values l -> f64_is_finite v = true.
Proof. by intros [? _]%list_elem_of_filter. Qed.

Lemma least_of_snoc m l v : f64_is_finite v = true -> least_of m (finite_values l) ->
  least_of (f64_min m v) (finite_values l ++ [v]).
Proof.
  intros Hv [Hin Hall]. pose proof (finite_values_finite _ _ Hin) as Hm. unfold f64_min, least_of.
  rewrite elem_of_app, Forall_app, Forall_singleton. destruct (f64_lt v m) eqn:E.
  - split_and!; [right; left| |by apply f64_lt_irrefl]. apply Forall_forall. intros x Hx.
    rewrite Forall_forall in Hall. eapply (f64_le_trans v m x); auto using f64_lt_le.
    by eapply finite_values_finite.
  - split_and!; [by left|done|done].
Qed.

Lemma greatest_of_snoc m l v : f64_is_finite v = true -> greatest_of m (finite_values l) ->
  greatest_of (f64_max_of m v) (finite_values l ++ [v]).
Proof.
  intros Hv [Hin Hall]. pose proof (finite_values_finite _ _ Hin) as Hm. unfold f64_max_of, greatest_of.
  rewrite elem_of_app, Forall_app, Forall_singleton. destruct (f64_lt m v) eqn:E.
  - split_and!; [right; left| |by apply f64_lt_irrefl]. apply Forall_forall. intros x Hx.
    rewrite Forall_forall in Hall. eapply (f64_le_trans x m v); auto using f64_lt_le.
    by eapply finite_values_finite.
  - split_and!; [by left|done|done].
Qed.

Lemma bounds_step_inv l b s : sorted (map ss_timestamp (l ++ [s])) -> bounds_inv l b ->
  bounds_inv (l ++ [s]) (SeriesReader.bounds_step b s).
Proof.
  intros Hs [Hcount Hfound Htime Hvalue Hext]. unfold SeriesReader.bounds_step. cbv zeta.
  rewrite Hfound, Hvalue. constructor; cbn.
  - rewrite Hcount, length_app. simpl. lia.
  - rewrite bool_decide_eq_false_2; [done|]. by destruct l.
  - intros _. rewrite last_snoc. destruct l as [|s0 l]; [done|]. rewrite bool_decide_eq_false_2 by done.
    destruct (Htime ltac:(done)) as [Hmin Hmax]. cbn [negb range_min range_max app head] in *.
    assert (Hle : forall x, x ∈ s0 :: l -> ss_timestamp x <= ss_timestamp s).
    { intros x Hx. rewrite app_comm_cons, map_app in Hs. apply sorted_app_iff in Hs as (_ & _ & Hs).
      apply Hs; [by apply list_elem_of_fmap_2|left]. }
    destruct (last (s0 :: l)) as [z|] eqn:El; [|by apply last_None in El]. cbn in Hmin, Hmax |- *. simplify_eq.
    pose proof (Hle s0 ltac:(left)). pose proof (Hle z ltac:(by apply last_Some_elem_of)).
    rewrite Hmin, Hmax. split; f_equal; lia.
  - rewrite finite_values_snoc. destruct (f64_is_finite (ss_value s)); [|by rewrite app_nil_r, orb_false_r].
    rewrite orb_true_r, bool_decide_eq_false_2; [done|]. by destruct (finite_values l).
  - intros Hne. rewrite finite_values_snoc in *. destruct (f64_is_finite (ss_value s)) eqn:Ef.
    2: { rewrite app_nil_r in *. auto. }
    destruct (finite_values l) as [|v vs] eqn:El.
    + rewrite bool_decide_eq_true_2 by done. cbn. unfold least_of, greatest_of. rewrite !Forall_singleton.
      split; (split; [left|by apply f64_lt_irrefl]).
    + rewrite bool_decide_eq_false_2 by done. destruct (Hext ltac:(done)) as [H1 H2]. rewrite <- El in *.
      cbn. split; [by apply least_of_snoc|by apply greatest_of_snoc].
Qed.

Lemma bounds_fold l : sorted (map ss_timestamp l) ->
  bounds_inv l (fold_left SeriesReader.bounds_step l SeriesReader.bounds_init).
Proof.
  induction l as [|s l IH] using rev_ind; intros Hs.
  - by constructor.
  - rewrite fold_left_app. cbn [fold_left]. apply bounds_step_inv; [done|]. apply IH.
    rewrite map_app in Hs. by apply sorted_app_iff in Hs as (? & _).
Qed.

Lemma samples_filter_sorted (P : SeriesSample -> Prop) `{!forall x, Decision (P x)} l :
  sorted (map ss_timestamp l) -> sorted (map ss_timestamp (filter P l)).
Proof.
  induction l as [|s l IH]; intros Hsort; [constructor|]. cbn [map] in Hsort. inversion_clear Hsort as [|? ? Hs Hall].
  rewrite filter_cons. case_decide; [|by apply IH]. cbn [map]. constructor; [by apply IH|].
  rewrite Forall_map, Forall_forall in *. intros x [_ Hx]%list_elem_of_filter. by apply Hall.
Qed.

(** C30: [bounds] over a range, given in either order, is the first and last
    timestamp, the extremes of the finite values and the number of all
    samples of the range; it is [nullopt] exactly when none is finite. *)
Theorem bounds_samples chunks ci tr : series_ok chunks ci ->
  let l := filter (fun s => range_min (normalized tr) <= ss_timestamp s <= range_max (normalized tr)) (samples chunks ci) in
  exists b, SeriesReader.bounds chunks ci tr = Some b
    /\ match b with Some b => bounds_of l b | None => finite_values l = [] end.
Proof.
  intros H l. unfold SeriesReader.bounds. rewrite forEach_samples by done. fold l. cbn [mbind option_bind].
  assert (Hs : sorted (map ss_timestamp l)) by (apply samples_filter_sorted, samples_sorted; by destruct H).
  destruct (bounds_fold l Hs) as [Hcount Hfound Htime Hvalue Hext]. eexists. split; [done|].
  rewrite Hfound, Hvalue. destruct (decide (finite_values l = [])) as [Hf|Hf].
  - by rewrite Hf, andb_false_r.
  - assert (l <> []) by (intros ->; done). rewrite !bool_decide_eq_false_2 by done. cbn.
    destruct (Htime ltac:(done)), (Hext Hf). by split_and!.
Qed.

(** ** Properties of the reader and the cursor *)

(** C29: Iterating a series cursor calls back exactly the samples of the series
    within the (normalized) range, in order: nulls are skipped and the loop
    ends. *)
Theorem series_iteration chunks ci tr : series_ok chunks ci ->
  SeriesCursor.forEach chunks ci tr
  = Some (filter (fun s => range_min (normalized tr) <= ss_timestamp s <= range_max (normalized tr)) (samples chunks ci)).
Proof. apply forEach_samples. Qed.

(** The virtual vector is consistent: [size] is the length of the series,
    and [sampleAt] is its element at every index below it and nothing
    beyond. *)
Theorem series_is_vector chunks ci : series_ok chunks ci ->
  SeriesReader.size chunks ci = Some (length (samples chunks ci))
  /\ SeriesReader.empty chunks ci = Some (bool_decide (samples chunks ci = []))
  /\ forall i, SeriesReader.sampleAt chunks ci i = Some (samples chunks ci !! i).
Proof.
  intros H. split_and!.
  - by apply size_samples.
  - unfold SeriesReader.empty. rewrite size_samples by done. cbn. f_equal. by destruct (samples chunks ci).
  - intros i. by apply sampleAt_samples.
Qed.

(** ** Witnesses *)

Lemma demo_series_ok : series_ok demo_deque 0.
Proof.
  split; [apply demo_deque_wf|]. repeat constructor; intros r Hr.
  - destruct r as [|[|[|r]]]; [vm_compute; eauto..|]. exfalso. vm_compute in Hr. lia.
  - destruct r as [|[|r]]; [vm_compute; eauto..|]. exfalso. vm_compute in Hr. lia.
Qed.

(** The series of column 0: a null at row 1 of the first chunk, and at the
    last row of the second. *)
Definition demo_samples : list SeriesSample :=
  [mkSeriesSample 10 (f64_of_Z 3) 0 0; mkSeriesSample 20 (f64_of_Z (-4)) 0 2; mkSeriesSample 20 (f64_of_Z 9) 1 0].

Lemma series_is_vector_witness : SeriesReader.size demo_deque 0 = Some 3%nat.
Proof. rewrite (proj1 (series_is_vector demo_deque 0 demo_series_ok)). vm_compute. reflexivity. Defined.

Lemma series_iteration_witness : SeriesCursor.forEach demo_deque 0 (mkRange 40 10) = Some demo_samples.
Proof. rewrite (series_iteration demo_deque 0 (mkRange 40 10) demo_series_ok). vm_compute. reflexivity. Defined.

Lemma sampleAtOrBefore_samples_witness :
  SeriesReader.sampleAtOrBeforeTime demo_deque 0 15 = Some (Some (mkSeriesSample 10 (f64_of_Z 3) 0 0)).
Proof. rewrite (sampleAtOrBefore_samples demo_deque 0 15 demo_series_ok). vm_compute. reflexivity. Defined.

Lemma sampleAtOrAfter_samples_witness :
  SeriesReader.sampleAtOrAfterTime demo_deque 0 15 = Some (Some (mkSeriesSample 20 (f64_of_Z (-4)) 0 2)).
Proof. rewrite (sampleAtOrAfter_samples demo_deque 0 15 demo_series_ok). vm_compute. reflexivity. Defined.

Lemma bounds_samples_witness : exists b, SeriesReader.bounds demo_deque 0 SeriesReader.allTime = Some (Some b)
  /\ bounds_of demo_samples b.
Proof.
  destruct (bounds_samples demo_deque 0 SeriesReader.allTime demo_series_ok) as ([b|] & Hb & Hspec).
  - exists b. split; [exact Hb|]. exact Hspec.
  - exfalso. vm_compute in Hspec. discriminate.
Defined.
