(* ===== verification/TopicStorage.v ===== *)
(** * TopicStorage: the committed chunks of one topic

    Models [src/pj_datastore/src/topic_storage.cpp].  The deque of sealed
    chunks is a list, the map of array expansion counts a [gmap].  Every
    operation is a function on the record; the operations that change it are
    also the steps of a transition system, whose reachable states hold the
    invariant the queries of Query.v rely on. *)

From stdpp Require Import gmap strings pretty.
From S2P Require Import Prelude Types Buffer Encoding Column Chunk Query.

Record TopicDescriptor := mkTopicDescriptor {
  name : string; schema_id : Z; dataset_id : Z; max_chunk_rows : Z; array_expansion_limit : Z }.

Record TopicMetadata := mkTopicMetadata {
  meta_topic_id : Z; meta_name : string; current_schema : Z; meta_dataset_id : Z;
  time_range_min : Z; time_range_max : Z; total_row_count : Z; total_byte_size : Z;
  max_observed_array_length : Z; truncated_sample_count : Z }.

Record TopicStorage := mkTopicStorage {
  ts_topic_id : Z;
  descriptor_ : TopicDescriptor;
  sealed_chunks_ : list TopicChunk;
  ts_column_descriptors_ : list ColumnDescriptor;
  max_observed_array_length_ : Z;
  truncated_sample_count_ : Z;
  array_expansion_counts_ : gmap string Z
}.

Module Storage.

Definition make (topic_id : Z) (descriptor : TopicDescriptor) : TopicStorage :=
  mkTopicStorage topic_id descriptor [] [] 0 0 ∅.

(** The record with one member assigned. *)
Definition with_chunks (s : TopicStorage) (cs : list TopicChunk) : TopicStorage :=
  mkTopicStorage (ts_topic_id s) (descriptor_ s) cs (ts_column_descriptors_ s)
    (max_observed_array_length_ s) (truncated_sample_count_ s) (array_expansion_counts_ s).

Definition overlap_message (t_min t_max : Z) : string :=
  "Overlapping chunk: new t_min=" +:+ pretty t_min +:+ " < last t_max=" +:+ pretty t_max.

Definition appendSealedChunk (s : TopicStorage) (chunk : TopicChunk) : TopicStorage * Status :=
  match last (sealed_chunks_ s) with
  | Some back =>
      if t_min (stats chunk) <? t_max (stats back)
      then (s, Err (overlap_message (t_min (stats chunk)) (t_max (stats back))))
      else (with_chunks s (sealed_chunks_ s ++ [chunk]), okStatus)
  | None => (with_chunks s (sealed_chunks_ s ++ [chunk]), okStatus)
  end.

(** [while (end_to_remove < size && ... < t_keep_min) ++end_to_remove] *)
Fixpoint end_to_remove (t_keep_min : Z) (cs : list TopicChunk) : nat :=
  match cs with
  | [] => 0
  | c :: cs' => if t_max (stats c) <? t_keep_min then S (end_to_remove t_keep_min cs') else 0
  end.

Definition evictBefore (s : TopicStorage) (t_keep_min : Z) : TopicStorage :=
  let n := end_to_remove t_keep_min (sealed_chunks_ s) in
  if (0 <? n)%nat then with_chunks s (drop n (sealed_chunks_ s)) else s.

Definition clearChunks (s : TopicStorage) : TopicStorage := with_chunks s [].

Definition setColumnDescriptors (s : TopicStorage) (descs : list ColumnDescriptor) : TopicStorage :=
  mkTopicStorage (ts_topic_id s) (descriptor_ s) (sealed_chunks_ s) descs
    (max_observed_array_length_ s) (truncated_sample_count_ s) (array_expansion_counts_ s).

(** The bytes [std::visit] adds for the data of a column. *)
Definition data_bytes (d : EncodedData) : Z :=
  match d with
  | Raw buf => Z.of_nat (length buf)
  | Dictionary v => Z.of_nat (length (indices v)) + Z.of_nat (sum_list_with length (dictionary v))
  | Packed v => Z.of_nat (length (bits v))
  | Constant v => Z.of_nat (value_size v)
  | FrameOfReference v => Z.of_nat (length (for_offsets v))
  end.

Definition column_bytes (col : ChunkColumn) : Z :=
  data_bytes (col_data col)
  + match validity_bitmap col with Some bm => Z.of_nat (length (bv_bytes bm)) | None => 0 end.

Definition chunk_bytes (c : TopicChunk) : Z :=
  Z.of_nat (length (timestamps c) * 8) + foldr (fun col n => column_bytes col + n) 0 (columns c).

(** The two [uint64_t] totals. *)
Definition totals (cs : list TopicChunk) : Z * Z :=
  fold_left (fun '(row_total, byte_total) c =>
    (u64 (row_total + row_count (stats c)), u64 (byte_total + chunk_bytes c))) cs (0, 0).

Definition metadata (s : TopicStorage) : TopicMetadata :=
  let d := descriptor_ s in
  let meta lo hi row_total byte_total :=
    mkTopicMetadata (ts_topic_id s) (name d) (schema_id d) (dataset_id d) lo hi row_total byte_total
      (max_observed_array_length_ s) (truncated_sample_count_ s) in
  match head (sealed_chunks_ s), last (sealed_chunks_ s) with
  | Some front, Some back =>
      let '(row_total, byte_total) := totals (sealed_chunks_ s) in
      meta (t_min (stats front)) (t_max (stats back)) row_total byte_total
  | _, _ => meta 0 0 0 0
  end.

Definition isEmpty (s : TopicStorage) : bool := bool_decide (sealed_chunks_ s = []).

Definition time_min (s : TopicStorage) : Z :=
  match head (sealed_chunks_ s) with Some front => t_min (stats front) | None => 0 end.

Definition time_max (s : TopicStorage) : Z :=
  match last (sealed_chunks_ s) with Some back => t_max (stats back) | None => 0 end.

Definition updateSchema (s : TopicStorage) (new_schema : Z) : TopicStorage :=
  let d := descriptor_ s in
  mkTopicStorage (ts_topic_id s)
    (mkTopicDescriptor (name d) new_schema (dataset_id d) (max_chunk_rows d) (array_expansion_limit d))
    (sealed_chunks_ s) (ts_column_descriptors_ s) (max_observed_array_length_ s)
    (truncated_sample_count_ s) (array_expansion_counts_ s).

Definition updateMaxObservedArrayLength (s : TopicStorage) (observed_length : Z) : TopicStorage :=
  if max_observed_array_length_ s <? observed_length then
    mkTopicStorage (ts_topic_id s) (descriptor_ s) (sealed_chunks_ s) (ts_column_descriptors_ s)
      observed_length (truncated_sample_count_ s) (array_expansion_counts_ s)
  else s.

Definition incrementTruncatedSampleCount (s : TopicStorage) : TopicStorage :=
  mkTopicStorage (ts_topic_id s) (descriptor_ s) (sealed_chunks_ s) (ts_column_descriptors_ s)
    (max_observed_array_length_ s) (u32 (truncated_sample_count_ s + 1)) (array_expansion_counts_ s).

Definition arrayExpansionCount (s : TopicStorage) (field_path : string) : Z :=
  default 0 (array_expansion_counts_ s !! field_path).

Definition setArrayExpansionCount (s : TopicStorage) (field_path : string) (count : Z) : TopicStorage :=
  mkTopicStorage (ts_topic_id s) (descriptor_ s) (sealed_chunks_ s) (ts_column_descriptors_ s)
    (max_observed_array_length_ s) (truncated_sample_count_ s)
    (<[field_path := count]> (array_expansion_counts_ s)).

(** ** The operations as steps *)

(** One call on a storage, or one move of [DataEngine::flushTo], a friend that
    takes the chunks out of a storage ([step_clear]) and puts them behind those
    of another, if that has none or ends no later than they begin
    ([step_extend]).  The chunks that enter are as a builder seals them. *)
Inductive step : TopicStorage -> TopicStorage -> Prop :=
| step_append s chunk : chunk_wf chunk -> step s (appendSealedChunk s chunk).1
| step_extend d s : deque_wf (sealed_chunks_ s) -> sealed_chunks_ d = [] \/ time_max d <= time_min s ->
    step d (with_chunks d (sealed_chunks_ d ++ sealed_chunks_ s))
| step_evict s t : step s (evictBefore s t)
| step_clear s : step s (clearChunks s)
| step_columns s descs : step s (setColumnDescriptors s descs)
| step_schema s schema : step s (updateSchema s schema)
| step_max_observed s n : step s (updateMaxObservedArrayLength s n)
| step_truncated s : step s (incrementTruncatedSampleCount s)
| step_expansion s field_path n : step s (setArrayExpansionCount s field_path n).

Definition reachable (s : TopicStorage) : Prop :=
  exists topic_id descriptor, rtc step (make topic_id descriptor) s.

End Storage.

(** ** Facts *)

Lemma deque_wf_snoc cs c : deque_wf cs -> chunk_wf c ->
  (forall back, last cs = Some back -> t_max (stats back) <= t_min (stats c)) -> deque_wf (cs ++ [c]).
Proof.
  intros H Hc. induction H as [|b Hb|b b' cs Hb Hle Hcs IH]; intros Hlast; cbn [app].
  - by constructor.
  - constructor; [done|by apply Hlast|by constructor].
  - constructor; [done|done|]. by apply IH.
Qed.

Lemma appendSealedChunk_wf s chunk : deque_wf (sealed_chunks_ s) -> chunk_wf chunk ->
  deque_wf (sealed_chunks_ (Storage.appendSealedChunk s chunk).1).
Proof.
  intros H Hc. unfold Storage.appendSealedChunk. destruct (last (sealed_chunks_ s)) as [back|] eqn:E.
  - destruct (Z.ltb_spec (t_min (stats chunk)) (t_max (stats back))); [done|]. cbn.
    apply deque_wf_snoc; [done|done|]. intros b Hb. by simplify_eq.
  - cbn. apply deque_wf_snoc; [done|done|]. intros b Hb. congruence.
Qed.

Lemma end_to_remove_filter t cs : deque_wf cs ->
  drop (Storage.end_to_remove t cs) cs = filter (fun c => t <= t_max (stats c)) cs.
Proof.
  induction cs as [|c cs IH]; intros H; [done|]. cbn [Storage.end_to_remove]. rewrite filter_cons.
  pose proof (deque_wf_cons _ _ H) as [Hc Hcs]. destruct (Z.ltb_spec (t_max (stats c)) t).
  - rewrite decide_False by lia. by apply IH.
  - rewrite decide_True by lia. cbn [drop]. f_equal. symmetry. clear IH.
    assert (Hall : Forall (fun c => t <= t_max (stats c)) cs).
    { apply Forall_lookup. intros i c' Hi. pose proof (deque_wf_le (c :: cs) 0 (S i) c c' H ltac:(lia) eq_refl Hi).
      pose proof (chunk_min_max c' (deque_wf_lookup _ _ _ Hcs Hi)). lia. }
    clear -Hall. induction Hall as [|x l Hx _ IH]; [done|]. by rewrite filter_cons_True, IH.
Qed.

Lemma evictBefore_chunks s t : deque_wf (sealed_chunks_ s) ->
  sealed_chunks_ (Storage.evictBefore s t) = filter (fun c => t <= t_max (stats c)) (sealed_chunks_ s).
Proof.
  intros H. rewrite <- end_to_remove_filter by done. unfold Storage.evictBefore.
  destruct (Storage.end_to_remove t (sealed_chunks_ s)) as [|n] ; done.
Qed.

Lemma evictBefore_wf s t : deque_wf (sealed_chunks_ s) -> deque_wf (sealed_chunks_ (Storage.evictBefore s t)).
Proof.
  intros H. rewrite evictBefore_chunks, <- end_to_remove_filter by done. by apply deque_wf_drop.
Qed.

Lemma deque_wf_app cs cs' : deque_wf cs -> deque_wf cs' ->
  (forall a b, last cs = Some a -> head cs' = Some b -> t_max (stats a) <= t_min (stats b)) -> deque_wf (cs ++ cs').
Proof.
  intros H H'. induction H as [|b Hb|b b' cs Hb Hle Hcs IH]; intros Hlast; cbn [app]; [done| |].
  - destruct cs' as [|c cs']; [by constructor|]. constructor; [done| |done]. by apply Hlast.
  - constructor; [done..|]. apply IH. intros a c Ha Hc. apply Hlast; [|done]. by rewrite last_cons_cons.
Qed.

Lemma extend_wf d s : deque_wf (sealed_chunks_ s) -> deque_wf (sealed_chunks_ d) ->
  sealed_chunks_ d = [] \/ Storage.time_max d <= Storage.time_min s -> deque_wf (sealed_chunks_ d ++ sealed_chunks_ s).
Proof.
  intros Hs Hd Hord. apply deque_wf_app; [done..|]. intros a b Ha Hb. destruct Hord as [He|Hle]; [by rewrite He in Ha|].
  unfold Storage.time_max, Storage.time_min in Hle. by rewrite Ha, Hb in Hle.
Qed.

Lemma step_wf s s' : Storage.step s s' -> deque_wf (sealed_chunks_ s) -> deque_wf (sealed_chunks_ s').
Proof.
  intros Hstep H. destruct Hstep; try done.
  - by apply appendSealedChunk_wf.
  - by apply extend_wf.
  - by apply evictBefore_wf.
  - constructor.
  - unfold Storage.updateMaxObservedArrayLength. by destruct (_ <? _).
Qed.

Lemma reachable_wf s : Storage.reachable s -> deque_wf (sealed_chunks_ s).
Proof.
  intros (topic & d & H). remember (Storage.make topic d) as s0 eqn:E.
  assert (H0 : deque_wf (sealed_chunks_ s0)) by (subst; constructor). clear E.
  induction H as [|s0 s1 s2 Hstep _ IH]; [done|]. apply IH. by eapply step_wf.
Qed.

(** The totals of [metadata]. *)
Lemma totals_ok cs : Forall chunk_wf cs ->
  Storage.totals cs = (u64 (Z.of_nat (length (all_rows cs))),
                       u64 (foldr (fun c n => Storage.chunk_bytes c + n) 0 cs)).
Proof.
  intros H. unfold Storage.totals, all_rows.
  assert (Hgen : forall k r b, fold_left (fun '(row_total, byte_total) c =>
      (u64 (row_total + row_count (stats c)), u64 (byte_total + Storage.chunk_bytes c))) cs (u64 r, u64 b)
    = (u64 (r + Z.of_nat (length (all_rows_from k cs))), u64 (b + foldr (fun c n => Storage.chunk_bytes c + n) 0 cs))).
  { induction H as [|c cs Hc _ IH]; intros k r b; cbn [fold_left all_rows_from foldr length].
    - by rewrite !Z.add_0_r.
    - unfold wrapU. rewrite !Zplus_mod_idemp_l. change (?x mod 2 ^ 64) with (u64 x). rewrite (IH (S k)).
      rewrite length_app, length_chunk_rows, (cw_rows _ Hc). f_equal; f_equal; lia. }
  apply (Hgen 0%nat 0 0).
Qed.

Lemma all_rows_from_app k cs cs' :
  all_rows_from k (cs ++ cs') = all_rows_from k cs ++ all_rows_from (k + length cs) cs'.
Proof.
  revert k. induction cs as [|c cs IH]; intros k; cbn [app all_rows_from length].
  - by rewrite Nat.add_0_r.
  - rewrite IH, app_assoc. by rewrite Nat.add_succ_r.
Qed.

Lemma rows_times_shift k j cs : map sr_timestamp (all_rows_from k cs) = map sr_timestamp (all_rows_from j cs).
Proof.
  revert k j. induction cs as [|c cs IH]; intros k j; [done|]. cbn [all_rows_from].
  rewrite !map_app, !chunk_rows_times. f_equal. apply IH.
Qed.

Lemma filter_times lo hi l :
  map sr_timestamp (filter (fun s => lo <= sr_timestamp s <= hi) l)
  = filter (fun t => lo <= t <= hi) (map sr_timestamp l).
Proof.
  induction l as [|s l IH]; [done|]. cbn [map]. rewrite !filter_cons. by case_decide; [cbn [map]; rewrite IH|].
Qed.

Lemma end_to_remove_before t cs :
  Forall (fun c => t_max (stats c) < t) (take (Storage.end_to_remove t cs) cs).
Proof.
  induction cs as [|c cs IH]; [constructor|]. cbn [Storage.end_to_remove].
  destruct (Z.ltb_spec (t_max (stats c)) t); constructor; done.
Qed.

(** Eviction keeps every row at or after its bound. *)
Lemma evictBefore_rows s t lo hi : deque_wf (sealed_chunks_ s) -> t <= lo ->
  map sr_timestamp (filter (fun r => lo <= sr_timestamp r <= hi) (all_rows (sealed_chunks_ (Storage.evictBefore s t))))
  = map sr_timestamp (filter (fun r => lo <= sr_timestamp r <= hi) (all_rows (sealed_chunks_ s))).
Proof.
  intros H Hlo. rewrite evictBefore_chunks, <- end_to_remove_filter by done.
  pose proof (end_to_remove_before t (sealed_chunks_ s)) as Hold.
  set (n := Storage.end_to_remove t (sealed_chunks_ s)) in *.
  assert (Hpre : Forall chunk_wf (take n (sealed_chunks_ s))) by (by apply Forall_take, deque_wf_forall).
  rewrite !filter_times. rewrite <- (take_drop n (sealed_chunks_ s)) at 2. unfold all_rows.
  rewrite all_rows_from_app, map_app, filter_app, (rows_times_shift 0 (0 + length (take n (sealed_chunks_ s)))).
  rewrite (filter_none _ (map sr_timestamp (all_rows_from 0 (take n (sealed_chunks_ s))))); [done|].
  apply Forall_map, Forall_forall. intros r (i & c & Hi & Hin)%elem_of_all_rows_from.
  apply elem_of_chunk_rows in Hin. pose proof (Forall_lookup_1 _ _ _ _ Hold Hi).
  pose proof (chunk_bounds c _ (Forall_lookup_1 _ _ _ _ Hpre Hi) Hin). simpl in *. lia.
Qed.

(** ** Properties *)

(** C25: Whatever calls a storage has seen, and whatever chunks a flush of the
    engine moved in or out of it in their order, as long as every chunk that was
    put in is as a builder seals them: its chunks are in time order, a range
    query over it returns exactly the rows in range, a point query the last row
    not after the time, and the rows are sorted by time. *)
Theorem reachable_queries s : Storage.reachable s ->
  deque_wf (sealed_chunks_ s)
  /\ (forall lo hi, RangeCursor.forEach (sealed_chunks_ s) lo hi
      = Some (filter (fun r => lo <= sr_timestamp r <= hi) (all_rows (sealed_chunks_ s))))
  /\ (forall t, latestAt (sealed_chunks_ s) t = last (filter (fun r => sr_timestamp r <= t) (all_rows (sealed_chunks_ s))))
  /\ sorted (map sr_timestamp (all_rows (sealed_chunks_ s))).
Proof.
  intros H. pose proof (reachable_wf s H) as Hwf. split_and!; [done| | |by apply all_rows_sorted].
  - intros lo hi. by apply range_rows_in_order.
  - intros t. by apply latestAt_rows.
Qed.

(** Appending refuses exactly the chunks that start before the end of the
    last one, without changing the storage, and otherwise adds the rows of the
    chunk behind all others. *)
Theorem appendSealedChunk_spec s chunk : deque_wf (sealed_chunks_ s) -> chunk_wf chunk ->
  let '(s', status) := Storage.appendSealedChunk s chunk in
  match status with
  | Err _ => s' = s /\ exists back, last (sealed_chunks_ s) = Some back /\ t_min (stats chunk) < t_max (stats back)
  | Ok _ => deque_wf (sealed_chunks_ s') /\ all_rows (sealed_chunks_ s')
      = all_rows (sealed_chunks_ s) ++ chunk_rows (length (sealed_chunks_ s)) chunk
  end.
Proof.
  intros H Hc. pose proof (appendSealedChunk_wf s chunk H Hc) as Hwf. unfold Storage.appendSealedChunk in *.
  assert (Hrows : all_rows (sealed_chunks_ s ++ [chunk])
    = all_rows (sealed_chunks_ s) ++ chunk_rows (length (sealed_chunks_ s)) chunk).
  { unfold all_rows. by rewrite all_rows_from_app, Nat.add_0_l; cbn; rewrite app_nil_r. }
  destruct (last (sealed_chunks_ s)) as [back|] eqn:E; [|done].
  destruct (Z.ltb_spec (t_min (stats chunk)) (t_max (stats back))); [|done]. split; [done|]. by exists back.
Qed.

(** Evicting before a time removes exactly the chunks that end before it,
    keeps the invariant, and changes no query at or after that time. *)
Theorem evictBefore_spec s t : deque_wf (sealed_chunks_ s) ->
  let s' := Storage.evictBefore s t in
  sealed_chunks_ s' = filter (fun c => t <= t_max (stats c)) (sealed_chunks_ s)
  /\ deque_wf (sealed_chunks_ s')
  /\ forall lo hi, t <= lo ->
      map sr_timestamp (filter (fun r => lo <= sr_timestamp r <= hi) (all_rows (sealed_chunks_ s')))
      = map sr_timestamp (filter (fun r => lo <= sr_timestamp r <= hi) (all_rows (sealed_chunks_ s))).
Proof.
  intros H. split_and!; [by apply evictBefore_chunks|by apply evictBefore_wf|].
  intros lo hi Hlo. by apply evictBefore_rows.
Qed.

(** The metadata of a reachable storage: the number of its rows and the
    bytes of its chunks modulo 2^64, and the first and last time of its
    rows. *)
Theorem metadata_spec s : Storage.reachable s ->
  let m := Storage.metadata s in
  total_row_count m = u64 (Z.of_nat (length (all_rows (sealed_chunks_ s))))
  /\ total_byte_size m = u64 (foldr (fun c n => Storage.chunk_bytes c + n) 0 (sealed_chunks_ s))
  /\ (time_range_min m, time_range_max m) = (Storage.time_min s, Storage.time_max s)
  /\ forall r, r ∈ all_rows (sealed_chunks_ s) -> time_range_min m <= sr_timestamp r <= time_range_max m.
Proof.
  intros H%reachable_wf. cbv zeta. unfold Storage.metadata, Storage.time_min, Storage.time_max.
  pose proof (totals_ok _ (deque_wf_forall _ H)) as Htot. rewrite Htot.
  destruct (sealed_chunks_ s) as [|front cs] eqn:E.
  { split_and!; try done. intros r Hr. by apply not_elem_of_nil in Hr. }
  destruct (last (front :: cs)) as [back|] eqn:El; [|by apply last_None in El]. cbn [head].
  split_and!; [done|done|done|]. intros r (k & c & Hk & Hin)%elem_of_all_rows_from. cbn [time_range_min time_range_max].
  apply elem_of_chunk_rows in Hin. pose proof (deque_wf_lookup _ _ _ H Hk) as Hc.
  pose proof (chunk_bounds c _ Hc Hin) as Hb. rewrite last_lookup in El. cbn [length pred] in El.
  assert (Hmin : t_min (stats front) <= t_min (stats c)).
  { destruct k as [|k]; [simplify_eq/=; lia|].
    pose proof (deque_wf_le _ 0 (S k) front c H ltac:(lia) eq_refl Hk).
    pose proof (chunk_min_max front (deque_wf_lookup _ 0 front H eq_refl)). lia. }
  assert (Hmax : t_max (stats c) <= t_max (stats back)).
  { destruct (decide (k = length cs)) as [->|Hne]; [simplify_eq/=; lia|].
    pose proof (lookup_lt_Some _ _ _ Hk) as Hlt. cbn [length] in Hlt.
    pose proof (deque_wf_le _ k (length cs) c back H ltac:(lia) Hk El).
    pose proof (chunk_min_max back (deque_wf_lookup _ _ _ H El)). lia. }
  lia.
Qed.

(** ** Witnesses *)

Definition demo_descriptor : TopicDescriptor := mkTopicDescriptor "imu" 1 1 1024 64.

(** Two chunks appended, then an eviction that keeps both. *)
Definition demo_storage : TopicStorage :=
  Storage.evictBefore
    (Storage.with_chunks (Storage.make 1 demo_descriptor) demo_deque) 12.

Lemma demo_storage_reachable : Storage.reachable demo_storage.
Proof.
  exists 1, demo_descriptor. pose proof (deque_wf_forall _ demo_deque_wf) as Hwf.
  eapply rtc_l; [apply (Storage.step_append _ (nth 0 demo_deque (demo_chunk []))); by inversion_clear Hwf|].
  eapply rtc_l; [apply (Storage.step_append _ (nth 1 demo_deque (demo_chunk [])));
    inversion_clear Hwf as [|? ? ? Hwf']; by inversion_clear Hwf'|].
  apply rtc_once. apply (Storage.step_evict (Storage.with_chunks (Storage.make 1 demo_descriptor) demo_deque) 12).
Qed.

Lemma reachable_queries_witness : RangeCursor.forEach (sealed_chunks_ demo_storage) 15 30
  = Some [mkSampleRow 20 0 1; mkSampleRow 20 0 2; mkSampleRow 20 1 0].
Proof.
  destruct (reachable_queries demo_storage demo_storage_reachable) as (_ & H & _).
  rewrite (H 15 30). vm_compute. reflexivity.
Defined.

Lemma appendSealedChunk_spec_witness :
  has_value (Storage.appendSealedChunk demo_storage (nth 0 demo_deque (demo_chunk []))).2 = false
  /\ (Storage.appendSealedChunk demo_storage (nth 0 demo_deque (demo_chunk []))).1 = demo_storage.
Proof.
  pose proof (appendSealedChunk_spec demo_storage (nth 0 demo_deque (demo_chunk []))
    (reachable_wf _ demo_storage_reachable)
    (deque_wf_lookup _ 0 _ demo_deque_wf eq_refl)) as H.
  split; [reflexivity|]. exact (proj1 H).
Defined.

Lemma evictBefore_spec_witness : sealed_chunks_ (Storage.evictBefore demo_storage 25) = drop 1 demo_deque.
Proof.
  rewrite (proj1 (evictBefore_spec demo_storage 25 (reachable_wf _ demo_storage_reachable))).
  vm_compute. reflexivity.
Defined.

Lemma metadata_spec_witness : total_row_count (Storage.metadata demo_storage) = 5.
Proof. rewrite (proj1 (metadata_spec demo_storage demo_storage_reachable)). vm_compute. reflexivity. Defined.
