(* ===== verification/ObjectStore.v ===== *)
(** * ObjectStore: timestamped opaque payloads under a retention budget

    Models [src/pj_datastore/src/object_store.cpp].  The store is the list of
    its (id, series) pairs; the pointer [findSeries] returns is the position of
    the pair.  A lazy payload is a closure: what it captures and the view it
    yields.  Of the anchor that keeps bytes alive only is modelled whether there
    is one.  The mutexes are not: an operation holds the locks it needs from
    start to end, so its steps are whole calls.
    [size_t] is 64 bits wide.  An operation is [None] where the code would call
    [front()] or [erase(begin())] on an empty vector; the invariant shows it
    never does. *)

From S2P Require Import Prelude.

Record ObjectTopicDescriptor := mkObjectTopic {
  od_dataset_id : Z; topic_name : string; metadata_json : string }.

(** A span of bytes, and whether it has an anchor. *)
Record PayloadView := mkPayloadView { view_bytes : bytes; view_anchor : bool }.

Definition makePayloadView (data : bytes) : PayloadView := mkPayloadView data true.

(** A [std::function]: the shared objects its target captured, by address, and its call. *)
Record LazyCallback := mkCallback { captured : list Z; call : unit -> PayloadView }.

Inductive Payload :=
| Owned (data : option bytes)   (* a [SharedBuffer], possibly null *)
| Lazy (fetch : LazyCallback).

Record ObjectEntry := mkEntry { entry_timestamp : Z; payload : Payload }.
Record ResolvedObjectEntry := mkResolved { resolved_timestamp : Z; resolved_payload : PayloadView }.
Record RetentionBudget := mkBudget { time_window_ns : Z; max_memory_bytes : Z }.

Record ObjectSeries := mkSeries {
  descriptor_of : ObjectTopicDescriptor;
  entries : list ObjectEntry;
  entry_timestamps : list Z;
  budget : RetentionBudget;
  memory_bytes : Z
}.

Record ObjectStore := mkStore { topics_ : list (Z * ObjectSeries); next_id_ : Z }.

Definition default_budget : RetentionBudget := mkBudget 0 0.
Definition empty_series (d : ObjectTopicDescriptor) : ObjectSeries := mkSeries d [] [] default_budget 0.

Definition same_topic (d : ObjectTopicDescriptor) (dataset_id : Z) (topic : string) : bool :=
  (od_dataset_id d =? dataset_id) && bool_decide (topic_name d = topic).

Module Series.

Definition with_budget (s : ObjectSeries) (b : RetentionBudget) : ObjectSeries :=
  mkSeries (descriptor_of s) (entries s) (entry_timestamps s) b (memory_bytes s).

(** The bytes of an entry that count against the budget. *)
Definition owned_size (e : ObjectEntry) : Z :=
  match payload e with Owned (Some data) => Z.of_nat (length data) | _ => 0 end.

Definition evictFront (s : ObjectSeries) : option ObjectSeries :=
  match entries s with
  | [] => Some s
  | front :: rest =>
      match entry_timestamps s with
      | [] => None
      | _ :: times =>
          Some (mkSeries (descriptor_of s) rest times (budget s) (u64 (memory_bytes s - owned_size front)))
      end
  end.

(** [while (!series.entries.empty() && cond) evictFront(series);] *)
Fixpoint evict_while (cond : ObjectSeries -> option bool) (fuel : nat) (s : ObjectSeries) : option ObjectSeries :=
  match entries s with
  | [] => Some s
  | _ =>
      go ← cond s;
      if (go : bool) then
        match fuel with
        | O => None
        | S fuel' => s' ← evictFront s; evict_while cond fuel' s'
        end
      else Some s
  end.

Definition older_than (threshold : Z) (s : ObjectSeries) : option bool :=
  front ← head (entry_timestamps s); Some (front <? threshold).

Definition over_budget (s : ObjectSeries) : option bool :=
  Some (max_memory_bytes (budget s) <? memory_bytes s).

Definition evict_older (threshold : Z) (s : ObjectSeries) : option ObjectSeries :=
  evict_while (older_than threshold) (length (entries s)) s.

Definition applyRetention (s : ObjectSeries) (newest_ts : Z) : option ObjectSeries :=
  s ← (if 0 <? time_window_ns (budget s)
       then evict_older (i64 (newest_ts - time_window_ns (budget s))) s else Some s);
  if 0 <? max_memory_bytes (budget s) then evict_while over_budget (length (entries s)) s else Some s.

Definition resolveEntry (e : ObjectEntry) : ResolvedObjectEntry :=
  mkResolved (entry_timestamp e)
    match payload e with
    | Owned (Some data) => mkPayloadView data true
    | Owned None => mkPayloadView [] false
    | Lazy fetch => call fetch tt
    end.

(** The entry both [push] operations append. *)
Definition append (s : ObjectSeries) (e : ObjectEntry) : ObjectSeries :=
  mkSeries (descriptor_of s) (entries s ++ [e]) (entry_timestamps s ++ [entry_timestamp e]) (budget s)
    (u64 (memory_bytes s + owned_size e)).

Definition push (s : ObjectSeries) (e : ObjectEntry) : option (ObjectSeries * Status) :=
  let timestamp := entry_timestamp e in
  match last (entry_timestamps s) with
  | Some back =>
      if timestamp <? back then Some (s, Err "timestamp not monotonically non-decreasing"%string)
      else s' ← applyRetention (append s e) timestamp; Some (s', okStatus)
  | None => s' ← applyRetention (append s e) timestamp; Some (s', okStatus)
  end.

Definition indexAt (s : ObjectSeries) (timestamp : Z) : option nat :=
  match upper_bound (entry_timestamps s) timestamp with O => None | S i => Some i end.

End Series.

Module Store.

Definition make : ObjectStore := mkStore [] 1.

(** [findSeries]: the first pair with the id. *)
Fixpoint find_id (id : Z) (topics : list (Z * ObjectSeries)) : option nat :=
  match topics with
  | [] => None
  | (tid, _) :: rest => if tid =? id then Some 0%nat else S <$> find_id id rest
  end.

Definition findSeries (st : ObjectStore) (id : Z) : option ObjectSeries :=
  i ← find_id id (topics_ st); p ← topics_ st !! i; Some p.2.

Definition put_series (topics : list (Z * ObjectSeries)) (i : nat) (s : ObjectSeries) : list (Z * ObjectSeries) :=
  match topics !! i with Some p => <[i := (p.1, s)]> topics | None => topics end.

(** The position of the first topic with the key. *)
Fixpoint find_key (dataset_id : Z) (topic : string) (topics : list (Z * ObjectSeries)) : option nat :=
  match topics with
  | [] => None
  | (_, s) :: rest =>
      if same_topic (descriptor_of s) dataset_id topic then Some 0%nat
      else S <$> find_key dataset_id topic rest
  end.

Definition registerTopic (st : ObjectStore) (d : ObjectTopicDescriptor) : ObjectStore * Expected Z :=
  match find_key (od_dataset_id d) (topic_name d) (topics_ st) with
  | Some _ => (st, Err ("topic already registered: " +:+ topic_name d))
  | None =>
      (mkStore (topics_ st ++ [(next_id_ st, empty_series d)]) (u32 (next_id_ st + 1)), Ok (next_id_ st))
  end.

Definition findTopic (st : ObjectStore) (dataset_id : Z) (topic : string) : option Z :=
  i ← find_key dataset_id topic (topics_ st); p ← topics_ st !! i; Some p.1.

Definition descriptor (st : ObjectStore) (id : Z) : ObjectTopicDescriptor :=
  match findSeries st id with Some s => descriptor_of s | None => mkObjectTopic 0 "" "" end.

Definition listTopics (st : ObjectStore) : list Z := map fst (topics_ st).

Definition listTopicsOf (st : ObjectStore) (dataset_id : Z) : list Z :=
  map fst (filter (fun p => od_dataset_id (descriptor_of p.2) = dataset_id) (topics_ st)).

Definition push_entry (st : ObjectStore) (id : Z) (e : ObjectEntry) : option (ObjectStore * Status) :=
  match find_id id (topics_ st) with
  | None => Some (st, Err "unknown topic"%string)
  | Some i =>
      p ← topics_ st !! i;
      '(s, status) ← Series.push p.2 e;
      Some (mkStore (put_series (topics_ st) i s) (next_id_ st), status)
  end.

Definition pushOwned (st : ObjectStore) (id timestamp : Z) (data : bytes) : option (ObjectStore * Status) :=
  push_entry st id (mkEntry timestamp (Owned (Some data))).

Definition pushLazy (st : ObjectStore) (id timestamp : Z) (fetch : LazyCallback) : option (ObjectStore * Status) :=
  push_entry st id (mkEntry timestamp (Lazy fetch)).

(** [std::nullopt] is the inner [None]; the outer one an entry out of bounds. *)
Definition latestAt (st : ObjectStore) (id timestamp : Z) : option (option ResolvedObjectEntry) :=
  match findSeries st id with
  | None => Some None
  | Some s =>
      match Series.indexAt s timestamp with
      | None => Some None
      | Some i => e ← entries s !! i; Some (Some (Series.resolveEntry e))
      end
  end.

Definition at_index (st : ObjectStore) (id : Z) (index : nat) : option ResolvedObjectEntry :=
  s ← findSeries st id; Series.resolveEntry <$> (entries s !! index).

Definition indexAt (st : ObjectStore) (id timestamp : Z) : option nat :=
  s ← findSeries st id; Series.indexAt s timestamp.

Definition entryCount (st : ObjectStore) (id : Z) : nat :=
  match findSeries st id with Some s => length (entries s) | None => 0 end.

Definition timeRange (st : ObjectStore) (id : Z) : Z * Z :=
  match findSeries st id with
  | Some s =>
      match head (entry_timestamps s), last (entry_timestamps s) with
      | Some front, Some back => (front, back)
      | _, _ => (0, 0)
      end
  | None => (0, 0)
  end.

Definition entryTimestamps (st : ObjectStore) (id : Z) : list Z :=
  match findSeries st id with Some s => entry_timestamps s | None => [] end.

Definition setRetentionBudget (st : ObjectStore) (id : Z) (b : RetentionBudget) : ObjectStore :=
  match find_id id (topics_ st) with
  | None => st
  | Some i =>
      match topics_ st !! i with
      | Some p => mkStore (put_series (topics_ st) i (Series.with_budget p.2 b)) (next_id_ st)
      | None => st
      end
  end.

Definition retentionBudget (st : ObjectStore) (id : Z) : RetentionBudget :=
  match findSeries st id with Some s => budget s | None => default_budget end.

Definition memoryUsage (st : ObjectStore) (id : Z) : Z :=
  match findSeries st id with Some s => memory_bytes s | None => 0 end.

Definition evictBefore (st : ObjectStore) (id threshold : Z) : option ObjectStore :=
  match find_id id (topics_ st) with
  | None => Some st
  | Some i =>
      p ← topics_ st !! i;
      s ← Series.evict_older threshold p.2;
      Some (mkStore (put_series (topics_ st) i s) (next_id_ st))
  end.

Definition evictAllBefore (st : ObjectStore) (threshold : Z) : option ObjectStore :=
  topics ← mapM (fun p => s ← Series.evict_older threshold p.2; Some (p.1, s)) (topics_ st);
  Some (mkStore topics (next_id_ st)).

(** ** Moving every entry into another store *)

(** Phase 1: the positions of the source and destination series, or the
    error.  [i] is the position of the first series of [todo]. *)
Fixpoint flush_plan (dst : ObjectStore) (todo : list (Z * ObjectSeries)) (i : nat) (plan : list (nat * nat))
  : option (Expected (list (nat * nat))) :=
  match todo with
  | [] => Some (Ok plan)
  | (_, src) :: todo' =>
      match head (entry_timestamps src) with
      | None => flush_plan dst todo' (S i) plan
      | Some front =>
          let d := descriptor_of src in
          match find_key (od_dataset_id d) (topic_name d) (topics_ dst) with
          | None => Some (Err ("flushTo: destination has no topic '" +:+ topic_name d +:+ "' for dataset "
                               +:+ pretty (od_dataset_id d)))
          | Some j =>
              p ← topics_ dst !! j;
              match last (entry_timestamps p.2) with
              | Some back =>
                  if front <? back
                  then Some (Err ("flushTo: monotonicity violation for topic '" +:+ topic_name d +:+ "'"))
                  else flush_plan dst todo' (S i) (plan ++ [(i, j)])
              | None => flush_plan dst todo' (S i) (plan ++ [(i, j)])
              end
          end
      end
  end.

(** The body of phase 2 on one pair of series. *)
Definition move_entries (src dst : ObjectSeries) : option (ObjectSeries * ObjectSeries) :=
  let times := entry_timestamps dst ++ entry_timestamps src in
  let dst' := mkSeries (descriptor_of dst) (entries dst ++ entries src) times (budget dst)
                (u64 (memory_bytes dst + memory_bytes src)) in
  let src' := mkSeries (descriptor_of src) [] [] (budget src) 0 in
  dst' ← Series.applyRetention dst' (default 0 (last times));
  Some (src', dst').

Definition flush_step (stores : ObjectStore * ObjectStore) (step : nat * nat) : option (ObjectStore * ObjectStore) :=
  let '(src, dst) := stores in
  let '(i, j) := step in
  p ← topics_ src !! i;
  q ← topics_ dst !! j;
  '(s, d) ← move_entries p.2 q.2;
  Some (mkStore (put_series (topics_ src) i s) (next_id_ src),
        mkStore (put_series (topics_ dst) j d) (next_id_ dst)).

Fixpoint flush_steps (stores : ObjectStore * ObjectStore) (plan : list (nat * nat))
  : option (ObjectStore * ObjectStore) :=
  match plan with
  | [] => Some stores
  | step :: plan' => stores ← flush_step stores step; flush_steps stores plan'
  end.

(** [src.flushTo(dst)]; the code refuses [&dst == this] first. *)
Definition flushTo (src dst : ObjectStore) : option (ObjectStore * ObjectStore * Status) :=
  plan ← flush_plan dst (topics_ src) 0 [];
  match plan with
  | Err e => Some (src, dst, Err e)
  | Ok plan => '(src, dst) ← flush_steps (src, dst) plan; Some (src, dst, okStatus)
  end.

Definition flushToSelf (st : ObjectStore) : ObjectStore * Status :=
  (st, Err "flushTo: source and destination are the same store"%string).

Definition removeTopic (st : ObjectStore) (id : Z) : ObjectStore :=
  match find_id id (topics_ st) with
  | None => st
  | Some i => mkStore (delete i (topics_ st)) (next_id_ st)
  end.

Definition clear (st : ObjectStore) : ObjectStore := mkStore [] 1.

End Store.

(** ** The specification of a series: a log

    A series stands for its descriptor, its budget and the list of its
    entries; the two other members are functions of the list. *)

Definition owned_total (es : list ObjectEntry) : Z := foldr (fun e n => Series.owned_size e + n) 0 es.

Definition of_log (d : ObjectTopicDescriptor) (b : RetentionBudget) (es : list ObjectEntry) : ObjectSeries :=
  mkSeries d es (map entry_timestamp es) b (u64 (owned_total es)).

Definition log_sorted (es : list ObjectEntry) : Prop := sorted (map entry_timestamp es).

(** The longest suffix within a memory budget. *)
Fixpoint fit (max : Z) (es : list ObjectEntry) : list ObjectEntry :=
  match es with
  | [] => []
  | _ :: es' => if max <? u64 (owned_total es) then fit max es' else es
  end.

(** What retention keeps of a log. *)
Definition retain (b : RetentionBudget) (newest : Z) (es : list ObjectEntry) : list ObjectEntry :=
  let es := if 0 <? time_window_ns b
    then filter (fun e => i64 (newest - time_window_ns b) <= entry_timestamp e) es else es in
  if 0 <? max_memory_bytes b then fit (max_memory_bytes b) es else es.

Definition log_push (b : RetentionBudget) (es : list ObjectEntry) (e : ObjectEntry) : list ObjectEntry * Status :=
  match last es with
  | Some back =>
      if entry_timestamp e <? entry_timestamp back
      then (es, Err "timestamp not monotonically non-decreasing"%string)
      else (retain b (entry_timestamp e) (es ++ [e]), okStatus)
  | None => (retain b (entry_timestamp e) (es ++ [e]), okStatus)
  end.

(** ** Facts about logs *)

Lemma log_sorted_cons e es : log_sorted (e :: es) ->
  log_sorted es /\ Forall (fun x => entry_timestamp e <= entry_timestamp x) es.
Proof. intros H. unfold log_sorted in H. cbn in H. inversion_clear H as [|? ? Hs Hall]. by rewrite Forall_map in Hall. Qed.

Lemma log_sorted_drop n es : log_sorted es -> log_sorted (drop n es).
Proof. intros H. unfold log_sorted. rewrite <- skipn_map. by apply sorted_drop. Qed.

Lemma filter_all {A} (P : A -> Prop) `{!forall x, Decision (P x)} l : Forall P l -> filter P l = l.
Proof. induction 1 as [|x l Hx _ IH]; [done|]. by rewrite filter_cons_True, IH. Qed.

Lemma filter_suffix t es : log_sorted es -> exists n, filter (fun e => t <= entry_timestamp e) es = drop n es.
Proof.
  induction es as [|e es IH]; intros H; [by exists 0%nat|]. pose proof (log_sorted_cons _ _ H) as [Hs Hall].
  destruct (decide (t <= entry_timestamp e)).
  - exists 0%nat. apply filter_all. constructor; [done|]. eapply Forall_impl; [exact Hall|]. simpl. lia.
  - rewrite filter_cons_False by done. destruct (IH Hs) as [m Hm]. by exists (S m).
Qed.

Lemma fit_suffix max es : exists n, fit max es = drop n es.
Proof.
  induction es as [|e es [n IH]]; [by exists 0%nat|]. cbn [fit]. destruct (max <? _); [by exists (S n)|by exists 0%nat].
Qed.

(** Retention only drops entries from the front. *)
Lemma retain_suffix b newest es : log_sorted es -> exists n, retain b newest es = drop n es.
Proof.
  intros H. unfold retain. destruct (0 <? time_window_ns b), (0 <? max_memory_bytes b).
  - destruct (filter_suffix (i64 (newest - time_window_ns b)) es H) as [n ->].
    destruct (fit_suffix (max_memory_bytes b) (drop n es)) as [m ->]. rewrite drop_drop. eauto.
  - by apply filter_suffix.
  - apply fit_suffix.
  - by exists 0%nat.
Qed.

Lemma retain_sorted b newest es : log_sorted es -> log_sorted (retain b newest es).
Proof. intros H. destruct (retain_suffix b newest es H) as [n ->]. by apply log_sorted_drop. Qed.

Lemma fit_bound max es : 0 <= max -> u64 (owned_total (fit max es)) <= max.
Proof.
  intros Hm. induction es as [|e es IH]; [done|]. cbn [fit]. destruct (Z.ltb_spec max (u64 (owned_total (e :: es)))); [apply IH|done].
Qed.

(** *** The loops of the code compute them *)

Lemma evictFront_log d b e es : Series.evictFront (of_log d b (e :: es)) = Some (of_log d b es).
Proof.
  unfold Series.evictFront, of_log. cbn. do 2 f_equal. unfold wrapU. rewrite Zminus_mod_idemp_l. f_equal.
  unfold owned_total. lia.
Qed.

Lemma evict_older_log t d b es : log_sorted es ->
  Series.evict_older t (of_log d b es) = Some (of_log d b (filter (fun e => t <= entry_timestamp e) es)).
Proof.
  unfold Series.evict_older. cbn [entries of_log]. induction es as [|e es IH]; intros H; [done|].
  pose proof (log_sorted_cons _ _ H) as [Hs Hall].
  cbn [length Series.evict_while]. cbn [entries of_log Series.older_than entry_timestamps map head mbind option_bind].
  destruct (Z.ltb_spec (entry_timestamp e) t) as [Hlt|Hge].
  - rewrite evictFront_log. cbn [mbind option_bind]. rewrite filter_cons_False by lia. by apply IH.
  - rewrite filter_all; [done|]. constructor; [done|]. eapply Forall_impl; [exact Hall|]. simpl. lia.
Qed.

Lemma evict_over_budget_log d b es :
  Series.evict_while Series.over_budget (length es) (of_log d b es) = Some (of_log d b (fit (max_memory_bytes b) es)).
Proof.
  induction es as [|e es IH]; [done|]. cbn [length Series.evict_while].
  cbn [entries of_log Series.over_budget budget memory_bytes mbind option_bind].
  cbn [fit]. destruct (_ <? _); [|done]. rewrite evictFront_log. cbn [mbind option_bind]. apply IH.
Qed.

Lemma applyRetention_log d b newest es : log_sorted es ->
  Series.applyRetention (of_log d b es) newest = Some (of_log d b (retain b newest es)).
Proof.
  intros H. unfold Series.applyRetention, retain. cbn [budget of_log].
  destruct (0 <? time_window_ns b).
  - rewrite evict_older_log by done. cbn [mbind option_bind budget of_log].
    destruct (0 <? max_memory_bytes b); [|done]. apply evict_over_budget_log.
  - cbn [mbind option_bind budget of_log]. destruct (0 <? max_memory_bytes b); [|done]. apply evict_over_budget_log.
Qed.

Lemma append_log d b es e : Series.append (of_log d b es) e = of_log d b (es ++ [e]).
Proof.
  unfold Series.append, of_log. cbn. rewrite map_app. f_equal. unfold wrapU. rewrite Zplus_mod_idemp_l. f_equal.
  unfold owned_total. induction es as [|x es IH]; simpl in *; lia.
Qed.

Lemma log_sorted_snoc es e : log_sorted es ->
  (forall back, last es = Some back -> entry_timestamp back <= entry_timestamp e) -> log_sorted (es ++ [e]).
Proof.
  intros H Hb. unfold log_sorted. rewrite map_app. apply sorted_app_iff. split_and!; [done|repeat constructor|].
  intros x y Hx Hy. apply list_elem_of_singleton in Hy as ->.
  destruct es as [|back es _] using rev_ind; [by apply not_elem_of_nil in Hx|].
  unfold log_sorted in H. rewrite map_app in H, Hx. apply sorted_app_iff in H as (_ & _ & H).
  specialize (Hb back ltac:(apply last_snoc)). apply elem_of_app in Hx as [Hx|Hx%list_elem_of_singleton]; [|by subst].
  specialize (H x (entry_timestamp back) Hx ltac:(left)). lia.
Qed.

Lemma push_log d b es e : log_sorted es ->
  Series.push (of_log d b es) e = Some (of_log d b (log_push b es e).1, (log_push b es e).2)
  /\ log_sorted (log_push b es e).1.
Proof.
  intros H. unfold Series.push, log_push. cbn [entry_timestamps of_log].
  change (map entry_timestamp es) with (entry_timestamp <$> es). rewrite fmap_last, append_log.
  assert (Hret : forall t, log_sorted (es ++ [e]) ->
    (s' ← Series.applyRetention (of_log d b (es ++ [e])) t; Some (s', okStatus))
    = Some (of_log d b (retain b t (es ++ [e])), okStatus) /\ log_sorted (retain b t (es ++ [e]))).
  { intros t Hs. rewrite applyRetention_log by done. split; [done|by apply retain_sorted]. }
  destruct (last es) as [back|] eqn:El; cbn [fmap option_fmap option_map].
  - destruct (Z.ltb_spec (entry_timestamp e) (entry_timestamp back)); [done|].
    apply Hret, log_sorted_snoc; [done|]. intros x Hx. by simplify_eq.
  - apply Hret, log_sorted_snoc; [done|]. intros x Hx. congruence.
Qed.

(** ** The invariant of a store *)

Definition series_ok (s : ObjectSeries) : Prop :=
  s = of_log (descriptor_of s) (budget s) (entries s) /\ log_sorted (entries s).

Definition key_of (s : ObjectSeries) : Z * string :=
  (od_dataset_id (descriptor_of s), topic_name (descriptor_of s)).

(** Ids and keys are unique, the next id is fresh, every series is a log. *)
Record store_ok (st : ObjectStore) : Prop := {
  st_ids : NoDup (map fst (topics_ st));
  st_keys : NoDup (map (fun p => key_of p.2) (topics_ st));
  st_fresh : Forall (fun p => p.1 < next_id_ st) (topics_ st);
  st_series : Forall (fun p => series_ok p.2) (topics_ st)
}.

Lemma series_ok_of_log d b es : log_sorted es -> series_ok (of_log d b es).
Proof. by intros H. Qed.

Lemma empty_series_ok d : series_ok (empty_series d).
Proof. split; [done|constructor]. Qed.

Lemma find_id_Some id topics i : Store.find_id id topics = Some i -> exists s, topics !! i = Some (id, s).
Proof.
  revert i. induction topics as [|[tid s] topics IH]; intros i H; [done|]. cbn [Store.find_id] in H.
  destruct (Z.eqb_spec tid id) as [->|Hne]; [simplify_eq; by exists s|].
  destruct (Store.find_id id topics) as [j|]; simplify_eq/=. by apply IH.
Qed.

Lemma find_id_None id topics : Store.find_id id topics = None -> id ∉ map fst topics.
Proof.
  induction topics as [|[tid s] topics IH]; cbn [Store.find_id]; intros H; [by apply not_elem_of_nil|].
  destruct (Z.eqb_spec tid id) as [->|Hne]; [done|].
  destruct (Store.find_id id topics) as [j|] eqn:E; [done|]. cbn. rewrite not_elem_of_cons. auto.
Qed.

Lemma find_id_at topics i id s : NoDup (map fst topics) -> topics !! i = Some (id, s) ->
  Store.find_id id topics = Some i.
Proof.
  revert i. induction topics as [|[tid s'] topics IH]; intros i Hnd Hi; [done|].
  cbn [map fst] in Hnd. apply NoDup_cons in Hnd as [Hnin Hnd]. cbn [Store.find_id].
  destruct i as [|i]; simplify_eq/=; [by rewrite Z.eqb_refl|].
  destruct (Z.eqb_spec tid id) as [->|Hne].
  - exfalso. apply Hnin. apply (list_elem_of_fmap_2' fst _ (id, s)); [by eapply list_elem_of_lookup_2|done].
  - by rewrite (IH i).
Qed.

Lemma same_topic_true d dataset_id topic :
  same_topic d dataset_id topic = true <-> (od_dataset_id d, topic_name d) = (dataset_id, topic).
Proof. unfold same_topic. rewrite andb_true_iff, Z.eqb_eq, bool_decide_eq_true. split; [intros []; congruence|by intros [=]]. Qed.

Lemma find_key_Some dataset_id topic topics i : Store.find_key dataset_id topic topics = Some i ->
  exists p, topics !! i = Some p /\ key_of p.2 = (dataset_id, topic).
Proof.
  revert i. induction topics as [|[tid s] topics IH]; intros i H; [done|]. cbn [Store.find_key] in H.
  destruct (same_topic _ _ _) eqn:E; [apply same_topic_true in E; simplify_eq; by exists (tid, s)|].
  destruct (Store.find_key dataset_id topic topics) as [j|]; simplify_eq/=. by apply IH.
Qed.

Lemma find_key_None dataset_id topic topics : Store.find_key dataset_id topic topics = None ->
  (dataset_id, topic) ∉ map (fun p => key_of p.2) topics.
Proof.
  induction topics as [|[tid s] topics IH]; cbn [Store.find_key]; intros H; [by apply not_elem_of_nil|].
  destruct (same_topic _ _ _) eqn:E; [done|].
  destruct (Store.find_key dataset_id topic topics) as [j|] eqn:Ek; [done|]. cbn.
  rewrite not_elem_of_cons. split; [|by apply IH]. intros Heq. apply not_true_iff_false in E. apply E.
  by apply same_topic_true.
Qed.

Lemma put_series_ok topics n i p s : store_ok (mkStore topics n) -> topics !! i = Some p -> series_ok s ->
  key_of s = key_of p.2 -> store_ok (mkStore (Store.put_series topics i s) n).
Proof.
  intros [Hids Hkeys Hfresh Hser] Hi Hs Hk. unfold Store.put_series. rewrite Hi.
  assert (Hfmap : forall B (f : Z * ObjectSeries -> B), f (p.1, s) = f p -> map f (<[i:=(p.1, s)]> topics) = map f topics).
  { intros B f Hf. change (map f) with (fmap (M := list) f). rewrite list_fmap_insert, Hf. apply list_insert_id.
    by rewrite list_lookup_fmap, Hi. }
  split; cbn [topics_ next_id_] in *.
  - by rewrite Hfmap.
  - by rewrite Hfmap.
  - apply Forall_insert; [done|]. by apply (Forall_lookup_1 _ _ _ _ Hfresh Hi).
  - by apply Forall_insert.
Qed.

Lemma series_at topics n i p : store_ok (mkStore topics n) -> topics !! i = Some p ->
  p.2 = of_log (descriptor_of p.2) (budget p.2) (entries p.2) /\ log_sorted (entries p.2).
Proof. intros H Hi. by apply (Forall_lookup_1 _ _ _ _ (st_series _ H) Hi). Qed.

Lemma make_ok : store_ok Store.make.
Proof. split; constructor. Qed.

Lemma registerTopic_ok st d : store_ok st -> next_id_ st + 1 < 2 ^ 32 -> 0 <= next_id_ st ->
  store_ok (Store.registerTopic st d).1.
Proof.
  intros [Hids Hkeys Hfresh Hser] Hn H0. unfold Store.registerTopic.
  destruct (Store.find_key _ _ _) eqn:E; [done|]. apply find_key_None in E.
  split; cbn [fst topics_ next_id_]; rewrite ?map_app.
  - apply NoDup_app. split_and!; [done| |apply NoDup_singleton].
    intros id Hid%list_elem_of_fmap Hin%list_elem_of_singleton. destruct Hid as (p & -> & Hp).
    rewrite Forall_forall in Hfresh. specialize (Hfresh p Hp). cbn in Hin. lia.
  - apply NoDup_app. split_and!; [done| |apply NoDup_singleton].
    intros k Hk Hin%list_elem_of_singleton. subst. done.
  - apply Forall_app. rewrite Forall_singleton. cbn. rewrite (wrapU_small 32) by (split; lia). split; [|lia].
    eapply Forall_impl; [exact Hfresh|]. simpl. lia.
  - apply Forall_app. rewrite Forall_singleton. split; [done|]. apply empty_series_ok.
Qed.

Lemma push_entry_ok st id e : store_ok st ->
  exists st' status, Store.push_entry st id e = Some (st', status) /\ store_ok st' /\ next_id_ st' = next_id_ st.
Proof.
  intros H. destruct st as [topics n]. unfold Store.push_entry. cbn [topics_ next_id_].
  destruct (Store.find_id id topics) as [i|] eqn:E; [|eauto].
  destruct (find_id_Some _ _ _ E) as [s Hi]. rewrite Hi. cbn [mbind option_bind snd].
  destruct (series_at _ _ _ _ H Hi) as [Heq Hs]. cbn [snd] in *.
  destruct (push_log (descriptor_of s) (budget s) (entries s) e Hs) as [Hpush Hs']. rewrite <- Heq in Hpush.
  rewrite Hpush. cbn [mbind option_bind].
  do 2 eexists. split; [done|]. split; [|done]. by apply (put_series_ok topics n i (id, s)).
Qed.

Lemma setRetentionBudget_ok st id b : store_ok st -> store_ok (Store.setRetentionBudget st id b).
Proof.
  intros H. destruct st as [topics n]. unfold Store.setRetentionBudget. cbn [topics_ next_id_].
  destruct (Store.find_id id topics) as [i|]; [|done]. destruct (topics !! i) as [p|] eqn:Hi; [|done].
  destruct (series_at _ _ _ _ H Hi) as [Heq Hs]. apply (put_series_ok topics n i p); [done|done| |done].
  rewrite Heq. by apply (series_ok_of_log _ b).
Qed.

Lemma evict_older_series t s : series_ok s ->
  Series.evict_older t s = Some (of_log (descriptor_of s) (budget s) (filter (fun e => t <= entry_timestamp e) (entries s)))
  /\ log_sorted (filter (fun e => t <= entry_timestamp e) (entries s)).
Proof.
  intros [Heq Hs]. pose proof (evict_older_log t (descriptor_of s) (budget s) (entries s) Hs) as He.
  rewrite <- Heq in He. split; [done|]. destruct (filter_suffix t _ Hs) as [n ->]. by apply log_sorted_drop.
Qed.

Lemma evictBefore_ok st id t : store_ok st ->
  exists st', Store.evictBefore st id t = Some st' /\ store_ok st' /\ next_id_ st' = next_id_ st.
Proof.
  intros H. destruct st as [topics n]. unfold Store.evictBefore. cbn [topics_ next_id_].
  destruct (Store.find_id id topics) as [i|] eqn:E; [|eauto].
  destruct (find_id_Some _ _ _ E) as [s Hi]. rewrite Hi. cbn [mbind option_bind snd].
  destruct (evict_older_series t s) as [-> Hs']; [by apply (Forall_lookup_1 _ _ _ _ (st_series _ H) Hi)|].
  cbn [mbind option_bind]. eexists. split; [done|]. split; [|done]. by apply (put_series_ok topics n i (id, s)).
Qed.

(** Evicting from every topic, as a map over the series. *)
Definition evicted (t : Z) (p : Z * ObjectSeries) : Z * ObjectSeries :=
  (p.1, of_log (descriptor_of p.2) (budget p.2) (filter (fun e => t <= entry_timestamp e) (entries p.2))).

Lemma evictAllBefore_map st t : store_ok st ->
  Store.evictAllBefore st t = Some (mkStore (map (evicted t) (topics_ st)) (next_id_ st)).
Proof.
  intros H. unfold Store.evictAllBefore.
  assert (Hm : mapM (fun p => s ← Series.evict_older t p.2; Some (p.1, s)) (topics_ st) = Some (map (evicted t) (topics_ st))).
  { apply mapM_Some_2. pose proof (st_series _ H) as Hs. induction Hs as [|p l Hp _ IH]; constructor; [|done].
    by destruct (evict_older_series t p.2 Hp) as [-> _]. }
  by rewrite Hm.
Qed.

Lemma evictAllBefore_ok st t : store_ok st ->
  exists st', Store.evictAllBefore st t = Some st' /\ store_ok st' /\ next_id_ st' = next_id_ st.
Proof.
  intros H. rewrite evictAllBefore_map by done. eexists. split; [done|]. split; [|done].
  destruct H as [Hids Hkeys Hfresh Hser].
  split; cbn [topics_ next_id_]; rewrite ?map_map; try done.
  - by apply Forall_map.
  - apply Forall_map. eapply Forall_impl; [exact Hser|]. intros p Hp. cbn. apply series_ok_of_log.
    by destruct (evict_older_series t p.2 Hp).
Qed.

Lemma removeTopic_ok st id : store_ok st -> store_ok (Store.removeTopic st id).
Proof.
  intros H. unfold Store.removeTopic. destruct (Store.find_id id (topics_ st)) as [i|]; [|done].
  destruct H as [Hids Hkeys Hfresh Hser].
  assert (Hsub : sublist (delete i (topics_ st)) (topics_ st)) by apply sublist_delete.
  split; cbn [topics_ next_id_].
  - eapply sublist_NoDup; [exact Hids|]. by apply (fmap_sublist fst).
  - eapply sublist_NoDup; [exact Hkeys|]. by apply (fmap_sublist (fun p => key_of p.2)).
  - by apply Forall_delete.
  - by apply Forall_delete.
Qed.

Lemma clear_ok st : store_ok (Store.clear st).
Proof. split; constructor. Qed.

(** ** flushTo *)

(** The destination of a move: what both logs hold, after retention. *)
Definition merge (dst src : ObjectSeries) : ObjectSeries :=
  let es := entries dst ++ entries src in
  of_log (descriptor_of dst) (budget dst) (retain (budget dst) (default 0 (last (map entry_timestamp es))) es).

Definition drained (s : ObjectSeries) : ObjectSeries := of_log (descriptor_of s) (budget s) [].

Lemma owned_total_app es es' : owned_total (es ++ es') = owned_total es + owned_total es'.
Proof. unfold owned_total. induction es as [|e es IH]; simpl; lia. Qed.

Lemma move_entries_ok src dst : series_ok src -> series_ok dst -> log_sorted (entries dst ++ entries src) ->
  Store.move_entries src dst = Some (drained src, merge dst src) /\ series_ok (merge dst src).
Proof.
  intros [Hs _] [Hd _] Hsort.
  pose proof (f_equal memory_bytes Hs) as Hsm. pose proof (f_equal memory_bytes Hd) as Hdm.
  pose proof (f_equal entry_timestamps Hs) as Hst. pose proof (f_equal entry_timestamps Hd) as Hdt.
  cbn in Hsm, Hdm, Hst, Hdt. unfold Store.move_entries. cbv zeta. rewrite Hsm, Hdm, Hst, Hdt, <- map_app.
  assert (Hlog : mkSeries (descriptor_of dst) (entries dst ++ entries src) (map entry_timestamp (entries dst ++ entries src))
      (budget dst) (u64 (u64 (owned_total (entries dst)) + u64 (owned_total (entries src))))
    = of_log (descriptor_of dst) (budget dst) (entries dst ++ entries src)).
  { unfold of_log. rewrite owned_total_app. f_equal. unfold wrapU. by rewrite <- Zplus_mod. }
  rewrite Hlog, applyRetention_log by done. split; [done|]. apply series_ok_of_log. by apply retain_sorted.
Qed.

Definition planned (dst : ObjectStore) (todo : list (Z * ObjectSeries)) (i : nat) (step : nat * nat) : Prop :=
  exists k p q, step.1 = (i + k)%nat /\ todo !! k = Some p /\ entries p.2 <> []
    /\ topics_ dst !! step.2 = Some q /\ key_of q.2 = key_of p.2 /\ log_sorted (entries q.2 ++ entries p.2).

Lemma log_sorted_join es es' : log_sorted es -> log_sorted es' ->
  (forall back front, last es = Some back -> head es' = Some front -> entry_timestamp back <= entry_timestamp front) ->
  log_sorted (es ++ es').
Proof.
  intros H H' Hle. unfold log_sorted. rewrite map_app. apply sorted_app_iff. split_and!; [done|done|].
  intros x y Hx Hy. destruct es as [|back es _] using rev_ind; [by apply not_elem_of_nil in Hx|].
  destruct es' as [|front es']; [by apply not_elem_of_nil in Hy|].
  specialize (Hle back front ltac:(apply last_snoc) eq_refl).
  unfold log_sorted in H. rewrite map_app in H, Hx. apply sorted_app_iff in H as (_ & _ & H).
  apply log_sorted_cons in H' as [_ H']. apply elem_of_app in Hx as [Hx|Hx%list_elem_of_singleton].
  - specialize (H x (entry_timestamp back) Hx ltac:(left)).
    apply elem_of_cons in Hy as [->|Hy]; [cbn in *; lia|]. apply list_elem_of_fmap in Hy as (e & -> & He).
    rewrite Forall_forall in H'. specialize (H' e He). lia.
  - subst. apply elem_of_cons in Hy as [->|Hy]; [cbn in *; lia|]. apply list_elem_of_fmap in Hy as (e & -> & He).
    rewrite Forall_forall in H'. specialize (H' e He). lia.
Qed.

Lemma flush_plan_ok dst todo : store_ok dst -> Forall (fun p => series_ok p.2) todo -> forall i plan,
  exists r, Store.flush_plan dst todo i plan = Some r /\
    match r with
    | Err _ => True
    | Ok plan' => exists more, plan' = plan ++ more /\ Forall (planned dst todo i) more /\ NoDup (map fst more)
        /\ forall k p, todo !! k = Some p -> entries p.2 <> [] -> (i + k)%nat ∈ map fst more
    end.
Proof.
  intros Hdst. induction 1 as [|[tid src] todo Hsrc _ IH]; intros i plan.
  { exists (Ok plan). split; [done|]. exists []. rewrite app_nil_r. split_and!; [done|constructor|constructor|done]. }
  assert (Hshift : forall step, planned dst todo (S i) step -> planned dst ((tid, src) :: todo) i step).
  { intros step (k & p & q & ? & ? & ?). exists (S k), p, q. rewrite Nat.add_succ_r. split; [done|]. by split. }
  cbn [Store.flush_plan]. destruct Hsrc as [Heq Hsort]. cbn [snd] in Heq, Hsort.
  pose proof (f_equal entry_timestamps Heq) as Htimes. cbn in Htimes. rewrite Htimes.
  destruct (entries src) as [|front es] eqn:Ees; cbn [map head].
  { destruct (IH (S i) plan) as (r & -> & Hr). exists r. split; [done|]. destruct r as [plan'|]; [|done].
    destruct Hr as (more & -> & Hmore & Hnd & Hall). exists more. split_and!; [done| |done|].
    - eapply Forall_impl; [exact Hmore|exact Hshift].
    - intros [|k] p Hk Hp; [simplify_eq/=; by rewrite Ees in Hp|]. rewrite Nat.add_succ_r. by apply (Hall k p). }
  destruct (Store.find_key _ _ _) as [j|] eqn:Ej; [|by eexists].
  destruct (find_key_Some _ _ _ _ Ej) as (q & Hq & Hkey). rewrite Hq. cbn [mbind option_bind].
  destruct (Forall_lookup_1 _ _ _ _ (st_series _ Hdst) Hq) as [Hqeq Hqsort].
  assert (Hgo : (forall back, last (entries q.2) = Some back -> entry_timestamp back <= entry_timestamp front) ->
    exists r, Store.flush_plan dst todo (S i) (plan ++ [(i, j)]) = Some r /\
      match r with
      | Err _ => True
      | Ok plan' => exists more, plan' = plan ++ more /\ Forall (planned dst ((tid, src) :: todo) i) more
          /\ NoDup (map fst more)
          /\ forall k p, ((tid, src) :: todo) !! k = Some p -> entries p.2 <> [] -> (i + k)%nat ∈ map fst more
      end).
  { intros Hle. destruct (IH (S i) (plan ++ [(i, j)])) as (r & -> & Hr). exists r. split; [done|].
    destruct r as [plan'|]; [|done]. destruct Hr as (more & -> & Hmore & Hnd & Hall).
    exists ((i, j) :: more). rewrite <- app_assoc. split_and!; [done| | |].
    - constructor; [|by eapply Forall_impl; [exact Hmore|exact Hshift]].
      exists 0%nat, (tid, src), q. rewrite Nat.add_0_r. cbn [fst snd]. rewrite Ees.
      split_and!; try done. apply log_sorted_join; [done|done|]. intros back f Hb [= <-]. by apply Hle.
    - cbn [map fst]. constructor; [|done]. intros Hin%list_elem_of_fmap. destruct Hin as (step & Hi & Hstep).
      rewrite Forall_forall in Hmore. destruct (Hmore step Hstep) as (k & ? & ? & Hk & _). lia.
    - intros [|k] p Hk Hp; cbn [map fst]; [rewrite Nat.add_0_r; left|]. right. rewrite Nat.add_succ_r. by apply (Hall k p). }
  pose proof (f_equal entry_timestamps Hqeq) as Hqt. cbn in Hqt. rewrite Hqt. change (map entry_timestamp) with (fmap (M := list) entry_timestamp).
  rewrite fmap_last. destruct (last (entries q.2)) as [back|] eqn:Eb; cbn [fmap option_fmap option_map].
  - destruct (Z.ltb_spec (entry_timestamp front) (entry_timestamp back)); [by eexists|].
    apply Hgo. intros b Hb. by simplify_eq.
  - by apply Hgo.
Qed.

Abbreviation plannable src dst := (planned dst (topics_ src) 0).

Lemma put_series_at topics i j s p : topics !! i = Some p ->
  Store.put_series topics i s !! j = if decide (j = i) then Some (p.1, s) else topics !! j.
Proof.
  intros Hi. unfold Store.put_series. rewrite Hi. case_decide as Hj.
  - subst. apply list_lookup_insert_eq. by eapply lookup_lt_Some.
  - by rewrite list_lookup_insert_ne.
Qed.

Lemma put_series_ids topics i s : map fst (Store.put_series topics i s) = map fst topics.
Proof.
  unfold Store.put_series. destruct (topics !! i) as [p|] eqn:Hi; [|done].
  change (map fst) with (fmap (M := list) (@fst Z ObjectSeries)). rewrite list_fmap_insert. apply list_insert_id.
  by rewrite list_lookup_fmap, Hi.
Qed.

Lemma flush_step_ok src dst step : store_ok src -> store_ok dst -> plannable src dst step ->
  exists p q, topics_ src !! step.1 = Some p /\ topics_ dst !! step.2 = Some q
  /\ let src' := mkStore (Store.put_series (topics_ src) step.1 (drained p.2)) (next_id_ src) in
     let dst' := mkStore (Store.put_series (topics_ dst) step.2 (merge q.2 p.2)) (next_id_ dst) in
     Store.flush_step (src, dst) step = Some (src', dst') /\ store_ok src' /\ store_ok dst'.
Proof.
  intros Hsrc Hdst (k & p & q & Hi & Hp & _ & Hq & Hkey & Hsort). rewrite Nat.add_0_l in Hi. subst k.
  exists p, q. destruct src as [st n], dst as [dt m], step as [i j]. cbn in *. do 2 (split; [done|]).
  rewrite Hp, Hq. cbn [mbind option_bind].
  destruct (move_entries_ok p.2 q.2) as [-> Hok];
    [by apply (Forall_lookup_1 _ _ _ _ (st_series _ Hsrc) Hp)|by apply (Forall_lookup_1 _ _ _ _ (st_series _ Hdst) Hq)|done|].
  cbn [mbind option_bind]. split_and!; [done| |].
  - apply (put_series_ok st n i p); [done|done| |done]. apply series_ok_of_log. constructor.
  - by apply (put_series_ok dt m j q).
Qed.

Lemma flush_steps_ok plan : forall src dst, store_ok src -> store_ok dst ->
  Forall (plannable src dst) plan -> NoDup (map fst plan) -> NoDup (map snd plan) ->
  exists src' dst', Store.flush_steps (src, dst) plan = Some (src', dst')
    /\ store_ok src' /\ store_ok dst' /\ map fst (topics_ src') = map fst (topics_ src)
    /\ (forall i, i ∉ map fst plan -> topics_ src' !! i = topics_ src !! i)
    /\ (forall j, j ∉ map snd plan -> topics_ dst' !! j = topics_ dst !! j)
    /\ (forall i j p q, (i, j) ∈ plan -> topics_ src !! i = Some p -> topics_ dst !! j = Some q ->
          topics_ src' !! i = Some (p.1, drained p.2) /\ topics_ dst' !! j = Some (q.1, merge q.2 p.2)).
Proof.
  induction plan as [|[i0 j0] plan IH]; intros src dst Hsrc Hdst Hplan Hi Hj.
  { exists src, dst. split_and!; try done. intros i j p q H. by apply not_elem_of_nil in H. }
  apply Forall_cons in Hplan as [Hstep Hplan]. cbn [map fst snd] in Hi, Hj.
  apply NoDup_cons in Hi as [Hni Hi]. apply NoDup_cons in Hj as [Hnj Hj].
  destruct (flush_step_ok src dst _ Hsrc Hdst Hstep) as (p0 & q0 & Hp0 & Hq0 & Eq & Hsrc1 & Hdst1). cbn [fst snd] in *.
  cbn [Store.flush_steps]. rewrite Eq. cbn [mbind option_bind].
  destruct (IH _ _ Hsrc1 Hdst1) as (src' & dst' & -> & Hs' & Hd' & Hids & Hfi & Hfj & Hmoved); [|done|done|].
  { apply Forall_forall. intros [i j] Hin. rewrite Forall_forall in Hplan.
    destruct (Hplan _ Hin) as (k & p & q & Hk & Hp & Hne & Hq & Hrest). exists k, p, q. cbn [topics_ fst snd] in *.
    rewrite !(put_series_at _ _ _ _ _ Hp0), !(put_series_at _ _ _ _ _ Hq0), !decide_False; [done| |].
    - intros ->. apply Hnj. by apply (list_elem_of_fmap_2' snd _ (i, j0)).
    - intros ->. apply Hni. apply (list_elem_of_fmap_2' fst _ (i, j)); [done|]. cbn. lia. }
  exists src', dst'. cbn [topics_ next_id_] in *. split_and!; try done.
  - by rewrite Hids, put_series_ids.
  - intros i Hin. cbn [map fst] in Hin. apply not_elem_of_cons in Hin as [Hne Hin].
    by rewrite Hfi, (put_series_at _ _ _ _ _ Hp0), decide_False.
  - intros j Hin. cbn [map snd] in Hin. apply not_elem_of_cons in Hin as [Hne Hin].
    by rewrite Hfj, (put_series_at _ _ _ _ _ Hq0), decide_False.
  - intros i j p q Hin Hp Hq. apply elem_of_cons in Hin as [[= -> ->]|Hin].
    + rewrite Hfi, Hfj, (put_series_at _ _ _ _ _ Hp0), (put_series_at _ _ _ _ _ Hq0), !decide_True by done.
      by simplify_eq.
    + apply Hmoved; [done| |].
      * rewrite (put_series_at _ _ _ _ _ Hp0), decide_False; [done|]. intros ->. apply Hni.
        by apply (list_elem_of_fmap_2' fst _ (i0, j)).
      * rewrite (put_series_at _ _ _ _ _ Hq0), decide_False; [done|]. intros ->. apply Hnj.
        by apply (list_elem_of_fmap_2' snd _ (i, j0)).
Qed.

Lemma NoDup_map_inj {A B C} (f : A -> B) (g : A -> C) (l : list A) :
  NoDup (map f l) -> (forall x y, x ∈ l -> y ∈ l -> g x = g y -> f x = f y) -> NoDup (map g l).
Proof.
  induction l as [|x l IH]; intros H Hinj; [constructor|]. cbn [map] in *. apply NoDup_cons in H as [Hx H].
  constructor.
  - intros (y & Hy & Hin)%list_elem_of_fmap. apply Hx. apply list_elem_of_fmap. exists y. split; [|done].
    apply Hinj; [left|by right|done].
  - apply IH; [done|]. intros a b Ha Hb. apply Hinj; by right.
Qed.

(** Two series of one store with one key are the same series. *)
Lemma key_injective st i j p q : store_ok st -> topics_ st !! i = Some p -> topics_ st !! j = Some q ->
  key_of p.2 = key_of q.2 -> i = j.
Proof.
  intros H Hi Hj Hk. apply (NoDup_lookup _ i j (key_of p.2) (st_keys _ H)).
  - change (map ?f) with (fmap (M := list) f). by rewrite list_lookup_fmap, Hi.
  - change (map ?f) with (fmap (M := list) f). by rewrite list_lookup_fmap, Hj, Hk.
Qed.

(** What [flushTo] does to the destination series with the key of [src]. *)
Definition flushed (src dst src' dst' : ObjectStore) : Prop :=
  map fst (topics_ src') = map fst (topics_ src)
  /\ Forall (fun p => entries p.2 = []) (topics_ src')
  /\ forall j q, topics_ dst !! j = Some q ->
       (exists p, p ∈ topics_ src /\ entries p.2 <> [] /\ key_of p.2 = key_of q.2
          /\ topics_ dst' !! j = Some (q.1, merge q.2 p.2))
       \/ (forall p, p ∈ topics_ src -> key_of p.2 = key_of q.2 -> entries p.2 = []) /\ topics_ dst' !! j = Some q.

Lemma flushTo_ok src dst : store_ok src -> store_ok dst ->
  exists src' dst' status, Store.flushTo src dst = Some (src', dst', status)
    /\ store_ok src' /\ store_ok dst'
    /\ match status with Ok _ => flushed src dst src' dst' | Err _ => src' = src /\ dst' = dst end.
Proof.
  intros Hsrc Hdst. unfold Store.flushTo.
  destruct (flush_plan_ok dst (topics_ src) Hdst (st_series _ Hsrc) 0 []) as (r & -> & Hr). cbn [mbind option_bind].
  destruct r as [plan|e]; [|by exists src, dst, (Err e)].
  destruct Hr as (? & -> & Hplan & Hnd & Hall). cbn [app]. rename x into plan.
  assert (Hsnd : NoDup (map snd plan)).
  { apply (NoDup_map_inj fst snd); [done|]. intros a b Ha Hb Hab. rewrite Forall_forall in Hplan.
    destruct (Hplan a Ha) as (k & p & q & Hk & Hp & _ & Hq & Hkey & _).
    destruct (Hplan b Hb) as (k' & p' & q' & Hk' & Hp' & _ & Hq' & Hkey' & _). rewrite Hab in Hq.
    assert (k = k') by (apply (key_injective src k k' p p'); [done|done|done|congruence]). lia. }
  destruct (flush_steps_ok plan src dst Hsrc Hdst Hplan Hnd Hsnd)
    as (src' & dst' & -> & Hs' & Hd' & Hids & Hfi & Hfj & Hmoved). cbn [mbind option_bind].
  exists src', dst', okStatus. split_and!; try done. rewrite Forall_forall in Hplan.
  assert (Hfind : forall p, p ∈ topics_ src -> entries p.2 <> [] -> exists i j q,
    (i, j) ∈ plan /\ topics_ src !! i = Some p /\ topics_ dst !! j = Some q /\ key_of q.2 = key_of p.2).
  { intros p [i Hi]%list_elem_of_lookup Hne. pose proof (Hall i p Hi Hne) as Hin.
    apply list_elem_of_fmap in Hin as ([i' j] & Heq & Hin). cbn in Heq. subst i'.
    destruct (Hplan _ Hin) as (k & p' & q & Hk & Hp & _ & Hq & Hkey & _). cbn in Hk, Hq. simplify_eq.
    exists k, j, q. split_and!; try done. unfold key_of. congruence. }
  split_and!; [done| |].
  - apply Forall_lookup. intros i p' Hp'. destruct (lookup_lt_is_Some_2 (topics_ src) i) as [p Hp].
    { apply lookup_lt_Some in Hp'. pose proof (f_equal length Hids) as Hl. rewrite !length_map in Hl. lia. }
    destruct (decide (entries p.2 = [])) as [He|He].
    + destruct (decide (i ∈ map fst plan)) as [Hin|Hnin]; [|rewrite Hfi in Hp' by done; by simplify_eq].
      apply list_elem_of_fmap in Hin as ([i' j] & -> & Hin).
      destruct (Hplan _ Hin) as (k & p2 & q & Hk & Hp2 & Hne & _). cbn in *. by simplify_eq.
    + destruct (Hfind p) as (i' & j & q & Hin & Hp2 & Hq & Hkey); [by eapply list_elem_of_lookup_2|done|].
      assert (i' = i) as -> by (by apply (key_injective src i' i p p)).
      destruct (Hmoved i j p q Hin Hp Hq) as [Hd _]. by simplify_eq.
  - intros j q Hq. destruct (decide (j ∈ map snd plan)) as [Hin|Hnin].
    + left. apply list_elem_of_fmap in Hin as ([i j'] & -> & Hin).
      destruct (Hplan _ Hin) as (k & p & q' & Hk & Hp & Hne & Hq' & Hkey & _). cbn in *. simplify_eq.
      exists p. destruct (Hmoved k j' p _ Hin Hp Hq).
      split_and!; try done; [by eapply list_elem_of_lookup_2|unfold key_of; congruence].
    + right. split; [|by rewrite Hfj]. intros p Hp Hkey. destruct (decide (entries p.2 = [])) as [|Hne]; [done|].
      destruct (Hfind p Hp Hne) as (i & j' & q' & Hin & _ & Hq' & Hkey'). exfalso. apply Hnin.
      assert (j' = j) as <- by (eapply (key_injective dst); [done|done|done|congruence]).
      by apply (list_elem_of_fmap_2' snd _ (i, j')).
Qed.

(** ** Reading *)

Lemma findSeries_ok st id s : store_ok st -> Store.findSeries st id = Some s -> series_ok s.
Proof.
  intros H. unfold Store.findSeries. destruct (Store.find_id id (topics_ st)) as [i|]; [|done]. cbn [mbind option_bind].
  destruct (topics_ st !! i) as [p|] eqn:Hi; [|done]. intros [= <-]. by apply (Forall_lookup_1 _ _ _ _ (st_series _ H) Hi).
Qed.

Lemma log_split t es : log_sorted es -> exists a b, es = a ++ b
  /\ Forall (fun e => entry_timestamp e <= t) a /\ Forall (fun e => t < entry_timestamp e) b.
Proof.
  induction es as [|e es IH]; intros H; [by exists [], []|]. pose proof (log_sorted_cons _ _ H) as [Hs Hall].
  destruct (decide (entry_timestamp e <= t)) as [Hle|Hgt].
  - destruct (IH Hs) as (a & b & -> & Ha & Hb). exists (e :: a), b. split_and!; [done|by constructor|done].
  - exists [], (e :: es). split_and!; [done|constructor|]. constructor; [lia|].
    eapply Forall_impl; [exact Hall|]. simpl. lia.
Qed.

Lemma filter_log_split t (a b : list ObjectEntry) : Forall (fun e => entry_timestamp e <= t) a ->
  Forall (fun e => t < entry_timestamp e) b -> filter (fun e => entry_timestamp e <= t) (a ++ b) = a.
Proof.
  intros Ha Hb. rewrite filter_app, filter_all by done. rewrite <- (app_nil_r a) at 2. f_equal.
  induction Hb as [|x l Hx _ IH]; [done|]. by rewrite filter_cons_False by lia.
Qed.

(** [std::upper_bound] of a log. *)
Lemma upper_bound_split t a b : Forall (fun e => entry_timestamp e <= t) a ->
  Forall (fun e => t < entry_timestamp e) b -> log_sorted (a ++ b) ->
  upper_bound (map entry_timestamp (a ++ b)) t = length a.
Proof.
  intros Ha Hb Hs. destruct (upper_bound_spec (map entry_timestamp (a ++ b)) t Hs) as (Hl & Hbefore & Hafter).
  set (r := upper_bound _ t) in *. rewrite length_map, length_app in Hl.
  change (map entry_timestamp) with (fmap (M := list) entry_timestamp) in *.
  destruct (Nat.lt_trichotomy r (length a)) as [Hlt|[|Hgt]]; [|done|]; exfalso.
  - destruct (lookup_lt_is_Some_2 a r Hlt) as [e He]. pose proof (Forall_lookup_1 _ _ _ _ Ha He).
    assert (Hx : (entry_timestamp <$> (a ++ b)) !! r = Some (entry_timestamp e)).
    { by rewrite list_lookup_fmap, lookup_app_l, He. }
    specialize (Hafter r _ ltac:(lia) Hx). simpl in *. lia.
  - destruct (lookup_lt_is_Some_2 b 0) as [e He]; [lia|]. pose proof (Forall_lookup_1 _ _ _ _ Hb He).
    assert (Hx : (entry_timestamp <$> (a ++ b)) !! length a = Some (entry_timestamp e)).
    { by rewrite list_lookup_fmap, lookup_app_r, Nat.sub_diag, He by lia. }
    specialize (Hbefore (length a) _ ltac:(lia) Hx). simpl in *. lia.
Qed.

Lemma indexAt_log s t : series_ok s -> exists a b, entries s = a ++ b
  /\ filter (fun e => entry_timestamp e <= t) (entries s) = a
  /\ Series.indexAt s t = match length a with O => None | S i => Some i end.
Proof.
  intros [Heq Hs]. destruct (log_split t (entries s) Hs) as (a & b & Hab & Ha & Hb). exists a, b.
  pose proof (f_equal entry_timestamps Heq) as Ht. cbn in Ht. unfold Series.indexAt. rewrite Ht, Hab in *.
  split_and!; [done|by apply filter_log_split|]. by rewrite (upper_bound_split t a b).
Qed.

Lemma latestAt_log st id s t : store_ok st -> Store.findSeries st id = Some s ->
  Store.latestAt st id t
  = Some (Series.resolveEntry <$> last (filter (fun e => entry_timestamp e <= t) (entries s))).
Proof.
  intros H Hf. unfold Store.latestAt. rewrite Hf.
  destruct (indexAt_log s t (findSeries_ok _ _ _ H Hf)) as (a & b & Hab & -> & ->).
  destruct a as [|e a _] using rev_ind; [done|]. rewrite length_app. cbn [length]. rewrite Nat.add_1_r.
  rewrite last_snoc, Hab, <- app_assoc. cbn [app]. by rewrite list_lookup_middle.
Qed.

(** ** The stores as a transition system *)

(** One call on a store; [step_register] needs an id that is left. *)
Inductive store_step : ObjectStore -> ObjectStore -> Prop :=
| step_register st d : 0 <= next_id_ st < 2 ^ 32 - 1 -> store_step st (Store.registerTopic st d).1
| step_push_owned st id t data st' status : Store.pushOwned st id t data = Some (st', status) -> store_step st st'
| step_push_lazy st id t fetch st' status : Store.pushLazy st id t fetch = Some (st', status) -> store_step st st'
| step_budget st id b : store_step st (Store.setRetentionBudget st id b)
| step_evict st id t st' : Store.evictBefore st id t = Some st' -> store_step st st'
| step_evict_all st t st' : Store.evictAllBefore st t = Some st' -> store_step st st'
| step_remove st id : store_step st (Store.removeTopic st id)
| step_clear st : store_step st (Store.clear st).

(** Two stores, each with its own calls, that flush into each other. *)
Inductive stores_step : ObjectStore * ObjectStore -> ObjectStore * ObjectStore -> Prop :=
| on_first a a' b : store_step a a' -> stores_step (a, b) (a', b)
| on_second a b b' : store_step b b' -> stores_step (a, b) (a, b')
| flush_first a b a' b' status : Store.flushTo a b = Some (a', b', status) -> stores_step (a, b) (a', b')
| flush_second a b a' b' status : Store.flushTo b a = Some (b', a', status) -> stores_step (a, b) (a', b').

Lemma store_step_ok st st' : store_step st st' -> store_ok st -> store_ok st'.
Proof.
  intros Hstep H. destruct Hstep as [st d Hn|st id t data st' status E|st id t fetch st' status E|
    st id b|st id t st' E|st t st' E|st id|st].
  - apply registerTopic_ok; [done|lia|lia].
  - destruct (push_entry_ok st id (mkEntry t (Owned (Some data))) H) as (? & ? & E' & ? & _).
    unfold Store.pushOwned in E. by simplify_eq.
  - destruct (push_entry_ok st id (mkEntry t (Lazy fetch)) H) as (? & ? & E' & ? & _).
    unfold Store.pushLazy in E. by simplify_eq.
  - by apply setRetentionBudget_ok.
  - destruct (evictBefore_ok st id t H) as (? & ? & ? & _). by simplify_eq.
  - destruct (evictAllBefore_ok st t H) as (? & ? & ? & _). by simplify_eq.
  - by apply removeTopic_ok.
  - apply clear_ok.
Qed.

Lemma stores_step_ok p p' : stores_step p p' -> store_ok p.1 /\ store_ok p.2 -> store_ok p'.1 /\ store_ok p'.2.
Proof.
  intros Hstep [Ha Hb]. destruct Hstep as [a a' b Hs|a b b' Hs|a b a' b' status E|a b a' b' status E]; cbn in *.
  - split; [by eapply store_step_ok|done].
  - split; [done|by eapply store_step_ok].
  - destruct (flushTo_ok a b Ha Hb) as (? & ? & ? & E' & ? & ? & _). by simplify_eq.
  - destruct (flushTo_ok b a Hb Ha) as (? & ? & ? & E' & ? & ? & _). by simplify_eq.
Qed.

Definition stores_reachable (p : ObjectStore * ObjectStore) : Prop :=
  rtc stores_step (Store.make, Store.make) p.

Lemma stores_reachable_ok p : stores_reachable p -> store_ok p.1 /\ store_ok p.2.
Proof.
  unfold stores_reachable. intros H. remember (Store.make, Store.make) as p0 eqn:E.
  assert (H0 : store_ok p0.1 /\ store_ok p0.2) by (subst; split; apply make_ok). clear E.
  induction H as [|p0 p1 p2 Hstep _ IH]; [done|]. by apply IH, (stores_step_ok p0).
Qed.

(** ** Properties *)

(** C27: Two stores, whatever calls they see and however they flush into each
    other, keep unique ids and keys, every series in time order and its memory
    count equal to the bytes its entries own (modulo 2^64); no call reads an
    empty vector. *)
Theorem stores_invariant p : stores_reachable p -> store_ok p.1 /\ store_ok p.2
  /\ (forall id e, is_Some (Store.push_entry p.1 id e))
  /\ (forall id t, is_Some (Store.evictBefore p.1 id t))
  /\ (forall t, is_Some (Store.evictAllBefore p.1 t))
  /\ is_Some (Store.flushTo p.1 p.2).
Proof.
  intros H. destruct (stores_reachable_ok p H) as [H1 H2]. split_and!; [done|done| | | |].
  - intros id e. destruct (push_entry_ok p.1 id e H1) as (? & ? & -> & _). eauto.
  - intros id t. destruct (evictBefore_ok p.1 id t H1) as (? & -> & _). eauto.
  - intros t. destruct (evictAllBefore_ok p.1 t H1) as (? & -> & _). eauto.
  - destruct (flushTo_ok p.1 p.2 H1 H2) as (? & ? & ? & -> & _). eauto.
Qed.

(** A push refines the log: a timestamp before the last one is refused and
    nothing changes; otherwise the entry is appended and retention keeps a
    suffix that is within the time window and the memory budget. *)
Theorem push_refines_log s e : series_ok s ->
  exists s' status, Series.push s e = Some (s', status) /\ series_ok s'
    /\ (entries s', status) = log_push (budget s) (entries s) e
    /\ (has_value status = true ->
        (exists n, entries s' = drop n (entries s ++ [e]))
        /\ (0 < max_memory_bytes (budget s) -> memory_bytes s' <= max_memory_bytes (budget s))
        /\ (0 < time_window_ns (budget s) ->
            Forall (fun x => i64 (entry_timestamp e - time_window_ns (budget s)) <= entry_timestamp x) (entries s'))).
Proof.
  intros [Heq Hs]. destruct (push_log (descriptor_of s) (budget s) (entries s) e Hs) as [Hpush Hs'].
  rewrite <- Heq in Hpush. do 2 eexists. split; [exact Hpush|]. split; [by apply series_ok_of_log|].
  split; [by destruct (log_push _ _ _)|]. cbn [entries memory_bytes of_log]. intros Hok.
  assert (Hret : (log_push (budget s) (entries s) e).1 = retain (budget s) (entry_timestamp e) (entries s ++ [e])
    /\ log_sorted (entries s ++ [e])).
  { unfold log_push in *. destruct (last (entries s)) as [back|] eqn:El.
    - destruct (Z.ltb_spec (entry_timestamp e) (entry_timestamp back)); [done|]. split; [done|].
      apply log_sorted_snoc; [done|]. intros b Hb. by simplify_eq.
    - split; [done|]. apply log_sorted_snoc; [done|]. intros b Hb. congruence. }
  destruct Hret as [-> Hsort]. split_and!.
  - by apply retain_suffix.
  - intros Hm. unfold retain. rewrite (proj2 (Z.ltb_lt 0 (max_memory_bytes _))) by done. apply fit_bound. lia.
  - intros Hw. unfold retain. rewrite (proj2 (Z.ltb_lt 0 (time_window_ns _))) by done.
    assert (Hf : Forall (fun x => i64 (entry_timestamp e - time_window_ns (budget s)) <= entry_timestamp x)
      (filter (fun x => i64 (entry_timestamp e - time_window_ns (budget s)) <= entry_timestamp x) (entries s ++ [e]))).
    { apply Forall_forall. by intros x [Hx _]%list_elem_of_filter. }
    destruct (0 <? max_memory_bytes (budget s)); [|done].
    destruct (fit_suffix (max_memory_bytes (budget s))
      (filter (fun x => i64 (entry_timestamp e - time_window_ns (budget s)) <= entry_timestamp x) (entries s ++ [e]))) as [n ->].
    by apply Forall_drop.
Qed.

(** The entry at a time is the last one not after it, resolved; an unknown
    topic has none. *)
Theorem object_latestAt st id t : store_ok st ->
  Store.latestAt st id t
  = Some (Store.findSeries st id ≫= fun s =>
          Series.resolveEntry <$> last (filter (fun e => entry_timestamp e <= t) (entries s))).
Proof.
  intros H. destruct (Store.findSeries st id) as [s|] eqn:E; [by rewrite (latestAt_log st id s t H E)|].
  unfold Store.latestAt. by rewrite E.
Qed.

(** [flushTo] is all or nothing: on an error neither store changes; on
    success the source keeps its topics and is empty, and each destination
    series with the key of a non-empty source series holds its own entries
    followed by the moved ones, after retention, while the others are
    unchanged. *)
Theorem flushTo_atomic src dst : store_ok src -> store_ok dst ->
  exists src' dst' status, Store.flushTo src dst = Some (src', dst', status)
    /\ store_ok src' /\ store_ok dst'
    /\ match status with Ok _ => flushed src dst src' dst' | Err _ => src' = src /\ dst' = dst end.
Proof. apply flushTo_ok. Qed.

(** Registration: a key that is present is refused and nothing changes; a
    new key gets an id no topic has, and is found under it, with an empty
    series. *)
Theorem registerTopic_spec st d : store_ok st ->
  let '(st', r) := Store.registerTopic st d in
  match r with
  | Err _ => st' = st /\ is_Some (Store.findTopic st (od_dataset_id d) (topic_name d))
  | Ok id => Store.findTopic st (od_dataset_id d) (topic_name d) = None
      /\ id ∉ Store.listTopics st
      /\ Store.findTopic st' (od_dataset_id d) (topic_name d) = Some id
      /\ Store.findSeries st' id = Some (empty_series d)
  end.
Proof.
  intros [Hids Hkeys Hfresh Hser]. unfold Store.registerTopic, Store.findTopic.
  destruct (Store.find_key _ _ _) as [i|] eqn:E.
  { destruct (find_key_Some _ _ _ _ E) as (p & Hi & _). split; [done|]. cbn [mbind option_bind].
    rewrite Hi. eauto. }
  cbn [topics_ mbind option_bind]. split; [done|].
  assert (Hnin : next_id_ st ∉ map fst (topics_ st)).
  { intros (p & Hp & Hin)%list_elem_of_fmap. rewrite Forall_forall in Hfresh. specialize (Hfresh p Hin). lia. }
  split; [done|].
  assert (Hkey : forall l, Store.find_key (od_dataset_id d) (topic_name d) l = None ->
    Store.find_key (od_dataset_id d) (topic_name d) (l ++ [(next_id_ st, empty_series d)]) = Some (length l)).
  { intros l. induction l as [|[tid s] l IH]; cbn; intros Hl.
    - by rewrite (proj2 (same_topic_true d _ _) eq_refl).
    - destruct (same_topic _ _ _); [done|]. destruct (Store.find_key _ _ l); [done|]. by rewrite IH. }
  assert (Hid : forall l, next_id_ st ∉ map fst l ->
    Store.find_id (next_id_ st) (l ++ [(next_id_ st, empty_series d)]) = Some (length l)).
  { intros l. induction l as [|[tid s] l IH]; cbn [app Store.find_id map fst length]; intros Hl; [by rewrite Z.eqb_refl|].
    apply not_elem_of_cons in Hl as [Hne Hl]. destruct (Z.eqb_spec tid (next_id_ st)) as [->|_]; [done|]. by rewrite IH. }
  unfold Store.findSeries. cbn [topics_]. rewrite Hkey, Hid by done. cbn [mbind option_bind].
  by rewrite list_lookup_middle.
Qed.

(** ** Witnesses *)

Definition demo_topic : ObjectTopicDescriptor := mkObjectTopic 3 "camera" "{}".
Definition demo_log : list ObjectEntry :=
  [mkEntry 10 (Owned (Some [z2b 1; z2b 2])); mkEntry 20 (Lazy (mkCallback [] (fun _ => makePayloadView [z2b 9]))); mkEntry 20 (Owned (Some [z2b 3]))].
Definition demo_series : ObjectSeries := of_log demo_topic (mkBudget 100 3) demo_log.
Definition demo_store : ObjectStore := mkStore [(1, demo_series)] 2.
Definition demo_empty_store : ObjectStore := mkStore [(4, of_log demo_topic default_budget [])] 5.

Lemma demo_object_series_ok : series_ok demo_series.
Proof. split; [done|]. repeat constructor; cbn; lia. Qed.

Lemma demo_store_ok : store_ok demo_store.
Proof. split; cbn; [apply NoDup_singleton|apply NoDup_singleton|by repeat constructor|]. repeat constructor; cbn; lia. Qed.

Lemma demo_empty_store_ok : store_ok demo_empty_store.
Proof. split; cbn; [apply NoDup_singleton|apply NoDup_singleton|by repeat constructor|]. repeat constructor; cbn; lia. Qed.

Lemma stores_invariant_witness : store_ok (Store.registerTopic Store.make demo_topic).1.
Proof.
  refine (proj1 (stores_invariant ((Store.registerTopic Store.make demo_topic).1, Store.make) _)).
  apply rtc_once, on_first, step_register. cbn. lia.
Defined.

(** Over the budget of 3 bytes, the oldest entry goes. *)
Lemma push_refines_log_witness : exists s', Series.push demo_series (mkEntry 30 (Owned (Some [z2b 5]))) = Some (s', okStatus)
  /\ map entry_timestamp (entries s') = [20; 20; 30].
Proof.
  destruct (push_refines_log demo_series (mkEntry 30 (Owned (Some [z2b 5]))) demo_object_series_ok)
    as (s' & status & Hpush & _ & Heq & _).
  injection Heq as He Hstatus. exists s'. split; [rewrite Hpush, Hstatus; reflexivity|].
  rewrite He. vm_compute. reflexivity.
Defined.

Lemma object_latestAt_witness : Store.latestAt demo_store 1 25 = Some (Some (mkResolved 20 (makePayloadView [z2b 3]))).
Proof. rewrite (object_latestAt demo_store 1 25 demo_store_ok). vm_compute. reflexivity. Defined.

Lemma flushTo_atomic_witness : exists src' dst', Store.flushTo demo_store demo_empty_store = Some (src', dst', okStatus)
  /\ flushed demo_store demo_empty_store src' dst'.
Proof.
  destruct (flushTo_atomic demo_store demo_empty_store demo_store_ok demo_empty_store_ok)
    as (src' & dst' & status & Hf & _ & _ & Hs).
  destruct status as [u|e]; [|exfalso; vm_compute in Hf; congruence].
  destruct u. exists src', dst'. split; [exact Hf|exact Hs].
Defined.

Lemma registerTopic_spec_witness : Store.findTopic demo_store 3 "camera" = Some 1
  /\ Store.findTopic (Store.registerTopic demo_store (mkObjectTopic 3 "lidar" "{}")).1 3 "lidar" = Some 2.
Proof.
  split; [reflexivity|].
  exact (proj1 (proj2 (proj2 (registerTopic_spec demo_store (mkObjectTopic 3 "lidar" "{}") demo_store_ok)))).
Defined.
