(* ===== verification/Holders.v ===== *)
(** * Holders: the closures the stores keep alive

    A lazy entry of [src/pj_datastore/src/object_store.cpp] owns its closure, and
    with it a share of what the closure captured.  No call copies a closure and
    only a push brings one in: whatever happens to the stores, what their
    closures hold is part of what they held and of what was pushed. *)

From S2P Require Import Prelude ObjectStore.

(** ** What entries, series and stores hold *)

Definition entry_holders (e : ObjectEntry) : list Z := match payload e with Lazy fetch => captured fetch | Owned _ => [] end.
Definition series_holders (s : ObjectSeries) : list Z := flat_map entry_holders (entries s).
Definition topics_holders (topics : list (Z * ObjectSeries)) : list Z := flat_map (fun p => series_holders p.2) topics.
Definition holders (st : ObjectStore) : list Z := topics_holders (topics_ st).

Lemma flat_map_submseteq {A B} (f : A -> list B) l l' : l ⊆+ l' -> flat_map f l ⊆+ flat_map f l'.
Proof.
  intros [k Hk]%submseteq_Permutation. rewrite (Permutation_flat_map f Hk), flat_map_app. by apply submseteq_inserts_r.
Qed.

Lemma flat_map_nil {A B} (f : A -> list B) l : (forall x, f x = []) -> flat_map f l = [].
Proof. intros H. induction l as [|x l IH]; [done|]. cbn. by rewrite H, IH. Qed.

(** Replacing one element. *)
Lemma flat_map_insert {A B} (f : A -> list B) (l : list A) i x y : l !! i = Some x ->
  flat_map f (<[i := y]> l) ++ f x ≡ₚ flat_map f l ++ f y.
Proof.
  intros Hi. pose proof (lookup_lt_Some _ _ _ Hi) as Hlt.
  rewrite insert_take_drop by done. rewrite <- (take_drop_middle _ _ _ Hi) at 3.
  rewrite !flat_map_app. cbn [flat_map]. rewrite <- !app_assoc. apply Permutation_app_head.
  rewrite (Permutation_app_comm (f y)), (Permutation_app_comm (f x)), <- !app_assoc.
  apply Permutation_app_head, Permutation_app_comm.
Qed.

Lemma submseteq_unique (l k : list Z) : l ⊆+ k -> NoDup k -> NoDup l.
Proof. intros [r ->]%submseteq_Permutation Hn. by apply NoDup_app in Hn as []. Qed.

Lemma filter_absent (l : list Z) : filter (fun x => x ∉ l) l = [].
Proof.
  destruct (filter _ l) as [|x xs] eqn:E; [done|]. assert (Hx : x ∈ filter (fun x => x ∉ l) l) by (rewrite E; left).
  by apply list_elem_of_filter in Hx as [].
Qed.

(** The elements of [k] that [l] lacks, for a part [l] of [k]. *)
Lemma filter_part (l k : list Z) : l ⊆+ k -> NoDup k -> k ≡ₚ filter (fun x => x ∉ l) k ++ l.
Proof.
  intros [r Hr]%submseteq_Permutation Hn. rewrite Hr in Hn |- *. apply NoDup_app in Hn as (_ & Hd & _).
  rewrite filter_app, filter_absent.
  assert (filter (fun x => x ∉ l) r = r) as ->; [|apply Permutation_app_comm].
  apply filter_all, Forall_forall. intros x Hx Hl. by eapply Hd.
Qed.

Lemma suffix_holders es es' : es `suffix_of` es' -> flat_map entry_holders es ⊆+ flat_map entry_holders es'.
Proof. intros [k ->]. rewrite flat_map_app. by apply submseteq_inserts_l. Qed.

(** ** The loops that evict *)

Lemma evictFront_suffix s s' : Series.evictFront s = Some s' -> entries s' `suffix_of` entries s.
Proof.
  unfold Series.evictFront. destruct (entries s) as [|e es] eqn:E; [by intros [= <-]; rewrite E|].
  destruct (entry_timestamps s); [done|]. intros [= <-]. by apply suffix_cons_r.
Qed.

Lemma evict_while_suffix cond fuel : forall s s', Series.evict_while cond fuel s = Some s' -> entries s' `suffix_of` entries s.
Proof.
  assert (Hbase : forall s s', Some s = Some s' -> entries s' `suffix_of` entries s) by by intros ? ? [= <-].
  induction fuel as [|fuel IH]; intros s s'; cbn [Series.evict_while].
  - destruct (entries s) eqn:Es; [intros [= <-]; by rewrite Es|]. rewrite <- Es. destruct (cond s) as [[]|]; [done|apply Hbase|done].
  - destruct (entries s) eqn:Es; [intros [= <-]; by rewrite Es|]. rewrite <- Es. destruct (cond s) as [[]|]; [|apply Hbase|done].
    cbn [mbind option_bind]. intros (s1 & H1 & H2)%bind_Some. etrans; [by eapply IH|by apply evictFront_suffix].
Qed.

Lemma applyRetention_suffix s t s' : Series.applyRetention s t = Some s' -> entries s' `suffix_of` entries s.
Proof.
  intros (s1 & H1 & H2)%bind_Some. assert (H1' : entries s1 `suffix_of` entries s).
  { destruct (0 <? time_window_ns _); [by eapply evict_while_suffix|by injection H1 as <-]. }
  destruct (0 <? max_memory_bytes _); [|by injection H2 as <-]. etrans; [by eapply evict_while_suffix|done].
Qed.

Lemma push_suffix s e s' status : Series.push s e = Some (s', status) ->
  match status with Ok _ => entries s' `suffix_of` entries s ++ [e] | Err _ => s' = s end.
Proof.
  unfold Series.push. intros H.
  assert (Hretain : (s1 ← Series.applyRetention (Series.append s e) (entry_timestamp e); Some (s1, okStatus)) = Some (s', status) ->
    match status with Ok _ => entries s' `suffix_of` entries s ++ [e] | Err _ => s' = s end).
  { intros (s1 & Hs1 & [= <- <-])%bind_Some. by apply applyRetention_suffix in Hs1. }
  destruct (last _) as [back|]; [|by apply Hretain]. destruct (_ <? _); [by injection H as <- <-|by apply Hretain].
Qed.

(** ** Calls on a store *)

(** Replacing one series. *)
Lemma put_series_holders topics i p s : topics !! i = Some p ->
  topics_holders (Store.put_series topics i s) ++ series_holders p.2 ≡ₚ topics_holders topics ++ series_holders s.
Proof. intros Hi. unfold Store.put_series. rewrite Hi. by apply (flat_map_insert (fun p => series_holders p.2)). Qed.

Lemma put_series_submseteq topics i p s more : topics !! i = Some p -> series_holders s ⊆+ series_holders p.2 ++ more ->
  topics_holders (Store.put_series topics i s) ⊆+ topics_holders topics ++ more.
Proof.
  intros Hi Hs. apply (submseteq_app_inv_r _ _ (series_holders p.2)). rewrite (put_series_holders _ _ _ _ Hi), <- app_assoc.
  apply submseteq_skips_l. by rewrite (Permutation_app_comm more).
Qed.

Lemma push_entry_holders st id e st' status : Store.push_entry st id e = Some (st', status) ->
  match status with Ok _ => holders st' ⊆+ holders st ++ entry_holders e | Err _ => st' = st end.
Proof.
  unfold Store.push_entry. destruct (Store.find_id id (topics_ st)) as [i|]; [|by intros [= <- <-]].
  intros (p & Hp & H)%bind_Some. apply bind_Some in H as ([s status1] & Hs & [= <- <-]).
  apply push_suffix in Hs. destruct status1.
  - eapply put_series_submseteq; [done|]. apply suffix_holders in Hs. by rewrite flat_map_app in Hs; cbn in Hs; rewrite app_nil_r in Hs.
  - subst s. unfold Store.put_series. destruct st as [topics n]. cbn in *. rewrite Hp. f_equal.
    destruct p as [k s]. by apply list_insert_id.
Qed.

Lemma setRetentionBudget_holders st id b : holders (Store.setRetentionBudget st id b) ⊆+ holders st.
Proof.
  unfold Store.setRetentionBudget. destruct (Store.find_id id (topics_ st)) as [i|]; [|done].
  destruct (topics_ st !! i) as [p|] eqn:Hp; [|done]. unfold holders at 1. cbn [topics_].
  rewrite <- (app_nil_r (holders st)). eapply put_series_submseteq; [done|]. by rewrite app_nil_r.
Qed.

Lemma evict_older_holders t s s' : Series.evict_older t s = Some s' -> series_holders s' ⊆+ series_holders s.
Proof. intros H. by eapply suffix_holders, evict_while_suffix. Qed.

Lemma evictBefore_holders st id t st' : Store.evictBefore st id t = Some st' -> holders st' ⊆+ holders st.
Proof.
  unfold Store.evictBefore. destruct (Store.find_id id (topics_ st)) as [i|]; [|by intros [= <-]].
  intros (p & Hp & H)%bind_Some. apply bind_Some in H as (s & Hs & [= <-]).
  rewrite <- (app_nil_r (holders st)). eapply put_series_submseteq; [done|]. rewrite app_nil_r. by eapply evict_older_holders.
Qed.

Lemma evictAllBefore_holders st t st' : Store.evictAllBefore st t = Some st' -> holders st' ⊆+ holders st.
Proof.
  intros (topics & H & [= <-])%bind_Some. unfold holders. cbn [topics_]. apply mapM_Some_1 in H.
  induction H as [|p q l k H _ IH]; [done|]. apply bind_Some in H as (s & Hs & [= <-]). cbn.
  apply submseteq_app; [by eapply evict_older_holders|done].
Qed.

Lemma removeTopic_holders st id : holders (Store.removeTopic st id) ⊆+ holders st.
Proof.
  unfold Store.removeTopic. destruct (Store.find_id id (topics_ st)) as [i|]; [|done].
  apply flat_map_submseteq, sublist_submseteq, sublist_delete.
Qed.

Lemma registerTopic_holders st d : holders (Store.registerTopic st d).1 = holders st.
Proof.
  unfold Store.registerTopic. destruct (Store.find_key _ _ _); [done|]. unfold holders, topics_holders. cbn.
  by rewrite flat_map_app, app_nil_r.
Qed.

(** ** Flushing one store into another *)

Lemma move_entries_holders src dst src' dst' : Store.move_entries src dst = Some (src', dst') ->
  series_holders src' = [] /\ series_holders dst' ⊆+ series_holders dst ++ series_holders src.
Proof.
  intros (d & Hd & [= <- <-])%bind_Some. split; [done|]. apply applyRetention_suffix in Hd. cbn in Hd.
  apply suffix_holders in Hd. by rewrite flat_map_app in Hd.
Qed.

Lemma flush_step_holders src dst step src' dst' : Store.flush_step (src, dst) step = Some (src', dst') ->
  holders src' ++ holders dst' ⊆+ holders src ++ holders dst.
Proof.
  destruct step as [i j]. cbn [Store.flush_step]. intros (p & Hp & H)%bind_Some. apply bind_Some in H as (q & Hq & H).
  apply bind_Some in H as ([s d] & H & [= <- <-]). apply move_entries_holders in H as [Hs Hd].
  unfold holders at 1 2. cbn [topics_]. pose proof (put_series_holders _ _ _ s Hp) as Hsrc. rewrite Hs, app_nil_r in Hsrc.
  pose proof (put_series_submseteq _ _ _ _ _ Hq Hd) as Hdst. fold (holders src) in Hsrc. fold (holders dst) in Hdst.
  rewrite <- Hsrc, <- app_assoc. apply submseteq_skips_l. by rewrite (Permutation_app_comm (series_holders p.2)).
Qed.

Lemma flush_steps_holders plan : forall src dst src' dst', Store.flush_steps (src, dst) plan = Some (src', dst') ->
  holders src' ++ holders dst' ⊆+ holders src ++ holders dst.
Proof.
  induction plan as [|step plan IH]; intros src dst src' dst'; cbn [Store.flush_steps]; [by intros [= <- <-]|].
  intros ([src1 dst1] & H1 & H2)%bind_Some. etrans; [by eapply IH|by eapply flush_step_holders].
Qed.

Lemma flushTo_holders src dst src' dst' status : Store.flushTo src dst = Some (src', dst', status) ->
  holders src' ++ holders dst' ⊆+ holders src ++ holders dst.
Proof.
  intros ([plan|e] & _ & H)%bind_Some; [|by injection H as <- <- _].
  apply bind_Some in H as ([s d] & H & [= <- <- _]). by eapply flush_steps_holders.
Qed.
