(* ===== verification/TypeTree.v ===== *)
(** * TypeTree: schema trees and the columns they stand for

    Models [src/pj_base/src/type_tree.cpp], and the three places that flatten a
    schema into columns: [buildColumnDescriptors] of
    [src/pj_datastore/src/writer.cpp], [columnsForTopic] of
    [src/pj_datastore/src/reader.cpp] and [countLeafFields].  A
    [shared_ptr<TypeTreeNode>] to a child is the child itself; a null element
    type is [None].  [std::to_string] and [fmt::format] of a number are
    [pretty].  The theorems say where the three agree. *)

From S2P Require Import Prelude Types.

Inductive TypeKind : Set := kPrimitive | kStruct | kArray | kEnum.

#[export] Instance TypeKind_eq_dec : EqDecision TypeKind.
Proof. solve_decision. Defined.

Record EnumMapping := mkEnumMapping {
  value_to_name : list (Z * string); name_to_value : list (string * Z) }.

#[warnings="-register-all"]
Inductive TypeTreeNode := mkNode {
  node_name : string;
  node_kind : TypeKind;
  semantic_tags : list string;
  primitive_type : option PrimitiveType;
  children : list TypeTreeNode;
  element_type : option TypeTreeNode;
  fixed_array_size : option nat;
  enum_mapping : option EnumMapping
}.

Definition makePrimitive (name : string) (type : PrimitiveType) : TypeTreeNode :=
  mkNode name kPrimitive [] (Some type) [] None None None.

Definition makeStruct (name : string) (children : list TypeTreeNode) : TypeTreeNode :=
  mkNode name kStruct [] None children None None None.

Definition makeArray (name : string) (element_type : TypeTreeNode) (fixed_size : option nat) : TypeTreeNode :=
  mkNode name kArray [] None [] (Some element_type) fixed_size None.

Definition makeEnum (name : string) (underlying_type : PrimitiveType) (mapping : EnumMapping) : TypeTreeNode :=
  mkNode name kEnum [] (Some underlying_type) [] None None (Some mapping).

(** [prefix.empty() ? name : prefix + "." + name] *)
Definition join_path (prefix name : string) : string :=
  if decide (prefix = "")%string then name else prefix +:+ "." +:+ name.

(** [path + "[" + std::to_string(idx) + "]"] *)
Definition index_path (path : string) (idx : nat) : string := path +:+ "[" +:+ pretty idx +:+ "]".

(** [flat_map] of a step that may fail. *)
Section FlatMapM.
Context {A B : Type} (f : A -> option (list B)).

Fixpoint flat_mapM (l : list A) : option (list B) :=
  match l with
  | [] => Some []
  | x :: l' => ys ← f x; zs ← flat_mapM l'; Some (ys ++ zs)
  end.

End FlatMapM.

(** ** Paths and counts *)

(** The [out] vector of the code is the list returned. *)
Fixpoint flatten_impl (node : TypeTreeNode) (prefix : string) : list string :=
  let current_path := join_path prefix (node_name node) in
  match node_kind node with
  | kStruct => flat_map (fun child => flatten_impl child current_path) (children node)
  | kArray =>
      match element_type node, fixed_array_size node with
      | Some e, Some n => flat_map (fun idx => flatten_impl e (index_path current_path idx)) (seq 0 n)
      | _, _ => []
      end
  | _ => [current_path]
  end.

Fixpoint count_leaf_fields_impl (node : TypeTreeNode) : nat :=
  match node_kind node with
  | kStruct => sum_list_with count_leaf_fields_impl (children node)
  | kArray =>
      match element_type node, fixed_array_size node with
      | Some e, Some n => n * count_leaf_fields_impl e
      | _, _ => 0
      end
  | _ => 1
  end.

Definition flattenFieldPaths (root : TypeTreeNode) : list string :=
  match node_kind root with
  | kStruct => flat_map (fun child => flatten_impl child "") (children root)
  | _ => [node_name root]
  end.

Definition countLeafFields (root : TypeTreeNode) : nat := count_leaf_fields_impl root.

(** ** The columns of the writer *)

Module WriterColumns.

(** [primitive_type.value_or(kFloat64)] *)
Definition leaf_type (node : TypeTreeNode) : PrimitiveType := default kFloat64 (primitive_type node).

(** A descriptor without its id: the ids of a vector are its positions. *)
Definition Leaf : Type := string * PrimitiveType.

(** [flatten_columns_impl], with [flatten_array_element_impl] at its call; the
    code dereferences the element type of a fixed array, [None] here. *)
Fixpoint flatten_columns_impl (node : TypeTreeNode) (prefix : string) : option (list Leaf) :=
  let current_path := join_path prefix (node_name node) in
  match node_kind node with
  | kStruct => flat_mapM (fun child => flatten_columns_impl child current_path) (children node)
  | kArray =>
      match fixed_array_size node with
      | None => Some []
      | Some n =>
          if decide (n = 0)%nat then Some []
          else
            match element_type node with
            | None => None
            | Some e =>
                flat_mapM (fun i =>
                  let element_path := index_path current_path i in
                  match node_kind e with
                  | kStruct => flat_mapM (fun child => flatten_columns_impl child element_path) (children e)
                  | _ => Some [(element_path, leaf_type e)]
                  end) (seq 0 n)
            end
      end
  | _ => Some [(current_path, leaf_type node)]
  end.

Definition flatten_array_element_impl (e : TypeTreeNode) (element_path : string) : option (list Leaf) :=
  match node_kind e with
  | kStruct => flat_mapM (fun child => flatten_columns_impl child element_path) (children e)
  | _ => Some [(element_path, leaf_type e)]
  end.

(** [next_field_id] counts from [first]. *)
Definition number_from (first : nat) (leaves : list Leaf) : list ColumnDescriptor :=
  imap (fun i '(path, type) => mkColumnDescriptor (Z.of_nat (first + i)) type path) leaves.

Definition build_leaves (root : TypeTreeNode) : option (list Leaf) :=
  match node_kind root with
  | kStruct => flat_mapM (fun child => flatten_columns_impl child "") (children root)
  | _ => Some [(node_name root, leaf_type root)]
  end.

Definition buildColumnDescriptors (root : TypeTreeNode) : option (list ColumnDescriptor) :=
  number_from 0 <$> build_leaves root.

End WriterColumns.

(** ** The columns of the reader *)

Module ReaderColumns.

Fixpoint flattenColumns (node : TypeTreeNode) (prefix : string) : list WriterColumns.Leaf :=
  let path := join_path prefix (node_name node) in
  match node_kind node with
  | kStruct => flat_map (fun child => flattenColumns child path) (children node)
  | kArray =>
      match element_type node, fixed_array_size node with
      | Some e, Some n =>
          flat_map (fun i =>
            let element_path := index_path path i in
            match node_kind e with
            | kStruct => flat_map (fun child => flattenColumns child element_path) (children e)
            | _ => [(element_path, WriterColumns.leaf_type e)]
            end) (seq 0 n)
      | _, _ => []
      end
  | _ => [(path, WriterColumns.leaf_type node)]
  end.

(** The last branch of [columnsForTopic]. *)
Definition tree_leaves (root : TypeTreeNode) : list WriterColumns.Leaf :=
  match node_kind root with
  | kStruct => flat_map (fun child => flattenColumns child "") (children root)
  | _ => flattenColumns root ""
  end.

Definition tree_columns (root : TypeTreeNode) : list ColumnDescriptor :=
  WriterColumns.number_from 0 (tree_leaves root).

End ReaderColumns.

(** ** Induction on schema trees *)

Section TreeInduction.
Context (P : TypeTreeNode -> Prop).
Context (IHnode : forall name kind tags pt cs e n m,
  Forall P cs -> (forall x, e = Some x -> P x) -> P (mkNode name kind tags pt cs e n m)).

Fixpoint TypeTreeNode_ind' (node : TypeTreeNode) : P node :=
  match node with
  | mkNode name kind tags pt cs e n m =>
      IHnode name kind tags pt cs e n m
        ((fix go (l : list TypeTreeNode) : Forall P l :=
            match l with
            | [] => Forall_nil_2 P
            | x :: l' => Forall_cons_2 P x l' (TypeTreeNode_ind' x) (go l')
            end) cs)
        (match e as e0 return (forall x, e0 = Some x -> P x) with
         | None => fun x H => ltac:(discriminate H)
         | Some y => fun x H => match H in _ = Some z return P z with eq_refl => TypeTreeNode_ind' y end
         end)
  end.
End TreeInduction.

(** A property of all nodes, which for the element of an array also gives it
    of the children of the element. *)
Lemma tree_ind_children (P : TypeTreeNode -> Prop) :
  (forall node, Forall P (children node) ->
    (forall e, element_type node = Some e -> P e /\ Forall P (children e)) -> P node) ->
  forall node, P node.
Proof.
  intros H node. enough (P node /\ Forall P (children node)) as [? _] by done.
  induction node as [name kind tags pt cs e n m IHcs IHe] using TypeTreeNode_ind'.
  assert (Forall P cs) by (eapply Forall_impl; [exact IHcs|by intros x [? _]]).
  split; [|done]. apply H; [done|]. intros x Hx. by apply IHe.
Qed.

(** ** Facts about the flattenings *)

Lemma length_flat_map_sum {A B} (f : A -> list B) (g : A -> nat) l :
  Forall (fun x => length (f x) = g x) l -> length (flat_map f l) = sum_list_with g l.
Proof. induction 1 as [|x l Hx _ IH]; [done|]. cbn. by rewrite length_app, Hx, IH. Qed.

Lemma sum_list_const {A} (l : list A) k : sum_list_with (fun _ => k) l = (length l * k)%nat.
Proof. induction l as [|x l IH]; [done|]. cbn. by rewrite IH. Qed.

Lemma flatten_impl_length node : forall prefix, length (flatten_impl node prefix) = count_leaf_fields_impl node.
Proof.
  induction node as [[name kind tags pt cs e n m] Hcs He] using tree_ind_children. intros prefix.
  destruct kind; cbn in *; try done.
  - apply length_flat_map_sum. eapply Forall_impl; [exact Hcs|]. auto.
  - destruct e as [e|]; [|done]. destruct n as [n|]; [|done]. destruct (He e eq_refl) as [Hlen _].
    rewrite (length_flat_map_sum _ (fun _ => count_leaf_fields_impl e)).
    + by rewrite sum_list_const, length_seq.
    + apply Forall_forall. auto.
Qed.

Lemma flat_mapM_Some {A B} (f : A -> option (list B)) (g : A -> list B) l r :
  Forall (fun x => forall y, f x = Some y -> g x = y) l -> flat_mapM f l = Some r -> flat_map g l = r.
Proof.
  intros H. revert r. induction H as [|x l Hx _ IH]; intros r Hr; cbn in *; [by simplify_eq|].
  destruct (f x) as [ys|] eqn:Ex; [|done]. destruct (flat_mapM f l) as [zs|]; [|done]. simplify_eq/=.
  by rewrite (Hx ys), (IH zs).
Qed.

(** The reader rebuilds the columns of the writer. *)
Lemma flattenColumns_agree node : forall prefix l,
  WriterColumns.flatten_columns_impl node prefix = Some l -> ReaderColumns.flattenColumns node prefix = l.
Proof.
  induction node as [[name kind tags pt cs e n m] Hcs He] using tree_ind_children. intros prefix l.
  destruct kind; cbn in *; intros Hl; try by simplify_eq.
  - eapply flat_mapM_Some; [|exact Hl]. eapply Forall_impl; [exact Hcs|]. auto.
  - destruct n as [n|]; [|simplify_eq; by destruct e]. case_decide as Hn; [subst; simplify_eq; by destruct e|].
    destruct e as [e|]; [|done]. destruct (He e eq_refl) as [_ Hchildren].
    eapply flat_mapM_Some; [|exact Hl]. apply Forall_forall. intros i _ y Hy.
    destruct (node_kind e); try by simplify_eq.
    eapply flat_mapM_Some; [|exact Hy]. eapply Forall_impl; [exact Hchildren|]. auto.
Qed.

(** No fixed array holds arrays. *)
Fixpoint flat_arrays (node : TypeTreeNode) : bool :=
  forallb flat_arrays (children node)
  && match node_kind node, element_type node with
     | kArray, Some e => negb (bool_decide (node_kind e = kArray)) && flat_arrays e
     | _, _ => true
     end.

Lemma flat_mapM_length {A B} (f : A -> option (list B)) (g : A -> nat) l r :
  Forall (fun x => forall y, f x = Some y -> length y = g x) l -> flat_mapM f l = Some r -> length r = sum_list_with g l.
Proof.
  intros H. revert r. induction H as [|x l Hx _ IH]; intros r Hr; cbn in *; [by simplify_eq|].
  destruct (f x) as [ys|] eqn:Ex; [|done]. destruct (flat_mapM f l) as [zs|]; [|done]. simplify_eq/=.
  rewrite length_app. by rewrite (Hx ys), (IH zs).
Qed.

Lemma flat_arrays_children node : flat_arrays node = true -> Forall (fun c => flat_arrays c = true) (children node).
Proof.
  destruct node. cbn. intros [H _]%andb_true_iff. apply Forall_forall. intros x Hx.
  rewrite forallb_forall in H. apply H. by apply list_elem_of_In.
Qed.

Lemma columns_length node : flat_arrays node = true -> forall prefix l,
  WriterColumns.flatten_columns_impl node prefix = Some l -> length l = count_leaf_fields_impl node.
Proof.
  induction node as [node Hcs He] using tree_ind_children. intros Hflat prefix l.
  pose proof (flat_arrays_children _ Hflat) as Hfc.
  destruct node as [name kind tags pt cs e n m].
  destruct kind; cbn in *; intros Hl; try by simplify_eq.
  - eapply flat_mapM_length; [|exact Hl]. apply Forall_forall. intros c Hc y Hy.
    rewrite Forall_forall in Hcs, Hfc. by eapply Hcs; [| |exact Hy]; auto.
  - destruct n as [n|]; [|simplify_eq; by destruct e]. case_decide as Hn; [subst; simplify_eq; by destruct e|].
    destruct e as [e|]; [|done]. destruct (He e eq_refl) as [_ Hchildren].
    apply andb_true_iff in Hflat as [_ [Hk Hfe]%andb_true_iff].
    rewrite (flat_mapM_length _ (fun _ => count_leaf_fields_impl e) _ _) with (2 := Hl).
    + by rewrite sum_list_const, length_seq.
    + apply Forall_forall. intros i _ y Hy. pose proof (flat_arrays_children _ Hfe) as Hfe'.
      destruct e as [name' kind' tags' pt' cs' e' n' m']. cbn in *. destruct kind'; try by simplify_eq.
      eapply flat_mapM_length; [|exact Hy]. apply Forall_forall. intros c Hc z Hz.
      rewrite Forall_forall in Hchildren, Hfe'. by eapply Hchildren; [| |exact Hz]; auto.
Qed.

(** Fixed arrays have an element type, so the writer reads no null pointer. *)
Fixpoint arrays_typed (node : TypeTreeNode) : bool :=
  forallb arrays_typed (children node)
  && match node_kind node, element_type node with
     | kArray, Some e => arrays_typed e
     | kArray, None => bool_decide (fixed_array_size node = None)
     | _, _ => true
     end.

Lemma arrays_typed_children node : arrays_typed node = true -> Forall (fun c => arrays_typed c = true) (children node).
Proof.
  destruct node. cbn. intros [H _]%andb_true_iff. apply Forall_forall. intros x Hx.
  rewrite forallb_forall in H. apply H. by apply list_elem_of_In.
Qed.

Lemma flat_mapM_total {A B} (f : A -> option (list B)) l :
  Forall (fun x => is_Some (f x)) l -> is_Some (flat_mapM f l).
Proof. induction 1 as [|x l [y Hy] _ [z Hz]]; cbn; [eauto|]. rewrite Hy, Hz. eauto. Qed.

Lemma columns_total node : arrays_typed node = true -> forall prefix,
  is_Some (WriterColumns.flatten_columns_impl node prefix).
Proof.
  induction node as [node Hcs He] using tree_ind_children. intros Ht prefix.
  pose proof (arrays_typed_children _ Ht) as Htc.
  destruct node as [name kind tags pt cs e n m]. rewrite Forall_forall in Hcs, Htc.
  destruct kind; cbn in *; eauto.
  - apply flat_mapM_total, Forall_forall. auto.
  - destruct n as [n|]; [|eauto]. case_decide; [eauto|]. apply andb_true_iff in Ht as [_ Ht].
    destruct e as [e|]; [|by apply bool_decide_eq_true in Ht]. destruct (He e eq_refl) as [_ Hch].
    pose proof (arrays_typed_children _ Ht) as Hte. rewrite Forall_forall in Hch, Hte.
    apply flat_mapM_total, Forall_forall. intros i _. destruct (node_kind e); eauto.
    apply flat_mapM_total, Forall_forall. auto.
Qed.

(** ** Properties *)

Lemma writer_reader_agree root : arrays_typed root = true -> node_kind root <> kArray ->
  WriterColumns.buildColumnDescriptors root = Some (ReaderColumns.tree_columns root).
Proof.
  intros Ht Hk. unfold WriterColumns.buildColumnDescriptors, WriterColumns.build_leaves,
    ReaderColumns.tree_columns, ReaderColumns.tree_leaves.
  pose proof (arrays_typed_children _ Ht) as Htc. destruct root as [name kind tags pt cs e n m]. cbn in *.
  destruct kind; try done.
  destruct (flat_mapM_total (fun c => WriterColumns.flatten_columns_impl c "") cs) as [l Hl].
  { eapply Forall_impl; [exact Htc|]. intros c Hc. by apply columns_total. }
  rewrite Hl. cbn. do 2 f_equal. symmetry. eapply flat_mapM_Some; [|exact Hl].
  apply Forall_forall. intros c _ y. apply flattenColumns_agree.
Qed.

(** C31: For a schema whose root is no array, and in which every array of fixed
    size has an element type, the columns a reader derives when a topic has
    neither stored columns nor chunks are the columns the writer builds for it,
    ids included.  For an array root they differ
    ([array_root_columns_differ]). *)
Theorem writer_reader_columns root : arrays_typed root = true -> node_kind root <> kArray ->
  WriterColumns.buildColumnDescriptors root = Some (ReaderColumns.tree_columns root).
Proof. apply writer_reader_agree. Qed.

(** [countLeafFields], [flattenFieldPaths] and the columns of the writer
    have one length on struct schemas whose fixed arrays hold no arrays. *)
Theorem leaf_counts_agree root columns : node_kind root = kStruct -> flat_arrays root = true ->
  WriterColumns.buildColumnDescriptors root = Some columns ->
  length columns = countLeafFields root /\ length (flattenFieldPaths root) = countLeafFields root.
Proof.
  intros Hk Hf Hb. pose proof (flat_arrays_children _ Hf) as Hfc.
  destruct root as [name kind tags pt cs e n m]. cbn in Hk. subst kind.
  unfold WriterColumns.buildColumnDescriptors, WriterColumns.build_leaves in Hb. cbn in *.
  destruct (flat_mapM _ cs) as [l|] eqn:El; [|done]. simplify_eq/=. split.
  - unfold WriterColumns.number_from. rewrite length_imap. eapply flat_mapM_length; [|exact El].
    eapply Forall_impl; [exact Hfc|]. intros c Hc y. by apply columns_length.
  - unfold flattenFieldPaths. cbn. apply length_flat_map_sum, Forall_forall. intros c _. apply flatten_impl_length.
Qed.

(** An array as the root is one column of its own name for the writer, and one
    per element for the reader. *)
Example array_root_columns_differ :
  let root := makeArray "v" (makePrimitive "x" kInt32) (Some 2%nat) in
  WriterColumns.buildColumnDescriptors root = Some [mkColumnDescriptor 0 kFloat64 "v"]
  /\ ReaderColumns.tree_columns root = [mkColumnDescriptor 0 kInt32 "v[0]"; mkColumnDescriptor 1 kInt32 "v[1]"].
Proof. split; reflexivity. Qed.

(** An array of arrays is one column per outer element for the writer, and one
    per inner element for [countLeafFields]. *)
Example nested_arrays_counts_differ :
  let root := makeStruct "Root" [makeArray "m" (makeArray "row" (makePrimitive "v" kFloat64) (Some 3%nat)) (Some 2%nat)] in
  countLeafFields root = 6%nat
  /\ option_map length (WriterColumns.buildColumnDescriptors root) = Some 2%nat.
Proof. split; reflexivity. Qed.

(** ** Witnesses *)

Definition demo_tree : TypeTreeNode :=
  makeStruct "Robot"
    [makePrimitive "id" kInt32;
     makeStruct "pose" [makePrimitive "x" kFloat64; makePrimitive "y" kFloat64];
     makeArray "points" (makeStruct "point" [makePrimitive "u" kFloat32]) (Some 2%nat);
     makeArray "dynamic" (makePrimitive "v" kFloat32) None].

Lemma writer_reader_columns_witness :
  map field_path (ReaderColumns.tree_columns demo_tree) = ["id"; "pose.x"; "pose.y"; "points[0].u"; "points[1].u"]%string
  /\ WriterColumns.buildColumnDescriptors demo_tree = Some (ReaderColumns.tree_columns demo_tree).
Proof. split; [reflexivity|]. apply writer_reader_columns; [reflexivity|discriminate]. Defined.

Lemma leaf_counts_agree_witness : length (ReaderColumns.tree_columns demo_tree) = countLeafFields demo_tree.
Proof.
  refine (proj1 (leaf_counts_agree demo_tree (ReaderColumns.tree_columns demo_tree) _ _ _)); reflexivity.
Defined.
