(* ===== verification/TypeRegistry.v ===== *)
(** * TypeRegistry: schemas by id and by name

    Models [src/pj_datastore/src/type_registry.cpp].  The two [robin_map]s are
    [gmap]s; both are only looked up and inserted into.  [fmt::format] of an id
    or a name is the text it yields. *)

From S2P Require Import Prelude Types TypeTree.

Record TypeRegistry := mkRegistry {
  next_id : Z;
  schemas : gmap Z TypeTreeNode;
  name_to_id : gmap string Z
}.

Module Registry.

Definition make : TypeRegistry := mkRegistry 1 ∅ ∅.

(** A leaf path with its type. *)
Definition LeafType : Type := string * PrimitiveType.

Definition typed_leaf (path : string) (t : option PrimitiveType) : list LeafType :=
  match t with Some t => [(path, t)] | None => [] end.

Fixpoint flatten_leaf_types_impl (node : TypeTreeNode) (prefix : string) : list LeafType :=
  let current_path := join_path prefix (node_name node) in
  match node_kind node with
  | kPrimitive => typed_leaf current_path (primitive_type node)
  | kEnum => typed_leaf current_path (primitive_type node)
  | kArray =>
      match element_type node with
      | Some e => typed_leaf current_path (primitive_type e)
      | None => []
      end
  | kStruct => flat_map (fun child => flatten_leaf_types_impl child current_path) (children node)
  end.

Definition flatten_leaf_types (root : TypeTreeNode) : list LeafType :=
  match node_kind root with
  | kStruct => flat_map (fun child => flatten_leaf_types_impl child "") (children root)
  | _ => typed_leaf (node_name root) (primitive_type root)
  end.

Definition registerSchema (r : TypeRegistry) (schema_name : string) (tree : TypeTreeNode)
  : TypeRegistry * Expected Z :=
  match name_to_id r !! schema_name with
  | Some _ => (r, Err ("Schema '" +:+ schema_name +:+ "' already registered"))
  | None =>
      let id := next_id r in
      (mkRegistry (u32 (id + 1)) (<[id := tree]> (schemas r)) (<[schema_name := id]> (name_to_id r)), Ok id)
  end.

Definition registerOrGet (r : TypeRegistry) (schema_name : string) (tree : TypeTreeNode)
  : TypeRegistry * Expected Z :=
  match name_to_id r !! schema_name with
  | Some id => (r, Ok id)
  | None => registerSchema r schema_name tree
  end.

Definition lookup (r : TypeRegistry) (id : Z) : option TypeTreeNode := schemas r !! id.

Definition findByName (r : TypeRegistry) (name : string) : option Z := name_to_id r !! name.

(** [emplace] keeps the first of two leaves with one path. *)
Definition leaf_map (leaves : list LeafType) : gmap string PrimitiveType :=
  fold_left (fun m '(path, t) => match m !! path with Some _ => m | None => <[path := t]> m end) leaves ∅.

Fixpoint check_leaves (old_leaves : list LeafType) (new_leaf_map : gmap string PrimitiveType) : Status :=
  match old_leaves with
  | [] => okStatus
  | (old_path, old_type) :: rest =>
      match new_leaf_map !! old_path with
      | None => Err ("Field '" +:+ old_path +:+ "' was removed in the updated schema")
      | Some new_type =>
          if decide (new_type = old_type) then check_leaves rest new_leaf_map
          else Err ("Field '" +:+ old_path +:+ "' changed type in the updated schema")
      end
  end.

Definition evolveSchema (r : TypeRegistry) (id : Z) (updated_tree : TypeTreeNode) : TypeRegistry * Status :=
  match schemas r !! id with
  | None => (r, Err ("Schema ID " +:+ pretty id +:+ " not found"))
  | Some old_tree =>
      let old_leaves := flatten_leaf_types old_tree in
      let new_leaf_map := leaf_map (flatten_leaf_types updated_tree) in
      match check_leaves old_leaves new_leaf_map with
      | Err e => (r, Err e)
      | Ok _ => (mkRegistry (next_id r) (<[id := updated_tree]> (schemas r)) (name_to_id r), okStatus)
      end
  end.

End Registry.

(** ** The invariant *)

(** Every name has a schema, no two names share an id, and the next id is
    fresh. *)
Record registry_ok (r : TypeRegistry) : Prop := {
  rg_named : forall name id, name_to_id r !! name = Some id -> is_Some (schemas r !! id);
  rg_unique : forall n n' id, name_to_id r !! n = Some id -> name_to_id r !! n' = Some id -> n = n';
  rg_fresh : forall id, is_Some (schemas r !! id) -> 0 < id < next_id r;
  rg_next : 0 < next_id r
}.

Inductive registry_step : TypeRegistry -> TypeRegistry -> Prop :=
| step_registerSchema r name tree : next_id r + 1 < 2 ^ 32 ->
    registry_step r (Registry.registerSchema r name tree).1
| step_registerOrGet r name tree : next_id r + 1 < 2 ^ 32 ->
    registry_step r (Registry.registerOrGet r name tree).1
| step_evolveSchema r id tree : registry_step r (Registry.evolveSchema r id tree).1.

Definition registry_reachable (r : TypeRegistry) : Prop := rtc registry_step Registry.make r.

Lemma make_registry_ok : registry_ok Registry.make.
Proof.
  split; cbn; [intros ? ?|intros ? ? ?|intros ?|lia]; rewrite ?lookup_empty; try done.
Qed.

Lemma registerSchema_ok r name tree : registry_ok r -> next_id r + 1 < 2 ^ 32 ->
  registry_ok (Registry.registerSchema r name tree).1.
Proof.
  intros [Hn Hu Hf H0] Hlt. unfold Registry.registerSchema. destruct (name_to_id r !! name) eqn:E; [done|].
  assert (Hfresh : schemas r !! next_id r = None).
  { destruct (schemas r !! next_id r) eqn:Es; [|done]. specialize (Hf (next_id r) ltac:(eauto)). lia. }
  split; cbn.
  - intros n id. destruct (decide (n = name)) as [->|Hne]; [rewrite lookup_insert_eq|rewrite lookup_insert_ne by done].
    + intros [= <-]. rewrite lookup_insert_eq. eauto.
    + intros Hid. destruct (decide (id = next_id r)) as [->|]; [rewrite lookup_insert_eq; eauto|].
      rewrite lookup_insert_ne by done. by eapply Hn.
  - intros n n' id. destruct (decide (n = name)) as [->|Hne], (decide (n' = name)) as [->|Hne'];
      rewrite ?lookup_insert_eq, ?lookup_insert_ne by done; try done.
    + intros [= <-] H. apply Hn in H. rewrite Hfresh in H. by destruct H.
    + intros H [= <-]. apply Hn in H. rewrite Hfresh in H. by destruct H.
    + apply Hu.
  - intros id Hid. rewrite (wrapU_small 32) by (split; lia).
    destruct (decide (id = next_id r)) as [->|]; [lia|]. rewrite lookup_insert_ne in Hid by done.
    specialize (Hf id Hid). lia.
  - rewrite (wrapU_small 32) by (split; lia). lia.
Qed.

Lemma evolveSchema_ok r id tree : registry_ok r -> registry_ok (Registry.evolveSchema r id tree).1.
Proof.
  intros [Hn Hu Hf H0]. unfold Registry.evolveSchema. destruct (schemas r !! id) eqn:E; [|done].
  destruct (Registry.check_leaves _ _); [|done]. split; cbn; try done.
  - intros name i Hi. destruct (decide (i = id)) as [->|]; [rewrite lookup_insert_eq; eauto|].
    rewrite lookup_insert_ne by done. by eapply Hn.
  - intros i Hi. destruct (decide (i = id)) as [->|]; [apply Hf; eauto|]. rewrite lookup_insert_ne in Hi by done. auto.
Qed.

Lemma registry_step_ok r r' : registry_step r r' -> registry_ok r -> registry_ok r'.
Proof.
  intros Hstep H. destruct Hstep as [r name tree Hlt|r name tree Hlt|r id tree].
  - by apply registerSchema_ok.
  - unfold Registry.registerOrGet. destruct (name_to_id r !! name); [done|]. by apply registerSchema_ok.
  - by apply evolveSchema_ok.
Qed.

Lemma registry_reachable_ok r : registry_reachable r -> registry_ok r.
Proof.
  unfold registry_reachable. intros H. remember Registry.make as r0 eqn:E.
  assert (H0 : registry_ok r0) by (subst; apply make_registry_ok). clear E.
  induction H as [|r0 r1 r2 Hstep _ IH]; [done|]. by apply IH, (registry_step_ok r0).
Qed.

(** ** Evolution *)

(** The type of the first leaf with the path. *)
Fixpoint first_leaf (path : string) (leaves : list Registry.LeafType) : option PrimitiveType :=
  match leaves with
  | [] => None
  | (p, t) :: rest => if decide (p = path) then Some t else first_leaf path rest
  end.

Lemma leaf_map_first leaves path : Registry.leaf_map leaves !! path = first_leaf path leaves.
Proof.
  unfold Registry.leaf_map.
  assert (H : forall m : gmap string PrimitiveType, fold_left (fun m '(p, t) => match m !! p with Some _ => m | None => <[p := t]> m end) leaves m !! path
    = match m !! path with Some t => Some t | None => first_leaf path leaves end).
  { induction leaves as [|[p t] leaves IH]; intros m; cbn; [by destruct (m !! path)|]. rewrite IH.
    destruct (m !! p) as [t'|] eqn:Ep; case_decide as Hp; subst.
    - by rewrite Ep.
    - done.
    - by rewrite lookup_insert_eq, Ep.
    - by rewrite lookup_insert_ne. }
  by rewrite H, lookup_empty.
Qed.

Lemma check_leaves_spec old_leaves m :
  match Registry.check_leaves old_leaves m with
  | Ok _ => Forall (fun '(path, t) => m !! path = Some t) old_leaves
  | Err _ => Exists (fun '(path, t) => m !! path <> Some t) old_leaves
  end.
Proof.
  induction old_leaves as [|[path t] rest IH]; cbn; [constructor|].
  destruct (m !! path) as [t'|] eqn:E; [|constructor; by rewrite E].
  case_decide; [|constructor; rewrite E; congruence]. subst.
  destruct (Registry.check_leaves rest m); by constructor.
Qed.

(** ** Leaves

    What the fields of a schema are, without the traversal of the code. *)

(** The type of the values a field holds, if it is a leaf. *)
Inductive value_type : TypeTreeNode -> PrimitiveType -> Prop :=
| value_primitive n t : node_kind n = kPrimitive -> primitive_type n = Some t -> value_type n t
| value_enum n t : node_kind n = kEnum -> primitive_type n = Some t -> value_type n t
| value_array n e t : node_kind n = kArray -> element_type n = Some e -> primitive_type e = Some t -> value_type n t.

(** The names from a node down to one of its fields. *)
Inductive reaches : TypeTreeNode -> list string -> TypeTreeNode -> Prop :=
| reaches_self n : reaches n [node_name n] n
| reaches_child s c names n : node_kind s = kStruct -> c ∈ children s -> reaches c names n ->
    reaches s (node_name s :: names) n.

(** The names after a prefix, with dots; an empty prefix has none. *)
Definition dotted (prefix : string) (names : list string) : string :=
  fold_left (fun path name => if decide (path = "") then name else path +:+ "." +:+ name) names prefix.

(** A leaf of a schema: the root itself, or what its children reach; the name of
    a root struct is no part of the path. *)
Inductive leaf (root : TypeTreeNode) : string -> PrimitiveType -> Prop :=
| leaf_root t : node_kind root <> kStruct -> primitive_type root = Some t -> leaf root (node_name root) t
| leaf_field c names n t : node_kind root = kStruct -> c ∈ children root -> reaches c names n -> value_type n t ->
    leaf root (dotted "" names) t.

Lemma reaches_cons node names n : reaches node names n -> exists names', names = node_name node :: names'.
Proof. destruct 1; eauto. Qed.

Lemma typed_leaf_in path o p t : (p, t) ∈ Registry.typed_leaf path o <-> p = path /\ o = Some t.
Proof.
  destruct o as [t'|]; cbn; [rewrite list_elem_of_singleton; naive_solver|]. split; [by intros ?%not_elem_of_nil|naive_solver].
Qed.

Lemma in_flat_map_iff {A B} (f : A -> list B) l y : y ∈ flat_map f l <-> exists x, x ∈ l /\ y ∈ f x.
Proof. rewrite list_elem_of_In, in_flat_map. by setoid_rewrite list_elem_of_In. Qed.

Lemma flatten_impl_spec node : forall prefix path t, (path, t) ∈ Registry.flatten_leaf_types_impl node prefix <->
  exists names n, reaches node names n /\ value_type n t /\ path = dotted prefix names.
Proof.
  induction node as [name kind tags pt cs et fs em IH _] using TypeTreeNode_ind'; intros prefix path t.
  set (node := mkNode name kind tags pt cs et fs em) in *.
  assert (Hself : forall o, (forall t, value_type node t <-> o = Some t) -> kind <> kStruct ->
    (path, t) ∈ Registry.typed_leaf (join_path prefix name) o <->
    exists names n, reaches node names n /\ value_type n t /\ path = dotted prefix names).
  { intros o Ho Hk. rewrite typed_leaf_in. split.
    - intros [-> Ht]. exists [name], node. split_and!; [apply reaches_self|by apply Ho|done].
    - intros (names & n & Hr & Hv & ->). inversion Hr as [|? ? ? ? Hks]; subst; [|done]. split; [done|]. by apply Ho. }
  destruct kind; cbn [Registry.flatten_leaf_types_impl node node_kind node_name].
  - apply Hself; [|done]. intros t'. split; [by inversion 1|]. intros. by apply value_primitive.
  - rewrite in_flat_map_iff. split.
    + intros (c & Hc & Hin). rewrite Forall_forall in IH. apply (IH c Hc) in Hin as (names & n & Hr & Hv & ->).
      exists (name :: names), n. split_and!; [by eapply (reaches_child node)|done|done].
    + intros (names & n & Hr & Hv & ->). inversion Hr as [|? c names' ? _ Hc Hr']; subst; [by inversion Hv|].
      exists c. split; [done|]. rewrite Forall_forall in IH. apply (IH c Hc). by exists names', n.
  - assert (Hv : forall t, value_type node t <-> (et ≫= primitive_type) = Some t).
    { intros t'. split; [inversion 1; simplify_option_eq; done|]. intros (e & He & Ht)%bind_Some. by eapply value_array. }
    specialize (Hself _ Hv ltac:(done)). by destruct et.
  - apply Hself; [|done]. intros t'. split; [by inversion 1|]. intros. by apply value_enum.
Qed.

(** The traversal finds the leaves. *)
Lemma flatten_leaf_types_spec root path t : (path, t) ∈ Registry.flatten_leaf_types root <-> leaf root path t.
Proof.
  unfold Registry.flatten_leaf_types. destruct (decide (node_kind root = kStruct)) as [Hk|Hk].
  - rewrite Hk, in_flat_map_iff. setoid_rewrite flatten_impl_spec. split.
    + intros (c & Hc & names & n & Hr & Hv & ->). by eapply leaf_field.
    + destruct 1 as [|c names n t _ Hc Hr Hv]; [done|]. by exists c; split; [|exists names, n].
  - transitivity ((path, t) ∈ Registry.typed_leaf (node_name root) (primitive_type root)).
    { by destruct (node_kind root). }
    rewrite typed_leaf_in. split; [intros [-> Ht]; by apply leaf_root|]. by destruct 1.
Qed.

Lemma first_leaf_in path t leaves : first_leaf path leaves = Some t -> (path, t) ∈ leaves.
Proof.
  induction leaves as [|[p t'] rest IH]; [done|]. cbn [first_leaf]. case_decide as Hp; [intros [= ->]; subst; left|].
  intros Hf. right. by apply IH.
Qed.

Lemma first_leaf_None path t leaves : first_leaf path leaves = None -> (path, t) ∉ leaves.
Proof.
  induction leaves as [|[p t'] rest IH]; [intros _; apply not_elem_of_nil|]. cbn [first_leaf]. case_decide as Hp; [done|].
  intros Hf. apply not_elem_of_cons. split; [congruence|by apply IH].
Qed.

(** ** Properties *)

(** Whatever a registry has seen, every name leads to a schema, no id has
    two names, a name that is present is refused without effect, and a new one
    gets an id no schema has and is found with its tree. *)
Theorem registerSchema_spec r name tree : registry_reachable r ->
  let '(r', result) := Registry.registerSchema r name tree in
  match result with
  | Err _ => r' = r /\ is_Some (Registry.findByName r name)
  | Ok id => Registry.findByName r name = None /\ Registry.lookup r id = None
      /\ Registry.findByName r' name = Some id /\ Registry.lookup r' id = Some tree
      /\ (forall other, other <> name -> Registry.findByName r' other = Registry.findByName r other)
      /\ (forall i, i <> id -> Registry.lookup r' i = Registry.lookup r i)
  end.
Proof.
  intros H%registry_reachable_ok. unfold Registry.registerSchema, Registry.findByName, Registry.lookup.
  destruct (name_to_id r !! name) eqn:E; [by split; [|eauto]|]. cbn.
  split_and!; [done| |by rewrite lookup_insert_eq|by rewrite lookup_insert_eq| |].
  - destruct (schemas r !! next_id r) eqn:Es; [|done]. pose proof (rg_fresh _ H (next_id r) ltac:(eauto)). lia.
  - intros other Hne. by rewrite lookup_insert_ne.
  - intros i Hne. by rewrite lookup_insert_ne.
Qed.

(** C32: Schema evolution is additive on the leaves of the trees, which are their
    primitives, enums and arrays of primitives, wherever structs lead to them:
    it succeeds only if every leaf of the old tree is a leaf of the new one, with
    its path and type, and then only replaces that schema; it fails only if the
    id is unknown, or a leaf of the old tree is none of the new one, or its path
    has another type there, and then the registry does not change.  The fields of
    an array of structs are no leaves: an update may drop them
    ([evolve_drops_struct_arrays]). *)
Theorem evolveSchema_spec r id tree : let '(r', status) := Registry.evolveSchema r id tree in
  match status with
  | Ok _ => exists old, Registry.lookup r id = Some old /\ Registry.lookup r' id = Some tree
      /\ (forall i, i <> id -> Registry.lookup r' i = Registry.lookup r i)
      /\ (forall name, Registry.findByName r' name = Registry.findByName r name)
      /\ (forall path t, leaf old path t -> leaf tree path t)
  | Err _ => r' = r /\ (forall old, Registry.lookup r id = Some old ->
      exists path t, leaf old path t /\ (~ leaf tree path t \/ exists t', leaf tree path t' /\ t' <> t))
  end.
Proof.
  unfold Registry.evolveSchema, Registry.lookup, Registry.findByName.
  destruct (schemas r !! id) as [old|] eqn:E; [|by split; [|congruence]].
  pose proof (check_leaves_spec (Registry.flatten_leaf_types old) (Registry.leaf_map (Registry.flatten_leaf_types tree))) as Hc.
  destruct (Registry.check_leaves _ _) as [u|e]; cbn.
  - exists old. split_and!; [done|by rewrite lookup_insert_eq|by intros; rewrite lookup_insert_ne|done|].
    intros path t Hl%flatten_leaf_types_spec. rewrite Forall_forall in Hc. specialize (Hc _ Hl). cbn in Hc.
    rewrite leaf_map_first in Hc. by apply flatten_leaf_types_spec, first_leaf_in.
  - split; [done|]. intros ? [= <-]. apply Exists_exists in Hc as ([path t] & Hl & Hne). rewrite leaf_map_first in Hne.
    exists path, t. split; [by apply flatten_leaf_types_spec|].
    destruct (first_leaf path _) as [t'|] eqn:Ef.
    + right. exists t'. split; [by apply flatten_leaf_types_spec, first_leaf_in|congruence].
    + left. intros Ht%flatten_leaf_types_spec. by apply (first_leaf_None path t) in Ef.
Qed.

(** An array of structs has no leaf, so an update may drop it. *)
Example evolve_drops_struct_arrays :
  let old := makeStruct "T" [makePrimitive "id" kInt32; makeArray "poses" (makeStruct "Pose" [makePrimitive "x" kFloat64]) (Some 3%nat)] in
  let new := makeStruct "T" [makePrimitive "id" kInt32] in
  (Registry.evolveSchema (Registry.registerSchema Registry.make "T" old).1 1 new).2 = okStatus.
Proof. vm_compute. reflexivity. Qed.

(** ** Witnesses *)

Lemma demo_registry_reachable : registry_reachable (Registry.registerSchema Registry.make "Robot" demo_tree).1.
Proof. apply rtc_once, step_registerSchema. vm_compute. reflexivity. Qed.

Lemma registerSchema_spec_witness :
  Registry.findByName (Registry.registerSchema (Registry.registerSchema Registry.make "Robot" demo_tree).1
    "Imu" (makePrimitive "v" kFloat64)).1 "Imu" = Some 2.
Proof.
  exact (proj1 (proj2 (proj2 (registerSchema_spec _ "Imu" (makePrimitive "v" kFloat64) demo_registry_reachable)))).
Defined.

(** Dropping fields is refused; some leaf is then missing. *)
Lemma evolveSchema_spec_witness :
  let r := (Registry.registerSchema Registry.make "Robot" demo_tree).1 in
  let new := makeStruct "Robot" [makePrimitive "id" kInt32] in
  exists path t, leaf demo_tree path t /\ (~ leaf new path t \/ exists t', leaf new path t' /\ t' <> t).
Proof.
  intros r new. pose proof (evolveSchema_spec r 1 new) as H.
  destruct (Registry.evolveSchema r 1 new) as [r' status] eqn:E. vm_compute in E.
  apply (f_equal snd) in E. cbn [snd] in E. subst status. destruct H as [_ H]. apply (H demo_tree). by vm_compute.
Defined.
