(* ===== verification/Engine.v ===== *)
(** * Engine: datasets, topics, the commit cycle and the flush between engines

    Models [src/pj_datastore/src/engine.cpp].  The [robin_map]s are [gmap]s; the
    order in which one is iterated, which that library leaves open, is the
    function [iter] of the section, of which only that it lists the map is
    assumed.  A pointer to a topic storage is its id. *)

From S2P Require Import Prelude Types TypeTree TypeRegistry Buffer Encoding Column Chunk Query TopicStorage.

Record TimeDomain := mkTimeDomain { td_id : Z; td_name : string; display_offset : Z }.
Record DatasetDescriptor := mkDatasetDescriptor { dd_source_name : string; dd_time_domain_id : Z }.
Record DatasetInfo := mkDatasetInfo {
  ds_id : Z; source_name : string; time_domain : TimeDomain; topic_ids : list Z }.

Record DataEngine := mkEngine {
  type_registry : TypeRegistry;
  next_dataset_id : Z;
  next_topic_id : Z;
  next_time_domain_id : Z;
  datasets : gmap Z DatasetInfo;
  topics : gmap Z TopicStorage;
  time_domains : gmap Z TimeDomain
}.

Module Engine.

Definition no_time_domain : TimeDomain := mkTimeDomain 0 "" 0.

Definition make : DataEngine := mkEngine Registry.make 1 1 1 ∅ ∅ ∅.

(** [map.emplace]: an entry that exists stays. *)
Definition emplace {A} (m : gmap Z A) (id : Z) (x : A) : gmap Z A :=
  match m !! id with Some _ => m | None => <[id := x]> m end.

Definition with_topics (e : DataEngine) (ts : gmap Z TopicStorage) : DataEngine :=
  mkEngine (type_registry e) (next_dataset_id e) (next_topic_id e) (next_time_domain_id e)
    (datasets e) ts (time_domains e).

Definition with_registry (e : DataEngine) (r : TypeRegistry) : DataEngine :=
  mkEngine r (next_dataset_id e) (next_topic_id e) (next_time_domain_id e) (datasets e) (topics e) (time_domains e).

(** The id is taken even when the time domain is missing. *)
Definition createDataset (e : DataEngine) (d : DatasetDescriptor) : DataEngine * Expected Z :=
  let id := next_dataset_id e in
  let taken ds := mkEngine (type_registry e) (u32 (id + 1)) (next_topic_id e) (next_time_domain_id e)
                    ds (topics e) (time_domains e) in
  if dd_time_domain_id d =? 0 then
    (taken (emplace (datasets e) id (mkDatasetInfo id (dd_source_name d) no_time_domain [])), Ok id)
  else
    match time_domains e !! dd_time_domain_id d with
    | None => (taken (datasets e), Err ("Time domain " +:+ pretty (dd_time_domain_id d) +:+ " not found"))
    | Some td => (taken (emplace (datasets e) id (mkDatasetInfo id (dd_source_name d) td [])), Ok id)
    end.

Definition getDataset (e : DataEngine) (id : Z) : option DatasetInfo := datasets e !! id.

Definition createTopic (e : DataEngine) (dataset : Z) (d : TopicDescriptor) : DataEngine * Expected Z :=
  match datasets e !! dataset with
  | None => (e, Err ("Dataset " +:+ pretty dataset +:+ " not found"))
  | Some info =>
      if negb (schema_id d =? 0) && bool_decide (Registry.lookup (type_registry e) (schema_id d) = None)
      then (e, Err ("Schema " +:+ pretty (schema_id d) +:+ " not found"))
      else
        let id := next_topic_id e in
        let d := mkTopicDescriptor (name d) (schema_id d) dataset (max_chunk_rows d) (array_expansion_limit d) in
        let info := mkDatasetInfo (ds_id info) (source_name info) (time_domain info) (topic_ids info ++ [id]) in
        (mkEngine (type_registry e) (next_dataset_id e) (u32 (id + 1)) (next_time_domain_id e)
           (<[dataset := info]> (datasets e)) (emplace (topics e) id (Storage.make id d)) (time_domains e), Ok id)
  end.

Definition getTopicStorage (e : DataEngine) (id : Z) : option TopicStorage := topics e !! id.

Definition createTimeDomain (e : DataEngine) (name : string) : DataEngine * Expected Z :=
  let id := next_time_domain_id e in
  (mkEngine (type_registry e) (next_dataset_id e) (next_topic_id e) (u32 (id + 1)) (datasets e) (topics e)
     (emplace (time_domains e) id (mkTimeDomain id name 0)), Ok id).

Definition getTimeDomain (e : DataEngine) (id : Z) : option TimeDomain := time_domains e !! id.

Definition setDisplayOffset (e : DataEngine) (id offset : Z) : DataEngine :=
  mkEngine (type_registry e) (next_dataset_id e) (next_topic_id e) (next_time_domain_id e) (datasets e) (topics e)
    (alter (fun td => mkTimeDomain (td_id td) (td_name td) offset) id (time_domains e)).

(** ** The commit cycle *)

(** The loop over the chunks: the engine and the ids pushed so far. *)
Fixpoint commit_loop (e : DataEngine) (chunks : list (Z * TopicChunk)) (changed : list Z) : DataEngine * list Z :=
  match chunks with
  | [] => (e, changed)
  | (id, chunk) :: rest =>
      match topics e !! id with
      | None => commit_loop e rest changed
      | Some s =>
          let '(s', status) := Storage.appendSealedChunk s chunk in
          let e := with_topics e (<[id := s']> (topics e)) in
          match status with
          | Err _ => commit_loop e rest changed
          | Ok _ =>
              let push := match last changed with Some back => negb (back =? id) | None => true end in
              commit_loop e rest (if push then changed ++ [id] else changed)
          end
      end
  end.

(** [std::unique] *)
Fixpoint unique (l : list Z) : list Z :=
  match l with
  | x :: (y :: _) as l' => if x =? y then unique l' else x :: unique l'
  | l' => l'
  end.

Definition commitChunks (e : DataEngine) (chunks : list (Z * TopicChunk)) : DataEngine * list Z :=
  let '(e, changed) := commit_loop e chunks [] in (e, unique (merge_sort Z.le changed)).

(** Every topic is handled on its own, so the order of the loop is immaterial. *)
Definition enforceRetention (e : DataEngine) (retention_window_ns : Z) : DataEngine :=
  with_topics e ((fun s => if Storage.isEmpty s then s
    else Storage.evictBefore s (i64 (Storage.time_max s - retention_window_ns))) <$> topics e).

Definition listTopics (e : DataEngine) (dataset : Z) : list Z :=
  match datasets e !! dataset with Some info => topic_ids info | None => [] end.

Section Iteration.
Context (iter : forall A, gmap Z A -> list (Z * A)).

Definition listDatasets (e : DataEngine) : list Z := map fst (iter _ (datasets e)).

Definition same_key (a b : TopicStorage) : bool :=
  (dataset_id (descriptor_ a) =? dataset_id (descriptor_ b))
  && bool_decide (name (descriptor_ a) = name (descriptor_ b)).

(** The first topic of [dst] with the key of [s]. *)
Fixpoint find_match (s : TopicStorage) (candidates : list (Z * TopicStorage)) : option (Z * TopicStorage) :=
  match candidates with
  | [] => None
  | (id, c) :: rest => if same_key c s then Some (id, c) else find_match s rest
  end.

Fixpoint flush_plan (dst : DataEngine) (todo : list (Z * TopicStorage)) (plan : list (Z * Z))
  : Expected (list (Z * Z)) :=
  match todo with
  | [] => Ok plan
  | (id, src) :: rest =>
      if Storage.isEmpty src then flush_plan dst rest plan
      else
        match find_match src (iter _ (topics dst)) with
        | None => Err ("flushTo: destination has no topic '" +:+ name (descriptor_ src) +:+ "' for dataset "
                       +:+ pretty (dataset_id (descriptor_ src)))
        | Some (dst_id, d) =>
            if negb (Storage.isEmpty d) && (Storage.time_min src <? Storage.time_max d)
            then Err ("flushTo: monotonicity violation for topic '" +:+ name (descriptor_ src) +:+ "'")
            else flush_plan dst rest (plan ++ [(id, dst_id)])
        end
  end.

(** Phase 2 on one pair of storages. *)
Definition flush_step (engines : DataEngine * DataEngine) (step : Z * Z) : option (DataEngine * DataEngine) :=
  let '(src, dst) := engines in
  s ← topics src !! step.1;
  d ← topics dst !! step.2;
  Some (with_topics src (<[step.1 := Storage.with_chunks s []]> (topics src)),
        with_topics dst (<[step.2 := Storage.with_chunks d (sealed_chunks_ d ++ sealed_chunks_ s)]> (topics dst))).

Fixpoint flush_steps (engines : DataEngine * DataEngine) (plan : list (Z * Z)) : option (DataEngine * DataEngine) :=
  match plan with
  | [] => Some engines
  | step :: rest => engines ← flush_step engines step; flush_steps engines rest
  end.

(** [src.flushTo(dst)]; [same] tells whether the two are one object. *)
Definition flushTo (same : bool) (src dst : DataEngine) : option (DataEngine * DataEngine * Status) :=
  if same then Some (src, dst, Err "flushTo: source and destination are the same engine")
  else
    match flush_plan dst (iter _ (topics src)) [] with
    | Err e => Some (src, dst, Err e)
    | Ok plan => '(src, dst) ← flush_steps (src, dst) plan; Some (src, dst, okStatus)
    end.

End Iteration.

End Engine.

(** ** The commit loop *)

(** What a storage holds after the chunks of its id among [chunks]. *)
Definition append_all (id : Z) (chunks : list (Z * TopicChunk)) (s : TopicStorage) : TopicStorage :=
  fold_left (fun s '(i, c) => if decide (i = id) then (Storage.appendSealedChunk s c).1 else s) chunks s.

(** A call that gave the storage a chunk. *)
Definition grew (s s' : TopicStorage) : Prop := (length (sealed_chunks_ s) < length (sealed_chunks_ s'))%nat.

Lemma appendSealedChunk_cases s c :
  let '(s', status) := Storage.appendSealedChunk s c in
  match status with
  | Ok _ => s' = Storage.with_chunks s (sealed_chunks_ s ++ [c])
  | Err _ => s' = s
  end.
Proof. unfold Storage.appendSealedChunk. destruct (last _); [destruct (_ <? _)|]; done. Qed.

Lemma append_all_length id chunks s :
  (length (sealed_chunks_ s) <= length (sealed_chunks_ (append_all id chunks s)))%nat.
Proof.
  revert s. induction chunks as [|[i c] chunks IH]; intros s; cbn; [lia|]. etrans; [|apply IH].
  case_decide; [|lia]. pose proof (appendSealedChunk_cases s c) as Hc.
  destruct (Storage.appendSealedChunk s c) as [s' [u|err]]; subst; cbn; [rewrite length_app|]; lia.
Qed.

Lemma push_changed_elem changed id x :
  x ∈ (if match last changed with Some back => negb (back =? id) | None => true end then changed ++ [id] else changed)
  <-> x ∈ changed \/ x = id.
Proof.
  destruct (last changed) as [back|] eqn:E.
  - destruct (Z.eqb_spec back id) as [->|]; cbn.
    + apply last_Some in E as [l ->]. rewrite elem_of_app, list_elem_of_singleton. intuition.
    + by rewrite elem_of_app, list_elem_of_singleton.
  - by rewrite elem_of_app, list_elem_of_singleton.
Qed.

Lemma append_all_eq id c chunks s :
  append_all id ((id, c) :: chunks) s = append_all id chunks (Storage.appendSealedChunk s c).1.
Proof. unfold append_all. cbn [fold_left]. by rewrite decide_True. Qed.

Lemma append_all_ne id i c chunks s : i <> id -> append_all id ((i, c) :: chunks) s = append_all id chunks s.
Proof. intros Hne. unfold append_all. cbn [fold_left]. by rewrite decide_False. Qed.

(** The topics of [e] that [chunks] gives a chunk. *)
Definition grown (e : DataEngine) (chunks : list (Z * TopicChunk)) (id : Z) : Prop :=
  exists s, topics e !! id = Some s /\ grew s (append_all id chunks s).

(** One chunk of a known topic, ahead of the others. *)
Lemma commit_head e i c chunks s s1 status : topics e !! i = Some s ->
  Storage.appendSealedChunk s c = (s1, status) ->
  let e1 := Engine.with_topics e (<[i:=s1]> (topics e)) in
  (forall id, append_all id chunks <$> (topics e1 !! id) = append_all id ((i, c) :: chunks) <$> (topics e !! id))
  /\ (forall id, grown e ((i, c) :: chunks) id <-> (id = i /\ exists u, status = Ok u) \/ grown e1 chunks id).
Proof.
  intros Ei Eapp e1. pose proof (appendSealedChunk_cases s c) as Hcase. rewrite Eapp in Hcase.
  split; intros id; unfold grown; cbn [topics e1 Engine.with_topics]; destruct (decide (i = id)) as [<-|Hne].
  - rewrite lookup_insert_eq, Ei. cbn [fmap option_fmap option_map]. by rewrite append_all_eq, Eapp.
  - rewrite lookup_insert_ne by done. destruct (topics e !! id); [|done].
    cbn [fmap option_fmap option_map]. by rewrite append_all_ne.
  - rewrite lookup_insert_eq, Ei. pose proof (append_all_length i chunks s1) as Hl. unfold grew.
    setoid_rewrite append_all_eq. destruct status as [u|err]; subst s1.
    + cbn in Hl. rewrite length_app in Hl. cbn in Hl. split; [eauto|]. intros _. exists s. split; [done|].
      rewrite Eapp. cbn [fst]. lia.
    + split; [intros (? & [= <-] & Hg); right; rewrite Eapp in Hg; eauto|].
      intros [[_ [? [=]]]|(? & [= <-] & Hg)]. exists s. by rewrite Eapp.
  - rewrite lookup_insert_ne by done. setoid_rewrite append_all_ne; [|done]. split; [auto|].
    intros [[-> _]|?]; done.
Qed.

Lemma commit_loop_spec chunks : forall e changed,
  let '(e', changed') := Engine.commit_loop e chunks changed in
  e' = Engine.with_topics e (topics e')
  /\ (forall id, topics e' !! id = append_all id chunks <$> (topics e !! id))
  /\ (forall id, id ∈ changed' <-> id ∈ changed \/ grown e chunks id).
Proof.
  induction chunks as [|[i c] chunks IH]; intros e changed; cbn [Engine.commit_loop].
  { split_and!; [by destruct e|by intros id; destruct (topics e !! id)|].
    intros id. split; [auto|]. intros [|(s & _ & Hs)]; [done|]. unfold grew in Hs. cbn in Hs. lia. }
  destruct (topics e !! i) as [s|] eqn:Ei.
  - destruct (Storage.appendSealedChunk s c) as [s1 status] eqn:Eapp.
    destruct (commit_head e i c chunks s s1 status Ei Eapp) as [Htop Hgrew].
    destruct status as [u|err];
      match goal with |- context [Engine.commit_loop ?e1 _ ?ch] => specialize (IH e1 ch) end;
      destruct (Engine.commit_loop _ _ _) as [e' changed']; destruct IH as (He & Ht & Hc);
      (split_and!; [by rewrite He|by intros id; rewrite Ht, Htop|]); intros id; rewrite Hc, Hgrew, ?push_changed_elem;
      naive_solver.
  - specialize (IH e changed). destruct (Engine.commit_loop _ _ _) as [e' changed']. destruct IH as (He & Ht & Hc).
    split_and!; [done| |]; intros id; [rewrite Ht|rewrite Hc; unfold grown]; destruct (decide (i = id)) as [<-|Hne].
    + by rewrite Ei.
    + destruct (topics e !! id); [|done]. cbn [fmap option_fmap option_map]. by rewrite append_all_ne.
    + rewrite Ei. naive_solver.
    + setoid_rewrite append_all_ne; done.
Qed.

(** *** The ids returned *)

Lemma unique_elem l x : x ∈ Engine.unique l <-> x ∈ l.
Proof.
  induction l as [|a l IH]; [done|]. destruct l as [|b l]; [done|]. cbn [Engine.unique] in *.
  destruct (Z.eqb_spec a b) as [->|].
  - rewrite IH. rewrite !elem_of_cons. tauto.
  - by rewrite elem_of_cons, IH, (elem_of_cons (b :: l)).
Qed.

Lemma unique_sorted l : StronglySorted Z.le l -> StronglySorted Z.lt (Engine.unique l).
Proof.
  induction l as [|a l IH]; intros H; [constructor|]. inversion_clear H as [|? ? Hs Hall].
  destruct l as [|b l]; [by repeat constructor|]. specialize (IH Hs). cbn [Engine.unique] in *.
  destruct (Z.eqb_spec a b) as [->|Hne]; [done|]. constructor; [done|].
  apply Forall_forall. intros x Hx. apply (unique_elem (b :: l)) in Hx.
  inversion_clear Hall. inversion_clear Hs as [|? ? _ Hb].
  apply elem_of_cons in Hx as [->|Hx]; [lia|]. rewrite Forall_forall in Hb. specialize (Hb x Hx). lia.
Qed.

(** ** The invariant of an engine *)

Record engine_ok (e : DataEngine) : Prop := {
  en_chunks : forall id s, topics e !! id = Some s -> deque_wf (sealed_chunks_ s);
  en_ids : forall id s, topics e !! id = Some s -> ts_topic_id s = id /\ 0 < id < next_topic_id e;
  en_owner : forall id s, topics e !! id = Some s ->
    exists info, datasets e !! dataset_id (descriptor_ s) = Some info /\ id ∈ topic_ids info;
  en_listed : forall ds info id, datasets e !! ds = Some info -> id ∈ topic_ids info ->
    exists s, topics e !! id = Some s /\ dataset_id (descriptor_ s) = ds;
  en_datasets : forall ds info, datasets e !! ds = Some info -> ds_id info = ds /\ 0 < ds < next_dataset_id e;
  en_next : 0 < next_topic_id e /\ 0 < next_dataset_id e;
  en_registry : registry_ok (type_registry e);
  en_sizes : forall id s, topics e !! id = Some s -> in_u 32 (max_chunk_rows (descriptor_ s))
}.

(** What the storages of one topic have in common. *)
Definition same_topic (s s' : TopicStorage) : Prop :=
  ts_topic_id s' = ts_topic_id s /\ dataset_id (descriptor_ s') = dataset_id (descriptor_ s)
  /\ max_chunk_rows (descriptor_ s') = max_chunk_rows (descriptor_ s).

#[export] Instance same_topic_preorder : PreOrder same_topic.
Proof. unfold same_topic. split; [done|]. intros a b c (? & ? & ?) (? & ? & ?). split_and!; congruence. Qed.

(** A change of the storages that keeps their ids, datasets and order. *)
Lemma with_topics_ok e ts : engine_ok e ->
  (forall id s', ts !! id = Some s' -> exists s, topics e !! id = Some s /\ deque_wf (sealed_chunks_ s') /\ same_topic s s') ->
  (forall id, is_Some (topics e !! id) -> is_Some (ts !! id)) ->
  engine_ok (Engine.with_topics e ts).
Proof.
  intros [Hc Hi Ho Hl Hd Hn Hr Hz] Hts Hdom. split; cbn; try done.
  - intros id s' Hs'. by destruct (Hts id s' Hs') as (s & _ & ? & _).
  - intros id s' Hs'. destruct (Hts id s' Hs') as (s & Hs & _ & -> & _). by apply Hi.
  - intros id s' Hs'. destruct (Hts id s' Hs') as (s & Hs & _ & _ & -> & _). by apply Ho.
  - intros ds info id Hinfo Hid. destruct (Hl ds info id Hinfo Hid) as (s & Hs & Hds).
    destruct (Hdom id ltac:(eauto)) as [s' Hs']. exists s'. split; [done|].
    destruct (Hts id s' Hs') as (s2 & Hs2 & _ & _ & -> & _). by simplify_eq.
  - intros id s' Hs'. destruct (Hts id s' Hs') as (s & Hs & _ & _ & _ & ->). by eapply Hz.
Qed.

Lemma storage_step_frame s s' : Storage.step s s' -> same_topic s s'.
Proof.
  unfold same_topic. intros []; try done.
  - pose proof (appendSealedChunk_cases s0 chunk) as Hc. destruct (Storage.appendSealedChunk _ _) as [? []]; by subst.
  - unfold Storage.evictBefore. by destruct (_ <? _)%nat.
  - unfold Storage.updateMaxObservedArrayLength. by destruct (_ <? _).
Qed.

Lemma storage_steps_frame s s' : rtc Storage.step s s' -> deque_wf (sealed_chunks_ s) ->
  deque_wf (sealed_chunks_ s') /\ same_topic s s'.
Proof.
  induction 1 as [|s s1 s2 Hstep _ IH]; intros H; [done|]. destruct IH as [Hwf Hsame]; [by eapply step_wf|].
  split; [done|]. etrans; [|exact Hsame]. by apply storage_step_frame.
Qed.

Lemma append_all_steps id chunks s : Forall (fun p => chunk_wf p.2) chunks -> rtc Storage.step s (append_all id chunks s).
Proof.
  intros H. revert s. induction H as [|[i c] chunks Hc _ IH]; intros s; [done|]. cbn. case_decide; [|apply IH].
  eapply rtc_l; [|apply IH]. by apply Storage.step_append.
Qed.

Lemma commitChunks_ok e chunks : engine_ok e -> Forall (fun p => chunk_wf p.2) chunks ->
  engine_ok (Engine.commitChunks e chunks).1.
Proof.
  intros H Hwf. unfold Engine.commitChunks. pose proof (commit_loop_spec chunks e []) as Hspec.
  destruct (Engine.commit_loop e chunks []) as [e' changed]. destruct Hspec as (He & Ht & _). cbn.
  rewrite He. apply with_topics_ok; [done| |].
  - intros id s'. rewrite Ht. intros (s & Hs & ->)%fmap_Some. exists s. split; [done|].
    destruct (storage_steps_frame _ _ (append_all_steps id chunks s Hwf) (en_chunks _ H id s Hs)).
    by split_and!.
  - intros id Hid. rewrite Ht. by apply fmap_is_Some.
Qed.

Lemma enforceRetention_ok e w : engine_ok e -> engine_ok (Engine.enforceRetention e w).
Proof.
  intros H. apply with_topics_ok; [done| |].
  - intros id s'. rewrite lookup_fmap. intros (s & Hs & ->)%fmap_Some. exists s. split; [done|].
    destruct (Storage.isEmpty s); [by split_and!; [eapply en_chunks|]|].
    pose proof (storage_step_frame _ _ (Storage.step_evict s (i64 (Storage.time_max s - w)))).
    split_and!; [|done]. apply evictBefore_wf. by eapply en_chunks.
  - intros id Hid. rewrite lookup_fmap. by apply fmap_is_Some.
Qed.

Lemma createTopic_ok e ds d : engine_ok e -> next_topic_id e + 1 < 2 ^ 32 -> in_u 32 (max_chunk_rows d) -> engine_ok (Engine.createTopic e ds d).1.
Proof.
  intros H Hlt Hcap. destruct H as [Hc Hi Ho Hl Hd Hn Hr Hz]. unfold Engine.createTopic.
  destruct (datasets e !! ds) as [info|] eqn:Eds; [|done]. destruct (_ && _); [done|].
  assert (Hfresh : topics e !! next_topic_id e = None).
  { destruct (topics e !! next_topic_id e) eqn:E; [|done]. apply Hi in E. lia. }
  unfold Engine.emplace. rewrite Hfresh. cbn [fst]. split; cbn.
  - intros id s. destruct (decide (id = next_topic_id e)) as [->|Hne].
    + rewrite lookup_insert_eq. intros [= <-]. constructor.
    + rewrite lookup_insert_ne by done. apply Hc.
  - intros id s. rewrite (wrapU_small 32) by (split; lia). destruct (decide (id = next_topic_id e)) as [->|Hne].
    + rewrite lookup_insert_eq. intros [= <-]. cbn. lia.
    + rewrite lookup_insert_ne by done. intros [? ?]%Hi. lia.
  - intros id s. destruct (decide (id = next_topic_id e)) as [->|Hne].
    + rewrite lookup_insert_eq. intros [= <-]. cbn. rewrite lookup_insert_eq. eexists. split; [done|]. cbn [topic_ids].
      rewrite elem_of_app, list_elem_of_singleton. by right.
    + rewrite lookup_insert_ne by done. intros (info' & Hinfo & Hin)%Ho.
      destruct (decide (dataset_id (descriptor_ s) = ds)) as [Hds|Hds].
      * rewrite Hds in Hinfo |- *. rewrite lookup_insert_eq. eexists. split; [done|]. cbn. rewrite elem_of_app. left.
        rewrite Eds in Hinfo. by injection Hinfo as <-.
      * rewrite lookup_insert_ne by done. eauto.
  - intros ds' info' id Hinfo Hid. destruct (decide (ds' = ds)) as [->|Hds].
    + rewrite lookup_insert_eq in Hinfo. simplify_eq. cbn in Hid.
      apply elem_of_app in Hid as [Hid|Hid%list_elem_of_singleton].
      * destruct (Hl ds info id Eds Hid) as (s & Hs & Hsd). exists s. split; [|done].
        rewrite lookup_insert_ne; [done|]. intros <-. congruence.
      * subst. rewrite lookup_insert_eq. by eexists.
    + rewrite lookup_insert_ne in Hinfo by done. destruct (Hl ds' info' id Hinfo Hid) as (s & Hs & Hsd).
      exists s. split; [|done]. rewrite lookup_insert_ne; [done|]. intros <-. congruence.
  - intros ds' info'. destruct (decide (ds' = ds)) as [->|Hds].
    + rewrite lookup_insert_eq. intros [= <-]. cbn. by apply Hd.
    + rewrite lookup_insert_ne by done. apply Hd.
  - rewrite (wrapU_small 32) by (split; lia). lia.
  - done.
  - intros id s. destruct (decide (id = next_topic_id e)) as [->|Hne].
    + by rewrite lookup_insert_eq; intros [= <-].
    + rewrite lookup_insert_ne by done. apply Hz.
Qed.

Lemma createTopic_cases e dataset td : engine_ok e ->
  let '(e', r) := Engine.createTopic e dataset td in
  type_registry e' = type_registry e /\
  match r with
  | Err _ => e' = e
  | Ok out => out = next_topic_id e /\ next_topic_id e' = u32 (out + 1) /\ topics e !! out = None
      /\ topics e' = <[out := Storage.make out (mkTopicDescriptor (name td) (schema_id td) dataset (max_chunk_rows td)
                         (array_expansion_limit td))]> (topics e)
  end.
Proof.
  intros He. unfold Engine.createTopic. destruct (datasets e !! dataset) as [info|]; [|done]. destruct (_ && _); [done|].
  assert (Hfresh : topics e !! next_topic_id e = None).
  { destruct (topics e !! next_topic_id e) eqn:E; [|done]. apply (en_ids _ He) in E. lia. }
  cbn. split_and!; try done. unfold Engine.emplace. by rewrite Hfresh.
Qed.

Lemma createDataset_ok e d : engine_ok e -> next_dataset_id e + 1 < 2 ^ 32 -> engine_ok (Engine.createDataset e d).1.
Proof.
  intros [Hc Hi Ho Hl Hd Hn Hr Hz] Hlt.
  assert (Hfresh : datasets e !! next_dataset_id e = None).
  { destruct (datasets e !! next_dataset_id e) eqn:E; [|done]. apply Hd in E. lia. }
  assert (Hnext : u32 (next_dataset_id e + 1) = next_dataset_id e + 1) by (apply wrapU_small; split; lia).
  assert (Hsame : engine_ok (mkEngine (type_registry e) (u32 (next_dataset_id e + 1)) (next_topic_id e)
    (next_time_domain_id e) (datasets e) (topics e) (time_domains e))).
  { split; cbn; try done; rewrite ?Hnext; [|lia]. intros ds info [? ?]%Hd. lia. }
  assert (Hnew : forall td, engine_ok (mkEngine (type_registry e) (u32 (next_dataset_id e + 1)) (next_topic_id e)
    (next_time_domain_id e) (Engine.emplace (datasets e) (next_dataset_id e)
      (mkDatasetInfo (next_dataset_id e) (dd_source_name d) td [])) (topics e) (time_domains e))).
  { intros td. unfold Engine.emplace. rewrite Hfresh. split; cbn; try done; rewrite ?Hnext; [| | |lia].
    - intros id s (info & Hinfo & Hin)%Ho. exists info. split; [|done].
      rewrite lookup_insert_ne; [done|]. intros Heq. rewrite <- Heq in Hinfo. congruence.
    - intros ds info id. destruct (decide (ds = next_dataset_id e)) as [->|Hne].
      + rewrite lookup_insert_eq. intros [= <-] Hin. by apply not_elem_of_nil in Hin.
      + rewrite lookup_insert_ne by done. apply Hl.
    - intros ds info. destruct (decide (ds = next_dataset_id e)) as [->|Hne].
      + rewrite lookup_insert_eq. intros [= <-]. cbn. lia.
      + rewrite lookup_insert_ne by done. intros [? ?]%Hd. lia. }
  unfold Engine.createDataset. destruct (_ =? 0); [apply Hnew|]. destruct (time_domains e !! _); [apply Hnew|apply Hsame].
Qed.

Lemma make_engine_ok : engine_ok Engine.make.
Proof. split; cbn; try done. apply make_registry_ok. Qed.

(** ** Flushing one engine into another *)

Section Flush.
Context (iter : forall A, gmap Z A -> list (Z * A)).
Context (Hiter : forall A (m : gmap Z A), iter A m ≡ₚ map_to_list m).

Lemma elem_of_iter {A} (m : gmap Z A) id x : (id, x) ∈ iter A m <-> m !! id = Some x.
Proof. by rewrite Hiter, elem_of_map_to_list. Qed.

Lemma iter_nodup {A} (m : gmap Z A) : NoDup (iter A m).*1.
Proof. rewrite Hiter. apply NoDup_fst_map_to_list. Qed.

Lemma find_match_some s l id d : Engine.find_match s l = Some (id, d) -> (id, d) ∈ l /\ Engine.same_key d s = true.
Proof.
  induction l as [|[i c] l IH]; [done|]. cbn. destruct (Engine.same_key c s) eqn:E.
  - intros [= -> ->]. split; [by left|done].
  - intros [? ?]%IH. split; [by right|done].
Qed.

Lemma find_match_none s l id d : Engine.find_match s l = None -> (id, d) ∈ l -> Engine.same_key d s = false.
Proof.
  induction l as [|[i c] l IH]; [by intros _ ?%not_elem_of_nil|]. cbn. destruct (Engine.same_key c s) eqn:E; [done|].
  intros H [[= -> ->]|Hin]%elem_of_cons; [done|by apply IH].
Qed.

(** A pair of topics that may be flushed, and why a topic may not be. *)
Definition flushable (src dst : DataEngine) (p : Z * Z) : Prop := exists s d,
  topics src !! p.1 = Some s /\ sealed_chunks_ s <> [] /\ topics dst !! p.2 = Some d /\ Engine.same_key d s = true
  /\ (sealed_chunks_ d = [] \/ Storage.time_max d <= Storage.time_min s).

Definition unflushable (src dst : DataEngine) : Prop := exists i s,
  topics src !! i = Some s /\ sealed_chunks_ s <> []
  /\ ((forall j d, topics dst !! j = Some d -> Engine.same_key d s = false)
     \/ exists j d, topics dst !! j = Some d /\ Engine.same_key d s = true /\ sealed_chunks_ d <> []
          /\ Storage.time_min s < Storage.time_max d).

Lemma flush_plan_spec src dst todo : forall plan,
  (forall i s, (i, s) ∈ todo -> topics src !! i = Some s) -> NoDup todo.*1 ->
  match Engine.flush_plan iter dst todo plan with
  | Ok plan' => exists new, plan' = plan ++ new /\ Forall (flushable src dst) new /\ NoDup new.*1
      /\ (forall i, i ∈ new.*1 -> i ∈ todo.*1)
      /\ (forall i s, (i, s) ∈ todo -> sealed_chunks_ s <> [] -> i ∈ new.*1)
  | Err _ => unflushable src dst
  end.
Proof.
  induction todo as [|[i s] todo IH]; intros plan Hsrc Hnd; cbn [Engine.flush_plan].
  { exists []. rewrite app_nil_r. split_and!; [done|constructor|constructor|done|by intros ? ? ?%not_elem_of_nil]. }
  cbn in Hnd. apply NoDup_cons in Hnd as [Hni Hnd].
  assert (Hs : topics src !! i = Some s) by (apply Hsrc; by left).
  assert (Hrest : forall j t, (j, t) ∈ todo -> topics src !! j = Some t) by (intros; apply Hsrc; by right).
  unfold Storage.isEmpty at 1. case_bool_decide as Hemp.
  { specialize (IH plan Hrest Hnd). destruct (Engine.flush_plan iter dst todo plan) as [plan'|]; [|done].
    destruct IH as (new & -> & Hnew & Hndn & Hsub & Hall). exists new. split_and!; [done..| |].
    - intros j Hj. right. by apply Hsub.
    - intros j t [[= -> ->]|Hin]%elem_of_cons Ht; [done|by eapply Hall]. }
  destruct (Engine.find_match s (iter _ (topics dst))) as [[j d]|] eqn:Hm; cycle 1.
  { exists i, s. split_and!; [done..|]. left. intros j d Hd. eapply find_match_none; [done|]. by apply elem_of_iter. }
  apply find_match_some in Hm as [Hd Hkey]. apply elem_of_iter in Hd.
  unfold Storage.isEmpty. case_bool_decide as Hde; cbn [negb andb].
  2: destruct (Z.ltb_spec (Storage.time_min s) (Storage.time_max d)) as [Hlt|Hle].
  2: { exists i, s. split_and!; [done..|]. right. eauto 10. }
  all: specialize (IH (plan ++ [(i, j)]) Hrest Hnd).
  all: destruct (Engine.flush_plan iter dst todo (plan ++ [(i, j)])) as [plan'|]; [|done].
  all: destruct IH as (new & -> & Hnew & Hndn & Hsub & Hall); exists ((i, j) :: new).
  all: split_and!; [by rewrite <- app_assoc|constructor; [exists s, d; by auto 10|done]| | |].
  all: try (cbn; apply NoDup_cons; split; [|done]; by intros ?%Hsub).
  all: try (intros k; cbn; rewrite !elem_of_cons; by intros [->|?%Hsub]; auto).
  all: intros k t [[= -> ->]|Hin]%elem_of_cons Ht; [by left|right; by eapply Hall].
Qed.

Definition drained (s : TopicStorage) : TopicStorage := Storage.with_chunks s [].
Definition extended (d s : TopicStorage) : TopicStorage :=
  Storage.with_chunks d (sealed_chunks_ d ++ sealed_chunks_ s).

Lemma flush_steps_spec plan : forall src dst, Forall (flushable src dst) plan -> NoDup plan.*1 -> NoDup plan.*2 ->
  exists src' dst', Engine.flush_steps (src, dst) plan = Some (src', dst')
    /\ src' = Engine.with_topics src (topics src') /\ dst' = Engine.with_topics dst (topics dst')
    /\ (forall i, i ∈ plan.*1 -> topics src' !! i = drained <$> topics src !! i)
    /\ (forall i, i ∉ plan.*1 -> topics src' !! i = topics src !! i)
    /\ (forall i j s d, (i, j) ∈ plan -> topics src !! i = Some s -> topics dst !! j = Some d ->
          topics dst' !! j = Some (extended d s))
    /\ (forall j, j ∉ plan.*2 -> topics dst' !! j = topics dst !! j).
Proof.
  induction plan as [|[i j] plan IH]; intros src dst Hall H1 H2.
  { exists src, dst. split_and!; try done; [by destruct src|by destruct dst|..]; intros *; by intros ?%not_elem_of_nil. }
  apply Forall_cons in Hall as [(s & d & Hs & _ & Hd & _) Hall]. cbn in Hs, Hd, H1, H2.
  apply NoDup_cons in H1 as [Hi H1]. apply NoDup_cons in H2 as [Hj H2].
  cbn [Engine.flush_steps]. unfold Engine.flush_step. cbn [fst snd]. rewrite Hs, Hd. cbn [mbind option_bind].
  set (src1 := Engine.with_topics src _). set (dst1 := Engine.with_topics dst _).
  assert (Hsrc1 : forall k, k <> i -> topics src1 !! k = topics src !! k).
  { intros k Hk. cbn. by rewrite lookup_insert_ne. }
  assert (Hdst1 : forall k, k <> j -> topics dst1 !! k = topics dst !! k).
  { intros k Hk. cbn. by rewrite lookup_insert_ne. }
  assert (Hin : forall p, p ∈ plan -> p.1 <> i /\ p.2 <> j).
  { intros p Hp. split; intros <-; [apply Hi|apply Hj]; by apply list_elem_of_fmap_2. }
  destruct (IH src1 dst1) as (src' & dst' & -> & Hf1 & Hf2 & Hdr & Hsame & Hext & Hdsame); [|done..|].
  { rewrite Forall_forall in *. intros p Hp. destruct (Hin p Hp) as [? ?]. unfold flushable.
    rewrite Hsrc1, Hdst1 by done. by apply Hall. }
  exists src', dst'. split_and!; [done|by rewrite Hf1|by rewrite Hf2|..].
  - intros k [->|Hk]%elem_of_cons.
    + cbn. rewrite Hsame by done. cbn. by rewrite lookup_insert_eq, Hs.
    + rewrite Hdr by done. rewrite Hsrc1; [done|]. by intros ->.
  - intros k [Hk1 Hk2]%not_elem_of_cons. by rewrite Hsame, Hsrc1.
  - intros k l s' d' [[= -> ->]|Hp]%elem_of_cons Hs' Hd'.
    + rewrite Hdsame by done. cbn. rewrite lookup_insert_eq. by simplify_eq.
    + destruct (Hin _ Hp) as [? ?]. apply (Hext k); [done| |]; by rewrite ?Hsrc1, ?Hdst1.
  - intros k [Hk1 Hk2]%not_elem_of_cons. by rewrite Hdsame, Hdst1.
Qed.

(** No two topics of an engine share dataset and name. *)
Definition unique_keys (e : DataEngine) : Prop := forall i j a b,
  topics e !! i = Some a -> topics e !! j = Some b -> Engine.same_key a b = true -> i = j.

Lemma same_key_iff a b : Engine.same_key a b = true <->
  dataset_id (descriptor_ a) = dataset_id (descriptor_ b) /\ name (descriptor_ a) = name (descriptor_ b).
Proof. unfold Engine.same_key. by rewrite andb_true_iff, Z.eqb_eq, bool_decide_eq_true. Qed.

Lemma flushable_targets src dst plan : unique_keys src -> Forall (flushable src dst) plan -> NoDup plan.*1 -> NoDup plan.*2.
Proof.
  intros Huniq Hall. induction Hall as [|[i j] plan (s & d & Hs & _ & Hd & Hk & _) Hall IH]; intros Hnd; [constructor|].
  cbn in *. apply NoDup_cons in Hnd as [Hi Hnd]. apply NoDup_cons. split; [|by apply IH].
  intros ([i' j'] & -> & Hp)%list_elem_of_fmap. rewrite Forall_forall in Hall.
  destruct (Hall _ Hp) as (s' & d' & Hs' & _ & Hd' & Hk' & _). cbn in *. simplify_eq.
  apply Hi. apply list_elem_of_fmap. exists (i', j'). split; [|done]. cbn. apply (Huniq i i' s s'); [done..|].
  apply same_key_iff in Hk as [? ?], Hk' as [? ?]. apply same_key_iff. split; congruence.
Qed.

Lemma extended_wf s d : deque_wf (sealed_chunks_ s) -> deque_wf (sealed_chunks_ d) ->
  sealed_chunks_ d = [] \/ Storage.time_max d <= Storage.time_min s -> deque_wf (sealed_chunks_ (extended d s)).
Proof. apply extend_wf. Qed.

Lemma flushTo_cases src dst : engine_ok src -> engine_ok dst -> unique_keys src ->
  exists src' dst' status, Engine.flushTo iter false src dst = Some (src', dst', status) /\
  match status with
  | Err _ => src' = src /\ dst' = dst /\ unflushable src dst
  | Ok _ =>
      src' = Engine.with_topics src (drained <$> topics src) /\ dst' = Engine.with_topics dst (topics dst')
      /\ (forall i s, topics src !! i = Some s -> sealed_chunks_ s <> [] -> exists j d,
            topics dst !! j = Some d /\ Engine.same_key d s = true /\ topics dst' !! j = Some (extended d s))
      /\ (forall j d, topics dst !! j = Some d ->
            (forall i s, topics src !! i = Some s -> Engine.same_key d s = true -> sealed_chunks_ s = []) ->
            topics dst' !! j = Some d)
      /\ engine_ok dst' /\ (forall j, is_Some (topics dst' !! j) <-> is_Some (topics dst !! j))
  end.
Proof.
  intros Hsrc Hdst Hus. unfold Engine.flushTo.
  pose proof (flush_plan_spec src dst (iter _ (topics src)) []) as Hplan.
  specialize (Hplan ltac:(intros; by apply elem_of_iter) (iter_nodup _)).
  destruct (Engine.flush_plan _ _ _ _) as [plan|err]; [|eexists _, _, (Err err); done].
  destruct Hplan as (new & -> & Hall & Hnd & _ & Hcover). cbn [app].
  destruct (flush_steps_spec new src dst Hall Hnd) as (src' & dst' & -> & Hf1 & Hf2 & Hdr & Hsame & Hext & Hdsame).
  { by apply (flushable_targets src dst). }
  exists src', dst', okStatus. split; [done|]. cbn [okStatus]. rewrite Forall_forall in Hall.
  assert (Hdst' : forall j, topics dst' !! j = topics dst !! j \/ exists i s d, flushable src dst (i, j)
    /\ topics src !! i = Some s /\ topics dst !! j = Some d /\ topics dst' !! j = Some (extended d s)).
  { intros j. destruct (decide (j ∈ new.*2)) as [Hj|Hj]; [right|left; by apply Hdsame].
    apply list_elem_of_fmap in Hj as ([i j'] & -> & Hp). pose proof (Hall _ Hp) as Hfl.
    destruct (Hfl) as (s & d & Hs & _ & Hd & _). cbn in *. exists i, s, d. split_and!; [done..|]. by eapply Hext. }
  split_and!; [|done| | | |].
  - rewrite Hf1. f_equal. apply map_eq. intros i. rewrite lookup_fmap.
    destruct (decide (i ∈ new.*1)) as [Hi|Hi]; [by apply Hdr|]. rewrite Hsame by done.
    destruct (topics src !! i) as [s|] eqn:Es; [|done]. cbn. f_equal.
    destruct (decide (sealed_chunks_ s = [])) as [Hemp|Hne]; [unfold drained, Storage.with_chunks; rewrite <- Hemp; by destruct s|].
    destruct Hi. apply (Hcover i s); [by apply elem_of_iter|done].
  - intros i s Hs Hne. assert (Hi : i ∈ new.*1) by (apply (Hcover i s); [by apply elem_of_iter|done]).
    apply list_elem_of_fmap in Hi as ([i' j] & -> & Hp). destruct (Hall _ Hp) as (s' & d & Hs' & _ & Hd & Hk & _).
    cbn in *. simplify_eq. exists j, d. split_and!; [done..|]. by eapply Hext.
  - intros j d Hd Hnone. destruct (Hdst' j) as [->|(i & s & d' & Hfl & Hs & Hd' & _)]; [done|].
    destruct Hfl as (s2 & d2 & Hs2 & Hne & Hd2 & Hk & _). cbn in *. simplify_eq. by destruct Hne; eapply Hnone.
  - rewrite Hf2. apply with_topics_ok; [done| |].
    + intros j t Ht. destruct (Hdst' j) as [Heq|(i & s & d & Hfl & Hs & Hd & Hx)].
      * rewrite Heq in Ht. exists t. split_and!; [done| |done..]. by eapply en_chunks.
      * rewrite Hx in Ht. injection Ht as <-. exists d. split_and!; [done| |done..].
        destruct Hfl as (s2 & d2 & Hs2 & _ & Hd2 & _ & Hord). cbn in *. simplify_eq.
        apply extended_wf; [by eapply (en_chunks src)|by eapply (en_chunks dst)|done].
    + intros j [d Hd]. destruct (Hdst' j) as [->|(i & s & d' & _ & _ & _ & ->)]; eauto.
  - intros j. destruct (Hdst' j) as [->|(i & s & d & _ & _ & Hd & Hx)]; [done|]. rewrite Hx, Hd. by split; eexists.
Qed.

(** What a flush does to its source does not depend on the destination. *)
Lemma flush_steps_source plan : forall src dst src' dst', Engine.flush_steps (src, dst) plan = Some (src', dst') ->
  src' = Engine.with_topics src (topics src') /\ forall i, topics src' !! i = topics src !! i \/ topics src' !! i = drained <$> topics src !! i.
Proof.
  induction plan as [|[i j] plan IH]; intros src dst src' dst' H; cbn [Engine.flush_steps] in H.
  { injection H as <- <-. split; [by destruct src|by left]. }
  unfold Engine.flush_step in H. cbn [fst snd] in H.
  destruct (topics src !! i) as [s|] eqn:Es; [|done]. destruct (topics dst !! j) as [d|]; [|done]. cbn [mbind option_bind] in H.
  apply IH in H as [Heq Ht]. split; [by rewrite Heq|]. intros k. destruct (Ht k) as [-> | ->]; cbn [Engine.with_topics topics];
    (destruct (decide (k = i)) as [->|Hne]; [rewrite lookup_insert_eq, Es; by right|rewrite lookup_insert_ne by done; by auto]).
Qed.

Lemma flushTo_source same src dst src' dst' status : Engine.flushTo iter same src dst = Some (src', dst', status) ->
  src' = Engine.with_topics src (topics src') /\ forall i, topics src' !! i = topics src !! i \/ topics src' !! i = drained <$> topics src !! i.
Proof.
  unfold Engine.flushTo. destruct same; [intros [= <- _ _]; split; [by destruct src|by left]|].
  destruct (Engine.flush_plan _ _ _ _) as [plan|err]; [|intros [= <- _ _]; split; [by destruct src|by left]].
  destruct (Engine.flush_steps _ _) as [[s d]|] eqn:E; [|done]. intros [= <- _ _]. by eapply flush_steps_source.
Qed.

(** C5: [flushTo] between two consistent engines is all or nothing, if no two topics of the
    source share data set and name.  An error leaves both engines as they were and is given
    only when a topic with chunks has no counterpart or would run backwards in time; otherwise
    every source topic is emptied, its chunks continue those of a topic of the destination of its
    data set and name, no other storage of the destination changes, and the destination keeps its
    invariant.  With two such topics in the source the destination may be left out of order
    ([flush_of_twins]). *)
Theorem engine_flushTo_spec src dst : engine_ok src -> engine_ok dst -> unique_keys src ->
  exists src' dst' status, Engine.flushTo iter false src dst = Some (src', dst', status) /\
  match status with
  | Err _ => src' = src /\ dst' = dst /\ unflushable src dst
  | Ok _ =>
      src' = Engine.with_topics src (drained <$> topics src) /\ dst' = Engine.with_topics dst (topics dst')
      /\ (forall i s, topics src !! i = Some s -> sealed_chunks_ s <> [] -> exists j d,
            topics dst !! j = Some d /\ Engine.same_key d s = true /\ topics dst' !! j = Some (extended d s))
      /\ (forall j d, topics dst !! j = Some d ->
            (forall i s, topics src !! i = Some s -> Engine.same_key d s = true -> sealed_chunks_ s = []) ->
            topics dst' !! j = Some d)
      /\ engine_ok dst'
  end.
Proof.
  intros Hsrc Hdst Hus. destruct (flushTo_cases src dst Hsrc Hdst Hus) as (src' & dst' & status & Hf & Hs).
  exists src', dst', status. split; [done|]. by destruct status; [split_and!; apply Hs|].
Qed.

End Flush.

(** ** What the engine guarantees *)

(** Calls on an engine.  The committed chunks are those a builder seals, the
    capacity of a topic is an [uint32_t], the counters of the ids have not
    wrapped.  A flush is a step of the engine it drains, and one of the engine
    that takes the chunks, from any consistent engine whose topics differ in
    data set or name. *)
Inductive engine_step : DataEngine -> DataEngine -> Prop :=
| step_createDataset e d : next_dataset_id e + 1 < 2 ^ 32 -> engine_step e (Engine.createDataset e d).1
| step_createTopic e ds d : next_topic_id e + 1 < 2 ^ 32 -> in_u 32 (max_chunk_rows d) -> engine_step e (Engine.createTopic e ds d).1
| step_createTimeDomain e n : engine_step e (Engine.createTimeDomain e n).1
| step_setDisplayOffset e id offset : engine_step e (Engine.setDisplayOffset e id offset)
| step_registry e r : registry_step (type_registry e) r -> engine_step e (Engine.with_registry e r)
| step_storage e id s s' : topics e !! id = Some s -> Storage.step s s' ->
    engine_step e (Engine.with_topics e (<[id := s']> (topics e)))
| step_commitChunks e chunks : Forall (fun p => chunk_wf p.2) chunks -> engine_step e (Engine.commitChunks e chunks).1
| step_enforceRetention e w : engine_step e (Engine.enforceRetention e w)
| step_flush_out iter same e dst e' dst' status :
    Engine.flushTo iter same e dst = Some (e', dst', status) -> engine_step e e'
| step_flush_in (iter : forall A, gmap Z A -> list (Z * A)) same src e src' e' status :
    (forall A (m : gmap Z A), iter A m ≡ₚ map_to_list m) -> engine_ok src -> unique_keys src ->
    Engine.flushTo iter same src e = Some (src', e', status) -> engine_step e e'.

Definition engine_reachable (e : DataEngine) : Prop := rtc engine_step Engine.make e.

(** A storage that is drained keeps its topic. *)
Lemma drained_ok e e' : engine_ok e -> e' = Engine.with_topics e (topics e') ->
  (forall i, topics e' !! i = topics e !! i \/ topics e' !! i = drained <$> topics e !! i) -> engine_ok e'.
Proof.
  intros He -> Ht. apply with_topics_ok; [done| |].
  - intros i s' Hs. destruct (Ht i) as [Heq|Heq]; cbn in Heq; rewrite Heq in Hs.
    + exists s'. split_and!; [done|by eapply en_chunks|done].
    + destruct (topics e !! i) as [s|]; [|done]. injection Hs as <-. exists s. split_and!; [done|constructor|done].
  - intros i [s Hs]. destruct (Ht i) as [Heq|Heq]; cbn in Heq; rewrite Heq, Hs; by eexists.
Qed.

Lemma flush_in_ok (iter : forall A, gmap Z A -> list (Z * A)) same src e src' e' status :
  (forall A (m : gmap Z A), iter A m ≡ₚ map_to_list m) -> engine_ok src -> unique_keys src -> engine_ok e ->
  Engine.flushTo iter same src e = Some (src', e', status) ->
  engine_ok e' /\ (forall j, is_Some (topics e' !! j) <-> is_Some (topics e !! j)).
Proof.
  intros Hiter Hsrc Hus He Hf. destruct same; [injection Hf as _ <- _; by split|].
  destruct (flushTo_cases iter Hiter src e Hsrc He Hus) as (s2 & e2 & st2 & Hf2 & Hs). rewrite Hf in Hf2.
  injection Hf2 as <- <- <-. destruct status; [by split; apply Hs|]. destruct Hs as (_ & -> & _). by split.
Qed.

Lemma engine_step_ok e e' : engine_step e e' -> engine_ok e -> engine_ok e'.
Proof.
  intros Hstep H. destruct Hstep as [e d|e ds d|e n|e id offset|e r Hr|e id s s' Hs Hstep|e chunks Hwf|e w
    |iter same e dst e' dst' status Hf|iter same src e src' e' status Hiter Hsrc Hus Hf].
  - by apply createDataset_ok.
  - by apply createTopic_ok.
  - by destruct H; split.
  - by destruct H; split.
  - destruct H; split; try done. by eapply registry_step_ok.
  - pose proof (storage_step_frame _ _ Hstep). apply with_topics_ok; [done| |].
    + intros i s2. destruct (decide (i = id)) as [->|Hne]; [|rewrite lookup_insert_ne by done].
      * rewrite lookup_insert_eq. intros [= <-]. exists s. split_and!; [done| |done..].
        eapply step_wf; [done|]. by eapply en_chunks.
      * intros Hs2. exists s2. split_and!; [done| |done..]. by eapply en_chunks.
    + intros i Hi. destruct (decide (i = id)) as [->|Hne]; [by rewrite lookup_insert_eq|by rewrite lookup_insert_ne].
  - by apply commitChunks_ok.
  - by apply enforceRetention_ok.
  - apply flushTo_source in Hf as [Heq Ht]. by eapply drained_ok.
  - by eapply flush_in_ok in Hf as [? _].
Qed.


Lemma engine_reachable_ok e : engine_reachable e -> engine_ok e.
Proof.
  unfold engine_reachable. intros H. remember Engine.make as e0 eqn:E. assert (H0 : engine_ok e0) by (subst; apply make_engine_ok). clear E.
  induction H as [|e1 e2 e3 Hstep _ IH]; [done|]. by apply IH, (engine_step_ok e1).
Qed.

(** C11: An engine is consistent whatever public calls it has seen (flushes from and into other
    engines and calls on its storages and its registry included), as long as the chunks that are
    committed are as a builder seals them, the counters of its ids have not wrapped, and an engine
    that was flushed into it was consistent itself, with no two topics of one data set and name
    ([flush_of_twins] shows why): a topic's chunks are well formed and in time order, its id is the
    key it is stored under and below the next id, it belongs to an existing dataset that lists it,
    every listed topic exists and names that dataset, and the schema registry keeps its invariant. *)
Theorem engine_invariant e : engine_reachable e -> engine_ok e.
Proof. apply engine_reachable_ok. Qed.

(** a commit hands every topic exactly the chunks of its id, in their order, whatever is
    interleaved with them; ids without a topic are dropped; nothing but the storages changes;
    the ids returned are those of the topics that grew, strictly increasing. *)
Theorem commitChunks_spec e chunks :
  let '(e', changed) := Engine.commitChunks e chunks in
  e' = Engine.with_topics e (topics e')
  /\ (forall id, topics e' !! id = append_all id chunks <$> topics e !! id)
  /\ StronglySorted Z.lt changed
  /\ (forall id, id ∈ changed <-> grown e chunks id).
Proof.
  unfold Engine.commitChunks. pose proof (commit_loop_spec chunks e []) as Hspec.
  destruct (Engine.commit_loop e chunks []) as [e' changed]. destruct Hspec as (He & Ht & Hc).
  split_and!; [done|done| |].
  - apply unique_sorted, Sorted_StronglySorted; [intros ???; lia|]. apply Sorted_merge_sort.
    intros x y. lia.
  - intros id. rewrite unique_elem, merge_sort_Permutation, Hc.
    split; [by intros [?%not_elem_of_nil|]|by right].
Qed.

(** The chunks of [id], when each may follow the one before it. *)
Definition chunks_of (id : Z) (chunks : list (Z * TopicChunk)) : list TopicChunk :=
  (filter (fun p => p.1 = id) chunks).*2.

Lemma append_all_in_order id chunks s : deque_wf (sealed_chunks_ s ++ chunks_of id chunks) ->
  append_all id chunks s = Storage.with_chunks s (sealed_chunks_ s ++ chunks_of id chunks).
Proof.
  revert s. induction chunks as [|[i c] chunks IH]; intros s H.
  { unfold chunks_of. rewrite filter_nil, app_nil_r. by destruct s. }
  destruct (decide (i = id)) as [->|Hne].
  - rewrite append_all_eq. unfold chunks_of in *. rewrite filter_cons_True in * by done. cbn [fmap list_fmap snd] in *.
    rewrite cons_middle, app_assoc in H.
    assert (Happ : Storage.appendSealedChunk s c = (Storage.with_chunks s (sealed_chunks_ s ++ [c]), okStatus)).
    { unfold Storage.appendSealedChunk. destruct (last (sealed_chunks_ s)) as [back|] eqn:E; [|done].
      apply last_Some in E as [l El]. rewrite El in H.
      assert (t_max (stats back) <= t_min (stats c)).
      { rewrite <- !app_assoc in H. apply (deque_wf_le _ (length l) (S (length l)) back c H ltac:(lia)).
        - by rewrite lookup_app_r, Nat.sub_diag by lia.
        - rewrite lookup_app_r by lia. by replace (S (length l) - length l)%nat with 1%nat by lia. }
      destruct (Z.ltb_spec (t_min (stats c)) (t_max (stats back))); [lia|done]. }
    rewrite Happ. cbn [fst]. rewrite IH by exact H. unfold Storage.with_chunks. cbn. by rewrite <- app_assoc.
  - rewrite append_all_ne by done. unfold chunks_of in *. rewrite filter_cons_False in * by done. by apply IH.
Qed.

(** retention keeps, of every topic, exactly the chunks that reach into its own window, its
    newest chunk always among them. *)
Theorem enforceRetention_spec e w id s : engine_ok e -> topics e !! id = Some s -> 0 <= w ->
  in_s 64 (Storage.time_max s - w) ->
  exists s', topics (Engine.enforceRetention e w) !! id = Some s'
    /\ sealed_chunks_ s' = filter (fun c => Storage.time_max s - w <= t_max (stats c)) (sealed_chunks_ s)
    /\ last (sealed_chunks_ s') = last (sealed_chunks_ s).
Proof.
  intros H Hs Hw Hrange. cbn. rewrite lookup_fmap, Hs. cbn. eexists. split; [done|].
  unfold Storage.isEmpty. case_bool_decide as Hemp; [rewrite Hemp; done|].
  rewrite wrapS_small, evictBefore_chunks by (done || by eapply en_chunks). split; [done|].
  unfold Storage.time_max. destruct (last (sealed_chunks_ s)) as [back|] eqn:E; [|by apply last_None in E].
  apply last_Some in E as [l ->]. rewrite filter_app, filter_cons_True, filter_nil by lia. by rewrite last_snoc.
Qed.

(** ** Instances *)

Definition demo_engine_steps : list (DataEngine -> DataEngine) :=
  [ fun e => (Engine.createDataset e (mkDatasetDescriptor "log.mcap" 0)).1;
    fun e => (Engine.createTopic e 1 (mkTopicDescriptor "imu" 0 0 1024 64)).1;
    fun e => (Engine.createTopic e 1 (mkTopicDescriptor "odom" 0 0 1024 64)).1 ].
Definition demo_engine : DataEngine := Eval vm_compute in fold_left (fun e f => f e) demo_engine_steps Engine.make.
Definition demo_batch : list (Z * TopicChunk) := map (pair 1) demo_deque.
Definition demo_filled : DataEngine := Eval vm_compute in (Engine.commitChunks demo_engine demo_batch).1.

Lemma demo_engine_reachable : engine_reachable demo_engine.
Proof.
  eapply rtc_l; [by apply (step_createDataset _ (mkDatasetDescriptor "log.mcap" 0))|].
  eapply rtc_l; [by apply (step_createTopic _ 1 (mkTopicDescriptor "imu" 0 0 1024 64))|].
  eapply rtc_l; [by apply (step_createTopic _ 1 (mkTopicDescriptor "odom" 0 0 1024 64))|].
  match goal with |- rtc _ ?e _ => replace e with demo_engine by (vm_compute; reflexivity) end. done.
Qed.

Lemma demo_filled_reachable : engine_reachable demo_filled.
Proof.
  eapply rtc_r; [apply demo_engine_reachable|].
  change demo_filled with (Engine.commitChunks demo_engine demo_batch).1. apply step_commitChunks.
  apply Forall_map. by apply deque_wf_forall, demo_deque_wf.
Qed.

Lemma engine_invariant_witness : deque_wf (sealed_chunks_ (default (Storage.make 0 demo_descriptor) (topics demo_filled !! 1)))
  /\ ts_topic_id (default (Storage.make 0 demo_descriptor) (topics demo_filled !! 1)) = 1.
Proof.
  pose proof (engine_invariant demo_filled demo_filled_reachable) as [Hc Hi _ _ _ _ _].
  split; [by apply (Hc 1)|by apply (Hi 1)].
Defined.

Lemma enforceRetention_spec_witness :
  exists s', topics (Engine.enforceRetention demo_filled 10) !! 1 = Some s' /\ length (sealed_chunks_ s') = 1%nat.
Proof.
  destruct (topics demo_filled !! 1) as [s|] eqn:E; [|done].
  destruct (enforceRetention_spec demo_filled 10 1 s (engine_reachable_ok _ demo_filled_reachable) E ltac:(lia))
    as (s' & Hs' & Hcs & _); [vm_compute in E; injection E as <-; vm_compute; split; congruence|].
  exists s'. split; [done|]. rewrite Hcs. vm_compute in E. injection E as <-. vm_compute. reflexivity.
Defined.

Lemma demo_unique_keys e : (forall i s, topics e !! i = Some s -> i = 1 \/ i = 2) ->
  (forall a b, topics e !! 1 = Some a -> topics e !! 2 = Some b -> Engine.same_key a b = false) -> unique_keys e.
Proof.
  intros Hdom H12 i j a b Ha Hb Hk.
  destruct (Hdom i a Ha) as [-> | ->], (Hdom j b Hb) as [-> | ->]; try done; exfalso.
  - by rewrite (H12 a b) in Hk.
  - apply same_key_iff in Hk as [? ?]. assert (Hba : Engine.same_key b a = true) by (apply same_key_iff; by split; symmetry).
    by rewrite (H12 b a) in Hba.
Qed.

Lemma demo_domain e i s : topics e = topics demo_engine \/ topics e = topics demo_filled ->
  topics e !! i = Some s -> i = 1 \/ i = 2.
Proof.
  intros He Hs. assert (Hi : i ∈ dom (topics e)) by by eapply elem_of_dom_2.
  assert (Hd : dom (topics e) = {[1; 2]}) by by destruct He as [-> | ->]; vm_compute.
  rewrite Hd in Hi. set_solver.
Qed.

Lemma demo_filled_keys : unique_keys demo_filled.
Proof. apply demo_unique_keys; [intros i s; apply demo_domain; by right|]. by intros a b [= <-] [= <-]. Qed.

Definition listing : forall A, gmap Z A -> list (Z * A) := fun A m => map_to_list m.

Lemma engine_flushTo_spec_witness : exists src' dst' status,
  Engine.flushTo listing false demo_filled demo_engine = Some (src', dst', status)
  /\ (has_value status = true -> engine_ok dst').
Proof.
  destruct (engine_flushTo_spec listing (fun A m => reflexivity _) demo_filled demo_engine
    (engine_reachable_ok _ demo_filled_reachable) (engine_reachable_ok _ demo_engine_reachable)
    demo_filled_keys) as (src' & dst' & status & H & Hs).
  exists src', dst', status. split; [done|]. by destruct status; [intros _; apply Hs|].
Defined.

(** [createTopic] accepts a second topic of one dataset and name; both then flush into one
    topic of the destination, which is left out of time order. *)
Definition twice (chunks1 chunks2 : list TopicChunk) : DataEngine :=
  let e := fold_left (fun e f => f e) demo_engine_steps Engine.make in
  let e := (Engine.createTopic e 1 (mkTopicDescriptor "imu" 0 0 1024 64)).1 in
  (Engine.commitChunks e (map (pair 1) chunks1 ++ map (pair 3) chunks2)).1.

Example flush_of_twins :
  (fun '(_, dst, status) => (has_value status,
     (fun s => map (fun c => (t_min (stats c), t_max (stats c))) (sealed_chunks_ s)) <$> topics dst !! 1))
    <$> Engine.flushTo listing false (twice (take 1 demo_deque) (drop 1 demo_deque)) demo_engine
  = Some (true, Some [(20, 35); (10, 20)]).
Proof. vm_compute. reflexivity. Qed.
