(* ===== verification/Writer.v ===== *)
(** * Writer: the ingest path

    Models [src/pj_datastore/src/writer.cpp].  The writer keeps a reference to
    its engine, here a member of the state that its calls thread; so is the
    process-wide counter of chunk ids.  [None] is a violated assertion, a
    dereferenced null pointer or a loop that does not end. *)

From Stdlib Require Import Strings.Ascii.
From S2P Require Import Prelude Types TypeTree TypeRegistry Float64 Buffer Encoding Column Chunk Query TopicStorage Engine.

Record DataWriter := mkWriter {
  engine : DataEngine;
  builders : gmap Z TopicChunkBuilder;
  pending_chunks : gmap Z (list TopicChunk);
  topic_columns : gmap Z (list ColumnDescriptor);
  next_chunk_id_ : Z
}.

Record TopicWriteHandle := mkTopicWriteHandle { th_topic_id : Z; field_ids : list Z }.
Record ScalarSeriesHandle := mkScalarSeriesHandle { sh_topic_id : Z; value_field : Z }.

(** [NumericType] and the variant [NumericValue]; a float is its bits. *)
Module NumericType.
Inductive t : Set :=
| kFloat32 | kFloat64 | kInt8 | kInt16 | kInt32 | kInt64 | kUint8 | kUint16 | kUint32 | kUint64.
End NumericType.

Inductive NumericValue :=
| NFloat (bits : Z) | NDouble (bits : Z)
| NInt8 (z : Z) | NInt16 (z : Z) | NInt32 (z : Z) | NInt64 (z : Z)
| NUint8 (z : Z) | NUint16 (z : Z) | NUint32 (z : Z) | NUint64 (z : Z).

(** [ColumnData]: one column of a bulk append. *)
Inductive ColumnPayload :=
| PNumeric (data : Builder.BulkData)
| PStrings (offsets : list Z) (values : bytes).
Record ColumnData := mkColumnData { col_index : nat; payload : ColumnPayload; validity : BitSpan }.

Module Writer.

Definition make (e : DataEngine) (next_chunk_id : Z) : DataWriter := mkWriter e ∅ ∅ ∅ next_chunk_id.

(** *** Assignments to members *)

Definition with_engine (w : DataWriter) (e : DataEngine) : DataWriter :=
  mkWriter e (builders w) (pending_chunks w) (topic_columns w) (next_chunk_id_ w).
Definition with_builders (w : DataWriter) (bs : gmap Z TopicChunkBuilder) : DataWriter :=
  mkWriter (engine w) bs (pending_chunks w) (topic_columns w) (next_chunk_id_ w).
Definition with_pending (w : DataWriter) (p : gmap Z (list TopicChunk)) : DataWriter :=
  mkWriter (engine w) (builders w) p (topic_columns w) (next_chunk_id_ w).
Definition with_columns (w : DataWriter) (c : gmap Z (list ColumnDescriptor)) : DataWriter :=
  mkWriter (engine w) (builders w) (pending_chunks w) c (next_chunk_id_ w).

Definition put_builder (w : DataWriter) (id : Z) (b : TopicChunkBuilder) : DataWriter :=
  with_builders w (<[id := b]> (builders w)).
Definition put_columns (w : DataWriter) (id : Z) (cols : list ColumnDescriptor) : DataWriter :=
  with_columns w (<[id := cols]> (topic_columns w)).
Definition put_storage (w : DataWriter) (id : Z) (s : TopicStorage) : DataWriter :=
  with_engine w (Engine.with_topics (engine w) (<[id := s]> (topics (engine w)))).

(** [builder.seal()], which takes the next chunk id. *)
Definition sealed (w : DataWriter) (b : TopicChunkBuilder) : option (DataWriter * TopicChunk) :=
  chunk ← Builder.seal b (next_chunk_id_ w);
  Some (mkWriter (engine w) (builders w) (pending_chunks w) (topic_columns w) (u64 (next_chunk_id_ w + 1)), chunk).

Definition not_found (id : Z) : string := "Topic " +:+ pretty id +:+ " not found".

(** ** Registration *)

Definition registerSchema (w : DataWriter) (schema_name : string) (tree : TypeTreeNode) : DataWriter * Expected Z :=
  let '(r, id) := Registry.registerSchema (type_registry (engine w)) schema_name tree in
  (with_engine w (Engine.with_registry (engine w) r), id).

Definition registerTopic (w : DataWriter) (dataset : Z) (d : TopicDescriptor) : DataWriter * Expected Z :=
  let '(e, id) := Engine.createTopic (engine w) dataset d in (with_engine w e, id).

(** ** The columns and the builder of a topic *)

(** The value [ensureColsLoaded] leaves in [topic_columns[topic_id]]. *)
Definition loaded_columns (w : DataWriter) (id : Z) (s : TopicStorage) : option (list ColumnDescriptor) :=
  let cols := default [] (topic_columns w !! id) in
  if negb (bool_decide (cols = [])) then Some cols
  else if negb (bool_decide (ts_column_descriptors_ s = [])) then Some (ts_column_descriptors_ s)
  else
    match Registry.lookup (type_registry (engine w)) (schema_id (descriptor_ s)) with
    | Some tree => WriterColumns.buildColumnDescriptors tree
    | None =>
        match sealed_chunks_ s with
        | chunk :: _ => Some (map col_descriptor (columns chunk))
        | [] => Some cols
        end
    end.

Definition ensureColsLoaded (w : DataWriter) (id : Z) (s : TopicStorage) : option DataWriter :=
  cols ← loaded_columns w id s; Some (put_columns w id cols).

Definition getOrCreateBuilder (w : DataWriter) (id : Z) : option (DataWriter * TopicChunkBuilder) :=
  match builders w !! id with
  | Some b => Some (w, b)
  | None =>
      s ← Engine.getTopicStorage (engine w) id;
      let d := descriptor_ s in
      w ← ensureColsLoaded w id s;
      cols ← topic_columns w !! id;
      let b := Builder.make id (schema_id d) cols (max_chunk_rows d) in
      Some (put_builder w id b, b)
  end.

Definition bindTopicWriter (w : DataWriter) (id : Z) : option (DataWriter * Expected TopicWriteHandle) :=
  match Engine.getTopicStorage (engine w) id with
  | None => Some (w, Err (not_found id))
  | Some _ =>
      '(w, _) ← getOrCreateBuilder w id;
      cols ← topic_columns w !! id;
      Some (w, Ok (mkTopicWriteHandle id (map field_id cols)))
  end.

Fixpoint find_column (cols : list ColumnDescriptor) (path : string) : option ColumnDescriptor :=
  match cols with
  | [] => None
  | col :: rest => if decide (field_path col = path) then Some col else find_column rest path
  end.

Definition resolveField (w : DataWriter) (id : Z) (path : string) : option (DataWriter * Expected Z) :=
  '(w, _) ← getOrCreateBuilder w id;
  match topic_columns w !! id with
  | None => Some (w, Err (not_found id))
  | Some cols =>
      match find_column cols path with
      | Some col => Some (w, Ok (field_id col))
      | None => Some (w, Err ("Field '" +:+ path +:+ "' not found in topic " +:+ pretty id))
      end
  end.

(** ** Sealing *)

Definition push_pending (w : DataWriter) (id : Z) (chunk : TopicChunk) : DataWriter :=
  with_pending w (<[id := default [] (pending_chunks w !! id) ++ [chunk]]> (pending_chunks w)).

Definition autoSeal (w : DataWriter) (id : Z) : option DataWriter :=
  match builders w !! id with
  | None => Some w
  | Some b =>
      '(w, chunk) ← sealed w b;
      let w := push_pending w id chunk in
      Some (with_builders w (delete id (builders w)))
  end.

Definition sealBeforeLayoutChange (w : DataWriter) (id : Z) : option DataWriter :=
  match builders w !! id with
  | None => Some w
  | Some b =>
      w ← (if 0 <? Builder.rowCount b then '(w, chunk) ← sealed w b; Some (push_pending w id chunk) else Some w);
      Some (with_builders w (delete id (builders w)))
  end.

(** ** Row by row *)

Definition out_of_order (t last : Z) : string :=
  "Out-of-order timestamp: t=" +:+ pretty t +:+ " < last_timestamp=" +:+ pretty last.

Definition beginRow (w : DataWriter) (id t : Z) : option (DataWriter * Status) :=
  match Engine.getTopicStorage (engine w) id with
  | None => Some (w, Err (not_found id))
  | Some _ =>
      '(w, b) ← getOrCreateBuilder w id;
      if (0 <? Builder.rowCount b) && (t <? last_timestamp_ b)
      then Some (w, Err (out_of_order t (last_timestamp_ b)))
      else b ← Builder.beginRow b t; Some (put_builder w id b, okStatus)
  end.

Definition finishRow (w : DataWriter) (id : Z) : option (DataWriter * Status) :=
  match builders w !! id with
  | None => Some (w, Err ("finish_row: no active row for topic " +:+ pretty id))
  | Some b =>
      b ← Builder.finishRow b;
      let w := put_builder w id b in
      w ← (if Builder.isFull b then autoSeal w id else Some w);
      Some (w, okStatus)
  end.

Definition set (w : DataWriter) (id : Z) (col : nat) (v : Value) : option DataWriter :=
  b ← builders w !! id; b ← Builder.set b col v; Some (put_builder w id b).

Definition setNull (w : DataWriter) (id : Z) (col : nat) : option DataWriter :=
  b ← builders w !! id; b ← Builder.setNull b col; Some (put_builder w id b).

(** ** Bulk append *)

Definition payload_rows (p : ColumnPayload) : nat :=
  match p with
  | PStrings offsets _ => if decide (offsets = []) then 0 else length offsets - 1
  | PNumeric (Builder.BFloat32 l) | PNumeric (Builder.BFloat64 l) | PNumeric (Builder.BInt32 l)
  | PNumeric (Builder.BInt64 l) | PNumeric (Builder.BUint64 l) | PNumeric (Builder.BBool l) => length l
  end.

Definition rowCount (col : ColumnData) : nat := payload_rows (payload col).

(** [span.subspan(offset, count)]; out of range it is undefined. *)
Definition subspan (offset count : nat) (l : list Z) : option (list Z) :=
  if decide (offset + count <= length l)%nat then Some (take count (drop offset l)) else None.

Definition bulk_subspan (offset count : nat) (d : Builder.BulkData) : option Builder.BulkData :=
  match d with
  | Builder.BFloat32 l => Builder.BFloat32 <$> subspan offset count l
  | Builder.BFloat64 l => Builder.BFloat64 <$> subspan offset count l
  | Builder.BInt32 l => Builder.BInt32 <$> subspan offset count l
  | Builder.BInt64 l => Builder.BInt64 <$> subspan offset count l
  | Builder.BUint64 l => Builder.BUint64 <$> subspan offset count l
  | Builder.BBool l => Builder.BBool <$> subspan offset count l
  end.

Definition append_single_column_to_builder (b : TopicChunkBuilder) (col : ColumnData) (offset batch_size : nat)
  : option TopicChunkBuilder :=
  b ← match payload col with
      | PNumeric d => d ← bulk_subspan offset batch_size d; Builder.appendColumn b (col_index col) d
      | PStrings offsets values =>
          o ← subspan offset (batch_size + 1) offsets; Builder.appendColumnStrings b (col_index col) o values
      end;
  if decide (bit_length (validity col) = 0)%nat then Some b
  else v ← BitSpan_subspan (validity col) offset batch_size; Builder.appendColumnValidity b (col_index col) v.

Fixpoint append_columns_to_builder (b : TopicChunkBuilder) (cols : list ColumnData) (offset batch_size : nat)
  : option TopicChunkBuilder :=
  match cols with
  | [] => Some b
  | col :: rest => b ← append_single_column_to_builder b col offset batch_size;
                   append_columns_to_builder b rest offset batch_size
  end.

(** The validation of the arguments: the error, if any. *)
Fixpoint validate_columns (cols : list ColumnData) (n_timestamps : nat) : Status :=
  match cols with
  | [] => okStatus
  | col :: rest =>
      let n := rowCount col in
      let v := validity col in
      if negb (n =? n_timestamps)%nat
      then Err ("Column " +:+ pretty (col_index col) +:+ " has " +:+ pretty n +:+ " rows but "
                +:+ pretty n_timestamps +:+ " timestamps provided")
      else if negb (bit_length v =? 0)%nat && negb (bit_length v =? n)%nat
      then Err ("Column " +:+ pretty (col_index col) +:+ " validity bit_length mismatch")
      else if negb (bit_length v =? 0)%nat && (length (bs_bytes v) * 8 <? bit_offset v + bit_length v)%nat
      then Err ("Column " +:+ pretty (col_index col) +:+ " validity range out of bounds")
      else validate_columns rest n_timestamps
  end.

(** The [while] loop, one unit of fuel for a batch. *)
Fixpoint append_loop (fuel : nat) (w : DataWriter) (id : Z) (timestamps : list Z) (cols : list ColumnData) (offset : nat)
  : option DataWriter :=
  if decide (offset < length timestamps)%nat then
    match fuel with
    | O => None
    | S fuel' =>
        '(w, b) ← getOrCreateBuilder w id;
        let batch_size := Nat.min (length timestamps - offset) (Z.to_nat (Builder.remainingCapacity b)) in
        ts ← subspan offset batch_size timestamps;
        b ← Builder.appendTimestamps b ts;
        b ← append_columns_to_builder b cols offset batch_size;
        b ← Builder.finishBulkAppend b;
        let w := put_builder w id b in
        w ← (if Builder.isFull b then autoSeal w id else Some w);
        append_loop fuel' w id timestamps cols (offset + batch_size)
    end
  else Some w.

Definition appendColumns (w : DataWriter) (id : Z) (timestamps : list Z) (cols : list ColumnData)
  : option (DataWriter * Status) :=
  match Engine.getTopicStorage (engine w) id with
  | None => Some (w, Err (not_found id))
  | Some _ =>
      match validate_columns cols (length timestamps) with
      | Err e => Some (w, Err e)
      | Ok _ =>
          match timestamps with
          | [] => Some (w, okStatus)
          | t :: _ =>
              '(w, b) ← getOrCreateBuilder w id;
              if (0 <? Builder.rowCount b) && (t <? last_timestamp_ b)
              then Some (w, Err (out_of_order t (last_timestamp_ b)))
              else w ← append_loop (length timestamps) w id timestamps cols 0; Some (w, okStatus)
          end
      end
  end.

(** ** Scalar series *)

Definition numeric_to_primitive (nt : NumericType.t) : PrimitiveType :=
  match nt with
  | NumericType.kFloat32 => kFloat32
  | NumericType.kFloat64 => kFloat64
  | NumericType.kInt8 => kInt8
  | NumericType.kInt16 => kInt16
  | NumericType.kInt32 => kInt32
  | NumericType.kInt64 => kInt64
  | NumericType.kUint8 => kUint8
  | NumericType.kUint16 => kUint16
  | NumericType.kUint32 => kUint32
  | NumericType.kUint64 => kUint64
  end.

Definition registerScalarSeries (w : DataWriter) (dataset : Z) (topic_name : string) (value_type : NumericType.t)
  : DataWriter * Expected ScalarSeriesHandle :=
  let desc := mkTopicDescriptor topic_name 0 0 1024 64 in
  let '(e, created) := Engine.createTopic (engine w) dataset desc in
  let w := with_engine w e in
  match created with
  | Err err => (w, Err err)
  | Ok id =>
      let cols := [mkColumnDescriptor 0 (numeric_to_primitive value_type) "value"] in
      let w := put_columns w id cols in
      let w := match Engine.getTopicStorage (engine w) id with
               | Some s => put_storage w id (Storage.setColumnDescriptors s cols)
               | None => w
               end in
      (w, Ok (mkScalarSeriesHandle id 0))
  end.

(** The overload of [set] the visitor calls. *)
Definition scalar_value (v : NumericValue) : Value :=
  match v with
  | NFloat bits => VFloat32 bits
  | NDouble bits => VFloat64 bits
  | NInt32 z => VInt32 z
  | NInt8 z | NInt16 z | NInt64 z => VInt64 z
  | NUint8 z | NUint16 z | NUint32 z | NUint64 z => VUint64 z
  end.

Definition appendScalar (w : DataWriter) (handle : ScalarSeriesHandle) (t : Z) (value : NumericValue)
  : option DataWriter :=
  let id := sh_topic_id handle in
  '(w, b) ← getOrCreateBuilder w id;
  if negb (Builder.rowCount b =? 0) && (t <? last_timestamp_ b) then None
  else
    b ← Builder.beginRow b t;
    b ← Builder.set b (Z.to_nat (value_field handle)) (scalar_value value);
    b ← Builder.finishRow b;
    let w := put_builder w id b in
    if Builder.isFull b then autoSeal w id else Some w.

(** ** Flush *)

Definition flush (w : DataWriter) (id : Z) : option (DataWriter * list TopicChunk) :=
  let result := default [] (pending_chunks w !! id) in
  let w := with_pending w (delete id (pending_chunks w)) in
  match builders w !! id with
  | Some b =>
      if 0 <? Builder.rowCount b
      then '(w, chunk) ← sealed w b; Some (with_builders w (delete id (builders w)), result ++ [chunk])
      else Some (w, result)
  | None => Some (w, result)
  end.

Section Iteration.
Context (iter : forall A, gmap Z A -> list (Z * A)).

Fixpoint seal_builders (w : DataWriter) (builder_ids : list Z) (result : list (Z * TopicChunk))
  : option (DataWriter * list (Z * TopicChunk)) :=
  match builder_ids with
  | [] => Some (w, result)
  | id :: rest =>
      match builders w !! id with
      | None => seal_builders w rest result
      | Some b =>
          '(w, chunk) ← sealed w b;
          seal_builders (with_builders w (delete id (builders w))) rest (result ++ [(id, chunk)])
      end
  end.

Definition flushAll (w : DataWriter) : option (DataWriter * list (Z * TopicChunk)) :=
  let result := concat (map (fun '(id, chunks) => map (pair id) chunks) (iter _ (pending_chunks w))) in
  let w := with_pending w ∅ in
  let builder_ids := map fst (filter (fun p => 0 < Builder.rowCount p.2) (iter _ (builders w))) in
  seal_builders w builder_ids result.

End Iteration.

(** ** Growing the layout of a topic *)

(** The asserted invariant: the last id is the number of columns less one. *)
Definition dense_ids (cols : list ColumnDescriptor) : bool :=
  match last cols with None => true | Some d => field_id d =? u32 (Z.of_nat (length cols) - 1) end.

Definition row_in_progress (w : DataWriter) (id : Z) : bool :=
  match builders w !! id with Some b => row_in_progress_ b | None => false end.

Definition ensureColumn (w : DataWriter) (id : Z) (path : string) (type : PrimitiveType)
  : option (DataWriter * Expected Z) :=
  match Engine.getTopicStorage (engine w) id with
  | None => Some (w, Err ("ensure_column: topic " +:+ pretty id +:+ " not found"))
  | Some s =>
      w ← ensureColsLoaded w id s;
      let cols := default [] (topic_columns w !! id) in
      match find_column cols path with
      | Some col =>
          if decide (logical_type col = type) then Some (w, Ok (field_id col))
          else Some (w, Err ("ensure_column: field '" +:+ path +:+ "' already exists with a different type"))
      | None =>
          if row_in_progress w id
          then Some (w, Err ("ensure_column: topic " +:+ pretty id
                 +:+ " has a row in progress; call finishRow() before adding new columns"))
          else
            w ← sealBeforeLayoutChange w id;
            if dense_ids cols then
              let new_id := u32 (Z.of_nat (length cols)) in
              let cols := cols ++ [mkColumnDescriptor new_id type path] in
              Some (put_storage (put_columns w id cols) id (Storage.setColumnDescriptors s cols), Ok new_id)
            else None
      end
  end.

(** The segments of a dotted path, as the loop of [find_child_at_path] cuts
    them: no segment is left after a final dot. *)
Fixpoint segments_from (segment : string) (path : string) : list string :=
  match path with
  | EmptyString => [segment]
  | String c rest =>
      if decide (c = "."%char)
      then segment :: match rest with EmptyString => [] | _ => segments_from "" rest end
      else segments_from (segment +:+ String c EmptyString) rest
  end.

Definition segments (path : string) : list string :=
  match path with EmptyString => [] | _ => segments_from "" path end.

Fixpoint find_child (children : list TypeTreeNode) (name : string) : option TypeTreeNode :=
  match children with
  | [] => None
  | c :: rest => if decide (node_name c = name) then Some c else find_child rest name
  end.

Fixpoint find_descendant (cur : TypeTreeNode) (path : list string) : option TypeTreeNode :=
  match path with
  | [] => Some cur
  | segment :: rest =>
      match node_kind cur with
      | kStruct => c ← find_child (children cur) segment; find_descendant c rest
      | _ => None
      end
  end.

Definition find_child_at_path (root : TypeTreeNode) (path : string) : option TypeTreeNode :=
  find_descendant root (segments path).

(** The columns added for the elements [i] of [todo]. *)
Fixpoint expand_untyped (cols : list ColumnDescriptor) (next : nat) (path : string) (type : PrimitiveType) (todo : list nat)
  : list ColumnDescriptor :=
  match todo with
  | [] => cols
  | i :: rest =>
      let elem_path := index_path path i in
      match find_column cols elem_path with
      | Some _ => expand_untyped cols next path type rest
      | None => expand_untyped (cols ++ [mkColumnDescriptor (Z.of_nat next) type elem_path]) (S next) path type rest
      end
  end.

Definition covers (prefix : string) (col : ColumnDescriptor) : bool :=
  bool_decide (field_path col = prefix) || String.prefix (prefix +:+ ".") (field_path col).

Fixpoint expand_typed (cols : list ColumnDescriptor) (next : nat) (path : string) (element : option TypeTreeNode) (todo : list nat)
  : option (list ColumnDescriptor) :=
  match todo with
  | [] => Some cols
  | i :: rest =>
      let elem_prefix := index_path path i in
      if existsb (covers elem_prefix) cols then expand_typed cols next path element rest
      else
        e ← element;
        leaves ← WriterColumns.flatten_array_element_impl e elem_prefix;
        expand_typed (cols ++ WriterColumns.number_from next leaves) (next + length leaves) path element rest
  end.

(** Why a typed topic refuses to expand a field; its node otherwise. *)
Definition array_node_at (tree : TypeTreeNode) (path : string) : Expected TypeTreeNode :=
  match find_child_at_path tree path with
  | None => Err ("expand_array: field '" +:+ path +:+ "' not found in schema")
  | Some node =>
      match node_kind node with
      | kArray =>
          match fixed_array_size node with
          | Some _ => Err ("expand_array: field '" +:+ path +:+ "' is fixed-size; use schema declaration")
          | None => Ok node
          end
      | _ => Err ("expand_array: field '" +:+ path +:+ "' is not an array node")
      end
  end.

(** From the clamping of the length on. [node] is the array of a typed topic. *)
Definition expand_checked (w : DataWriter) (id : Z) (s : TopicStorage) (path : string) (new_length current : Z)
    (element_type : PrimitiveType) (node : option TypeTreeNode) : option (DataWriter * Expected Z) :=
  let limit := array_expansion_limit (descriptor_ s) in
  let actual := Z.min new_length limit in
  let s := if limit <? new_length then Storage.incrementTruncatedSampleCount s else s in
  let w := put_storage w id s in
  if actual <=? current then Some (w, Ok current)
  else if row_in_progress w id
  then Some (w, Err ("expand_array: topic " +:+ pretty id
         +:+ " has a row in progress; call finishRow() or abandon the row before calling expandArray()"))
  else
    w ← sealBeforeLayoutChange w id;
    w ← ensureColsLoaded w id s;
    let cols := default [] (topic_columns w !! id) in
    if dense_ids cols then
      let todo := seq (Z.to_nat current) (Z.to_nat (actual - current)) in
      cols ← match node with
             | None => Some (expand_untyped cols (length cols) path element_type todo)
             | Some node => expand_typed cols (length cols) path (TypeTree.element_type node) todo
             end;
      let s := Storage.setArrayExpansionCount (Storage.setColumnDescriptors s cols) path actual in
      Some (put_storage (put_columns w id cols) id s, Ok actual)
    else None.

Definition expandArray (w : DataWriter) (id : Z) (path : string) (new_length : Z) (element_type : PrimitiveType)
  : option (DataWriter * Expected Z) :=
  match Engine.getTopicStorage (engine w) id with
  | None => Some (w, Err ("expand_array: topic " +:+ pretty id +:+ " not found"))
  | Some s =>
      let s := Storage.updateMaxObservedArrayLength s new_length in
      let w := put_storage w id s in
      let current := Storage.arrayExpansionCount s path in
      if new_length <=? current then Some (w, Ok current)
      else
        match Registry.lookup (type_registry (engine w)) (schema_id (descriptor_ s)) with
        | None => expand_checked w id s path new_length current element_type None
        | Some tree =>
            match array_node_at tree path with
            | Err e => Some (w, Err e)
            | Ok node => expand_checked w id s path new_length current element_type (Some node)
            end
        end
  end.

End Writer.
