(* ===== verification/Ingest.v ===== *)
(** * Ingest: the rows written are the rows stored

    Joins [Writer], [Chunk], [TopicStorage] and [Engine]: whatever the
    interleaving of topics, the chunk boundaries and the encodings, rows that
    go through [beginRow], [set], [finishRow], [flushAll] and [commitChunks] are
    the rows the storages answer queries from. *)

From S2P Require Import Prelude Types TypeTree TypeRegistry Float64 Buffer Encoding Column Chunk Query TopicStorage Engine Writer.

(** ** Chunks that hold a table *)

Record chunk_holds (ds : list ColumnDescriptor) (c : TopicChunk) (rows : list Row) : Prop := {
  ch_wf : chunk_wf c;
  ch_times : timestamps c = map fst rows;
  ch_columns : length (columns c) = length ds;
  ch_fits : Forall column_fits (columns c);
  ch_rows : Forall (row_ok ds) rows;
  ch_cells : forall i row j, rows !! i = Some row -> (j < length ds)%nat -> cell_reads c j i (row_value row j)
}.

Definition holds (cs : list TopicChunk) (ds : list ColumnDescriptor) (rows : list Row) : Prop :=
  exists groups, rows = concat groups /\ Forall2 (chunk_holds ds) cs groups.

Lemma holds_nil ds : holds [] ds [].
Proof. by exists []. Qed.

Lemma holds_snoc cs ds rows c more : holds cs ds rows -> chunk_holds ds c more -> holds (cs ++ [c]) ds (rows ++ more).
Proof.
  intros (groups & -> & H) Hc. exists (groups ++ [more]). split; [by rewrite concat_app; cbn; rewrite app_nil_r|].
  apply Forall2_app; [done|]. by constructor.
Qed.

Lemma holds_times cs ds rows : holds cs ds rows -> forall k, map sr_timestamp (all_rows_from k cs) = map fst rows.
Proof.
  intros (groups & -> & H). induction H as [|c g cs groups Hc _ IH]; intros k; [done|].
  cbn [all_rows_from concat]. by rewrite !map_app, chunk_rows_times, IH, (ch_times _ _ _ Hc).
Qed.

Lemma group_not_empty ds c g : chunk_holds ds c g -> g <> [].
Proof.
  intros H ->. pose proof (ch_times _ _ _ H) as Ht. pose proof (cw_min _ (ch_wf _ _ _ H)) as Hm. by rewrite Ht in Hm.
Qed.

Lemma holds_deque cs ds rows : holds cs ds rows -> sorted (map fst rows) -> deque_wf cs.
Proof.
  intros (groups & -> & H). induction H as [|c g cs groups Hc Hcs IH]; intros Hs; [constructor|].
  cbn [concat] in Hs. rewrite map_app in Hs. apply sorted_app_iff in Hs as (_ & Hs & Hle). specialize (IH Hs).
  destruct cs as [|c' cs]; [by constructor; apply Hc|]. constructor; [apply Hc| |done].
  inversion Hcs as [|? g' ? groups' Hc' _]; subst. apply Hle.
  - rewrite <- (ch_times _ _ _ Hc). apply list_elem_of_lookup. rewrite <- (cw_max _ (ch_wf _ _ _ Hc)).
    eexists. by rewrite last_lookup.
  - cbn [concat]. rewrite map_app, elem_of_app. left. rewrite <- (ch_times _ _ _ Hc').
    pose proof (cw_min _ (ch_wf _ _ _ Hc')) as Hm. destruct (timestamps c'); simplify_eq/=. by left.
Qed.

Lemma holds_app cs ds rows cs' rows' : holds cs ds rows -> holds cs' ds rows' -> holds (cs ++ cs') ds (rows ++ rows').
Proof.
  intros (groups & -> & H) (groups' & -> & H'). exists (groups ++ groups'). split; [by rewrite concat_app|]. by apply Forall2_app.
Qed.

(** Rows that follow those held do not start before the last chunk ends. *)
Lemma holds_time_max s ds rows more t : holds (sealed_chunks_ s) ds rows -> sorted (map fst (rows ++ more)) ->
  head (map fst more) = Some t -> sealed_chunks_ s = [] \/ Storage.time_max s <= t.
Proof.
  intros (groups & -> & H) Hs Ht. unfold Storage.time_max. destruct (sealed_chunks_ s) as [|c cs _] using rev_ind; [by left|right].
  rewrite last_snoc. apply Forall2_app_inv_l in H as (gs & g' & _ & Hc & ->). inversion Hc as [|? g ? ? Hg Hnil]; subst. inversion Hnil; subst.
  rewrite concat_app, map_app in Hs. apply sorted_app_iff in Hs as (_ & _ & Hle). apply Hle.
  - rewrite map_app, elem_of_app. right. cbn. rewrite app_nil_r, <- (ch_times _ _ _ Hg).
    pose proof (cw_max _ (ch_wf _ _ _ Hg)) as Hm. rewrite last_lookup in Hm. by eapply list_elem_of_lookup_2.
  - destruct (map fst more); [done|]. injection Ht as ->. by left.
Qed.

(** A builder seals into a chunk of its rows. *)
Lemma seal_holds b ds rows next : built b ds rows -> table_ok ds rows -> rows <> [] ->
  exists chunk, Builder.seal b next = Some chunk /\ chunk_holds ds chunk rows.
Proof.
  intros Hb Hok Hne. destruct (seal_built b ds rows next Hb Hok) as (chunk & Hs & _ & Ht & Hst & Hl & Hread).
  exists chunk. split; [done|]. destruct Hb as [Hd Hlen Hcols Htimes Hidle Hrows Htmax Htmin Hlast Hsorted]. split; try done; [|by eapply seal_fits|apply Hok]. split; rewrite ?Ht, ?Hst; [|done| | |].
  - by rewrite Hrows, length_map.
  - rewrite Htmin. by destruct rows.
  - rewrite Htmax. unfold last_time. destruct rows as [|r rows] using rev_ind; [done|].
    rewrite map_app. cbn [map]. by rewrite last_snoc.
  - apply Forall_map. exact (tb_range _ _ Hok).
Qed.

Lemma table_ok_suffix ds rows more : table_ok ds (rows ++ more) -> table_ok ds more.
Proof.
  intros [H1 H2 H3 H4 H5]. apply Forall_app in H1 as [_ H1]. apply Forall_app in H3 as [_ H3].
  rewrite map_app in H2. apply sorted_app_iff in H2 as (_ & H2 & _). rewrite length_app in H4.
  split; try done; [lia|]. intros j d Hd Hs. specialize (H5 j d Hd Hs). unfold col_values in *.
  rewrite map_app, slots_size_app in H5. unfold slots_size in *. lia.
Qed.

(** ** What the writer has taken of a topic *)

Record staged (w : DataWriter) (id : Z) (ds : list ColumnDescriptor) (rows : list Row) : Prop := {
  sg_storage : exists s, topics (engine w) !! id = Some s /\ Writer.loaded_columns w id s = Some ds;
  sg_table : table_ok ds rows;
  sg_rows : exists done current, rows = done ++ current
    /\ holds (default [] (pending_chunks w !! id)) ds done
    /\ match builders w !! id with Some b => built b ds current | None => current = [] end
}.

(** A call that concerns the topic [id] only. *)
Record only (id : Z) (w w' : DataWriter) : Prop := {
  on_engine : engine w' = engine w;
  on_builders : forall i, i <> id -> builders w' !! i = builders w !! i;
  on_pending : forall i, i <> id -> pending_chunks w' !! i = pending_chunks w !! i;
  on_columns : forall i, i <> id -> topic_columns w' !! i = topic_columns w !! i
}.

#[export] Instance only_preorder id : PreOrder (only id).
Proof.
  split; [by split|]. intros a b c [E1 B1 P1 C1] [E2 B2 P2 C2].
  split; [congruence|..]; intros i Hi; by rewrite ?B2, ?P2, ?C2, ?B1, ?P1, ?C1.
Qed.

Lemma only_staged id i w w' ds rows : only id w w' -> i <> id -> staged w i ds rows -> staged w' i ds rows.
Proof.
  intros [He Hb Hp Hc] Hne [(s & Hs & Hl) Ht Hr]. split; [|done|].
  - exists s. rewrite He. split; [done|]. unfold Writer.loaded_columns in *. by rewrite He, Hc.
  - by rewrite Hb, Hp.
Qed.

Lemma only_put_builder w id b : only id w (Writer.put_builder w id b).
Proof. split; cbn; try done. intros i Hi. by rewrite lookup_insert_ne. Qed.

Lemma loaded_columns_put w id s ds : Writer.loaded_columns w id s = Some ds ->
  Writer.loaded_columns (Writer.put_columns w id ds) id s = Some ds.
Proof.
  unfold Writer.loaded_columns. cbn [topic_columns Writer.put_columns Writer.with_columns engine].
  rewrite lookup_insert_eq. cbn [default]. intros H. destruct ds as [|d ds]; [|done].
  by destruct (topic_columns w !! id) as [[|c cols]|].
Qed.

(** [getOrCreateBuilder] gives the builder of the rows not sealed yet. *)
Lemma getOrCreateBuilder_staged w id ds rows : staged w id ds rows -> exists w' b,
  Writer.getOrCreateBuilder w id = Some (w', b) /\ builders w' !! id = Some b /\ staged w' id ds rows /\ only id w w'.
Proof.
  intros Hst. unfold Writer.getOrCreateBuilder. destruct (builders w !! id) as [b|] eqn:Eb.
  { exists w, b. by split_and!. }
  destruct Hst as [(s & Hs & Hl) Ht (dn & cur & -> & Hh & Hc)]. rewrite Eb in Hc. subst cur.
  unfold Engine.getTopicStorage, Writer.ensureColsLoaded. rewrite Hs. cbn [mbind option_bind]. rewrite Hl.
  cbn [mbind option_bind]. cbn [Writer.put_columns Writer.with_columns topic_columns]. rewrite lookup_insert_eq.
  cbn [mbind option_bind]. eexists _, _. split; [done|]. cbn. rewrite lookup_insert_eq. split; [done|]. split.
  - split; [|done|].
    + exists s. split; [done|]. by apply (loaded_columns_put w).
    + exists dn, []. cbn. rewrite lookup_insert_eq. split_and!; [done|done|apply make_built].
  - split; cbn; try done; intros i Hi; by rewrite lookup_insert_ne.
Qed.

(** ** One row *)

(** The calls between [beginRow] and [finishRow]. *)
Definition set_value (w : DataWriter) (id : Z) (j : nat) (a : Assign) : option DataWriter :=
  match a with Skip => Some w | Null => Writer.setNull w id j | Put v => Writer.set w id j v end.

Fixpoint set_values (w : DataWriter) (id : Z) (j : nat) (l : list Assign) : option DataWriter :=
  match l with [] => Some w | a :: rest => w ← set_value w id j a; set_values w id (S j) rest end.

(** A client's row: an error of [beginRow] ends it. *)
Definition write_row (w : DataWriter) (id : Z) (row : Row) : option (DataWriter * Status) :=
  '(w, status) ← Writer.beginRow w id row.1;
  match status with
  | Err e => Some (w, Err e)
  | Ok _ => w ← set_values w id 0 row.2; Writer.finishRow w id
  end.

Lemma put_builder_twice w id b b' : Writer.put_builder (Writer.put_builder w id b) id b' = Writer.put_builder w id b'.
Proof. unfold Writer.put_builder, Writer.with_builders. cbn. by rewrite insert_insert_eq. Qed.

Lemma set_values_builder l : forall w id j b b', assign_all b j l = Some b' ->
  set_values (Writer.put_builder w id b) id j l = Some (Writer.put_builder w id b').
Proof.
  induction l as [|a l IH]; intros w id j b b' H; cbn [assign_all set_values] in *; [by simplify_eq|].
  destruct (assign b j a) as [b1|] eqn:Ea; [|done]. cbn [mbind option_bind] in H.
  assert (Ha : set_value (Writer.put_builder w id b) id j a = Some (Writer.put_builder w id b1)).
  { destruct a as [| |v]; cbn [set_value assign] in *; [by simplify_eq| |].
    all: unfold Writer.setNull, Writer.set; cbn [builders Writer.put_builder Writer.with_builders].
    all: rewrite lookup_insert_eq; cbn [mbind option_bind]; rewrite Ea; cbn [mbind option_bind].
    all: by rewrite put_builder_twice. }
  rewrite Ha. cbn [mbind option_bind]. by apply IH.
Qed.

(** A row is a row of the builder, then a seal when the chunk is full. *)
Lemma write_row_builder w w1 id b t l b' : Writer.getOrCreateBuilder w id = Some (w1, b) ->
  is_Some (topics (engine w) !! id) -> last_timestamp_ b <= t -> append_row b t l = Some b' ->
  write_row w id (t, l) = (w2 ← (if Builder.isFull b' then Writer.autoSeal (Writer.put_builder w1 id b') id
                                 else Some (Writer.put_builder w1 id b')); Some (w2, okStatus)).
Proof.
  intros Hget [s Hs] Ht Hrow. unfold write_row, Writer.beginRow, Engine.getTopicStorage. cbn [fst snd]. rewrite Hs, Hget.
  cbn [mbind option_bind]. rewrite (proj2 (Z.ltb_ge _ _) Ht), andb_false_r. unfold append_row in Hrow.
  destruct (Builder.beginRow b t) as [b1|]; [|done]. cbn [mbind option_bind okStatus] in *.
  destruct (assign_all b1 0 l) as [b2|] eqn:E2; [|done]. cbn [mbind option_bind] in Hrow.
  rewrite (set_values_builder l w1 id 0 b1 b2 E2). cbn [mbind option_bind]. unfold Writer.finishRow.
  cbn [builders Writer.put_builder Writer.with_builders]. rewrite lookup_insert_eq, Hrow.
  cbn [mbind option_bind]. by rewrite put_builder_twice.
Qed.

(** Sealing moves the rows of the builder among the pending chunks. *)
Lemma autoSeal_staged w id ds rows : staged w id ds rows ->
  (forall b, builders w !! id = Some b -> 0 < Builder.rowCount b) ->
  exists w', Writer.autoSeal w id = Some w' /\ staged w' id ds rows /\ only id w w'.
Proof.
  intros [(s & Hs & Hl) Ht (dn & cur & -> & Hh & Hc)] Hpos. unfold Writer.autoSeal.
  destruct (builders w !! id) as [b|] eqn:Eb; cycle 1.
  { exists w. split_and!; [done| |done]. split; [by exists s|done|]. exists dn, cur. by rewrite Eb. }
  assert (Hne : cur <> []).
  { intros ->. specialize (Hpos b eq_refl). unfold Builder.rowCount in Hpos. rewrite (bl_rows _ _ _ Hc) in Hpos. done. }
  destruct (seal_holds b ds cur (next_chunk_id_ w) Hc (table_ok_suffix _ _ _ Ht) Hne) as (chunk & Hseal & Hch).
  unfold Writer.sealed. rewrite Hseal. cbn [mbind option_bind]. eexists. split; [done|]. split.
  - split; [by exists s|done|]. exists (dn ++ cur), []. cbn. rewrite lookup_insert_eq, lookup_delete_eq, app_nil_r.
    split_and!; [done| |done]. by apply holds_snoc.
  - split; cbn; try done; intros i Hi; by rewrite ?lookup_insert_ne, ?lookup_delete_ne.
Qed.

Lemma write_row_staged w id ds rows row : staged w id ds rows -> table_ok ds (rows ++ [row]) ->
  exists w', write_row w id row = Some (w', okStatus) /\ staged w' id ds (rows ++ [row]) /\ only id w w'.
Proof.
  intros Hst Hok. destruct row as [t l]. pose proof (sg_storage _ _ _ _ Hst) as (s & Hs & _).
  destruct (getOrCreateBuilder_staged w id ds rows Hst) as (w1 & b & Hget & Hb & Hst1 & Honly).
  destruct (sg_rows _ _ _ _ Hst1) as (dn & cur & -> & Hh & Hc). rewrite Hb in Hc.
  rewrite <- app_assoc in Hok. pose proof (table_ok_suffix _ _ _ Hok) as Hcur.
  assert (Hlast : last_time (map fst cur) <= t).
  { apply sorted_last_le; [pose proof (tb_sorted _ _ Hcur) as H; by rewrite map_app in H|].
    pose proof (tb_range _ _ Hcur) as H. apply Forall_app in H as [_ H]. by rewrite Forall_singleton in H. }
  destruct (append_row_built b ds cur t l Hc) as (b' & Hrow & Hb'); [|done| | |by apply Hcur|].
  { pose proof (tb_rows _ _ Hcur) as H. apply Forall_app in H as [_ H]. by rewrite Forall_singleton in H. }
  { pose proof (tb_range _ _ Hcur) as H. apply Forall_app in H as [_ H]. by rewrite Forall_singleton in H. }
  { pose proof (tb_count _ _ Hcur) as H. rewrite length_app in H. cbn in H. lia. }
  rewrite (write_row_builder w w1 id b t l b' Hget ltac:(eauto)) by (done || by rewrite (bl_last _ _ _ Hc)).
  assert (Hst2 : staged (Writer.put_builder w1 id b') id ds ((dn ++ cur) ++ [(t, l)])).
  { destruct Hst1 as [Hsto _ _]. rewrite <- app_assoc. split; [done|done|]. exists dn, (cur ++ [(t, l)]). cbn.
    by rewrite lookup_insert_eq. }
  assert (Honly2 : only id w (Writer.put_builder w1 id b')) by (etrans; [exact Honly|apply only_put_builder]).
  destruct (Builder.isFull b'); [|by eexists].
  destruct (autoSeal_staged _ _ _ _ Hst2) as (w2 & Hseal & Hst3 & Honly3).
  { cbn. rewrite lookup_insert_eq. intros b2 [= <-]. unfold Builder.rowCount. rewrite (bl_rows _ _ _ Hb'), length_app.
    cbn. lia. }
  rewrite Hseal. exists w2. split_and!; [done|done|by etrans].
Qed.

(** ** Any interleaving of topics *)

(** Every topic of [ids] has taken its rows; the writer holds nothing else. *)
Definition all_staged (w : DataWriter) (ids : gset Z) (ds : Z -> list ColumnDescriptor) (rows : Z -> list Row) : Prop :=
  (forall id, id ∈ ids -> staged w id (ds id) (rows id))
  /\ (forall id, id ∉ ids -> builders w !! id = None /\ pending_chunks w !! id = None).

Fixpoint write_rows (w : DataWriter) (writes : list (Z * Row)) : option (DataWriter * Status) :=
  match writes with
  | [] => Some (w, okStatus)
  | (id, row) :: rest =>
      '(w, status) ← write_row w id row;
      match status with Err e => Some (w, Err e) | Ok _ => write_rows w rest end
  end.

Lemma write_rows_app a : forall w b, write_rows w (a ++ b)
  = '(w, status) ← write_rows w a; match status with Err e => Some (w, Err e) | Ok _ => write_rows w b end.
Proof.
  induction a as [|[id row] a IH]; intros w b; [done|]. cbn [app write_rows].
  destruct (write_row w id row) as [[w1 [u|err]]|]; cbn [mbind option_bind]; [apply IH|done|done].
Qed.

Definition rows_of (id : Z) (writes : list (Z * Row)) : list Row := (filter (fun p => p.1 = id) writes).*2.

Lemma rows_of_eq id row writes : rows_of id ((id, row) :: writes) = row :: rows_of id writes.
Proof. unfold rows_of. by rewrite filter_cons_True. Qed.

Lemma rows_of_ne id i row writes : i <> id -> rows_of id ((i, row) :: writes) = rows_of id writes.
Proof. intros H. unfold rows_of. by rewrite filter_cons_False. Qed.

Lemma write_rows_staged ids ds writes : forall w rows, all_staged w ids ds rows ->
  (forall p, p ∈ writes -> p.1 ∈ ids) -> (forall id, id ∈ ids -> table_ok (ds id) (rows id ++ rows_of id writes)) ->
  exists w', write_rows w writes = Some (w', okStatus) /\ engine w' = engine w
    /\ all_staged w' ids ds (fun id => rows id ++ rows_of id writes).
Proof.
  induction writes as [|[id row] writes IH]; intros w rows [Hst Hno] Hids Hok.
  { exists w. split_and!; [done|done|]. split; [|done]. intros id Hid. change (rows_of id []) with (@nil Row).
    rewrite app_nil_r. by apply Hst. }
  assert (Hid : id ∈ ids) by (apply (Hids (id, row)); by left).
  specialize (Hok id Hid) as Hrow. rewrite rows_of_eq, cons_middle, app_assoc in Hrow.
  destruct (write_row_staged w id (ds id) (rows id) row (Hst id Hid) (table_ok_prefix _ _ _ Hrow))
    as (w1 & Hw1 & Hst1 & Honly).
  cbn [write_rows]. rewrite Hw1. cbn [mbind option_bind okStatus].
  destruct (IH w1 (fun i => if decide (i = id) then rows id ++ [row] else rows i)) as (w' & -> & He & Hst' & Hno').
  - split.
    + intros i Hi. case_decide as Hii; [by subst|]. apply (only_staged id i w); [done..|]. by apply Hst.
    + intros i Hi. destruct Honly. rewrite on_builders0, on_pending0 by (intros ->; done). by apply Hno.
  - intros p Hp. apply Hids. by right.
  - intros i Hi. case_decide as Hii; [by subst|]. specialize (Hok i Hi). by rewrite rows_of_ne in Hok.
  - exists w'. split_and!; [done|by rewrite He, (on_engine _ _ _ Honly)|]. split; [|done].
    intros i Hi. specialize (Hst' i Hi). cbn in Hst'. case_decide as Hii.
    + subst. rewrite rows_of_eq. by rewrite <- app_assoc in Hst'.
    + by rewrite rows_of_ne.
Qed.

(** ** Flushing everything *)

Lemma chunks_of_app id l k : chunks_of id (l ++ k) = chunks_of id l ++ chunks_of id k.
Proof. unfold chunks_of. by rewrite filter_app, fmap_app. Qed.

Lemma chunks_of_eq id c l : chunks_of id ((id, c) :: l) = c :: chunks_of id l.
Proof. unfold chunks_of. by rewrite filter_cons_True. Qed.

Lemma chunks_of_ne id i c l : i <> id -> chunks_of id ((i, c) :: l) = chunks_of id l.
Proof. intros H. unfold chunks_of. by rewrite filter_cons_False. Qed.

Lemma chunks_of_same id (cs : list TopicChunk) : chunks_of id (map (pair id) cs) = cs.
Proof. induction cs as [|c cs IH]; [done|]. cbn [map]. by rewrite chunks_of_eq, IH. Qed.

Lemma chunks_of_other id i (cs : list TopicChunk) : i <> id -> chunks_of id (map (pair i) cs) = [].
Proof. intros H. induction cs as [|c cs IH]; [done|]. cbn [map]. by rewrite chunks_of_ne. Qed.

Lemma chunks_of_none id (l : list (Z * TopicChunk)) : id ∉ l.*1 -> chunks_of id l = [].
Proof.
  induction l as [|[i c] l IH]; [done|]. cbn [fmap list_fmap fst]. intros [? ?]%not_elem_of_cons. rewrite chunks_of_ne by congruence.
  by apply IH.
Qed.

Lemma seal_builders_spec (Q : Z -> TopicChunk -> Prop) ids : forall w result, NoDup ids ->
  (forall id, id ∈ ids -> exists b, builders w !! id = Some b
     /\ forall next, exists chunk, Builder.seal b next = Some chunk /\ Q id chunk) ->
  exists w' new, Writer.seal_builders w ids result = Some (w', result ++ new)
    /\ new.*1 = ids /\ Forall (fun p => Q p.1 p.2) new
    /\ engine w' = engine w /\ pending_chunks w' = pending_chunks w /\ topic_columns w' = topic_columns w
    /\ (forall i, builders w' !! i = if decide (i ∈ ids) then None else builders w !! i).
Proof.
  induction ids as [|id ids IH]; intros w result Hnd Hb.
  { exists w, []. rewrite app_nil_r. split_and!; try done. }
  apply NoDup_cons in Hnd as [Hni Hnd]. destruct (Hb id ltac:(by left)) as (b & Hbw & Hs).
  destruct (Hs (next_chunk_id_ w)) as (chunk & Hseal & HQ). cbn [Writer.seal_builders]. rewrite Hbw.
  unfold Writer.sealed. rewrite Hseal. cbn [mbind option_bind].
  match goal with |- context [Writer.seal_builders ?w1 ids ?r] => destruct (IH w1 r Hnd) as (w' & new & -> & Hf & HQs & He & Hp & Hc & Hl) end.
  - intros i Hi. destruct (Hb i ltac:(by right)) as (b' & Hb' & ?). exists b'. split; [|done]. cbn.
    rewrite lookup_delete_ne; [done|]. by intros ->.
  - exists w', ((id, chunk) :: new). rewrite <- app_assoc. split_and!; try done.
    + cbn. by rewrite Hf.
    + by constructor.
    + intros i. rewrite Hl. cbn. destruct (decide (i = id)) as [->|Hne].
      * rewrite lookup_delete_eq. rewrite (decide_True (P := id ∈ id :: ids)) by left. by case_decide.
      * rewrite lookup_delete_ne by done. destruct (decide (i ∈ ids)).
        -- rewrite decide_True; [done|]. by right.
        -- rewrite decide_False; [done|]. by apply not_elem_of_cons.
Qed.

Lemma chunks_of_single id c (l : list (Z * TopicChunk)) : NoDup l.*1 -> (id, c) ∈ l -> chunks_of id l = [c].
Proof.
  induction l as [|[i x] l IH]; [by intros _ ?%not_elem_of_nil|]. cbn [fmap list_fmap fst]. intros [Hi Hnd]%NoDup_cons.
  intros [[= -> ->]|Hin]%elem_of_cons; [rewrite chunks_of_eq, chunks_of_none; done|].
  rewrite chunks_of_ne; [by apply IH|]. intros ->. apply Hi, list_elem_of_fmap. by exists (id, c).
Qed.

Section Flush.
Context (iter : forall A, gmap Z A -> list (Z * A)).
Context (Hiter : forall A (m : gmap Z A), iter A m ≡ₚ map_to_list m).

Lemma pending_chunks_of (m : gmap Z (list TopicChunk)) id :
  chunks_of id (concat (map (fun '(i, cs) => map (pair i) cs) (iter _ m))) = default [] (m !! id).
Proof.
  assert (Hgen : forall l, NoDup l.*1 -> chunks_of id (concat (map (fun '(i, cs) => map (pair i) cs) l))
    = match list_find (fun p : Z * list TopicChunk => p.1 = id) l with Some (_, p) => p.2 | None => [] end).
  { induction l as [|[i cs] l IH]; intros Hnd; [done|]. cbn in Hnd. apply NoDup_cons in Hnd as [Hni Hnd].
    cbn [map concat list_find fst]. rewrite chunks_of_app. destruct (decide (i = id)) as [->|Hne].
    - rewrite chunks_of_same. cbn. rewrite chunks_of_none; [by rewrite app_nil_r|].
      intros ([i' c] & Hii & Hin)%list_elem_of_fmap. cbn in Hii. subst i'.
      apply list_elem_of_In, in_concat in Hin as (cs' & Hcs' & Hc).
      apply in_map_iff in Hcs' as ([i'' cs''] & <- & Hin''). apply in_map_iff in Hc as (c' & [= -> ->] & _).
      apply Hni. apply list_elem_of_fmap. exists (id, cs''). split; [done|]. by apply list_elem_of_In.
    - rewrite chunks_of_other by done. rewrite IH by done. cbn. by destruct (list_find _ l) as [[? ?]|]. }
  rewrite Hgen by by apply (iter_nodup iter Hiter).
  destruct (list_find _ _) as [[k [i cs]]|] eqn:E.
  - apply list_find_Some in E as (Hk & Hi & _). cbn in Hi. subst. cbn.
    apply list_elem_of_lookup_2, (elem_of_iter iter Hiter) in Hk. by rewrite Hk.
  - apply list_find_None in E. destruct (m !! id) as [cs|] eqn:Em; [|done].
    apply (elem_of_iter iter Hiter) in Em. rewrite Forall_forall in E. by apply E in Em.
Qed.

(** [flushAll] hands out the pending chunks of every topic, then its builder sealed if it has rows. *)
Lemma flushAll_spec (Q : Z -> TopicChunkBuilder -> TopicChunk -> Prop) w :
  (forall id b next, builders w !! id = Some b -> 0 < Builder.rowCount b -> exists c, Builder.seal b next = Some c /\ Q id b c) ->
  exists w' result, Writer.flushAll iter w = Some (w', result)
    /\ engine w' = engine w /\ pending_chunks w' = ∅ /\ topic_columns w' = topic_columns w
    /\ (forall id b, builders w' !! id = Some b -> builders w !! id = Some b /\ ~ 0 < Builder.rowCount b)
    /\ forall id, exists new, chunks_of id result = default [] (pending_chunks w !! id) ++ new
       /\ match builders w !! id with
          | Some b => if decide (0 < Builder.rowCount b) then exists c, new = [c] /\ Q id b c else new = []
          | None => new = []
          end.
Proof.
  intros Hseal. unfold Writer.flushAll. cbv zeta. change (builders (Writer.with_pending w ∅)) with (builders w).
  set (full := filter (fun p : Z * TopicChunkBuilder => 0 < Builder.rowCount p.2) (iter _ (builders w))).
  assert (Hfull : forall id b, (id, b) ∈ full <-> builders w !! id = Some b /\ 0 < Builder.rowCount b).
  { intros id b. unfold full. rewrite list_elem_of_filter, (elem_of_iter iter Hiter). tauto. }
  assert (Hids : forall id, id ∈ map fst full <-> exists b, builders w !! id = Some b /\ 0 < Builder.rowCount b).
  { intros id. split; [intros ([i b] & -> & Hin)%list_elem_of_fmap; apply Hfull in Hin; eauto|].
    intros (b & Hb). apply list_elem_of_fmap. exists (id, b). split; [done|]. by apply Hfull. }
  assert (Hnd : NoDup (map fst full)).
  { apply (sublist_NoDup _ (iter _ (builders w)).*1); [by apply iter_nodup|]. apply fmap_sublist, sublist_filter. }
  destruct (seal_builders_spec (fun id c => exists b, builders w !! id = Some b /\ Q id b c) (map fst full)
      (Writer.with_pending w ∅) (concat (map (fun '(id, cs) => map (pair id) cs) (iter _ (pending_chunks w)))))
    as (w' & new & -> & Hf & HQ & He & Hp & Hcol & Hl); [done| |].
  { intros id Hid. apply Hids in Hid as (b & Hb & Hpos). exists b. split; [done|]. intros next.
    destruct (Hseal id b next Hb Hpos) as (c & ? & ?). eauto. }
  eexists _, _. split; [done|]. split_and!; [done|done|done| |].
  - intros id b. rewrite Hl. case_decide as Hin; [done|]. intros Hb. split; [done|]. intros Hpos. apply Hin, Hids. eauto.
  - intros id. exists (chunks_of id new). rewrite chunks_of_app, pending_chunks_of. split; [done|].
    destruct (decide (id ∈ map fst full)) as [Hin|Hin].
    + pose proof Hin as (b & Hb & Hpos)%Hids. rewrite Hb, decide_True by done.
      rewrite <- Hf in Hnd, Hin. apply list_elem_of_fmap in Hin as ([i c] & Hi & Hin). cbn in Hi. subst i.
      exists c. split; [by apply chunks_of_single|]. rewrite Forall_forall in HQ. destruct (HQ _ Hin) as (b' & Hb' & HQ').
      cbn in *. by simplify_eq.
    + rewrite chunks_of_none by by rewrite Hf. destruct (builders w !! id) as [b|] eqn:Hb; [|done].
      rewrite decide_False; [done|]. intros Hpos. apply Hin, Hids. eauto.
Qed.

(** The rows of a builder that is not sealed. *)
Lemma no_rows b ds rows : built b ds rows -> ~ 0 < Builder.rowCount b -> rows = [].
Proof. intros Hb Hn. unfold Builder.rowCount in Hn. rewrite (bl_rows _ _ _ Hb) in Hn. destruct rows; [done|]. cbn in Hn. lia. Qed.

(** [flushAll] gives every topic the chunks of all its rows, and keeps none. *)
Lemma flushAll_staged w ids ds rows : all_staged w ids ds rows ->
  exists w' result, Writer.flushAll iter w = Some (w', result) /\ engine w' = engine w
    /\ (forall id, id ∈ ids -> holds (chunks_of id result) (ds id) (rows id))
    /\ (forall id, id ∉ ids -> chunks_of id result = [])
    /\ all_staged w' ids ds (fun _ => []).
Proof.
  intros [Hst Hno].
  destruct (flushAll_spec (fun id b c => forall current, built b (ds id) current -> table_ok (ds id) current ->
      chunk_holds (ds id) c current) w) as (w' & result & -> & He & Hp & Hcol & Hl & Hres).
  { intros id b next Hb Hpos. destruct (decide (id ∈ ids)) as [Hid|Hid]; [|destruct (Hno id Hid); congruence].
    pose proof (Hst id Hid) as [_ Ht (dn & cur & Hrows & _ & Hc)]. rewrite Hb in Hc. rewrite Hrows in Ht.
    assert (Hne : cur <> []) by (intros ->; unfold Builder.rowCount in Hpos; by rewrite (bl_rows _ _ _ Hc) in Hpos).
    destruct (seal_built b (ds id) cur next Hc (table_ok_suffix _ _ _ Ht)) as (chunk & Hs & _).
    exists chunk. split; [done|]. intros cur' Hbuilt Hok.
    destruct (seal_holds b (ds id) cur' next Hbuilt Hok) as (chunk' & Hs' & Hch); [|by replace chunk with chunk' by congruence].
    intros ->. unfold Builder.rowCount in Hpos. by rewrite (bl_rows _ _ _ Hbuilt) in Hpos. }
  exists w', result. split_and!; [done|done| | |].
  - intros id Hid. destruct (Hres id) as (new & -> & Hnew). destruct (Hst id Hid) as [_ Ht (dn & cur & Hrows & Hh & Hc)].
    rewrite Hrows in Ht |- *. destruct (builders w !! id) as [b|]; [|subst; by rewrite !app_nil_r].
    case_decide as Hpos; [|subst; rewrite (no_rows _ _ _ Hc) by done; by rewrite !app_nil_r].
    destruct Hnew as (c & -> & HQ). apply holds_snoc; [done|]. apply HQ; [done|]. by apply table_ok_suffix in Ht.
  - intros id Hid. destruct (Hres id) as (new & -> & Hnew). destruct (Hno id Hid) as [Hb ->]. rewrite Hb in Hnew. by subst.
  - split; cycle 1.
    { intros id Hid. rewrite Hp, lookup_empty. split; [|done]. destruct (builders w' !! id) as [b|] eqn:Hb; [|done].
      apply Hl in Hb as [Hb _]. destruct (Hno id Hid). congruence. }
    intros id Hid. destruct (Hst id Hid) as [(s & Hs & Hld) Ht (dn & cur & Hrows & Hh & Hc)].
    split; [|by apply (table_ok_prefix _ [] (rows id))|].
    + exists s. unfold Writer.loaded_columns in *. by rewrite He, Hcol.
    + exists [], []. rewrite Hp, lookup_empty. split_and!; [done|apply holds_nil|].
      destruct (builders w' !! id) as [b|] eqn:Hb; [|done]. apply Hl in Hb as [Hb Hn]. rewrite Hb in Hc.
      by rewrite (no_rows _ _ _ Hc Hn) in Hc.
Qed.

End Flush.

(** ** The life of a row *)

Lemma holds_empty cs ds rows : holds cs ds rows -> cs = [] <-> rows = [].
Proof.
  intros (groups & -> & H). destruct H as [|c g cs groups Hc _]; [done|]. split; [done|].
  intros [Hg _]%app_nil. by apply group_not_empty in Hc.
Qed.

Lemma make_staged e n ids ds :
  (forall id, id ∈ ids -> exists s, topics e !! id = Some s /\ Writer.loaded_columns (Writer.make e n) id s = Some (ds id)) ->
  (forall id, id ∈ ids -> table_ok (ds id) []) ->
  all_staged (Writer.make e n) ids ds (fun _ => []).
Proof.
  intros Hids Hok. split; [|done]. intros id Hid. split; [by apply Hids|by apply Hok|].
  exists [], []. split_and!; [done|apply holds_nil|done].
Qed.

Lemma chunks_of_elem id c chunks : (id, c) ∈ chunks -> c ∈ chunks_of id chunks.
Proof.
  intros H. unfold chunks_of. apply list_elem_of_fmap. exists (id, c). split; [done|]. by apply list_elem_of_filter.
Qed.

Lemma append_none id chunks s : chunks_of id chunks = [] -> append_all id chunks s = s.
Proof.
  revert s. induction chunks as [|[i c] chunks IH]; intros s H; [done|]. destruct (decide (i = id)) as [->|Hne].
  - by rewrite chunks_of_eq in H.
  - rewrite chunks_of_ne in H by done. rewrite append_all_ne by done. by apply IH.
Qed.

Lemma filter_no_element {A} (P : A -> Prop) `{!forall x, Decision (P x)} l : (forall x, x ∈ l -> ~ P x) -> filter P l = [].
Proof.
  induction l as [|x l IH]; intros Hno; [done|]. rewrite filter_cons_False by (apply Hno; by left).
  apply IH. intros y Hy. apply Hno. by right.
Qed.

(** What a commit of well-timed chunks does to one topic. *)
Lemma commit_holds id ds rows chunks s : deque_wf (sealed_chunks_ s) ->
  holds (chunks_of id chunks) ds rows -> sorted (map fst rows) ->
  (forall t, head (map fst rows) = Some t -> sealed_chunks_ s = [] \/ Storage.time_max s <= t) ->
  deque_wf (sealed_chunks_ s ++ chunks_of id chunks)
  /\ append_all id chunks s = Storage.with_chunks s (sealed_chunks_ s ++ chunks_of id chunks).
Proof.
  intros Hwf Hh Hs Ht. assert (Hd : deque_wf (sealed_chunks_ s ++ chunks_of id chunks)).
  { apply deque_wf_app; [done|by eapply holds_deque|]. intros a b Ha Hb.
    destruct Hh as (groups & -> & HF). destruct HF as [|c g cs groups Hc _]; [done|]. injection Hb as ->.
    pose proof (cw_min _ (ch_wf _ _ _ Hc)) as Hmin. rewrite (ch_times _ _ _ Hc) in Hmin.
    destruct (Ht (t_min (stats b))) as [He|Hle].
    - cbn [concat]. rewrite map_app. by destruct (map fst g).
    - by rewrite He in Ha.
    - unfold Storage.time_max in Hle. by rewrite Ha in Hle. }
  split; [done|by apply append_all_in_order].
Qed.

(** What all the commit of a writer's chunks does to an engine: the topics gain chunks that hold
    their rows. *)
Definition committed (e e' : DataEngine) (changed : list Z) (ids : gset Z) (ds : Z -> list ColumnDescriptor)
    (rows : Z -> list Row) : Prop :=
  engine_ok e'
  /\ (forall id s, id ∈ ids -> topics e !! id = Some s -> exists cs,
       topics e' !! id = Some (Storage.with_chunks s (sealed_chunks_ s ++ cs))
       /\ holds cs (ds id) (rows id)
       /\ deque_wf (sealed_chunks_ s ++ cs))
  /\ (forall id, id ∉ ids -> topics e' !! id = topics e !! id)
  /\ (forall id, id ∈ changed <-> id ∈ ids /\ rows id <> [])
  /\ type_registry e' = type_registry e.

Lemma commit_staged iter (Hiter : forall A (m : gmap Z A), iter A m ≡ₚ map_to_list m) w ids ds rows :
  engine_ok (engine w) -> all_staged w ids ds rows ->
  (forall id s t, id ∈ ids -> topics (engine w) !! id = Some s -> head (map fst (rows id)) = Some t ->
     sealed_chunks_ s = [] \/ Storage.time_max s <= t) ->
  exists w' chunks, Writer.flushAll iter w = Some (w', chunks) /\ engine w' = engine w
    /\ let '(e', changed) := Engine.commitChunks (engine w') chunks in committed (engine w) e' changed ids ds rows.
Proof.
  intros Hok Hst Htime. destruct (flushAll_staged iter Hiter w ids ds _ Hst) as (w' & chunks & Hfl & Hew' & Hin & Hout & _).
  exists w', chunks. split_and!; [done..|]. rewrite Hew'.
  assert (Hsome : forall id, id ∈ ids -> exists s, topics (engine w) !! id = Some s).
  { intros id Hid. destruct (sg_storage _ _ _ _ (proj1 Hst id Hid)) as (s & Hs & _). eauto. }
  set (e := engine w) in *. clearbody e.
  assert (Hsorted : forall id, id ∈ ids -> sorted (map fst (rows id))) by (intros id Hid; exact (tb_sorted _ _ (sg_table _ _ _ _ (proj1 Hst id Hid)))).
  assert (Hcommit : forall id s, id ∈ ids -> topics e !! id = Some s ->
    deque_wf (sealed_chunks_ s ++ chunks_of id chunks)
    /\ append_all id chunks s = Storage.with_chunks s (sealed_chunks_ s ++ chunks_of id chunks)).
  { intros id s Hid Hs. apply (commit_holds id (ds id) (rows id)); [by eapply en_chunks|by apply Hin|by apply Hsorted|]. intros t. by apply Htime. }
  assert (Hother : forall id s, id ∉ ids -> append_all id chunks s = s) by (intros id s Hid; by apply append_none, Hout).
  assert (Hwf : Forall (fun p => chunk_wf p.2) chunks).
  { apply Forall_forall. intros [id c] Hc. cbn. pose proof (chunks_of_elem _ _ _ Hc) as Hc'. destruct (decide (id ∈ ids)) as [Hid|Hid].
    - destruct (Hin id Hid) as (groups & _ & HF). apply list_elem_of_lookup in Hc' as [k Hk].
      destruct (Forall2_lookup_l _ _ _ _ _ HF Hk) as (g & _ & Hg). apply Hg.
    - rewrite Hout in Hc' by done. by apply not_elem_of_nil in Hc'. }
  pose proof (commitChunks_ok e chunks Hok Hwf) as Hok'. unfold Engine.commitChunks in *.
  pose proof (commit_loop_spec chunks e []) as Hspec. destruct (Engine.commit_loop e chunks []) as [e' changed].
  destruct Hspec as (He' & Htop & Hch). unfold committed. split_and!; [done| | | |by rewrite He'].
  - intros id s Hid Hs. exists (chunks_of id chunks). destruct (Hcommit id s Hid Hs) as [Hd Ha].
    split_and!; [by rewrite Htop, Hs; cbn; rewrite Ha|by apply Hin|done].
  - intros id Hid. rewrite Htop. destruct (topics e !! id) as [s|]; [|done]. cbn. by rewrite Hother.
  - intros id. rewrite unique_elem, merge_sort_Permutation, Hch. unfold grown, grew. destruct (decide (id ∈ ids)) as [Hid|Hid].
    + destruct (Hsome id Hid) as [s Hs]. rewrite Hs. destruct (Hcommit id s Hid Hs) as [_ Ha].
      rewrite <- (holds_empty _ _ _ (Hin id Hid)). split.
      * intros [?%not_elem_of_nil|(s' & [= <-] & Hlt)]; [done|]. split; [done|]. intros Hemp. rewrite Ha, Hemp, app_nil_r in Hlt.
        cbn in Hlt. lia.
      * intros [_ Hne]. right. exists s. split; [done|]. rewrite Ha. cbn. rewrite length_app.
        destruct (chunks_of id chunks); [done|]. cbn. lia.
    + split; [|by intros []]. intros [?%not_elem_of_nil|(s & _ & Hlt)]; [done|]. rewrite Hother in Hlt by done. lia.
Qed.

(** C3: rows given to a new writer over a consistent engine, interleaved over any topics, then flushed
    and committed.  If the rows of every topic fit its columns, are in time order, do not start before
    its last stored row and stay below [2^32] rows and bytes of text in a column, every call succeeds
    and every topic's chunks gain, behind those it had, chunks that hold exactly its rows, in order
    and with every cell readable as it was written ([cell_reads], with its exceptions for a [uint64_t]
    of [2^53] or more and for the sign of a zero in a column sealed as a constant); range queries see
    them; the other topics are unchanged; the commit reports the topics written to; the engine stays
    consistent. *)
Theorem rows_written_are_stored iter (Hiter : forall A (m : gmap Z A), iter A m ≡ₚ map_to_list m)
    e n (ids : gset Z) ds writes :
  engine_ok e ->
  (forall id, id ∈ ids -> exists s, topics e !! id = Some s
     /\ Writer.loaded_columns (Writer.make e n) id s = Some (ds id)) ->
  (forall p, p ∈ writes -> p.1 ∈ ids) ->
  (forall id, id ∈ ids -> table_ok (ds id) (rows_of id writes)) ->
  (forall id s t, topics e !! id = Some s -> head (map fst (rows_of id writes)) = Some t ->
     sealed_chunks_ s = [] \/ Storage.time_max s <= t) ->
  exists w w' chunks, write_rows (Writer.make e n) writes = Some (w, okStatus)
    /\ Writer.flushAll iter w = Some (w', chunks)
    /\ let '(e', changed) := Engine.commitChunks (engine w') chunks in
       engine_ok e'
       /\ (forall id s, id ∈ ids -> topics e !! id = Some s -> exists cs,
            topics e' !! id = Some (Storage.with_chunks s (sealed_chunks_ s ++ cs))
            /\ holds cs (ds id) (rows_of id writes)
            /\ forall lo hi, map sr_timestamp <$> RangeCursor.forEach (sealed_chunks_ s ++ cs) lo hi
                 = Some (filter (fun t => lo <= t <= hi)
                     (map sr_timestamp (all_rows (sealed_chunks_ s)) ++ map fst (rows_of id writes))))
       /\ (forall id, id ∉ ids -> topics e' !! id = topics e !! id)
       /\ (forall id, id ∈ changed <-> rows_of id writes <> []).
Proof.
  intros Hok Hids Hw Htab Htime.
  destruct (write_rows_staged ids ds writes (Writer.make e n) (fun _ => [])) as (w & Hrun & Hew & Hst); [|done..|].
  { apply make_staged; [done|]. intros id Hid. by apply (table_ok_prefix _ [] (rows_of id writes)), Htab. }
  cbn [engine Writer.make] in Hew.
  destruct (commit_staged iter Hiter w ids ds (fun id => rows_of id writes)) as (w' & chunks & Hfl & Hew' & Hcom); [by rewrite Hew|exact Hst| |].
  { rewrite Hew. intros id s t _. apply Htime. }
  exists w, w', chunks. split_and!; [done..|]. destruct (Engine.commitChunks _ _) as [e' changed]. rewrite Hew in Hcom.
  destruct Hcom as (Hok' & Hin & Hout & Hch & _). split_and!; [done| |done|].
  - intros id s Hid Hs. destruct (Hin id s Hid Hs) as (cs & Hcs & Hh & Hd). exists cs. split_and!; [done..|]. intros lo hi.
    rewrite range_rows_in_order by done. cbn. rewrite filter_times. unfold all_rows.
    by rewrite all_rows_from_app, map_app, (holds_times _ _ _ Hh).
  - intros id. rewrite Hch. split; [by intros []|]. intros Hne. split; [|done]. destruct (decide (id ∈ ids)) as [|Hid]; [done|].
    destruct Hne. unfold rows_of. rewrite filter_no_element; [done|]. intros p Hp Hpi. apply Hid. rewrite <- Hpi. by apply Hw.
Qed.

(** A row older than the last row of the chunk being built is refused, and nothing of it
    is kept: the topic holds the rows it held, and no other topic is touched. *)
Theorem late_row_refused w id ds rows b t l : staged w id ds rows ->
  builders w !! id = Some b -> 0 < Builder.rowCount b -> t < last_timestamp_ b ->
  write_row w id (t, l) = Some (w, Err (Writer.out_of_order t (last_timestamp_ b))).
Proof.
  intros Hst Hb Hpos Hlt. destruct (sg_storage _ _ _ _ Hst) as (s & Hs & _).
  unfold write_row, Writer.beginRow, Engine.getTopicStorage, Writer.getOrCreateBuilder. cbn [fst snd].
  rewrite Hs, Hb. cbn [mbind option_bind]. by rewrite (proj2 (Z.ltb_lt _ _) Hpos), (proj2 (Z.ltb_lt _ _) Hlt).
Qed.

(** ** Instances *)

Definition demo_schema : TypeTreeNode := makeStruct "demo"
  [makePrimitive "x" kFloat64; makePrimitive "n" kInt32; makePrimitive "s" kString; makePrimitive "b" kBool].

(** Two topics of one schema, with chunks of two rows. *)
Definition demo_topics : DataEngine :=
  let e := (Engine.createDataset Engine.make (mkDatasetDescriptor "log.mcap" 0)).1 in
  let e := Engine.with_registry e (Registry.registerSchema (type_registry e) "demo" demo_schema).1 in
  let e := (Engine.createTopic e 1 (mkTopicDescriptor "imu" 1 0 2 64)).1 in
  (Engine.createTopic e 1 (mkTopicDescriptor "odom" 1 0 2 64)).1.

Definition demo_writes : list (Z * Row) :=
  match demo_rows with [r0; r1; r2] => [(1, r0); (2, r1); (1, r1); (1, r2); (2, r2)] | _ => [] end.

Lemma demo_topics_reachable : engine_reachable demo_topics.
Proof.
  eapply rtc_l; [by apply (step_createDataset _ (mkDatasetDescriptor "log.mcap" 0))|].
  eapply rtc_l; [by apply step_registry, (step_registerSchema _ "demo" demo_schema)|].
  eapply rtc_l; [by apply (step_createTopic _ 1 (mkTopicDescriptor "imu" 1 0 2 64))|].
  eapply rtc_l; [by apply (step_createTopic _ 1 (mkTopicDescriptor "odom" 1 0 2 64))|]. done.
Qed.

Lemma demo_writes_ok id : id ∈ ({[1; 2]} : gset Z) -> table_ok demo_columns (rows_of id demo_writes).
Proof.
  intros H. assert (id = 1 \/ id = 2) as [-> | ->] by set_solver; [exact demo_table_ok|].
  exact (table_ok_suffix demo_columns (take 1 demo_rows) (drop 1 demo_rows) demo_table_ok).
Qed.

Lemma demo_columns_loaded id : id ∈ ({[1; 2]} : gset Z) -> exists s, topics demo_topics !! id = Some s
  /\ Writer.loaded_columns (Writer.make demo_topics 1) id s = Some demo_columns.
Proof.
  intros H. assert (id = 1 \/ id = 2) as [-> | ->] by set_solver; eexists; (split; [vm_compute; reflexivity|]);
    vm_compute; reflexivity.
Qed.

Lemma rows_written_are_stored_witness : exists w w' chunks,
  write_rows (Writer.make demo_topics 1) demo_writes = Some (w, okStatus)
  /\ Writer.flushAll listing w = Some (w', chunks)
  /\ exists s, topics (Engine.commitChunks (engine w') chunks).1 !! 1 = Some s
       /\ map sr_timestamp <$> RangeCursor.forEach (sealed_chunks_ s) 0 100 = Some [10; 20; 20].
Proof.
  destruct (rows_written_are_stored listing (fun A m => reflexivity _) demo_topics 1 {[1; 2]} (fun _ => demo_columns)
    demo_writes (engine_reachable_ok _ demo_topics_reachable) demo_columns_loaded) as (w & w' & chunks & H1 & H2 & H3).
  - intros p Hp. repeat (apply elem_of_cons in Hp as [-> | Hp]; [cbn; set_solver|]). by apply not_elem_of_nil in Hp.
  - exact demo_writes_ok.
  - intros id s t Hs _. left. assert (Hid : id ∈ dom (topics demo_topics)) by by eapply elem_of_dom_2.
    assert (Hd : dom (topics demo_topics) = {[1; 2]}) by by vm_compute.
    rewrite Hd in Hid. assert (id = 1 \/ id = 2) as [-> | ->] by set_solver; by vm_compute in Hs; simplify_eq.
  - exists w, w', chunks. split; [done|]. split; [done|].
    destruct (Engine.commitChunks (engine w') chunks) as [e' changed]. destruct H3 as (_ & H & _ & _).
    destruct (topics demo_topics !! 1) as [s|] eqn:E; [|done].
    destruct (H 1 s ltac:(set_solver) E) as (cs & Hs & _ & Hq). exists (Storage.with_chunks s (sealed_chunks_ s ++ cs)).
    split; [done|]. cbn [sealed_chunks_ Storage.with_chunks]. rewrite Hq. vm_compute in E. injection E as <-. vm_compute. reflexivity.
Defined.

(** A writer between two rows of a topic. *)
Definition demo_open : option (DataWriter * Status) := write_rows (Writer.make demo_topics 1) (take 1 demo_writes).

Lemma demo_open_staged : exists w, demo_open = Some (w, okStatus) /\ staged w 1 demo_columns (take 1 demo_rows).
Proof.
  destruct (write_rows_staged {[1]} (fun _ => demo_columns) (take 1 demo_writes) (Writer.make demo_topics 1) (fun _ => []))
    as (w & Hw & _ & Hst & _).
  - apply make_staged; intros id H; [apply demo_columns_loaded; set_solver|].
    exact (table_ok_prefix _ [] _ demo_table_ok).
  - intros p Hp. apply list_elem_of_singleton in Hp as ->. set_solver.
  - intros id H. assert (id = 1) as -> by set_solver. exact (table_ok_prefix _ (take 1 demo_rows) _ demo_table_ok).
  - exists w. split; [done|]. apply (Hst 1). set_solver.
Qed.

Lemma late_row_refused_witness : exists w msg, demo_open = Some (w, okStatus) /\ write_row w 1 (5, []) = Some (w, Err msg).
Proof.
  destruct demo_open_staged as (w & Hw & Hst). exists w.
  destruct (builders w !! 1) as [b|] eqn:Hb; [|vm_compute in Hw; by simplify_eq].
  exists (Writer.out_of_order 5 (last_timestamp_ b)). split; [done|].
  apply (late_row_refused w 1 demo_columns (take 1 demo_rows)); [done|done| |];
    vm_compute in Hw; injection Hw as <-; vm_compute in Hb; injection Hb as <-; vm_compute; reflexivity.
Defined.
