(* ===== verification/Layout.v ===== *)
(** * Layout: growing the columns of a topic

    [ensureColumn] and [expandArray] of [src/pj_datastore/src/writer.cpp] change
    the columns of a topic while rows are being written: here, that no row is
    lost, that columns are only appended with dense ids, and how far an array
    grows; and that the loop of [appendColumns] ends. *)

From S2P Require Import Prelude Types TypeTree TypeRegistry Float64 Buffer Encoding Column Chunk Query TopicStorage Engine Writer Ingest.

(** The id of a column is its position. *)
Definition dense (ds : list ColumnDescriptor) : Prop :=
  forall i d, ds !! i = Some d -> field_id d = Z.of_nat i.

Lemma dense_ids_ok ds : dense ds -> Z.of_nat (length ds) < 2 ^ 32 -> Writer.dense_ids ds = true.
Proof.
  intros Hd Hl. unfold Writer.dense_ids. destruct (last ds) as [d|] eqn:E; [|done].
  rewrite last_lookup in E. pose proof (lookup_lt_Some _ _ _ E). apply Hd in E. rewrite E.
  rewrite wrapU_small by (split; lia). apply Z.eqb_eq. lia.
Qed.

Lemma dense_app ds more : dense ds -> (forall i d, more !! i = Some d -> field_id d = Z.of_nat (length ds + i)) ->
  dense (ds ++ more).
Proof.
  intros Hd Hm i d. rewrite lookup_app_Some. intros [Hi|[Hle Hi]]; [by apply Hd|].
  rewrite (Hm _ _ Hi). f_equal. lia.
Qed.

Lemma find_column_app cols more path : Writer.find_column (cols ++ more) path
  = match Writer.find_column cols path with Some c => Some c | None => Writer.find_column more path end.
Proof. induction cols as [|c cols IH]; [done|]. cbn. by case_decide. Qed.

(** *** Rows survive a change of layout *)

Lemma sealBeforeLayoutChange_staged w id ds rows : staged w id ds rows ->
  exists w', Writer.sealBeforeLayoutChange w id = Some w' /\ builders w' !! id = None
    /\ holds (default [] (pending_chunks w' !! id)) ds rows /\ engine w' = engine w /\ topic_columns w' = topic_columns w.
Proof.
  intros [_ Ht (dn & cur & -> & Hh & Hc)]. unfold Writer.sealBeforeLayoutChange.
  destruct (builders w !! id) as [b|] eqn:Eb; [|exists w; subst cur; by rewrite app_nil_r].
  destruct (Z.ltb_spec 0 (Builder.rowCount b)) as [Hpos|Hpos]; unfold Builder.rowCount in Hpos; rewrite (bl_rows _ _ _ Hc) in Hpos.
  - destruct (seal_holds b ds cur (next_chunk_id_ w) Hc (table_ok_suffix _ _ _ Ht)) as (chunk & Hs & Hch); [by intros ->|].
    unfold Writer.sealed. rewrite Hs. cbn [mbind option_bind]. eexists. split; [done|]. cbn.
    rewrite lookup_insert_eq, lookup_delete_eq. split_and!; [done| |done..]. by apply holds_snoc.
  - cbn [mbind option_bind]. eexists. split; [done|]. cbn. rewrite lookup_delete_eq. split_and!; [done| |done..].
    destruct cur; [by rewrite app_nil_r|cbn in Hpos; lia].
Qed.

Lemma staged_not_in_progress w id ds rows : staged w id ds rows -> Writer.row_in_progress w id = false.
Proof.
  intros [_ _ (dn & cur & _ & _ & Hc)]. unfold Writer.row_in_progress. destruct (builders w !! id); [|done]. apply Hc.
Qed.

(** The layout once new columns are stored. *)
Lemma loaded_after w w' id s s' ds more : Writer.loaded_columns w id s = Some ds ->
  engine w' = Engine.with_topics (engine w) (topics (engine w')) ->
  topic_columns w' !! id = Some (ds ++ more) -> ts_column_descriptors_ s' = ds ++ more ->
  sealed_chunks_ s' = sealed_chunks_ s -> schema_id (descriptor_ s') = schema_id (descriptor_ s) ->
  Writer.loaded_columns w' id s' = Some (ds ++ more).
Proof.
  unfold Writer.loaded_columns. intros Hl He Hc Hd Hcs Hsch. rewrite Hc, Hd, Hcs, Hsch, He.
  cbn [default type_registry Engine.with_topics]. destruct (ds ++ more) as [|c cols] eqn:E; [|done].
  apply app_nil in E as [-> ->]. cbn. destruct (topic_columns w !! id) as [[|c cols]|]; try done; cbn in Hl.
  all: by destruct (ts_column_descriptors_ s).
Qed.

Lemma loaded_same w w' id s s' : engine w' = Engine.with_topics (engine w) (topics (engine w')) ->
  topic_columns w' !! id = topic_columns w !! id -> ts_column_descriptors_ s' = ts_column_descriptors_ s ->
  sealed_chunks_ s' = sealed_chunks_ s -> schema_id (descriptor_ s') = schema_id (descriptor_ s) ->
  Writer.loaded_columns w' id s' = Writer.loaded_columns w id s.
Proof. unfold Writer.loaded_columns. intros -> -> -> -> ->. done. Qed.

Lemma ensureColsLoaded_staged w id s ds rows : staged w id ds rows -> topics (engine w) !! id = Some s ->
  Writer.ensureColsLoaded w id s = Some (Writer.put_columns w id ds)
  /\ staged (Writer.put_columns w id ds) id ds rows.
Proof.
  intros [(s' & Hs' & Hl) Ht Hr] Hs. simplify_eq. unfold Writer.ensureColsLoaded. rewrite Hl. split; [done|].
  split; [|done|done]. exists s'. split; [done|]. by apply loaded_columns_put.
Qed.

(** What is left of a topic whose layout grew from [ds] by [more]. *)
Record regrown (w w' : DataWriter) (id : Z) (ds more : list ColumnDescriptor) (rows : list Row) : Prop := {
  rg_rows : holds (default [] (pending_chunks w' !! id)) ds rows;
  rg_builder : builders w' !! id = None;
  rg_dense : dense (ds ++ more);
  rg_storage : exists s s', topics (engine w) !! id = Some s /\ topics (engine w') !! id = Some s'
    /\ sealed_chunks_ s' = sealed_chunks_ s /\ ts_column_descriptors_ s' = ds ++ more
    /\ Writer.loaded_columns w' id s' = Some (ds ++ more)
}.

(** [ensureColumn] between two rows.  A column that exists is returned unchanged (or
    refused, if its type is another); otherwise it is appended with the next dense id, and the
    rows written so far are kept, in chunks of the old layout. *)
Theorem ensureColumn_spec w id ds rows path type : staged w id ds rows -> dense ds ->
  Z.of_nat (length ds) < 2 ^ 32 ->
  exists w' r, Writer.ensureColumn w id path type = Some (w', r) /\
  match Writer.find_column ds path with
  | Some col => staged w' id ds rows /\ (r = Ok (field_id col) <-> logical_type col = type)
  | None => r = Ok (Z.of_nat (length ds))
      /\ regrown w w' id ds [mkColumnDescriptor (Z.of_nat (length ds)) type path] rows
  end.
Proof.
  intros Hst Hd Hl. destruct (sg_storage _ _ _ _ Hst) as (s & Hs & Hload).
  unfold Writer.ensureColumn, Engine.getTopicStorage. rewrite Hs.
  destruct (ensureColsLoaded_staged w id s ds rows Hst Hs) as [-> Hst1]. cbn [mbind option_bind].
  assert (Hcols : topic_columns (Writer.put_columns w id ds) !! id = Some ds) by (cbn; apply lookup_insert_eq).
  rewrite Hcols. change (default [] (Some ds)) with ds. cbv zeta. destruct (Writer.find_column ds path) as [col|].
  { destruct (decide (logical_type col = type)); eexists _, _; (split; [done|]); (split; [done|]); split; intros; congruence. }
  rewrite (staged_not_in_progress _ _ _ _ Hst1).
  destruct (sealBeforeLayoutChange_staged _ _ _ _ Hst1) as (w1 & -> & Hb & Hh & He & Hc). cbn [mbind option_bind].
  rewrite (dense_ids_ok ds) by done. rewrite wrapU_small by (split; lia). eexists _, _. split; [done|]. split; [done|].
  split; cbn; [done|done| |].
  - apply dense_app; [done|]. intros [|i] d Hi; simplify_eq/=. lia.
  - exists s. eexists. rewrite lookup_insert_eq. split_and!; try done.
    apply (loaded_after w _ id s); cbn; try done; [by rewrite He|by rewrite lookup_insert_eq].
Qed.

(** ** Arrays *)

Lemma expand_untyped_spec path type todo : forall cols,
  exists more, Writer.expand_untyped cols (length cols) path type todo = cols ++ more
    /\ (dense cols -> dense (cols ++ more))
    /\ (forall i, i ∈ todo -> is_Some (Writer.find_column (cols ++ more) (index_path path i))).
Proof.
  induction todo as [|i todo IH]; intros cols.
  { exists []. rewrite app_nil_r. split_and!; [done|done|by intros ? ?%not_elem_of_nil]. }
  cbn [Writer.expand_untyped]. destruct (Writer.find_column cols (index_path path i)) as [c|] eqn:E.
  - destruct (IH cols) as (more & -> & Hd & Hf). exists more. split_and!; [done|done|].
    intros j [->|Hj]%elem_of_cons; [rewrite find_column_app, E; eauto|by apply Hf].
  - set (col := mkColumnDescriptor (Z.of_nat (length cols)) type (index_path path i)).
    replace (S (length cols)) with (length (cols ++ [col])) by (rewrite length_app; cbn; lia).
    destruct (IH (cols ++ [col])) as (more & -> & Hd & Hf). exists (col :: more).
    rewrite <- app_assoc in Hd, Hf |- *. split_and!; [done| |].
    + intros Hc. apply Hd. apply dense_app; [done|]. intros [|k] d Hk; simplify_eq/=. lia.
    + intros j [->|Hj]%elem_of_cons; [|by apply Hf]. rewrite find_column_app, E. cbn. rewrite decide_True by done. eauto.
Qed.

Lemma element_columns_total e path : arrays_typed e = true ->
  is_Some (WriterColumns.flatten_array_element_impl e path).
Proof.
  intros Ht. unfold WriterColumns.flatten_array_element_impl. destruct (node_kind e); eauto.
  apply flat_mapM_total. eapply Forall_impl; [by apply arrays_typed_children|]. intros c Hc. by apply columns_total.
Qed.

Lemma expand_typed_spec path e todo : arrays_typed e = true -> forall cols,
  exists more, Writer.expand_typed cols (length cols) path (Some e) todo = Some (cols ++ more)
    /\ (dense cols -> dense (cols ++ more)).
Proof.
  intros He. induction todo as [|i todo IH]; intros cols.
  { exists []. by rewrite app_nil_r. }
  cbn [Writer.expand_typed]. destruct (existsb _ cols); [apply IH|]. cbn [mbind option_bind].
  destruct (element_columns_total e (index_path path i) He) as [leaves ->]. cbn [mbind option_bind].
  set (new := WriterColumns.number_from (length cols) leaves).
  assert (Hn : length (cols ++ new) = (length cols + length leaves)%nat).
  { rewrite length_app. unfold new, WriterColumns.number_from. by rewrite length_imap. }
  rewrite <- Hn. destruct (IH (cols ++ new)) as (more & -> & Hd). exists (new ++ more). rewrite app_assoc. split; [done|].
  intros Hc. apply Hd. apply dense_app; [done|]. intros k d. unfold new, WriterColumns.number_from.
  rewrite list_lookup_imap. by intros ([p t] & _ & ->)%fmap_Some.
Qed.

(** A storage in a state of the writer, with members other than its layout changed. *)
Lemma put_storage_staged w id ds rows s s' : staged w id ds rows -> topics (engine w) !! id = Some s ->
  ts_column_descriptors_ s' = ts_column_descriptors_ s -> sealed_chunks_ s' = sealed_chunks_ s ->
  schema_id (descriptor_ s') = schema_id (descriptor_ s) -> staged (Writer.put_storage w id s') id ds rows.
Proof.
  intros [(s0 & Hs0 & Hl) Ht Hr] Hs Hd Hc Hsch. replace s0 with s in * by congruence. split; [|done|done].
  exists s'. cbn. rewrite lookup_insert_eq. split; [done|]. by rewrite (loaded_same w _ id s).
Qed.

(** The columns that [expand_checked] adds. *)
Lemma expand_columns_total node path type ds todo :
  (forall n, node = Some n -> exists e, element_type n = Some e /\ arrays_typed e = true) ->
  exists more, match node with
    | None => Some (Writer.expand_untyped ds (length ds) path type todo)
    | Some n => Writer.expand_typed ds (length ds) path (element_type n) todo
    end = Some (ds ++ more)
  /\ (dense ds -> dense (ds ++ more))
  /\ (node = None -> forall i, i ∈ todo -> is_Some (Writer.find_column (ds ++ more) (index_path path i))).
Proof.
  intros Hn. destruct node as [n|].
  - destruct (Hn n eq_refl) as (e & -> & He). destruct (expand_typed_spec path e todo He ds) as (more & -> & ?).
    exists more. by split_and!.
  - destruct (expand_untyped_spec path type todo ds) as (more & -> & ? & ?).
    exists more. by split_and!.
Qed.

Definition array_grown (w w' : DataWriter) (id : Z) (s : TopicStorage) (ds : list ColumnDescriptor) (rows : list Row)
    (path : string) (untyped : bool) (current n : Z) : Prop :=
  exists s' more, topics (engine w') !! id = Some s' /\ Storage.arrayExpansionCount s' path = n
  /\ sealed_chunks_ s' = sealed_chunks_ s
  /\ (if n =? current then more = [] /\ staged w' id ds rows else regrown w w' id ds more rows)
  /\ (untyped = true -> forall i, current <= Z.of_nat i < n ->
        is_Some (Writer.find_column (ds ++ more) (index_path path i))).

Lemma expand_checked_spec w id s ds rows path len type node : staged w id ds rows ->
  topics (engine w) !! id = Some s -> dense ds -> Z.of_nat (length ds) < 2 ^ 32 ->
  0 <= Storage.arrayExpansionCount s path ->
  (forall n, node = Some n -> exists e, element_type n = Some e /\ arrays_typed e = true) ->
  let current := Storage.arrayExpansionCount s path in
  let n := Z.max current (Z.min len (array_expansion_limit (descriptor_ s))) in
  exists w', Writer.expand_checked w id s path len current type node = Some (w', Ok n)
    /\ array_grown w w' id s ds rows path (bool_decide (node = None)) current n.
Proof.
  intros Hst Hs Hd Hl Hpos Hn current n. unfold Writer.expand_checked.
  set (s1 := if _ <? len then Storage.incrementTruncatedSampleCount s else s).
  assert (Hs1 : sealed_chunks_ s1 = sealed_chunks_ s /\ ts_column_descriptors_ s1 = ts_column_descriptors_ s
    /\ descriptor_ s1 = descriptor_ s /\ array_expansion_counts_ s1 = array_expansion_counts_ s).
  { unfold s1. by destruct (_ <? len). }
  destruct Hs1 as (Hc1 & Hd1 & Hde1 & Ha1).
  pose proof (put_storage_staged w id ds rows s s1 Hst Hs Hd1 Hc1 (f_equal schema_id Hde1)) as Hst1.
  destruct (Z.leb_spec (Z.min len (array_expansion_limit (descriptor_ s))) current) as [Hle|Hgt].
  { eexists. split; [by replace n with current by lia|]. exists s1, [].
    replace n with current by lia. rewrite Z.eqb_refl. cbn. rewrite lookup_insert_eq. split_and!; try done.
    - unfold current, Storage.arrayExpansionCount. by rewrite Ha1.
    - intros _ i. lia. }
  assert (Hnc : n = Z.min len (array_expansion_limit (descriptor_ s))) by lia. rewrite <- Hnc.
  rewrite (staged_not_in_progress _ _ _ _ Hst1).
  destruct (sealBeforeLayoutChange_staged _ _ _ _ Hst1) as (w1 & -> & Hb & Hh & He & Hc). cbn [mbind option_bind].
  destruct (sg_storage _ _ _ _ Hst1) as (s1' & Hs1' & Hload). cbn in Hs1'. rewrite lookup_insert_eq in Hs1'.
  injection Hs1' as <-. assert (Hload1 : Writer.loaded_columns w1 id s1 = Some ds).
  { by rewrite (loaded_same (Writer.put_storage w id s1) w1 id s1 s1) by (done || by rewrite He || by rewrite Hc). }
  unfold Writer.ensureColsLoaded. rewrite Hload1. cbn [mbind option_bind].
  cbn [topic_columns Writer.put_columns Writer.with_columns]. rewrite lookup_insert_eq.
  change (default [] (Some ds)) with ds. cbv zeta. rewrite (dense_ids_ok ds) by done.
  destruct (expand_columns_total node path type ds (seq (Z.to_nat current) (Z.to_nat (n - current))) Hn)
    as (more & Hmore & Hdm & Hf). rewrite Hmore. cbn [mbind option_bind]. eexists. split; [done|].
  eexists _, more. cbn [engine Writer.put_storage Writer.with_engine topics Engine.with_topics]. rewrite lookup_insert_eq.
  split; [done|]. rewrite (proj2 (Z.eqb_neq n current)) by lia. split_and!.
  - unfold Storage.arrayExpansionCount. cbn. by rewrite lookup_insert_eq.
  - done.
  - split; cbn; [done|done|by apply Hdm|]. exists s. eexists. rewrite lookup_insert_eq. split_and!; try done.
    apply (loaded_after w _ id s); cbn; try done; [by destruct (sg_storage _ _ _ _ Hst) as (s0 & Hs0 & ?); simplify_eq
      |by rewrite He|by rewrite lookup_insert_eq|by rewrite Hde1].
  - intros Hu i Hi. apply bool_decide_eq_true in Hu. apply Hf; [done|]. apply elem_of_seq. lia.
Qed.

(** C18: [expandArray] between two rows.  It fails only on a field the schema does not declare
    as a growing array; otherwise the array ends with [max current (min len limit)] elements,
    which is what the storage records, the columns it had stay in front, ids stay dense, every
    new element of a schemaless topic has its column, and no written row is lost. *)
Theorem expandArray_spec w id s ds rows path len type : staged w id ds rows ->
  topics (engine w) !! id = Some s -> dense ds -> Z.of_nat (length ds) < 2 ^ 32 ->
  0 <= Storage.arrayExpansionCount s path ->
  (forall tree n, Registry.lookup (type_registry (engine w)) (schema_id (descriptor_ s)) = Some tree ->
     Writer.array_node_at tree path = Ok n -> exists e, element_type n = Some e /\ arrays_typed e = true) ->
  let tree := Registry.lookup (type_registry (engine w)) (schema_id (descriptor_ s)) in
  let current := Storage.arrayExpansionCount s path in
  exists w' r, Writer.expandArray w id path len type = Some (w', r) /\
  match r with
  | Err _ => staged w' id ds rows /\ exists t, tree = Some t /\ has_value (Writer.array_node_at t path) = false
  | Ok n => n = Z.max current (Z.min len (array_expansion_limit (descriptor_ s)))
      /\ array_grown w w' id s ds rows path (bool_decide (tree = None)) current n
  end.
Proof.
  intros Hst Hs Hd Hl Hpos Htree tree current. unfold Writer.expandArray, Engine.getTopicStorage. rewrite Hs.
  set (s1 := Storage.updateMaxObservedArrayLength s len).
  assert (Hs1 : sealed_chunks_ s1 = sealed_chunks_ s /\ ts_column_descriptors_ s1 = ts_column_descriptors_ s
    /\ descriptor_ s1 = descriptor_ s /\ array_expansion_counts_ s1 = array_expansion_counts_ s).
  { unfold s1, Storage.updateMaxObservedArrayLength. by destruct (_ <? len). }
  destruct Hs1 as (Hc1 & Hd1 & Hde1 & Ha1).
  pose proof (put_storage_staged w id ds rows s s1 Hst Hs Hd1 Hc1 (f_equal schema_id Hde1)) as Hst1.
  assert (Hcur : Storage.arrayExpansionCount s1 path = current) by (unfold current, Storage.arrayExpansionCount; by rewrite Ha1).
  rewrite Hcur. assert (Htop1 : topics (engine (Writer.put_storage w id s1)) !! id = Some s1) by (cbn; apply lookup_insert_eq).
  assert (Hsame : forall w' untyped n, array_grown (Writer.put_storage w id s1) w' id s1 ds rows path untyped current n ->
    array_grown w w' id s ds rows path untyped current n).
  { intros w' untyped n (s' & more & H1 & H2 & H3 & H4 & H5). exists s', more. rewrite <- Hc1. split_and!; try done.
    destruct (n =? current); [done|]. destruct H4 as [G1 G2 G3 (s2 & s3 & E1 & E2 & E3 & E4 & E5)]. split; try done.
    exists s, s3. rewrite Htop1 in E1. injection E1 as <-. rewrite <- Hc1. by split_and!. }
  destruct (Z.leb_spec len current) as [Hle|Hgt].
  { eexists _, _. split; [done|]. split; [lia|]. exists s1, []. rewrite Z.eqb_refl. split_and!; try done. intros _ i. lia. }
  change (type_registry (engine (Writer.put_storage w id s1))) with (type_registry (engine w)). rewrite Hde1. fold tree.
  destruct tree as [t|] eqn:Etree; [destruct (Writer.array_node_at t path) as [n|err] eqn:En|].
  - destruct (expand_checked_spec (Writer.put_storage w id s1) id s1 ds rows path len type (Some n) Hst1 Htop1 Hd Hl)
      as (w' & Hx & Hg); [by rewrite Hcur|intros n' [= <-]; exact (Htree t n Etree En)|].
    rewrite Hcur, Hde1 in Hx, Hg. rewrite Hx. eexists _, _. split; [done|]. split; [done|]. apply Hsame. exact Hg.
  - eexists _, _. split; [done|]. split; [done|]. exists t. by rewrite En.
  - destruct (expand_checked_spec (Writer.put_storage w id s1) id s1 ds rows path len type None Hst1 Htop1 Hd Hl)
      as (w' & Hx & Hg); [by rewrite Hcur|done|].
    rewrite Hcur, Hde1 in Hx, Hg. rewrite Hx. eexists _, _. split; [done|]. split; [done|]. apply Hsame. exact Hg.
Qed.

(** ** The bulk append ends *)

(** What column operations keep: the row count and the capacity. *)
Definition same_size (b b' : TopicChunkBuilder) : Prop :=
  max_rows_ b' = max_rows_ b /\ Builder.rowCount b' = Builder.rowCount b.

#[export] Instance same_size_preorder : PreOrder same_size.
Proof. split; [done|]. intros a b c [] []. split; congruence. Qed.

(** Takes the steps of an option computation apart. *)
Ltac bind_steps H :=
  repeat match type of H with
    | (_ ≫= _) = Some _ => let x := fresh "x" in let Hx := fresh "Hx" in apply bind_Some in H as (x & Hx & H)
    | (if ?c then _ else _) = Some _ => destruct c
    | None = Some _ => discriminate H
    end.

Lemma column_size b col offset n b' : Writer.append_single_column_to_builder b col offset n = Some b' -> same_size b b'.
Proof.
  unfold Writer.append_single_column_to_builder. intros (b1 & H1 & H)%bind_Some.
  assert (same_size b b1).
  { destruct (payload col); apply bind_Some in H1 as (d & _ & H1); unfold Builder.appendColumn, Builder.appendColumnStrings in H1;
      bind_steps H1; by injection H1 as <-. }
  transitivity b1; [done|]. unfold Builder.appendColumnValidity in H. bind_steps H; by injection H as <-.
Qed.

Lemma columns_size cols offset n : forall b b', Writer.append_columns_to_builder b cols offset n = Some b' -> same_size b b'.
Proof.
  induction cols as [|c cols IH]; intros b b' H; cbn in H; [by simplify_eq|]. apply bind_Some in H as (b1 & H1 & H).
  transitivity b1; [by eapply column_size|by apply IH].
Qed.

Lemma appendTimestamps_size b ts b' : Builder.appendTimestamps b ts = Some b' -> same_size b b'.
Proof.
  unfold Builder.appendTimestamps. destruct (row_in_progress_ b); [done|]. destruct ts as [|t ts]; [by intros [= <-]|].
  destruct (t <? last_timestamp_ b); [done|]. by intros [= <-].
Qed.

Lemma finish_loop_size n col count : forall b b', Builder.finish_loop n col count b = Some b' -> same_size b b'.
Proof.
  revert col. induction n as [|n IH]; intros col b b' H; cbn in H; [by simplify_eq|]. bind_steps H.
  all: transitivity x1; [|by eapply IH]. all: unfold Builder.computeBulkStringStats, Builder.computeBulkNumericStats in Hx1.
  all: bind_steps Hx1; by injection Hx1 as <-.
Qed.

Lemma finishBulkAppend_size b b' : Builder.finishBulkAppend b = Some b' -> 0 <= Builder.rowCount b ->
  max_rows_ b' = max_rows_ b /\ 0 <= Builder.rowCount b'.
Proof.
  unfold Builder.finishBulkAppend. intros H Hpos. destruct (row_in_progress_ b); [done|].
  destruct (decide (bulk_pending_rows_ b = 0)%nat); [by simplify_eq|]. apply bind_Some in H as (b1 & H1 & [= <-]).
  apply finish_loop_size in H1 as [Hm _]. cbn. split; [done|]. apply (wrapU_range 32). lia.
Qed.

(** No builder of the topic is full. *)
Definition roomy (w : DataWriter) (id : Z) : Prop :=
  (forall b, builders w !! id = Some b -> 0 <= Builder.rowCount b < max_rows_ b /\ max_rows_ b < 2 ^ 32)
  /\ (forall s, topics (engine w) !! id = Some s -> 0 < max_chunk_rows (descriptor_ s) < 2 ^ 32).

Lemma getOrCreateBuilder_roomy w id w' b : roomy w id -> Writer.getOrCreateBuilder w id = Some (w', b) ->
  (0 <= Builder.rowCount b < max_rows_ b /\ max_rows_ b < 2 ^ 32) /\ engine w' = engine w.
Proof.
  intros [Hb Hs] H. unfold Writer.getOrCreateBuilder, Engine.getTopicStorage, Writer.ensureColsLoaded in H.
  destruct (builders w !! id) as [b0|] eqn:E; [simplify_eq; by auto|]. apply bind_Some in H as (s & Hs' & H).
  apply bind_Some in H as (w1 & H1 & H). apply bind_Some in H1 as (cols & _ & [= <-]).
  apply bind_Some in H as (cols' & _ & [= <- <-]). split; [|done]. specialize (Hs s Hs'). cbn. lia.
Qed.

Lemma append_batch_roomy w id b' w' :
  (forall s, topics (engine w) !! id = Some s -> 0 < max_chunk_rows (descriptor_ s) < 2 ^ 32) -> 0 <= Builder.rowCount b' -> max_rows_ b' < 2 ^ 32 ->
  (if Builder.isFull b' then Writer.autoSeal (Writer.put_builder w id b') id else Some (Writer.put_builder w id b')) = Some w' ->
  roomy w' id.
Proof.
  intros Hs Hpos Hlt H. unfold Builder.isFull in H. destruct (Z.leb_spec (max_rows_ b') (Builder.rowCount b')).
  - unfold Writer.autoSeal in H. cbn in H. rewrite lookup_insert_eq in H. apply bind_Some in H as ([w1 c] & H1 & [= <-]).
    unfold Writer.sealed in H1. apply bind_Some in H1 as (chunk & _ & [= <- <-]). split; cbn; [|done].
    intros b2. by rewrite lookup_delete_eq.
  - injection H as <-. split; cbn; [|done]. intros b2. rewrite lookup_insert_eq. intros [= <-]. lia.
Qed.

(** the loop of [appendColumns] ends when chunks have room for a row: as many batches as
    there are timestamps are enough, and no further fuel changes the outcome. *)
Theorem appendColumns_terminates w id timestamps cols k : roomy w id ->
  Writer.append_loop (length timestamps + k) w id timestamps cols 0
  = Writer.append_loop (length timestamps) w id timestamps cols 0.
Proof.
  enough (Hgen : forall n w offset, roomy w id -> (length timestamps - offset <= n)%nat ->
    Writer.append_loop (n + k) w id timestamps cols offset = Writer.append_loop n w id timestamps cols offset)
    by (intros H; apply Hgen; [done|lia]).
  induction n as [|n IH]; clear w; intros w offset Hr Hn.
  - destruct k; cbn; destruct (decide (offset < length timestamps)%nat); (lia || done).
  - cbn [plus Writer.append_loop]. destruct (decide (offset < length timestamps)%nat) as [Hlt|]; [|done].
    destruct (Writer.getOrCreateBuilder w id) as [[w1 b]|] eqn:Hget; [|done]. cbn [mbind option_bind].
    destruct (getOrCreateBuilder_roomy _ _ _ _ Hr Hget) as [[Hb Hm] He].
    set (batch := Nat.min _ _). assert (Hpos : (0 < batch)%nat).
    { unfold batch, Builder.remainingCapacity. rewrite wrapU_small by (split; lia). lia. }
    destruct (Writer.subspan offset batch timestamps) as [ts|]; [|done]. cbn [mbind option_bind].
    destruct (Builder.appendTimestamps b ts) as [b1|] eqn:H1; [|done]. cbn [mbind option_bind].
    destruct (Writer.append_columns_to_builder b1 cols offset batch) as [b2|] eqn:H2; [|done]. cbn [mbind option_bind].
    destruct (Builder.finishBulkAppend b2) as [b3|] eqn:H3; [|done]. cbn [mbind option_bind].
    destruct (if Builder.isFull b3 then _ else _) as [w2|] eqn:H4; [|done]. cbn [mbind option_bind].
    apply appendTimestamps_size in H1 as [Hm1 Hr1]. apply columns_size in H2 as [Hm2 Hr2].
    apply finishBulkAppend_size in H3 as [Hm3 Hr3]; [|lia]. apply IH; [|lia].
    apply (append_batch_roomy w1 id b3 w2); [rewrite He; apply Hr|done|congruence|done].
Qed.

(** With [max_chunk_rows = 0] a batch is empty, the empty chunk is sealed, and the loop starts
    again: no fuel is enough. *)
Lemma zero_capacity_loops id s t : max_chunk_rows (descriptor_ s) = 0 -> schema_id (descriptor_ s) = 0 ->
  sealed_chunks_ s = [] -> ts_column_descriptors_ s = [] ->
  forall fuel w, topics (engine w) !! id = Some s -> Registry.lookup (type_registry (engine w)) 0 = None ->
  builders w !! id = None -> default [] (topic_columns w !! id) = [] ->
  Writer.append_loop fuel w id [t] [] 0 = None.
Proof.
  intros Hmax Hsch Hcs Hds. induction fuel as [|fuel IH]; intros w Hs Hreg Hb Hc; [done|].
  cbn [Writer.append_loop length]. rewrite decide_True by lia.
  unfold Writer.getOrCreateBuilder, Engine.getTopicStorage, Writer.ensureColsLoaded, Writer.loaded_columns.
  rewrite Hb, Hs. cbn [mbind option_bind]. rewrite Hc, Hds, Hsch, Hreg, Hcs, Hmax. cbn. rewrite lookup_insert_eq. cbn.
  change (Z.to_nat (Builder.remainingCapacity (Builder.make id 0 [] 0))) with 0%nat.
  unfold Writer.subspan. rewrite decide_True by (cbn; lia). cbn.
  rewrite decide_True by done. cbn. unfold Writer.autoSeal. cbn. rewrite lookup_insert_eq. cbn. apply IH; cbn; try done.
  - apply lookup_delete_eq.
  - by rewrite lookup_insert_eq.
Qed.

(** ** Instances *)

Lemma demo_dense : dense demo_columns.
Proof. intros [|[|[|[|i]]]] d Hd; simplify_eq/=; done. Qed.

Lemma ensureColumn_spec_witness : exists w w' r, demo_open = Some (w, okStatus)
  /\ Writer.ensureColumn w 1 "extra" kInt32 = Some (w', r) /\ r = Ok 4.
Proof.
  destruct demo_open_staged as (w & Hw & Hst).
  destruct (ensureColumn_spec w 1 demo_columns (take 1 demo_rows) "extra" kInt32 Hst demo_dense ltac:(done))
    as (w' & r & H & Hr). exists w, w', r. split; [done|]. split; [done|]. exact (proj1 Hr).
Defined.

(** The topic "imu" of a schema with a growing array. *)
Definition demo_arrays : DataEngine :=
  let e := (Engine.createDataset Engine.make (mkDatasetDescriptor "log.mcap" 0)).1 in
  let e := Engine.with_registry e (Registry.registerSchema (type_registry e) "robot" demo_tree).1 in
  (Engine.createTopic e 1 (mkTopicDescriptor "imu" 1 0 1024 3)).1.

Definition robot_columns : list ColumnDescriptor := ReaderColumns.tree_columns demo_tree.

Lemma robot_staged : staged (Writer.make demo_arrays 1) 1 robot_columns [].
Proof.
  split.
  - eexists. split; [vm_compute; reflexivity|vm_compute; reflexivity].
  - split; [constructor|constructor|constructor|done|]. intros j d _ _. unfold slots_size. cbn. lia.
  - exists [], []. split_and!; [done|apply holds_nil|done].
Qed.

Lemma robot_dense : dense robot_columns.
Proof. intros [|[|[|[|[|i]]]]] d Hd; vm_compute in Hd; simplify_eq/=; done. Qed.

Lemma expandArray_spec_witness : exists w' r,
  Writer.expandArray (Writer.make demo_arrays 1) 1 "dynamic" 7 kFloat64 = Some (w', r) /\ r = Ok 3.
Proof.
  destruct (topics demo_arrays !! 1) as [s|] eqn:Es; [|done].
  destruct (expandArray_spec (Writer.make demo_arrays 1) 1 s robot_columns [] "dynamic" 7 kFloat64 robot_staged Es robot_dense)
    as (w' & r & H & Hr); [done|vm_compute in Es; injection Es as <-; vm_compute; discriminate| |].
  - intros tree n Ht Hn. vm_compute in Es. injection Es as <-. vm_compute in Ht. injection Ht as <-. vm_compute in Hn.
    injection Hn as <-. eexists. split; reflexivity.
  - exists w', r. split; [done|]. destruct r as [n|err].
    + destruct Hr as [-> _]. vm_compute in Es. injection Es as <-. vm_compute. reflexivity.
    + destruct Hr as (_ & t & Ht & Hn). vm_compute in Es. injection Es as <-. vm_compute in Ht. injection Ht as <-.
      vm_compute in Hn. discriminate.
Defined.

Lemma appendColumns_terminates_witness :
  Writer.append_loop (3 + 7) (Writer.make demo_topics 1) 1 [10; 20; 30] [] 0
  = Writer.append_loop 3 (Writer.make demo_topics 1) 1 [10; 20; 30] [] 0.
Proof.
  apply (appendColumns_terminates (Writer.make demo_topics 1) 1 [10; 20; 30] [] 7). split; [done|].
  intros s Hs. vm_compute in Hs. injection Hs as <-. vm_compute. split; [reflexivity|reflexivity].
Defined.
