(* ===== verification/WriterState.v ===== *)
(** * WriterState: what a writer keeps between calls

    Whatever a client calls, in whatever order, the builders of a [DataWriter]
    ([src/pj_datastore/src/writer.cpp]) have ordered timestamps under the right
    statistics, so every chunk it hands out is one the engine may commit. *)

From S2P Require Import Prelude Types TypeTree TypeRegistry Float64 Buffer Encoding Column Chunk Query TopicStorage Engine Writer Ingest Layout.

(** ** Builders *)

(** What the column operations leave alone. *)
Record same_clock (b b' : TopicChunkBuilder) : Prop := {
  sc_max_rows : max_rows_ b' = max_rows_ b;
  sc_times : timestamps_ b' = timestamps_ b;
  sc_min : t_min (stats_ b') = t_min (stats_ b);
  sc_max : t_max (stats_ b') = t_max (stats_ b);
  sc_rows : row_count (stats_ b') = row_count (stats_ b);
  sc_progress : row_in_progress_ b' = row_in_progress_ b;
  sc_current : current_timestamp_ b' = current_timestamp_ b;
  sc_last : last_timestamp_ b' = last_timestamp_ b;
  sc_pending : bulk_pending_rows_ b' = bulk_pending_rows_ b
}.

#[export] Instance same_clock_preorder : PreOrder same_clock.
Proof. split; [by split|]. intros b1 b2 b3 [] []. split; congruence. Qed.

(** The timestamps of a builder and the statistics over them. *)
Record timed (b : TopicChunkBuilder) : Prop := {
  tm_capacity : in_u 32 (max_rows_ b);
  tm_rows : row_count (stats_ b) = Z.of_nat (length (timestamps_ b));
  tm_sorted : sorted (timestamps_ b);
  tm_range : Forall (in_s 64) (timestamps_ b);
  tm_min : t_min (stats_ b) = default INT64_MAX (head (timestamps_ b));
  tm_max : t_max (stats_ b) = last_time (timestamps_ b);
  tm_last : last_time (timestamps_ b) <= last_timestamp_ b;
  tm_open : row_in_progress_ b = true -> current_timestamp_ b = last_timestamp_ b /\ in_s 64 (current_timestamp_ b);
  tm_pending : bulk_pending_rows_ b = 0%nat
}.

(** The next row does not overflow the capacity. *)
Definition has_room (b : TopicChunkBuilder) : Prop := timestamps_ b = [] \/ Builder.rowCount b < max_rows_ b.

Lemma timed_clock b b' : same_clock b b' -> timed b -> timed b'.
Proof.
  intros [Hm Ht Hmin Hmax Hr Hp Hc Hl Hb] [H1 H2 H3 H4 H5 H6 H7 H8 H9].
  split; rewrite ?Hm, ?Ht, ?Hmin, ?Hmax, ?Hr, ?Hp, ?Hc, ?Hl, ?Hb; done.
Qed.

Lemma room_clock b b' : same_clock b b' -> has_room b -> has_room b'.
Proof. intros [Hm Ht _ _ Hr _ _ _ _]. unfold has_room, Builder.rowCount. by rewrite Hm, Ht, Hr. Qed.

Lemma make_timed topic schema ds max_rows : in_u 32 max_rows -> timed (Builder.make topic schema ds max_rows).
Proof. intros H. split; cbn; try done; constructor. Qed.

(** A sealed builder is a chunk of its rows. *)
Lemma seal_timed b next c : timed b -> timestamps_ b <> [] -> Builder.seal b next = Some c -> chunk_wf c.
Proof.
  intros Hb Hne (cols & _ & [= <-])%bind_Some. split; cbn; [by apply Hb|by apply Hb| | |by apply Hb].
  - rewrite (tm_min _ Hb). by destruct (timestamps_ b).
  - rewrite (tm_max _ Hb). unfold last_time. destruct (timestamps_ b) as [|t l] using rev_ind; [done|]. by rewrite last_snoc.
Qed.

(** *** Column operations *)

Lemma set_clock b j v b' : Builder.set b j v = Some b' -> same_clock b b'.
Proof. unfold Builder.set. intros H. destruct v; bind_steps H; apply (inj Some) in H as <-; split; reflexivity. Qed.

Lemma push_null_clock b j b' : Builder.push_null b j = Some b' -> same_clock b b'.
Proof. unfold Builder.push_null. intros H. bind_steps H. apply (inj Some) in H as <-. split; reflexivity. Qed.

Lemma setNull_clock b j b' : Builder.setNull b j = Some b' -> same_clock b b'.
Proof. unfold Builder.setNull. destruct (row_in_progress_ b); [apply push_null_clock|done]. Qed.

Lemma fill_loop_clock n : forall i expected b b', Builder.fill_loop n i expected b = Some b' -> same_clock b b'.
Proof.
  induction n as [|n IH]; intros i expected b b' H; cbn in H; [by simplify_eq|]. bind_steps H.
  transitivity x0; [|by eapply IH]. destruct (_ <? _); [by eapply push_null_clock|by apply (inj Some) in Hx0 as <-].
Qed.

Lemma column_clock b col offset n b' : Writer.append_single_column_to_builder b col offset n = Some b' -> same_clock b b'.
Proof.
  unfold Writer.append_single_column_to_builder. intros (b1 & H1 & H)%bind_Some. transitivity b1.
  - destruct (payload col); apply bind_Some in H1 as (d & _ & H1); unfold Builder.appendColumn, Builder.appendColumnStrings in H1;
      bind_steps H1; apply (inj Some) in H1 as <-; split; reflexivity.
  - unfold Builder.appendColumnValidity in H. bind_steps H; apply (inj Some) in H as <-; split; reflexivity.
Qed.

Lemma columns_clock cols offset n : forall b b', Writer.append_columns_to_builder b cols offset n = Some b' -> same_clock b b'.
Proof.
  induction cols as [|c cols IH]; intros b b' H; cbn in H; [by simplify_eq|]. apply bind_Some in H as (b1 & H1 & H).
  transitivity b1; [by eapply column_clock|by apply IH].
Qed.

Lemma finish_loop_clock n count : forall col b b', Builder.finish_loop n col count b = Some b' -> same_clock b b'.
Proof.
  induction n as [|n IH]; intros col b b' H; cbn in H; [by simplify_eq|]. bind_steps H.
  all: transitivity x1; [|by eapply IH]. all: unfold Builder.computeBulkStringStats, Builder.computeBulkNumericStats in Hx1.
  all: bind_steps Hx1; apply (inj Some) in Hx1 as <-; split; reflexivity.
Qed.

(** *** Rows *)

#[local] Arguments last_time : simpl never.
#[local] Arguments List.last : simpl never.

Lemma last_time_app l k : k <> [] -> last_time (l ++ k) = last_time k.
Proof.
  intros Hk. destruct k as [|x k] using rev_ind; [done|]. unfold last_time. by rewrite app_assoc, !last_snoc.
Qed.

Lemma head_app_time l (k : list Z) : head (l ++ k) = match head l with Some t => Some t | None => head k end.
Proof. by destruct l. Qed.

Lemma beginRow_timed b t b' : timed b -> in_s 64 t -> Builder.beginRow b t = Some b' ->
  timed b' /\ (has_room b -> has_room b').
Proof.
  intros [H1 H2 H3 H4 H5 H6 H7 H8 H9] Ht. unfold Builder.beginRow. destruct (row_in_progress_ b); [done|].
  destruct (Z.ltb_spec t (last_timestamp_ b)); [done|]. intros [= <-]. split; [|done]. split; cbn; [done..|lia|done|done].
Qed.

(** Rows that follow those of the builder, with the statistics over them. *)
Lemma extend_timed b l k : sorted l -> sorted k -> k <> [] -> Forall (in_s 64) k -> (forall t, head k = Some t -> last_time l <= t) ->
  t_min (stats_ b) = default INT64_MAX (head l) -> t_max (stats_ b) = last_time l ->
  sorted (l ++ k)
  /\ Z.min (t_min (stats_ b)) (default 0 (head k)) = default INT64_MAX (head (l ++ k))
  /\ Z.max (t_max (stats_ b)) (last_time k) = last_time (l ++ k).
Proof.
  intros Hl Hk Hne Hr Hle Hmin Hmax. destruct k as [|t k]; [done|]. specialize (Hle t eq_refl).
  assert (Htk : t <= last_time (t :: k)) by (apply (sorted_last_ge (t :: k)); [done|by left|done]).
  assert (Hsplit : sorted (l ++ t :: k)).
  { apply sorted_app_iff. split_and!; [done..|]. intros x y Hx Hy. pose proof (sorted_last_ge l t x Hl Hx Hle).
    apply StronglySorted_inv in Hk as [_ Hk]. rewrite List.Forall_forall in Hk.
    apply elem_of_cons in Hy as [->|Hy]; [done|]. apply list_elem_of_In, Hk in Hy. lia. }
  apply Forall_cons in Hr as [[Hlo Hhi] _]. split_and!; [done| |].
  - rewrite Hmin, head_app_time. cbn. destruct l as [|x l]; cbn.
    + unfold INT64_MAX. cbn in Hhi. lia.
    + assert (x <= t) by (apply (sorted_last_ge (x :: l)); [done|by left|done]). lia.
  - rewrite Hmax, last_time_app by done. lia.
Qed.

Lemma finishRow_timed b b' : timed b -> has_room b -> Builder.finishRow b = Some b' ->
  timed b' /\ timestamps_ b' <> [].
Proof.
  intros Hb Hroom. unfold Builder.finishRow. destruct (row_in_progress_ b) eqn:Ep; [|done].
  intros (b1 & H1 & H)%bind_Some. apply fill_loop_clock in H1.
  pose proof (timed_clock _ _ H1 Hb) as Hb1. pose proof (room_clock _ _ H1 Hroom) as Hroom1. rewrite <- (sc_progress _ _ H1) in Ep.
  clear b H1 Hb Hroom. injection H as <-. destruct Hb1 as [G1 G2 G3 G4 G5 G6 G7 G8 G9]. destruct (G8 Ep) as [Hcur Hrange].
  set (t := current_timestamp_ b1) in *.
  destruct (extend_timed b1 (timestamps_ b1) [t]) as (E1 & E2 & E3); try done.
  { repeat constructor. } { by constructor. } { intros ? [= <-]. lia. }
  assert (Hcount : Z.of_nat (length (timestamps_ b1)) + 1 < 2 ^ 32).
  { destruct G1 as [? ?]. destruct Hroom1 as [->|Hlt]; [cbn; lia|]. unfold Builder.rowCount in Hlt. lia. }
  split; [|cbn; by destruct (timestamps_ b1)]. split; cbn; try done.
  - rewrite G2, wrapU_small by (split; lia). rewrite length_app. cbn. lia.
  - apply Forall_app. split; [done|]. by constructor.
  - rewrite <- E3. change (last_time [t]) with t. lia.
Qed.

Lemma bulk_timed b b1 b2 b' ts : timed b -> ts <> [] -> sorted ts -> Forall (in_s 64) ts ->
  Builder.rowCount b + Z.of_nat (length ts) <= max_rows_ b ->
  Builder.appendTimestamps b ts = Some b1 -> same_clock b1 b2 -> Builder.finishBulkAppend b2 = Some b' ->
  timed b' /\ timestamps_ b' <> [].
Proof.
  intros [G1 G2 G3 G4 G5 G6 G7 G8 G9] Hne Hs Hr Hroom. unfold Builder.appendTimestamps.
  destruct (row_in_progress_ b) eqn:Ep; [done|]. destruct ts as [|t ts]; [done|].
  destruct (Z.ltb_spec t (last_timestamp_ b)); [done|]. intros [= <-] [C1 C2 C3 C4 C5 C6 C7 C8 C9] HF. cbn in *.
  destruct (extend_timed b (timestamps_ b) (t :: ts)) as (E1 & E2 & E3); try done.
  { intros ? [= <-]. lia. }
  unfold Builder.finishBulkAppend in HF. rewrite C6, C9, Ep in HF. cbn in HF. apply bind_Some in HF as (b3 & H3 & [= <-]).
  apply finish_loop_clock in H3 as [D1 D2 D3 D4 D5 D6 D7 D8 D9].
  assert (Hlast : List.last (t :: ts) 0 = last_time (t :: ts)).
  { unfold last_time. clear. revert t. induction ts as [|x ts IH]; intros t; [done|]. change (List.last (t :: x :: ts) 0) with (List.last (x :: ts) 0).
    by rewrite IH. }
  split; [|cbn; rewrite D2, C2; by destruct (timestamps_ b)]. unfold Builder.rowCount in *.
  split; cbn; rewrite ?D1, ?D2, ?D3, ?D4, ?D5, ?D6, ?D7, ?D8, ?C1, ?C2, ?C3, ?C4, ?C5, ?C6, ?C7, ?C8; cbn; try done.
  - destruct G1 as [? ?]. rewrite G2, wrapU_small by (split; lia). rewrite length_app. cbn. lia.
  - by apply Forall_app.
  - rewrite <- E3, Hlast. lia.
  - rewrite last_time_app by done. rewrite Hlast. lia.
  - by rewrite Ep.
Qed.

(** ** The writer *)

Record writer_ok (w : DataWriter) : Prop := {
  wo_engine : engine_ok (engine w);
  wo_builders : forall id b, builders w !! id = Some b -> timed b /\ has_room b;
  wo_pending : forall id cs, pending_chunks w !! id = Some cs -> Forall chunk_wf cs
}.

Lemma make_writer_ok e n : engine_ok e -> writer_ok (Writer.make e n).
Proof. intros H. by split. Qed.

(** A call that keeps the builders and the pending chunks. *)
Lemma writer_ok_engine w w' : writer_ok w -> engine_ok (engine w') -> builders w' = builders w ->
  pending_chunks w' = pending_chunks w -> writer_ok w'.
Proof. intros [He Hb Hp] He' Eb Ep. split; [done|by rewrite Eb|by rewrite Ep]. Qed.

Lemma put_builder_ok w id b : writer_ok w -> timed b -> has_room b -> writer_ok (Writer.put_builder w id b).
Proof.
  intros [He Hb Hp] Ht Hr. split; [done| |done]. intros i b' Hi. cbn in Hi. apply lookup_insert_Some in Hi as [[<- <-]|[_ Hi]]; [done|by eapply Hb].
Qed.

Lemma delete_builder_ok w id : writer_ok w -> writer_ok (Writer.with_builders w (delete id (builders w))).
Proof. intros [He Hb Hp]. split; [done| |done]. intros i b' Hi. cbn in Hi. apply lookup_delete_Some in Hi as [_ Hi]. by eapply Hb. Qed.

Lemma sealed_ok w b w' c : writer_ok w -> timed b -> timestamps_ b <> [] -> Writer.sealed w b = Some (w', c) ->
  writer_ok w' /\ chunk_wf c /\ builders w' = builders w /\ engine w' = engine w.
Proof.
  intros Hw Hb Hne (chunk & Hs & [= <- <-])%bind_Some. split_and!; [by apply (writer_ok_engine w); try done; apply Hw| |done|done].
  by eapply seal_timed.
Qed.

Lemma push_pending_ok w id c : writer_ok w -> chunk_wf c -> writer_ok (Writer.push_pending w id c).
Proof.
  intros [He Hb Hp] Hc. split; [done|done|]. intros i cs Hi. cbn in Hi. apply lookup_insert_Some in Hi as [[<- <-]|[_ Hi]]; [|by eapply Hp].
  apply Forall_app. split; [|by constructor]. destruct (pending_chunks w !! id) as [cs|] eqn:E; [by eapply Hp|constructor].
Qed.

(** Storing a builder with rows, which seals it when it is full. *)
Lemma store_builder_ok w id b w' : writer_ok w -> timed b -> timestamps_ b <> [] ->
  (if Builder.isFull b then Writer.autoSeal (Writer.put_builder w id b) id else Some (Writer.put_builder w id b)) = Some w' ->
  writer_ok w' /\ engine w' = engine w.
Proof.
  intros Hw Hb Hne H. unfold Builder.isFull in H. destruct (Z.leb_spec (max_rows_ b) (Builder.rowCount b)) as [Hf|Hf].
  - unfold Writer.autoSeal in H. cbn [builders Writer.put_builder Writer.with_builders] in H. rewrite lookup_insert_eq in H.
    apply bind_Some in H as ([w1 c] & H1 & H). apply (inj Some) in H as <-. unfold Writer.sealed in H1.
    apply bind_Some in H1 as (chunk & Hs & H1). apply (inj Some) in H1. injection H1 as <- <-.
    pose proof (seal_timed b _ _ Hb Hne Hs) as Hc. destruct Hw as [He Hbs Hp]. split; [|done]. split; cbn; [done| |].
    + intros i b' Hi. apply lookup_delete_Some in Hi as [Hii Hi]. rewrite lookup_insert_ne in Hi by done. by eapply Hbs.
    + by apply (wo_pending _ (push_pending_ok w id chunk (Build_writer_ok _ He Hbs Hp) Hc)).
  - apply (inj Some) in H as <-. split; [|done]. apply put_builder_ok; [done..|]. by right.
Qed.

Lemma ensureColsLoaded_ok w id s w' : writer_ok w -> Writer.ensureColsLoaded w id s = Some w' ->
  writer_ok w' /\ engine w' = engine w /\ builders w' = builders w.
Proof.
  intros Hw (cols & _ & [= <-])%bind_Some. split_and!; [|done|done]. apply (writer_ok_engine w); try done. apply Hw.
Qed.

Lemma getOrCreateBuilder_ok w id w' b : writer_ok w -> Writer.getOrCreateBuilder w id = Some (w', b) ->
  writer_ok w' /\ timed b /\ has_room b /\ engine w' = engine w.
Proof.
  intros Hw H. unfold Writer.getOrCreateBuilder in H. destruct (builders w !! id) as [b0|] eqn:E.
  { simplify_eq. by destruct (wo_builders _ Hw id b E). }
  apply bind_Some in H as (s & Hs & H). apply bind_Some in H as (w1 & H1 & H). apply bind_Some in H as (cols & Hcols & [= <- <-]).
  destruct (ensureColsLoaded_ok _ _ _ _ Hw H1) as (Hw1 & He & _).
  assert (Hb : timed (Builder.make id (schema_id (descriptor_ s)) cols (max_chunk_rows (descriptor_ s)))) by (apply make_timed; by eapply en_sizes, Hs; apply Hw).
  split_and!; [|done|by left|done]. apply put_builder_ok; [done..|by left].
Qed.

Lemma put_storage_ok w id s s' : writer_ok w -> topics (engine w) !! id = Some s -> rtc Storage.step s s' ->
  writer_ok (Writer.put_storage w id s').
Proof.
  intros Hw Hs Hstep. apply (writer_ok_engine w); try done. cbn. destruct (storage_steps_frame _ _ Hstep (en_chunks _ (wo_engine _ Hw) id s Hs)) as [Hwf Hsame].
  apply with_topics_ok; [apply Hw| |].
  - intros i s2 Hi. apply lookup_insert_Some in Hi as [[<- <-]|[_ Hi]]; [by exists s|]. exists s2. split_and!; [done| |done].
    eapply en_chunks; [apply Hw|done].
  - intros i Hi. apply lookup_insert_is_Some'. by right.
Qed.

Lemma sealBeforeLayoutChange_ok w id w' : writer_ok w -> Writer.sealBeforeLayoutChange w id = Some w' ->
  writer_ok w' /\ engine w' = engine w.
Proof.
  intros Hw H. unfold Writer.sealBeforeLayoutChange in H. destruct (builders w !! id) as [b|] eqn:E; [|by simplify_eq].
  destruct (wo_builders _ Hw id b E) as [Hb _]. apply bind_Some in H as (w1 & H1 & H). apply (inj Some) in H as <-.
  enough (writer_ok w1 /\ engine w1 = engine w) as [? ?] by (split; [by apply delete_builder_ok|done]).
  destruct (Z.ltb_spec 0 (Builder.rowCount b)) as [Hpos|]; [|by apply (inj Some) in H1 as <-].
  apply bind_Some in H1 as ([w2 c] & H2 & H1). apply (inj Some) in H1 as <-.
  destruct (sealed_ok w b w2 c Hw Hb) as (Hw2 & Hc & _ & He); [|done|].
  { intros Ht. unfold Builder.rowCount in Hpos. rewrite (tm_rows _ Hb), Ht in Hpos. done. }
  split; [by apply push_pending_ok|done].
Qed.

(** *** Calls *)

(** What a call leaves: a consistent writer on the engine it had. *)
Definition kept (w w' : DataWriter) : Prop := writer_ok w' /\ engine w' = engine w.

Lemma beginRow_ok w id t w' s : writer_ok w -> in_s 64 t -> Writer.beginRow w id t = Some (w', s) -> kept w w'.
Proof.
  intros Hw Ht H. unfold Writer.beginRow in H. destruct (Engine.getTopicStorage _ _) as [st|]; [|by simplify_eq].
  apply bind_Some in H as ([w1 b] & H1 & H). destruct (getOrCreateBuilder_ok _ _ _ _ Hw H1) as (Hw1 & Hb & Hr & He).
  destruct (_ && _); [by simplify_eq|]. apply bind_Some in H as (b' & H2 & H). simplify_eq.
  destruct (beginRow_timed _ _ _ Hb Ht H2) as [Hb' Hr']. split; [|done]. by apply put_builder_ok; auto.
Qed.

Lemma column_call_ok w id (f : TopicChunkBuilder -> option TopicChunkBuilder) w' : writer_ok w ->
  (forall b b', f b = Some b' -> same_clock b b') ->
  (b ← builders w !! id; b ← f b; Some (Writer.put_builder w id b)) = Some w' -> kept w w'.
Proof.
  intros Hw Hf H. apply bind_Some in H as (b & Hb & H). apply bind_Some in H as (b' & Hb' & H). apply (inj Some) in H as <-.
  apply Hf in Hb'. destruct (wo_builders _ Hw id b Hb). split; [|done].
  by apply put_builder_ok; [|eapply timed_clock|eapply room_clock].
Qed.

Lemma set_ok w id j v w' : writer_ok w -> Writer.set w id j v = Some w' -> kept w w'.
Proof. intros Hw. apply (column_call_ok w id (fun b => Builder.set b j v)); [done|]. intros b b'. apply set_clock. Qed.

Lemma setNull_ok w id j w' : writer_ok w -> Writer.setNull w id j = Some w' -> kept w w'.
Proof. intros Hw. apply (column_call_ok w id (fun b => Builder.setNull b j)); [done|]. intros b b'. apply setNull_clock. Qed.

Lemma finishRow_ok w id w' s : writer_ok w -> Writer.finishRow w id = Some (w', s) -> kept w w'.
Proof.
  intros Hw H. unfold Writer.finishRow in H. destruct (builders w !! id) as [b|] eqn:E; [|by simplify_eq].
  destruct (wo_builders _ Hw id b E) as [Hb Hr]. apply bind_Some in H as (b' & H1 & H).
  destruct (finishRow_timed b b' Hb Hr H1) as [Hb' Hne]. apply bind_Some in H as (w1 & H2 & H). simplify_eq.
  by eapply store_builder_ok.
Qed.

Lemma appendScalar_ok w h t v w' : writer_ok w -> in_s 64 t -> Writer.appendScalar w h t v = Some w' -> kept w w'.
Proof.
  intros Hw Ht H. unfold Writer.appendScalar in H. apply bind_Some in H as ([w1 b] & H1 & H).
  destruct (getOrCreateBuilder_ok _ _ _ _ Hw H1) as (Hw1 & Hb & Hr & He). destruct (_ && _); [done|].
  apply bind_Some in H as (b1 & Hb1 & H). apply bind_Some in H as (b2 & Hb2 & H). apply bind_Some in H as (b3 & Hb3 & H).
  destruct (beginRow_timed _ _ _ Hb Ht Hb1) as [Ht1 Hr1]. apply set_clock in Hb2.
  destruct (finishRow_timed b2 b3 (timed_clock _ _ Hb2 Ht1) (room_clock _ _ Hb2 (Hr1 Hr)) Hb3) as [Hb' Hne].
  destruct (store_builder_ok w1 (sh_topic_id h) b3 w' Hw1 Hb' Hne H) as [? He']. split; [done|]. by rewrite He'.
Qed.

Lemma subspan_sorted offset n l k : Writer.subspan offset n l = Some k -> sorted l -> Forall (in_s 64) l ->
  sorted k /\ Forall (in_s 64) k /\ length k = n.
Proof.
  unfold Writer.subspan. case_decide as Hle; [|done]. intros [= <-] Hs Hr. split_and!.
  - apply sorted_take, sorted_drop, Hs.
  - by apply Forall_take, Forall_drop.
  - rewrite length_take, length_drop. lia.
Qed.

(** Bulk appends of ordered timestamps to a topic whose chunks hold a row. *)
Lemma append_loop_ok fuel : forall w id timestamps cols offset w', writer_ok w -> roomy w id ->
  sorted timestamps -> Forall (in_s 64) timestamps ->
  Writer.append_loop fuel w id timestamps cols offset = Some w' -> kept w w'.
Proof.
  induction fuel as [|fuel IH]; intros w id timestamps cols offset w' Hw Hroomy Hs Hr H; cbn [Writer.append_loop] in H;
    (destruct (decide (offset < length timestamps)%nat) as [Hlt|]; [|by simplify_eq]); [done|].
  apply bind_Some in H as ([w1 b] & H1 & H). destruct (getOrCreateBuilder_ok _ _ _ _ Hw H1) as (Hw1 & Hb & _ & He).
  destruct (getOrCreateBuilder_roomy _ _ _ _ Hroomy H1) as [[Hb0 Hcap] _].
  set (batch := Nat.min _ _) in H. assert (Hbatch : (0 < batch)%nat /\ Builder.rowCount b + Z.of_nat batch <= max_rows_ b).
  { unfold batch, Builder.remainingCapacity. rewrite wrapU_small by (split; lia). lia. }
  apply bind_Some in H as (ts & Hts & H). destruct (subspan_sorted _ _ _ _ Hts Hs Hr) as (Hs' & Hr' & Hlen).
  apply bind_Some in H as (b1 & Hb1 & H). apply bind_Some in H as (b2 & Hb2 & H). apply bind_Some in H as (b3 & Hb3 & H).
  apply bind_Some in H as (w2 & H2 & H).
  destruct (bulk_timed b b1 b2 b3 ts Hb) as [Ht3 Hne]; try done; [by intros ->; cbn in Hlen; lia|lia|by eapply columns_clock|].
  destruct (store_builder_ok w1 id b3 w2 Hw1 Ht3 Hne H2) as [Hw2 He2].
  assert (Hroomy2 : roomy w2 id).
  { apply (append_batch_roomy w1 id b3 w2); [rewrite He; apply Hroomy| | |done].
    - unfold Builder.rowCount. rewrite (tm_rows _ Ht3). lia.
    - apply (tm_capacity _ Ht3). }
  destruct (IH w2 id timestamps cols _ w' Hw2 Hroomy2 Hs Hr H) as [? He3]. split; [done|]. by rewrite He3, He2.
Qed.

Lemma appendColumns_ok w id timestamps cols w' s : writer_ok w -> roomy w id -> sorted timestamps -> Forall (in_s 64) timestamps ->
  Writer.appendColumns w id timestamps cols = Some (w', s) -> kept w w'.
Proof.
  intros Hw Hroomy Hs Hr H. unfold Writer.appendColumns in H. destruct (Engine.getTopicStorage _ _) as [st|]; [|by simplify_eq].
  destruct (Writer.validate_columns _ _); [|by simplify_eq]. destruct timestamps as [|t ts]; [by simplify_eq|].
  apply bind_Some in H as ([w1 b] & H1 & H). destruct (getOrCreateBuilder_ok _ _ _ _ Hw H1) as (Hw1 & Hb & _ & He).
  destruct (_ && _); [by simplify_eq|]. apply bind_Some in H as (w2 & H2 & H). simplify_eq.
  assert (Hroomy1 : roomy w1 id).
  { destruct (getOrCreateBuilder_roomy _ _ _ _ Hroomy H1) as [Hb0 _]. split; [|rewrite He; apply Hroomy].
    intros b' Hb'. unfold Writer.getOrCreateBuilder in H1. destruct (builders w !! id) as [b0|] eqn:E; [by simplify_eq|].
    apply bind_Some in H1 as (s & _ & H1). apply bind_Some in H1 as (w3 & _ & H1). apply bind_Some in H1 as (cols' & _ & [= <- <-]).
    cbn in Hb'. rewrite lookup_insert_eq in Hb'. by simplify_eq. }
  destruct (append_loop_ok _ _ _ _ _ _ _ Hw1 Hroomy1 Hs Hr H2) as [? He2]. split; [done|]. by rewrite He2.
Qed.

Lemma bindTopicWriter_ok w id w' r : writer_ok w -> Writer.bindTopicWriter w id = Some (w', r) -> kept w w'.
Proof.
  intros Hw H. unfold Writer.bindTopicWriter in H. destruct (Engine.getTopicStorage _ _); [|by simplify_eq].
  apply bind_Some in H as ([w1 b] & H1 & H). apply bind_Some in H as (cols & _ & H). simplify_eq.
  by destruct (getOrCreateBuilder_ok _ _ _ _ Hw H1) as (? & _ & _ & ?).
Qed.

Lemma resolveField_ok w id path w' r : writer_ok w -> Writer.resolveField w id path = Some (w', r) -> kept w w'.
Proof.
  intros Hw H. unfold Writer.resolveField in H. apply bind_Some in H as ([w1 b] & H1 & H).
  destruct (getOrCreateBuilder_ok _ _ _ _ Hw H1) as (? & _ & _ & ?).
  destruct (topic_columns w1 !! id) as [cols|]; [destruct (Writer.find_column cols path)|]; by simplify_eq.
Qed.

Lemma registerScalarSeries_ok w ds name type w' r : writer_ok w -> next_topic_id (engine w) + 1 < 2 ^ 32 ->
  Writer.registerScalarSeries w ds name type = (w', r) -> writer_ok w'.
Proof.
  intros Hw Hlt H. unfold Writer.registerScalarSeries in H. set (desc := mkTopicDescriptor name 0 0 1024 64) in H.
  pose proof (createTopic_ok (engine w) ds desc (wo_engine _ Hw) Hlt ltac:(by split)) as He.
  destruct (Engine.createTopic _ _ _) as [e [id|err]]; [|by simplify_eq; apply (writer_ok_engine w)].
  set (cols := [_]) in H. unfold Engine.getTopicStorage in H. cbn [engine Writer.put_columns Writer.with_columns Writer.with_engine] in H.
  assert (Hw1 : writer_ok (Writer.put_columns (Writer.with_engine w e) id cols)) by by apply (writer_ok_engine w).
  destruct (topics e !! id) as [s|] eqn:Es; simplify_eq; [|done].
  apply (put_storage_ok _ id s); [done|done|]. apply rtc_once, Storage.step_columns.
Qed.

Lemma flush_ok w id w' chunks : writer_ok w -> Writer.flush w id = Some (w', chunks) ->
  kept w w' /\ Forall chunk_wf chunks.
Proof.
  intros Hw H. unfold Writer.flush in H. set (result := default [] (pending_chunks w !! id)) in H.
  assert (Hres : Forall chunk_wf result).
  { unfold result. destruct (pending_chunks w !! id) as [cs|] eqn:E; [by eapply wo_pending|constructor]. }
  set (w1 := Writer.with_pending w _) in H. assert (Hw1 : writer_ok w1).
  { destruct Hw as [He Hb Hp]. split; [done..|]. intros i cs Hi. cbn in Hi. apply lookup_delete_Some in Hi as [_ Hi]. by eapply Hp. }
  change (builders w1) with (builders w) in H. destruct (builders w !! id) as [b|] eqn:E; [|by simplify_eq].
  destruct (Z.ltb_spec 0 (Builder.rowCount b)) as [Hpos|]; [|by simplify_eq].
  destruct (wo_builders _ Hw id b E) as [Hb _]. apply bind_Some in H as ([w2 c] & H2 & H). simplify_eq.
  destruct (sealed_ok w1 b w2 c Hw1 Hb) as (Hw2 & Hc & _ & He2); [|done|].
  { intros Ht. unfold Builder.rowCount in Hpos. rewrite (tm_rows _ Hb), Ht in Hpos. done. }
  split; [split; [by apply delete_builder_ok|done]|]. apply Forall_app. split; [done|]. by constructor.
Qed.

Lemma seal_builders_ok ids : forall w result w' chunks, writer_ok w -> Forall (fun p => chunk_wf p.2) result -> NoDup ids ->
  (forall id, id ∈ ids -> exists b, builders w !! id = Some b /\ 0 < Builder.rowCount b) ->
  Writer.seal_builders w ids result = Some (w', chunks) -> kept w w' /\ Forall (fun p => chunk_wf p.2) chunks.
Proof.
  induction ids as [|id ids IH]; intros w result w' chunks Hw Hres Hnd Hids H; cbn [Writer.seal_builders] in H; [by simplify_eq|].
  apply NoDup_cons in Hnd as [Hni Hnd]. destruct (Hids id ltac:(by left)) as (b & E & Hpos). rewrite E in H.
  destruct (wo_builders _ Hw id b E) as [Hb _]. apply bind_Some in H as ([w2 c] & H2 & H).
  destruct (sealed_ok w b w2 c Hw Hb) as (Hw2 & Hc & Hbs & He2); [|done|].
  { intros Ht. unfold Builder.rowCount in Hpos. rewrite (tm_rows _ Hb), Ht in Hpos. done. }
  apply IH in H; [|by apply delete_builder_ok|apply Forall_app; split; [done|by constructor]|done|].
  - destruct H as [[? He] ?]. split; [|done]. split; [done|]. rewrite He. done.
  - intros i Hi. destruct (Hids i ltac:(by right)) as (b' & Hb' & ?). exists b'. split; [|done]. cbn. rewrite Hbs.
    rewrite lookup_delete_ne; [done|]. by intros ->.
Qed.

Section Iteration.
Context (iter : forall A, gmap Z A -> list (Z * A)).
Context (Hiter : forall A (m : gmap Z A), iter A m ≡ₚ map_to_list m).

Lemma flushAll_ok w w' chunks : writer_ok w -> Writer.flushAll iter w = Some (w', chunks) ->
  kept w w' /\ Forall (fun p => chunk_wf p.2) chunks.
Proof.
  intros Hw H. unfold Writer.flushAll in H. set (w1 := Writer.with_pending w ∅) in H.
  assert (Hw1 : writer_ok w1) by (destruct Hw as [He Hb Hp]; by split).
  eapply (seal_builders_ok _ w1) in H; [exact H|done| | |].
  - apply Forall_concat, Forall_map, Forall_forall. intros [i cs] Hi. apply (elem_of_iter iter Hiter) in Hi.
    apply Forall_map. pose proof (wo_pending _ Hw _ _ Hi) as Hc. eapply Forall_impl; [exact Hc|]. done.
  - apply (sublist_NoDup _ (iter _ (builders w)).*1); [by apply iter_nodup|]. apply fmap_sublist, sublist_filter.
  - intros i Hi. apply list_elem_of_fmap in Hi as ([k b] & -> & Hk). apply list_elem_of_filter in Hk as [Hpos Hk].
    apply (elem_of_iter iter Hiter) in Hk. by exists b.
Qed.

End Iteration.

(** *** Growing a layout *)

Lemma ensureColumn_ok w id path type w' r : writer_ok w -> Writer.ensureColumn w id path type = Some (w', r) -> writer_ok w'.
Proof.
  intros Hw H. unfold Writer.ensureColumn, Engine.getTopicStorage in H. destruct (topics (engine w) !! id) as [s|] eqn:Es; [|by simplify_eq].
  apply bind_Some in H as (w1 & H1 & H). destruct (ensureColsLoaded_ok _ _ _ _ Hw H1) as (Hw1 & He1 & _).
  destruct (Writer.find_column _ _); [case_decide; by simplify_eq|]. destruct (Writer.row_in_progress _ _); [by simplify_eq|].
  apply bind_Some in H as (w2 & H2 & H). destruct (sealBeforeLayoutChange_ok _ _ _ Hw1 H2) as [Hw2 He2].
  destruct (Writer.dense_ids _); [|done]. apply (inj Some) in H. injection H as <- _.
  apply (put_storage_ok _ id s); [by apply (writer_ok_engine w2); try done; apply Hw2|cbn; by rewrite He2, He1|].
  apply rtc_once, Storage.step_columns.
Qed.

Lemma expand_checked_ok w id s0 s path len current type node w' r : writer_ok w -> topics (engine w) !! id = Some s0 ->
  rtc Storage.step s0 s -> Writer.expand_checked w id s path len current type node = Some (w', r) -> writer_ok w'.
Proof.
  intros Hw Hs Hsteps H. unfold Writer.expand_checked in H.
  set (s1 := if _ <? len then _ else s) in H. assert (Hs1 : rtc Storage.step s0 s1).
  { unfold s1. destruct (_ <? len); [|done]. eapply rtc_r; [done|]. apply Storage.step_truncated. }
  set (w1 := Writer.put_storage w id s1) in H. assert (Hw1 : writer_ok w1) by by eapply put_storage_ok.
  assert (Ht1 : topics (engine w1) !! id = Some s1) by (cbn; by rewrite lookup_insert_eq).
  destruct (_ <=? current); [by simplify_eq|]. destruct (Writer.row_in_progress _ _); [by simplify_eq|].
  apply bind_Some in H as (w2 & H2 & H). destruct (sealBeforeLayoutChange_ok _ _ _ Hw1 H2) as [Hw2 He2].
  apply bind_Some in H as (w3 & H3 & H). destruct (ensureColsLoaded_ok _ _ _ _ Hw2 H3) as (Hw3 & He3 & _).
  destruct (Writer.dense_ids _); [|done]. apply bind_Some in H as (cols & _ & H). apply (inj Some) in H. injection H as <- _.
  apply (put_storage_ok _ id s1); [by apply (writer_ok_engine w3); try done; apply Hw3|cbn; by rewrite He3, He2|].
  eapply rtc_l; [apply Storage.step_columns|]. apply rtc_once, Storage.step_expansion.
Qed.

Lemma expandArray_ok w id path len type w' r : writer_ok w -> Writer.expandArray w id path len type = Some (w', r) -> writer_ok w'.
Proof.
  intros Hw H. unfold Writer.expandArray, Engine.getTopicStorage in H. destruct (topics (engine w) !! id) as [s|] eqn:Es; [|by simplify_eq].
  set (s1 := Storage.updateMaxObservedArrayLength s len) in H. set (w1 := Writer.put_storage w id s1) in H.
  assert (Hw1 : writer_ok w1) by (apply (put_storage_ok _ id s); [done..|]; apply rtc_once, Storage.step_max_observed).
  assert (Ht1 : topics (engine w1) !! id = Some s1) by (cbn; by rewrite lookup_insert_eq).
  destruct (len <=? _); [by simplify_eq|].
  destruct (Registry.lookup _ _) as [tree|]; [destruct (Writer.array_node_at tree path); [|by simplify_eq]|]; by eapply expand_checked_ok.
Qed.

(** ** Any sequence of calls *)

(** Chunks of the topic can hold a row. *)
Definition positive_capacity (w : DataWriter) (id : Z) : Prop :=
  (forall b, builders w !! id = Some b -> 0 < max_rows_ b)
  /\ (forall s, topics (engine w) !! id = Some s -> 0 < max_chunk_rows (descriptor_ s)).

Lemma positive_roomy w id : writer_ok w -> positive_capacity w id -> roomy w id.
Proof.
  intros Hw [Hb Hs]. split.
  - intros b E. destruct (wo_builders _ Hw id b E) as [Ht Hr]. specialize (Hb b E). pose proof (tm_capacity _ Ht) as [_ ?].
    unfold Builder.rowCount in *. split; [|done]. rewrite (tm_rows _ Ht) in *. destruct Hr as [->|Hlt]; [cbn; lia|].
    unfold Builder.rowCount in Hlt. rewrite (tm_rows _ Ht) in Hlt. lia.
  - intros s E. specialize (Hs s E). pose proof (en_sizes _ (wo_engine _ Hw) id s E) as [_ ?]. lia.
Qed.

(** Calls on a writer, the chunks they hand out, and what happens to the engine meanwhile. *)
Inductive writer_step (iter : forall A, gmap Z A -> list (Z * A)) : DataWriter -> DataWriter -> list (Z * TopicChunk) -> Prop :=
| call_registerSchema w name tree : next_id (type_registry (engine w)) + 1 < 2 ^ 32 ->
    writer_step iter w (Writer.registerSchema w name tree).1 []
| call_registerTopic w ds d : next_topic_id (engine w) + 1 < 2 ^ 32 -> in_u 32 (max_chunk_rows d) ->
    writer_step iter w (Writer.registerTopic w ds d).1 []
| call_registerScalarSeries w ds name type : next_topic_id (engine w) + 1 < 2 ^ 32 ->
    writer_step iter w (Writer.registerScalarSeries w ds name type).1 []
| call_bindTopicWriter w id w' r : Writer.bindTopicWriter w id = Some (w', r) -> writer_step iter w w' []
| call_resolveField w id path w' r : Writer.resolveField w id path = Some (w', r) -> writer_step iter w w' []
| call_beginRow w id t w' s : in_s 64 t -> Writer.beginRow w id t = Some (w', s) -> writer_step iter w w' []
| call_set w id j v w' : Writer.set w id j v = Some w' -> writer_step iter w w' []
| call_setNull w id j w' : Writer.setNull w id j = Some w' -> writer_step iter w w' []
| call_finishRow w id w' s : Writer.finishRow w id = Some (w', s) -> writer_step iter w w' []
| call_appendColumns w id timestamps cols w' s : positive_capacity w id -> sorted timestamps -> Forall (in_s 64) timestamps ->
    Writer.appendColumns w id timestamps cols = Some (w', s) -> writer_step iter w w' []
| call_appendScalar w h t v w' : in_s 64 t -> Writer.appendScalar w h t v = Some w' -> writer_step iter w w' []
| call_ensureColumn w id path type w' r : Writer.ensureColumn w id path type = Some (w', r) -> writer_step iter w w' []
| call_expandArray w id path len type w' r : Writer.expandArray w id path len type = Some (w', r) -> writer_step iter w w' []
| call_flush w id w' chunks : Writer.flush w id = Some (w', chunks) -> writer_step iter w w' (map (pair id) chunks)
| call_flushAll w w' chunks : Writer.flushAll iter w = Some (w', chunks) -> writer_step iter w w' chunks
| call_engine w e : engine_step (engine w) e -> writer_step iter w (Writer.with_engine w e) [].

(** The writer after some calls, and all chunks handed out. *)
Inductive writer_run (iter : forall A, gmap Z A -> list (Z * A)) : DataWriter -> DataWriter -> list (Z * TopicChunk) -> Prop :=
| run_none w : writer_run iter w w []
| run_call w w1 w2 out more : writer_run iter w w1 out -> writer_step iter w1 w2 more -> writer_run iter w w2 (out ++ more).

Lemma writer_step_ok iter (Hiter : forall A (m : gmap Z A), iter A m ≡ₚ map_to_list m) w w' out :
  writer_step iter w w' out -> writer_ok w -> writer_ok w' /\ Forall (fun p => chunk_wf p.2) out.
Proof.
  intros Hstep Hw. destruct Hstep as
    [w name tree Hlt|w ds d Hlt Hcap|w ds name type Hlt|w id w' r H|w id path w' r H|w id t w' s Ht H|w id j v w' H|w id j w' H|w id w' s H
    |w id ts cols w' s Hcap Hs Hr H|w h t v w' Ht H|w id path type w' r H|w id path len type w' r H|w id w' chunks H|w w' chunks H|w e H];
    try (split; [|by constructor]).
  - pose proof (engine_step_ok _ _ (step_registry (engine w) _ (step_registerSchema _ name tree Hlt)) (wo_engine _ Hw)) as He.
    unfold Writer.registerSchema. destruct (Registry.registerSchema _ _ _) as [r id]. by apply (writer_ok_engine w).
  - pose proof (createTopic_ok (engine w) ds d (wo_engine _ Hw) Hlt Hcap) as He. unfold Writer.registerTopic.
    destruct (Engine.createTopic _ _ _) as [e id]. by apply (writer_ok_engine w).
  - destruct (Writer.registerScalarSeries w ds name type) as [w' r] eqn:E. by eapply registerScalarSeries_ok.
  - by eapply bindTopicWriter_ok.
  - by eapply resolveField_ok.
  - by eapply beginRow_ok.
  - by eapply set_ok.
  - by eapply setNull_ok.
  - by eapply finishRow_ok.
  - eapply appendColumns_ok; [done|by apply positive_roomy|done..].
  - by eapply appendScalar_ok.
  - by eapply ensureColumn_ok.
  - by eapply expandArray_ok.
  - destruct (flush_ok _ _ _ _ Hw H) as [[? _] Hc]. split; [done|]. apply Forall_map. by eapply Forall_impl.
  - by destruct (flushAll_ok iter Hiter _ _ _ Hw H) as [[? _] ?].
  - apply (writer_ok_engine w); try done. by eapply engine_step_ok, Hw.
Qed.

Lemma writer_run_ok iter (Hiter : forall A (m : gmap Z A), iter A m ≡ₚ map_to_list m) w0 w out :
  writer_run iter w0 w out -> writer_ok w0 -> writer_ok w /\ Forall (fun p => chunk_wf p.2) out.
Proof.
  induction 1 as [w0|w0 w1 w2 out more _ IH Hstep]; intros H0; [by split|]. destruct (IH H0) as [Hw1 Hout].
  destruct (writer_step_ok iter Hiter _ _ _ Hstep Hw1) as [Hw2 Hmore]. split; [done|]. by apply Forall_app.
Qed.

(** C14: Whatever calls are made on a writer over a consistent engine, in any order and interleaved
    with any calls on the engine ([engine_step]), as long as times are [int64_t]s, bulk columns come
    with times in order for a topic whose chunks can hold a row, and the counters of ids have not
    wrapped: an open builder has its timestamps in order, as many as the rows it counts and between
    the times of its statistics, and room for another row or none at all; the engine is consistent;
    pending chunks and every chunk handed out are well formed (row count, times and their order), so
    the engine stays consistent when it commits them. *)
Theorem writer_invariant iter (Hiter : forall A (m : gmap Z A), iter A m ≡ₚ map_to_list m) e n w out :
  engine_ok e -> writer_run iter (Writer.make e n) w out ->
  writer_ok w /\ Forall (fun p => chunk_wf p.2) out /\ engine_ok (Engine.commitChunks (engine w) out).1.
Proof.
  intros He Hrun. destruct (writer_run_ok iter Hiter _ _ _ Hrun (make_writer_ok e n He)) as [Hw Hout].
  split_and!; [done..|]. apply commitChunks_ok; [apply Hw|done].
Qed.

(** ** An instance *)

Lemma run_step iter w w1 w2 : writer_run iter w w1 [] -> writer_step iter w1 w2 [] -> writer_run iter w w2 [].
Proof. intros H Hs. exact (run_call iter w w1 w2 [] [] H Hs). Qed.

Lemma set_values_run iter id l : forall w0 w j w', writer_run iter w0 w [] -> set_values w id j l = Some w' -> writer_run iter w0 w' [].
Proof.
  induction l as [|a l IH]; intros w0 w j w' Hrun H; cbn [set_values] in H; [by simplify_eq|].
  apply bind_Some in H as (w1 & H1 & H). eapply IH, H. destruct a as [| |v]; cbn in H1.
  - by simplify_eq.
  - eapply run_step; [done|]. by eapply call_setNull.
  - eapply run_step; [done|]. by eapply call_set.
Qed.

Lemma write_rows_run iter writes : forall w0 w w' s, writer_run iter w0 w [] -> Forall (fun p => in_s 64 p.2.1) writes ->
  write_rows w writes = Some (w', s) -> writer_run iter w0 w' [].
Proof.
  induction writes as [|[id row] writes IH]; intros w0 w w' s Hrun Hr H; cbn [write_rows] in H; [by simplify_eq|].
  apply Forall_cons in Hr as [Ht Hr]. apply bind_Some in H as ([w1 s1] & H1 & H).
  assert (Hrun1 : writer_run iter w0 w1 []).
  { unfold write_row in H1. apply bind_Some in H1 as ([w2 s2] & H2 & H1).
    assert (Hrun2 : writer_run iter w0 w2 []) by (eapply run_step; [done|]; by eapply call_beginRow).
    destruct s2; [|by simplify_eq]. apply bind_Some in H1 as (w3 & H3 & H1).
    eapply run_step; [by eapply set_values_run|]. by eapply call_finishRow. }
  destruct s1; [by eapply IH|by simplify_eq].
Qed.

Lemma writer_invariant_witness : exists w out, writer_run listing (Writer.make demo_topics 1) w out
  /\ map fst out = [2; 1; 1] /\ Forall (fun p => chunk_wf p.2) out.
Proof.
  destruct (write_rows (Writer.make demo_topics 1) demo_writes) as [[w s]|] eqn:E; [|by vm_compute in E].
  destruct (Writer.flushAll listing w) as [[w' chunks]|] eqn:Ef; cycle 1.
  { vm_compute in E. injection E as <- _. by vm_compute in Ef. }
  assert (Hrun : writer_run listing (Writer.make demo_topics 1) w' ([] ++ chunks)).
  { eapply run_call; [|by apply call_flushAll]. eapply write_rows_run; [apply run_none| |exact E].
    repeat constructor; vm_compute; congruence. }
  exists w', chunks. split; [exact Hrun|]. split.
  - vm_compute in E. injection E as <- _. vm_compute in Ef. by injection Ef as _ <-.
  - apply (writer_invariant listing (fun A m => reflexivity _) demo_topics 1 w' chunks); [|exact Hrun].
    apply engine_reachable_ok, demo_topics_reachable.
Defined.
