(* ===== verification/Reader.v ===== *)
(** * Reader: the read side of the engine

    Models [src/pj_datastore/src/reader.cpp] (the flattening of a schema is
    [TypeTree.ReaderColumns]).  A cursor or a series reader is the deque it
    points into with its own state. *)

From S2P Require Import Prelude Types TypeTree TypeRegistry Float64 Buffer Encoding Column Chunk Query Series TopicStorage Engine Writer Ingest.

Module Reader.

Definition isSeriesValueType (type : PrimitiveType) : bool :=
  match type with
  | kFloat32 | kFloat64 | kInt8 | kInt16 | kInt32 | kInt64 | kUint8 | kUint16 | kUint32 | kUint64 | kBool => true
  | kString | kUnspecified => false
  end.

Definition columnsForTopic (e : DataEngine) (s : TopicStorage) : list ColumnDescriptor :=
  if negb (bool_decide (ts_column_descriptors_ s = [])) then ts_column_descriptors_ s
  else
    match sealed_chunks_ s with
    | chunk :: _ => map col_descriptor (columns chunk)
    | [] =>
        match Registry.lookup (type_registry e) (schema_id (descriptor_ s)) with
        | None => []
        | Some tree => ReaderColumns.tree_columns tree
        end
    end.

Definition listDatasets (iter : forall A, gmap Z A -> list (Z * A)) (e : DataEngine) : list Z :=
  Engine.listDatasets iter e.

Definition listTopics (e : DataEngine) (dataset : Z) : list Z := Engine.listTopics e dataset.

Definition getTypeTree (e : DataEngine) (id : Z) : option TypeTreeNode :=
  s ← Engine.getTopicStorage e id; Registry.lookup (type_registry e) (schema_id (descriptor_ s)).

Definition getMetadata (e : DataEngine) (id : Z) : option TopicMetadata :=
  Storage.metadata <$> Engine.getTopicStorage e id.

(** A [RangeCursor]: its deque and bounds. *)
Record Range := mkRangeCursor { rq_chunks : list TopicChunk; rq_min : Z; rq_max : Z }.

Definition rangeQuery (e : DataEngine) (id t_min t_max : Z) : Expected Range :=
  match Engine.getTopicStorage e id with
  | None => Err ("Topic " +:+ pretty id +:+ " not found")
  | Some s => Ok (mkRangeCursor (sealed_chunks_ s) t_min t_max)
  end.

Definition latestAt (e : DataEngine) (id t : Z) : Expected (option SampleRow) :=
  match Engine.getTopicStorage e id with
  | None => Err ("Topic " +:+ pretty id +:+ " not found")
  | Some s => Ok (Query.latestAt (sealed_chunks_ s) t)
  end.

(** A [SeriesReader]: its deque and column. *)
Definition series (e : DataEngine) (id : Z) (column_index : nat) : Expected (list TopicChunk * nat) :=
  match Engine.getTopicStorage e id with
  | None => Err ("Topic " +:+ pretty id +:+ " not found")
  | Some s =>
      match columnsForTopic e s !! column_index with
      | None => Err ("Column " +:+ pretty column_index +:+ " not found in topic " +:+ pretty id)
      | Some d =>
          if isSeriesValueType (logical_type d) then Ok (sealed_chunks_ s, column_index)
          else Err ("Column " +:+ pretty column_index +:+ " in topic " +:+ pretty id +:+ " is not a numeric series")
      end
  end.

End Reader.

(** ** Reader and writer agree on the layout of a topic *)

(** The chunks of a topic have the columns [ds]. *)
Definition written_with (ds : list ColumnDescriptor) (cs : list TopicChunk) : Prop :=
  forall c, head cs = Some c -> map col_descriptor (columns c) = ds.

(** The two look for the layout in the same places, in different orders. *)
Lemma layouts_agree e n id s ds : Writer.loaded_columns (Writer.make e n) id s = Some ds ->
  written_with ds (sealed_chunks_ s) ->
  (forall tree, Registry.lookup (type_registry e) (schema_id (descriptor_ s)) = Some tree ->
     arrays_typed tree = true /\ node_kind tree <> kArray) ->
  Reader.columnsForTopic e s = ds.
Proof.
  unfold Writer.loaded_columns, Reader.columnsForTopic. cbn [topic_columns Writer.make engine]. rewrite lookup_empty.
  change (default [] None) with (@nil ColumnDescriptor). destruct (ts_column_descriptors_ s) as [|d0 l]; [|by intros [= <-]].
  intros Hl Hw Ht. destruct (sealed_chunks_ s) as [|c cs] eqn:Ec; [|by apply Hw].
  destruct (Registry.lookup _ _) as [tree|]; [|by injection Hl as <-]. destruct (Ht tree eq_refl) as [Hty Hk].
  rewrite (writer_reader_agree tree Hty Hk) in Hl. by injection Hl as <-.
Qed.

(** a reader offers a series for exactly the columns of the writer's layout that hold
    numbers, over all chunks of the topic, and names the reason otherwise. *)
Theorem series_spec e n id s ds column_index : topics e !! id = Some s ->
  Writer.loaded_columns (Writer.make e n) id s = Some ds -> written_with ds (sealed_chunks_ s) ->
  (forall tree, Registry.lookup (type_registry e) (schema_id (descriptor_ s)) = Some tree ->
     arrays_typed tree = true /\ node_kind tree <> kArray) ->
  Reader.series e id column_index = Ok (sealed_chunks_ s, column_index)
  <-> exists d, ds !! column_index = Some d /\ kind_of d <> StorageKind.kString /\ logical_type d <> kUnspecified.
Proof.
  intros Hs Hl Hw Ht. unfold Reader.series, Engine.getTopicStorage. rewrite Hs, (layouts_agree e n id s ds Hl Hw Ht).
  destruct (ds !! column_index) as [d|]; [|split; [done|by intros (d & ? & _)]].
  unfold kind_of. destruct (logical_type d) eqn:Ed; cbn; (split; [intros H; try discriminate; exists d; by rewrite Ed|]);
    try done; intros (d' & [= <-] & ? & ?); rewrite Ed in *; done.
Qed.

Lemma series_spec_witness : Reader.series demo_topics 1 1 = Ok ([], 1%nat).
Proof.
  destruct (topics demo_topics !! 1) as [s|] eqn:E; [|done].
  assert (Hs : sealed_chunks_ s = []) by (vm_compute in E; by injection E as <-).
  rewrite <- Hs. apply (series_spec demo_topics 1 1 s demo_columns 1 E).
  - vm_compute in E. injection E as <-. vm_compute. reflexivity.
  - rewrite Hs. by intros c.
  - intros tree Ht. vm_compute in E. injection E as <-. vm_compute in Ht. injection Ht as <-. split; [reflexivity|discriminate].
  - exists (mkColumnDescriptor 1 kInt32 "n"). split; [reflexivity|]. split; discriminate.
Defined.
