(* ===== verification/Records.v ===== *)
(** * Records: a topic as a log of named values

    The abstract state of a topic for its clients: the list of its records, a
    time and the values by field name, however the rows are spread over the
    chunks of the storage, the chunks the writer holds back and the builder, and
    however the columns of the topic grew meanwhile.  Refines the rows of
    [Chunk] and [Ingest]; [Writer] is [src/pj_datastore/src/writer.cpp]. *)

From S2P Require Import Prelude Types TypeTree TypeRegistry Float64 Buffer Encoding Column Chunk Query TopicStorage Engine Writer Ingest Layout WriterState.

Abbreviation LogRecord := (Z * gmap string Value)%type.

(** ** Values assigned in any order *)

Abbreviation Assignment := (nat * Assign)%type.

Fixpoint assign_list (b : TopicChunkBuilder) (l : list Assignment) : option TopicChunkBuilder :=
  match l with [] => Some b | (j, a) :: rest => b ← assign b j a; assign_list b rest end.

Definition assigned_to (l : list Assignment) (j : nat) : Assign := default Skip ((list_to_map l : gmap nat Assign) !! j).

(** The row the assignments leave in [n] columns. *)
Definition row_of (n : nat) (l : list Assignment) : list Assign := map (assigned_to l) (seq 0 n).

Lemma assigned_eq j a l : assigned_to ((j, a) :: l) j = a.
Proof. unfold assigned_to. cbn. by rewrite lookup_insert_eq. Qed.

Lemma assigned_ne i j a l : i <> j -> assigned_to ((j, a) :: l) i = assigned_to l i.
Proof. intros H. unfold assigned_to. cbn. by rewrite lookup_insert_ne. Qed.

Lemma assigned_elem j a l : NoDup l.*1 -> (j, a) ∈ l -> assigned_to l j = a.
Proof. intros Hnd Hin. unfold assigned_to. by rewrite (elem_of_list_to_map_1 _ _ _ Hnd Hin). Qed.

Lemma assigned_none j l : j ∉ l.*1 -> assigned_to l j = Skip.
Proof. intros H. unfold assigned_to. by rewrite (not_elem_of_list_to_map_1 _ _ H). Qed.

Lemma row_of_lookup n l j : (j < n)%nat -> row_of n l !! j = Some (assigned_to l j).
Proof. intros H. unfold row_of. by rewrite list_lookup_fmap, lookup_seq_lt. Qed.

Lemma row_of_value n l t j : (j < n)%nat -> row_value (t, row_of n l) j = assigned (assigned_to l j).
Proof. intros H. unfold row_value. cbn. by rewrite (nth_lookup_Some _ _ _ _ (row_of_lookup n l j H)). Qed.

Lemma assign_list_state l : forall b (vss : nat -> list (option Value)) m,
  row_in_progress_ b = true -> NoDup l.*1 -> Forall (fun p => (p.1 < m)%nat) l ->
  (forall i, (i < m)%nat -> col_state b i (vss i)) ->
  Forall (fun p => row_value_ok (kind_at b p.1) (assigned p.2)) l ->
  Forall (fun p => kind_at b p.1 = StorageKind.kString -> slots_size (kind_at b p.1) (vss p.1 ++ pushed p.2) < 2 ^ 32) l ->
  exists b', assign_list b l = Some b' /\ same_frame b b'
    /\ forall i, (i < m)%nat -> col_state b' i (vss i ++ pushed (assigned_to l i)).
Proof.
  induction l as [|[j a] l IH]; intros b vss m Hp Hnd Hm Hcols Hok Hsz; cbn [assign_list].
  { exists b. split_and!; [done|done|]. intros i Hi. rewrite app_nil_r. by apply Hcols. }
  cbn [fmap list_fmap fst] in Hnd. apply NoDup_cons in Hnd as [Hj Hnd].
  apply Forall_cons in Hm as [Hjm Hm]. apply Forall_cons in Hok as [Ha Hok]. apply Forall_cons in Hsz as [Hs Hsz].
  cbn [fst snd] in *. destruct (assign_state b j (vss j) a Hp (Hcols j Hjm) Ha Hs) as (b1 & -> & Hst & Hsb).
  cbn [mbind option_bind]. pose proof (sb_frame _ _ _ Hsb) as Hf.
  assert (Hother : forall p, p ∈ l -> p.1 <> j).
  { intros [i x] Hin Hij. cbn in Hij. subst i. apply Hj, list_elem_of_fmap. by exists (j, x). }
  destruct (IH b1 (fun i => if decide (i = j) then vss j ++ pushed a else vss i) m) as (b' & -> & Hf' & Hc'); try done.
  - by rewrite (sf_progress _ _ Hf).
  - intros i Hi. case_decide; [by subst|]. by eapply col_state_other; eauto.
  - eapply Forall_impl; [exact Hok|]. intros p. by rewrite (kind_at_frame b b1).
  - rewrite Forall_forall in Hsz |- *. intros p Hp'. rewrite (kind_at_frame b b1) by done.
    rewrite decide_False by by apply Hother. by apply Hsz.
  - exists b'. split_and!; [done|by transitivity b1|]. intros i Hi. specialize (Hc' i Hi). cbn in Hc'. case_decide as Hij.
    + subst. rewrite assigned_eq. by rewrite (assigned_none _ l), app_nil_r in Hc'.
    + by rewrite assigned_ne.
Qed.

(** [beginRow(t)], the assignments, [finishRow()]. *)
Lemma append_list_built b ds rows t l :
  built b ds rows -> table_ok ds (rows ++ [(t, row_of (length ds) l)]) ->
  NoDup l.*1 -> Forall (fun p => (p.1 < length ds)%nat) l ->
  exists b2 b', assign_list (Builder.with_row b true t t) l = Some b2 /\ Builder.finishRow b2 = Some b'
    /\ built b' ds (rows ++ [(t, row_of (length ds) l)]) /\ last_time (map fst rows) <= t.
Proof.
  intros Hb Hok Hnd Hl. pose proof (tb_sorted _ _ Hok) as Hs. rewrite map_app in Hs.
  assert (Hr : in_s 64 t) by (pose proof (tb_range _ _ Hok) as H; apply Forall_app in H as [_ H]; by rewrite Forall_singleton in H).
  assert (Ht : last_time (map fst rows) <= t) by by apply sorted_last_le.
  assert (Hrow : forall j d, ds !! j = Some d -> row_value_ok (kind_of d) (assigned (assigned_to l j))).
  { intros j d Hj. pose proof (tb_rows _ _ Hok) as H. apply Forall_app in H as [_ H]. rewrite Forall_singleton in H.
    rewrite <- (row_of_value (length ds) l t) by by eapply lookup_lt_Some. by apply H. }
  destruct (begin_row_built b ds rows t Hb Ht) as (_ & Hcols & Hkind). set (b1 := Builder.with_row b true t t) in *.
  assert (Hat : forall p, p ∈ l -> exists d, ds !! p.1 = Some d /\ assigned_to l p.1 = p.2).
  { intros [j a] Hin. rewrite Forall_forall in Hl. destruct (lookup_lt_is_Some_2 ds j (Hl _ Hin)) as [d Hd].
    exists d. split; [done|]. by apply assigned_elem. }
  destruct (assign_list_state l b1 (col_values rows) (length ds)) as (b2 & H2 & Hf & Hc); try done.
  - apply Forall_forall. intros p Hp. destruct (Hat p Hp) as (d & Hd & Ha). rewrite (Hkind _ _ Hd), <- Ha. by apply Hrow.
  - apply Forall_forall. intros p Hp. destruct (Hat p Hp) as (d & Hd & Ha). rewrite (Hkind _ _ Hd). intros Hk.
    pose proof (tb_strings _ _ Hok _ _ Hd Hk) as Hfit. unfold col_values in Hfit. rewrite map_app, slots_size_app in Hfit.
    cbn [map] in Hfit. rewrite row_of_value, Ha in Hfit by by eapply lookup_lt_Some.
    pose proof (pushed_size (kind_of d) p.2). rewrite slots_size_app. unfold col_values. lia.
  - destruct (finish_row_built b ds rows t (row_of (length ds) l) b2) as (b' & Hb' & Hbuilt); try done.
    + pose proof (tb_count _ _ Hok) as H. rewrite length_app in H. cbn in H. lia.
    + intros j Hj. unfold pushed_at. rewrite decide_True, Nat.sub_0_r, row_of_lookup by lia. by apply Hc.
    + by exists b2, b'.
Qed.

(** ** Rows as records *)

Definition named_values (ds : list ColumnDescriptor) (row : Row) : list (string * Value) :=
  omap Datatypes.id (imap (fun j d => pair (field_path d) <$> row_value row j) ds).

(** The values of a row by the paths of its columns. *)
Definition record_of (ds : list ColumnDescriptor) (row : Row) : LogRecord := (row.1, list_to_map (named_values ds row)).

Lemma named_values_elem ds row p v : (p, v) ∈ named_values ds row
  <-> exists j d, ds !! j = Some d /\ field_path d = p /\ row_value row j = Some v.
Proof.
  unfold named_values. rewrite list_elem_of_omap. split.
  - intros (x & Hx & He). unfold Datatypes.id in He. subst x. apply elem_of_lookup_imap_1 in Hx as (j & d & Hx & Hj).
    destruct (row_value row j) as [v'|] eqn:Ev; [|done]. cbn in Hx. injection Hx as -> ->. eauto.
  - intros (j & d & Hj & <- & Hv). exists (Some (field_path d, v)). split; [|done].
    apply elem_of_lookup_imap. exists j, d. by rewrite Hv.
Qed.

Lemma named_values_nodup ds row : NoDup (map field_path ds) -> NoDup (named_values ds row).*1.
Proof.
  intros Hnd. assert (Hsub : forall (ds : list ColumnDescriptor) f,
    (omap Datatypes.id (imap (fun j d => pair (field_path d) <$> (f j : option Value)) ds)).*1 `sublist_of` map field_path ds).
  { clear. induction ds as [|d ds IH]; intros f; [constructor|]. cbn [imap omap map]. cbn.
    destruct (f 0%nat); cbn; [apply sublist_skip|apply sublist_cons]; apply (IH (fun j => f (S j))). }
  eapply sublist_NoDup; [exact Hnd|]. exact (Hsub ds (row_value row)).
Qed.

Lemma record_of_lookup ds row p v : NoDup (map field_path ds) ->
  (record_of ds row).2 !! p = Some v <-> exists j d, ds !! j = Some d /\ field_path d = p /\ row_value row j = Some v.
Proof.
  intros Hnd. cbn. rewrite <- elem_of_list_to_map by by apply named_values_nodup. apply named_values_elem.
Qed.

Lemma record_of_column ds row j d : NoDup (map field_path ds) -> ds !! j = Some d ->
  (record_of ds row).2 !! field_path d = row_value row j.
Proof.
  intros Hnd Hj. destruct (row_value row j) as [v|] eqn:Ev; [apply record_of_lookup; [done|]; eauto|].
  destruct ((record_of ds row).2 !! field_path d) as [v|] eqn:El; [|done].
  apply record_of_lookup in El as (i & d' & Hi & Hp & Hv); [|done].
  assert (i = j) as ->; [|congruence].
  eapply (NoDup_lookup (map field_path ds)); [done| |]; rewrite list_lookup_fmap; [by rewrite Hi|]. rewrite Hj. cbn. by rewrite Hp.
Qed.

(** ** Chunks that hold records *)

(** Whatever is read of a row is what its record says: a column without a value is null, and
    no value is without a column.  The columns are the first of the layout [ds]. *)
Record chunk_records (ds : list ColumnDescriptor) (c : TopicChunk) (recs : list LogRecord) : Prop := {
  cr_wf : chunk_wf c;
  cr_layout : map col_descriptor (columns c) `prefix_of` ds;
  cr_fits : Forall column_fits (columns c);
  cr_kinds : forall r j cc v, r ∈ recs -> columns c !! j = Some cc -> r.2 !! field_path (col_descriptor cc) = Some v ->
    kind_of_value v = kind_of (col_descriptor cc);
  cr_times : timestamps c = map fst recs;
  cr_cells : forall i r j cc, recs !! i = Some r -> columns c !! j = Some cc ->
    cell_reads c j i (r.2 !! field_path (col_descriptor cc));
  cr_fields : forall i r p v, recs !! i = Some r -> r.2 !! p = Some v ->
    exists j cc, columns c !! j = Some cc /\ field_path (col_descriptor cc) = p
}.

Lemma holds_records c ds rows : NoDup (map field_path ds) -> map col_descriptor (columns c) = ds ->
  chunk_holds ds c rows -> chunk_records ds c (map (record_of ds) rows).
Proof.
  intros Hnd Hds [Hwf Ht Hl Hfits Hrows Hcells].
  assert (Hcol : forall j cc, columns c !! j = Some cc -> ds !! j = Some (col_descriptor cc)).
  { intros j cc Hj. by rewrite <- Hds, list_lookup_fmap, Hj. }
  split; [done|by rewrite Hds|done| | | |].
  - intros r j cc v Hr Hj Hv. apply list_elem_of_fmap in Hr as (row & -> & Hin). specialize (Hcol j cc Hj).
    rewrite (record_of_column ds row j) in Hv by done. rewrite Forall_forall in Hrows.
    destruct (Hrows row Hin) as [_ Hok]. specialize (Hok j _ Hcol). rewrite Hv in Hok. apply Hok.
  - rewrite Ht, map_map. done.
  - intros i r j cc Hi Hj. rewrite list_lookup_fmap in Hi. apply fmap_Some in Hi as (row & Hi & ->).
    specialize (Hcol j cc Hj). rewrite (record_of_column ds row j) by done. apply Hcells; [done|].
    by eapply lookup_lt_Some.
  - intros i r p v Hi Hp. rewrite list_lookup_fmap in Hi. apply fmap_Some in Hi as (row & Hi & ->).
    apply record_of_lookup in Hp as (j & d & Hj & Hpath & _); [|done].
    rewrite <- Hds, list_lookup_fmap in Hj. apply fmap_Some in Hj as (cc & Hj & ->). by exists j, cc.
Qed.

Lemma seal_columns_descriptors cols : forall ds css ccs, Builder.seal_columns cols ds css = Some ccs ->
  map col_descriptor ccs = take (length cols) ds.
Proof.
  induction cols as [|col cols IH]; intros ds css ccs H; cbn in H; [by injection H as <-|].
  destruct ds as [|d ds], css as [|cs css]; try done. apply bind_Some in H as (cc & Hcc & H).
  apply bind_Some in H as (rest & Hrest & H). injection H as <-. cbn. f_equal; [|by eapply IH].
  unfold Builder.seal_column in Hcc. by apply bind_Some in Hcc as (enc & _ & [= <-]).
Qed.

(** A builder seals into a chunk of its records. *)
Lemma seal_records b ds rows next : built b ds rows -> table_ok ds rows -> rows <> [] -> NoDup (map field_path ds) ->
  exists chunk, Builder.seal b next = Some chunk /\ chunk_records ds chunk (map (record_of ds) rows).
Proof.
  intros Hb Hok Hne Hnd. destruct (seal_holds b ds rows next Hb Hok Hne) as (chunk & Hs & Hch).
  exists chunk. split; [done|]. apply holds_records; [done| |done]. unfold Builder.seal in Hs.
  apply bind_Some in Hs as (ccs & Hccs & [= <-]). cbn. rewrite (seal_columns_descriptors _ _ _ _ Hccs), (bl_desc _ _ _ Hb).
  rewrite (bl_length _ _ _ Hb). apply firstn_all.
Qed.

Lemma chunk_records_mono ds more c recs : chunk_records ds c recs -> chunk_records (ds ++ more) c recs.
Proof. intros [H1 H2 H3 H4 H5 H6 H7]. split; try done. etrans; [exact H2|]. by apply prefix_app_r. Qed.

Lemma records_not_empty ds c recs : chunk_records ds c recs -> recs <> [].
Proof.
  intros H ->. pose proof (cr_times _ _ _ H) as Ht. pose proof (cw_min _ (cr_wf _ _ _ H)) as Hm. by rewrite Ht in Hm.
Qed.

(** Chunks one after the other. *)
Definition stored (ds : list ColumnDescriptor) (cs : list TopicChunk) (log : list LogRecord) : Prop :=
  exists groups, log = concat groups /\ Forall2 (chunk_records ds) cs groups.

Lemma stored_nil ds : stored ds [] [].
Proof. by exists []. Qed.

Lemma stored_mono ds more cs log : stored ds cs log -> stored (ds ++ more) cs log.
Proof. intros (groups & -> & H). exists groups. split; [done|]. eapply Forall2_impl; [exact H|]. intros. by apply chunk_records_mono. Qed.

Lemma stored_snoc ds cs log c recs : stored ds cs log -> chunk_records ds c recs -> stored ds (cs ++ [c]) (log ++ recs).
Proof.
  intros (groups & -> & H) Hc. exists (groups ++ [recs]). split; [by rewrite concat_app; cbn; rewrite app_nil_r|].
  apply Forall2_app; [done|]. by constructor.
Qed.

Lemma stored_app ds cs log cs' log' : stored ds cs log -> stored ds cs' log' -> stored ds (cs ++ cs') (log ++ log').
Proof. intros (g & -> & H) (g' & -> & H'). exists (g ++ g'). split; [by rewrite concat_app|]. by apply Forall2_app. Qed.

Lemma stored_split ds cs cs' log : stored ds (cs ++ cs') log -> exists l l', log = l ++ l' /\ stored ds cs l /\ stored ds cs' l'.
Proof.
  intros (groups & -> & H). apply Forall2_app_inv_l in H as (g & g' & H & H' & ->).
  exists (concat g), (concat g'). rewrite concat_app. split_and!; [done|by exists g|by exists g'].
Qed.

Lemma stored_empty ds cs log : stored ds cs log -> cs = [] <-> log = [].
Proof.
  intros (groups & -> & H). destruct H as [|c g cs groups Hc _]; [done|]. split; [done|].
  intros [Hg _]%app_nil. by apply records_not_empty in Hc.
Qed.

Lemma stored_deque ds cs log : stored ds cs log -> sorted (map fst log) -> deque_wf cs.
Proof.
  intros (groups & -> & H). induction H as [|c g cs groups Hc Hcs IH]; intros Hs; [constructor|].
  cbn [concat] in Hs. rewrite map_app in Hs. apply sorted_app_iff in Hs as (_ & Hs & Hle). specialize (IH Hs).
  destruct cs as [|c' cs]; [by constructor; apply Hc|]. constructor; [apply Hc| |done].
  inversion Hcs as [|? g' ? groups' Hc' _]; subst. apply Hle.
  - rewrite <- (cr_times _ _ _ Hc). apply list_elem_of_lookup. rewrite <- (cw_max _ (cr_wf _ _ _ Hc)).
    eexists. by rewrite last_lookup.
  - cbn [concat]. rewrite map_app, elem_of_app. left. rewrite <- (cr_times _ _ _ Hc').
    pose proof (cw_min _ (cr_wf _ _ _ Hc')) as Hm. destruct (timestamps c'); simplify_eq/=. by left.
Qed.

(** ** The log of a topic *)

(** The records of the builder. *)
Definition building (w : DataWriter) (id : Z) (ds : list ColumnDescriptor) (current : list LogRecord) : Prop :=
  match builders w !! id with
  | Some b => exists rows, built b ds rows /\ table_ok ds rows /\ current = map (record_of ds) rows
  | None => current = []
  end.

(** The records of the storage, of the chunks held back and of the builder, in this order. *)
Record logged (w : DataWriter) (id : Z) (ds : list ColumnDescriptor) (log : list LogRecord) : Prop := {
  lg_rows : exists s dn current, topics (engine w) !! id = Some s /\ Writer.loaded_columns w id s = Some ds
    /\ log = dn ++ current /\ stored ds (sealed_chunks_ s ++ default [] (pending_chunks w !! id)) dn /\ building w id ds current;
  lg_dense : dense ds;
  lg_paths : NoDup (map field_path ds);
  lg_sorted : sorted (map fst log)
}.

Lemma only_logged id i w w' ds log : only id w w' -> i <> id -> logged w i ds log -> logged w' i ds log.
Proof.
  intros [He Hb Hp Hc] Hne [(s & dn & cur & Hs & Hl & Hlog & Hst & Hbu) Hd Hn Ho]. split; [|done..].
  exists s, dn, cur. unfold building, Writer.loaded_columns in *. rewrite He, Hb, Hp, Hc by done. by split_and!.
Qed.

(** *** Sizes *)

Definition value_bytes (v : Value) : nat := match v with VString s => length s | _ => 0 end.
Definition record_bytes (r : LogRecord) : nat := sum_list_with (fun p => value_bytes p.2) (map_to_list r.2).
Definition log_bytes (log : list LogRecord) : nat := sum_list_with record_bytes log.

(** The rows are counted, and the bytes of the strings addressed, with 32 bits. *)
Definition log_fits (log : list LogRecord) : Prop :=
  Z.of_nat (length log) < 2 ^ 32 /\ Z.of_nat (log_bytes log) < 2 ^ 32.

Lemma sum_with_elem {A} (f : A -> nat) l x : x ∈ l -> (f x <= sum_list_with f l)%nat.
Proof. induction 1; cbn; lia. Qed.

Lemma sum_with_app {A} (f : A -> nat) l k : sum_list_with f (l ++ k) = (sum_list_with f l + sum_list_with f k)%nat.
Proof. induction l as [|x l IH]; cbn; [done|]. rewrite IH. lia. Qed.

Lemma log_fits_suffix dn current : log_fits (dn ++ current) -> log_fits current.
Proof. unfold log_fits, log_bytes. rewrite length_app, sum_with_app. lia. Qed.

Lemma slots_size_records ds rows j d : NoDup (map field_path ds) -> ds !! j = Some d -> kind_of d = StorageKind.kString ->
  Forall (row_ok ds) rows -> slots_size (kind_of d) (col_values rows j) <= Z.of_nat (log_bytes (map (record_of ds) rows)).
Proof.
  intros Hnd Hj Hk. induction 1 as [|row rows Hrow _ IH]; [done|]. cbn [map col_values].
  change (row_value row j :: map (fun r => row_value r j) rows) with ([row_value row j] ++ col_values rows j).
  rewrite slots_size_app. unfold log_bytes in *. cbn [sum_list_with map]. enough (slots_size (kind_of d) [row_value row j] <= Z.of_nat (record_bytes (record_of ds row))) by lia.
  destruct Hrow as [_ Hok]. specialize (Hok j d Hj). unfold slots_size. rewrite Hk. destruct (row_value row j) as [v|] eqn:Ev; [|cbn; lia].
  destruct Hok as [Hkv _]. rewrite Hk in Hkv. destruct v; try discriminate Hkv. cbn. rewrite app_nil_r. apply inj_le.
  refine (sum_with_elem (fun p : string * Value => value_bytes p.2) _ (field_path d, VString s) _).
  apply elem_of_map_to_list. change ((record_of ds row).2 !! field_path d = Some (VString s)). by rewrite (record_of_column ds row j).
Qed.

(** The rows of the log fit the table the builder keeps. *)
Lemma table_of_log ds rows : NoDup (map field_path ds) -> Forall (row_ok ds) rows -> sorted (map fst rows) ->
  Forall (fun row : Row => in_s 64 row.1) rows -> log_fits (map (record_of ds) rows) -> table_ok ds rows.
Proof.
  intros Hnd Hrows Hs Hr [Hn Hb]. rewrite length_map in Hn. split; try done.
  intros j d Hj Hk. pose proof (slots_size_records ds rows j d Hnd Hj Hk Hrows). lia.
Qed.

(** *** A record *)

Fixpoint set_list (w : DataWriter) (id : Z) (l : list Assignment) : option DataWriter :=
  match l with [] => Some w | (j, a) :: rest => w ← set_value w id j a; set_list w id rest end.

Lemma set_value_builder w id b j a b' : assign b j a = Some b' ->
  set_value (Writer.put_builder w id b) id j a = Some (Writer.put_builder w id b').
Proof.
  intros H. destruct a as [| |v]; cbn [set_value assign] in *; [by simplify_eq| |].
  all: unfold Writer.setNull, Writer.set; cbn [builders Writer.put_builder Writer.with_builders].
  all: rewrite lookup_insert_eq; cbn [mbind option_bind]; rewrite H; cbn [mbind option_bind].
  all: by rewrite put_builder_twice.
Qed.

Lemma set_list_builder l : forall w id b b', assign_list b l = Some b' ->
  set_list (Writer.put_builder w id b) id l = Some (Writer.put_builder w id b').
Proof.
  induction l as [|[j a] l IH]; intros w id b b' H; cbn [assign_list set_list] in *; [by simplify_eq|].
  apply bind_Some in H as (b1 & Ha & H). rewrite (set_value_builder w id b j a b1 Ha). cbn [mbind option_bind]. by apply IH.
Qed.

(** The builder is there, for the rows that follow. *)
Lemma getOrCreateBuilder_logged w id ds log : logged w id ds log -> exists w' b rows,
  Writer.getOrCreateBuilder w id = Some (w', b) /\ builders w' !! id = Some b /\ built b ds rows /\ table_ok ds rows
  /\ logged w' id ds log /\ only id w w' /\ exists dn, log = dn ++ map (record_of ds) rows.
Proof.
  intros [(s & dn & cur & Hs & Hl & Hlog & Hst & Hbu) Hd Hn Ho]. unfold Writer.getOrCreateBuilder, building in *.
  destruct (builders w !! id) as [b|] eqn:Eb.
  { destruct Hbu as (rows & Hb & Ht & ->). exists w, b, rows. split_and!; try done; [|by exists dn].
    split; [|done..]. exists s, dn, (map (record_of ds) rows). unfold building. rewrite Eb. split_and!; eauto. }
  subst cur. unfold Engine.getTopicStorage, Writer.ensureColsLoaded. rewrite Hs. cbn [mbind option_bind]. rewrite Hl.
  cbn [mbind option_bind Writer.put_columns Writer.with_columns topic_columns]. rewrite lookup_insert_eq.
  cbn [mbind option_bind]. eexists _, _, []. split; [done|]. cbn. rewrite lookup_insert_eq.
  assert (Hempty : table_ok ds []).
  { apply table_of_log; try done; constructor. }
  split_and!; [done|apply make_built|done| | |by exists dn].
  - split; [|done..]. exists s, dn, []. split_and!; [done|by apply (loaded_columns_put w)|done|done|].
    unfold building. cbn. rewrite lookup_insert_eq. exists []. split_and!; [apply make_built|done|done].
  - split; cbn; try done; intros i Hi; by rewrite lookup_insert_ne.
Qed.

(** Sealing a builder with rows moves its records to the chunks held back. *)
Lemma autoSeal_logged w id ds log b : logged w id ds log -> builders w !! id = Some b -> 0 < Builder.rowCount b ->
  exists w', Writer.autoSeal w id = Some w' /\ logged w' id ds log /\ only id w w'.
Proof.
  intros [(s & dn & cur & Hs & Hl & -> & Hst & Hbu) Hd Hn Ho] Eb Hpos. unfold Writer.autoSeal, building in *.
  rewrite Eb in Hbu |- *. destruct Hbu as (rows & Hb & Ht & ->).
  assert (Hne : rows <> []) by (intros ->; unfold Builder.rowCount in Hpos; by rewrite (bl_rows _ _ _ Hb) in Hpos).
  destruct (seal_records b ds rows (next_chunk_id_ w) Hb Ht Hne Hn) as (chunk & Hseal & Hch).
  unfold Writer.sealed. rewrite Hseal. cbn [mbind option_bind]. eexists. split; [done|]. split.
  - split; [|done..]. exists s, (dn ++ map (record_of ds) rows), []. rewrite app_nil_r. cbn [pending_chunks Writer.with_builders Writer.push_pending Writer.with_pending].
    rewrite lookup_insert_eq. split_and!; [done|done|done| |].
    + cbn [default]. unfold Datatypes.id. rewrite app_assoc. by apply stored_snoc.
    + unfold building. cbn. by rewrite lookup_delete_eq.
  - split; cbn; try done; intros i Hi; by rewrite ?lookup_insert_ne, ?lookup_delete_ne.
Qed.

Lemma assigned_to_ok (ds : list ColumnDescriptor) l j d : NoDup l.*1 ->
  Forall (fun p => exists d, ds !! p.1 = Some d /\ row_value_ok (kind_of d) (assigned p.2)) l ->
  ds !! j = Some d -> row_value_ok (kind_of d) (assigned (assigned_to l j)).
Proof.
  intros Hnd Hl Hd. destruct (decide (j ∈ l.*1)) as [Hin|Hin]; [|by rewrite assigned_none].
  apply list_elem_of_fmap in Hin as ([i a] & Hi & Hin). cbn in Hi. subst i. rewrite (assigned_elem j a l) by done.
  rewrite Forall_forall in Hl. destruct (Hl _ Hin) as (d' & Hd' & Hok). cbn in *. by simplify_eq.
Qed.

(** The builder of a log can take the row of a record that fits. *)
Lemma row_table_ok ds log dn rows t l : NoDup (map field_path ds) -> sorted (map fst log) ->
  log = dn ++ map (record_of ds) rows -> table_ok ds rows -> last_time (map fst log) <= t -> in_s 64 t -> NoDup l.*1 ->
  Forall (fun p => exists d, ds !! p.1 = Some d /\ row_value_ok (kind_of d) (assigned p.2)) l ->
  log_fits (log ++ [record_of ds (t, row_of (length ds) l)]) -> table_ok ds (rows ++ [(t, row_of (length ds) l)]).
Proof.
  intros Hn Ho -> Hok Ht Hr Hnd Hl Hfit. apply table_of_log; [done| | | |].
  - apply Forall_app. split; [apply Hok|]. apply Forall_singleton. split.
    + unfold row_of. cbn. by rewrite length_map, length_seq.
    + intros j d Hj. rewrite row_of_value by by eapply lookup_lt_Some. by eapply assigned_to_ok.
  - rewrite map_app. apply sorted_snoc; [apply Hok|]. intros y Hy. cbn. etrans; [|exact Ht].
    unfold last_time. rewrite map_app, map_map. change (map (fun x => (record_of ds x).1) rows) with (map fst rows).
    rewrite last_app, Hy. done.
  - apply Forall_app. split; [apply Hok|]. by apply Forall_singleton.
  - rewrite map_app. cbn [map]. rewrite <- app_assoc in Hfit. by eapply log_fits_suffix.
Qed.

(** [beginRow], the assignments in any order and [finishRow] append one record. *)
Lemma logged_row w id ds log t l : logged w id ds log -> last_time (map fst log) <= t -> in_s 64 t -> NoDup l.*1 ->
  Forall (fun p => exists d, ds !! p.1 = Some d /\ row_value_ok (kind_of d) (assigned p.2)) l ->
  log_fits (log ++ [record_of ds (t, row_of (length ds) l)]) ->
  exists w1 w2 w3, Writer.beginRow w id t = Some (w1, okStatus) /\ set_list w1 id l = Some w2
    /\ Writer.finishRow w2 id = Some (w3, okStatus)
    /\ logged w3 id ds (log ++ [record_of ds (t, row_of (length ds) l)]) /\ only id w w3.
Proof.
  intros Hlog Ht Hr Hnd Hl Hfit.
  destruct (getOrCreateBuilder_logged _ _ _ _ Hlog) as (w1 & b & rows & Hget & Hb1 & Hb & Htab & Hlog1 & Honly & dn & Hdn).
  pose proof (row_table_ok ds log dn rows t l (lg_paths _ _ _ _ Hlog) (lg_sorted _ _ _ _ Hlog) Hdn Htab Ht Hr Hnd Hl Hfit) as Hok.
  destruct (append_list_built b ds rows t l Hb Hok Hnd) as (b2 & b3 & H2 & H3 & Hb3 & Hlast).
  { eapply Forall_impl; [exact Hl|]. intros p (d & Hd & _). by eapply lookup_lt_Some. }
  destruct (begin_row_built b ds rows t Hb Hlast) as (Hbegin & _).
  destruct (lg_rows _ _ _ _ Hlog) as (s0 & _ & _ & Hs0 & _).
  exists (Writer.put_builder w1 id (Builder.with_row b true t t)), (Writer.put_builder w1 id b2).
  assert (Hlog3 : logged (Writer.put_builder w1 id b3) id ds (log ++ [record_of ds (t, row_of (length ds) l)])).
  { destruct Hlog1 as [(s & dn' & cur & Hs & Hld & Hl' & Hst & Hbu) Hd Hn Ho]. unfold building in Hbu. rewrite Hb1 in Hbu.
    destruct Hbu as (rows' & Hb' & _ & ->). assert (dn' = dn /\ map (record_of ds) rows' = map (record_of ds) rows) as [-> _].
    { rewrite Hl' in Hdn. apply app_inj_2 in Hdn; [done|]. rewrite !length_map. apply Nat2Z.inj.
      rewrite <- (bl_rows _ _ _ Hb'), <- (bl_rows _ _ _ Hb). done. }
    split; [|done|done|].
    - exists s, dn, (map (record_of ds) (rows ++ [(t, row_of (length ds) l)])). rewrite Hdn, map_app, app_assoc. split_and!; try done.
      unfold building. cbn. rewrite lookup_insert_eq. exists (rows ++ [(t, row_of (length ds) l)]). by rewrite map_app.
    - rewrite map_app. apply sorted_snoc; [done|]. intros y Hy. cbn. unfold last_time in Ht. by rewrite Hy in Ht. }
  assert (Honly3 : only id w (Writer.put_builder w1 id b3)) by (etrans; [exact Honly|apply only_put_builder]).
  assert (Hfin : exists w3, (if Builder.isFull b3 then Writer.autoSeal (Writer.put_builder w1 id b3) id else Some (Writer.put_builder w1 id b3)) = Some w3
    /\ logged w3 id ds (log ++ [record_of ds (t, row_of (length ds) l)]) /\ only id w w3).
  { destruct (Builder.isFull b3); [|by eexists].
    destruct (autoSeal_logged _ _ _ _ b3 Hlog3) as (w3 & Hs3 & Hl3 & Ho3).
    - cbn. by rewrite lookup_insert_eq.
    - unfold Builder.rowCount. rewrite (bl_rows _ _ _ Hb3), length_app. cbn. lia.
    - exists w3. split_and!; [done|done|by etrans]. }
  destruct Hfin as (w3 & Hw3 & Hl3 & Ho3). exists w3. split_and!; [| | |done|done].
  - unfold Writer.beginRow, Engine.getTopicStorage. rewrite Hs0, Hget. cbn [mbind option_bind].
    by rewrite (bl_last _ _ _ Hb), (proj2 (Z.ltb_ge _ _) Hlast), andb_false_r, Hbegin.
  - by apply set_list_builder.
  - unfold Writer.finishRow. cbn [builders Writer.put_builder Writer.with_builders]. rewrite lookup_insert_eq, H3.
    cbn [mbind option_bind]. rewrite put_builder_twice, Hw3. done.
Qed.

(** *** Growing the layout *)

(** A call that changes the topic [id] only, its storage included. *)
Record beside (id : Z) (w w' : DataWriter) : Prop := {
  bs_engine : engine w' = Engine.with_topics (engine w) (topics (engine w'));
  bs_topics : forall i, i <> id -> topics (engine w') !! i = topics (engine w) !! i;
  bs_builders : forall i, i <> id -> builders w' !! i = builders w !! i;
  bs_pending : forall i, i <> id -> pending_chunks w' !! i = pending_chunks w !! i;
  bs_columns : forall i, i <> id -> topic_columns w' !! i = topic_columns w !! i
}.

#[export] Instance beside_preorder id : PreOrder (beside id).
Proof.
  split; [intros w; split; try done; by destruct (engine w)|]. intros a b c [E1 T1 B1 P1 C1] [E2 T2 B2 P2 C2].
  split; [by rewrite E2, E1|..]; intros i Hi; by rewrite ?T2, ?B2, ?P2, ?C2, ?T1, ?B1, ?P1, ?C1.
Qed.

Lemma only_beside id w w' : only id w w' -> beside id w w'.
Proof. intros [He Hb Hp Hc]. split; rewrite ?He; try done. by destruct (engine w). Qed.

Lemma beside_logged id i w w' ds log : beside id w w' -> i <> id -> logged w i ds log -> logged w' i ds log.
Proof.
  intros [He Ht Hb Hp Hc] Hne [(s & dn & cur & Hs & Hl & Hlog & Hst & Hbu) Hd Hn Ho]. split; [|done..].
  exists s, dn, cur. unfold building, Writer.loaded_columns in *. rewrite Ht, Hb, Hp, Hc by done. rewrite He. by split_and!.
Qed.

Lemma sealBeforeLayoutChange_logged w id ds log s : logged w id ds log -> topics (engine w) !! id = Some s ->
  exists w', Writer.sealBeforeLayoutChange w id = Some w' /\ builders w' !! id = None
    /\ stored ds (sealed_chunks_ s ++ default [] (pending_chunks w' !! id)) log
    /\ only id w w' /\ topic_columns w' = topic_columns w.
Proof.
  intros [(s' & dn & cur & Hs' & Hl & -> & Hst & Hbu) Hd Hn Ho] Hs. replace s' with s in * by congruence. clear Hs'. unfold Writer.sealBeforeLayoutChange, building in *.
  destruct (builders w !! id) as [b|] eqn:Eb; [|exists w; subst cur; by rewrite app_nil_r].
  destruct Hbu as (rows & Hb & Ht & ->).
  destruct (Z.ltb_spec 0 (Builder.rowCount b)) as [Hpos|Hpos]; unfold Builder.rowCount in Hpos; rewrite (bl_rows _ _ _ Hb) in Hpos.
  - destruct (seal_records b ds rows (next_chunk_id_ w) Hb Ht) as (chunk & Hseal & Hch); [by intros ->|done|].
    unfold Writer.sealed. rewrite Hseal. cbn [mbind option_bind]. eexists. split; [done|]. cbn.
    rewrite lookup_insert_eq, lookup_delete_eq. split_and!; [done| | |done].
    + cbn. unfold Datatypes.id. rewrite app_assoc. by apply stored_snoc.
    + split; cbn; try done; intros i Hi; by rewrite ?lookup_insert_ne, ?lookup_delete_ne.
  - cbn [mbind option_bind]. eexists. split; [done|]. cbn. rewrite lookup_delete_eq. split_and!; [done| | |done].
    + destruct rows; [by rewrite app_nil_r|cbn in Hpos; lia].
    + split; cbn; try done; intros i Hi. by rewrite lookup_delete_ne.
Qed.

(** [loaded_columns] depends on few things; growing the columns stores them. *)
Lemma ensureColsLoaded_logged w id ds log s : logged w id ds log -> topics (engine w) !! id = Some s ->
  Writer.ensureColsLoaded w id s = Some (Writer.put_columns w id ds) /\ logged (Writer.put_columns w id ds) id ds log
  /\ only id w (Writer.put_columns w id ds).
Proof.
  intros [(s' & dn & cur & Hs' & Hl & -> & Hst & Hbu) Hd Hn Ho] Hs. replace s' with s in * by congruence. clear Hs'. unfold Writer.ensureColsLoaded. rewrite Hl.
  split_and!; [done| |].
  - split; [|done..]. exists s, dn, cur. split_and!; [done|by apply (loaded_columns_put w)|done..].
  - split; cbn; try done; intros i Hi. by rewrite lookup_insert_ne.
Qed.

Lemma logged_not_in_progress w id ds log : logged w id ds log -> Writer.row_in_progress w id = false.
Proof.
  intros [(s & dn & cur & _ & _ & _ & _ & Hbu) _ _ _]. unfold Writer.row_in_progress, building in *.
  destruct (builders w !! id) as [b|]; [|done]. destruct Hbu as (rows & Hb & _). apply Hb.
Qed.

Lemma find_column_Some ds path col : Writer.find_column ds path = Some col -> exists j, ds !! j = Some col /\ field_path col = path.
Proof.
  induction ds as [|d ds IH]; [done|]. cbn. case_decide as Hp; [intros [= <-]; by exists 0%nat|].
  intros H. destruct (IH H) as (j & Hj & ?). by exists (S j).
Qed.

Lemma find_column_None ds path : Writer.find_column ds path = None <-> path ∉ map field_path ds.
Proof.
  induction ds as [|d ds IH]; [split; [intros _; apply not_elem_of_nil|done]|]. cbn [Writer.find_column map]. rewrite not_elem_of_cons.
  case_decide as Hp; [subst; split; [done|by intros []]|]. rewrite IH. split; [intros ?; by split|by intros []].
Qed.

Lemma find_column_at ds path j d : NoDup (map field_path ds) -> ds !! j = Some d -> field_path d = path ->
  Writer.find_column ds path = Some d.
Proof.
  intros Hnd Hj Hp. destruct (Writer.find_column ds path) as [d'|] eqn:E.
  - apply find_column_Some in E as (i & Hi & Hp'). assert (i = j) as ->; [|congruence].
    eapply (NoDup_lookup (map field_path ds)); [done| |]; rewrite list_lookup_fmap; [by rewrite Hi|]. rewrite Hj. cbn. by rewrite Hp, Hp'.
  - apply find_column_None in E. destruct E. apply list_elem_of_lookup. exists j. rewrite list_lookup_fmap, Hj. cbn. by rewrite Hp.
Qed.

(** [ensureColumn] keeps the log, whatever it answers. *)
Lemma ensureColumn_logged w id ds log path type : logged w id ds log -> Z.of_nat (length ds) < 2 ^ 32 ->
  exists w' r, Writer.ensureColumn w id path type = Some (w', r) /\ beside id w w' /\
  match Writer.find_column ds path with
  | Some col => logged w' id ds log /\ engine w' = engine w
      /\ if decide (logical_type col = type) then r = Ok (field_id col) else exists e, r = Err e /\ e <> ""
  | None => r = Ok (Z.of_nat (length ds)) /\ logged w' id (ds ++ [mkColumnDescriptor (Z.of_nat (length ds)) type path]) log
      /\ exists s, topics (engine w) !! id = Some s /\ topics (engine w') !! id
           = Some (Storage.setColumnDescriptors s (ds ++ [mkColumnDescriptor (Z.of_nat (length ds)) type path]))
  end.
Proof.
  intros Hlog Hlen. destruct (lg_rows _ _ _ _ Hlog) as (s & dn & cur & Hs & Hload & _).
  unfold Writer.ensureColumn, Engine.getTopicStorage. rewrite Hs.
  destruct (ensureColsLoaded_logged w id ds log s Hlog Hs) as (-> & Hlog1 & Honly1). cbn [mbind option_bind].
  assert (Hcols : topic_columns (Writer.put_columns w id ds) !! id = Some ds) by (cbn; apply lookup_insert_eq).
  rewrite Hcols. change (default [] (Some ds)) with ds. cbv zeta. destruct (Writer.find_column ds path) as [col|] eqn:Ef.
  { destruct (decide (logical_type col = type)); eexists _, _; (split; [done|]); (split; [by apply only_beside|]);
      (split_and!; [done|done|]); [done|]. eexists. by split. }
  rewrite (logged_not_in_progress _ _ _ _ Hlog1).
  destruct (sealBeforeLayoutChange_logged _ _ _ _ s Hlog1 Hs) as (w1 & -> & Hb & Hst & Honly2 & Hc). cbn [mbind option_bind].
  rewrite (dense_ids_ok ds) by (done || apply Hlog). rewrite wrapU_small by (split; lia). eexists _, _. split; [done|].
  set (new := mkColumnDescriptor (Z.of_nat (length ds)) type path). set (cols := ds ++ [new]).
  assert (Honly : only id w w1) by by etrans. destruct Honly as [He Hbo Hpo Hco]. split; [|split_and!; [done| |]].
  - split; cbn; rewrite ?He; try done; intros i Hi; rewrite lookup_insert_ne by done; [done|by apply Hco].
  - split; [|apply dense_app; [apply Hlog|]; intros [|i] d Hi; simplify_eq/=; lia| |apply Hlog].
    + eexists _, log, []. cbn. rewrite lookup_insert_eq, app_nil_r. split_and!; [done| |done|by apply stored_mono|by unfold building; cbn; rewrite Hb].
      apply (loaded_after w _ id s); cbn; try done; [by rewrite He|by rewrite lookup_insert_eq].
    + unfold cols. rewrite map_app. apply NoDup_app. split_and!; [apply Hlog| |apply NoDup_singleton].
      intros p Hp Hq. apply list_elem_of_singleton in Hq. subst. by apply find_column_None in Ef.
  - exists s. split; [done|]. cbn. by rewrite lookup_insert_eq.
Qed.

(** *** Flushing *)

(** Every topic of the engine has its log; the writer holds nothing else. *)
Record all_logged (w : DataWriter) (ds : Z -> list ColumnDescriptor) (logs : Z -> list LogRecord) : Prop := {
  al_topics : forall id s, topics (engine w) !! id = Some s -> logged w id (ds id) (logs id);
  al_none : forall id, topics (engine w) !! id = None -> builders w !! id = None /\ pending_chunks w !! id = None
}.

(** What is in the writer before a flush is in the storages after it. *)
Record all_stored (w w' : DataWriter) (ds : Z -> list ColumnDescriptor) (logs : Z -> list LogRecord) : Prop := {
  as_logged : all_logged w' ds logs;
  as_pending : pending_chunks w' = ∅;
  as_builders : forall id b, builders w' !! id = Some b -> ~ 0 < Builder.rowCount b;
  as_engine : engine w' = Engine.with_topics (engine w) (topics (engine w'));
  as_topics : forall id, topics (engine w) !! id = None -> topics (engine w') !! id = None;
  as_chunks : forall id s, topics (engine w) !! id = Some s -> exists cs,
    topics (engine w') !! id = Some (Storage.with_chunks s (sealed_chunks_ s ++ cs)) /\ stored (ds id) (sealed_chunks_ s ++ cs) (logs id);
  as_columns : topic_columns w' = topic_columns w
}.

Lemma loaded_more_chunks w w' id s ds cs log : Writer.loaded_columns w id s = Some ds -> stored ds (sealed_chunks_ s ++ cs) log ->
  topic_columns w' = topic_columns w -> engine w' = Engine.with_topics (engine w) (topics (engine w')) ->
  Writer.loaded_columns w' id (Storage.with_chunks s (sealed_chunks_ s ++ cs)) = Some ds.
Proof.
  unfold Writer.loaded_columns. intros Hl Hst -> ->. cbn [type_registry Engine.with_topics]. cbv zeta in *.
  set (cols := default [] (topic_columns w !! id)) in *. destruct (bool_decide_reflect (cols = [])) as [Hc|]; [|done].
  rewrite Hc in *. cbn [negb] in *. change (ts_column_descriptors_ (Storage.with_chunks s _)) with (ts_column_descriptors_ s).
  destruct (negb _); [done|]. change (descriptor_ (Storage.with_chunks s _)) with (descriptor_ s).
  destruct (Registry.lookup _ _); [done|]. cbn [sealed_chunks_ Storage.with_chunks].
  destruct (sealed_chunks_ s) as [|c rest]; [|done]. destruct cs as [|c cs]; [done|]. injection Hl as <-.
  destruct Hst as (groups & _ & H). inversion H as [|? g ? ? Hg _]; subst. pose proof (cr_layout _ _ _ Hg) as Hp.
  apply prefix_nil_inv in Hp. cbn. by rewrite Hp.
Qed.

(** A commit of what the storages lack. *)
Lemma commit_logged w w1 ds logs chunks : all_logged w ds logs ->
  engine w1 = engine w -> pending_chunks w1 = ∅ -> topic_columns w1 = topic_columns w ->
  (forall id b, builders w1 !! id = Some b -> builders w !! id = Some b /\ ~ 0 < Builder.rowCount b) ->
  (forall id s, topics (engine w) !! id = Some s -> stored (ds id) (sealed_chunks_ s ++ chunks_of id chunks) (logs id)) ->
  all_stored w (Writer.with_engine w1 (Engine.commitChunks (engine w1) chunks).1) ds logs.
Proof.
  intros [Hall Hnone] He Hp Hcol Hl Hchunks. rewrite He. unfold Engine.commitChunks. pose proof (commit_loop_spec chunks (engine w) []) as Hspec.
  destruct (Engine.commit_loop (engine w) chunks []) as [e' changed]. destruct Hspec as (He' & Htop & _).
  assert (Happ : forall id s, topics (engine w) !! id = Some s ->
    topics e' !! id = Some (Storage.with_chunks s (sealed_chunks_ s ++ chunks_of id chunks))).
  { intros id s Hs. rewrite Htop, Hs. cbn. f_equal. apply append_all_in_order. eapply stored_deque; [by apply Hchunks|].
    by eapply lg_sorted, Hall. }
  split; cbn; try done.
  - split; cbn.
    + intros id s' Hs'. assert (Hs : is_Some (topics (engine w) !! id)) by (apply fmap_is_Some with (f := append_all id chunks); rewrite <- Htop; eauto).
      destruct Hs as [s Hs]. rewrite (Happ id s Hs) in Hs'. injection Hs' as <-.
      destruct (Hall id s Hs) as [(s0 & dn & cur & Hs0 & Hld & _ & _ & Hbu) Hd Hn Ho]. replace s0 with s in * by congruence.
      split; [|done..]. eexists _, (logs id), []. split_and!; [by apply Happ| |by rewrite app_nil_r| |].
      * eapply (loaded_more_chunks w); [done|by apply Hchunks|done|done].
      * cbn. rewrite Hp, lookup_empty. cbn. rewrite app_nil_r. by apply Hchunks.
      * unfold building in *. cbn. destruct (builders w1 !! id) as [b|] eqn:Eb; [|done]. apply Hl in Eb as [Eb Hpos].
        rewrite Eb in Hbu. destruct Hbu as (rows & Hbuilt & Ht & ->). exists []. pose proof (no_rows _ _ _ Hbuilt Hpos). by subst.
    + intros id Hid. rewrite Hp, lookup_empty. split; [|done]. destruct (builders w1 !! id) as [b|] eqn:Eb; [|done].
      apply Hl in Eb as [Eb _]. rewrite Htop in Hid. apply fmap_None in Hid. destruct (Hnone id Hid). congruence.
  - intros id b Hb. by apply Hl in Hb as [_ ?].
  - intros id Hid. by rewrite Htop, Hid.
  - intros id s Hs. exists (chunks_of id chunks). split; [by apply Happ|by apply Hchunks].
Qed.

Lemma flush_logged iter (Hiter : forall A (m : gmap Z A), iter A m ≡ₚ map_to_list m) w ds logs :
  engine_ok (engine w) -> all_logged w ds logs ->
  exists w1 chunks, Writer.flushAll iter w = Some (w1, chunks) /\ engine w1 = engine w /\ Forall (fun p => chunk_wf p.2) chunks
    /\ all_stored w (Writer.with_engine w1 (Engine.commitChunks (engine w1) chunks).1) ds logs.
Proof.
  intros Hok [Hall Hnone].
  destruct (flushAll_spec iter Hiter (fun id b c => forall rows, built b (ds id) rows -> table_ok (ds id) rows ->
    chunk_records (ds id) c (map (record_of (ds id)) rows)) w) as (w1 & chunks & Hfl & He & Hp & Hcol & Hl & Hres).
  { intros id b next Hb Hpos. destruct (topics (engine w) !! id) as [s|] eqn:Es; [|destruct (Hnone id Es); congruence].
    destruct (Hall id s Es) as [(s' & dn & cur & _ & _ & _ & _ & Hbu) _ Hn _]. unfold building in Hbu. rewrite Hb in Hbu.
    destruct Hbu as (rows & Hbuilt & Ht & _).
    assert (Hne : forall rows, built b (ds id) rows -> rows <> []).
    { intros rows' Hb' ->. unfold Builder.rowCount in Hpos. by rewrite (bl_rows _ _ _ Hb') in Hpos. }
    destruct (seal_records b (ds id) rows next Hbuilt Ht (Hne _ Hbuilt) Hn) as (c & Hs & _). exists c. split; [done|].
    intros rows' Hb' Ht'. destruct (seal_records b (ds id) rows' next Hb' Ht' (Hne _ Hb') Hn) as (c' & Hs' & Hc').
    by replace c with c' by congruence. }
  assert (Hchunks : forall id s, topics (engine w) !! id = Some s -> stored (ds id) (sealed_chunks_ s ++ chunks_of id chunks) (logs id)).
  { intros id s Hs. destruct (Hall id s Hs) as [(s' & dn & cur & Hs' & _ & Hlog & Hst & Hbu) _ _ _]. replace s' with s in * by congruence.
    destruct (Hres id) as (new & -> & Hnew). unfold building in Hbu. rewrite app_assoc, Hlog.
    destruct (builders w !! id) as [b|]; [|by subst; rewrite !app_nil_r]. destruct Hbu as (rows & Hbuilt & Ht & ->).
    case_decide; [|by rewrite Hnew, (no_rows _ _ _ Hbuilt), !app_nil_r].
    destruct Hnew as (c & -> & HQ). apply stored_snoc; [done|]. by apply HQ. }
  assert (Hempty : forall id, topics (engine w) !! id = None -> chunks_of id chunks = []).
  { intros id Hid. destruct (Hres id) as (new & -> & Hnew). destruct (Hnone id Hid) as [Hb ->]. rewrite Hb in Hnew. by subst. }
  exists w1, chunks. split_and!; [done|done| |].
  - apply Forall_forall. intros [id c] Hc%chunks_of_elem. cbn. destruct (topics (engine w) !! id) as [s|] eqn:Es.
    + destruct (stored_split _ _ _ _ (Hchunks id s Es)) as (_ & l & _ & _ & groups & _ & HF).
      apply list_elem_of_lookup in Hc as [k Hk]. destruct (Forall2_lookup_l _ _ _ _ _ HF Hk) as (g & _ & Hg). apply Hg.
    + rewrite Hempty in Hc by done. by apply not_elem_of_nil in Hc.
  - by apply commit_logged.
Qed.
