(* ===== verification/Host.v ===== *)
(** * Host: the engine as plugins see it

    Models the write side of [src/pj_datastore/src/plugin_data_host.cpp]: the
    state [WriteCore] keeps for a plugin (its writer, the last error, the caches
    of topics, fields and field types), the catalog snapshot of a toolbox, and
    the callbacks of the source, parser and toolbox tables.  The reference
    [engine_] is the engine of the writer.  A call returns [None] for what is
    undefined in C++; within, [None] is the code's [false], with the reason in
    [last_error_]. *)

From Stdlib Require Import Strings.Ascii Strings.Byte.
From S2P Require Import Prelude Types TypeTree TypeRegistry Float64 Buffer Encoding Column Chunk Query TopicStorage Engine Writer.

(** ** Data of the C interface *)

(** A view: the array behind [data], if not null, and the length. *)
Record PJ_string_view_t := mkView { sv_data : option string; sv_size : Z }.

(** The union of a scalar, by the member that was written; floats are their bits. *)
Inductive PJ_scalar_value_data_t :=
| as_float32 (bits : Z) | as_float64 (bits : Z)
| as_int8 (z : Z) | as_int16 (z : Z) | as_int32 (z : Z) | as_int64 (z : Z)
| as_uint8 (z : Z) | as_uint16 (z : Z) | as_uint32 (z : Z) | as_uint64 (z : Z)
| as_bool (z : Z) | as_string (s : PJ_string_view_t).

(** [sc_type] is the number of a [PJ_primitive_type_t]. *)
Record PJ_scalar_value_t := mkScalar { sc_type : Z; sc_data : PJ_scalar_value_data_t }.

Record PJ_field_handle_t := mkFieldHandle { fh_topic : Z; fh_id : Z }.

Record PJ_named_field_value_t := mkNamedField { nf_name : PJ_string_view_t; nf_is_null : bool; nf_value : PJ_scalar_value_t }.
Record PJ_bound_field_value_t := mkBoundField { bf_field : PJ_field_handle_t; bf_is_null : bool; bf_value : PJ_scalar_value_t }.

Record PJ_data_source_info_t := mkSourceInfo { si_handle : Z; si_name : string; first_topic : Z; topic_count : Z }.
Record PJ_topic_info_t := mkTopicInfo { ti_handle : Z; ti_source : Z; ti_name : string; first_field : Z; field_count : Z }.
Record PJ_field_info_t := mkFieldInfo { fi_handle : PJ_field_handle_t; fi_name : string; fi_type : PrimitiveType }.
Record CatalogSnapshot := mkSnapshot {
  cs_data_sources : list PJ_data_source_info_t; cs_topics : list PJ_topic_info_t; cs_fields : list PJ_field_info_t }.

(** The message buffers of a [PJ_error_t] hold 32 and 224 characters. *)
Record PJ_error_t := mkError { er_code : Z; er_domain : string; er_message : string }.

(** The empty literal behind a null pointer is an array of one character, its end. *)
Definition toStringView (view : PJ_string_view_t) : option string :=
  let buffer := default (String Ascii.zero "") (sv_data view) in
  if decide (Z.to_nat (sv_size view) <= String.length buffer)%nat
  then Some (String.substring 0 (Z.to_nat (sv_size view)) buffer) else None.

Definition primitive_types : list PrimitiveType :=
  [kFloat32; kFloat64; kInt8; kInt16; kInt32; kInt64; kUint8; kUint16; kUint32; kUint64; kBool; kString].

Definition fromAbiType (type : Z) : Expected PrimitiveType :=
  let raw := u32 type in
  match primitive_types !! Z.to_nat raw with
  | Some t => Ok t
  | None => Err ("unsupported primitive type value " +:+ pretty raw)
  end.

(** [static_cast<PJ_primitive_type_t>] *)
Definition toAbiType (type : PrimitiveType) : Z :=
  match type with
  | kFloat32 => 0 | kFloat64 => 1 | kInt8 => 2 | kInt16 => 3 | kInt32 => 4 | kInt64 => 5
  | kUint8 => 6 | kUint16 => 7 | kUint32 => 8 | kUint64 => 9 | kBool => 10 | kString => 11 | kUnspecified => 255
  end.

(** ** The columns of a topic, as the host lists them *)

Module HostColumns.

(** Arrays have no column here. *)
Fixpoint flattenColumnsImpl (node : TypeTreeNode) (prefix : string) : list WriterColumns.Leaf :=
  let path := join_path prefix (node_name node) in
  match node_kind node with
  | kPrimitive => [(path, default kFloat64 (primitive_type node))]
  | kEnum => [(path, default kInt32 (primitive_type node))]
  | kStruct => flat_map (fun child => flattenColumnsImpl child path) (children node)
  | kArray => []
  end.

Definition buildSchemaColumns (root : TypeTreeNode) : list ColumnDescriptor :=
  WriterColumns.number_from 0
    match node_kind root with
    | kStruct => flat_map (fun child => flattenColumnsImpl child "") (children root)
    | _ => flattenColumnsImpl root ""
    end.

Definition effectiveColumns (e : DataEngine) (s : TopicStorage) : list ColumnDescriptor :=
  if negb (bool_decide (ts_column_descriptors_ s = [])) then ts_column_descriptors_ s
  else
    match Registry.lookup (type_registry e) (schema_id (descriptor_ s)) with
    | Some tree => buildSchemaColumns tree
    | None => match sealed_chunks_ s with chunk :: _ => map col_descriptor (columns chunk) | [] => [] end
    end.

Fixpoint findFieldDescriptor (columns : list ColumnDescriptor) (id : Z) : option ColumnDescriptor :=
  match columns with
  | [] => None
  | col :: rest => if field_id col =? id then Some col else findFieldDescriptor rest id
  end.

End HostColumns.
Import HostColumns.

(** ** The state of a plugin's writes *)

Record WriteCore := mkCore {
  writer_ : DataWriter;
  last_error_ : string;
  topic_cache_ : gmap (Z * string) Z;
  field_cache_ : gmap (Z * string) PJ_field_handle_t;
  field_types_ : gmap (Z * Z) PrimitiveType
}.

(** [ResolvedField]: the column, the type, whether the value is null, the value. *)
Record ResolvedField := mkResolved { rf_id : Z; rf_type : PrimitiveType; rf_is_null : bool; rf_value : PJ_scalar_value_t }.

Module Host.

Definition make (e : DataEngine) (next_chunk_id : Z) : WriteCore := mkCore (Writer.make e next_chunk_id) "" ∅ ∅ ∅.

Definition engine_ (c : WriteCore) : DataEngine := engine (writer_ c).

(** *** Assignments to members *)

Definition with_writer (c : WriteCore) (w : DataWriter) : WriteCore :=
  mkCore w (last_error_ c) (topic_cache_ c) (field_cache_ c) (field_types_ c).
Definition setError (c : WriteCore) (message : string) : WriteCore :=
  mkCore (writer_ c) message (topic_cache_ c) (field_cache_ c) (field_types_ c).
Definition with_topic_cache (c : WriteCore) (m : gmap (Z * string) Z) : WriteCore :=
  mkCore (writer_ c) (last_error_ c) m (field_cache_ c) (field_types_ c).
Definition with_field_cache (c : WriteCore) (m : gmap (Z * string) PJ_field_handle_t) : WriteCore :=
  mkCore (writer_ c) (last_error_ c) (topic_cache_ c) m (field_types_ c).
Definition with_field_types (c : WriteCore) (m : gmap (Z * Z) PrimitiveType) : WriteCore :=
  mkCore (writer_ c) (last_error_ c) (topic_cache_ c) (field_cache_ c) m.

(** [setError(m); return false;] and [last_error_.clear(); return true;] *)
Definition fail {A} (c : WriteCore) (message : string) : WriteCore * option A := (setError c message, None).
Definition succeed {A} (c : WriteCore) (a : A) : WriteCore * option A := (setError c "", Some a).

Definition lastError (c : WriteCore) : option string :=
  if decide (last_error_ c = "") then None else Some (last_error_ c).

Definition topic_not_found (id : Z) : string := "topic " +:+ pretty id +:+ " not found".

(** *** Data sources and topics *)

Definition createDataSource (c : WriteCore) (name : string) : WriteCore * option Z :=
  let '(e, id) := Engine.createDataset (engine_ c) (mkDatasetDescriptor name 0) in
  let c := with_writer c (Writer.with_engine (writer_ c) e) in
  match id with
  | Err err => fail c err
  | Ok id => succeed c id
  end.

(** The first of [ids] that is a topic called [topic_name]. *)
Fixpoint find_topic (e : DataEngine) (ids : list Z) (topic_name : string) : option Z :=
  match ids with
  | [] => None
  | id :: rest =>
      match Engine.getTopicStorage e id with
      | Some s => if decide (name (descriptor_ s) = topic_name) then Some id else find_topic e rest topic_name
      | None => find_topic e rest topic_name
      end
  end.

(** [topic_cache_.emplace]: the key was not there. *)
Definition remember_topic (c : WriteCore) (source : Z) (topic_name : string) (id : Z) : WriteCore :=
  with_topic_cache c (<[(source, topic_name) := id]> (topic_cache_ c)).

Definition ensureTopic (c : WriteCore) (source : Z) (topic_name : string) : WriteCore * option Z :=
  match Engine.getDataset (engine_ c) source with
  | None => fail c ("data source " +:+ pretty source +:+ " not found")
  | Some _ =>
      match topic_cache_ c !! (source, topic_name) with
      | Some id => succeed c id
      | None =>
          match find_topic (engine_ c) (merge_sort Z.le (Engine.listTopics (engine_ c) source)) topic_name with
          | Some id => succeed (remember_topic c source topic_name id) id
          | None =>
              let '(w, id) := Writer.registerTopic (writer_ c) source (mkTopicDescriptor topic_name 0 0 1024 64) in
              let c := with_writer c w in
              match id with
              | Err err => fail c err
              | Ok id => succeed (remember_topic c source topic_name id) id
              end
          end
      end
  end.

(** *** Fields *)

(** It leaves the error message alone when it succeeds. *)
Definition lookupFieldType (c : WriteCore) (topic id : Z) : WriteCore * option PrimitiveType :=
  match field_types_ c !! (topic, id) with
  | Some type => (c, Some type)
  | None =>
      match Engine.getTopicStorage (engine_ c) topic with
      | None => fail c (topic_not_found topic)
      | Some s =>
          match findFieldDescriptor (effectiveColumns (engine_ c) s) id with
          | None => fail c ("field " +:+ pretty id +:+ " not found in topic " +:+ pretty topic)
          | Some desc =>
              let c := with_field_types c (<[(topic, id) := logical_type desc]> (field_types_ c)) in
              let c := with_field_cache c (<[(topic, field_path desc) := mkFieldHandle topic id]> (field_cache_ c)) in
              (c, Some (logical_type desc))
          end
      end
  end.

Definition ensureField (c : WriteCore) (topic : Z) (field_name : string) (abi_type : Z)
  : option (WriteCore * option PJ_field_handle_t) :=
  match Engine.getTopicStorage (engine_ c) topic with
  | None => Some (fail c (topic_not_found topic))
  | Some _ =>
      match fromAbiType abi_type with
      | Err e => Some (fail c e)
      | Ok type =>
          match field_cache_ c !! (topic, field_name) with
          | Some handle =>
              let '(c, existing) := lookupFieldType c topic (fh_id handle) in
              match existing with
              | None => Some (c, None)
              | Some existing =>
                  if decide (existing = type) then Some (succeed c handle)
                  else Some (fail c ("field '" +:+ field_name +:+ "' already exists with a different type"))
              end
          | None =>
              '(w, id) ← Writer.ensureColumn (writer_ c) topic field_name type;
              let c := with_writer c w in
              match id with
              | Err e => Some (fail c e)
              | Ok id =>
                  let handle := mkFieldHandle topic id in
                  let c := with_field_cache c (<[(topic, field_name) := handle]> (field_cache_ c)) in
                  let c := with_field_types c (<[(topic, id) := type]> (field_types_ c)) in
                  Some (succeed c handle)
              end
          end
      end
  end.

(** The error of [validateScalar], if any. *)
Definition validateScalar (value : PJ_scalar_value_t) (expected : PrimitiveType) (where_ : string) : Status :=
  match fromAbiType (sc_type value) with
  | Err e => Err e
  | Ok actual => if decide (actual = expected) then okStatus else Err (where_ +:+ ": scalar type mismatch")
  end.

(** The argument of the overload of [set] that is called; reading a member of
    the union that was not written is undefined. *)
Definition field_value (type : PrimitiveType) (data : PJ_scalar_value_data_t) : option Value :=
  match type, data with
  | kFloat32, as_float32 bits => Some (VFloat32 bits)
  | kFloat64, as_float64 bits => Some (VFloat64 bits)
  | kInt32, as_int32 z => Some (VInt32 z)
  | kInt8, as_int8 z | kInt16, as_int16 z | kInt64, as_int64 z => Some (VInt64 z)
  | kUint8, as_uint8 z | kUint16, as_uint16 z | kUint32, as_uint32 z | kUint64, as_uint64 z => Some (VUint64 z)
  | kBool, as_bool z => Some (VBool (negb (z =? 0)))
  | kString, as_string view => s ← toStringView view; Some (VString (String.list_byte_of_string s))
  | _, _ => None
  end.

Definition setFieldValue (w : DataWriter) (topic : Z) (col_index : nat) (type : PrimitiveType) (value : PJ_scalar_value_t)
  : option DataWriter :=
  match type with
  | kUnspecified => Some w
  | _ => v ← field_value type (sc_data value); Writer.set w topic col_index v
  end.

(** *** Records *)

(** One field of [appendRecord]: [Some None] is a field that is skipped. *)
Definition resolve_field (c : WriteCore) (topic : Z) (name : string) (field : PJ_named_field_value_t)
  : option (WriteCore * option (option ResolvedField)) :=
  let value := nf_value field in
  if nf_is_null field then
    match field_cache_ c !! (topic, name) with
    | None =>
        match fromAbiType (sc_type value) with
        | Err _ => Some (c, Some None)
        | Ok type =>
            '(c, handle) ← ensureField c topic name (sc_type value);
            Some (c, match handle with Some h => Some (Some (mkResolved (fh_id h) type true value)) | None => None end)
        end
    | Some handle =>
        let '(c, existing) := lookupFieldType c topic (fh_id handle) in
        Some (c, match existing with Some type => Some (Some (mkResolved (fh_id handle) type true value)) | None => None end)
    end
  else
    match fromAbiType (sc_type value) with
    | Err e => Some (fail c e)
    | Ok type =>
        '(c, handle) ← ensureField c topic name (sc_type value);
        match handle with
        | None => Some (c, None)
        | Some h =>
            match validateScalar value type "appendRecord" with
            | Err e => Some (fail c e)
            | Ok _ => Some (c, Some (Some (mkResolved (fh_id h) type false value)))
            end
        end
    end.

Fixpoint resolve_named (c : WriteCore) (topic : Z) (fields : list PJ_named_field_value_t) (seen_names : gset string)
    (resolved : list ResolvedField) : option (WriteCore * option (list ResolvedField)) :=
  match fields with
  | [] => Some (c, Some resolved)
  | field :: rest =>
      name ← toStringView (nf_name field);
      if decide (name ∈ seen_names) then Some (fail c ("duplicate field name '" +:+ name +:+ "'"))
      else
        '(c, r) ← resolve_field c topic name field;
        match r with
        | None => Some (c, None)
        | Some r => resolve_named c topic rest ({[name]} ∪ seen_names) (resolved ++ option_list r)
        end
  end.

Definition write_field (w : DataWriter) (topic : Z) (field : ResolvedField) : option DataWriter :=
  if rf_is_null field then Writer.setNull w topic (Z.to_nat (rf_id field))
  else setFieldValue w topic (Z.to_nat (rf_id field)) (rf_type field) (rf_value field).

Fixpoint write_fields (w : DataWriter) (topic : Z) (fields : list ResolvedField) : option DataWriter :=
  match fields with
  | [] => Some w
  | field :: rest => w ← write_field w topic field; write_fields w topic rest
  end.

(** From [beginRow] on. *)
Definition write_record (c : WriteCore) (topic timestamp : Z) (resolved : list ResolvedField)
  : option (WriteCore * option unit) :=
  '(w, begin_status) ← Writer.beginRow (writer_ c) topic timestamp;
  match begin_status with
  | Err e => Some (fail (with_writer c w) e)
  | Ok _ =>
      w ← write_fields w topic resolved;
      '(w, finish_status) ← Writer.finishRow w topic;
      match finish_status with
      | Err e => Some (fail (with_writer c w) e)
      | Ok _ => Some (succeed (with_writer c w) tt)
      end
  end.

Definition appendRecord (c : WriteCore) (topic timestamp : Z) (fields : list PJ_named_field_value_t)
  : option (WriteCore * option unit) :=
  match Engine.getTopicStorage (engine_ c) topic with
  | None => Some (fail c (topic_not_found topic))
  | Some _ =>
      '(c, resolved) ← resolve_named c topic fields ∅ [];
      match resolved with
      | None => Some (c, None)
      | Some resolved => write_record c topic timestamp resolved
      end
  end.

Fixpoint resolve_bound (c : WriteCore) (topic : Z) (fields : list PJ_bound_field_value_t) (seen_ids : gset Z)
    (resolved : list ResolvedField) : WriteCore * option (list ResolvedField) :=
  match fields with
  | [] => (c, Some resolved)
  | field :: rest =>
      let id := fh_id (bf_field field) in
      if negb (fh_topic (bf_field field) =? topic) then fail c "field handle does not belong to the target topic"
      else if decide (id ∈ seen_ids) then fail c ("duplicate field id " +:+ pretty id)
      else
        let '(c, type) := lookupFieldType c topic id in
        match type with
        | None => (c, None)
        | Some type =>
            match (if bf_is_null field then okStatus else validateScalar (bf_value field) type "appendBoundRecord") with
            | Err e => fail c e
            | Ok _ => resolve_bound c topic rest ({[id]} ∪ seen_ids)
                        (resolved ++ [mkResolved id type (bf_is_null field) (bf_value field)])
            end
        end
  end.

Definition appendBoundRecord (c : WriteCore) (topic timestamp : Z) (fields : list PJ_bound_field_value_t)
  : option (WriteCore * option unit) :=
  match Engine.getTopicStorage (engine_ c) topic with
  | None => Some (fail c (topic_not_found topic))
  | Some _ =>
      let '(c, resolved) := resolve_bound c topic fields ∅ [] in
      match resolved with
      | None => Some (c, None)
      | Some resolved => write_record c topic timestamp resolved
      end
  end.

(** *** Flushing, and the catalog *)

Section Iteration.
Context (iter : forall A, gmap Z A -> list (Z * A)).

Definition flushPending (c : WriteCore) : option WriteCore :=
  '(w, flushed) ← Writer.flushAll iter (writer_ c);
  match flushed with
  | [] => Some (with_writer c w)
  | _ => Some (with_writer c (Writer.with_engine w (Engine.commitChunks (engine w) flushed).1))
  end.

(** [setTarget] of a source or parser host: what it leaves in the old engine,
    and the new state. *)
Definition setTarget (c : WriteCore) (target : DataEngine) : option (DataEngine * WriteCore) :=
  c ← flushPending c; Some (engine_ c, make target (next_chunk_id_ (writer_ c))).

Definition field_infos (topic : Z) (columns : list ColumnDescriptor) : list PJ_field_info_t :=
  map (fun col => mkFieldInfo (mkFieldHandle topic (field_id col)) (field_path col) (logical_type col)) columns.

Definition list_size {A} (l : list A) : Z := u32 (Z.of_nat (length l)).

(** The loop over the topics of a data source, the vectors so far. *)
Fixpoint list_topics (e : DataEngine) (source : Z) (ids : list Z) (topics : list PJ_topic_info_t) (fields : list PJ_field_info_t)
  : list PJ_topic_info_t * list PJ_field_info_t :=
  match ids with
  | [] => (topics, fields)
  | id :: rest =>
      match Engine.getTopicStorage e id with
      | None => list_topics e source rest topics fields
      | Some s =>
          let fields' := fields ++ field_infos id (effectiveColumns e s) in
          let info := mkTopicInfo id source (name (descriptor_ s)) (list_size fields) (u32 (list_size fields' - list_size fields)) in
          list_topics e source rest (topics ++ [info]) fields'
      end
  end.

Fixpoint list_sources (e : DataEngine) (ids : list Z) (snapshot : CatalogSnapshot) : CatalogSnapshot :=
  match ids with
  | [] => snapshot
  | id :: rest =>
      match Engine.getDataset e id with
      | None => list_sources e rest snapshot
      | Some dataset =>
          let '(topics, fields) := list_topics e id (merge_sort Z.le (Engine.listTopics e id)) (cs_topics snapshot) (cs_fields snapshot) in
          let first := list_size (cs_topics snapshot) in
          let info := mkSourceInfo id (source_name dataset) first (u32 (list_size topics - first)) in
          list_sources e rest (mkSnapshot (cs_data_sources snapshot ++ [info]) topics fields)
      end
  end.

Definition acquireCatalogSnapshot (c : WriteCore) : WriteCore * option CatalogSnapshot :=
  succeed c (list_sources (engine_ c) (merge_sort Z.le (Engine.listDatasets iter (engine_ c))) (mkSnapshot [] [] [])).

End Iteration.

(** *** The callbacks of the C tables *)

(** A null-terminated copy that is cut to the buffer. *)
Definition setErrorField (dest_size : nat) (src : string) : string := String.substring 0 (Nat.min (String.length src) (dest_size - 1)) src.

Definition fillError (code : Z) (domain message : string) : PJ_error_t :=
  mkError code (setErrorField 32 domain) (setErrorField 224 message).

Definition propagateError (msg : option string) : PJ_error_t := fillError 1 "datastore" (default "" msg).

(** The state, the value or [false], and what [out_error] was set to. *)
Definition callback {A} (result : WriteCore * option A) : WriteCore * option A * option PJ_error_t :=
  let '(c, r) := result in
  (c, r, match r with Some _ => None | None => Some (propagateError (lastError c)) end).

(** A source is bound to a data source, a parser to a topic; the toolbox names both. *)
Record SourceWriteHost := mkSourceHost { sh_core : WriteCore; sh_source : Z }.
Record ParserWriteHost := mkParserHost { ph_core : WriteCore; ph_topic : Z }.

Definition sourceEnsureTopic (h : SourceWriteHost) (topic_name : PJ_string_view_t) : option (WriteCore * option Z * option PJ_error_t) :=
  n ← toStringView topic_name; Some (callback (ensureTopic (sh_core h) (sh_source h) n)).
Definition sourceEnsureField (h : SourceWriteHost) (topic : Z) (field_name : PJ_string_view_t) (type : Z)
  : option (WriteCore * option PJ_field_handle_t * option PJ_error_t) :=
  n ← toStringView field_name; callback <$> ensureField (sh_core h) topic n type.
Definition sourceAppendRecord (h : SourceWriteHost) (topic timestamp : Z) (fields : list PJ_named_field_value_t)
  : option (WriteCore * option unit * option PJ_error_t) := callback <$> appendRecord (sh_core h) topic timestamp fields.
Definition sourceAppendBoundRecord (h : SourceWriteHost) (topic timestamp : Z) (fields : list PJ_bound_field_value_t)
  : option (WriteCore * option unit * option PJ_error_t) := callback <$> appendBoundRecord (sh_core h) topic timestamp fields.

Definition parserEnsureField (h : ParserWriteHost) (field_name : PJ_string_view_t) (type : Z)
  : option (WriteCore * option PJ_field_handle_t * option PJ_error_t) :=
  n ← toStringView field_name; callback <$> ensureField (ph_core h) (ph_topic h) n type.
Definition parserAppendRecord (h : ParserWriteHost) (timestamp : Z) (fields : list PJ_named_field_value_t)
  : option (WriteCore * option unit * option PJ_error_t) := callback <$> appendRecord (ph_core h) (ph_topic h) timestamp fields.
Definition parserAppendBoundRecord (h : ParserWriteHost) (timestamp : Z) (fields : list PJ_bound_field_value_t)
  : option (WriteCore * option unit * option PJ_error_t) := callback <$> appendBoundRecord (ph_core h) (ph_topic h) timestamp fields.

Definition toolboxCreateDataSource (c : WriteCore) (name : PJ_string_view_t) : option (WriteCore * option Z * option PJ_error_t) :=
  n ← toStringView name; Some (callback (createDataSource c n)).
Definition toolboxEnsureTopic (c : WriteCore) (source : Z) (topic_name : PJ_string_view_t) : option (WriteCore * option Z * option PJ_error_t) :=
  n ← toStringView topic_name; Some (callback (ensureTopic c source n)).
Definition toolboxEnsureField (c : WriteCore) (topic : Z) (field_name : PJ_string_view_t) (type : Z)
  : option (WriteCore * option PJ_field_handle_t * option PJ_error_t) := n ← toStringView field_name; callback <$> ensureField c topic n type.
Definition toolboxAppendRecord (c : WriteCore) (topic timestamp : Z) (fields : list PJ_named_field_value_t)
  : option (WriteCore * option unit * option PJ_error_t) := callback <$> appendRecord c topic timestamp fields.
Definition toolboxAppendBoundRecord (c : WriteCore) (topic timestamp : Z) (fields : list PJ_bound_field_value_t)
  : option (WriteCore * option unit * option PJ_error_t) := callback <$> appendBoundRecord c topic timestamp fields.

End Host.
