(* ===== verification/HostState.v ===== *)
(** * HostState: what a plugin's host keeps between calls

    The caches of [WriteCore] in [src/pj_datastore/src/plugin_data_host.cpp] say
    of every topic and field what the engine and the writer say: whatever calls
    a plugin makes, and whatever happens to the engine meanwhile as long as
    nobody else grows the layout of a topic. *)

From S2P Require Import Prelude Types TypeTree TypeRegistry Float64 Buffer Encoding Column Chunk Query TopicStorage Engine Writer Ingest Layout WriterState Records Host.
Import HostColumns.

(** ** Schemas the host and the writer flatten alike *)

(** No array of a fixed size, which the host leaves out, and no enumeration without a type. *)
Fixpoint plain (node : TypeTreeNode) : bool :=
  match node_kind node with
  | kPrimitive => true
  | kEnum => bool_decide (is_Some (primitive_type node))
  | kStruct => forallb plain (children node)
  | kArray => bool_decide (fixed_array_size node = None)
  end.

Lemma plain_columns node : plain node = true -> forall prefix,
  WriterColumns.flatten_columns_impl node prefix = Some (flattenColumnsImpl node prefix).
Proof.
  induction node as [[name kind tags pt cs e n m] Hcs _] using tree_ind_children. intros Hp prefix.
  destruct kind; cbn in *; [done| | |].
  - induction Hcs as [|c cs Hc _ IH]; [done|]. cbn in *. apply andb_true_iff in Hp as [Hp1 Hp2].
    by rewrite (Hc Hp1), (IH Hp2).
  - apply bool_decide_eq_true in Hp. by subst.
  - apply bool_decide_eq_true in Hp as [t ->]. done.
Qed.

Lemma plain_build root : plain root = true -> node_kind root <> kArray ->
  WriterColumns.buildColumnDescriptors root = Some (buildSchemaColumns root).
Proof.
  intros Hp Hk. unfold WriterColumns.buildColumnDescriptors, buildSchemaColumns, WriterColumns.build_leaves.
  pose proof (plain_columns root Hp) as Hroot. destruct root as [name kind tags pt cs e n m]. cbn in *. destruct kind; try done.
  - enough (flat_mapM (fun c => WriterColumns.flatten_columns_impl c "") cs = Some (flat_map (fun c => flattenColumnsImpl c "") cs)) as -> by done.
    induction cs as [|c cs IH]; [done|]. cbn in *. apply andb_true_iff in Hp as [Hp1 Hp2].
    rewrite (plain_columns c Hp1). cbn. rewrite IH; [done|done|]. intros prefix. specialize (Hroot prefix). cbn in Hroot.
    rewrite (plain_columns c Hp1) in Hroot. cbn in Hroot. apply bind_Some in Hroot as (zs & Hzs & Hroot).
    injection Hroot as Hroot. apply app_inv_head in Hroot. by rewrite Hzs, Hroot.
  - specialize (Hroot ""). cbn in Hroot. by injection Hroot as ->.
Qed.

(** ** The layout of a topic *)

Definition layout (e : DataEngine) (s : TopicStorage) : list ColumnDescriptor :=
  if negb (bool_decide (ts_column_descriptors_ s = [])) then ts_column_descriptors_ s
  else match Registry.lookup (type_registry e) (schema_id (descriptor_ s)) with
       | Some tree => buildSchemaColumns tree
       | None => []
       end.

(** The layout is not a matter of which chunks there are, and its ids and paths are its own. *)
Record settled (e : DataEngine) (s : TopicStorage) : Prop := {
  st_tree : forall tree, Registry.lookup (type_registry e) (schema_id (descriptor_ s)) = Some tree ->
    plain tree = true /\ node_kind tree <> kArray;
  st_chunks : layout e s = [] -> Forall (fun c => columns c = []) (sealed_chunks_ s);
  st_dense : dense (layout e s);
  st_paths : NoDup (map field_path (layout e s))
}.

Lemma effective_layout e s : settled e s -> effectiveColumns e s = layout e s.
Proof.
  intros [_ Hc _ _]. unfold effectiveColumns, layout in *. destruct (negb _) eqn:Eb; [done|].
  destruct (Registry.lookup _ _); [done|]. destruct (sealed_chunks_ s) as [|c cs]; [done|].
  specialize (Hc eq_refl). apply Forall_cons in Hc as [Hc _]. by rewrite Hc.
Qed.

(** The writer loads the same. *)
Lemma loaded_layout w id s : settled (engine w) s ->
  (forall cols, topic_columns w !! id = Some cols -> cols <> [] -> cols = layout (engine w) s) ->
  Writer.loaded_columns w id s = Some (layout (engine w) s).
Proof.
  intros [Ht Hc _ _] Hw. unfold Writer.loaded_columns, layout in *. cbv zeta.
  destruct (topic_columns w !! id) as [[|d cols]|] eqn:E; cbn [default bool_decide negb]; unfold Datatypes.id;
    [|rewrite bool_decide_eq_false_2 by done; cbn [negb]; by rewrite (Hw _ eq_refl)|].
  all: rewrite bool_decide_eq_true_2 by done; cbn [negb]; destruct (negb _) eqn:Eb; [done|].
  all: destruct (Registry.lookup _ _) as [tree|]; [by destruct (Ht tree eq_refl) as [? ?]; apply plain_build|].
  all: destruct (sealed_chunks_ s) as [|c cs]; [done|]; specialize (Hc eq_refl); apply Forall_cons in Hc as [Hc _]; by rewrite Hc.
Qed.

Lemma find_descriptor columns id d : findFieldDescriptor columns id = Some d -> d ∈ columns /\ field_id d = id.
Proof.
  induction columns as [|c columns IH]; [done|]. cbn. destruct (Z.eqb_spec (field_id c) id) as [Hc|].
  - intros [= <-]. split; [by left|done].
  - intros H. destruct (IH H). split; [by right|done].
Qed.

Lemma find_descriptor_at columns i d : dense columns -> columns !! i = Some d -> findFieldDescriptor columns (Z.of_nat i) = Some d.
Proof.
  intros Hd Hi. assert (Hgen : forall k (cols : list ColumnDescriptor) i, (forall j c, cols !! j = Some c -> field_id c = Z.of_nat (k + j)) ->
    cols !! i = Some d -> findFieldDescriptor cols (Z.of_nat (k + i)) = Some d); [|by apply (Hgen 0%nat)].
  clear. intros k cols. revert k. induction cols as [|c cols IH]; intros k i Hk Hi; [done|]. cbn.
  rewrite (Hk 0%nat c eq_refl). destruct i as [|i]; cbn in Hi.
  - simplify_eq. by rewrite Z.eqb_refl.
  - destruct (Z.eqb_spec (Z.of_nat (k + 0)) (Z.of_nat (k + S i))); [lia|]. rewrite <- Nat.add_succ_comm. apply (IH (S k)); [|done].
    intros j c' Hj. rewrite Nat.add_succ_comm. by apply (Hk (S j)).
Qed.

Lemma find_descriptor_dense columns id d : dense columns -> findFieldDescriptor columns id = Some d ->
  exists i, columns !! i = Some d /\ id = Z.of_nat i.
Proof.
  intros Hd H. apply find_descriptor in H as [Hin <-]. apply list_elem_of_lookup in Hin as [i Hi].
  exists i. split; [done|]. by apply Hd.
Qed.

(** ** The invariant *)

Definition layout_of (e : DataEngine) (id : Z) : list ColumnDescriptor :=
  match topics e !! id with Some s => layout e s | None => [] end.

(** A column of the topic, by its id. *)
Definition column_at (e : DataEngine) (topic k : Z) (d : ColumnDescriptor) : Prop :=
  is_Some (topics e !! topic) /\ exists i, layout_of e topic !! i = Some d /\ k = Z.of_nat i.

Record core_ok (c : WriteCore) : Prop := {
  co_writer : writer_ok (writer_ c);
  co_settled : forall id s, topics (Host.engine_ c) !! id = Some s -> settled (Host.engine_ c) s;
  co_loaded : forall id cols, topic_columns (writer_ c) !! id = Some cols -> cols <> [] -> cols = layout_of (Host.engine_ c) id;
  co_topics : forall ds n id, topic_cache_ c !! (ds, n) = Some id -> exists s, topics (Host.engine_ c) !! id = Some s
    /\ dataset_id (descriptor_ s) = ds /\ name (descriptor_ s) = n;
  co_fields : forall id n h, field_cache_ c !! (id, n) = Some h -> fh_topic h = id
    /\ exists d, column_at (Host.engine_ c) id (fh_id h) d /\ field_path d = n;
  co_types : forall id k type, field_types_ c !! (id, k) = Some type ->
    exists d, column_at (Host.engine_ c) id k d /\ logical_type d = type
}.

(** The topics stay, with their layout or a longer one. *)
Record layouts_grow (e e' : DataEngine) : Prop := {
  gr_topics : forall id s, topics e !! id = Some s -> exists s', topics e' !! id = Some s'
    /\ dataset_id (descriptor_ s') = dataset_id (descriptor_ s) /\ name (descriptor_ s') = name (descriptor_ s);
  gr_layout : forall id, is_Some (topics e !! id) -> layout_of e id `prefix_of` layout_of e' id
}.

#[export] Instance layouts_grow_preorder : PreOrder layouts_grow.
Proof.
  split; [split; eauto|]. intros a b c [T1 L1] [T2 L2]. split.
  - intros id s Hs. destruct (T1 id s Hs) as (s1 & Hs1 & ? & ?). destruct (T2 id s1 Hs1) as (s2 & Hs2 & ? & ?).
    exists s2. split_and!; congruence.
  - intros id [s Hs]. etrans; [by apply L1|]. apply L2. destruct (T1 id s Hs) as (s1 & Hs1 & _). eauto.
Qed.

Lemma column_grows e e' id k d : layouts_grow e e' -> column_at e id k d -> column_at e' id k d.
Proof.
  intros [Ht Hl] [[s Hs] (i & Hi & ->)]. destruct (Ht id s Hs) as (s' & Hs' & _). split; [eauto|].
  exists i. split; [|done]. by eapply prefix_lookup_Some, Hl.
Qed.

Lemma core_ok_writer c w' : core_ok c -> writer_ok w' -> layouts_grow (Host.engine_ c) (engine w') ->
  (forall id s, topics (engine w') !! id = Some s -> settled (engine w') s) ->
  (forall id cols, topic_columns w' !! id = Some cols -> cols <> [] -> cols = layout_of (engine w') id) ->
  core_ok (Host.with_writer c w').
Proof.
  intros [_ _ _ Ht Hf Hty] Hw Hg Hs Hl. split; cbn; try done.
  - intros ds n id Hc. destruct (Ht ds n id Hc) as (s & Hs' & <- & <-). by apply Hg.
  - intros id n h Hc. destruct (Hf id n h Hc) as (? & d & Hd & ?). split; [done|]. exists d. split; [by eapply column_grows|done].
  - intros id k type Hc. destruct (Hty id k type Hc) as (d & Hd & ?). exists d. split; [by eapply column_grows|done].
Qed.

Lemma core_ok_error c m : core_ok c -> core_ok (Host.setError c m).
Proof. intros [H1 H2 H3 H4 H5 H6]. by split. Qed.

(** The invariant with the logs the topics hold. *)
Record host_ok (c : WriteCore) (logs : Z -> list LogRecord) : Prop := {
  ho_core : core_ok c;
  ho_logs : all_logged (writer_ c) (layout_of (Host.engine_ c)) logs;
  ho_absent : forall id, topics (Host.engine_ c) !! id = None -> logs id = []
}.

Lemma host_ok_error c m logs : host_ok c logs -> host_ok (Host.setError c m) logs.
Proof. intros [H1 H2 H3]. split; [by apply core_ok_error|done|done]. Qed.

Lemma layout_of_Some e id s : topics e !! id = Some s -> layout_of e id = layout e s.
Proof. intros H. unfold layout_of. by rewrite H. Qed.

(** A writer that changed one topic. *)
Lemma all_logged_beside id w w' ds ds' logs logs' : all_logged w ds logs -> beside id w w' -> is_Some (topics (engine w) !! id) ->
  is_Some (topics (engine w') !! id) -> logged w' id (ds' id) (logs' id) -> (forall i, i <> id -> ds' i = ds i /\ logs' i = logs i) ->
  all_logged w' ds' logs'.
Proof.
  intros [Hall Hnone] Hb Hid Hid' Hlog Hsame. split.
  - intros i s Hs. destruct (decide (i = id)) as [->|Hne]; [done|]. destruct (Hsame i Hne) as [-> ->].
    eapply beside_logged; [done|done|]. rewrite (bs_topics _ _ _ Hb) in Hs by done. by eapply Hall.
  - intros i Hi. destruct (decide (i = id)) as [->|Hne]; [by destruct Hid' as [? ?]; congruence|].
    rewrite (bs_builders _ _ _ Hb), (bs_pending _ _ _ Hb) by done. apply Hnone. by rewrite <- (bs_topics _ _ _ Hb).
Qed.

(** Other topics keep their layout. *)
Lemma beside_layout id i w w' : beside id w w' -> i <> id -> layout_of (engine w') i = layout_of (engine w) i.
Proof.
  intros Hb Hne. unfold layout_of. rewrite (bs_topics _ _ _ Hb) by done. destruct (topics (engine w) !! i); [|done].
  unfold layout. by rewrite (bs_engine _ _ _ Hb).
Qed.

Lemma layout_registry e e' s : type_registry e' = type_registry e -> layout e' s = layout e s.
Proof. unfold layout. by intros ->. Qed.

Lemma settled_registry e e' s : type_registry e' = type_registry e -> settled e s -> settled e' s.
Proof.
  intros Hr [H1 H2 H3 H4]. split; rewrite ?(layout_registry e e' s Hr); [by rewrite Hr|done..].
Qed.

Lemma loaded_columns_cached w id s ds cols : Writer.loaded_columns w id s = Some ds ->
  topic_columns w !! id = Some cols -> cols <> [] -> cols = ds.
Proof.
  unfold Writer.loaded_columns. intros Hl Hc Hne. rewrite Hc in Hl. cbn in Hl. unfold Datatypes.id in Hl.
  rewrite bool_decide_eq_false_2 in Hl by done. cbn in Hl. by injection Hl.
Qed.

(** What a call that concerns one topic must show. *)
Lemma host_beside c w' id s' logs logs' : host_ok c logs -> writer_ok w' -> beside id (writer_ c) w' ->
  is_Some (topics (Host.engine_ c) !! id) -> topics (engine w') !! id = Some s' -> settled (engine w') s' ->
  (forall s, topics (Host.engine_ c) !! id = Some s -> dataset_id (descriptor_ s') = dataset_id (descriptor_ s) /\ name (descriptor_ s') = name (descriptor_ s)) ->
  layout_of (Host.engine_ c) id `prefix_of` layout (engine w') s' -> logged w' id (layout (engine w') s') (logs' id) ->
  (forall i, i <> id -> logs' i = logs i) ->
  host_ok (Host.with_writer c w') logs' /\ layouts_grow (Host.engine_ c) (engine w').
Proof.
  intros [Hc Hl Ha] Hw Hb Hid Hs' Hset Hsame Hpre Hlog Hlogs.
  assert (Hreg : type_registry (engine w') = type_registry (Host.engine_ c)) by (unfold Host.engine_; by rewrite (bs_engine _ _ _ Hb)).
  assert (Hgrow : layouts_grow (Host.engine_ c) (engine w')).
  { split.
    - intros i s Hs. destruct (decide (i = id)) as [->|Hne]; [exists s'; by split; [|apply Hsame]|].
      exists s. unfold Host.engine_ in *. by rewrite (bs_topics _ _ _ Hb).
    - intros i Hi. destruct (decide (i = id)) as [->|Hne]; [by rewrite (layout_of_Some (engine w') id s')|].
      unfold Host.engine_ in *. by rewrite (beside_layout id i (writer_ c) w'). }
  split; [|done]. split.
  - apply core_ok_writer; try done.
    + intros i s Hs. destruct (decide (i = id)) as [->|Hne]; [by simplify_eq|]. rewrite (bs_topics _ _ _ Hb) in Hs by done.
      eapply settled_registry; [exact Hreg|]. by eapply co_settled.
    + intros i cols Hi Hne. destruct (decide (i = id)) as [->|Hii].
      * rewrite (layout_of_Some _ _ _ Hs'). destruct (lg_rows _ _ _ _ Hlog) as (s2 & dn & cur & Hs2 & Hld & _).
        by eapply loaded_columns_cached.
      * rewrite (bs_columns _ _ _ Hb) in Hi by done. rewrite (beside_layout id i (writer_ c) w') by done.
        by eapply co_loaded.
  - apply (all_logged_beside id (writer_ c) _ (layout_of (Host.engine_ c)) _ logs); [done|done|done|by eexists| |].
    + change (Host.engine_ (Host.with_writer c w')) with (engine w'). cbn. by rewrite (layout_of_Some _ _ _ Hs').
    + intros i Hi. split; [|by apply Hlogs]. change (Host.engine_ (Host.with_writer c w')) with (engine w'). by rewrite (beside_layout id i (writer_ c) w').
  - intros i Hi. change (Host.engine_ (Host.with_writer c w')) with (engine w') in Hi. destruct (decide (i = id)) as [->|Hne]; [congruence|].
    rewrite Hlogs by done. apply Ha. unfold Host.engine_. by rewrite <- (bs_topics _ _ _ Hb).
Qed.

Lemma host_logged c logs id s : host_ok c logs -> topics (Host.engine_ c) !! id = Some s ->
  logged (writer_ c) id (layout (Host.engine_ c) s) (logs id).
Proof. intros H Hs. rewrite <- (layout_of_Some _ _ _ Hs). by eapply al_topics; [apply H|]. Qed.

(** [ensureColumn] keeps the invariant, whatever it answers. *)
Lemma ensureColumn_host c logs id s path type : host_ok c logs -> topics (Host.engine_ c) !! id = Some s ->
  Z.of_nat (length (layout (Host.engine_ c) s)) < 2 ^ 32 ->
  exists w' r, Writer.ensureColumn (writer_ c) id path type = Some (w', r)
    /\ host_ok (Host.with_writer c w') logs /\ layouts_grow (Host.engine_ c) (engine w')
    /\ (forall i, i <> id -> layout_of (engine w') i = layout_of (Host.engine_ c) i)
    /\ match Writer.find_column (layout (Host.engine_ c) s) path with
       | Some col => layout_of (engine w') id = layout (Host.engine_ c) s
           /\ if decide (logical_type col = type) then r = Ok (field_id col) else exists e, r = Err e /\ e <> ""
       | None => r = Ok (Z.of_nat (length (layout (Host.engine_ c) s)))
           /\ layout_of (engine w') id = layout (Host.engine_ c) s ++ [mkColumnDescriptor (Z.of_nat (length (layout (Host.engine_ c) s))) type path]
       end.
Proof.
  intros H Hs Hlen. pose proof (host_logged c logs id s H Hs) as Hlog. set (ds := layout (Host.engine_ c) s) in *.
  destruct (ensureColumn_logged _ _ _ _ path type Hlog Hlen) as (w' & r & Hr & Hb & Hcase).
  exists w', r. split; [done|]. pose proof (ensureColumn_ok _ _ _ _ _ _ (co_writer _ (ho_core _ _ H)) Hr) as Hw.
  assert (Hother : forall i, i <> id -> layout_of (engine w') i = layout_of (Host.engine_ c) i) by (intros i Hi; by apply (beside_layout id)).
  pose proof (co_settled _ (ho_core _ _ H) id s Hs) as Hset.
  destruct (Writer.find_column ds path) as [col|].
  - destruct Hcase as (Hlog' & He & Hr'). assert (Hs' : topics (engine w') !! id = Some s) by by rewrite He.
    destruct (host_beside c w' id s logs logs) as [? ?]; try done; try (rewrite He; done).
    + intros s0 Hs0. replace s0 with s by congruence. done.
    + rewrite He. change (engine (writer_ c)) with (Host.engine_ c). by rewrite (layout_of_Some _ _ _ Hs).
    + split_and!; try done. rewrite He. change (engine (writer_ c)) with (Host.engine_ c). by rewrite (layout_of_Some _ _ _ Hs).
  - destruct Hcase as (-> & Hlog' & s0 & Hs0 & Hs'). replace s0 with s in * by (unfold Host.engine_ in *; congruence). clear s0 Hs0.
    set (cols := ds ++ _) in *. set (s' := Storage.setColumnDescriptors s cols) in *.
    assert (Hl' : layout (engine w') s' = cols) by (unfold layout, s'; cbn; unfold cols; by destruct ds).
    destruct (host_beside c w' id s' logs logs) as [? ?]; try done.
    + split; rewrite ?Hl'; [|by unfold cols; destruct ds|apply Hlog'|apply Hlog'].
      unfold s'. cbn. rewrite (bs_engine _ _ _ Hb). apply Hset.
    + intros s0 Hs0. replace s0 with s by congruence. done.
    + rewrite Hl', (layout_of_Some _ _ _ Hs). by apply prefix_app_r.
    + by rewrite Hl'.
    + split_and!; try done. by rewrite (layout_of_Some _ _ _ Hs').
Qed.

(** ** Fields *)

(** What the fields called [names] of the topic [id] can have changed. *)
Record grown_by (id : Z) (names : gset string) (c c' : WriteCore) : Prop := {
  gb_grow : layouts_grow (Host.engine_ c) (Host.engine_ c');
  gb_others : forall i, i <> id -> layout_of (Host.engine_ c') i = layout_of (Host.engine_ c) i;
  gb_more : exists more, layout_of (Host.engine_ c') id = layout_of (Host.engine_ c) id ++ more
    /\ Forall (fun d => field_path d ∈ names) more /\ (length more <= size names)%nat;
  gb_cache : forall n, n ∉ names -> field_cache_ c' !! (id, n) = field_cache_ c !! (id, n)
}.

Lemma grown_refl id names c c' : Host.engine_ c' = Host.engine_ c ->
  (forall n, n ∉ names -> field_cache_ c' !! (id, n) = field_cache_ c !! (id, n)) -> grown_by id names c c'.
Proof. intros He Hc. split; rewrite ?He; try done. exists []. rewrite app_nil_r. split_and!; [done|constructor|cbn; lia]. Qed.

Lemma grown_trans id names1 names2 a b c : names1 ## names2 -> grown_by id names1 a b -> grown_by id names2 b c ->
  grown_by id (names1 ∪ names2) a c.
Proof.
  intros Hdis [G1 O1 (m1 & E1 & F1 & L1) C1] [G2 O2 (m2 & E2 & F2 & L2) C2]. split.
  - by etrans.
  - intros i Hi. by rewrite O2, O1.
  - exists (m1 ++ m2). rewrite E2, E1, app_assoc. split_and!; [done| |rewrite length_app, size_union by done; lia].
    apply Forall_app. split; eapply Forall_impl; try done; set_solver.
  - intros n Hn. rewrite C2, C1; set_solver.
Qed.

Lemma grown_column id names c c' n : grown_by id names c c' -> n ∉ names ->
  Writer.find_column (layout_of (Host.engine_ c') id) n = Writer.find_column (layout_of (Host.engine_ c) id) n.
Proof.
  intros [_ _ (more & -> & Hm & _) _] Hn. rewrite find_column_app. destruct (Writer.find_column _ n); [done|].
  apply find_column_None. intros (d & -> & Hin)%list_elem_of_fmap. rewrite Forall_forall in Hm. by apply Hn, Hm.
Qed.

(** The type fits the column of that path, if there is one. *)
Definition type_agrees (ds : list ColumnDescriptor) (n : string) (type : PrimitiveType) : Prop :=
  forall d, Writer.find_column ds n = Some d -> logical_type d = type.

Lemma column_at_find e id k d : (forall s, topics e !! id = Some s -> settled e s) -> column_at e id k d ->
  Writer.find_column (layout_of e id) (field_path d) = Some d.
Proof.
  intros Hset [[s Hs] (i & Hi & _)]. eapply find_column_at; [|exact Hi|done]. rewrite (layout_of_Some _ _ _ Hs). by apply Hset.
Qed.

(** Looking a field up leaves the writer alone and finds the column, in the cache or the engine. *)
Lemma lookupFieldType_ok c logs id k s : host_ok c logs -> topics (Host.engine_ c) !! id = Some s ->
  let '(c', r) := Host.lookupFieldType c id k in
  host_ok c' logs /\ writer_ c' = writer_ c
  /\ match r with
     | Some type => last_error_ c' = last_error_ c /\ exists d, column_at (Host.engine_ c) id k d /\ logical_type d = type
         /\ forall n, n <> field_path d -> field_cache_ c' !! (id, n) = field_cache_ c !! (id, n)
     | None => last_error_ c' <> "" /\ field_cache_ c' = field_cache_ c /\ (forall d, ~ column_at (Host.engine_ c) id k d)
     end.
Proof.
  intros H Hs. unfold Host.lookupFieldType. destruct (field_types_ c !! (id, k)) as [type|] eqn:Et.
  { destruct (co_types _ (ho_core _ _ H) _ _ _ Et) as (d & Hd & Hty). split_and!; try done. by exists d. }
  unfold Engine.getTopicStorage. rewrite Hs. pose proof (co_settled _ (ho_core _ _ H) id s Hs) as Hset.
  rewrite (effective_layout _ _ Hset). destruct (findFieldDescriptor _ k) as [d|] eqn:Ef.
  - apply find_descriptor_dense in Ef as (i & Hi & ->); [|apply Hset].
    assert (Hd : column_at (Host.engine_ c) id (Z.of_nat i) d) by (split; [eauto|]; exists i; by rewrite (layout_of_Some _ _ _ Hs)).
    split_and!; [|done|done|].
    + destruct H as [[H1 H2 H3 H4 H5 H6] Hl Ha]. split; [|done|done]. split; try done; cbn.
      * intros i' n h. rewrite lookup_insert_Some. intros [[[= <- <-] <-]|[_ Hc]]; [|by apply H5]. cbn. eauto.
      * intros i' k' type. rewrite lookup_insert_Some. intros [[[= <- <-] <-]|[_ Hc]]; [|by apply H6]. eauto.
    + exists d. split_and!; [done|done|]. intros n Hn. cbn. rewrite lookup_insert_ne; [done|]. congruence.
  - split_and!; [by apply host_ok_error|done|done|done|]. intros d [_ (i & Hi & ->)]. rewrite (layout_of_Some _ _ _ Hs) in Hi.
    apply find_descriptor_at in Hi; [congruence|apply Hset].
Qed.

Lemma fromAbiType_error z e : fromAbiType z = Err e -> e <> "".
Proof. unfold fromAbiType. destruct (_ !! _); [done|]. by intros [= <-]. Qed.

(** The cache gives the column of its path. *)
Lemma cached_column c logs id n h : host_ok c logs -> field_cache_ c !! (id, n) = Some h ->
  exists d, column_at (Host.engine_ c) id (fh_id h) d /\ field_path d = n
    /\ Writer.find_column (layout_of (Host.engine_ c) id) n = Some d.
Proof.
  intros H Hh. destruct (co_fields _ (ho_core _ _ H) _ _ _ Hh) as (_ & d & Hd & <-). exists d. split_and!; [done|done|].
  eapply column_at_find; [|exact Hd]. apply H.
Qed.

Lemma column_at_unique e id k d d' : column_at e id k d -> column_at e id k d' -> d = d'.
Proof. intros [_ (i & Hi & ->)] [_ (j & Hj & ?)]. replace j with i in * by lia. congruence. Qed.

(** [ensureField] succeeds exactly when the number is a type and a column of that path, if any, has it. *)
Lemma ensureField_ok c logs id s n abi : host_ok c logs -> topics (Host.engine_ c) !! id = Some s ->
  Z.of_nat (length (layout (Host.engine_ c) s)) < 2 ^ 32 ->
  exists c' r, Host.ensureField c id n abi = Some (c', r) /\ host_ok c' logs /\ grown_by id {[n]} c c' /\
  match r with
  | Some h => last_error_ c' = "" /\ exists type d, fromAbiType abi = Ok type /\ column_at (Host.engine_ c') id (fh_id h) d
      /\ field_path d = n /\ logical_type d = type /\ type_agrees (layout_of (Host.engine_ c) id) n type
  | None => last_error_ c' <> "" /\ forall type, fromAbiType abi = Ok type -> ~ type_agrees (layout_of (Host.engine_ c) id) n type
  end.
Proof.
  intros H Hs Hlen. unfold Host.ensureField, Engine.getTopicStorage. rewrite Hs.
  destruct (fromAbiType abi) as [type|e] eqn:Ea; cycle 1.
  { eexists _, _. split; [done|]. split_and!; [by apply host_ok_error|by apply grown_refl|by eapply fromAbiType_error|done]. }
  destruct (field_cache_ c !! (id, n)) as [h|] eqn:Ec.
  - destruct (cached_column c logs id n h H Ec) as (d & Hd & Hp & Hfind).
    pose proof (lookupFieldType_ok c logs id (fh_id h) s H Hs) as Hlook.
    destruct (Host.lookupFieldType c id (fh_id h)) as [c1 [existing|]]; destruct Hlook as (H1 & Hw & Hcase); cycle 1.
    { destruct Hcase as (_ & _ & Hno). by apply Hno in Hd. }
    destruct Hcase as (_ & d' & Hd' & Hty & Hcache). assert (d' = d) as -> by by eapply column_at_unique.
    assert (He : Host.engine_ c1 = Host.engine_ c) by (unfold Host.engine_; by rewrite Hw).
    assert (Hgrow : forall m, grown_by id {[n]} c (Host.setError c1 m)).
    { intros m. apply grown_refl; [done|]. intros n' Hn'. cbn. apply Hcache. rewrite Hp. set_solver. }
    case_decide as Hdec; eexists _, _; (split; [done|]); (split_and!; [by apply host_ok_error|apply Hgrow| |]); [done| |done|].
    + change (Host.engine_ (Host.setError c1 "")) with (Host.engine_ c1). exists type, d. split_and!; [done|by rewrite He|done|congruence|]. intros d2 Hd2. congruence.
    + intros type' [= <-] Hag. apply Hdec. rewrite <- Hty. by apply Hag.
  - destruct (ensureColumn_host c logs id s n type H Hs Hlen) as (w' & r & -> & H1 & Hg & Ho & Hcase). cbn [mbind option_bind].
    assert (Hgrow : forall m cache types, (forall n', n' <> n -> cache !! (id, n') = field_cache_ c !! (id, n')) ->
      grown_by id {[n]} c (mkCore w' m (topic_cache_ c) cache types)).
    { intros m cache types Hcache. split; [done|done| |intros n' Hn'; apply Hcache; set_solver].
      change (Host.engine_ (mkCore w' m (topic_cache_ c) cache types)) with (engine w'). rewrite (layout_of_Some _ _ _ Hs).
      destruct (Writer.find_column _ n); destruct Hcase as [H2 H3]; [exists []; rewrite app_nil_r; split_and!; [done|constructor|cbn; lia]|].
      rewrite H3. eexists. split_and!; [done|by repeat constructor; set_solver|]. rewrite size_singleton. done. }
    rewrite (layout_of_Some _ _ _ Hs). set (ds := layout (Host.engine_ c) s) in *.
    assert (Hok : forall id', r = Ok id' -> exists d, column_at (engine w') id id' d /\ field_path d = n /\ logical_type d = type /\ type_agrees ds n type).
    { intros id' Hr. destruct (gr_topics _ _ Hg id s Hs) as (s' & Hs' & _).
      destruct (Writer.find_column ds n) as [d|] eqn:Ef.
      - destruct Hcase as [Hl Hr']. case_decide as Hty; [|by destruct Hr' as (? & ? & ?); congruence]. rewrite Hr in Hr'. injection Hr' as ->.
        pose proof Ef as (j & Hj & Hpath)%find_column_Some. exists d. split_and!; [|done|done|].
        + split; [eauto|]. exists j. rewrite Hl. split; [done|]. by apply (st_dense _ _ (co_settled _ (ho_core _ _ H) id s Hs)).
        + intros d' Hd'. congruence.
      - destruct Hcase as [Hr' Hl]. rewrite Hr in Hr'. injection Hr' as ->.
        exists (mkColumnDescriptor (Z.of_nat (length ds)) type n). split_and!; [|done|done|by intros d'; rewrite Ef].
        split; [eauto|]. exists (length ds). rewrite Hl. split; [|done]. rewrite lookup_app_r, Nat.sub_diag by lia. done. }
    destruct r as [id'|e].
    + destruct (Hok id' eq_refl) as (d & Hd & Hp & Hty & Hag). eexists _, _. split; [done|]. split_and!; [| |done|].
      * destruct H1 as [[K1 K2 K3 K4 K5 K6] Hl1 Ha1]. split; [|done|done]. split; try done; cbn.
        -- intros i' n' h'. rewrite lookup_insert_Some. intros [[[= <- <-] <-]|[_ Hc]]; [|by apply K5]. cbn. eauto.
        -- intros i' k' t'. rewrite lookup_insert_Some. intros [[[= <- <-] <-]|[_ Hc]]; [|by apply K6]. eauto.
      * apply Hgrow. intros n' Hn'. cbn. rewrite lookup_insert_ne; [done|]. congruence.
      * exists type, d. by split_and!.
    + destruct (Writer.find_column ds n) as [d|] eqn:Ef; [|by destruct Hcase].
      destruct Hcase as [_ Hr]. case_decide as Hty; [done|]. destruct Hr as (e' & [= <-] & He).
      eexists _, _. split; [done|]. split_and!; [by apply host_ok_error|by apply Hgrow|done|].
      intros type' [= <-] Hag. apply Hty. by apply Hag.
Qed.

(** Elements of a fixed array have columns in the writer and none in the host, so the host takes
    the column of one field for that of another. *)
Definition sensor_tree : TypeTreeNode :=
  makeStruct "sensor" [makeArray "raw" (makePrimitive "" kFloat64) (Some 2%nat); makePrimitive "x" kFloat64; makePrimitive "y" kFloat64].

Example fixed_arrays_shift_ids :
  (fun ds => map (fun d => (field_path d, field_id d)) ds) <$> WriterColumns.buildColumnDescriptors sensor_tree
    = Some [("raw[0]", 0); ("raw[1]", 1); ("x", 2); ("y", 3)]
  /\ map (fun d => (field_path d, field_id d)) (buildSchemaColumns sensor_tree) = [("x", 0); ("y", 1)].
Proof. by vm_compute. Qed.
