(* ===== verification/HostLog.v ===== *)
(** * HostLog: a plugin's records are the records of its topics

    The calls of [WriteCore] in [src/pj_datastore/src/plugin_data_host.cpp] that
    append records refine an append-only log for every topic: an accepted record
    is appended with its values under the names the plugin gave, a refused one
    leaves the log alone, and a flush moves the log to the storage. *)

From S2P Require Import Prelude Types TypeTree TypeRegistry Float64 Buffer Encoding Column Chunk Query TopicStorage Engine Writer Ingest Layout WriterState Records Host HostState.

(** ** The record a call describes *)

(** The value of a field whose number is a type. *)
Definition scalar_of (value : PJ_scalar_value_t) : option Value :=
  match fromAbiType (sc_type value) with Ok type => Host.field_value type (sc_data value) | Err _ => None end.

(** A plugin keeps to the interface: names that can be read, the member of the union its type tells, in range. *)
Definition scalar_ok (value : PJ_scalar_value_t) : Prop :=
  forall type, fromAbiType (sc_type value) = Ok type -> exists v, Host.field_value type (sc_data value) = Some v /\ value_ok v.

Definition readable (n : string) (f : PJ_named_field_value_t) : Prop :=
  toStringView (nf_name f) = Some n /\ (nf_is_null f = false -> scalar_ok (nf_value f)).

Definition field_entry (is_null : bool) (value : PJ_scalar_value_t) : option Value := if is_null then None else scalar_of value.

Definition entries (names : list string) (values : list (option Value)) : list (string * Value) :=
  omap Datatypes.id (zip_with (fun n v => pair n <$> v) names values).
Definition fields_record (names : list string) (values : list (option Value)) : gmap string Value := list_to_map (entries names values).

Lemma fields_record_elem names values n v :
  (n, v) ∈ entries names values <-> exists i, names !! i = Some n /\ values !! i = Some (Some v).
Proof.
  unfold entries. rewrite list_elem_of_omap. split.
  - intros (x & Hx & He). unfold Datatypes.id in He. subst x. apply list_elem_of_lookup in Hx as [i Hi].
    rewrite lookup_zip_with in Hi. destruct (names !! i) as [n'|] eqn:En; [|done]. cbn in Hi.
    destruct (values !! i) as [[v'|]|] eqn:Ev; [|done..]. cbn in Hi. injection Hi as -> ->. by exists i.
  - intros (i & Hn & Hv). exists (Some (n, v)). split; [|done]. apply list_elem_of_lookup. exists i.
    by rewrite lookup_zip_with, Hn, Hv.
Qed.

Lemma fields_record_nodup names : forall values, NoDup names -> NoDup (entries names values).*1.
Proof.
  intros values Hnd. eapply sublist_NoDup; [exact Hnd|]. clear Hnd. revert values.
  induction names as [|n names IH]; intros [|v values]; cbn; [constructor|constructor|apply sublist_nil_l|].
  destruct v; cbn; [apply sublist_skip|apply sublist_cons]; apply (IH values).
Qed.

Lemma fields_record_lookup names values n v : NoDup names ->
  fields_record names values !! n = Some v <-> exists i, names !! i = Some n /\ values !! i = Some (Some v).
Proof.
  intros Hnd. unfold fields_record. rewrite <- elem_of_list_to_map by by apply fields_record_nodup. apply fields_record_elem.
Qed.

Lemma field_value_kind type data v : Host.field_value type data = Some v -> kind_of_value v = storageKindOf type.
Proof. destruct type, data; cbn; intros H; try done; try by injection H as <-. apply bind_Some in H as (str & _ & H). by injection H as <-. Qed.

Lemma field_value_specified type data v : Host.field_value type data = Some v -> type <> kUnspecified.
Proof. by intros H ->. Qed.

(** ** Resolved fields *)

(** A field on the column called [n], with the null flag and the value it was given. *)
Definition resolved_at (e : DataEngine) (id : Z) (n : string) (is_null : bool) (value : PJ_scalar_value_t) (rf : ResolvedField) : Prop :=
  rf_is_null rf = is_null /\ rf_value rf = value
  /\ exists d, column_at e id (rf_id rf) d /\ field_path d = n
     /\ (is_null = false -> fromAbiType (sc_type value) = Ok (logical_type d) /\ rf_type rf = logical_type d).

(** Names, values and the fields they were resolved to; some nulls have none. *)
Inductive resolves (e : DataEngine) (id : Z) : list string -> list (bool * PJ_scalar_value_t) -> list ResolvedField -> Prop :=
| resolves_nil : resolves e id [] [] []
| resolves_skip n value names values l : resolves e id names values l -> resolves e id (n :: names) ((true, value) :: values) l
| resolves_take n is_null value names values rf l : resolved_at e id n is_null value rf -> resolves e id names values l ->
    resolves e id (n :: names) ((is_null, value) :: values) (rf :: l).

Lemma resolved_grows e e' id n is_null value rf : layouts_grow e e' -> resolved_at e id n is_null value rf ->
  resolved_at e' id n is_null value rf.
Proof. intros Hg (H1 & H2 & d & Hd & H3). split_and!; [done|done|]. exists d. split; [by eapply column_grows|done]. Qed.

Lemma resolves_app e id names values l names' values' l' : resolves e id names values l -> resolves e id names' values' l' ->
  resolves e id (names ++ names') (values ++ values') (l ++ l').
Proof. induction 1; intros H'; cbn; [done|constructor; auto..]. Qed.

Lemma resolves_elem e id names values l rf : resolves e id names values l -> rf ∈ l ->
  exists i n is_null value, names !! i = Some n /\ values !! i = Some (is_null, value) /\ resolved_at e id n is_null value rf.
Proof.
  induction 1 as [|n value names values l _ IH|n is_null value names values rf' l Hrf _ IH]; [by intros ?%not_elem_of_nil| |].
  - intros Hin. destruct (IH Hin) as (i & ?). by exists (S i).
  - intros [->|Hin]%elem_of_cons; [by exists 0%nat, n, is_null, value|]. destruct (IH Hin) as (i & ?). by exists (S i).
Qed.

Lemma resolves_value e id names values l i n value : resolves e id names values l ->
  names !! i = Some n -> values !! i = Some (false, value) -> exists rf, rf ∈ l /\ resolved_at e id n false value rf.
Proof.
  intros H. revert i. induction H as [|m x names values l _ IH|m is_null x names values rf' l Hrf _ IH]; intros [|i] Hn Hv; cbn in *; simplify_eq.
  - by eapply IH.
  - exists rf'. split; [by left|done].
  - destruct (IH i Hn Hv) as (rf & ? & ?). exists rf. split; [by right|done].
Qed.

(** The calls between [beginRow] and [finishRow]. *)
Definition assignment (rf : ResolvedField) : Assignment :=
  (Z.to_nat (rf_id rf), if rf_is_null rf then Null
                        else match Host.field_value (rf_type rf) (sc_data (rf_value rf)) with Some v => Put v | None => Skip end).

Lemma write_fields_list id l : forall w, Forall (fun rf => rf_is_null rf = false ->
    is_Some (Host.field_value (rf_type rf) (sc_data (rf_value rf)))) l ->
  Host.write_fields w id l = set_list w id (map assignment l).
Proof.
  induction l as [|rf l IH]; intros w H; [done|]. apply Forall_cons in H as [Hrf H]. cbn [Host.write_fields map].
  unfold assignment at 1. cbn [set_list].
  assert (Host.write_field w id rf = set_value w id (Z.to_nat (rf_id rf)) (assignment rf).2) as ->; cycle 1.
  { unfold assignment. cbn [snd]. destruct (set_value _ _ _ _); [|done]. cbn [mbind option_bind]. by apply IH. }
  unfold Host.write_field, assignment. cbn [snd]. destruct (rf_is_null rf); [done|]. destruct (Hrf eq_refl) as [v Hv].
  unfold Host.setFieldValue. rewrite Hv. pose proof (field_value_specified _ _ _ Hv). by destruct (rf_type rf).
Qed.

(** ** The row of a record *)

(** The record a list of values describes. *)
Definition values_record (names : list string) (values : list (bool * PJ_scalar_value_t)) : gmap string Value :=
  fields_record names (map (fun v => field_entry v.1 v.2) values).

Definition values_ok (values : list (bool * PJ_scalar_value_t)) : Prop := Forall (fun v => v.1 = false -> scalar_ok v.2) values.

(** A resolved field assigns its value, or null, to the column of its name. *)
Lemma assignment_value e id n is_null value rf : (forall s, topics e !! id = Some s -> settled e s) ->
  resolved_at e id n is_null value rf -> (is_null = false -> scalar_ok value) ->
  exists j d, layout_of e id !! j = Some d /\ field_path d = n /\ (assignment rf).1 = j
    /\ assigned (assignment rf).2 = field_entry is_null value /\ row_value_ok (kind_of d) (assigned (assignment rf).2)
    /\ (is_null = false -> is_Some (Host.field_value (rf_type rf) (sc_data (rf_value rf)))).
Proof.
  intros Hset (<- & <- & d & [_ (j & Hj & Hid)] & Hp & Hty) Hok. exists j, d. unfold assignment, field_entry. cbn [fst snd].
  rewrite Hid, Nat2Z.id. split_and!; try done; destruct (rf_is_null rf); try done.
  all: destruct (Hty eq_refl) as [Ha Ht]; destruct (Hok eq_refl _ Ha) as (v & Hv & Hvok); rewrite Ht, Hv.
  - unfold scalar_of. by rewrite Ha, Hv.
  - cbn. split; [|done]. by eapply field_value_kind.
  - eauto.
Qed.

Lemma resolves_ids e id names values l : resolves e id names values l -> NoDup names -> NoDup (map assignment l).*1.
Proof.
  induction 1 as [|n value names values l Hl IH|n is_null value names values rf l Hrf Hl IH]; intros Hnd; cbn; [constructor| |];
    apply NoDup_cons in Hnd as [Hn Hnd]; [by apply IH|]. constructor; [|by apply IH].
  intros (p & Hp & (rf' & -> & Hin)%list_elem_of_fmap)%list_elem_of_fmap.
  destruct (resolves_elem _ _ _ _ _ _ Hl Hin) as (i & n' & is_null' & value' & Hi & _ & _ & _ & d' & [_ (j' & Hj' & Hk')] & Hp' & _).
  destruct Hrf as (_ & _ & d & [_ (j & Hj & Hk)] & Hpath & _). cbn in Hp. rewrite Hk, Hk', !Nat2Z.id in Hp. subst j'.
  apply Hn. simplify_eq. by eapply list_elem_of_lookup_2.
Qed.

(** Every assignment is that of a field, and every value is assigned. *)
Lemma resolves_assignments e id names values l p : (forall s, topics e !! id = Some s -> settled e s) -> values_ok values ->
  resolves e id names values l -> p ∈ map assignment l ->
  exists i n v d, names !! i = Some n /\ values !! i = Some v /\ layout_of e id !! p.1 = Some d /\ field_path d = n
    /\ assigned p.2 = field_entry v.1 v.2 /\ row_value_ok (kind_of d) (assigned p.2).
Proof.
  intros Hset Hok Hl (rf & -> & Hin)%list_elem_of_fmap.
  destruct (resolves_elem _ _ _ _ _ _ Hl Hin) as (i & n & is_null & value & Hn & Hv & Hrf).
  destruct (assignment_value e id n is_null value rf Hset Hrf) as (j & d & Hj & Hp & <- & Ha & Hr & _).
  { unfold values_ok in Hok. rewrite Forall_lookup in Hok. apply (Hok i _ Hv). }
  exists i, n, (is_null, value), d. by split_and!.
Qed.

Lemma resolved_record e id names values l t : (forall s, topics e !! id = Some s -> settled e s) -> is_Some (topics e !! id) ->
  NoDup names -> resolves e id names values l -> values_ok values ->
  record_of (layout_of e id) (t, row_of (length (layout_of e id)) (map assignment l)) = (t, values_record names values).
Proof.
  intros Hset [s Hs] Hnd Hl Hok. pose proof (resolves_ids _ _ _ _ _ Hl Hnd) as Hids. set (ds := layout_of e id).
  assert (Hpaths : NoDup (map field_path ds)) by (unfold ds; rewrite (layout_of_Some _ _ _ Hs); by apply Hset).
  change (record_of ds (t, row_of (length ds) (map assignment l)))
    with (t, (record_of ds (t, row_of (length ds) (map assignment l))).2). f_equal.
  apply map_eq. intros n. apply option_eq. intros v. rewrite record_of_lookup by done. unfold values_record. rewrite fields_record_lookup by done.
  split.
  - intros (j & d & Hj & <- & Hv). rewrite row_of_value in Hv by by eapply lookup_lt_Some.
    destruct (decide (j ∈ (map assignment l).*1)) as [Hin|Hin]; [|by rewrite assigned_none in Hv].
    apply list_elem_of_fmap in Hin as ([j' a] & Hjj & Hin). cbn in Hjj. subst j'. rewrite (assigned_elem j a) in Hv by done.
    destruct (resolves_assignments e id names values l _ Hset Hok Hl Hin) as (i & n & x & d' & Hn & Hx & Hd' & Hp & Ha & _).
    cbn in *. fold ds in Hd'. simplify_eq. exists i. rewrite Hn, list_lookup_fmap, Hx. cbn. by rewrite <- Ha, Hv.
  - intros (i & Hn & Hv). rewrite list_lookup_fmap in Hv. apply fmap_Some in Hv as ([is_null value] & Hx & Hv). cbn in Hv.
    destruct is_null; [done|]. destruct (resolves_value _ _ _ _ _ _ _ _ Hl Hn Hx) as (rf & Hin & Hrf).
    destruct (assignment_value e id n false value rf Hset Hrf) as (j & d & Hj & Hp & Ha1 & Ha2 & _).
    { unfold values_ok in Hok. rewrite Forall_lookup in Hok. apply (Hok i _ Hx). }
    exists j, d. split_and!; [done|done|]. rewrite row_of_value by by eapply lookup_lt_Some.
    rewrite (assigned_elem j (assignment rf).2); [by rewrite Ha2|done|].
    apply list_elem_of_fmap. exists rf. split; [|done]. by rewrite <- Ha1; destruct (assignment rf).
Qed.

(** *** Appending to the log *)

Definition append_log (logs : Z -> list LogRecord) (id : Z) (r : LogRecord) : Z -> list LogRecord :=
  fun i => if decide (i = id) then logs id ++ [r] else logs i.

Lemma set_list_ok id l : forall w w', writer_ok w -> set_list w id l = Some w' -> kept w w'.
Proof.
  induction l as [|[j a] l IH]; intros w w' Hw H; cbn in H; [by simplify_eq|]. apply bind_Some in H as (w1 & H1 & H).
  assert (Hk : kept w w1) by (destruct a; cbn in H1; [by simplify_eq|by eapply setNull_ok|by eapply set_ok]).
  destruct Hk as [Hw1 He1]. destruct (IH w1 w' Hw1 H) as [? He]. split; [done|]. by rewrite He.
Qed.

Lemma write_record_ok c logs id s t names values l : host_ok c logs -> topics (Host.engine_ c) !! id = Some s ->
  NoDup names -> resolves (Host.engine_ c) id names values l -> values_ok values ->
  last_time (map fst (logs id)) <= t -> in_s 64 t -> log_fits (logs id ++ [(t, values_record names values)]) ->
  exists c', Host.write_record c id t l = Some (c', Some tt) /\ host_ok c' (append_log logs id (t, values_record names values))
    /\ last_error_ c' = "" /\ layouts_grow (Host.engine_ c) (Host.engine_ c').
Proof.
  intros H Hs Hnd Hl Hok Ht Hr Hfit.
  assert (Hset : forall s, topics (Host.engine_ c) !! id = Some s -> settled (Host.engine_ c) s) by (intros; by eapply co_settled; [apply H|]).
  pose proof (host_logged c logs id s H Hs) as Hlog. rewrite <- (layout_of_Some _ _ _ Hs) in Hlog.
  set (ds := layout_of (Host.engine_ c) id) in *.
  pose proof (resolved_record _ id names values l t Hset ltac:(eauto) Hnd Hl Hok) as Hrec. fold ds in Hrec. rewrite <- Hrec in *.
  destruct (logged_row _ _ _ _ t (map assignment l) Hlog Ht Hr) as (w1 & w2 & w3 & Hb & Hset2 & Hf & Hlog' & Honly); [by eapply resolves_ids| |done|].
  { apply Forall_forall. intros p Hp. destruct (resolves_assignments _ _ _ _ _ p Hset Hok Hl Hp) as (_ & _ & _ & d & _ & _ & Hd & _ & _ & Hro). eauto. }
  exists (Host.setError (Host.with_writer c w3) ""). split; [|split; [|split; [done|]]].
  - unfold Host.write_record. rewrite Hb. cbn [mbind option_bind okStatus]. rewrite write_fields_list, Hset2.
    + cbn [mbind option_bind]. by rewrite Hf.
    + apply Forall_forall. intros rf Hin. destruct (resolves_elem _ _ _ _ _ _ Hl Hin) as (i & n & is_null & value & _ & Hv & Hrf).
      destruct (assignment_value _ id n is_null value rf Hset Hrf) as (_ & _ & _ & _ & _ & _ & _ & Hval).
      { unfold values_ok in Hok. rewrite Forall_lookup in Hok. apply (Hok i _ Hv). }
      by destruct Hrf as (-> & _).
  - apply host_ok_error. pose proof (co_writer _ (ho_core _ _ H)) as Hw.
    assert (He3 : engine w3 = engine (writer_ c)) by apply Honly.
    destruct (host_beside c w3 id s logs (append_log logs id (record_of ds (t, row_of (length ds) (map assignment l))))) as [? _]; try done.
    + destruct (beginRow_ok _ _ _ _ _ Hw Hr Hb) as [Hw1 _]. destruct (set_list_ok _ _ _ _ Hw1 Hset2) as [Hw2 _].
      by destruct (finishRow_ok _ _ _ _ Hw2 Hf).
    + by apply only_beside.
    + by rewrite He3.
    + rewrite He3. by apply Hset.
    + intros s0 Hs0. replace s0 with s by congruence. done.
    + rewrite He3. change (engine (writer_ c)) with (Host.engine_ c). by rewrite (layout_of_Some _ _ _ Hs).
    + rewrite He3. change (engine (writer_ c)) with (Host.engine_ c). rewrite <- (layout_of_Some _ _ _ Hs). unfold append_log. by rewrite decide_True.
    + intros i Hi. unfold append_log. by rewrite decide_False.
  - change (Host.engine_ _) with (engine w3) at 2. by rewrite (on_engine _ _ _ Honly).
Qed.

(** ** Which fields a record may have *)

(** A value needs a supported type, that of its column if the topic has one; a null needs it
    only on a column this plugin has not met, and without a type it is left out. *)
Definition accepted (c : WriteCore) (id : Z) (n : string) (is_null : bool) (value : PJ_scalar_value_t) : Prop :=
  match fromAbiType (sc_type value) with
  | Ok type => (is_null = true /\ is_Some (field_cache_ c !! (id, n))) \/ type_agrees (layout_of (Host.engine_ c) id) n type
  | Err _ => is_null = true
  end.

Lemma accepted_later c c' id m n is_null value : grown_by id {[m]} c c' -> n <> m ->
  accepted c' id n is_null value <-> accepted c id n is_null value.
Proof.
  intros Hg Hne. unfold accepted, type_agrees. rewrite (gb_cache _ _ _ _ Hg) by set_solver.
  by rewrite (grown_column _ _ _ _ n Hg) by set_solver.
Qed.

Lemma grown_topics id names c c' s : grown_by id names c c' -> topics (Host.engine_ c) !! id = Some s ->
  exists s', topics (Host.engine_ c') !! id = Some s'
    /\ (length (layout (Host.engine_ c') s') <= length (layout (Host.engine_ c) s) + size names)%nat.
Proof.
  intros [[Ht _] _ (more & Hm & _ & Hl) _] Hs. destruct (Ht id s Hs) as (s' & Hs' & _). exists s'. split; [done|].
  rewrite (layout_of_Some _ _ _ Hs), (layout_of_Some _ _ _ Hs') in Hm. rewrite Hm, length_app. lia.
Qed.

Lemma resolve_field_ok c logs id s n f : host_ok c logs -> topics (Host.engine_ c) !! id = Some s ->
  Z.of_nat (length (layout (Host.engine_ c) s)) < 2 ^ 32 ->
  exists c' r, Host.resolve_field c id n f = Some (c', r) /\ host_ok c' logs /\ grown_by id {[n]} c c' /\
  match r with
  | Some rf => accepted c id n (nf_is_null f) (nf_value f)
      /\ resolves (Host.engine_ c') id [n] [(nf_is_null f, nf_value f)] (option_list rf)
  | None => last_error_ c' <> "" /\ ~ accepted c id n (nf_is_null f) (nf_value f)
  end.
Proof.
  intros H Hs Hlen. unfold Host.resolve_field, accepted.
  assert (Htake : forall c' is_null h type d, field_path d = n -> column_at (Host.engine_ c') id (fh_id h) d ->
    (is_null = false -> fromAbiType (sc_type (nf_value f)) = Ok type) -> logical_type d = type ->
    resolves (Host.engine_ c') id [n] [(is_null, nf_value f)] [mkResolved (fh_id h) type is_null (nf_value f)]).
  { intros c' is_null h type d Hp Hd Ha Ht. constructor; [|constructor]. split_and!; [done|done|]. exists d. split_and!; [done|done|].
    intros Hn. by rewrite Ha, Ht. }
  destruct (nf_is_null f) eqn:En.
  - destruct (field_cache_ c !! (id, n)) as [h|] eqn:Ec.
    + destruct (cached_column c logs id n h H Ec) as (d & Hd & Hp & _).
      pose proof (lookupFieldType_ok c logs id (fh_id h) s H Hs) as Hlook.
      destruct (Host.lookupFieldType c id (fh_id h)) as [c1 [existing|]]; destruct Hlook as (H1 & Hw & Hcase); cycle 1.
      { destruct Hcase as (_ & _ & Hno). by apply Hno in Hd. }
      destruct Hcase as (_ & d' & Hd' & Hty & Hcache). assert (d' = d) as -> by by eapply column_at_unique.
      assert (He : Host.engine_ c1 = Host.engine_ c) by (unfold Host.engine_; by rewrite Hw).
      eexists _, _. split; [done|]. split_and!; [done| | |].
      * apply grown_refl; [done|]. intros n' Hn'. apply Hcache. rewrite Hp. set_solver.
      * destruct (fromAbiType _); [left; eauto|done].
      * eapply Htake; try done. by rewrite He.
    + destruct (fromAbiType (sc_type (nf_value f))) as [type|e] eqn:Ea; cycle 1.
      { eexists _, _. split; [done|]. split_and!; [done|by apply grown_refl|done|]. constructor. constructor. }
      destruct (ensureField_ok c logs id s n (sc_type (nf_value f)) H Hs Hlen) as (c1 & r & -> & H1 & Hg & Hcase).
      cbn [mbind option_bind]. eexists _, _. split; [done|]. split_and!; [done|done|]. destruct r as [h|].
      * destruct Hcase as (_ & type' & d & Ha & Hd & Hp & Hty & Hag). rewrite Ea in Ha. injection Ha as <-.
        split; [by right|]. by eapply Htake.
      * destruct Hcase as (He & Hno). split; [done|]. intros [[_ [? ?]]|Hag]; [done|]. by eapply Hno.
  - destruct (fromAbiType (sc_type (nf_value f))) as [type|e] eqn:Ea; cycle 1.
    { eexists _, _. split; [done|]. split_and!; [by apply host_ok_error|by apply grown_refl|by eapply fromAbiType_error|done]. }
    destruct (ensureField_ok c logs id s n (sc_type (nf_value f)) H Hs Hlen) as (c1 & r & -> & H1 & Hg & Hcase).
    cbn [mbind option_bind]. destruct r as [h|].
    + destruct Hcase as (_ & type' & d & Ha & Hd & Hp & Hty & Hag). rewrite Ea in Ha. injection Ha as <-.
      unfold Host.validateScalar. rewrite Ea, decide_True by done. cbn [okStatus]. eexists _, _. split; [done|].
      split_and!; [done|done|by right|]. by eapply Htake.
    + destruct Hcase as (He & Hno). eexists _, _. split; [done|]. split_and!; [done|done|done|].
      intros [[? _]|Hag]; [done|]. by eapply Hno.
Qed.

Definition flagged (f : PJ_named_field_value_t) : bool * PJ_scalar_value_t := (nf_is_null f, nf_value f).

(** The record has distinct names, none of them seen before, on accepted fields. *)
Definition acceptable (c : WriteCore) (id : Z) (seen : gset string) (names : list string) (values : list (bool * PJ_scalar_value_t)) : Prop :=
  NoDup names /\ Forall (fun n => n ∉ seen) names /\ Forall2 (fun n v => accepted c id n v.1 v.2) names values.

Lemma acceptable_cons c c1 id seen n v names values : grown_by id {[n]} c c1 ->
  acceptable c id seen (n :: names) (v :: values)
  <-> (n ∉ seen) /\ accepted c id n v.1 v.2 /\ acceptable c1 id ({[n]} ∪ seen) names values.
Proof.
  intros Hg. unfold acceptable. rewrite NoDup_cons, Forall_cons, Forall2_cons.
  assert (Hrest : n ∉ names -> Forall2 (fun n v => accepted c1 id n v.1 v.2) names values
    <-> Forall2 (fun n v => accepted c id n v.1 v.2) names values).
  { intros Hn. rewrite !Forall2_lookup. split; intros H i; specialize (H i); inversion H as [m x Hx E1 E2|E1 E2]; constructor.
    all: [> assert (m <> n) by (intros ->; apply Hn; by eapply list_elem_of_lookup_2)..]; by eapply (accepted_later c c1). }
  rewrite !Forall_forall. split.
  - intros ([Hn Hnd] & [Hns Hseen] & Ha & Hall). split_and!; [done|done|done| |by apply Hrest].
    intros m Hm. apply not_elem_of_union. split; [|by apply Hseen]. intros ->%elem_of_singleton. done.
  - intros (Hns & Ha & Hnd & Hseen & Hall).
    assert (Hn : n ∉ names) by (intros Hin; specialize (Hseen n Hin); set_solver).
    split_and!; [done|done|done| |done|by apply Hrest]. intros m Hm. specialize (Hseen m Hm). set_solver.
Qed.

Lemma grown_start id c : grown_by id ∅ c c.
Proof. by apply grown_refl. Qed.

Lemma grown_mono id names1 names2 c c' : names1 ⊆ names2 -> grown_by id names1 c c' -> grown_by id names2 c c'.
Proof.
  intros Hsub [G O (more & E & F & L) C]. split; [done|done| |].
  - exists more. split_and!; [done|eapply Forall_impl; [exact F|set_solver]|]. pose proof (subseteq_size _ _ Hsub). lia.
  - intros n Hn. apply C. set_solver.
Qed.

Lemma resolves_grow e e' id names values l : layouts_grow e e' -> resolves e id names values l -> resolves e' id names values l.
Proof. intros Hg. induction 1; constructor; [done| |done]. by eapply resolved_grows. Qed.

Lemma resolve_named_ok id logs fields : forall names c s seen resolved, host_ok c logs -> topics (Host.engine_ c) !! id = Some s ->
  Z.of_nat (length (layout (Host.engine_ c) s) + length fields) < 2 ^ 32 -> Forall2 readable names fields ->
  exists c' r, Host.resolve_named c id fields seen resolved = Some (c', r) /\ host_ok c' logs
    /\ layouts_grow (Host.engine_ c) (Host.engine_ c') /\ (forall i, i <> id -> layout_of (Host.engine_ c') i = layout_of (Host.engine_ c) i) /\
  match r with
  | Some l => acceptable c id seen names (map flagged fields)
      /\ exists new, l = resolved ++ new /\ resolves (Host.engine_ c') id names (map flagged fields) new
  | None => last_error_ c' <> "" /\ ~ acceptable c id seen names (map flagged fields)
  end.
Proof.
  induction fields as [|f fields IH]; intros names c s seen resolved H Hs Hlen Hread.
  { inversion Hread; subst. exists c, (Some resolved). split_and!; [done|done|done|done|by repeat split; constructor|].
    exists []. rewrite app_nil_r. split; [done|constructor]. }
  inversion Hread as [|n ? names' ? [Hn _] Hread']; subst. cbn [Host.resolve_named map]. rewrite Hn. cbn [mbind option_bind].
  destruct (decide (n ∈ seen)) as [Hin|Hin].
  { eexists _, _. split; [done|]. split_and!; [by apply host_ok_error|done|done|done|].
    intros (_ & Hseen & _). by apply Forall_cons in Hseen as [? _]. }
  cbn [length] in Hlen. destruct (resolve_field_ok c logs id s n f H Hs ltac:(lia)) as (c1 & r & -> & H1 & Hg1 & Hcase).
  cbn [mbind option_bind]. pose proof (acceptable_cons c c1 id seen n (flagged f) names' (map flagged fields) Hg1) as Hacc.
  destruct r as [rf|]; cycle 1.
  { destruct Hcase as [He Hno]. eexists _, _. split; [done|]. split_and!; [done|apply Hg1|apply Hg1|done|].
    rewrite Hacc. by intros (_ & ? & _). }
  destruct Hcase as [Ha Hrf]. destruct (grown_topics _ _ _ _ s Hg1 Hs) as (s1 & Hs1 & Hl1). rewrite size_singleton in Hl1.
  destruct (IH names' c1 s1 ({[n]} ∪ seen) (resolved ++ option_list rf) H1 Hs1 ltac:(lia) Hread') as (c2 & r & -> & H2 & Hg2 & Ho2 & Hcase).
  eexists _, _. split; [done|]. split_and!; [done|etrans; [apply Hg1|done]|intros i Hi; rewrite Ho2 by done; by apply Hg1|].
  destruct r as [l|].
  - destruct Hcase as (Hacc2 & new & -> & Hnew). split; [by apply Hacc|]. exists (option_list rf ++ new).
    rewrite app_assoc. split; [done|]. apply (resolves_app _ _ [n] [flagged f]); [|done]. by eapply resolves_grow.
  - destruct Hcase as [He Hno]. split; [done|]. rewrite Hacc. by intros (_ & _ & ?).
Qed.

(** A record is appended exactly when its names are distinct and every field has a supported
    type, the one of its column if the topic has a column of that name; then the log of the topic
    ends with the record, whatever new columns it brought and wherever its chunks ended.  A
    refused record leaves every log alone and an error message. *)
Lemma appendRecord_host c logs id s t names fields : host_ok c logs -> topics (Host.engine_ c) !! id = Some s ->
  Z.of_nat (length (layout (Host.engine_ c) s) + length fields) < 2 ^ 32 -> Forall2 readable names fields ->
  last_time (map fst (logs id)) <= t -> in_s 64 t ->
  let record := (t, values_record names (map flagged fields)) in
  log_fits (logs id ++ [record]) ->
  exists c' r, Host.appendRecord c id t fields = Some (c', r) /\ layouts_grow (Host.engine_ c) (Host.engine_ c')
  /\ (is_Some r <-> acceptable c id ∅ names (map flagged fields))
  /\ (Host.lastError c' = None <-> is_Some r)
  /\ host_ok c' (if decide (is_Some r) then append_log logs id record else logs).
Proof.
  intros H Hs Hlen Hread Ht Hr record Hfit. unfold Host.appendRecord, Engine.getTopicStorage. rewrite Hs.
  destruct (resolve_named_ok id logs fields names c s ∅ [] H Hs Hlen Hread) as (c1 & r & -> & H1 & Hg & _ & Hcase). cbn [mbind option_bind].
  destruct r as [l|]; cycle 1.
  { destruct Hcase as [He Hno]. exists c1, None. split_and!; [done|done| | |by rewrite decide_False by by intros []].
    - split; [by intros []|done].
    - unfold Host.lastError. rewrite decide_False by done. split; [done|by intros []]. }
  destruct Hcase as (Hacc & new & -> & Hnew). destruct (gr_topics _ _ Hg id s Hs) as (s1 & Hs1 & _). cbn [app].
  destruct (write_record_ok c1 logs id s1 t names (map flagged fields) new H1 Hs1) as (c2 & -> & H2 & He & Hg2); try done.
  - apply Hacc.
  - unfold values_ok. apply Forall_map. clear -Hread. induction Hread as [|n f names fields [_ Hf] _ IH]; by constructor.
  - exists c2, (Some tt). split_and!; [done|by etrans| | |by rewrite decide_True by eauto].
    + split; [done|eauto].
    + unfold Host.lastError. rewrite decide_True by done. split; [eauto|done].
Qed.

(** ** Records by field handle *)

Definition bound (f : PJ_bound_field_value_t) : bool * PJ_scalar_value_t := (bf_is_null f, bf_value f).
Definition bound_id (f : PJ_bound_field_value_t) : Z := fh_id (bf_field f).

(** A handle of the topic on one of its columns, and a null or a value of the type of the column. *)
Definition bound_accepted (e : DataEngine) (id : Z) (f : PJ_bound_field_value_t) : Prop :=
  fh_topic (bf_field f) = id
  /\ exists d, column_at e id (bound_id f) d /\ (bf_is_null f = true \/ fromAbiType (sc_type (bf_value f)) = Ok (logical_type d)).

Definition bound_acceptable (e : DataEngine) (id : Z) (seen : gset Z) (fields : list PJ_bound_field_value_t) : Prop :=
  NoDup (map bound_id fields) /\ Forall (fun f => bound_id f ∉ seen) fields /\ Forall (bound_accepted e id) fields.

(** The name behind a handle. *)
Definition bound_name (e : DataEngine) (id : Z) (f : PJ_bound_field_value_t) : string :=
  match layout_of e id !! Z.to_nat (bound_id f) with Some d => field_path d | None => "" end.

Lemma bound_acceptable_cons e id seen f fields : bound_acceptable e id seen (f :: fields)
  <-> bound_accepted e id f /\ (bound_id f ∉ seen) /\ bound_acceptable e id ({[bound_id f]} ∪ seen) fields.
Proof.
  unfold bound_acceptable. cbn [map]. rewrite NoDup_cons, !Forall_cons, !Forall_forall, list_elem_of_fmap. split.
  - intros ([Hn Hnd] & [Hs Hseen] & Ha & Hall). split_and!; try done. intros g Hg. apply not_elem_of_union.
    split; [|by apply Hseen]. intros He%elem_of_singleton. apply Hn. by exists g.
  - intros (Ha & Hs & Hnd & Hseen & Hall). split_and!; try done.
    + intros (g & He & Hg). specialize (Hseen g Hg). set_solver.
    + intros g Hg. specialize (Hseen g Hg). set_solver.
Qed.

Lemma bound_name_at e id f d : column_at e id (bound_id f) d -> bound_name e id f = field_path d.
Proof. intros [_ (i & Hi & Hk)]. unfold bound_name. by rewrite Hk, Nat2Z.id, Hi. Qed.

Lemma bound_names_nodup e id fields : (forall s, topics e !! id = Some s -> settled e s) -> Forall (bound_accepted e id) fields ->
  NoDup (map bound_id fields) -> NoDup (map (bound_name e id) fields).
Proof.
  intros Hset. induction 1 as [|f fields (_ & d & Hd & _) Hall IH]; cbn; [constructor|]. intros [Hn Hnd]%NoDup_cons.
  constructor; [|by apply IH]. intros (g & He & Hg)%list_elem_of_fmap. rewrite Forall_forall in Hall.
  destruct (Hall g Hg) as (_ & d' & Hd' & _). rewrite (bound_name_at e id f d Hd), (bound_name_at e id g d' Hd') in He.
  apply Hn, list_elem_of_fmap. exists g. split; [|done].
  pose proof (column_at_find _ _ _ _ Hset Hd) as H1. pose proof (column_at_find _ _ _ _ Hset Hd') as H2.
  rewrite He, H2 in H1. injection H1 as ->. destruct Hd as [[s Hs] (i & Hi & ->)], Hd' as [_ (j & Hj & ->)].
  f_equal. rewrite (layout_of_Some _ _ _ Hs) in Hi, Hj. destruct (Hset s Hs) as [_ _ Hdense _].
  pose proof (Hdense _ _ Hi). pose proof (Hdense _ _ Hj). lia.
Qed.

Lemma resolve_bound_ok id logs fields : forall c s seen resolved, host_ok c logs -> topics (Host.engine_ c) !! id = Some s ->
  let '(c', r) := Host.resolve_bound c id fields seen resolved in
  host_ok c' logs /\ writer_ c' = writer_ c /\
  match r with
  | Some l => bound_acceptable (Host.engine_ c) id seen fields
      /\ exists new, l = resolved ++ new /\ resolves (Host.engine_ c) id (map (bound_name (Host.engine_ c) id) fields) (map bound fields) new
  | None => last_error_ c' <> "" /\ ~ bound_acceptable (Host.engine_ c) id seen fields
  end.
Proof.
  induction fields as [|f fields IH]; intros c s seen resolved H Hs; cbn [Host.resolve_bound].
  { split_and!; [done|done|by repeat split; constructor|]. exists []. rewrite app_nil_r. split; [done|constructor]. }
  pose proof (bound_acceptable_cons (Host.engine_ c) id seen f fields) as Hacc. change (fh_id (bf_field f)) with (bound_id f).
  destruct (Z.eqb_spec (fh_topic (bf_field f)) id) as [Ht|Ht]; cbn [negb]; cycle 1.
  { split_and!; [by apply host_ok_error|done|done|]. rewrite Hacc. by intros ((? & _) & _). }
  case_decide as Hin.
  { split_and!; [by apply host_ok_error|done|done|]. rewrite Hacc. by intros (_ & ? & _). }
  pose proof (lookupFieldType_ok c logs id (bound_id f) s H Hs) as Hlook.
  destruct (Host.lookupFieldType c id (bound_id f)) as [c1 [type|]]; destruct Hlook as (H1 & Hw & Hcase); cycle 1.
  { destruct Hcase as (He & _ & Hno). split_and!; [done|done|done|]. rewrite Hacc. intros ((_ & d & Hd & _) & _). by eapply Hno. }
  destruct Hcase as (_ & d & Hd & Hty & _). assert (He : Host.engine_ c1 = Host.engine_ c) by (unfold Host.engine_; by rewrite Hw).
  assert (Hval : match (if bf_is_null f then okStatus else Host.validateScalar (bf_value f) type "appendBoundRecord") with
    | Ok _ => bf_is_null f = true \/ fromAbiType (sc_type (bf_value f)) = Ok (logical_type d)
    | Err e => e <> "" /\ ~ bound_accepted (Host.engine_ c) id f end).
  { unfold Host.validateScalar. destruct (bf_is_null f) eqn:En; [by left|].
    assert (Hno : fromAbiType (sc_type (bf_value f)) <> Ok (logical_type d) -> ~ bound_accepted (Host.engine_ c) id f).
    { intros Hne (_ & d' & Hd' & [Hb|Ha]); [congruence|]. by replace d' with d in * by by eapply column_at_unique. }
    destruct (fromAbiType _) as [actual|e] eqn:Ea; [case_decide as Hdec|].
    - right. by rewrite Hdec, Hty.
    - split; [done|]. apply Hno. intros [= ->]. congruence.
    - split; [by eapply fromAbiType_error|]. by apply Hno. }
  destruct (if bf_is_null f then _ else _) as [u|e]; cycle 1.
  { destruct Hval. split_and!; [by apply host_ok_error|done|done|]. rewrite Hacc. by intros (? & _). }
  specialize (IH c1 s ({[bound_id f]} ∪ seen) (resolved ++ [mkResolved (bound_id f) type (bf_is_null f) (bf_value f)]) H1).
  rewrite He in IH. specialize (IH Hs). destruct (Host.resolve_bound _ _ _ _ _) as [c2 r]. destruct IH as (H2 & Hw2 & Hcase).
  split; [done|]. split; [by rewrite Hw2|]. destruct r as [l|].
  - destruct Hcase as (Hacc2 & new & -> & Hnew). split; [apply Hacc; split_and!; [split; [done|]; by exists d|done|done]|].
    eexists. rewrite <- app_assoc. split; [done|]. cbn [app map]. constructor; [|done].
    rewrite (bound_name_at _ _ _ _ Hd). split_and!; [done|done|]. exists d. split_and!; [done|done|]. intros Hn. cbn in Hn |- *.
    destruct Hval as [?|Ha]; [congruence|done].
  - destruct Hcase as [He2 Hno]. split; [done|]. rewrite Hacc. by intros (_ & _ & ?).
Qed.

Lemma appendBoundRecord_host c logs id s t fields : host_ok c logs -> topics (Host.engine_ c) !! id = Some s ->
  Forall (fun f => bf_is_null f = false -> scalar_ok (bf_value f)) fields -> last_time (map fst (logs id)) <= t -> in_s 64 t ->
  let record := (t, values_record (map (bound_name (Host.engine_ c) id) fields) (map bound fields)) in
  log_fits (logs id ++ [record]) ->
  exists c' r, Host.appendBoundRecord c id t fields = Some (c', r)
  /\ (is_Some r <-> bound_acceptable (Host.engine_ c) id ∅ fields) /\ (Host.lastError c' = None <-> is_Some r)
  /\ host_ok c' (if decide (is_Some r) then append_log logs id record else logs).
Proof.
  intros H Hs Hok Ht Hr record Hfit. unfold Host.appendBoundRecord, Engine.getTopicStorage. rewrite Hs.
  pose proof (resolve_bound_ok id logs fields c s ∅ [] H Hs) as Hcase. destruct (Host.resolve_bound c id fields ∅ []) as [c1 [l|]];
    destruct Hcase as (H1 & Hw & Hcase); cycle 1.
  { destruct Hcase as [He Hno]. exists c1, None. split_and!; [done| | |by rewrite decide_False by by intros []].
    - split; [by intros []|done].
    - unfold Host.lastError. rewrite decide_False by done. split; [done|by intros []]. }
  destruct Hcase as (Hacc & new & -> & Hnew). assert (He1 : Host.engine_ c1 = Host.engine_ c) by (unfold Host.engine_; by rewrite Hw).
  cbn [app]. destruct (write_record_ok c1 logs id s t (map (bound_name (Host.engine_ c) id) fields) (map bound fields) new H1)
    as (c2 & -> & H2 & He & _); rewrite ?He1; try done.
  - destruct Hacc as (Hnd & _ & Hall). apply bound_names_nodup; [|done|done]. intros. by eapply co_settled; [apply H|].
  - unfold values_ok. by apply Forall_map.
  - exists c2, (Some tt). split_and!; [done| | |by rewrite decide_True by eauto].
    + split; [done|eauto].
    + unfold Host.lastError. rewrite decide_True by done. split; [eauto|done].
Qed.

(** C9: a record by handles for a topic of the host, with values that are as their types say, not before
    the last record of the topic and within the 32 bits of rows and bytes: it is appended exactly when the
    handles are distinct and on columns of the topic and every value is null or has the type of its
    column; its values are then under the names of those columns.  Otherwise every log is left alone,
    with an error message.  No column is added. *)
Theorem appendBoundRecord_spec c logs id s t fields : host_ok c logs -> topics (Host.engine_ c) !! id = Some s ->
  Forall (fun f => bf_is_null f = false -> scalar_ok (bf_value f)) fields -> last_time (map fst (logs id)) <= t -> in_s 64 t ->
  let record := (t, values_record (map (bound_name (Host.engine_ c) id) fields) (map bound fields)) in
  log_fits (logs id ++ [record]) ->
  exists c' r, Host.appendBoundRecord c id t fields = Some (c', r)
  /\ (is_Some r <-> bound_acceptable (Host.engine_ c) id ∅ fields) /\ (Host.lastError c' = None <-> is_Some r)
  /\ host_ok c' (if decide (is_Some r) then append_log logs id record else logs).
Proof. exact (appendBoundRecord_host c logs id s t fields). Qed.
