(* ===== verification/HostRun.v ===== *)
(** * HostRun: sessions of a plugin

    Any sequence of calls of a plugin on its [WriteCore]
    ([src/pj_datastore/src/plugin_data_host.cpp]): creating data sources, topics
    and fields, appending records and flushing.  The logs the session should
    have written are, after a flush, what the storages hold. *)

From S2P Require Import Prelude Types TypeTree TypeRegistry Float64 Buffer Encoding Column Chunk Query TopicStorage Engine Writer Ingest Layout WriterState Records Host HostState HostLog.

(** ** Starting on an engine *)

(** The storages of the engine hold the logs. *)
Record engine_logs (e : DataEngine) (logs : Z -> list LogRecord) : Prop := {
  el_engine : engine_ok e;
  el_settled : forall id s, topics e !! id = Some s -> settled e s;
  el_stored : forall id s, topics e !! id = Some s -> stored (layout e s) (sealed_chunks_ s) (logs id);
  el_sorted : forall id s, topics e !! id = Some s -> sorted (map fst (logs id));
  el_absent : forall id, topics e !! id = None -> logs id = []
}.

Lemma make_host_ok e n logs : engine_logs e logs -> host_ok (Host.make e n) logs.
Proof.
  intros [He Hset Hst Hs Ha]. split; [| |done].
  - split; [by apply make_writer_ok|done|done|done|done|done].
  - split; [|done]. intros id s Hid. change (engine (writer_ (Host.make e n))) with e in Hid.
    rewrite (layout_of_Some (Host.engine_ (Host.make e n)) id s Hid). change (Host.engine_ (Host.make e n)) with e.
    destruct (Hset id s Hid) as [H1 H2 H3 H4]. split; [|done|done|by eapply Hs].
    exists s, (logs id), []. rewrite app_nil_r. split_and!; [done| |done| |done].
    + apply loaded_layout; [by eapply Hset|done].
    + cbn. rewrite app_nil_r. by apply Hst.
Qed.

(** ** Flushing *)

Lemma stored_no_columns cs log : stored [] cs log -> Forall (fun c => columns c = []) cs.
Proof.
  intros (groups & _ & H). induction H as [|c g cs groups Hc _ IH]; constructor; [|done].
  pose proof (cr_layout _ _ _ Hc) as Hp. apply prefix_nil_inv in Hp. by apply map_eq_nil in Hp.
Qed.

Lemma all_stored_host c w' logs : host_ok c logs -> writer_ok w' ->
  all_stored (writer_ c) w' (layout_of (Host.engine_ c)) logs ->
  host_ok (Host.with_writer c w') logs /\ (forall id, layout_of (engine w') id = layout_of (Host.engine_ c) id)
  /\ engine_logs (engine w') logs.
Proof.
  intros H Hw [Hl Hp Hb He Ht Hc Hcol].
  assert (Hreg : type_registry (engine w') = type_registry (Host.engine_ c)) by (unfold Host.engine_; by rewrite He).
  assert (Hback : forall id s', topics (engine w') !! id = Some s' -> exists s cs, topics (Host.engine_ c) !! id = Some s
    /\ s' = Storage.with_chunks s (sealed_chunks_ s ++ cs) /\ layout (engine w') s' = layout (Host.engine_ c) s
    /\ stored (layout (engine w') s') (sealed_chunks_ s') (logs id)).
  { intros id s' Hs'. destruct (topics (Host.engine_ c) !! id) as [s|] eqn:Es; [|by rewrite (Ht id Es) in Hs'].
    destruct (Hc id s Es) as (cs & Hs & Hst). rewrite Hs in Hs'. injection Hs' as <-. exists s, cs.
    assert (Hlay : layout (engine w') (Storage.with_chunks s (sealed_chunks_ s ++ cs)) = layout (Host.engine_ c) s)
      by (rewrite <- (layout_registry _ _ s Hreg); done).
    rewrite (layout_of_Some _ _ _ Es) in Hst. split_and!; [done|done|done|by rewrite Hlay]. }
  assert (Hlayout : forall id, layout_of (engine w') id = layout_of (Host.engine_ c) id).
  { intros id. unfold layout_of. destruct (topics (engine w') !! id) as [s'|] eqn:Es'.
    - destruct (Hback id s' Es') as (s & cs & -> & _ & Hlay & _). done.
    - destruct (topics (Host.engine_ c) !! id) as [s|] eqn:Es; [|done]. destruct (Hc id s Es) as (cs & Hs & _). congruence. }
  assert (Hset : forall id s', topics (engine w') !! id = Some s' -> settled (engine w') s').
  { intros id s' Hs'. destruct (Hback id s' Hs') as (s & cs & Hs & -> & Hlay & Hst).
    destruct (co_settled _ (ho_core _ _ H) id s Hs) as [H1 H2 H3 H4]. split; rewrite ?Hlay; [by rewrite Hreg| |done|done].
    intros Hnil. rewrite Hlay, Hnil in Hst. by eapply stored_no_columns. }
  split; [|split; [done|]].
  - split; [|split; [|by apply Hl]|].
    + apply core_ok_writer; [apply H|done| |done|].
      * split; [|intros id _; by rewrite Hlayout]. intros id s Hs. destruct (Hc id s Hs) as (cs & Hs' & _). by eexists.
      * intros id cols Hi Hne. rewrite Hcol in Hi. rewrite Hlayout. by eapply co_loaded; [apply H| |].
    + intros id s Hs. change (Host.engine_ (Host.with_writer c w')) with (engine w'). rewrite Hlayout. by eapply al_topics.
    + intros id Hid. apply (ho_absent _ _ H). destruct (topics (Host.engine_ c) !! id) as [s|] eqn:Es; [|done].
      destruct (Hc id s Es) as (cs & Hs & _). change (Host.engine_ (Host.with_writer c w')) with (engine w') in Hid. congruence.
  - split; [apply Hw|done| | |].
    + intros id s' Hs'. destruct (Hback id s' Hs') as (s & cs & _ & _ & _ & Hst). done.
    + intros id s' Hs'. destruct (Hback id s' Hs') as (s & cs & Hs & _). by eapply lg_sorted, host_logged.
    + intros id Hid. apply (ho_absent _ _ H). destruct (topics (Host.engine_ c) !! id) as [s|] eqn:Es; [|done].
      destruct (Hc id s Es) as (cs & Hs & _). congruence.
Qed.

Lemma flushPending_host iter (Hiter : forall A (m : gmap Z A), iter A m ≡ₚ map_to_list m) c logs : host_ok c logs ->
  exists c', Host.flushPending iter c = Some c' /\ host_ok c' logs /\ engine_logs (Host.engine_ c') logs
    /\ pending_chunks (writer_ c') = ∅ /\ (forall id b, builders (writer_ c') !! id = Some b -> ~ 0 < Builder.rowCount b)
    /\ last_error_ c' = last_error_ c.
Proof.
  intros H. pose proof (co_writer _ (ho_core _ _ H)) as Hw.
  destruct (flush_logged iter Hiter (writer_ c) _ logs (wo_engine _ Hw) (ho_logs _ _ H)) as (w1 & chunks & Hfl & He & Hwf & Hst).
  destruct (flushAll_ok iter Hiter _ _ _ Hw Hfl) as [[Hw1 _] _].
  set (w2 := Writer.with_engine w1 (Engine.commitChunks (engine w1) chunks).1) in *.
  assert (Hw2 : writer_ok w2) by (apply (writer_ok_engine w1); try done; apply commitChunks_ok; [apply Hw1|done]).
  destruct (all_stored_host c w2 logs H Hw2 Hst) as (H2 & _ & Hlogs).
  exists (Host.with_writer c w2). split; [|split_and!; [done|done|apply Hst|apply Hst|done]].
  unfold Host.flushPending. rewrite Hfl. cbn [mbind option_bind]. destruct chunks; [|done]. by destruct w1 as [[]].
Qed.

(** ** Topics and data sources *)

(** An engine that lost nothing and gained topics that are empty. *)
Record gained (e e' : DataEngine) : Prop := {
  gn_registry : type_registry e' = type_registry e;
  gn_kept : forall id s, topics e !! id = Some s -> topics e' !! id = Some s;
  gn_new : forall id s', topics e !! id = None -> topics e' !! id = Some s' -> settled e' s' /\ sealed_chunks_ s' = []
}.

Lemma gained_host c logs e' : host_ok c logs -> engine_ok e' -> gained (Host.engine_ c) e' ->
  host_ok (Host.with_writer c (Writer.with_engine (writer_ c) e')) logs /\ layouts_grow (Host.engine_ c) e'.
Proof.
  intros H He [Hreg Hkept Hnew].
  assert (Hlay : forall id, is_Some (topics (Host.engine_ c) !! id) -> layout_of e' id = layout_of (Host.engine_ c) id).
  { intros id [s Hs]. rewrite (layout_of_Some _ _ _ Hs), (layout_of_Some _ _ _ (Hkept id s Hs)). by apply layout_registry. }
  assert (Hgrow : layouts_grow (Host.engine_ c) e') by (split; [eauto|intros id Hid; by rewrite Hlay]).
  split; [|done]. split.
  - apply core_ok_writer; [apply H|apply (writer_ok_engine (writer_ c)); try done; apply H|done| |].
    + intros id s Hs. change (engine (Writer.with_engine (writer_ c) e')) with e' in *.
      destruct (topics (Host.engine_ c) !! id) as [s0|] eqn:Es; [|by eapply Hnew].
      rewrite (Hkept id s0 Es) in Hs. injection Hs as <-. eapply settled_registry; [exact Hreg|]. by eapply co_settled; [apply H|].
    + intros id cols Hi Hne. change (engine (Writer.with_engine (writer_ c) e')) with e'.
      pose proof (co_loaded _ (ho_core _ _ H) id cols Hi Hne) as Hcols. rewrite Hlay; [done|].
      destruct (topics (Host.engine_ c) !! id) as [s|] eqn:Es; [eauto|]. unfold layout_of in Hcols. by rewrite Es in Hcols.
  - split.
    + intros id s Hs. change (Host.engine_ (Host.with_writer c (Writer.with_engine (writer_ c) e'))) with e'.
      cbn in Hs. rewrite (layout_of_Some _ _ _ Hs). destruct (topics (Host.engine_ c) !! id) as [s0|] eqn:Es.
      * rewrite (Hkept id s0 Es) in Hs. injection Hs as <-. rewrite (layout_registry _ _ s0 Hreg).
        destruct (host_logged c logs id s0 H Es) as [(s' & dn & cur & Hs' & Hld & Hrows) Hd Hp Ho]. split; [|done..].
        exists s', dn, cur. unfold Writer.loaded_columns, building in *. cbn. rewrite Hreg. split; [by apply Hkept|done].
      * destruct (Hnew id s Es Hs) as [Hset Hc]. rewrite (ho_absent _ _ H id Es).
        destruct (al_none _ _ _ (ho_logs _ _ H) id Es) as [Hb Hp].
        assert (Hload : Writer.loaded_columns (Writer.with_engine (writer_ c) e') id s = Some (layout e' s)).
        { apply loaded_layout; [done|]. intros cols Hi Hne. pose proof (co_loaded _ (ho_core _ _ H) id cols Hi Hne) as Hcols.
          unfold layout_of in Hcols. by rewrite Es in Hcols. }
        destruct Hset as [_ _ Hd Hn]. split; [|done|done|constructor]. exists s, [], []. cbn. rewrite Hp, Hc.
        split_and!; [done|done|done|apply stored_nil|]. unfold building. cbn. by rewrite Hb.
    + intros id Hid. cbn in Hid |- *. apply (al_none _ _ _ (ho_logs _ _ H)).
      destruct (topics (engine (writer_ c)) !! id) as [s|] eqn:Es; [|done]. by rewrite (Hkept id s Es) in Hid.
  - intros id Hid. apply (ho_absent _ _ H). destruct (topics (Host.engine_ c) !! id) as [s|] eqn:Es; [|done].
    cbn in Hid. by rewrite (Hkept id s Es) in Hid.
Qed.

Lemma with_writer_same c : Host.with_writer c (writer_ c) = c.
Proof. by destruct c. Qed.

Lemma createDataSource_host c logs name : host_ok c logs -> next_dataset_id (Host.engine_ c) + 1 < 2 ^ 32 ->
  let '(c', r) := Host.createDataSource c name in
  host_ok c' logs /\ r = Some (next_dataset_id (Host.engine_ c)) /\ Engine.getDataset (Host.engine_ c') (next_dataset_id (Host.engine_ c)) <> None.
Proof.
  intros H Hlt. pose proof (co_writer _ (ho_core _ _ H)) as Hw. unfold Host.createDataSource.
  pose proof (createDataset_ok (Host.engine_ c) (mkDatasetDescriptor name 0) (wo_engine _ Hw) Hlt) as He.
  cbn in He |- *. set (e' := mkEngine _ _ _ _ _ _ _) in *. split_and!; [|done|].
  - apply host_ok_error. apply gained_host; [done|done|]. split; [done|done|]. intros id s' Hn Hs. cbn in Hs. congruence.
  - cbn. unfold Engine.getDataset. cbn. unfold Engine.emplace. case_match eqn:E; [congruence|]. by rewrite lookup_insert_eq.
Qed.

(** Entering a topic of the engine in the cache. *)
Lemma remember_topic_host c logs ds n id s m : host_ok c logs -> topics (Host.engine_ c) !! id = Some s ->
  dataset_id (descriptor_ s) = ds -> name (descriptor_ s) = n ->
  host_ok (Host.setError (Host.remember_topic c ds n id) m) logs.
Proof.
  intros [[H1 H2 H3 H4 H5 H6] Hl Ha] Hs Hds Hn. apply host_ok_error. split; [|done|done]. split; try done.
  intros ds' n' id'. cbn. rewrite lookup_insert_Some. intros [[[= <- <-] <-]|[_ Hc]]; [by exists s|by apply H4].
Qed.

Lemma find_topic_spec e ids n :
  match Host.find_topic e ids n with
  | Some id => id ∈ ids /\ exists s, topics e !! id = Some s /\ name (descriptor_ s) = n
  | None => forall id s, id ∈ ids -> topics e !! id = Some s -> name (descriptor_ s) <> n
  end.
Proof.
  induction ids as [|id ids IH]; [by intros ? ? ?%not_elem_of_nil|]. cbn [Host.find_topic]. unfold Engine.getTopicStorage.
  assert (Hrest : forall r : option Z, r = Host.find_topic e ids n -> match topics e !! id with Some s => name (descriptor_ s) <> n | None => True end ->
    match r with
    | Some i => i ∈ id :: ids /\ exists s, topics e !! i = Some s /\ name (descriptor_ s) = n
    | None => forall i s, i ∈ id :: ids -> topics e !! i = Some s -> name (descriptor_ s) <> n
    end).
  { intros r -> Hid. destruct (Host.find_topic e ids n); [destruct IH; split; [by right|done]|].
    intros i s [->|Hi]%elem_of_cons Hs; [by rewrite Hs in Hid|by eapply IH]. }
  destruct (topics e !! id) as [s|] eqn:Es; [case_decide as Hn|]; [|by apply Hrest..]. split; [by left|eauto].
Qed.

Lemma fresh_topic_settled e id n ds : settled e (Storage.make id (mkTopicDescriptor n 0 ds 1024 64)) \/ exists tree, Registry.lookup (type_registry e) 0 = Some tree.
Proof.
  unfold Registry.lookup. destruct (schemas (type_registry e) !! 0) as [tree|] eqn:E; [right; eauto|left].
  assert (Hl : layout e (Storage.make id (mkTopicDescriptor n 0 ds 1024 64)) = []) by (unfold layout, Registry.lookup; cbn; by rewrite E).
  split; rewrite ?Hl; [|by constructor|by intros ? ?|constructor]. unfold Registry.lookup. cbn. by rewrite E.
Qed.

Lemma createTopic_gained e ds n : engine_ok e -> is_Some (datasets e !! ds) ->
  let '(e', r) := Engine.createTopic e ds (mkTopicDescriptor n 0 0 1024 64) in
  r = Ok (next_topic_id e) /\ gained e e' /\ topics e !! next_topic_id e = None
  /\ topics e' !! next_topic_id e = Some (Storage.make (next_topic_id e) (mkTopicDescriptor n 0 ds 1024 64)).
Proof.
  intros He [info Hds]. pose proof (createTopic_cases e ds (mkTopicDescriptor n 0 0 1024 64) He) as Hc.
  assert (Hok : (Engine.createTopic e ds (mkTopicDescriptor n 0 0 1024 64)).2 = Ok (next_topic_id e)) by (unfold Engine.createTopic; by rewrite Hds).
  destruct (Engine.createTopic _ _ _) as [e' r]. cbn in Hok. subst r. destruct Hc as (Hreg & _ & _ & Hfresh & Ht).
  cbn in Ht. assert (Hnew : topics e' !! next_topic_id e = Some (Storage.make (next_topic_id e) (mkTopicDescriptor n 0 ds 1024 64))) by (by rewrite Ht, lookup_insert_eq).
  split_and!; [done| |done|done]. split; [done| |].
  - intros id s Hs. rewrite Ht, lookup_insert_ne; [done|]. intros <-. congruence.
  - intros id s' Hn Hs'. rewrite Ht in Hs'. apply lookup_insert_Some in Hs' as [[<- <-]|[_ Hs']]; [|congruence]. split; [|done].
    destruct (fresh_topic_settled e' (next_topic_id e) n ds) as [|[tree Htree]]; [done|]. rewrite Hreg in Htree.
    pose proof (rg_fresh _ (en_registry _ He) 0 ltac:(eauto)). lia.
Qed.

(** A success: the topic is there under the name, and asking again gives it again. *)
Definition topic_given (c : WriteCore) (ds : Z) (n : string) (id : Z) : Prop :=
  (exists s, topics (Host.engine_ c) !! id = Some s /\ dataset_id (descriptor_ s) = ds /\ name (descriptor_ s) = n)
  /\ (Host.ensureTopic c ds n).2 = Some id /\ Host.lastError c = None.

Lemma ensureTopic_host c logs ds n : host_ok c logs -> next_topic_id (Host.engine_ c) + 1 < 2 ^ 32 ->
  let '(c', r) := Host.ensureTopic c ds n in
  host_ok c' logs /\ layouts_grow (Host.engine_ c) (Host.engine_ c') /\
  match r with
  | None => Engine.getDataset (Host.engine_ c) ds = None /\ Host.lastError c' <> None /\ writer_ c' = writer_ c
  | Some id => topic_given c' ds n id
      /\ (if decide (is_Some (topics (Host.engine_ c) !! id)) then writer_ c' = writer_ c
          else gained (Host.engine_ c) (Host.engine_ c') /\ id = next_topic_id (Host.engine_ c)
               /\ forall i s, topics (Host.engine_ c) !! i = Some s -> dataset_id (descriptor_ s) = ds -> name (descriptor_ s) <> n)
  end.
Proof.
  intros H Hlt. pose proof (co_writer _ (ho_core _ _ H)) as Hw. pose proof (wo_engine _ Hw) as He. change (engine (writer_ c)) with (Host.engine_ c) in He.
  unfold Host.ensureTopic. destruct (Engine.getDataset (Host.engine_ c) ds) as [info|] eqn:Eds; cycle 1.
  { split_and!; [by apply host_ok_error|done|done|done|done]. }
  assert (Hd0 : Engine.getDataset (Host.engine_ c) ds <> None) by by rewrite Eds.
  assert (Hgiven : forall c' id, Engine.getDataset (Host.engine_ c') ds <> None -> topic_cache_ c' !! (ds, n) = Some id -> host_ok c' logs ->
    last_error_ c' = "" -> topic_given c' ds n id).
  { intros c' id Hd Hc Hok Hm. split; [|split; [|by unfold Host.lastError; rewrite decide_True]].
    - by apply (co_topics _ (ho_core _ _ Hok)).
    - unfold Host.ensureTopic. destruct (Engine.getDataset (Host.engine_ c') ds); [|by destruct Hd]. by rewrite Hc. }
  destruct (topic_cache_ c !! (ds, n)) as [id|] eqn:Ec.
  { destruct (co_topics _ (ho_core _ _ H) _ _ _ Ec) as (s & Hs & _). split_and!; [by apply host_ok_error|done| |].
    - apply Hgiven; [exact Hd0|done|by apply host_ok_error|done].
    - rewrite decide_True by eauto. done. }
  pose proof (find_topic_spec (Host.engine_ c) (merge_sort Z.le (Engine.listTopics (Host.engine_ c) ds)) n) as Hfind.
  assert (Hlist : forall id s, id ∈ Engine.listTopics (Host.engine_ c) ds -> topics (Host.engine_ c) !! id = Some s -> dataset_id (descriptor_ s) = ds).
  { intros id s Hin Hs. unfold Engine.listTopics, Engine.getDataset in *. rewrite Eds in Hin.
    destruct (en_listed _ He ds info id Eds Hin) as (s' & Hs' & <-). by simplify_eq. }
  destruct (Host.find_topic _ _ n) as [id|].
  { destruct Hfind as [Hin (s & Hs & Hn)]. rewrite merge_sort_Permutation in Hin.
    assert (Hok : host_ok (Host.setError (Host.remember_topic c ds n id) "") logs) by (eapply remember_topic_host; eauto).
    split_and!; [done|done| |].
    - apply Hgiven; [exact Hd0|by apply lookup_insert_eq|done|done].
    - rewrite decide_True by eauto. done. }
  unfold Writer.registerTopic. change (engine (writer_ c)) with (Host.engine_ c).
  pose proof (createTopic_gained (Host.engine_ c) ds n He ltac:(eauto)) as Hcreate.
  pose proof (createTopic_ok (Host.engine_ c) ds (mkTopicDescriptor n 0 0 1024 64) He Hlt ltac:(split; cbn; lia)) as He'.
  assert (Hds' : Engine.getDataset (Engine.createTopic (Host.engine_ c) ds (mkTopicDescriptor n 0 0 1024 64)).1 ds <> None).
  { unfold Engine.createTopic, Engine.getDataset in *. rewrite Eds. cbn. by rewrite lookup_insert_eq. }
  destruct (Engine.createTopic _ _ _) as [e' r]. destruct Hcreate as (-> & Hg & Hfresh & Hnew). cbn [fst] in *.
  destruct (gained_host c logs e' H He' Hg) as [Hok1 Hgrow].
  assert (Hok : host_ok (Host.setError (Host.remember_topic (Host.with_writer c (Writer.with_engine (writer_ c) e')) ds n (next_topic_id (Host.engine_ c))) "") logs)
    by (eapply remember_topic_host; [done|exact Hnew|done|done]).
  split_and!; [done|done| |].
  - apply Hgiven; [done|by apply lookup_insert_eq|done|done].
  - rewrite decide_False by by rewrite Hfresh; intros []. split_and!; [done|done|]. intros i s Hs Hds. apply (Hfind i); [|done].
    rewrite merge_sort_Permutation. destruct (en_owner _ He i s Hs) as (info' & Hinfo & Hin). unfold Engine.listTopics. by rewrite <- Hds, Hinfo.
Qed.

(** [ensureTopic] fails exactly for a data source that does not exist.  It gives a topic of the
    data source with that name and gives it again when asked again; it creates one only if there is
    none, and then only that one, empty.  The logs of all topics are kept. *)
Theorem ensureTopic_spec c logs ds n : host_ok c logs -> next_topic_id (Host.engine_ c) + 1 < 2 ^ 32 ->
  let '(c', r) := Host.ensureTopic c ds n in
  host_ok c' logs /\ layouts_grow (Host.engine_ c) (Host.engine_ c') /\
  match r with
  | None => Engine.getDataset (Host.engine_ c) ds = None /\ Host.lastError c' <> None /\ writer_ c' = writer_ c
  | Some id => topic_given c' ds n id
      /\ (if decide (is_Some (topics (Host.engine_ c) !! id)) then writer_ c' = writer_ c
          else gained (Host.engine_ c) (Host.engine_ c') /\ id = next_topic_id (Host.engine_ c)
               /\ forall i s, topics (Host.engine_ c) !! i = Some s -> dataset_id (descriptor_ s) = ds -> name (descriptor_ s) <> n)
  end.
Proof. exact (ensureTopic_host c logs ds n). Qed.

(** ** Sessions *)

Section Sessions.
Context (iter : forall A, gmap Z A -> list (Z * A)).

(** The calls of a plugin and the logs they should leave.  A plugin keeps to the C interface, does
    not go back in time within a topic, and stays within the 32 bits of rows, bytes and ids. *)
Inductive session : WriteCore -> (Z -> list LogRecord) -> Prop :=
| session_start e n logs : engine_logs e logs -> session (Host.make e n) logs
| session_createDataSource c logs name : session c logs -> next_dataset_id (Host.engine_ c) + 1 < 2 ^ 32 ->
    session (Host.createDataSource c name).1 logs
| session_ensureTopic c logs ds n : session c logs -> next_topic_id (Host.engine_ c) + 1 < 2 ^ 32 ->
    session (Host.ensureTopic c ds n).1 logs
| session_ensureField c logs id n abi c' r : session c logs -> Z.of_nat (length (layout_of (Host.engine_ c) id)) < 2 ^ 32 ->
    Host.ensureField c id n abi = Some (c', r) -> session c' logs
| session_appendRecord c logs id t names fields c' r : session c logs ->
    Z.of_nat (length (layout_of (Host.engine_ c) id) + length fields) < 2 ^ 32 -> Forall2 readable names fields ->
    last_time (map fst (logs id)) <= t -> in_s 64 t -> log_fits (logs id ++ [(t, values_record names (map flagged fields))]) ->
    Host.appendRecord c id t fields = Some (c', r) ->
    session c' (if decide (is_Some r) then append_log logs id (t, values_record names (map flagged fields)) else logs)
| session_appendBoundRecord c logs id t fields c' r : session c logs ->
    Forall (fun f => bf_is_null f = false -> scalar_ok (bf_value f)) fields -> last_time (map fst (logs id)) <= t -> in_s 64 t ->
    let record := (t, values_record (map (bound_name (Host.engine_ c) id) fields) (map bound fields)) in
    log_fits (logs id ++ [record]) -> Host.appendBoundRecord c id t fields = Some (c', r) ->
    session c' (if decide (is_Some r) then append_log logs id record else logs)
| session_flushPending c logs c' : session c logs -> Host.flushPending iter c = Some c' -> session c' logs
| session_setTarget c logs target logs' old c' : session c logs -> engine_logs target logs' ->
    Host.setTarget iter c target = Some (old, c') -> session c' logs'.

Context (Hiter : forall A (m : gmap Z A), iter A m ≡ₚ map_to_list m).

Lemma unknown_topic {A} c logs id (r : option A) : host_ok c logs -> topics (Host.engine_ c) !! id = None ->
  forall c', Some (Host.fail c (Host.topic_not_found id)) = Some (c', r) -> host_ok c' logs /\ r = None.
Proof. intros H _ c' [= <- <-]. split; [by apply host_ok_error|done]. Qed.

Lemma session_ok c logs : session c logs -> host_ok c logs.
Proof.
  induction 1 as [e n logs H|c logs name _ IH Hlt|c logs ds n _ IH Hlt|c logs id n abi c' r _ IH Hlen Hc
    |c logs id t names fields c' r _ IH Hlen Hread Ht Hr Hfit Hc|c logs id t fields c' r _ IH Hok Ht Hr record Hfit Hc
    |c logs c' _ IH Hc|c logs target logs' old c' _ IH Hlogs Hc].
  - by apply make_host_ok.
  - pose proof (createDataSource_host c logs name IH Hlt) as H. destruct (Host.createDataSource c name). apply H.
  - pose proof (ensureTopic_host c logs ds n IH Hlt) as H. destruct (Host.ensureTopic c ds n). apply H.
  - destruct (topics (Host.engine_ c) !! id) as [s|] eqn:Es.
    + rewrite (layout_of_Some _ _ _ Es) in Hlen. destruct (ensureField_ok c logs id s n abi IH Es Hlen) as (c1 & r1 & H1 & H2 & _).
      by simplify_eq.
    + unfold Host.ensureField, Engine.getTopicStorage in Hc. rewrite Es in Hc. by eapply unknown_topic in Hc as [? _].
  - destruct (topics (Host.engine_ c) !! id) as [s|] eqn:Es.
    + rewrite (layout_of_Some _ _ _ Es) in Hlen.
      destruct (appendRecord_host c logs id s t names fields IH Es Hlen Hread Ht Hr Hfit) as (c1 & r1 & H1 & _ & _ & _ & H2). by simplify_eq.
    + unfold Host.appendRecord, Engine.getTopicStorage in Hc. rewrite Es in Hc. eapply unknown_topic in Hc as [? ->]; [|done..].
      by rewrite decide_False by by intros [].
  - destruct (topics (Host.engine_ c) !! id) as [s|] eqn:Es.
    + destruct (appendBoundRecord_host c logs id s t fields IH Es Hok Ht Hr Hfit) as (c1 & r1 & H1 & _ & _ & H2). by simplify_eq.
    + unfold Host.appendBoundRecord, Engine.getTopicStorage in Hc. rewrite Es in Hc. eapply unknown_topic in Hc as [? ->]; [|done..].
      by rewrite decide_False by by intros [].
  - destruct (flushPending_host iter Hiter c logs IH) as (c1 & H1 & H2 & _). by simplify_eq.
  - destruct (flushPending_host iter Hiter c logs IH) as (c1 & H1 & _). unfold Host.setTarget in Hc. rewrite H1 in Hc.
    cbn [mbind option_bind] in Hc. apply (inj Some) in Hc. injection Hc as _ <-. by apply make_host_ok.
Qed.

(** C4: whatever calls a plugin's session makes, in any order, of the data source, topic, field,
    record and flush calls of its host (and retargetings to engines whose contents are known), as
    long as it gives a topic no record before the last one of the topic, strings that are there, and
    less than 32 bits of rows, bytes and ids: the host's caches, columns and builders agree, and a
    flush succeeds and leaves in the storages of the engine exactly the logs of the session, with
    nothing left in the writer: every accepted record, no refused one, in order, under its names, with
    cells that read as in [cell_reads].  A record that goes back in time may be accepted and then
    dropped, if it follows an automatic seal. *)
Theorem session_records c logs : session c logs ->
  host_ok c logs /\ exists c', Host.flushPending iter c = Some c' /\ engine_logs (Host.engine_ c') logs
    /\ pending_chunks (writer_ c') = ∅ /\ forall id b, builders (writer_ c') !! id = Some b -> ~ 0 < Builder.rowCount b.
Proof.
  intros H%session_ok. split; [done|]. destruct (flushPending_host iter Hiter c logs H) as (c' & H1 & _ & H2 & H3 & H4 & _). eauto 10.
Qed.

End Sessions.
