(* ===== verification/HostDemo.v ===== *)
(** * HostDemo: a plugin's session, run

    A plugin creates a data source and a topic, appends records by name and by
    handle and flushes: the theorems of HostLog and HostRun apply to it. *)

From S2P Require Import Prelude Types TypeTree TypeRegistry Float64 Buffer Encoding Column Chunk Query TopicStorage Engine Writer Ingest Layout WriterState Records Host HostState HostLog HostRun.

(** ** The calls *)

Definition view_of (s : string) : PJ_string_view_t := mkView (Some s) (Z.of_nat (String.length s)).
Definition scalar (type : PrimitiveType) (data : PJ_scalar_value_data_t) : PJ_scalar_value_t := mkScalar (Host.toAbiType type) data.
Definition arm_x : PJ_scalar_value_t := scalar kFloat64 (as_float64 4609434218613702656).
Definition arm_mode : PJ_scalar_value_t := scalar kString (as_string (view_of "idle")).
Definition arm_names : list string := ["x"; "mode"].
Definition arm_fields : list PJ_named_field_value_t := [mkNamedField (view_of "x") false arm_x; mkNamedField (view_of "mode") false arm_mode].
Definition arm_twice : list PJ_named_field_value_t := [mkNamedField (view_of "x") false arm_x; mkNamedField (view_of "x") true arm_x].
Definition arm_bound : list PJ_bound_field_value_t :=
  [mkBoundField (mkFieldHandle 1 1) false arm_mode; mkBoundField (mkFieldHandle 1 0) true arm_x].

Definition arm_source : WriteCore := Eval vm_compute in (Host.createDataSource (Host.make Engine.make 1) "robot").1.
Definition arm_topic : WriteCore := Eval vm_compute in (Host.ensureTopic arm_source 1 "/arm").1.
Definition arm_named : WriteCore := Eval vm_compute in default arm_topic (fst <$> Host.appendRecord arm_topic 1 10 arm_fields).
Definition arm_handled : WriteCore := Eval vm_compute in default arm_topic (fst <$> Host.appendBoundRecord arm_named 1 20 arm_bound).

Definition no_logs : Z -> list LogRecord := fun _ => [].
Definition first_record : LogRecord := (10, values_record arm_names (map flagged arm_fields)).
Definition second_record : LogRecord := (20, values_record (map (bound_name (Host.engine_ arm_named) 1) arm_bound) (map bound arm_bound)).

Lemma fresh_logs : engine_logs Engine.make no_logs.
Proof.
  split; [apply engine_reachable_ok; constructor| | | |done].
  all: intros id s Hs; exfalso; exact (lookup_empty_Some id s Hs).
Qed.

Lemma arm_topic_session : session listing arm_topic no_logs.
Proof.
  change arm_topic with (Host.ensureTopic arm_source 1 "/arm").1. apply session_ensureTopic; [|by vm_compute].
  change arm_source with (Host.createDataSource (Host.make Engine.make 1) "robot").1.
  apply session_createDataSource; [|by vm_compute]. apply session_start, fresh_logs.
Qed.

(** ** The theorems at these calls *)

Lemma arm_readable : Forall2 readable arm_names arm_fields.
Proof. repeat constructor; intros _ type [= <-]; eexists; (split; [reflexivity|]); by vm_compute. Qed.

Lemma arm_bound_ok : Forall (fun f => bf_is_null f = false -> scalar_ok (bf_value f)) arm_bound.
Proof. repeat constructor; intros Hn type [= <-]; [|done]. eexists; (split; [reflexivity|]); by vm_compute. Qed.

Lemma small_log log : (Z.of_nat (length log) <? 2 ^ 32) = true -> (Z.of_nat (log_bytes log) <? 2 ^ 32) = true -> log_fits log.
Proof. intros H1%Z.ltb_lt H2%Z.ltb_lt. by split. Qed.

Definition arm_log : Z -> list LogRecord := append_log no_logs 1 first_record.

Lemma arm_named_session : session listing arm_named arm_log.
Proof.
  refine (session_appendRecord listing arm_topic no_logs 1 10 arm_names arm_fields arm_named (Some tt) arm_topic_session _ arm_readable _ _ _ _).
  - by vm_compute.
  - by vm_compute.
  - by vm_compute.
  - by apply small_log; vm_compute.
  - by vm_compute.
Qed.

Lemma arm_handled_session : session listing arm_handled (append_log arm_log 1 second_record).
Proof.
  refine (session_appendBoundRecord listing arm_named arm_log 1 20 arm_bound arm_handled (Some tt) arm_named_session arm_bound_ok _ _ _ _).
  - by vm_compute.
  - by vm_compute.
  - by apply small_log; vm_compute.
  - by vm_compute.
Qed.

Lemma listing_permutation A (m : gmap Z A) : listing A m ≡ₚ map_to_list m.
Proof. reflexivity. Qed.

Lemma appendBoundRecord_spec_witness : Host.appendBoundRecord arm_named 1 20 arm_bound = Some (arm_handled, Some tt)
  /\ host_ok arm_handled (append_log arm_log 1 second_record).
Proof.
  assert (Hrun : Host.appendBoundRecord arm_named 1 20 arm_bound = Some (arm_handled, Some tt)) by by vm_compute.
  destruct (topics (Host.engine_ arm_named) !! 1) as [s|] eqn:Es; [|by vm_compute in Es].
  destruct (appendBoundRecord_spec arm_named arm_log 1 s 20 arm_bound (session_ok listing listing_permutation _ _ arm_named_session) Es arm_bound_ok)
    as (c' & r & Hc & _ & _ & Hok).
  - by vm_compute.
  - by vm_compute.
  - by apply small_log; vm_compute.
  - rewrite Hrun in Hc. apply (inj Some) in Hc. injection Hc as <- <-. split; [done|]. exact Hok.
Defined.

(** The second request for the topic finds the first one's. *)
Lemma ensureTopic_spec_witness : (Host.ensureTopic arm_source 1 "/arm").2 = Some 1
  /\ (Host.ensureTopic (Host.ensureTopic arm_source 1 "/arm").1 1 "/arm").2 = Some 1.
Proof.
  assert (Hs : session listing arm_source no_logs).
  { change arm_source with (Host.createDataSource (Host.make Engine.make 1) "robot").1.
    apply session_createDataSource; [|by vm_compute]. apply session_start, fresh_logs. }
  pose proof (ensureTopic_spec arm_source no_logs 1 "/arm" (session_ok listing listing_permutation _ _ Hs) eq_refl) as H.
  assert (Hr : (Host.ensureTopic arm_source 1 "/arm").2 = Some 1) by by vm_compute.
  destruct (Host.ensureTopic arm_source 1 "/arm") as [c r]. cbn [fst snd] in *. subst r. split; [done|].
  by destruct H as (_ & _ & (_ & H & _) & _).
Defined.

Lemma session_records_witness : exists c', Host.flushPending listing arm_handled = Some c'
  /\ engine_logs (Host.engine_ c') (append_log arm_log 1 second_record).
Proof.
  destruct (session_records listing listing_permutation _ _ arm_handled_session) as [_ (c' & Hc & Hlogs & _)].
  exists c'. split; [exact Hc|exact Hlogs].
Defined.
