(* ===== verification/HostCatalog.v ===== *)
(** * HostCatalog: the catalog snapshot

    What [ToolboxCore::acquireCatalogSnapshot] of
    [src/pj_datastore/src/plugin_data_host.cpp] returns: three arrays, each data
    source with the range of its topics and each topic with the range of its
    fields. *)

From S2P Require Import Prelude Types TypeTree TypeRegistry Column Chunk TopicStorage Engine Writer WriterState Host HostState HostRun HostDemo.
Import HostColumns.

(** ** Ranges of an array *)

(** [l] is the part of [array] of [count] elements from [first] on. *)
Definition window {A} (first count : Z) (l array : list A) : Prop :=
  exists pre post, array = pre ++ l ++ post /\ first = Z.of_nat (length pre) /\ count = Z.of_nat (length l).

Definition slice {A} (first count : Z) (array : list A) : list A := take (Z.to_nat count) (drop (Z.to_nat first) array).

Lemma window_slice {A} first count (l array : list A) : window first count l array -> slice first count array = l.
Proof.
  intros (pre & post & -> & -> & ->). unfold slice. rewrite !Nat2Z.id, drop_app_length. apply take_app_length.
Qed.

Lemma window_app {A} first count (l array more : list A) : window first count l array -> window first count l (array ++ more).
Proof. intros (pre & post & -> & ? & ?). exists pre, (post ++ more). by rewrite <- !app_assoc. Qed.

Lemma window_end {A} (pre l : list A) : Z.of_nat (length (pre ++ l)) < 2 ^ 32 ->
  window (Host.list_size pre) (u32 (Host.list_size (pre ++ l) - Host.list_size pre)) l (pre ++ l).
Proof.
  unfold Host.list_size. rewrite length_app. intros H. exists pre, []. rewrite app_nil_r.
  rewrite (wrapU_small 32 (Z.of_nat (length pre + length l))), (wrapU_small 32 (Z.of_nat (length pre))), wrapU_small by (unfold in_u; lia).
  split_and!; [done|done|lia].
Qed.

(** ** The entries *)

(** The columns a topic has: those recorded for it; or else those the writer builds for
    its schema; or, without a schema, those of its first chunk. *)
Inductive columns_of (e : DataEngine) (s : TopicStorage) : list ColumnDescriptor -> Prop :=
| columns_recorded : ts_column_descriptors_ s <> [] -> columns_of e s (ts_column_descriptors_ s)
| columns_schema tree cols : ts_column_descriptors_ s = [] ->
    Registry.lookup (type_registry e) (schema_id (descriptor_ s)) = Some tree ->
    WriterColumns.buildColumnDescriptors tree = Some cols -> columns_of e s cols
| columns_chunk chunk chunks : ts_column_descriptors_ s = [] ->
    Registry.lookup (type_registry e) (schema_id (descriptor_ s)) = None ->
    sealed_chunks_ s = chunk :: chunks -> columns_of e s (map col_descriptor (columns chunk))
| columns_none : ts_column_descriptors_ s = [] ->
    Registry.lookup (type_registry e) (schema_id (descriptor_ s)) = None -> sealed_chunks_ s = [] -> columns_of e s [].

(** The schema of a topic without recorded columns has no array of fixed size: the
    host lists none of the columns of one ([fixed_arrays_shift_ids]). *)
Definition listable (e : DataEngine) (s : TopicStorage) : Prop :=
  ts_column_descriptors_ s = [] -> forall tree, Registry.lookup (type_registry e) (schema_id (descriptor_ s)) = Some tree ->
  plain tree = true /\ node_kind tree <> kArray.

Lemma effectiveColumns_of e s : listable e s -> columns_of e s (effectiveColumns e s).
Proof.
  intros Hl. unfold effectiveColumns. case_bool_decide as Hc; cbn [negb]; [|by apply columns_recorded].
  destruct (Registry.lookup _ _) as [tree|] eqn:Et.
  - destruct (Hl Hc tree Et) as [Hp Hk]. eapply columns_schema; [done|done|by apply plain_build].
  - destruct (sealed_chunks_ s) as [|chunk chunks] eqn:Es; [by apply columns_none|by eapply columns_chunk].
Qed.

(** The entry of a column. *)
Definition field_entry (topic : Z) (d : ColumnDescriptor) : PJ_field_info_t :=
  mkFieldInfo (mkFieldHandle topic (field_id d)) (field_path d) (logical_type d).

(** The entry of a topic tells its storage, and its columns are a range of the fields. *)
Definition topic_entry (e : DataEngine) (source : Z) (fields : list PJ_field_info_t) (info : PJ_topic_info_t) : Prop :=
  ti_source info = source
  /\ exists s cols, topics e !! ti_handle info = Some s /\ ti_name info = name (descriptor_ s) /\ columns_of e s cols
     /\ window (first_field info) (field_count info) (map (field_entry (ti_handle info)) cols) fields.

Lemma topic_entry_app e source fields more info : topic_entry e source fields info -> topic_entry e source (fields ++ more) info.
Proof. intros (H1 & s & cols & H2 & H3 & H4 & H5). split; [done|]. exists s, cols. split_and!; [done..|by apply window_app]. Qed.

Lemma topic_entries_app e source fields more l : Forall (topic_entry e source fields) l -> Forall (topic_entry e source (fields ++ more)) l.
Proof. intros H. eapply Forall_impl; [exact H|]. intros info. apply topic_entry_app. Qed.

(** The ranges of the topics, put together. *)
Definition topic_fields (fields : list PJ_field_info_t) (l : list PJ_topic_info_t) : list PJ_field_info_t :=
  flat_map (fun info => slice (first_field info) (field_count info) fields) l.

Lemma topic_fields_app e fields more l : Forall (fun info => topic_entry e (ti_source info) fields info) l ->
  topic_fields (fields ++ more) l = topic_fields fields l.
Proof.
  induction 1 as [|info l Hi _ IH]; [done|]. unfold topic_fields in *. cbn [flat_map]. rewrite IH. f_equal.
  destruct Hi as (_ & s & cols & _ & _ & _ & Hw). rewrite (window_slice _ _ _ _ Hw). by eapply window_slice, window_app.
Qed.

Lemma list_topics_spec e source ids : forall ts fs, (forall id s, topics e !! id = Some s -> listable e s) ->
  (forall id, id ∈ ids -> is_Some (topics e !! id)) ->
  Z.of_nat (length (Host.list_topics e source ids ts fs).2) < 2 ^ 32 ->
  exists ts' fs', Host.list_topics e source ids ts fs = (ts ++ ts', fs ++ fs')
  /\ map ti_handle ts' = ids /\ Forall (topic_entry e source (fs ++ fs')) ts' /\ topic_fields (fs ++ fs') ts' = fs'.
Proof.
  intros ts fs Hl. revert ts fs. induction ids as [|id ids IH]; intros ts fs Hids Hlen.
  - exists [], []. rewrite !app_nil_r. by repeat constructor.
  - destruct (Hids id ltac:(left)) as [s Hs]. cbn [Host.list_topics] in *. unfold Engine.getTopicStorage in *. rewrite Hs in *.
    set (cols := Host.field_infos id (effectiveColumns e s)) in *. set (info := mkTopicInfo _ _ _ _ _) in *.
    destruct (IH (ts ++ [info]) (fs ++ cols) ltac:(intros i Hi; apply Hids; by right) Hlen) as (ts' & fs' & Heq & Hh & He & Hf).
    rewrite Heq in Hlen |- *. cbn [snd] in Hlen. exists (info :: ts'), (cols ++ fs'). rewrite <- !app_assoc in *.
    assert (Hinfo : topic_entry e source (fs ++ cols ++ fs') info).
    { split; [done|]. exists s, (effectiveColumns e s). split_and!; [done|done|by eapply effectiveColumns_of, Hl|]. rewrite app_assoc. apply window_app. cbn. apply window_end.
      rewrite !length_app in *. lia. }
    split_and!; [done|by cbn; rewrite Hh|by constructor|]. unfold topic_fields in *. cbn [flat_map].
    cbn in Hf. rewrite Hf. f_equal.
    cbn. apply window_slice. rewrite app_assoc. apply window_app, window_end. rewrite !length_app in *. lia.
Qed.

(** The entry of a data source tells its dataset, and a range of the topics are those of the dataset. *)
Definition source_entry (e : DataEngine) (fields : list PJ_field_info_t) (all : list PJ_topic_info_t) (info : PJ_data_source_info_t) : Prop :=
  exists dataset infos, datasets e !! si_handle info = Some dataset /\ si_name info = source_name dataset
    /\ window (first_topic info) (topic_count info) infos all
    /\ map ti_handle infos = merge_sort Z.le (topic_ids dataset)
    /\ Forall (topic_entry e (si_handle info) fields) infos.

Lemma source_entry_app e fields more all more_topics info : source_entry e fields all info ->
  source_entry e (fields ++ more) (all ++ more_topics) info.
Proof.
  intros (d & l & H1 & H2 & H3 & H4 & H5). exists d, l. split_and!; [done|done|by apply window_app|done|by apply topic_entries_app].
Qed.

Definition source_topics (all : list PJ_topic_info_t) (l : list PJ_data_source_info_t) : list PJ_topic_info_t :=
  flat_map (fun info => slice (first_topic info) (topic_count info) all) l.

(** A snapshot with an entry for each of [ids] whose ranges make up the arrays. *)
Record catalogued (e : DataEngine) (ids : list Z) (snapshot : CatalogSnapshot) : Prop := {
  ca_handles : map si_handle (cs_data_sources snapshot) = ids;
  ca_entries : Forall (source_entry e (cs_fields snapshot) (cs_topics snapshot)) (cs_data_sources snapshot);
  ca_topics : source_topics (cs_topics snapshot) (cs_data_sources snapshot) = cs_topics snapshot;
  ca_fields : topic_fields (cs_fields snapshot) (cs_topics snapshot) = cs_fields snapshot;
  ca_each : Forall (fun info => topic_entry e (ti_source info) (cs_fields snapshot) info) (cs_topics snapshot)
}.

Lemma source_topics_app e fields all more l : Forall (source_entry e fields all) l ->
  source_topics (all ++ more) l = source_topics all l.
Proof.
  induction 1 as [|info l Hi _ IH]; [done|]. unfold source_topics in *. cbn [flat_map]. rewrite IH. f_equal.
  destruct Hi as (d & infos & _ & _ & Hw & _). rewrite (window_slice _ _ _ _ Hw). by eapply window_slice, window_app.
Qed.

(** One more data source. *)
Lemma catalogued_snoc e ids snapshot id dataset ts' fs' : catalogued e ids snapshot -> datasets e !! id = Some dataset ->
  let all := cs_topics snapshot ++ ts' in
  let fields := cs_fields snapshot ++ fs' in
  let info := mkSourceInfo id (source_name dataset) (Host.list_size (cs_topics snapshot))
                (u32 (Host.list_size all - Host.list_size (cs_topics snapshot))) in
  Z.of_nat (length all) < 2 ^ 32 -> map ti_handle ts' = merge_sort Z.le (topic_ids dataset) ->
  Forall (topic_entry e id fields) ts' -> topic_fields fields ts' = fs' ->
  catalogued e (ids ++ [id]) (mkSnapshot (cs_data_sources snapshot ++ [info]) all fields).
Proof.
  intros [Hh He Ht Hf Hall] Hd all fields info Hlen Hids Hts Hfs.
  assert (Hw : window (first_topic info) (topic_count info) ts' all) by by apply window_end.
  split; cbn [cs_data_sources cs_topics cs_fields].
  - by rewrite map_app, Hh.
  - apply Forall_app. split.
    + eapply Forall_impl; [exact He|]. intros i. apply source_entry_app.
    + constructor; [|done]. by exists dataset, ts'.
  - unfold source_topics. rewrite flat_map_app. fold (source_topics all (cs_data_sources snapshot)).
    unfold all at 1. rewrite (source_topics_app e (cs_fields snapshot)), Ht by done. cbn [flat_map].
    by rewrite (window_slice _ _ _ _ Hw), app_nil_r.
  - unfold topic_fields, all. rewrite flat_map_app. fold (topic_fields fields (cs_topics snapshot)). fold (topic_fields fields ts').
    by rewrite Hfs; unfold fields; rewrite (topic_fields_app e), Hf.
  - apply Forall_app. split; [eapply Forall_impl; [exact Hall|]; intros i; apply topic_entry_app|].
    eapply Forall_impl; [exact Hts|]. intros i Hi. destruct Hi as [Hs Hi]. by split.
Qed.

Lemma list_topics_grows e source ids : forall ts fs,
  ts `prefix_of` (Host.list_topics e source ids ts fs).1 /\ fs `prefix_of` (Host.list_topics e source ids ts fs).2.
Proof.
  induction ids as [|id ids IH]; intros ts fs; [done|]. cbn [Host.list_topics]. destruct (Engine.getTopicStorage e id); [|done].
  cbv zeta. edestruct IH as [H1 H2]. split; (etrans; [|first [apply H1|apply H2]]); by apply prefix_app_r.
Qed.

Lemma list_sources_grows e ids : forall snapshot,
  cs_topics snapshot `prefix_of` cs_topics (Host.list_sources e ids snapshot)
  /\ cs_fields snapshot `prefix_of` cs_fields (Host.list_sources e ids snapshot).
Proof.
  induction ids as [|id ids IH]; intros snapshot; [done|]. cbn [Host.list_sources]. destruct (Engine.getDataset e id); [|done].
  set (l := merge_sort _ _). pose proof (list_topics_grows e id l (cs_topics snapshot) (cs_fields snapshot)) as [H1 H2].
  destruct (Host.list_topics _ _ _ _ _) as [ts fs]. split; (etrans; [eassumption|apply (IH (mkSnapshot _ ts fs))]).
Qed.

Lemma list_sources_spec e (He : engine_ok e) (Hl : forall id s, topics e !! id = Some s -> listable e s) ids : forall listed snapshot, catalogued e listed snapshot ->
  (forall id, id ∈ ids -> is_Some (datasets e !! id)) ->
  Z.of_nat (length (cs_fields (Host.list_sources e ids snapshot))) < 2 ^ 32 ->
  Z.of_nat (length (cs_topics (Host.list_sources e ids snapshot))) < 2 ^ 32 ->
  catalogued e (listed ++ ids) (Host.list_sources e ids snapshot).
Proof.
  induction ids as [|id ids IH]; intros listed snapshot Hc Hids Hf Ht; [by rewrite app_nil_r|].
  destruct (Hids id ltac:(left)) as [d Hd]. cbn [Host.list_sources] in *. unfold Engine.getDataset, Engine.listTopics in *. rewrite Hd in *.
  pose proof (list_topics_spec e id (merge_sort Z.le (topic_ids d)) (cs_topics snapshot) (cs_fields snapshot)) as Htopics.
  destruct (Host.list_topics _ _ _ _ _) as [ts fs]. cbn [snd] in Htopics.
  set (snapshot' := mkSnapshot _ ts fs) in *. destruct (list_sources_grows e ids snapshot') as [G1%prefix_length G2%prefix_length].
  cbn [cs_topics cs_fields snapshot'] in G1, G2. destruct Htopics as (ts' & fs' & [= -> ->] & Hh & He' & Hf'); [exact Hl| |lia|].
  { intros i Hi. rewrite merge_sort_Permutation in Hi. destruct (en_listed _ He id d i Hd Hi) as (s & Hs & _). by exists s. }
  change (id :: ids) with ([id] ++ ids). rewrite app_assoc. apply IH; [|intros i Hi; apply Hids; by right|done|done].
  apply catalogued_snoc; try done. lia.
Qed.

(** ** The snapshot *)

Lemma sorted_strict l : StronglySorted Z.le l -> NoDup l -> StronglySorted Z.lt l.
Proof.
  induction 1 as [|x l Hl IH Hx]; intros Hn; [constructor|]. apply NoDup_cons in Hn as [Hni Hn]. constructor; [by apply IH|].
  rewrite Forall_forall in *. intros y Hy. specialize (Hx y Hy). assert (x <> y) by by intros ->. lia.
Qed.

(** C33: On a consistent engine, in which no topic without recorded columns has a schema with an
    array of fixed size, an array as its root or an enumeration without a type, and with less than [2^32] topics and fields, the snapshot lists every
    data source once, by increasing id; the range of a data source is the topics of its dataset by
    increasing id, the range of a topic is its columns in order with their ids, paths and types
    (those recorded for it, or else those the writer builds for its schema, or those of its first
    chunk), and the ranges follow one another through the arrays and fill them.  The state is kept
    and the error cleared. *)
Theorem acquireCatalogSnapshot_spec iter (Hiter : forall A (m : gmap Z A), iter A m ≡ₚ map_to_list m) c :
  engine_ok (Host.engine_ c) -> (forall id s, topics (Host.engine_ c) !! id = Some s -> listable (Host.engine_ c) s) ->
  let snapshot := default (mkSnapshot [] [] []) (Host.acquireCatalogSnapshot iter c).2 in
  Z.of_nat (length (cs_fields snapshot)) < 2 ^ 32 -> Z.of_nat (length (cs_topics snapshot)) < 2 ^ 32 ->
  Host.acquireCatalogSnapshot iter c = (Host.setError c "", Some snapshot)
  /\ exists ids, catalogued (Host.engine_ c) ids snapshot /\ StronglySorted Z.lt ids
     /\ forall id, id ∈ ids <-> is_Some (datasets (Host.engine_ c) !! id).
Proof.
  intros He Hl snapshot Hf Ht. split; [done|]. set (e := Host.engine_ c) in *.
  set (ids := merge_sort Z.le (Engine.listDatasets iter e)). exists ids.
  assert (Hperm : ids ≡ₚ (map_to_list (datasets e)).*1).
  { unfold ids, Engine.listDatasets. rewrite merge_sort_Permutation. by apply fmap_Permutation. }
  assert (Hin : forall id, id ∈ ids <-> is_Some (datasets e !! id)).
  { intros id. rewrite Hperm, list_elem_of_fmap. split.
    - intros ([k v] & -> & Hk%elem_of_map_to_list). by exists v.
    - intros [v Hv]. exists (id, v). split; [done|]. by apply elem_of_map_to_list. }
  split_and!; [| |done].
  - apply (list_sources_spec e He Hl ids []); [by split|by intros id Hid; apply Hin|done|done].
  - apply sorted_strict; [apply (StronglySorted_merge_sort Z.le _)|]. rewrite Hperm. apply NoDup_fst_map_to_list.
Qed.

Lemma acquireCatalogSnapshot_spec_witness : exists snapshot, (Host.acquireCatalogSnapshot listing arm_handled).2 = Some snapshot
  /\ map ti_name (cs_topics snapshot) = ["/arm"] /\ map fi_name (cs_fields snapshot) = ["x"; "mode"].
Proof.
  pose proof (session_ok listing listing_permutation _ _ arm_handled_session) as H.
  destruct (acquireCatalogSnapshot_spec listing listing_permutation arm_handled (wo_engine _ (co_writer _ (ho_core _ _ H)))) as [Heq _];
    [intros id s Hs _ tree Ht; by apply (st_tree _ _ (co_settled _ (ho_core _ _ H) id s Hs))|by vm_compute|by vm_compute|].
  eexists. split; [by rewrite Heq|]. by vm_compute.
Defined.
