(* ===== verification/ObjectHost.v ===== *)
(** * ObjectHost: the object stores as plugins see them

    Models the callbacks of the object tables in
    [src/pj_datastore/src/plugin_data_host.cpp]: a source and a parser push
    objects, a toolbox registers topics, pushes and reads.  The stores, the
    objects that hold a plugin's fetch context, the calls of its destroy
    callbacks and the payload views handed out are one state, [ObjectWorld]; a
    reference to a store is its index.  [None] is undefined in C++. *)

From S2P Require Import Prelude Types Engine Writer ObjectStore Holders Host.

(** [PJ_lazy_fetch_fn_t]: from the context to the bytes, or [None] for [false] or no data. *)
Definition PJ_lazy_fetch_fn_t : Type := Z -> option bytes.

(** The context of a plugin's fetch callback; [destroy_fn_] says whether there is one. *)
Record PluginFetchCtx := mkFetchCtx { fetch_fn_ : option PJ_lazy_fetch_fn_t; ctx_ : Z; destroy_fn_ : bool }.

Record ObjectWorld := mkWorld {
  stores : list ObjectStore;
  contexts : list PluginFetchCtx;
  destroy_calls : list Z;
  views : list (option PayloadView)
}.

Record SourceObjectHost := mkSourceObjects { so_target : nat; so_dataset_id : Z; so_last_error : string }.
Record ParserObjectHost := mkParserObjects { po_target : nat; po_bound_topic : Z; po_last_error : string }.
Record ReadObjectHost := mkReadObjects { ro_store : nat; ro_last_error : string }.
Record ToolboxHost := mkToolbox { tb_core : WriteCore; tb_object_store : nat; tb_object_last_error : string }.

Module ObjectHost.

(** *** What a call leaves *)

(** The world, the host, the value or [false], and what [out_error] was set to. *)
Abbreviation Outcome H A := (ObjectWorld * H * option A * option PJ_error_t)%type.

(** [setError(msg); propagateError(out_error, msg); return false;] and [last_error.clear(); return true;] *)
Definition refuse {H A} (w : ObjectWorld) (set_error : string -> H) (message : string) : Outcome H A :=
  (w, set_error message, None, Some (Host.propagateError (Some message))).
Definition accept {H A} (w : ObjectWorld) (set_error : string -> H) (a : A) : Outcome H A := (w, set_error "", Some a, None).

(** The same without [last_error]. *)
Definition reject {H A} (w : ObjectWorld) (h : H) (message : string) : Outcome H A :=
  (w, h, None, Some (Host.propagateError (Some message))).

Definition answer {H A} (w : ObjectWorld) (set_error : string -> H) (r : Expected A) : Outcome H A :=
  match r with Err e => refuse w set_error e | Ok a => accept w set_error a end.

Definition source_error (h : SourceObjectHost) (m : string) : SourceObjectHost := mkSourceObjects (so_target h) (so_dataset_id h) m.
Definition parser_error (h : ParserObjectHost) (m : string) : ParserObjectHost := mkParserObjects (po_target h) (po_bound_topic h) m.
Definition read_error (h : ReadObjectHost) (m : string) : ReadObjectHost := mkReadObjects (ro_store h) m.
Definition toolbox_error (h : ToolboxHost) (m : string) : ToolboxHost := mkToolbox (tb_core h) (tb_object_store h) m.

(** *** Fetch contexts *)

Definition invoke (c : PluginFetchCtx) : bytes :=
  match fetch_fn_ c with None => [] | Some fetch => default [] (fetch (ctx_ c)) end.

(** [~PluginFetchCtx] *)
Definition destructor (c : PluginFetchCtx) : list Z := if destroy_fn_ c then [ctx_ c] else [].

Definition destructor_at (cs : list PluginFetchCtx) (h : Z) : list Z :=
  match cs !! Z.to_nat h with Some c => destructor c | None => [] end.

Definition held (w : ObjectWorld) : list Z := flat_map holders (stores w).

(** The destructors of the [alive] holders that no closure shares any more. *)
Definition destroy_unheld (w : ObjectWorld) (alive : list Z) : ObjectWorld :=
  let gone := filter (fun h => h ∉ held w) alive in
  mkWorld (stores w) (contexts w) (destroy_calls w ++ flat_map (destructor_at (contexts w)) gone) (views w).

Definition with_stores (w : ObjectWorld) (l : list ObjectStore) : ObjectWorld := mkWorld l (contexts w) (destroy_calls w) (views w).
Definition with_contexts (w : ObjectWorld) (l : list PluginFetchCtx) : ObjectWorld := mkWorld (stores w) l (destroy_calls w) (views w).
Definition with_views (w : ObjectWorld) (l : list (option PayloadView)) : ObjectWorld := mkWorld (stores w) (contexts w) (destroy_calls w) l.

(** A call on a store; [temporaries] are the holders its arguments share. *)
Definition store_call {A} (w : ObjectWorld) (k : nat) (temporaries : list Z) (f : ObjectStore -> option (ObjectStore * A))
  : option (ObjectWorld * A) :=
  st ← stores w !! k;
  '(st', a) ← f st;
  Some (destroy_unheld (with_stores w (<[k := st']> (stores w))) (held w ++ temporaries), a).

(** *** Registering and pushing *)

Definition register_topic (w : ObjectWorld) (k : nat) (dataset : Z) (topic_name metadata_json : PJ_string_view_t)
  : option (ObjectWorld * Expected Z) :=
  name ← toStringView topic_name;
  metadata ← toStringView metadata_json;
  store_call w k [] (fun st => Some (Store.registerTopic st (mkObjectTopic dataset name metadata))).

(** [bytes.assign(data, data + size)], behind a pointer that may be null. *)
Definition owned_bytes (data : option bytes) (size : Z) : option bytes :=
  match data with
  | Some buffer =>
      if 0 <? size
      then if decide (Z.to_nat size <= length buffer)%nat then Some (take (Z.to_nat size) buffer) else None
      else Some []
  | None => Some []
  end.

Definition push_owned (w : ObjectWorld) (k : nat) (topic timestamp_ns : Z) (data : option bytes) (size : Z)
  : option (ObjectWorld * Status) :=
  bytes ← owned_bytes data size;
  store_call w k [] (fun st => Store.pushOwned st topic timestamp_ns bytes).

(** The shared holder, the closure on it, the push. *)
Definition push_holder (w : ObjectWorld) (k : nat) (topic timestamp_ns : Z) (c : PluginFetchCtx)
  : option (ObjectWorld * Status) :=
  let holder := Z.of_nat (length (contexts w)) in
  let closure := mkCallback [holder] (fun _ => makePayloadView (invoke c)) in
  store_call (with_contexts w (contexts w ++ [c])) k [holder] (fun st => Store.pushLazy st topic timestamp_ns closure).

(** [fetch_ctx_destroy(fetch_ctx)], if there is one. *)
Definition call_destroy (w : ObjectWorld) (fetch_ctx : Z) (fetch_ctx_destroy : bool) : ObjectWorld :=
  mkWorld (stores w) (contexts w) (destroy_calls w ++ if fetch_ctx_destroy then [fetch_ctx] else []) (views w).

Definition sourceObjectRegisterTopic (w : ObjectWorld) (h : SourceObjectHost) (topic_name metadata_json : PJ_string_view_t)
    (out_handle : bool) : option (Outcome SourceObjectHost Z) :=
  if negb out_handle then Some (reject w h "out_handle must not be null")
  else
    '(w, r) ← register_topic w (so_target h) (so_dataset_id h) topic_name metadata_json;
    Some (answer w (source_error h) r).

Definition sourceObjectPushOwned (w : ObjectWorld) (h : SourceObjectHost) (topic timestamp_ns : Z) (data : option bytes) (size : Z)
  : option (Outcome SourceObjectHost unit) :=
  '(w, r) ← push_owned w (so_target h) topic timestamp_ns data size;
  Some (answer w (source_error h) r).

Definition sourceObjectPushLazy (w : ObjectWorld) (h : SourceObjectHost) (topic timestamp_ns : Z)
    (fetch_fn : option PJ_lazy_fetch_fn_t) (fetch_ctx : Z) (fetch_ctx_destroy : bool) : option (Outcome SourceObjectHost unit) :=
  match fetch_fn with
  | None => Some (reject (call_destroy w fetch_ctx fetch_ctx_destroy) h "fetch_fn must not be null")
  | Some fetch =>
      '(w, r) ← push_holder w (so_target h) topic timestamp_ns (mkFetchCtx (Some fetch) fetch_ctx fetch_ctx_destroy);
      Some (answer w (source_error h) r)
  end.

Definition sourceObjectSetRetentionBudget (w : ObjectWorld) (h : SourceObjectHost) (topic time_window_ns max_memory_bytes : Z)
  : option ObjectWorld :=
  '(w, _) ← store_call w (so_target h) []
    (fun st => Some (Store.setRetentionBudget st topic (mkBudget time_window_ns max_memory_bytes), tt));
  Some w.

Definition setTarget (h : SourceObjectHost) (target : nat) : SourceObjectHost := mkSourceObjects target (so_dataset_id h) (so_last_error h).
Definition parserSetTarget (h : ParserObjectHost) (target : nat) : ParserObjectHost := mkParserObjects target (po_bound_topic h) (po_last_error h).

Definition parserObjectPushOwned (w : ObjectWorld) (h : ParserObjectHost) (timestamp_ns : Z) (data : option bytes) (size : Z)
  : option (Outcome ParserObjectHost unit) :=
  '(w, r) ← push_owned w (po_target h) (po_bound_topic h) timestamp_ns data size;
  Some (answer w (parser_error h) r).

Definition parserObjectPushLazy (w : ObjectWorld) (h : ParserObjectHost) (timestamp_ns : Z)
    (fetch_fn : option PJ_lazy_fetch_fn_t) (fetch_ctx : Z) (fetch_ctx_destroy : bool) : option (Outcome ParserObjectHost unit) :=
  match fetch_fn with
  | None => Some (reject (call_destroy w fetch_ctx fetch_ctx_destroy) h "fetch_fn must not be null")
  | Some fetch =>
      '(w, r) ← push_holder w (po_target h) (po_bound_topic h) timestamp_ns (mkFetchCtx (Some fetch) fetch_ctx fetch_ctx_destroy);
      Some (answer w (parser_error h) r)
  end.

Definition toolboxRegisterObjectTopic (w : ObjectWorld) (h : ToolboxHost) (source : Z) (topic_name metadata_json : PJ_string_view_t)
    (out_handle : bool) : option (Outcome ToolboxHost Z) :=
  if negb out_handle then Some (reject w h "out_handle must not be null")
  else
    match Engine.getDataset (Host.engine_ (tb_core h)) source with
    | None => Some (refuse w (toolbox_error h) ("data source " +:+ pretty source +:+ " not found"))
    | Some _ =>
        '(w, r) ← register_topic w (tb_object_store h) source topic_name metadata_json;
        Some (answer w (toolbox_error h) r)
    end.

Definition toolboxPushOwnedObject (w : ObjectWorld) (h : ToolboxHost) (topic timestamp_ns : Z) (data : option bytes) (size : Z)
  : option (Outcome ToolboxHost unit) :=
  '(w, r) ← push_owned w (tb_object_store h) topic timestamp_ns data size;
  Some (answer w (toolbox_error h) r).

(** *** Reading *)

(** The first of [ids] whose topic has the name, or the invalid handle. *)
Fixpoint find_named (st : ObjectStore) (ids : list Z) (needle : string) : Z :=
  match ids with
  | [] => 0
  | id :: rest => if decide (topic_name (Store.descriptor st id) = needle) then id else find_named st rest needle
  end.

Definition toolboxObjectLookupTopic (w : ObjectWorld) (h : ReadObjectHost) (topic_name : PJ_string_view_t) : option Z :=
  st ← stores w !! ro_store h;
  needle ← toStringView topic_name;
  Some (find_named st (Store.listTopics st) needle).

(** [out_buffer] is the capacity of the buffer, if there is one; the value is
    the count and what was written to the buffer. *)
Definition toolboxObjectListTopics (w : ObjectWorld) (h : ReadObjectHost) (out_buffer : option Z) (out_count : bool)
  : option (Outcome ReadObjectHost (Z * list Z)) :=
  if negb out_count then Some (reject w h "out_count must not be null")
  else
    st ← stores w !! ro_store h;
    let ids := Store.listTopics st in
    let count := Z.of_nat (length ids) in
    let written := match out_buffer with Some capacity => take (Z.to_nat (Z.min capacity count)) ids | None => [] end in
    Some (w, h, Some (count, written), None).

Definition toolboxObjectTopicMetadata (w : ObjectWorld) (h : ReadObjectHost) (topic : Z) : option string :=
  st ← stores w !! ro_store h; Some (metadata_json (Store.descriptor st topic)).

(** The value is the handle and the time of the entry. *)
Definition toolboxObjectReadLatestAt (w : ObjectWorld) (h : ReadObjectHost) (topic timestamp_ns : Z) (out_handle : bool)
  : option (Outcome ReadObjectHost (nat * Z)) :=
  if negb out_handle then Some (reject w h "out_handle must not be null")
  else
    st ← stores w !! ro_store h;
    entry ← Store.latestAt st topic timestamp_ns;
    let missing := refuse w (read_error h) "no entry at-or-before timestamp" in
    match entry with
    | None => Some missing
    | Some e =>
        if negb (view_anchor (resolved_payload e)) then Some missing
        else Some (accept (with_views w (views w ++ [Some (resolved_payload e)])) (read_error h)
                     (length (views w), resolved_timestamp e))
    end.

(** The handle may be null; the data may be, and a deleted view is undefined. *)
Definition toolboxObjectGetBytes (w : ObjectWorld) (handle : option nat) : option (option bytes * Z) :=
  match handle with
  | None => Some (None, 0)
  | Some i =>
      slot ← views w !! i;
      view ← slot;
      if view_anchor view then Some (Some (view_bytes view), Z.of_nat (length (view_bytes view))) else Some (None, 0)
  end.

Definition toolboxObjectReleaseBytes (w : ObjectWorld) (handle : option nat) : option ObjectWorld :=
  match handle with
  | None => Some w
  | Some i =>
      slot ← views w !! i;
      _ ← slot;
      Some (with_views w (<[i := None]> (views w)))
  end.

Definition toolboxObjectEntryCount (w : ObjectWorld) (h : ReadObjectHost) (topic : Z) : option Z :=
  st ← stores w !! ro_store h; Some (Z.of_nat (Store.entryCount st topic)).

Definition toolboxObjectTimeRange (w : ObjectWorld) (h : ReadObjectHost) (topic : Z) : option (option (Z * Z)) :=
  st ← stores w !! ro_store h;
  Some (if decide (Store.entryCount st topic = 0%nat) then None else Some (Store.timeRange st topic)).

End ObjectHost.
