(* ===== verification/ObjectRun.v ===== *)
(** * ObjectRun: every fetch context is destroyed once

    The contract of [push_lazy] in [pj_base/include/pj_base/plugin_data_api.h]
    over the callbacks of [src/pj_datastore/src/plugin_data_host.cpp]: whatever
    plugins push into whichever store, however stores evict, flush, retarget and
    forget, a context handed over has one holder alive or was destroyed once. *)

From S2P Require Import Prelude Types Engine Writer ObjectStore Holders Host ObjectHost.
Import ObjectHost.

(** ** The invariant *)

(** The contexts behind holders. *)
Definition owed (w : ObjectWorld) (alive : list Z) : list Z := flat_map (destructor_at (contexts w)) alive.

(** [handed] are the contexts that came with a destroy callback. *)
Record world_ok (w : ObjectWorld) (handed : list Z) : Prop := {
  wk_stores : Forall store_ok (stores w);
  wk_once : NoDup (held w);
  wk_bound : Forall (fun h => 0 <= h < Z.of_nat (length (contexts w))) (held w);
  wk_balance : destroy_calls w ++ owed w (held w) ≡ₚ handed
}.

(** What the destructors of a call leave: [alive] covers what the stores hold now. *)
Lemma destroy_unheld_ok w alive handed : Forall store_ok (stores w) -> NoDup alive ->
  Forall (fun h => 0 <= h < Z.of_nat (length (contexts w))) alive -> held w ⊆+ alive ->
  destroy_calls w ++ owed w alive ≡ₚ handed -> world_ok (destroy_unheld w alive) handed.
Proof.
  intros Hs Hn Hb Hsub Hbal. split; [done| | |].
  - by eapply submseteq_unique.
  - change (held (destroy_unheld w alive)) with (held w). apply Forall_forall. intros h Hh. rewrite Forall_forall in Hb.
    apply Hb. by eapply elem_of_submseteq.
  - change (held (destroy_unheld w alive)) with (held w). rewrite <- Hbal. unfold destroy_unheld, owed. cbn [destroy_calls contexts].
    rewrite <- app_assoc. apply Permutation_app_head. rewrite <- flat_map_app. apply Permutation_flat_map. by rewrite <- filter_part.
Qed.

Lemma held_insert w k st st' : stores w !! k = Some st ->
  held (with_stores w (<[k := st']> (stores w))) ++ holders st ≡ₚ held w ++ holders st'.
Proof. apply (flat_map_insert holders). Qed.

(** A call on one store, which takes over the holders of its arguments at most. *)
Lemma store_call_ok {A} w k temporaries (f : ObjectStore -> option (ObjectStore * A)) w' a handed :
  Forall store_ok (stores w) -> NoDup (held w ++ temporaries) ->
  Forall (fun h => 0 <= h < Z.of_nat (length (contexts w))) (held w ++ temporaries) ->
  destroy_calls w ++ owed w (held w ++ temporaries) ≡ₚ handed ->
  (forall st st' a, store_ok st -> f st = Some (st', a) -> store_ok st' /\ holders st' ⊆+ holders st ++ temporaries) ->
  store_call w k temporaries f = Some (w', a) -> world_ok w' handed.
Proof.
  intros Hs Hn Hb Hbal Hf H. apply bind_Some in H as (st & Hst & H). apply bind_Some in H as ([st' a'] & H & Hw).
  apply (inj Some) in Hw. injection Hw as <- _. pose proof (Forall_lookup_1 _ _ _ _ Hs Hst) as Hok.
  destruct (Hf st st' a' Hok H) as [Hok' Hsub].
  apply destroy_unheld_ok; [by apply Forall_insert|done|done| |done].
  apply (submseteq_app_inv_r _ _ (holders st)). rewrite (held_insert w k st st' Hst), <- app_assoc.
  apply submseteq_skips_l. by rewrite (Permutation_app_comm temporaries).
Qed.

(** The same without new holders. *)
Lemma store_call_keeps {A} w k (f : ObjectStore -> option (ObjectStore * A)) w' a handed : world_ok w handed ->
  (forall st st' a, store_ok st -> f st = Some (st', a) -> store_ok st' /\ holders st' ⊆+ holders st) ->
  store_call w k [] f = Some (w', a) -> world_ok w' handed.
Proof.
  intros [H1 H2 H3 H4] Hf. rewrite <- (app_nil_r (held w)) in H2, H3, H4. apply store_call_ok; try done.
  intros st st' b. rewrite app_nil_r. apply Hf.
Qed.

(** ** The calls of the hosts *)

Lemma push_entry_call st id e st' status : store_ok st -> Store.push_entry st id e = Some (st', status) ->
  store_ok st' /\ holders st' ⊆+ holders st ++ entry_holders e.
Proof.
  intros Hok H. destruct (push_entry_ok st id e Hok) as (st1 & s1 & H1 & Hok1 & _). split; [congruence|].
  apply push_entry_holders in H. destruct status; [done|]. subst. by apply submseteq_inserts_r.
Qed.

Lemma push_owned_ok w k topic ts data size w' r handed : world_ok w handed ->
  push_owned w k topic ts data size = Some (w', r) -> world_ok w' handed.
Proof.
  intros Hw (bytes & _ & H)%bind_Some. eapply store_call_keeps; [exact Hw| |exact H]. intros st st' a Hok Hp.
  apply push_entry_call in Hp; [|done]. by rewrite app_nil_r in Hp.
Qed.

(** Ids stay within 32 bits. *)
Definition ids_left (w : ObjectWorld) (k : nat) : Prop :=
  forall st, stores w !! k = Some st -> 0 <= next_id_ st < 2 ^ 32 - 1.

Lemma register_topic_ok w k dataset name metadata w' r handed : world_ok w handed -> ids_left w k ->
  register_topic w k dataset name metadata = Some (w', r) -> world_ok w' handed.
Proof.
  intros Hw Hids (n & _ & H)%bind_Some. apply bind_Some in H as (m & _ & H). pose proof Hw as [H1 H2 H3 H4].
  apply bind_Some in H as (st & Hst & H). cbn [mbind option_bind] in H. specialize (Hids st Hst).
  destruct (Store.registerTopic st (mkObjectTopic dataset n m)) as [st' r'] eqn:E. apply (inj Some) in H. injection H as <- _.
  pose proof (Forall_lookup_1 _ _ _ _ H1 Hst) as Hok.
  assert (Hok' : store_ok st') by (change st' with (st', r').1; rewrite <- E; apply registerTopic_ok; [done|lia|lia]).
  assert (Hh : holders st' = holders st) by (change st' with (st', r').1; rewrite <- E; apply registerTopic_holders).
  rewrite app_nil_r. apply destroy_unheld_ok; [by apply Forall_insert|done|done| |done].
  apply (submseteq_app_inv_r _ _ (holders st)). by rewrite (held_insert w k st st' Hst), Hh.
Qed.

Definition handing (handed : list Z) (fetch_ctx : Z) (fetch_ctx_destroy : bool) : list Z :=
  handed ++ if fetch_ctx_destroy then [fetch_ctx] else [].

Lemma destructor_at_app cs c alive : Forall (fun h => 0 <= h < Z.of_nat (length cs)) alive ->
  flat_map (destructor_at (cs ++ [c])) alive = flat_map (destructor_at cs) alive.
Proof.
  induction 1 as [|h alive Hh _ IH]; [done|]. cbn [flat_map]. rewrite IH. f_equal. unfold destructor_at.
  by rewrite lookup_app_l by lia.
Qed.

Lemma push_holder_ok w k topic ts c w' r handed : world_ok w handed ->
  push_holder w k topic ts c = Some (w', r) -> world_ok w' (handing handed (ctx_ c) (destroy_fn_ c)).
Proof.
  intros [H1 H2 H3 H4] H. eapply (store_call_ok (with_contexts w (contexts w ++ [c]))); [exact H1| | | | |exact H].
  - apply NoDup_app. split_and!; [exact H2| |apply NoDup_singleton]. intros h Hh ->%list_elem_of_singleton.
    rewrite Forall_forall in H3. specialize (H3 _ Hh). lia.
  - cbn [contexts with_contexts]. rewrite length_app. cbn [length]. apply Forall_app. split; [|constructor; [lia|done]].
    eapply Forall_impl; [exact H3|]. intros h Hh. cbn in Hh. lia.
  - unfold owed. cbn [contexts with_contexts destroy_calls]. change (held (with_contexts w (contexts w ++ [c]))) with (held w).
    rewrite flat_map_app, destructor_at_app by done. cbn [flat_map]. unfold destructor_at at 2.
    rewrite Nat2Z.id, lookup_app_r, Nat.sub_diag by lia. cbn [lookup list_lookup]. rewrite app_nil_r, app_assoc.
    unfold handing, destructor. by rewrite H4.
  - intros st st' a Hok Hp. by apply push_entry_call in Hp.
Qed.

Lemma call_destroy_ok w c d handed : world_ok w handed -> world_ok (call_destroy w c d) (handing handed c d).
Proof.
  intros [H1 H2 H3 H4]. split; [done|done|done|]. unfold owed, handing. cbn. change (held (call_destroy w c d)) with (held w).
  rewrite <- H4. unfold owed. rewrite <- !app_assoc. apply Permutation_app_head, Permutation_app_comm.
Qed.

(** ** Sessions *)

(** What the application does with a store: everything but lazy pushes of its own. *)
Inductive application_call : ObjectStore -> ObjectStore -> Prop :=
| app_register st d : 0 <= next_id_ st < 2 ^ 32 - 1 -> application_call st (Store.registerTopic st d).1
| app_push_owned st id t data st' status : Store.pushOwned st id t data = Some (st', status) -> application_call st st'
| app_budget st id b : application_call st (Store.setRetentionBudget st id b)
| app_evict st id t st' : Store.evictBefore st id t = Some st' -> application_call st st'
| app_evict_all st t st' : Store.evictAllBefore st t = Some st' -> application_call st st'
| app_remove st id : application_call st (Store.removeTopic st id)
| app_clear st : application_call st (Store.clear st).

Lemma application_call_ok st st' : application_call st st' -> store_ok st -> store_ok st' /\ holders st' ⊆+ holders st.
Proof.
  intros Hc Hok. split.
  - apply (store_step_ok st st'); [|done]. destruct Hc.
    all: [> by apply step_register|eapply step_push_owned|apply step_budget|eapply step_evict|eapply step_evict_all|apply step_remove|apply step_clear]; eassumption.
  - destruct Hc as [st d Hn|st id t data st' status H|st id b|st id t st' H|st t st' H|st id|st].
    + by rewrite registerTopic_holders.
    + apply push_entry_call in H as [_ H]; [|done]. by rewrite app_nil_r in H.
    + apply setRetentionBudget_holders.
    + by eapply evictBefore_holders.
    + by eapply evictAllBefore_holders.
    + apply removeTopic_holders.
    + apply submseteq_nil_l.
Qed.

(** Calls of plugins on any hosts and of the application on the stores; the list
    collects the contexts handed over with a destroy callback. *)
Inductive object_session : ObjectWorld -> list Z -> Prop :=
| objects_start l : Forall store_ok l -> flat_map holders l = [] -> object_session (mkWorld l [] [] []) []
| source_registers w handed h name metadata out w' h' r err : object_session w handed -> ids_left w (so_target h) ->
    sourceObjectRegisterTopic w h name metadata out = Some (w', h', r, err) -> object_session w' handed
| source_pushes w handed h topic ts data size w' h' r err : object_session w handed ->
    sourceObjectPushOwned w h topic ts data size = Some (w', h', r, err) -> object_session w' handed
| source_pushes_lazy w handed h topic ts fetch ctx destroy w' h' r err : object_session w handed ->
    sourceObjectPushLazy w h topic ts fetch ctx destroy = Some (w', h', r, err) -> object_session w' (handing handed ctx destroy)
| source_sets_budget w handed h topic window memory w' : object_session w handed ->
    sourceObjectSetRetentionBudget w h topic window memory = Some w' -> object_session w' handed
| parser_pushes w handed h ts data size w' h' r err : object_session w handed ->
    parserObjectPushOwned w h ts data size = Some (w', h', r, err) -> object_session w' handed
| parser_pushes_lazy w handed h ts fetch ctx destroy w' h' r err : object_session w handed ->
    parserObjectPushLazy w h ts fetch ctx destroy = Some (w', h', r, err) -> object_session w' (handing handed ctx destroy)
| toolbox_registers w handed h source name metadata out w' h' r err : object_session w handed -> ids_left w (tb_object_store h) ->
    toolboxRegisterObjectTopic w h source name metadata out = Some (w', h', r, err) -> object_session w' handed
| toolbox_pushes w handed h topic ts data size w' h' r err : object_session w handed ->
    toolboxPushOwnedObject w h topic ts data size = Some (w', h', r, err) -> object_session w' handed
| toolbox_reads w handed h topic ts out w' h' r err : object_session w handed ->
    toolboxObjectReadLatestAt w h topic ts out = Some (w', h', r, err) -> object_session w' handed
| toolbox_releases w handed handle w' : object_session w handed ->
    toolboxObjectReleaseBytes w handle = Some w' -> object_session w' handed
| application_acts w handed k st st' : object_session w handed -> stores w !! k = Some st -> application_call st st' ->
    object_session (destroy_unheld (with_stores w (<[k := st']> (stores w))) (held w)) handed
| application_flushes w handed i j src dst src' dst' status : object_session w handed -> i <> j ->
    stores w !! i = Some src -> stores w !! j = Some dst -> Store.flushTo src dst = Some (src', dst', status) ->
    object_session (destroy_unheld (with_stores w (<[j := dst']> (<[i := src']> (stores w)))) (held w)) handed.

Lemma world_ok_views w l handed : world_ok w handed -> world_ok (with_views w l) handed.
Proof. intros [H1 H2 H3 H4]. by split. Qed.

(** One store changed and keeps no new closure. *)
Lemma one_store_ok w handed k st st' : world_ok w handed -> stores w !! k = Some st -> store_ok st' -> holders st' ⊆+ holders st ->
  world_ok (destroy_unheld (with_stores w (<[k := st']> (stores w))) (held w)) handed.
Proof.
  intros [H1 H2 H3 H4] Hk Hok Hsub. apply destroy_unheld_ok; [by apply Forall_insert|done|done| |done].
  apply (submseteq_app_inv_r _ _ (holders st)). rewrite (held_insert w k st st' Hk). by apply submseteq_skips_l.
Qed.

Lemma two_stores_ok w handed i j src dst src' dst' : world_ok w handed -> i <> j -> stores w !! i = Some src ->
  stores w !! j = Some dst -> store_ok src' -> store_ok dst' -> holders src' ++ holders dst' ⊆+ holders src ++ holders dst ->
  world_ok (destroy_unheld (with_stores w (<[j := dst']> (<[i := src']> (stores w)))) (held w)) handed.
Proof.
  intros [H1 H2 H3 H4] Hne Hi Hj Hs Hd Hsub. apply destroy_unheld_ok; [by repeat apply Forall_insert|done|done| |done].
  apply (submseteq_app_inv_r _ _ (holders dst)). set (w1 := with_stores w (<[i := src']> (stores w))).
  assert (Hj1 : stores w1 !! j = Some dst) by (cbn; by rewrite list_lookup_insert_ne).
  change (with_stores w (<[j:=dst']> (<[i:=src']> (stores w)))) with (with_stores w1 (<[j := dst']> (stores w1))).
  rewrite (held_insert w1 j dst dst' Hj1). apply (submseteq_app_inv_r _ _ (holders src)).
  rewrite <- !app_assoc, (Permutation_app_comm (holders dst')), app_assoc.
  unfold w1. rewrite (held_insert w i src src' Hi), <- app_assoc. apply submseteq_skips_l.
  by rewrite (Permutation_app_comm (holders dst)).
Qed.

(** An answer that was computed. *)
Ltac settle := unfold answer, accept, refuse, reject in *; simplify_eq.

Lemma object_session_ok w handed : object_session w handed -> world_ok w handed.
Proof.
  induction 1 as [l Hl Hh|w handed h name metadata out w' h' r err _ IH Hids H|w handed h topic ts data size w' h' r err _ IH H
    |w handed h topic ts fetch ctx destroy w' h' r err _ IH H|w handed h topic window memory w' _ IH H
    |w handed h ts data size w' h' r err _ IH H|w handed h ts fetch ctx destroy w' h' r err _ IH H
    |w handed h source name metadata out w' h' r err _ IH Hids H|w handed h topic ts data size w' h' r err _ IH H
    |w handed h topic ts out w' h' r err _ IH H|w handed handle w' _ IH H
    |w handed k st st' _ IH Hk H|w handed i j src dst src' dst' status _ IH Hne Hi Hj H].
  - split; unfold owed, held; cbn [stores destroy_calls contexts]; rewrite ?Hh; [done|constructor|constructor|done].
  - unfold sourceObjectRegisterTopic in H. destruct out; cbn [negb] in H; [|by settle].
    apply bind_Some in H as ([w1 r1] & H & Ha). replace w' with w1 by (destruct r1; by settle). by eapply register_topic_ok.
  - apply bind_Some in H as ([w1 r1] & H & Ha). replace w' with w1 by (destruct r1; by settle). by eapply push_owned_ok.
  - unfold sourceObjectPushLazy in H. destruct fetch as [f|]; [|settle; by apply call_destroy_ok].
    apply bind_Some in H as ([w1 r1] & H & Ha). replace w' with w1 by (destruct r1; by settle). by eapply push_holder_ok in H.
  - apply bind_Some in H as ([w1 r1] & H & [= <-]). eapply store_call_keeps; [exact IH| |exact H]. intros st st' a Hok [= <- _].
    split; [by apply setRetentionBudget_ok|apply setRetentionBudget_holders].
  - apply bind_Some in H as ([w1 r1] & H & Ha). replace w' with w1 by (destruct r1; by settle). by eapply push_owned_ok.
  - unfold parserObjectPushLazy in H. destruct fetch as [f|]; [|settle; by apply call_destroy_ok].
    apply bind_Some in H as ([w1 r1] & H & Ha). replace w' with w1 by (destruct r1; by settle). by eapply push_holder_ok in H.
  - unfold toolboxRegisterObjectTopic in H. destruct out; cbn [negb] in H; [|by settle].
    destruct (Engine.getDataset _ _); [|by settle].
    apply bind_Some in H as ([w1 r1] & H & Ha). replace w' with w1 by (destruct r1; by settle). by eapply register_topic_ok.
  - apply bind_Some in H as ([w1 r1] & H & Ha). replace w' with w1 by (destruct r1; by settle). by eapply push_owned_ok.
  - unfold toolboxObjectReadLatestAt in H. destruct out; cbn [negb] in H; [|by settle].
    apply bind_Some in H as (st & _ & H). apply bind_Some in H as (entry & _ & H).
    destruct entry as [e|]; [|by settle]. destruct (negb _); settle; [done|]. by apply world_ok_views.
  - unfold toolboxObjectReleaseBytes in H. destruct handle as [i|]; [|by settle].
    apply bind_Some in H as (slot & _ & H). apply bind_Some in H as (v & _ & [= <-]). by apply world_ok_views.
  - destruct (application_call_ok st st' H) as [Hok Hsub]; [by eapply Forall_lookup_1; [apply IH|]|]. by eapply one_store_ok.
  - destruct (flushTo_ok src dst) as (s1 & d1 & r1 & H1 & Hs & Hd & _); [by eapply Forall_lookup_1; [apply IH|]..|].
    rewrite H in H1. simplify_eq. eapply two_stores_ok; try done. by eapply flushTo_holders.
Qed.

(** C26: every context a plugin hands over with a destroy callback is owed one call of it: the calls
    made and the holders alive make up exactly the contexts handed over, refused pushes included.
    So with distinct contexts none is destroyed twice, and no closure in a store can reach a
    destroyed one. *)
Theorem contexts_destroyed_once w handed : object_session w handed ->
  destroy_calls w ++ owed w (held w) ≡ₚ handed
  /\ (NoDup handed -> NoDup (destroy_calls w) /\ forall x, x ∈ owed w (held w) -> x ∉ destroy_calls w)
  /\ (held w = [] -> destroy_calls w ≡ₚ handed).
Proof.
  intros H%object_session_ok. pose proof (wk_balance _ _ H) as Hb. split_and!; [done| |].
  - intros Hn. rewrite <- Hb in Hn. apply NoDup_app in Hn as (Hn & Hd & _). split; [done|]. intros x Hx Hc. by eapply Hd.
  - intros Hh. rewrite Hh in Hb. cbn in Hb. by rewrite app_nil_r in Hb.
Qed.
