(* ===== verification/Sdk.v ===== *)
(** * Sdk: the C++ side of a plugin

    Models [src/pj_base/include/pj_base/sdk/plugin_data_api.hpp]: values and
    records as plugins write them, their translation to the C interface, and the
    views that call a table of the host.  A table is a record of functions on
    the state [S] behind its [ctx]; a view holds one, or none when it is not
    bound.  [None] is undefined in C++. *)

From Stdlib Require Import Strings.Ascii.
From S2P Require Import Prelude Types Float64 Column Engine Writer ObjectStore Holders Host ObjectHost.

(** ** Values *)

(** Floats are their bits. *)
Inductive ValueRef :=
| rNull | rTypedNull (type : PrimitiveType)
| rFloat (bits : Z) | rDouble (bits : Z)
| rInt8 (z : Z) | rInt16 (z : Z) | rInt32 (z : Z) | rInt64 (z : Z)
| rUint8 (z : Z) | rUint16 (z : Z) | rUint32 (z : Z) | rUint64 (z : Z)
| rBool (b : bool) | rString (s : string).

Record NamedFieldValue := mkNamedValue { nv_name : string; nv_value : ValueRef }.
Record BoundFieldValue := mkBoundValue { bv_field : PJ_field_handle_t; bv_value : ValueRef }.

Module Sdk.

Definition isNull (v : ValueRef) : bool := match v with rNull | rTypedNull _ => true | _ => false end.

Definition typeOf (v : ValueRef) : PrimitiveType :=
  match v with
  | rNull => kUnspecified | rTypedNull type => type
  | rFloat _ => kFloat32 | rDouble _ => kFloat64
  | rInt8 _ => kInt8 | rInt16 _ => kInt16 | rInt32 _ => kInt32 | rInt64 _ => kInt64
  | rUint8 _ => kUint8 | rUint16 _ => kUint16 | rUint32 _ => kUint32 | rUint64 _ => kUint64
  | rBool _ => kBool | rString _ => kString
  end.

Definition toAbiString (view : string) : PJ_string_view_t := mkView (Some view) (Z.of_nat (String.length view)).

(** A null leaves the union zeroed: its first member is zero. *)
Definition toAbiScalar (v : ValueRef) : PJ_scalar_value_t :=
  mkScalar (toAbiType (typeOf v))
    match v with
    | rNull | rTypedNull _ => as_float32 0
    | rFloat bits => as_float32 bits | rDouble bits => as_float64 bits
    | rInt8 z => as_int8 z | rInt16 z => as_int16 z | rInt32 z => as_int32 z | rInt64 z => as_int64 z
    | rUint8 z => as_uint8 z | rUint16 z => as_uint16 z | rUint32 z => as_uint32 z | rUint64 z => as_uint64 z
    | rBool b => as_bool (if b then 1 else 0)
    | rString s => as_string (toAbiString s)
    end.

Definition toAbiNamed (fields : list NamedFieldValue) : list PJ_named_field_value_t :=
  map (fun f => mkNamedField (toAbiString (nv_name f)) (isNull (nv_value f)) (toAbiScalar (nv_value f))) fields.
Definition toAbiBound (fields : list BoundFieldValue) : list PJ_bound_field_value_t :=
  map (fun f => mkBoundField (bv_field f) (isNull (bv_value f)) (toAbiScalar (bv_value f))) fields.

(** ** Errors *)

(** The characters of a buffer up to the null. *)
Fixpoint c_string (s : string) : string :=
  match s with
  | EmptyString => EmptyString
  | String c s' => if decide (c = Ascii.zero) then EmptyString else String c (c_string s')
  end.

Definition zero_error : PJ_error_t := mkError 0 "" "".

Definition errorToString (err : PJ_error_t) : string :=
  let domain := c_string (er_domain err) in
  let out := (if decide (domain = "") then "" else domain +:+ ": ") +:+ c_string (er_message err) in
  if decide (out = "") then "unspecified error" else out.

(** An error with the typed payload it may carry: its kind, and the address of the payload. *)
Record ExtendedError := mkExtended { ex_error : PJ_error_t; ex_kind : string; ex_payload : option Z }.

Definition fillExtended (code : Z) (domain message : string) : ExtendedError := mkExtended (Host.fillError code domain message) "" None.
Definition setExtended (err : option ExtendedError) (kind : string) (payload : option Z) : option ExtendedError :=
  (fun e => mkExtended (ex_error e) (Host.setErrorField 32 kind) payload) <$> err.
Definition hasExtended (err : ExtendedError) : bool :=
  negb (bool_decide (c_string (ex_kind err) = "")) && bool_decide (is_Some (ex_payload err)).

(** What a call answered: the value, or the text of [err]. *)
Definition checked {A} (r : option A) (err : option PJ_error_t) : Expected A :=
  match r with Some a => Ok a | None => Err (errorToString (default zero_error err)) end.

End Sdk.

(** ** The tables *)

(** A table function leaves a state, a value or [false], and an error. *)
Abbreviation abi_result S A := (option (S * option A * option PJ_error_t)).

Record PJ_source_write_host_vtable_t (S : Type) := mkSourceTable {
  sw_ensure_topic : S -> PJ_string_view_t -> abi_result S Z;
  sw_ensure_field : S -> Z -> PJ_string_view_t -> Z -> abi_result S PJ_field_handle_t;
  sw_append_record : S -> Z -> Z -> list PJ_named_field_value_t -> abi_result S unit;
  sw_append_bound_record : S -> Z -> Z -> list PJ_bound_field_value_t -> abi_result S unit
}.
Arguments sw_ensure_topic {S}. Arguments sw_ensure_field {S}. Arguments sw_append_record {S}. Arguments sw_append_bound_record {S}.

Record PJ_parser_write_host_vtable_t (S : Type) := mkParserTable {
  pw_ensure_field : S -> PJ_string_view_t -> Z -> abi_result S PJ_field_handle_t;
  pw_append_record : S -> Z -> list PJ_named_field_value_t -> abi_result S unit;
  pw_append_bound_record : S -> Z -> list PJ_bound_field_value_t -> abi_result S unit
}.
Arguments pw_ensure_field {S}. Arguments pw_append_record {S}. Arguments pw_append_bound_record {S}.

(** The slots of a toolbox that write records; the catalog and the objects are below. *)
Record PJ_toolbox_host_vtable_t (S : Type) := mkToolboxTable {
  tw_create_data_source : S -> PJ_string_view_t -> abi_result S Z;
  tw_ensure_topic : S -> Z -> PJ_string_view_t -> abi_result S Z;
  tw_ensure_field : S -> Z -> PJ_string_view_t -> Z -> abi_result S PJ_field_handle_t;
  tw_append_record : S -> Z -> Z -> list PJ_named_field_value_t -> abi_result S unit;
  tw_append_bound_record : S -> Z -> Z -> list PJ_bound_field_value_t -> abi_result S unit
}.
Arguments tw_create_data_source {S}. Arguments tw_ensure_topic {S}. Arguments tw_ensure_field {S}.
Arguments tw_append_record {S}. Arguments tw_append_bound_record {S}.

(** The tables of the datastore. *)
Definition with_source {A} (h : Host.SourceWriteHost) (r : WriteCore * option A * option PJ_error_t) : Host.SourceWriteHost * option A * option PJ_error_t :=
  let '(c, a, e) := r in (Host.mkSourceHost c (Host.sh_source h), a, e).
Definition with_parser {A} (h : Host.ParserWriteHost) (r : WriteCore * option A * option PJ_error_t) : Host.ParserWriteHost * option A * option PJ_error_t :=
  let '(c, a, e) := r in (Host.mkParserHost c (Host.ph_topic h), a, e).

Definition kSourceWriteVTable : PJ_source_write_host_vtable_t Host.SourceWriteHost :=
  mkSourceTable _
    (fun h n => with_source h <$> Host.sourceEnsureTopic h n)
    (fun h topic n type => with_source h <$> Host.sourceEnsureField h topic n type)
    (fun h topic ts fields => with_source h <$> Host.sourceAppendRecord h topic ts fields)
    (fun h topic ts fields => with_source h <$> Host.sourceAppendBoundRecord h topic ts fields).

Definition kParserWriteVTable : PJ_parser_write_host_vtable_t Host.ParserWriteHost :=
  mkParserTable _
    (fun h n type => with_parser h <$> Host.parserEnsureField h n type)
    (fun h ts fields => with_parser h <$> Host.parserAppendRecord h ts fields)
    (fun h ts fields => with_parser h <$> Host.parserAppendBoundRecord h ts fields).

Definition kToolboxVTable : PJ_toolbox_host_vtable_t WriteCore :=
  mkToolboxTable _ Host.toolboxCreateDataSource Host.toolboxEnsureTopic Host.toolboxEnsureField
    Host.toolboxAppendRecord Host.toolboxAppendBoundRecord.

(** ** The views that write records *)

Module SourceWriteHostView.
Section View.
Context {S : Type} (host_ : option (PJ_source_write_host_vtable_t S)).

Definition unbound {A} (s : S) : option (S * Expected A) := Some (s, Err "source write host is not bound"%string).

Definition ensureTopic (s : S) (topic_name : string) : option (S * Expected Z) :=
  match host_ with
  | None => unbound s
  | Some t => '(s, r, err) ← sw_ensure_topic t s (Sdk.toAbiString topic_name); Some (s, Sdk.checked r err)
  end.
Definition ensureField (s : S) (topic : Z) (field_name : string) (type : PrimitiveType) : option (S * Expected PJ_field_handle_t) :=
  match host_ with
  | None => unbound s
  | Some t => '(s, r, err) ← sw_ensure_field t s topic (Sdk.toAbiString field_name) (toAbiType type); Some (s, Sdk.checked r err)
  end.
Definition appendRecord (s : S) (topic timestamp : Z) (fields : list NamedFieldValue) : option (S * Status) :=
  match host_ with
  | None => unbound s
  | Some t => '(s, r, err) ← sw_append_record t s topic timestamp (Sdk.toAbiNamed fields); Some (s, Sdk.checked r err)
  end.
Definition appendBoundRecord (s : S) (topic timestamp : Z) (fields : list BoundFieldValue) : option (S * Status) :=
  match host_ with
  | None => unbound s
  | Some t => '(s, r, err) ← sw_append_bound_record t s topic timestamp (Sdk.toAbiBound fields); Some (s, Sdk.checked r err)
  end.

End View.
End SourceWriteHostView.

Module ParserWriteHostView.
Section View.
Context {S : Type} (host_ : option (PJ_parser_write_host_vtable_t S)).

Definition unbound {A} (s : S) : option (S * Expected A) := Some (s, Err "parser write host is not bound"%string).

Definition ensureField (s : S) (field_name : string) (type : PrimitiveType) : option (S * Expected PJ_field_handle_t) :=
  match host_ with
  | None => unbound s
  | Some t => '(s, r, err) ← pw_ensure_field t s (Sdk.toAbiString field_name) (toAbiType type); Some (s, Sdk.checked r err)
  end.
Definition appendRecord (s : S) (timestamp : Z) (fields : list NamedFieldValue) : option (S * Status) :=
  match host_ with
  | None => unbound s
  | Some t => '(s, r, err) ← pw_append_record t s timestamp (Sdk.toAbiNamed fields); Some (s, Sdk.checked r err)
  end.
Definition appendBoundRecord (s : S) (timestamp : Z) (fields : list BoundFieldValue) : option (S * Status) :=
  match host_ with
  | None => unbound s
  | Some t => '(s, r, err) ← pw_append_bound_record t s timestamp (Sdk.toAbiBound fields); Some (s, Sdk.checked r err)
  end.

End View.
End ParserWriteHostView.

Module ToolboxHostView.
Section View.
Context {S : Type} (host_ : option (PJ_toolbox_host_vtable_t S)).

Definition unbound {A} (s : S) : option (S * Expected A) := Some (s, Err "toolbox host is not bound"%string).

Definition createDataSource (s : S) (name : string) : option (S * Expected Z) :=
  match host_ with
  | None => unbound s
  | Some t => '(s, r, err) ← tw_create_data_source t s (Sdk.toAbiString name); Some (s, Sdk.checked r err)
  end.
Definition ensureTopic (s : S) (source : Z) (topic_name : string) : option (S * Expected Z) :=
  match host_ with
  | None => unbound s
  | Some t => '(s, r, err) ← tw_ensure_topic t s source (Sdk.toAbiString topic_name); Some (s, Sdk.checked r err)
  end.
Definition ensureField (s : S) (topic : Z) (field_name : string) (type : PrimitiveType) : option (S * Expected PJ_field_handle_t) :=
  match host_ with
  | None => unbound s
  | Some t => '(s, r, err) ← tw_ensure_field t s topic (Sdk.toAbiString field_name) (toAbiType type); Some (s, Sdk.checked r err)
  end.
Definition appendRecord (s : S) (topic timestamp : Z) (fields : list NamedFieldValue) : option (S * Status) :=
  match host_ with
  | None => unbound s
  | Some t => '(s, r, err) ← tw_append_record t s topic timestamp (Sdk.toAbiNamed fields); Some (s, Sdk.checked r err)
  end.
Definition appendBoundRecord (s : S) (topic timestamp : Z) (fields : list BoundFieldValue) : option (S * Status) :=
  match host_ with
  | None => unbound s
  | Some t => '(s, r, err) ← tw_append_bound_record t s topic timestamp (Sdk.toAbiBound fields); Some (s, Sdk.checked r err)
  end.

End View.
End ToolboxHostView.
