(* ===== verification/SdkRecords.v ===== *)
(** * SdkRecords: what a plugin writes is what is stored

    The views of [src/pj_base/include/pj_base/sdk/plugin_data_api.hpp] over the
    tables of [src/pj_datastore/src/plugin_data_host.cpp]: a record of C++ values
    goes through the C interface and comes out of the host as the same values. *)

From S2P Require Import Prelude Types TypeTree TypeRegistry Float64 Buffer Encoding Column Chunk Query TopicStorage Engine Writer Ingest Layout WriterState Records ObjectStore Holders Host HostState HostLog HostRun HostDemo ObjectHost Sdk.

(** ** The values behind the C++ values *)

(** A value as a column keeps it: integers of up to 64 bits in one of two widths. *)
Definition value_of (v : ValueRef) : option Value :=
  match v with
  | rNull | rTypedNull _ => None
  | rFloat bits => Some (VFloat32 bits) | rDouble bits => Some (VFloat64 bits)
  | rInt32 z => Some (VInt32 z)
  | rInt8 z | rInt16 z | rInt64 z => Some (VInt64 z)
  | rUint8 z | rUint16 z | rUint32 z | rUint64 z => Some (VUint64 z)
  | rBool b => Some (VBool b)
  | rString s => Some (VString (String.list_byte_of_string s))
  end.

(** What the C++ types hold. *)
Definition ref_ok (v : ValueRef) : Prop :=
  match v with
  | rNull | rTypedNull _ | rBool _ | rString _ => True
  | rFloat bits => in_u 32 bits | rDouble bits => in_u 64 bits
  | rInt8 z => in_s 8 z | rInt16 z => in_s 16 z | rInt32 z => in_s 32 z | rInt64 z => in_s 64 z
  | rUint8 z => in_u 8 z | rUint16 z => in_u 16 z | rUint32 z => in_u 32 z | rUint64 z => in_u 64 z
  end.

Lemma toStringView_toAbiString s : toStringView (Sdk.toAbiString s) = Some s.
Proof.
  unfold toStringView, Sdk.toAbiString. cbn [sv_data sv_size default]. unfold Datatypes.id. rewrite Nat2Z.id, decide_True by done.
  f_equal. induction s as [|c s IH]; [done|]. cbn. by rewrite IH.
Qed.

Lemma fromAbiType_toAbiType type : type <> kUnspecified -> fromAbiType (toAbiType type) = Ok type.
Proof. by destruct type. Qed.

Lemma scalar_ref v : Sdk.isNull v = false -> Host.field_value (Sdk.typeOf v) (sc_data (Sdk.toAbiScalar v)) = value_of v.
Proof. destruct v; cbn; try done; [by destruct b|]. intros _. by rewrite toStringView_toAbiString. Qed.

Lemma typeOf_known v : Sdk.isNull v = false -> Sdk.typeOf v <> kUnspecified.
Proof. by destruct v. Qed.

Lemma ref_value_ok v x : ref_ok v -> value_of v = Some x -> value_ok x.
Proof. destruct v; cbn; intros H [= <-]; try exact H; try exact I; unfold value_ok, in_s, in_u in *; lia. Qed.

Lemma ref_scalar_ok v : ref_ok v -> Sdk.isNull v = false -> scalar_ok (Sdk.toAbiScalar v).
Proof.
  intros Hok Hn type Ht. cbn [sc_type Sdk.toAbiScalar] in Ht. rewrite fromAbiType_toAbiType in Ht by by apply typeOf_known.
  injection Ht as <-. rewrite scalar_ref by done. assert (Hv : is_Some (value_of v)) by (destruct v; try done; by eexists).
  destruct Hv as [x Hx]. exists x. split; [done|]. by eapply ref_value_ok.
Qed.

Lemma entry_ref v : field_entry (Sdk.isNull v) (Sdk.toAbiScalar v) = value_of v.
Proof.
  unfold field_entry, scalar_of. destruct (Sdk.isNull v) eqn:En; [by destruct v|].
  cbn [sc_type Sdk.toAbiScalar]. rewrite fromAbiType_toAbiType by by apply typeOf_known. by apply scalar_ref.
Qed.

(** ** Records *)

(** The record of the fields that are not null. *)
Definition record_of_fields (fields : list NamedFieldValue) : gmap string Value :=
  list_to_map (omap (fun f => pair (nv_name f) <$> value_of (nv_value f)) fields).

Lemma record_through_abi fields :
  values_record (map nv_name fields) (map flagged (Sdk.toAbiNamed fields)) = record_of_fields fields.
Proof.
  unfold values_record, fields_record, record_of_fields. f_equal. unfold entries.
  induction fields as [|f fields IH]; [done|]. pose proof (entry_ref (nv_value f)) as He.
  cbn -[field_entry value_of Sdk.isNull Sdk.toAbiScalar] in *. rewrite He.
  destruct (value_of (nv_value f)); [apply (f_equal (cons _)); exact IH|exact IH].
Qed.

Lemma fields_readable fields : Forall (fun f => ref_ok (nv_value f)) fields ->
  Forall2 readable (map nv_name fields) (Sdk.toAbiNamed fields).
Proof.
  induction 1 as [|f fields Hf _ IH]; constructor; [|done]. split; [apply toStringView_toAbiString|].
  cbn. intros Hn. by apply ref_scalar_ok.
Qed.

(** A field agrees with the columns of the topic; of a null only the type counts, if it has one and
    the plugin has not met the column. *)
Definition field_accepted (c : WriteCore) (id : Z) (f : NamedFieldValue) : Prop :=
  match nv_value f with
  | rNull | rTypedNull kUnspecified => True
  | rTypedNull type => is_Some (field_cache_ c !! (id, nv_name f)) \/ type_agrees (layout_of (Host.engine_ c) id) (nv_name f) type
  | v => type_agrees (layout_of (Host.engine_ c) id) (nv_name f) (Sdk.typeOf v)
  end.

Lemma field_accepted_abi c id f :
  accepted c id (nv_name f) (Sdk.isNull (nv_value f)) (Sdk.toAbiScalar (nv_value f)) <-> field_accepted c id f.
Proof.
  unfold accepted, field_accepted. destruct (nv_value f) as [|[]| | | | | | | | | | | |]; cbn; naive_solver.
Qed.

Lemma fields_acceptable c id fields :
  acceptable c id ∅ (map nv_name fields) (map flagged (Sdk.toAbiNamed fields))
  <-> NoDup (map nv_name fields) /\ Forall (field_accepted c id) fields.
Proof.
  unfold acceptable. assert (Hseen : Forall (fun n : string => n ∉ (∅ : gset string)) (map nv_name fields)).
  { apply Forall_forall. intros n _. apply not_elem_of_empty. }
  enough (Forall2 (fun n v => accepted c id n v.1 v.2) (map nv_name fields) (map flagged (Sdk.toAbiNamed fields))
    <-> Forall (field_accepted c id) fields) by tauto.
  induction fields as [|f fields IH]; [by split|]. cbn [map Sdk.toAbiNamed]. rewrite Forall2_cons, Forall_cons.
  change (map (fun f => _) fields) with (Sdk.toAbiNamed fields). rewrite IH; [|by apply Forall_cons in Hseen as []].
  by rewrite <- field_accepted_abi.
Qed.

(** ** The interface a plugin writes to *)

(** The text a plugin gets for the last error of a host. *)
Definition reported (c : WriteCore) : string := Sdk.errorToString (Host.propagateError (Host.lastError c)).

(** A view over a host that appends records to the topics it may write. *)
Class RecordWriter (S : Type) := {
  rw_core : S -> WriteCore;
  rw_set : S -> WriteCore -> S;
  rw_target : S -> Z -> Prop;
  rw_append : S -> Z -> Z -> list NamedFieldValue -> option (S * Status);
  rw_core_set s c : rw_core (rw_set s c) = c;
  rw_append_core s id t fields : rw_target s id ->
    rw_append s id t fields
    = '(c, r) ← Host.appendRecord (rw_core s) id t (Sdk.toAbiNamed fields);
      Some (rw_set s c, match r with Some _ => okStatus | None => Err (reported c) end)
}.

#[export, program] Instance source_writer : RecordWriter Host.SourceWriteHost := {|
  rw_core := Host.sh_core;
  rw_set s c := Host.mkSourceHost c (Host.sh_source s);
  rw_target _ _ := True;
  rw_append := SourceWriteHostView.appendRecord (Some kSourceWriteVTable)
|}.
Next Obligation. done. Qed.
Next Obligation.
  intros s id t fields _. cbn. unfold Host.sourceAppendRecord, reported.
  by destruct (Host.appendRecord _ _ _ _) as [[c [[]|]]|].
Qed.

(** A parser writes the topic it is bound to. *)
#[export, program] Instance parser_writer : RecordWriter Host.ParserWriteHost := {|
  rw_core := Host.ph_core;
  rw_set s c := Host.mkParserHost c (Host.ph_topic s);
  rw_target s id := id = Host.ph_topic s;
  rw_append s _ t fields := ParserWriteHostView.appendRecord (Some kParserWriteVTable) s t fields
|}.
Next Obligation. done. Qed.
Next Obligation.
  intros s id t fields ->. cbn. unfold Host.parserAppendRecord, reported.
  by destruct (Host.appendRecord _ _ _ _) as [[c [[]|]]|].
Qed.

#[export, program] Instance toolbox_writer : RecordWriter WriteCore := {|
  rw_core := Datatypes.id;
  rw_set _ c := c;
  rw_target _ _ := True;
  rw_append := ToolboxHostView.appendRecord (Some kToolboxVTable)
|}.
Next Obligation. done. Qed.
Next Obligation.
  intros s id t fields _. cbn. unfold Host.toolboxAppendRecord, reported.
  by destruct (Host.appendRecord _ _ _ _) as [[c [[]|]]|].
Qed.

(** What appending does to the logs. *)
Lemma record_stored {S} `{RecordWriter S} iter (Hiter : forall A (m : gmap Z A), iter A m ≡ₚ map_to_list m)
    (s : S) logs id st t fields : host_ok (rw_core s) logs -> topics (Host.engine_ (rw_core s)) !! id = Some st -> rw_target s id ->
  Z.of_nat (length (layout (Host.engine_ (rw_core s)) st) + length fields) < 2 ^ 32 -> Forall (fun f => ref_ok (nv_value f)) fields ->
  last_time (map fst (logs id)) <= t -> in_s 64 t ->
  let record := (t, record_of_fields fields) in
  log_fits (logs id ++ [record]) ->
  exists s' r, rw_append s id t fields = Some (s', r)
  /\ (has_value r = true <-> NoDup (map nv_name fields) /\ Forall (field_accepted (rw_core s) id) fields)
  /\ match r with Ok _ => True | Err text => text = reported (rw_core s') /\ Host.lastError (rw_core s') <> None end
  /\ let logs' := if has_value r then append_log logs id record else logs in
     host_ok (rw_core s') logs'
     /\ exists c', Host.flushPending iter (rw_core s') = Some c' /\ engine_logs (Host.engine_ c') logs'.
Proof.
  intros Hok Hst Htarget Hlen Hrefs Ht Hr record Hfit.
  destruct (appendRecord_host (rw_core s) logs id st t (map nv_name fields) (Sdk.toAbiNamed fields) Hok Hst)
    as (c & r & Hc & _ & Hacc & Herr & Hok'); [by unfold Sdk.toAbiNamed; rewrite length_map|by apply fields_readable|done|done
      |by rewrite record_through_abi|].
  rewrite record_through_abi in Hok'. rewrite fields_acceptable in Hacc.
  eexists _, _. rewrite rw_append_core by done. rewrite Hc. cbn [mbind option_bind]. split; [done|]. rewrite rw_core_set.
  split; [|split].
  - rewrite <- Hacc. destruct r; cbn; [split; [by eexists|done]|by split; [|intros []]].
  - destruct r; [done|]. split; [done|]. intros He. by apply Herr in He as [].
  - assert (Hlogs : host_ok c (if has_value (match r with Some _ => okStatus | None => Err (reported c) end) then append_log logs id record else logs)).
    { destruct r; cbn; [by rewrite decide_True in Hok' by eauto|by rewrite decide_False in Hok' by by intros []]. }
    split; [done|]. destruct (flushPending_host iter Hiter c _ Hlogs) as (c' & H1 & _ & H2 & _). eauto.
Qed.

(** C6: through any of the three views, a record of C++ values for a topic of the host (the bound one,
    if the view is a parser's), that is not before the last record of the topic and within the 32 bits
    of rows, bytes and columns: it is accepted exactly when its names are distinct and its fields
    agree with the columns of the topic, and then a flush leaves the log of the topic with its
    non-null values at its end, in cells that read as in [cell_reads] (exact but for a [uint64_t] of
    [2^53] or more and the sign of a zero in a column sealed as a constant); otherwise no log changes,
    though the record may have added columns, and the plugin gets the text of the host's error. *)
Theorem plugin_record_stored {S} `{RecordWriter S} iter (Hiter : forall A (m : gmap Z A), iter A m ≡ₚ map_to_list m)
    (s : S) logs id st t fields : host_ok (rw_core s) logs -> topics (Host.engine_ (rw_core s)) !! id = Some st -> rw_target s id ->
  Z.of_nat (length (layout (Host.engine_ (rw_core s)) st) + length fields) < 2 ^ 32 -> Forall (fun f => ref_ok (nv_value f)) fields ->
  last_time (map fst (logs id)) <= t -> in_s 64 t ->
  let record := (t, record_of_fields fields) in
  log_fits (logs id ++ [record]) ->
  exists s' r, rw_append s id t fields = Some (s', r)
  /\ (has_value r = true <-> NoDup (map nv_name fields) /\ Forall (field_accepted (rw_core s) id) fields)
  /\ match r with Ok _ => True | Err text => text = reported (rw_core s') /\ Host.lastError (rw_core s') <> None end
  /\ let logs' := if has_value r then append_log logs id record else logs in
     host_ok (rw_core s') logs'
     /\ exists c', Host.flushPending iter (rw_core s') = Some c' /\ engine_logs (Host.engine_ c') logs'.
Proof. intros Hok Hst Htarget Hlen Hrefs Ht Hr record Hfit. by apply (record_stored iter Hiter s logs id st). Qed.

(** A source writes a number, a text and a null of no type. *)
Definition arm_values : list NamedFieldValue :=
  [mkNamedValue "x" (rDouble 4609434218613702656); mkNamedValue "mode" (rString "idle"); mkNamedValue "gain" rNull].

Lemma plugin_record_stored_witness : exists s' c',
  SourceWriteHostView.appendRecord (Some kSourceWriteVTable) (Host.mkSourceHost arm_topic 1) 1 10 arm_values = Some (s', okStatus)
  /\ Host.flushPending listing (Host.sh_core s') = Some c'
  /\ engine_logs (Host.engine_ c') (append_log no_logs 1 (10, record_of_fields arm_values)).
Proof.
  pose proof (session_ok listing listing_permutation _ _ arm_topic_session) as Hok.
  destruct (topics (Host.engine_ arm_topic) !! 1) as [st|] eqn:Es; [|by vm_compute in Es].
  destruct (@plugin_record_stored _ source_writer listing listing_permutation (Host.mkSourceHost arm_topic 1) no_logs 1 st 10 arm_values Hok Es I)
    as (s' & r & Ha & Hacc & _ & _ & c' & Hc & Hlogs).
  - vm_compute in Es. by injection Es as <-.
  - repeat constructor; by vm_compute.
  - by vm_compute.
  - by vm_compute.
  - by apply small_log; vm_compute.
  - assert (Hv : has_value r = true).
    { apply Hacc. split; [by apply (bool_decide_eq_true_1 _); vm_compute|]. repeat constructor; intros d; by vm_compute. }
    destruct r as [[]|]; [|done]. exists s', c'. split; [exact Ha|]. split; [exact Hc|exact Hlogs].
Defined.
