(* ===== verification/SdkObjects.v ===== *)
(** * SdkObjects: objects through the SDK

    The object views of [src/pj_base/include/pj_base/sdk/plugin_data_api.hpp]
    and [sdk/object_bytes.hpp], over the object tables of
    [src/pj_datastore/src/plugin_data_host.cpp]: reads give the bytes of the
    store, and a lazy push that is refused frees its box twice. *)

From S2P Require Import Prelude Types Engine Writer ObjectStore Holders Host ObjectHost ObjectRun Sdk.
Import ObjectHost.

(** ** The views that write

    [bound] is [valid()]. *)

(** A [LazyBox] on the heap, by its address: the closure in it.  The cache of the last bytes only
    keeps them alive. *)
Abbreviation LazyBox := (unit -> bytes).

(** [LazyBox::trampoline]; [LazyBox::destroy] deletes the box, as a destroy call does. *)
Definition trampoline (boxes : list LazyBox) : PJ_lazy_fetch_fn_t := fun ctx => (fun fetch => fetch tt) <$> boxes !! Z.to_nat ctx.

Definition delete_box (w : ObjectWorld) (box : Z) : ObjectWorld := call_destroy w box true.

Module SourceObjectWriteHostView.

Definition unbound {A} (w : ObjectWorld) (h : SourceObjectHost) : ObjectWorld * SourceObjectHost * Expected A :=
  (w, h, Err "source object write host is not bound"%string).

Definition registerTopic (bound : bool) (w : ObjectWorld) (h : SourceObjectHost) (name metadata_json : string)
  : option (ObjectWorld * SourceObjectHost * Expected Z) :=
  if negb bound then Some (unbound w h)
  else '(w, h, r, err) ← sourceObjectRegisterTopic w h (Sdk.toAbiString name) (Sdk.toAbiString metadata_json) true;
       Some (w, h, Sdk.checked r err).

Definition pushOwned (bound : bool) (w : ObjectWorld) (h : SourceObjectHost) (topic ts : Z) (payload : bytes)
  : option (ObjectWorld * SourceObjectHost * Status) :=
  if negb bound then Some (unbound w h)
  else '(w, h, r, err) ← sourceObjectPushOwned w h topic ts (Some payload) (Z.of_nat (length payload));
       Some (w, h, Sdk.checked r err).

Definition pushLazy (bound : bool) (w : ObjectWorld) (h : SourceObjectHost) (boxes : list LazyBox) (topic ts : Z) (fetch : LazyBox)
  : option (ObjectWorld * SourceObjectHost * list LazyBox * Status) :=
  if negb bound then let '(w, h, r) := unbound w h in Some (w, h, boxes, r)
  else
    let box := Z.of_nat (length boxes) in
    let boxes := boxes ++ [fetch] in
    '(w, h, r, err) ← sourceObjectPushLazy w h topic ts (Some (trampoline boxes)) box true;
    match r with
    | None => Some (delete_box w box, h, boxes, Err (Sdk.errorToString (default Sdk.zero_error err)))
    | Some _ => Some (w, h, boxes, okStatus)
    end.

Definition setRetentionBudget (bound : bool) (w : ObjectWorld) (h : SourceObjectHost) (topic time_window_ns max_memory_bytes : Z)
  : option ObjectWorld :=
  if negb bound then Some w else sourceObjectSetRetentionBudget w h topic time_window_ns max_memory_bytes.

End SourceObjectWriteHostView.

Module ParserObjectWriteHostView.

Definition unbound {A} (w : ObjectWorld) (h : ParserObjectHost) : ObjectWorld * ParserObjectHost * Expected A :=
  (w, h, Err "parser object write host is not bound"%string).

Definition pushOwned (bound : bool) (w : ObjectWorld) (h : ParserObjectHost) (ts : Z) (payload : bytes)
  : option (ObjectWorld * ParserObjectHost * Status) :=
  if negb bound then Some (unbound w h)
  else '(w, h, r, err) ← parserObjectPushOwned w h ts (Some payload) (Z.of_nat (length payload));
       Some (w, h, Sdk.checked r err).

Definition pushLazy (bound : bool) (w : ObjectWorld) (h : ParserObjectHost) (boxes : list LazyBox) (ts : Z) (fetch : LazyBox)
  : option (ObjectWorld * ParserObjectHost * list LazyBox * Status) :=
  if negb bound then let '(w, h, r) := unbound w h in Some (w, h, boxes, r)
  else
    let box := Z.of_nat (length boxes) in
    let boxes := boxes ++ [fetch] in
    '(w, h, r, err) ← parserObjectPushLazy w h ts (Some (trampoline boxes)) box true;
    match r with
    | None => Some (delete_box w box, h, boxes, Err (Sdk.errorToString (default Sdk.zero_error err)))
    | Some _ => Some (w, h, boxes, okStatus)
    end.

End ParserObjectWriteHostView.

(** [ToolboxHostView]; [has_slot] is [hasTailSlot]. *)
Module ToolboxHostObjects.

Definition unbound {A} (w : ObjectWorld) (h : ToolboxHost) (message : string) : ObjectWorld * ToolboxHost * Expected A := (w, h, Err message).

Definition registerObjectTopic (bound has_slot : bool) (w : ObjectWorld) (h : ToolboxHost) (source : Z) (name metadata_json : string)
  : option (ObjectWorld * ToolboxHost * Expected Z) :=
  if negb bound then Some (unbound w h "toolbox host is not bound")
  else if negb has_slot then Some (unbound w h "toolbox host does not support object topics (older host)")
  else '(w, h, r, err) ← toolboxRegisterObjectTopic w h source (Sdk.toAbiString name) (Sdk.toAbiString metadata_json) true;
       Some (w, h, Sdk.checked r err).

Definition pushOwnedObject (bound has_slot : bool) (w : ObjectWorld) (h : ToolboxHost) (topic ts : Z) (payload : bytes)
  : option (ObjectWorld * ToolboxHost * Status) :=
  if negb bound then Some (unbound w h "toolbox host is not bound")
  else if negb has_slot then Some (unbound w h "toolbox host does not support object payloads (older host)")
  else '(w, h, r, err) ← toolboxPushOwnedObject w h topic ts (Some payload) (Z.of_nat (length payload));
       Some (w, h, Sdk.checked r err).

End ToolboxHostObjects.

(** ** The view that reads *)

Module ToolboxObjectReadHostView.

Definition lookupTopic (bound : bool) (w : ObjectWorld) (h : ReadObjectHost) (name : string) : option (option Z) :=
  if negb bound then Some None
  else id ← toolboxObjectLookupTopic w h (Sdk.toAbiString name); Some (if id =? 0 then None else Some id).

(** One call for the count, one to fill a vector of that size. *)
Definition listTopics (bound : bool) (w : ObjectWorld) (h : ReadObjectHost) : option (ObjectWorld * ReadObjectHost * Expected (list Z)) :=
  if negb bound then Some (w, h, Err "toolbox object read host is not bound"%string)
  else
    '(w, h, r, err) ← toolboxObjectListTopics w h None true;
    match r with
    | None => Some (w, h, Err (Sdk.errorToString (default Sdk.zero_error err)))
    | Some (count, _) =>
        if count =? 0 then Some (w, h, Ok [])
        else
          '(w, h, r, err) ← toolboxObjectListTopics w h (Some count) true;
          match r with
          | None => Some (w, h, Err (Sdk.errorToString (default Sdk.zero_error err)))
          | Some (count', written) =>
              let out := written ++ replicate (Z.to_nat count - length written) 0 in
              Some (w, h, Ok (take (Z.to_nat count') out ++ replicate (Z.to_nat count' - Z.to_nat count) 0))
          end
    end.

Definition topicMetadata (bound : bool) (w : ObjectWorld) (h : ReadObjectHost) (topic : Z) : option string :=
  if negb bound then Some "" else Sdk.c_string <$> toolboxObjectTopicMetadata w h topic.

(** The [ObjectBytes] is its handle; the time is what [out_timestamp] gets. *)
Definition readLatestAt (bound : bool) (w : ObjectWorld) (h : ReadObjectHost) (topic ts : Z)
  : option (ObjectWorld * ReadObjectHost * Expected (nat * Z)) :=
  if negb bound then Some (w, h, Err "toolbox object read host is not bound"%string)
  else '(w, h, r, err) ← toolboxObjectReadLatestAt w h topic ts true; Some (w, h, Sdk.checked r err).

Definition entryCount (bound : bool) (w : ObjectWorld) (h : ReadObjectHost) (topic : Z) : option Z :=
  if negb bound then Some 0 else toolboxObjectEntryCount w h topic.

Definition timeRange (bound : bool) (w : ObjectWorld) (h : ReadObjectHost) (topic : Z) : option (Z * Z) :=
  if negb bound then Some (0, 0) else r ← toolboxObjectTimeRange w h topic; Some (default (0, 0) r).

End ToolboxObjectReadHostView.

(** [ObjectBytes], whose handle is null once it was moved from. *)
Module ObjectBytes.

Definition view (w : ObjectWorld) (handle_ : option nat) : option bytes :=
  match handle_ with
  | None => Some []
  | Some _ => '(data, size) ← toolboxObjectGetBytes w handle_; Some (take (Z.to_nat size) (default [] data))
  end.

(** [reset], of the destructor. *)
Definition reset (w : ObjectWorld) (handle_ : option nat) : option ObjectWorld := toolboxObjectReleaseBytes w handle_.

End ObjectBytes.

(** ** Refused pushes *)

Lemma push_refused w handed k topic ts c w' e : world_ok w handed -> push_holder w k topic ts c = Some (w', Err e) ->
  stores w' = stores w /\ destroy_calls w' = destroy_calls w ++ destructor c.
Proof.
  intros [_ _ Hb _] (st & Hst & H)%bind_Some. apply bind_Some in H as ([st' r] & H & Hw). apply (inj Some) in Hw.
  injection Hw as <- ->. apply push_entry_holders in H. subst st'.
  change (stores (with_contexts w (contexts w ++ [c]))) with (stores w) in *.
  assert (Hsame : <[k := st]> (stores w) = stores w) by by apply list_insert_id. rewrite Hsame. split; [done|].
  cbn. change (flat_map holders (stores w)) with (held w). f_equal.
  set (new := Z.of_nat (length (contexts w))).
  assert (Hnew : new ∉ held w) by (intros Hin; rewrite Forall_forall in Hb; specialize (Hb _ Hin); lia).
  rewrite filter_app, filter_singleton, decide_True, filter_absent by done.
  cbn. unfold destructor_at, new. by rewrite Nat2Z.id, lookup_app_r, Nat.sub_diag, app_nil_r by lia.
Qed.

(** C10: a lazy push of a plugin that is accepted leaves its box to the stores, which owe it one
    delete.  One that is refused deletes the box twice: the host drops the context it could not
    store, and so calls [LazyBox::destroy], and then the view deletes the box again. *)
Theorem sdk_pushLazy_frees w handed h boxes topic ts fetch w' h' boxes' r : object_session w handed ->
  SourceObjectWriteHostView.pushLazy true w h boxes topic ts fetch = Some (w', h', boxes', r) ->
  let box := Z.of_nat (length boxes) in
  boxes' = boxes ++ [fetch]
  /\ match r with
     | Ok _ => object_session w' (handed ++ [box]) /\ destroy_calls w' ++ owed w' (held w') ≡ₚ handed ++ [box]
     | Err _ => stores w' = stores w /\ destroy_calls w' = destroy_calls w ++ [box; box]
     end.
Proof.
  intros Hs H box. unfold SourceObjectWriteHostView.pushLazy in H. cbn [negb] in H. fold box in H.
  apply bind_Some in H as ([[[w1 h1] r1] err] & H & Hr).
  pose proof (source_pushes_lazy w handed h topic ts _ box true _ _ _ _ Hs H) as Hs1. cbn [handing] in Hs1.
  unfold sourceObjectPushLazy in H. apply bind_Some in H as ([w2 s] & H & Ha). destruct s as [[]|e].
  - settle. split; [done|]. split; [done|]. apply wk_balance, object_session_ok. done.
  - apply (push_refused _ _ _ _ _ _ _ _ (object_session_ok _ _ Hs)) in H as [H1 H2]. settle. split; [done|]. cbn. rewrite H1, H2. split; [done|].
    cbn. by rewrite <- app_assoc.
Qed.

(** ** Reads *)

(** The entry of a topic at a time, resolved. *)
Definition entry_at (st : ObjectStore) (topic ts : Z) : option ResolvedObjectEntry :=
  Store.findSeries st topic ≫= fun s => Series.resolveEntry <$> last (filter (fun e => entry_timestamp e <= ts) (entries s)).

(** C28: through the view a toolbox lists exactly the topics of the store, and reads of a topic at a
    time the bytes of its last entry not after it, with the time of that entry; it gets an error if
    there is none or the entry owns no bytes.  Reading leaves the stores alone. *)
Theorem object_reads_spec w h st : stores w !! ro_store h = Some st -> store_ok st ->
  ToolboxObjectReadHostView.listTopics true w h = Some (w, h, Ok (Store.listTopics st))
  /\ forall topic ts, exists w' h' r, ToolboxObjectReadHostView.readLatestAt true w h topic ts = Some (w', h', r)
     /\ stores w' = stores w
     /\ match entry_at st topic ts with
        | Some e =>
            if view_anchor (resolved_payload e)
            then exists handle, r = Ok (handle, resolved_timestamp e) /\ ObjectBytes.view w' (Some handle) = Some (view_bytes (resolved_payload e))
            else exists text, r = Err text
        | None => exists text, r = Err text
        end.
Proof.
  intros Hst Hok. split.
  - unfold ToolboxObjectReadHostView.listTopics, toolboxObjectListTopics. cbn [negb]. rewrite Hst. cbn [mbind option_bind].
    set (ids := Store.listTopics st). destruct (Z.eqb_spec (Z.of_nat (length ids)) 0) as [He|He].
    + by destruct ids.
    + cbn [mbind option_bind]. rewrite Hst. cbn [mbind option_bind]. fold ids. rewrite Z.min_id, !Nat2Z.id, firstn_all, !Nat.sub_diag. cbn [replicate]. by rewrite !app_nil_r, firstn_all.
  - intros topic ts. unfold ToolboxObjectReadHostView.readLatestAt, toolboxObjectReadLatestAt. cbn [negb]. rewrite Hst. cbn [mbind option_bind].
    rewrite (object_latestAt st topic ts Hok). cbn [mbind option_bind]. fold (entry_at st topic ts).
    destruct (entry_at st topic ts) as [e|]; [|do 3 eexists; split; [done|]; split; [done|by eexists]].
    destruct (view_anchor (resolved_payload e)) eqn:Ea; cbn [negb]; do 3 eexists; (split; [done|]; split; [done|]); [|by eexists].
    eexists. split; [done|]. unfold ObjectBytes.view, toolboxObjectGetBytes. cbn [views with_views].
    rewrite lookup_app_r, Nat.sub_diag by lia. cbn. rewrite Ea. cbn. by rewrite Nat2Z.id, firstn_all.
Qed.

(** ** A camera that pushes lazily *)

Definition camera_store : ObjectStore := (Store.registerTopic Store.make (mkObjectTopic 1 "camera" "{}")).1.
Definition camera_world : ObjectWorld := mkWorld [camera_store] [] [] [].
Definition camera_host : SourceObjectHost := mkSourceObjects 0 1 "".

Lemma camera_store_ok : store_ok camera_store.
Proof. apply registerTopic_ok; [apply make_ok|done|done]. Qed.

Lemma camera_session : object_session camera_world [].
Proof. apply objects_start; [|done]. constructor; [apply camera_store_ok|done]. Qed.

(** One image at 20, and one at 10, which is refused. *)
Definition camera_pushes : option (ObjectWorld * SourceObjectHost * list LazyBox * Status) :=
  '(w, h, boxes, _) ← SourceObjectWriteHostView.pushLazy true camera_world camera_host [] 1 20 (fun _ => [z2b 7]);
  SourceObjectWriteHostView.pushLazy true w h boxes 1 10 (fun _ => [z2b 8]).

Lemma sdk_pushLazy_frees_witness : exists w h boxes text, camera_pushes = Some (w, h, boxes, Err text) /\ destroy_calls w = [1; 1].
Proof.
  unfold camera_pushes. destruct (SourceObjectWriteHostView.pushLazy true camera_world camera_host [] 1 20 _) as [[[[w1 h1] b1] r1]|] eqn:E1;
    [|by vm_compute in E1].
  destruct (sdk_pushLazy_frees _ _ _ _ _ _ _ _ _ _ _ camera_session E1) as [Hb1 H1]. cbn [mbind option_bind].
  assert (Hd : r1 = okStatus /\ destroy_calls w1 = []) by (vm_compute in E1; by injection E1 as <- _ _ <-). destruct Hd as [-> Hd]. destruct H1 as [Hs1 _].
  destruct (SourceObjectWriteHostView.pushLazy true w1 h1 b1 1 10 _) as [[[[w2 h2] b2] r2]|] eqn:E2.
  - destruct (sdk_pushLazy_frees _ _ _ _ _ _ _ _ _ _ _ Hs1 E2) as [_ H2]. destruct r2 as [[]|text].
    + exfalso. vm_compute in E1. injection E1 as <- <- <-. by vm_compute in E2.
    + exists w2, h2, b2, text. split; [done|]. destruct H2 as [_ ->]. by rewrite Hd, Hb1.
  - exfalso. vm_compute in E1. injection E1 as <- <- <-. by vm_compute in E2.
Defined.

(** Clearing the store destroys the one context in it. *)
Lemma contexts_destroyed_once_witness : exists w, object_session w [7] /\ stores w = [Store.clear camera_store] /\ destroy_calls w ≡ₚ [7].
Proof.
  destruct (sourceObjectPushLazy camera_world camera_host 1 20 (Some (fun _ => Some [z2b 7])) 7 true) as [[[[w h] r] e]|] eqn:E;
    [|by vm_compute in E].
  pose proof (source_pushes_lazy _ _ _ _ _ _ _ _ _ _ _ _ camera_session E) as Hs.
  destruct (stores w !! 0%nat) as [st|] eqn:Est; [|vm_compute in E; injection E as <- _ _ _; by vm_compute in Est].
  pose proof (application_acts w _ 0 st _ Hs Est (app_clear st)) as Hc.
  set (w' := destroy_unheld _ _) in Hc. exists w'. split; [exact Hc|]. split.
  - vm_compute in E. injection E as <- _ _ _. vm_compute in Est. by injection Est as <-.
  - apply (contexts_destroyed_once w' [7] Hc). unfold w'. vm_compute in E. injection E as <- _ _ _. vm_compute in Est. by injection Est as <-.
Defined.

Lemma object_reads_spec_witness : exists w w' h', stores w = [camera_store]
  /\ ToolboxObjectReadHostView.listTopics true w (mkReadObjects 0 "") = Some (w, mkReadObjects 0 "", Ok [1])
  /\ ToolboxObjectReadHostView.readLatestAt true w (mkReadObjects 0 "") 1 5 = Some (w', h', Err "datastore: no entry at-or-before timestamp"%string).
Proof.
  destruct (object_reads_spec camera_world (mkReadObjects 0 "") camera_store eq_refl camera_store_ok) as [Hl Hr].
  destruct (Hr 1 5) as (w' & h' & r & H & _). exists camera_world, w', h'. split; [done|]. split; [exact Hl|].
  rewrite H. vm_compute in H. by injection H as <- <- <-.
Defined.
