(* ===== verification/SdkCatalog.v ===== *)
(** * SdkCatalog: catalog snapshots in a toolbox

    Models [CatalogSnapshot] and [catalogSnapshot] of
    [src/pj_base/include/pj_base/sdk/plugin_data_api.hpp] over the callback and
    the heap of [src/pj_datastore/src/plugin_data_host.cpp].  A snapshot is a
    struct on the heap of the host; the class of the SDK owns it.  The theorem:
    whatever a toolbox does with such objects, every snapshot is freed once, and
    one that is held shows what the host listed. *)

From S2P Require Import Prelude Types TypeTree TypeRegistry Buffer Encoding Column Chunk Query TopicStorage Engine Writer Ingest Layout WriterState Records Host Sdk.

(** ** Snapshots on the heap

    The snapshots that were made, by their address; those that were freed, in
    order; and the objects of the toolbox with their [raw_.release_ctx], [None]
    for a struct of zeros. *)
Record SnapshotWorld := mkSnapshotWorld {
  made : list CatalogSnapshot; freed : list nat; objects : gmap nat (option nat) }.

Module Snapshots.

Definition start : SnapshotWorld := mkSnapshotWorld [] [] ∅.

Definition with_objects (w : SnapshotWorld) objs : SnapshotWorld := mkSnapshotWorld (made w) (freed w) objs.

(** A snapshot that is alive. *)
Definition live (w : SnapshotWorld) (ctx : nat) : option CatalogSnapshot :=
  if decide (ctx ∈ freed w) then None else made w !! ctx.

(** [releaseCatalogSnapshot]: deleting twice is undefined. *)
Definition releaseCatalogSnapshot (w : SnapshotWorld) (ctx : nat) : option SnapshotWorld :=
  _ ← live w ctx; Some (mkSnapshotWorld (made w) (freed w ++ [ctx]) (objects w)).

(** [reset] of an object that holds [raw]. *)
Definition reset (w : SnapshotWorld) (raw : option nat) : option SnapshotWorld :=
  match raw with Some ctx => releaseCatalogSnapshot w ctx | None => Some w end.

Section Iteration.
Variable iter : forall A, gmap Z A -> list (Z * A).

(** The callback: the struct it fills is the address of the new snapshot. *)
Definition toolboxAcquireCatalogSnapshot (w : SnapshotWorld) (c : WriteCore) : SnapshotWorld * WriteCore * option nat * option PJ_error_t :=
  let '(c, r, err) := Host.callback (Host.acquireCatalogSnapshot iter c) in
  match r with
  | None => (w, c, None, err)
  | Some snapshot => (mkSnapshotWorld (made w ++ [snapshot]) (freed w) (objects w), c, Some (length (made w)), err)
  end.

(** The view; the result is stored in the new object [x]. *)
Definition catalogSnapshot (bound has_slot : bool) (w : SnapshotWorld) (c : WriteCore) (x : nat)
  : SnapshotWorld * WriteCore * Status :=
  if negb bound then (w, c, Err "toolbox host is not bound"%string)
  else if negb has_slot then (w, c, Err "toolbox host does not support acquire_catalog_snapshot"%string)
  else
    let '(w, c, r, err) := toolboxAcquireCatalogSnapshot w c in
    match Sdk.checked r err with
    | Err e => (w, c, Err e)
    | Ok raw => (with_objects w (<[x := Some raw]> (objects w)), c, okStatus)
    end.

End Iteration.

(** [CatalogSnapshot(CatalogSnapshot&&)] makes [y] out of [x]. *)
Definition move_new (w : SnapshotWorld) (x y : nat) : option SnapshotWorld :=
  raw ← objects w !! x; Some (with_objects w (<[y := raw]> (<[x := None]> (objects w)))).

(** [x = std::move(y)] *)
Definition move_assign (w : SnapshotWorld) (x y : nat) : option SnapshotWorld :=
  old ← objects w !! x;
  raw ← objects w !! y;
  if decide (x = y) then Some w
  else w ← reset w old; Some (with_objects w (<[x := raw]> (<[y := None]> (objects w)))).

Definition destroy (w : SnapshotWorld) (x : nat) : option SnapshotWorld :=
  raw ← objects w !! x; w ← reset w raw; Some (with_objects w (delete x (objects w))).

(** [dataSources], [topics] and [fields]: the spans over the arrays of the snapshot. *)
Definition shown (w : SnapshotWorld) (x : nat) : option CatalogSnapshot :=
  raw ← objects w !! x;
  match raw with Some ctx => live w ctx | None => Some (mkSnapshot [] [] []) end.
Definition dataSources w x := cs_data_sources <$> shown w x.
Definition topics w x := cs_topics <$> shown w x.
Definition fields w x := cs_fields <$> shown w x.

End Snapshots.

(** ** What a toolbox may do *)

Inductive Step (iter : forall A, gmap Z A -> list (Z * A)) : SnapshotWorld -> SnapshotWorld -> Prop :=
| step_acquire w bound has_slot c x : objects w !! x = None -> Step iter w (Snapshots.catalogSnapshot iter bound has_slot w c x).1.1
| step_move w x y w' : objects w !! y = None -> Snapshots.move_new w x y = Some w' -> Step iter w w'
| step_assign w x y w' : Snapshots.move_assign w x y = Some w' -> Step iter w w'
| step_destroy w x w' : Snapshots.destroy w x = Some w' -> Step iter w w'.

(** Every snapshot that was made is freed or held by one object, and is freed once. *)
Record world_ok (w : SnapshotWorld) : Prop := {
  wo_freed : NoDup (freed w);
  wo_made : forall ctx, (ctx < length (made w))%nat <-> ctx ∈ freed w \/ exists x, objects w !! x = Some (Some ctx);
  wo_held : forall x ctx, objects w !! x = Some (Some ctx) -> ctx ∉ freed w;
  wo_one : forall x y ctx, objects w !! x = Some (Some ctx) -> objects w !! y = Some (Some ctx) -> x = y
}.

Lemma held_live w x ctx : world_ok w -> objects w !! x = Some (Some ctx) -> exists s, Snapshots.live w ctx = Some s /\ made w !! ctx = Some s.
Proof.
  intros Hw Hx. assert (ctx < length (made w))%nat as Hlt by (apply (wo_made _ Hw); right; by exists x).
  destruct (lookup_lt_is_Some_2 _ _ Hlt) as [s Hs]. exists s. split; [|done]. unfold Snapshots.live.
  by rewrite decide_False by by eapply wo_held.
Qed.

(** Objects that only change hands. *)
Lemma moved_ok w x y raw : world_ok w -> objects w !! x = Some raw -> objects w !! y = None \/ objects w !! y = Some None -> x <> y ->
  world_ok (Snapshots.with_objects w (<[y := raw]> (<[x := None]> (objects w)))).
Proof.
  intros Hw Hx Hy Hne.
  assert (Hold : forall z ctx, <[y := raw]> (<[x := None]> (objects w)) !! z = Some (Some ctx) ->
    exists z', objects w !! z' = Some (Some ctx) /\ (z = y /\ z' = x \/ z <> y /\ z' = z /\ z <> x)).
  { intros z ctx [[<- ->]|[Hz [[<- Hc]|[Hz' Hc]]%lookup_insert_Some]]%lookup_insert_Some; [exists x; auto|done|exists z; auto]. }
  split; cbn [freed made objects Snapshots.with_objects].
  - apply (wo_freed _ Hw).
  - intros ctx. rewrite (wo_made _ Hw). split; (intros [Hf|[z Hz]]; [by left|right]).
    + destruct (decide (z = x)) as [->|Hzx]; [exists y; rewrite lookup_insert_eq; congruence|].
      exists z. destruct (decide (z = y)) as [->|Hzy]; [destruct Hy; congruence|]. by rewrite !lookup_insert_ne by done.
    + destruct (Hold z ctx Hz) as (z' & Hz' & _). by exists z'.
  - intros z ctx (z' & Hz' & _)%Hold. by eapply wo_held.
  - intros z1 z2 ctx (z1' & H1 & C1)%Hold (z2' & H2 & C2)%Hold. pose proof (wo_one _ Hw _ _ _ H1 H2) as ->.
    destruct C1 as [[-> ->]|(N1 & -> & N1')], C2 as [[-> E2]|(N2 & E2 & N2')]; congruence.
Qed.

(** The snapshot of an object is freed, and the object forgets it. *)
Lemma reset_ok w x raw : world_ok w -> objects w !! x = Some raw -> exists w', Snapshots.reset w raw = Some w'
  /\ objects w' = objects w /\ world_ok (Snapshots.with_objects w' (<[x := None]> (objects w'))).
Proof.
  intros Hw Hx. destruct raw as [ctx|]; cbn [Snapshots.reset].
  - destruct (held_live w x ctx Hw Hx) as (s & Hs & _). unfold Snapshots.releaseCatalogSnapshot. rewrite Hs. eexists. split; [done|].
    split; [done|]. split; cbn [freed made objects Snapshots.with_objects].
    + apply NoDup_app. split; [apply (wo_freed _ Hw)|]. split; [|apply NoDup_singleton].
      intros z Hz ->%list_elem_of_singleton. by eapply (wo_held _ Hw).
    + intros z. rewrite (wo_made _ Hw), elem_of_app, list_elem_of_singleton. split.
      * intros [Hf|[y Hy]]; [by left; left|]. destruct (decide (z = ctx)) as [->|Hne]; [by left; right|]. right. exists y.
        rewrite lookup_insert_ne; [done|congruence].
      * intros [[Hf| ->]|[y [[_ Hy]|[_ Hy]]%lookup_insert_Some]]; [by left|right; by exists x|done|right; by exists y].
    + intros y z [[_ Hy]|[Hne Hy]]%lookup_insert_Some; [done|]. rewrite elem_of_app, list_elem_of_singleton.
      intros [Hf| ->]; [by eapply (wo_held _ Hw)|]. by apply Hne, (wo_one _ Hw _ _ ctx).
    + intros y z c [[_ Hy]|[Hne Hy]]%lookup_insert_Some [[_ Hz]|[Hne' Hz]]%lookup_insert_Some; try done. by eapply (wo_one _ Hw).
  - exists w. split; [done|]. split; [done|]. rewrite insert_id by done. by destruct w.
Qed.

(** An object that holds nothing comes or goes. *)
Lemma dropped_ok w x : world_ok w -> objects w !! x = Some None -> world_ok (Snapshots.with_objects w (delete x (objects w))).
Proof.
  intros Hw Hx.
  assert (Hiff : forall y ctx, delete x (objects w) !! y = Some (Some ctx) <-> objects w !! y = Some (Some ctx)).
  { intros y ctx. destruct (decide (y = x)) as [->|Hne]; [rewrite lookup_delete_eq; split; congruence|by rewrite lookup_delete_ne]. }
  split; cbn [freed made objects Snapshots.with_objects].
  - apply (wo_freed _ Hw).
  - intros ctx. rewrite (wo_made _ Hw). by setoid_rewrite Hiff.
  - intros y ctx Hy%Hiff. by eapply (wo_held _ Hw).
  - intros y z ctx Hy%Hiff Hz%Hiff. by eapply (wo_one _ Hw).
Qed.

(** A new snapshot in a new object. *)
Lemma acquired_ok w x snapshot : world_ok w -> objects w !! x = None ->
  world_ok (mkSnapshotWorld (made w ++ [snapshot]) (freed w) (<[x := Some (length (made w))]> (objects w))).
Proof.
  intros Hw Hx.
  assert (Hnew : forall y, objects w !! y <> Some (Some (length (made w)))).
  { intros y Hy. assert (length (made w) < length (made w))%nat by (apply (wo_made _ Hw); right; by exists y). lia. }
  assert (Hfree : length (made w) ∉ freed w).
  { intros Hf. assert (length (made w) < length (made w))%nat by (apply (wo_made _ Hw); by left). lia. }
  split; cbn [freed made objects].
  - apply (wo_freed _ Hw).
  - intros ctx. rewrite length_app. cbn [length]. pose proof (wo_made _ Hw ctx) as Hm. split.
    + intros Hlt. destruct (decide (ctx = length (made w))) as [->|Hne]; [right; exists x; by rewrite lookup_insert_eq|].
      destruct (proj1 Hm ltac:(lia)) as [Hf|[y Hy]]; [by left|right]. exists y. rewrite lookup_insert_ne; [done|congruence].
    + intros [Hf|[y [[<- [= <-]]|[_ Hy]]%lookup_insert_Some]]; [|lia|]; [assert (ctx < length (made w))%nat by (apply Hm; by left); lia|].
      assert (ctx < length (made w))%nat by (apply Hm; right; by exists y). lia.
  - intros y ctx [[_ [= <-]]|[_ Hy]]%lookup_insert_Some; [done|]. by eapply (wo_held _ Hw).
  - intros y z ctx [[<- [= <-]]|[Hne Hy]]%lookup_insert_Some [[<- Hz]|[Hne' Hz]]%lookup_insert_Some; try done; try (by destruct (Hnew z));
      [injection Hz as <-; by destruct (Hnew y)|by eapply (wo_one _ Hw)].
Qed.

Lemma move_assign_ok w x y old raw : world_ok w -> objects w !! x = Some old -> objects w !! y = Some raw ->
  exists w', Snapshots.move_assign w x y = Some w' /\ world_ok w'.
Proof.
  intros Hw Hx Hy. unfold Snapshots.move_assign. rewrite Hx, Hy. cbn [mbind option_bind].
  case_decide as Hne; [by exists w|]. destruct (reset_ok w x old Hw Hx) as (w' & -> & Ho & Hw'). cbn [mbind option_bind].
  eexists. split; [done|]. rewrite Ho in *.
  assert (Hy' : objects (Snapshots.with_objects w' (<[x := None]> (objects w))) !! y = Some raw)
    by (cbn; by rewrite lookup_insert_ne by done).
  pose proof (moved_ok _ y x raw Hw' Hy') as Hok. cbn in Hok.
  assert (<[x := raw]> (<[y := None]> (<[x := None]> (objects w))) = <[x := raw]> (<[y := None]> (objects w))) as Heq.
  { apply map_eq. intros z. destruct (decide (z = x)) as [->|Hz]; [by rewrite !lookup_insert_eq|].
    rewrite !(lookup_insert_ne _ x z) by done. destruct (decide (z = y)) as [->|Hz']; [by rewrite !lookup_insert_eq|].
    by rewrite !lookup_insert_ne by done. }
  rewrite Heq in Hok. apply Hok; [right; by rewrite lookup_insert_eq|congruence].
Qed.

Lemma destroy_ok w x raw : world_ok w -> objects w !! x = Some raw -> exists w', Snapshots.destroy w x = Some w' /\ world_ok w'.
Proof.
  intros Hw Hx. unfold Snapshots.destroy. rewrite Hx. cbn [mbind option_bind].
  destruct (reset_ok w x raw Hw Hx) as (w' & -> & Ho & Hw'). cbn [mbind option_bind]. eexists. split; [done|].
  pose proof (dropped_ok _ x Hw') as Hok. cbn in Hok. rewrite lookup_insert_eq, delete_insert_eq in Hok. by apply Hok.
Qed.

Lemma step_ok iter w w' : world_ok w -> Step iter w w' -> world_ok w'.
Proof.
  intros Hw Hs. destruct Hs as [w bound has_slot c x Hx|w x y w' Hy Hm|w x y w' Hm|w x w' Hd].
  - unfold Snapshots.catalogSnapshot. destruct bound; [|done]. destruct has_slot; [|done]. exact (acquired_ok w x _ Hw Hx).
  - unfold Snapshots.move_new in Hm. apply bind_Some in Hm as (raw & Hx & [= <-]). apply moved_ok; try done; [by left|congruence].
  - assert (exists old raw, objects w !! x = Some old /\ objects w !! y = Some raw) as (old & raw & Hx & Hy).
    { unfold Snapshots.move_assign in Hm. apply bind_Some in Hm as (old & Hx & Hm). apply bind_Some in Hm as (raw & Hy & _). eauto. }
    destruct (move_assign_ok w x y old raw Hw Hx Hy) as (w1 & Hm1 & Hok). congruence.
  - assert (exists raw, objects w !! x = Some raw) as [raw Hx].
    { unfold Snapshots.destroy in Hd. apply bind_Some in Hd as (raw & Hx & _). eauto. }
    destruct (destroy_ok w x raw Hw Hx) as (w1 & Hd1 & Hok). congruence.
Qed.

Lemma reached_ok iter w : rtc (Step iter) Snapshots.start w -> world_ok w.
Proof.
  intros Hr. assert (Hstart : world_ok Snapshots.start).
  { split; cbn; [constructor|intros ctx; split; [lia|intros [Hf|[x Hx]]; [by apply elem_of_nil in Hf|by rewrite lookup_empty in Hx]]| |];
      intros x *; by rewrite lookup_empty. }
  revert Hstart. induction Hr as [|w1 w2 w3 Hs _ IH]; [done|]. intros H1. by eapply IH, step_ok.
Qed.

(** Whatever a toolbox does with snapshots: every one that was made is shown by the one
    object that holds it or was freed, never both and never twice; assigning and
    destroying objects is always defined, and once all objects are gone every
    snapshot was freed exactly once. *)
Theorem snapshots_freed_once iter w : rtc (Step iter) Snapshots.start w ->
  (forall ctx s, made w !! ctx = Some s ->
     ((ctx ∈ freed w) /\ forall x, objects w !! x <> Some (Some ctx))
     \/ ((ctx ∉ freed w) /\ exists x, Snapshots.shown w x = Some s /\ forall y, objects w !! y = Some (Some ctx) <-> y = x))
  /\ (forall x y, is_Some (objects w !! x) -> is_Some (objects w !! y) ->
        is_Some (Snapshots.move_assign w x y) /\ is_Some (Snapshots.destroy w x))
  /\ (objects w = ∅ -> freed w ≡ₚ seq 0 (length (made w))).
Proof.
  intros Hw%reached_ok. split_and!.
  - intros ctx s Hs. destruct (proj1 (wo_made _ Hw ctx) (lookup_lt_Some _ _ _ Hs)) as [Hf|[x Hx]].
    + left. split; [done|]. intros x Hx. by eapply (wo_held _ Hw).
    + right. split; [by eapply (wo_held _ Hw)|]. exists x. split.
      * unfold Snapshots.shown. rewrite Hx. cbn [mbind option_bind]. destruct (held_live w x ctx Hw Hx) as (s' & -> & Hs'). congruence.
      * intros y. split; [intros Hy; by eapply (wo_one _ Hw)|by intros ->].
  - intros x y [old Hx] [raw Hy]. destruct (move_assign_ok w x y old raw Hw Hx Hy) as (w1 & -> & _).
    destruct (destroy_ok w x old Hw Hx) as (w2 & -> & _). by split.
  - intros He. apply NoDup_Permutation; [apply (wo_freed _ Hw)|apply NoDup_seq|]. intros ctx. rewrite elem_of_seq. split.
    + intros Hf. split; [lia|]. apply (wo_made _ Hw). by left.
    + intros [_ Hlt]. destruct (proj1 (wo_made _ Hw ctx) Hlt) as [Hf|[x Hx]]; [done|]. by rewrite He, lookup_empty in Hx.
Qed.
