(* ===== verification/MediaMetadata.v ===== *)
(** * MediaMetadata: the description of an object topic

    Models [src/pj_base/include/pj_base/sdk/media_metadata.hpp]: a builder that
    writes the metadata of an object topic as JSON text.  The readers of that
    text, viewers and parsers, are outside of the repository; what they find in
    it is given by a reader of the JSON grammar (RFC 8259) of objects and
    strings, over an abstract reader of values.  The theorem: whatever is called
    on a builder, its text is an object with the members that were set. *)

From Stdlib Require Import Ascii.
From S2P Require Import Prelude.

#[local] Open Scope string_scope.

(** ** The builder *)

Definition quote : ascii := ascii_of_nat 34.

Definition kHex : string := "0123456789abcdef".
Definition hex (n : N) : string := match String.get (N.to_nat n) kHex with Some h => String h "" | None => "" end.

(** What the loop appends for one character. *)
Definition escaped (c : ascii) : string :=
  match N_of_ascii c with
  | 34 => String "\" (String quote "")
  | 92 => "\\"
  | 8 => "\b"
  | 12 => "\f"
  | 10 => "\n"
  | 13 => "\r"
  | 9 => "\t"
  | n => if (n <? 32)%N then "\u00" +:+ hex (N.land (N.shiftr n 4) 15) +:+ hex (N.land n 15) else String c ""
  end%N.

Fixpoint appendEscaped (out s : string) : string :=
  match s with
  | EmptyString => out
  | String c s => appendEscaped (out +:+ escaped c) s
  end.

Record MediaMetadataBuilder := mkBuilder {
  media_class_ : string; encoding_ : string; schema_ : string; extras_ : string }.

Module Metadata.

Definition make : MediaMetadataBuilder := mkBuilder "" "" "" "".

Definition mediaClass (b : MediaMetadataBuilder) (v : string) := mkBuilder v (encoding_ b) (schema_ b) (extras_ b).
Definition encoding (b : MediaMetadataBuilder) (v : string) := mkBuilder (media_class_ b) v (schema_ b) (extras_ b).
Definition schema (b : MediaMetadataBuilder) (v : string) := mkBuilder (media_class_ b) (encoding_ b) v (extras_ b).

Definition appendExtra (b : MediaMetadataBuilder) (key value : string) (is_quoted : bool) : MediaMetadataBuilder :=
  let extras := if decide (extras_ b = "") then "" else extras_ b +:+ "," in
  let extras := extras +:+ String quote (key +:+ String quote ":") in
  mkBuilder (media_class_ b) (encoding_ b) (schema_ b)
    (if is_quoted then appendEscaped (extras +:+ String quote "") value +:+ String quote "" else extras +:+ value).

Definition extra b key value_json := appendExtra b key value_json false.
Definition extraString b key value := appendExtra b key value true.

(** The text so far and whether a member was written. *)
Definition kv_string (st : string * bool) (key value : string) : string * bool :=
  let '(out, first) := st in
  if decide (value = "") then st
  else
    let out := if first then out else out +:+ "," in
    let out := out +:+ String quote (key +:+ String quote (String ":" (String quote ""))) in
    (appendEscaped out value +:+ String quote "", false).

Definition build (b : MediaMetadataBuilder) : string :=
  let st := kv_string ("{", true) "media_class" (media_class_ b) in
  let st := kv_string st "encoding" (encoding_ b) in
  let '(out, first) := kv_string st "schema" (schema_ b) in
  let out := if decide (extras_ b = "") then out else (if first then out else out +:+ ",") +:+ extras_ b in
  out +:+ "}".

End Metadata.

(** The calls of a plugin. *)
Inductive Call :=
| CMediaClass (v : string) | CEncoding (v : string) | CSchema (v : string)
| CExtra (key value_json : string) | CExtraString (key value : string).

Definition call (b : MediaMetadataBuilder) (c : Call) : MediaMetadataBuilder :=
  match c with
  | CMediaClass v => Metadata.mediaClass b v
  | CEncoding v => Metadata.encoding b v
  | CSchema v => Metadata.schema b v
  | CExtra key value_json => Metadata.extra b key value_json
  | CExtraString key value => Metadata.extraString b key value
  end.

(** ** What a reader of JSON finds *)

Definition hex_value (c : ascii) : option N :=
  let n := N_of_ascii c in
  if decide (48 <= n <= 57)%N then Some (n - 48)%N
  else if decide (97 <= n <= 102)%N then Some (n - 87)%N
  else if decide (65 <= n <= 70)%N then Some (n - 55)%N else None.

(** A string after its opening quote, and what follows its closing one.  Of the
    escapes by code only those of ASCII are read. *)
Fixpoint read_chars (t : string) : option (string * string) :=
  match t with
  | EmptyString => None
  | String c t =>
      match N_of_ascii c with
      | 34 => Some ("", t)
      | 92 =>
          match t with
          | EmptyString => None
          | String e t =>
              match N_of_ascii e with
              | 117 =>
                  match t with
                  | String a (String b (String x (String y t))) =>
                      a ← hex_value a; b ← hex_value b; x ← hex_value x; y ← hex_value y;
                      let n := (((a * 16 + b) * 16 + x) * 16 + y)%N in
                      '(s, rest) ← read_chars t;
                      if (n <? 128)%N then Some (String (ascii_of_N n) s, rest) else None
                  | _ => None
                  end
              | k =>
                  '(s, rest) ← read_chars t;
                  match k with
                  | 34 | 92 | 47 => Some (String e s, rest)
                  | 98 => Some (String (ascii_of_N 8) s, rest)
                  | 102 => Some (String (ascii_of_N 12) s, rest)
                  | 110 => Some (String (ascii_of_N 10) s, rest)
                  | 114 => Some (String (ascii_of_N 13) s, rest)
                  | 116 => Some (String (ascii_of_N 9) s, rest)
                  | _ => None
                  end
              end
          end
      | n => if (n <? 32)%N then None else '(s, rest) ← read_chars t; Some (String c s, rest)
      end%N
  end.

(** The rest of [t] after the character [c]. *)
Definition skip (c : ascii) (t : string) : option string :=
  match t with String d t => if Ascii.eqb c d then Some t else None | EmptyString => None end.

(** A reader of values: the value a text starts with, and what follows it. *)
Class ValueReader (V : Type) := { read_value : string -> option (V * string); of_string : string -> V }.
Class ValueReaderLaws (V : Type) `{ValueReader V} := {
  read_value_string t : read_value (String quote t) = ('(s, rest) ← read_chars t; Some (of_string s, rest))
}.

Section Read.
Context {V : Type} `{ValueReader V}.

Definition read_member (t : string) : option ((string * V) * string) :=
  t ← skip quote t; '(key, t) ← read_chars t; t ← skip ":" t; '(v, t) ← read_value t; Some ((key, v), t).

Fixpoint read_members (fuel : nat) (t : string) : option (list (string * V)) :=
  match fuel with
  | O => None
  | S fuel =>
      '(m, t) ← read_member t;
      match skip "," t with
      | Some t => ms ← read_members fuel t; Some (m :: ms)
      | None => if decide (t = "}") then Some [m] else None
      end
  end.

(** The members of a text that is one object, in their order. *)
Definition read_object (t : string) : option (list (string * V)) :=
  t ← skip "{" t; if decide (t = "}") then Some [] else read_members (String.length t) t.

(** A text of one value. *)
Definition is_value (text : string) (v : V) : Prop :=
  text <> "" /\ forall c rest, c = ","%char \/ c = "}"%char -> read_value (text +:+ String c rest) = Some (v, String c rest).

(** The value of a text given to [extra]. *)
Definition extra_value (text : string) : option V := fst <$> read_value (text +:+ "}").

End Read.

Lemma append_cons c a b : String c a +:+ b = String c (a +:+ b).
Proof. done. Qed.

Lemma append_empty a : "" +:+ a = a.
Proof. done. Qed.

Lemma length_append a b : String.length (a +:+ b) = (String.length a + String.length b)%nat.
Proof. induction a as [|c a IH]; [done|]. rewrite append_cons. cbn. by rewrite IH. Qed.

Lemma skip_same c t : skip c (String c t) = Some t.
Proof. cbn. by rewrite Ascii.eqb_refl. Qed.

Section Members.
Context {V : Type} `{ValueReader V}.

(** What the calls say: the last value of a named member if it is not empty, and
    the others as they come. *)
Definition set_last (value : Call -> option string) (calls : list Call) : string := default "" (last (omap value calls)).
Definition class_of (c : Call) := match c with CMediaClass v => Some v | _ => None end.
Definition encoding_of (c : Call) := match c with CEncoding v => Some v | _ => None end.
Definition schema_of (c : Call) := match c with CSchema v => Some v | _ => None end.

Definition named (key value : string) : list (string * V) := if decide (value = "") then [] else [(key, of_string value)].
Definition extra_member (c : Call) : option (string * V) :=
  match c with
  | CExtra key value_json => v ← extra_value value_json; Some (key, v)
  | CExtraString key value => Some (key, of_string value)
  | _ => None
  end.

Definition members (calls : list Call) : list (string * V) :=
  (named "media_class" (set_last class_of calls) ++ named "encoding" (set_last encoding_of calls)
   ++ named "schema" (set_last schema_of calls)) ++ omap extra_member calls.

(** Keys are not escaped, and a raw value is taken as it is. *)
Definition plain (key : string) : Prop := appendEscaped "" key = key.
Definition call_ok (c : Call) : Prop :=
  match c with
  | CExtra key value_json => plain key /\ exists v : V, is_value value_json v
  | CExtraString key _ => plain key
  | _ => True
  end.

End Members.

(** ** Escaped strings are read back *)

Lemma appendEscaped_app out s : appendEscaped out s = out +:+ appendEscaped "" s.
Proof.
  revert out. induction s as [|c s IH]; intros out; cbn [appendEscaped]; [by rewrite string_app_nil_r|].
  rewrite IH, (IH ("" +:+ _)). by rewrite <- append_assoc.
Qed.

Lemma read_escaped_char c t : read_chars (escaped c +:+ t) = ('(s, rest) ← read_chars t; Some (String c s, rest)).
Proof. destruct c as [[] [] [] [] [] [] [] []]; reflexivity. Qed.

Lemma read_escaped s rest : read_chars (appendEscaped "" s +:+ String quote rest) = Some (s, rest).
Proof.
  induction s as [|c s IH]; [done|]. cbn [appendEscaped]. rewrite appendEscaped_app, append_assoc.
  change ("" +:+ escaped c) with (escaped c). by rewrite read_escaped_char, IH.
Qed.

(** ** Members separated by commas *)

Fixpoint joined (parts : list string) : string :=
  match parts with
  | [] => ""
  | part :: rest => match rest with [] => part | _ => part +:+ String "," (joined rest) end
  end.

Lemma joined_cons part rest : rest <> [] -> joined (part :: rest) = part +:+ String "," (joined rest).
Proof. by destruct rest. Qed.

Lemma joined_snoc parts part :
  joined (parts ++ [part]) = if decide (parts = []) then part else joined parts +:+ String "," part.
Proof.
  induction parts as [|p parts IH]; [done|]. cbn [app]. rewrite joined_cons by (by destruct parts). rewrite IH.
  destruct (decide (parts = [])) as [->|Hne]; [done|]. rewrite joined_cons by done. by rewrite append_assoc.
Qed.

Lemma joined_empty parts : Forall (fun p => p <> "") parts -> joined parts = "" -> parts = [].
Proof.
  intros Hne Hj. destruct parts as [|p parts]; [done|]. apply Forall_cons in Hne as [Hp _].
  destruct parts as [|q parts]; cbn in Hj; [done|]. by destruct p.
Qed.

Lemma joined_length parts : (length parts <= S (String.length (joined parts)))%nat.
Proof.
  induction parts as [|p parts IH]; [cbn; lia|]. destruct parts as [|q parts]; [cbn; lia|]. rewrite joined_cons by done.
  rewrite length_append. cbn [length String.length] in *. lia.
Qed.

(** Appended texts as one list of characters and parts. *)
Ltac texts := repeat first [rewrite append_assoc | rewrite append_cons | rewrite append_empty].

Section Back.
Context {V : Type} `{ValueReaderLaws V}.

(** A text of one member. *)
Definition is_member (text : string) (m : string * V) : Prop :=
  forall c rest, c = ","%char \/ c = "}"%char -> read_member (text +:+ String c rest) = Some (m, String c rest).

Definition part (key text : string) : string := String quote (key +:+ String quote (String ":" text)).

Lemma is_member_part key text v : plain key -> is_value text v -> is_member (part key text) (key, v).
Proof.
  intros Hk [_ Hv] c rest Hc. unfold part, read_member. rewrite append_cons.
  rewrite skip_same. cbn [mbind option_bind].
  rewrite append_assoc, append_cons, <- Hk, read_escaped. cbn [mbind option_bind]. rewrite ?append_cons.
  rewrite skip_same. cbn [mbind option_bind]. rewrite Hv by done. cbn. by rewrite Hk.
Qed.

Lemma is_value_quoted s : is_value (String quote (appendEscaped "" s +:+ String quote "")) (of_string s).
Proof.
  split; [done|]. intros c rest _. rewrite append_cons, read_value_string, append_assoc, append_cons. by rewrite read_escaped.
Qed.

Lemma read_parts parts ms : Forall2 is_member parts ms -> forall fuel, (length parts <= fuel)%nat -> parts <> [] ->
  read_members fuel (joined parts +:+ "}") = Some ms.
Proof.
  induction 1 as [|p m parts ms Hp Hall IH]; intros fuel Hf Hne; [done|]. destruct fuel as [|fuel]; [cbn in Hf; lia|].
  cbn [read_members]. destruct parts as [|q parts].
  - apply Forall2_nil_inv_l in Hall as ->. cbn [joined]. rewrite Hp by (by right). done.
  - rewrite joined_cons, append_assoc, append_cons by done. rewrite Hp by (by left).
    cbn [mbind option_bind]. rewrite skip_same. rewrite IH; [done|cbn in *; lia|done].
Qed.

Lemma read_object_parts parts ms : Forall2 is_member parts ms -> Forall (fun p => p <> "") parts ->
  read_object ("{" +:+ joined parts +:+ "}") = Some ms.
Proof.
  intros Hall Hne. unfold read_object. rewrite append_cons, append_empty, skip_same. cbn [mbind option_bind].
  destruct (decide (parts = [])) as [->|Hp]; [apply Forall2_nil_inv_l in Hall as ->; done|].
  rewrite decide_False.
  - apply read_parts; [done| |done]. pose proof (joined_length parts) as Hlen. clear -Hlen.
    rewrite length_append. cbn. lia.
  - intros Hj. assert (joined parts = "") as Hj' by (destruct (joined parts) as [|c s]; [done|]; injection Hj as _ Hj; by destruct s).
    by apply joined_empty in Hj'.
Qed.

(** ** The state of a builder *)

(** The parts of the members of a call. *)
Definition extras_part (c : Call) : option string :=
  match c with
  | CExtra key value_json => Some (part key value_json)
  | CExtraString key value => Some (part key (String quote (appendEscaped "" value +:+ String quote "")))
  | _ => None
  end.

Record built (b : MediaMetadataBuilder) (calls : list Call) : Prop := {
  bu_class : media_class_ b = set_last class_of calls;
  bu_encoding : encoding_ b = set_last encoding_of calls;
  bu_schema : schema_ b = set_last schema_of calls;
  bu_extras : extras_ b = joined (omap extras_part calls)
}.

Lemma extras_parts_full calls : Forall (fun p => p <> "") (omap extras_part calls).
Proof. induction calls as [|[] calls IH]; cbn; try done; by constructor. Qed.

Lemma extras_parts_read calls : Forall (call_ok (V := V)) calls -> Forall2 is_member (omap extras_part calls) (omap extra_member calls).
Proof.
  induction 1 as [|c calls Hc _ IH]; [constructor|]. destruct c as [v|v|v|key text|key value]; try exact IH; cbn.
  - destruct Hc as (Hk & v & Hv). unfold extra_value. destruct Hv as [Hne Hv].
    rewrite (Hv "}"%char "") by (by right). cbn. constructor; [by apply is_member_part|exact IH].
  - constructor; [|exact IH]. apply is_member_part; [done|apply is_value_quoted].
Qed.

Lemma set_last_snoc f calls c : set_last f (calls ++ [c]) = default (set_last f calls) (f c).
Proof. unfold set_last. rewrite omap_app. cbn. destruct (f c); [by rewrite last_snoc|by rewrite app_nil_r]. Qed.

Lemma extra_built b calls key text : extras_ b = joined (omap extras_part calls) ->
  (if decide (extras_ b = "") then "" else extras_ b +:+ ",") +:+ part key text
  = joined (omap extras_part calls ++ [part key text]).
Proof.
  intros Hb. rewrite joined_snoc, Hb. case_decide as Hj.
  - apply joined_empty in Hj; [|apply extras_parts_full]. by rewrite Hj.
  - rewrite decide_False by (intros Hp; by rewrite Hp in Hj). by rewrite append_assoc.
Qed.

Lemma call_built b calls c : built b calls -> built (call b c) (calls ++ [c]).
Proof.
  intros [H1 H2 H3 H4]. split; rewrite ?set_last_snoc; try (by destruct c). rewrite omap_app.
  destruct c as [v|v|v|key text|key value]; cbn; rewrite ?app_nil_r; try done.
  - rewrite append_assoc. rewrite ?append_cons. rewrite append_assoc. by apply extra_built.
  - rewrite <- (extra_built b) by done. rewrite appendEscaped_app. unfold part. by texts.
Qed.

Lemma calls_built calls : built (foldl call Metadata.make calls) calls.
Proof. induction calls as [|c calls IH] using rev_ind; [done|]. rewrite foldl_app. by apply call_built. Qed.

Definition named_part (key value : string) : list string :=
  if decide (value = "") then [] else [part key (String quote (appendEscaped "" value +:+ String quote ""))].

Lemma kv_string_parts parts key value :
  Metadata.kv_string ("{" +:+ joined parts, bool_decide (parts = [])) key value
  = ("{" +:+ joined (parts ++ named_part key value), bool_decide ((parts ++ named_part key value)%list = [])).
Proof.
  unfold Metadata.kv_string, named_part. case_decide as Hv; [by rewrite app_nil_r|].
  rewrite (bool_decide_eq_false_2 ((parts ++ _)%list = [])) by (by destruct parts). f_equal.
  rewrite joined_snoc, appendEscaped_app. unfold part. case_decide as Hd.
  - subst. rewrite bool_decide_eq_true_2 by done. by texts.
  - rewrite bool_decide_eq_false_2 by done. by texts.
Qed.

Lemma named_parts key value : plain key -> Forall2 is_member (named_part key value) (named key value).
Proof.
  intros Hk. unfold named_part, named. case_decide; constructor; [|constructor]. apply is_member_part; [done|apply is_value_quoted].
Qed.

Lemma named_part_full key value : Forall (fun p => p <> "") (named_part key value).
Proof. unfold named_part. case_decide; by repeat constructor. Qed.

Lemma joined_app xs ys : ys <> [] -> joined (xs ++ ys) = (if decide (xs = []) then "" else joined xs +:+ ",") +:+ joined ys.
Proof.
  intros Hy. induction xs as [|x xs IH]; [done|]. rewrite decide_False by done. cbn [app].
  rewrite joined_cons by (by destruct xs). rewrite IH. case_decide as Hd; [subst; cbn [joined]; by rewrite append_assoc|].
  rewrite joined_cons by done. by texts.
Qed.

(** The parts of the whole text. *)
Definition build_parts (b : MediaMetadataBuilder) : list string :=
  ((named_part "media_class" (media_class_ b) ++ named_part "encoding" (encoding_ b)) ++ named_part "schema" (schema_ b))%list.

Lemma build_text b calls : built b calls ->
  Metadata.build b = "{" +:+ joined (build_parts b ++ omap extras_part calls) +:+ "}".
Proof.
  intros Hb. unfold Metadata.build. change ("{", true) with ("{" +:+ joined [], bool_decide (@nil string = [])).
  rewrite !kv_string_parts. change ([] ++ ?l)%list with l. fold (build_parts b). rewrite (bu_extras _ _ Hb).
  case_decide as He.
  - apply joined_empty in He as ->; [|apply extras_parts_full]. rewrite app_nil_r. by texts.
  - rewrite joined_app by (intros Hn; by rewrite Hn in He). case_decide as Hp.
    + rewrite bool_decide_eq_true_2 by done. rewrite Hp. by texts.
    + rewrite bool_decide_eq_false_2 by done. by texts.
Qed.

(** C36: Whatever a plugin calls on a builder, as long as the keys it gives need no escapes and its
    raw values are JSON values, the text is one JSON object: its members are the media class, the
    encoding and the schema that were set last, each if it is not empty, and then the extra members
    in the order of the calls, and every string is read back as it was given, whatever characters it
    has.  Keys are not escaped ([key_not_escaped]). *)
Theorem metadata_read_back calls : Forall (call_ok (V := V)) calls ->
  read_object (Metadata.build (foldl call Metadata.make calls)) = Some (members calls).
Proof.
  intros Hok. pose proof (calls_built calls) as Hb. rewrite (build_text _ _ Hb).
  apply read_object_parts.
  - apply Forall2_app; [|by apply extras_parts_read]. unfold build_parts.
    rewrite (bu_class _ _ Hb), (bu_encoding _ _ Hb), (bu_schema _ _ Hb), <- app_assoc.
    repeat apply Forall2_app; by apply named_parts.
  - apply Forall_app. split; [|apply extras_parts_full]. unfold build_parts. rewrite !Forall_app.
    split_and!; apply named_part_full.
Qed.

End Back.

(** ** A reader of strings and bare words *)

Inductive Scalar := SString (s : string) | SWord (s : string).

(** The characters up to a comma or a brace. *)
Fixpoint read_word (t : string) : string * string :=
  match t with
  | String c r => if Ascii.eqb c "," || Ascii.eqb c "}" then ("", t) else let '(w, rest) := read_word r in (String c w, rest)
  | EmptyString => ("", "")
  end.

#[export] Instance scalar_reader : ValueReader Scalar := {|
  read_value t :=
    match t with
    | String c r =>
        if Ascii.eqb c quote then '(s, rest) ← read_chars r; Some (SString s, rest)
        else let '(w, rest) := read_word t in Some (SWord w, rest)
    | EmptyString => None
    end;
  of_string := SString
|}.

#[export] Instance scalar_reader_laws : ValueReaderLaws Scalar.
Proof. split. intros t. reflexivity. Qed.

(** A schema with a quote, a backslash and control characters. *)
Definition odd_name : string := "a" +:+ String quote "" +:+ String (ascii_of_nat 10) (String (ascii_of_nat 1) "z").

Definition image_calls : list Call :=
  [CEncoding "png"; CMediaClass "image"; CExtra "width" "640"; CEncoding "jpeg"; CSchema odd_name; CExtraString "frame" "cam"].

Lemma metadata_read_back_witness :
  members image_calls = [("media_class", SString "image"); ("encoding", SString "jpeg"); ("schema", SString odd_name);
                         ("width", SWord "640"); ("frame", SString "cam")]
  /\ read_object (Metadata.build (foldl call Metadata.make image_calls)) = Some (members (V := Scalar) image_calls).
Proof.
  split; [reflexivity|]. apply (metadata_read_back (V := Scalar) image_calls). repeat constructor; try done.
  exists (SWord "640"). split; [done|]. intros c rest [->| ->]; reflexivity.
Defined.

Example empty_metadata : Metadata.build Metadata.make = "{}".
Proof. reflexivity. Qed.

(** Only values are escaped: a quote in a key ends it, and what follows is no object any more. *)
Example key_not_escaped :
  read_object (V := Scalar) (Metadata.build (Metadata.extraString Metadata.make (String "a" (String quote "b")) "c")) = None.
Proof. reflexivity. Qed.
