(* ===== verification/ArrowImport.v ===== *)
(** * ArrowImport: tables in the Arrow format into a topic

    Models [src/pj_datastore/src/arrow_import.cpp] and the structs of the Arrow
    C interface of [src/pj_base/include/pj_base/plugin_data_api.h].  nanoarrow is
    not in the repository: what the code asks it is the class [Nanoarrow], and
    what it documents of its answers is [NanoarrowLaws].  [arrow_cell] is what
    the Arrow format says a column holds; the theorems say that the columns the
    importer hands to the writer hold the same cells, and that a stream is
    appended batch by batch.  A stream is the code of a plugin: its callbacks are
    functions on its private data. *)

From S2P Require Import Prelude Types TypeTree TypeRegistry Float64 Buffer Encoding Column Chunk Query TopicStorage Engine Writer.

(** ** The structs of the C interface

    The members that are read; a null pointer is [None], and a struct that is
    released is not one. *)

#[warnings="-register-all"]
Inductive ArrowSchema := mkSchema {
  format : option string; schema_name : option string; schema_children : list ArrowSchema }.

#[warnings="-register-all"]
Inductive ArrowArray := mkArray {
  array_length : Z; null_count : Z; array_offset : Z; buffers : list (option bytes); array_children : list ArrowArray }.

(** A call returns its code, and fills its out-parameter if that is 0; a batch
    that is released is the end of the stream. *)
Record ArrowArrayStream (S : Type) := mkStream {
  get_schema : option (S -> S * (Z * ArrowSchema));
  get_next : option (S -> S * (Z * option ArrowArray));
  get_last_error : option (S -> option string);
  release : option (S -> S);
  private_data : S
}.
Arguments mkStream {S}. Arguments get_schema {S}. Arguments get_next {S}. Arguments get_last_error {S}.
Arguments release {S}. Arguments private_data {S}.

Definition with_private_data {S} (st : ArrowArrayStream S) (d : S) : ArrowArrayStream S :=
  mkStream (get_schema st) (get_next st) (get_last_error st) (release st) d.

(** ** nanoarrow *)

(** The types the importer names, and any other. *)
Inductive ArrowType :=
| NANOARROW_TYPE_NA | NANOARROW_TYPE_BOOL | NANOARROW_TYPE_UINT8 | NANOARROW_TYPE_INT8 | NANOARROW_TYPE_UINT16
| NANOARROW_TYPE_INT16 | NANOARROW_TYPE_UINT32 | NANOARROW_TYPE_INT32 | NANOARROW_TYPE_UINT64 | NANOARROW_TYPE_INT64
| NANOARROW_TYPE_FLOAT | NANOARROW_TYPE_DOUBLE | NANOARROW_TYPE_STRING | NANOARROW_TYPE_LARGE_STRING
| NANOARROW_TYPE_OTHER (code : Z).

#[export] Instance ArrowType_eq_dec : EqDecision ArrowType.
Proof. solve_decision. Defined.

(** An array with the layout of its schema. *)
#[warnings="-register-all"]
Inductive ArrowArrayView := mkArrayView {
  storage_type : ArrowType; view_offset : Z; view_null_count : Z; buffer_views : list (option bytes);
  view_children : list ArrowArrayView }.

(** The calls of the importer; [None] is a code that is not [NANOARROW_OK], and
    for the two getters a read outside of the buffers. *)
Class Nanoarrow := {
  ArrowSchemaViewInit : ArrowSchema -> option ArrowType;
  ArrowArrayViewInitFromSchema : ArrowSchema -> bool;
  ArrowArrayViewSetArray : ArrowSchema -> ArrowArray -> option ArrowArrayView;
  ArrowArrayViewGetIntUnsafe : ArrowArrayView -> nat -> option Z;
  ArrowArrayViewGetUIntUnsafe : ArrowArrayView -> nat -> option Z
}.

Definition nanoarrow_type_to_primitive (type : ArrowType) : option PrimitiveType :=
  match type with
  | NANOARROW_TYPE_INT8 => Some kInt8
  | NANOARROW_TYPE_INT16 => Some kInt16
  | NANOARROW_TYPE_INT32 => Some kInt32
  | NANOARROW_TYPE_INT64 => Some kInt64
  | NANOARROW_TYPE_UINT8 => Some kUint8
  | NANOARROW_TYPE_UINT16 => Some kUint16
  | NANOARROW_TYPE_UINT32 => Some kUint32
  | NANOARROW_TYPE_UINT64 => Some kUint64
  | NANOARROW_TYPE_FLOAT => Some kFloat32
  | NANOARROW_TYPE_DOUBLE => Some kFloat64
  | NANOARROW_TYPE_BOOL => Some kBool
  | NANOARROW_TYPE_STRING | NANOARROW_TYPE_LARGE_STRING => Some kString
  | _ => None
  end.

(** ** Columns of a batch *)

Record ArrowColumnMapping := mkMapping {
  arrow_column_index : Z; pj_column_index : nat; pj_type : PrimitiveType; field_name : string }.

(** [buffer_views[k].data] *)
Definition buffer (v : ArrowArrayView) (k : nat) : option bytes := mjoin (buffer_views v !! k).

(** [child->offset] as an index; a negative one points before the buffer. *)
Definition first_slot (v : ArrowArrayView) : option nat :=
  if view_offset v <? 0 then None else Some (Z.to_nat (view_offset v)).

(** The [n] elements of [w] bytes from [data + offset]. *)
Definition span_of (w n : nat) (v : ArrowArrayView) : option (list Z) :=
  o ← first_slot v;
  data ← buffer v 1;
  mapM (fun i => load w ((o + i) * w) data) (seq 0 n).

Definition validity_view (v : ArrowArrayView) (n : nat) : option BitSpan :=
  match buffer v 0 with
  | Some bits =>
      if 0 <? view_null_count v then
        o ← first_slot v;
        let validity_bytes := ((o + n + 7) / 8)%nat in
        if decide (validity_bytes <= length bits)%nat
        then Some (mkBitSpan (take validity_bytes bits) o n) else None
      else Some (mkBitSpan [] 0 0)
  | None => Some (mkBitSpan [] 0 0)
  end.

Section Importer.
Context `{Nanoarrow}.

(** The loop over [ArrowArrayViewGetIntUnsafe] or its unsigned sibling. *)
Definition get_all (get : ArrowArrayView -> nat -> option Z) (v : ArrowArrayView) (n : nat) : option (list Z) :=
  mapM (get v) (seq 0 n).

(** The switch on the storage kind: what the spans of a column show. *)
Definition column_payload (child : ArrowArrayView) (type : PrimitiveType) (n : nat) : option ColumnPayload :=
  match storageKindOf type with
  | StorageKind.kFloat32 => l ← span_of 4 n child; Some (PNumeric (Builder.BFloat32 l))
  | StorageKind.kFloat64 => l ← span_of 8 n child; Some (PNumeric (Builder.BFloat64 l))
  | StorageKind.kInt32 => l ← span_of 4 n child; Some (PNumeric (Builder.BInt32 (map i32 l)))
  | StorageKind.kInt64 =>
      match type with
      | kInt8 | kInt16 =>
          l ← get_all ArrowArrayViewGetIntUnsafe child n; Some (PNumeric (Builder.BInt64 l))
      | _ => l ← span_of 8 n child; Some (PNumeric (Builder.BInt64 (map i64 l)))
      end
  | StorageKind.kUint64 =>
      match type with
      | kUint8 | kUint16 | kUint32 =>
          l ← get_all ArrowArrayViewGetUIntUnsafe child n; Some (PNumeric (Builder.BUint64 l))
      | _ => l ← span_of 8 n child; Some (PNumeric (Builder.BUint64 l))
      end
  | StorageKind.kBool =>
      l ← get_all ArrowArrayViewGetIntUnsafe child n;
      Some (PNumeric (Builder.BBool (map (fun z => if z =? 0 then 0 else 1) l)))
  | StorageKind.kString =>
      offsets ← span_of 4 (n + 1) child;
      Some (PStrings (map (fun o => u32 (i32 o)) offsets) (default [] (buffer child 2)))
  end.

Definition make_column_data_nanoarrow (child : ArrowArrayView) (mapping : ArrowColumnMapping) (n : nat)
  : option ColumnData :=
  validity ← validity_view child n;
  payload ← column_payload child (pj_type mapping) n;
  Some (mkColumnData (pj_column_index mapping) payload validity).

Definition generate_sequential_timestamps (n : nat) : list Z := map Z.of_nat (seq 0 n).

Definition extract_timestamps_nanoarrow (view : ArrowArrayView) (n : nat) : option (list Z) :=
  match storage_type view with
  | NANOARROW_TYPE_INT64 | NANOARROW_TYPE_UINT64 => map i64 <$> span_of 8 n view
  | NANOARROW_TYPE_INT32 => map i32 <$> span_of 4 n view
  | _ => Some (generate_sequential_timestamps n)
  end.

(** ** Schemas *)

(** The columns [i], [i + 1], ... of a schema, [n] of which have a mapping before. *)
Fixpoint mappings_from (i : Z) (n : nat) (children : list ArrowSchema)
  : list (TypeTreeNode * ArrowColumnMapping) :=
  match children with
  | [] => []
  | child :: rest =>
      match (type ← ArrowSchemaViewInit child; nanoarrow_type_to_primitive type) with
      | None => mappings_from (i + 1) n rest
      | Some type =>
          let m := mkMapping (i32 i) n type (default ""%string (schema_name child)) in
          (makePrimitive (field_name m) type, m) :: mappings_from (i + 1) (S n) rest
      end
  end.

Definition mappingsFromSchema (schema : ArrowSchema) : Expected (TypeTreeNode * list ArrowColumnMapping) :=
  let columns := mappings_from 0 0 (schema_children schema) in
  match map snd columns with
  | [] => Err "No supported columns found in Arrow schema"
  | mappings => Ok (makeStruct "arrow_row" (map fst columns), mappings)
  end.

(** ** Batches *)

(** The columns of a batch, or the error of the first mapping that is out of range. *)
Fixpoint batch_columns (view : ArrowArrayView) (mappings : list ArrowColumnMapping) (n : nat)
  : option (Expected (list ColumnData)) :=
  match mappings with
  | [] => Some (Ok [])
  | m :: rest =>
      if Z.of_nat (length (view_children view)) <=? arrow_column_index m
      then Some (Err ("Arrow column index " +:+ pretty (arrow_column_index m) +:+ " out of range"))
      else
        child ← (if arrow_column_index m <? 0 then None else view_children view !! Z.to_nat (arrow_column_index m));
        col ← make_column_data_nanoarrow child m n;
        cols ← batch_columns view rest n;
        Some (cols ← cols; Ok (col :: cols))
  end.

Definition batch_timestamps (view : ArrowArrayView) (timestamp_column : Z) (n : nat) : option (Expected (list Z)) :=
  if 0 <=? timestamp_column then
    match view_children view !! Z.to_nat timestamp_column with
    | None => Some (Err ("timestamp_column " +:+ pretty timestamp_column +:+ " out of range ("
                         +:+ pretty (length (view_children view)) +:+ " children)"))
    | Some child => Ok <$> extract_timestamps_nanoarrow child n
    end
  else Some (Ok (generate_sequential_timestamps n)).

(** The body of the loop after [get_next] gave a batch.  For a negative length the
    vector of the time stamps throws. *)
Definition ingest_batch (w : DataWriter) (topic : Z) (schema : ArrowSchema) (mappings : list ArrowColumnMapping)
    (timestamp_column : Z) (batch : ArrowArray) : option (DataWriter * Status) :=
  let num_rows := array_length batch in
  if num_rows =? 0 then Some (w, okStatus)
  else
    let n := Z.to_nat num_rows in
    match ArrowArrayViewSetArray schema batch with
    | None => Some (w, Err "Failed to set array on ArrowArrayView")
    | Some view =>
        timestamps ← batch_timestamps view timestamp_column n;
        match timestamps with
        | Err e => Some (w, Err e)
        | Ok timestamps =>
            guard (0 <= num_rows);;
            cols ← batch_columns view mappings n;
            match cols with
            | Err e => Some (w, Err e)
            | Ok cols => Writer.appendColumns w topic timestamps cols
            end
        end
    end.

Section Stream.
Context {S : Type}.
Implicit Types (st : ArrowArrayStream S).

Definition last_error (st : ArrowArrayStream S) (otherwise : string) : string :=
  default otherwise (f ← get_last_error st; f (private_data st)).

(** The loop of [ingestBatchesFromStream]: [fuel] is the number of calls of [get_next]. *)
Fixpoint ingest_loop (fuel : nat) (w : DataWriter) (topic : Z) (st : ArrowArrayStream S) (schema : ArrowSchema)
    (mappings : list ArrowColumnMapping) (timestamp_column : Z)
  : option (DataWriter * ArrowArrayStream S * Status) :=
  match fuel with
  | O => None
  | Datatypes.S fuel =>
      next ← get_next st;
      let '(d, (rc, batch)) := next (private_data st) in
      let st := with_private_data st d in
      if negb (rc =? 0) then Some (w, st, Err ("Failed to read next batch: " +:+ last_error st "unknown"))
      else
        match batch with
        | None => Some (w, st, okStatus)
        | Some batch =>
            '(w, status) ← ingest_batch w topic schema mappings timestamp_column batch;
            match status with
            | Err e => Some (w, st, Err e)
            | Ok _ => ingest_loop fuel w topic st schema mappings timestamp_column
            end
        end
  end.

Definition ingestBatchesFromStream fuel (w : DataWriter) (topic : Z) (st : ArrowArrayStream S) (schema : ArrowSchema)
    (mappings : list ArrowColumnMapping) (timestamp_column : Z)
  : option (DataWriter * ArrowArrayStream S * Status) :=
  if ArrowArrayViewInitFromSchema schema
  then ingest_loop fuel w topic st schema mappings timestamp_column
  else Some (w, st, Err "Failed to initialize ArrowArrayView from schema").

(** [schemaFromArrowStream]; [None] is a null stream. *)
Definition schemaFromArrowStream (stream : option (ArrowArrayStream S))
  : option (ArrowArrayStream S) * Expected (TypeTreeNode * list ArrowColumnMapping) :=
  match stream with
  | None => (None, Err "null ArrowArrayStream or missing get_schema")
  | Some st =>
      match get_schema st with
      | None => (Some st, Err "null ArrowArrayStream or missing get_schema")
      | Some get =>
          let '(d, (rc, schema)) := get (private_data st) in
          let st := with_private_data st d in
          if rc =? 0 then (Some st, mappingsFromSchema schema)
          else (Some st, Err ("Failed to read schema from ArrowArrayStream: " +:+ last_error st ""))
      end
  end.

Definition importArrowStream fuel (w : DataWriter) (topic : Z) (stream : option (ArrowArrayStream S))
    (mappings : list ArrowColumnMapping) (timestamp_column : Z)
  : option (DataWriter * option (ArrowArrayStream S) * Status) :=
  let missing := Some (w, stream, Err "null ArrowArrayStream or missing callbacks") in
  match stream with
  | None => missing
  | Some st =>
      match get_schema st, get_next st with
      | Some get, Some _ =>
          let '(d, (rc, schema)) := get (private_data st) in
          let st := with_private_data st d in
          if rc =? 0 then
            '(w, st, status) ← ingestBatchesFromStream fuel w topic st schema mappings timestamp_column;
            Some (w, Some st, status)
          else Some (w, Some st, Err ("Failed to read schema from ArrowArrayStream: " +:+ last_error st ""))
      | _, _ => missing
      end
  end.

End Stream.

(** ** Streams of bytes *)

Record SpanInputStreamData := mkInput { in_data : bytes; in_size : Z; in_offset : Z }.

Definition init_span_input_stream (span : bytes) : SpanInputStreamData := mkInput span (Z.of_nat (length span)) 0.

(** The bytes that are copied; [*size_read_out] is their number. *)
Definition span_input_stream_read (s : SpanInputStreamData) (buf_size_bytes : Z) : SpanInputStreamData * bytes :=
  let available := in_size s - in_offset s in
  let to_read := Z.min buf_size_bytes available in
  if 0 <? to_read
  then (mkInput (in_data s) (in_size s) (in_offset s + to_read),
        take (Z.to_nat to_read) (drop (Z.to_nat (in_offset s)) (in_data s)))
  else (s, []).

(** The reader of nanoarrow: a stream of tables over an input it reads from. *)
Class IpcReader (R : Type) := {
  ArrowIpcArrayStreamReaderInit :
    (SpanInputStreamData -> Z -> SpanInputStreamData * bytes) -> SpanInputStreamData -> option (ArrowArrayStream R)
}.

Section Ipc.
Context {R : Type} `{!IpcReader R}.

(** The stream after [get_schema]; that slot is filled by the reader. *)
Definition open_ipc (ipc_stream : bytes) : option (Expected (ArrowArrayStream R * ArrowSchema)) :=
  match ArrowIpcArrayStreamReaderInit span_input_stream_read (init_span_input_stream ipc_stream) with
  | None => Some (Err "Failed to initialize IPC stream reader")
  | Some st =>
      get ← get_schema st;
      let '(d, (rc, schema)) := get (private_data st) in
      if rc =? 0 then Some (Ok (with_private_data st d, schema))
      else Some (Err "Failed to read schema from IPC stream")
  end.

Definition schemaFromIpc (ipc_stream : bytes) : option (Expected (TypeTreeNode * list ArrowColumnMapping)) :=
  opened ← open_ipc ipc_stream;
  Some ('(_, schema) ← opened; mappingsFromSchema schema).

Definition importIpcStream fuel (w : DataWriter) (topic : Z) (ipc_stream : bytes)
    (mappings : list ArrowColumnMapping) (timestamp_column : Z) : option (DataWriter * Status) :=
  opened ← open_ipc ipc_stream;
  match opened with
  | Err e => Some (w, Err e)
  | Ok (st, schema) =>
      '(w, _, status) ← ingestBatchesFromStream fuel w topic st schema mappings timestamp_column;
      Some (w, status)
  end.

End Ipc.
End Importer.

(** ** What the Arrow format says *)

Section Arrow.
Implicit Types (v : ArrowArrayView).

(** The slot [i] of an array is the element [offset + i] of its buffers. *)
Definition slot_at (w i : nat) v : option Z :=
  data ← buffer v 1; load w ((Z.to_nat (view_offset v) + i) * w) data.

Definition arrow_bit v (i : nat) : option bool :=
  data ← buffer v 1;
  let k := (Z.to_nat (view_offset v) + i)%nat in
  if decide (k < 8 * length data)%nat then Some (bit_at data k) else None.

(** A text lies between two offsets of [w] bytes in the second buffer. *)
Definition arrow_text (w i : nat) v : option bytes :=
  a ← wrapS (8 * Z.of_nat w) <$> slot_at w i v;
  b ← wrapS (8 * Z.of_nat w) <$> slot_at w (S i) v;
  if decide (0 <= a <= b) then substring (default [] (buffer v 2)) (Z.to_nat a) (Z.to_nat (b - a)) else None.

Definition arrow_int v (i : nat) : option Z :=
  match storage_type v with
  | NANOARROW_TYPE_INT8 => wrapS 8 <$> slot_at 1 i v
  | NANOARROW_TYPE_INT16 => wrapS 16 <$> slot_at 2 i v
  | NANOARROW_TYPE_INT32 => wrapS 32 <$> slot_at 4 i v
  | NANOARROW_TYPE_INT64 => wrapS 64 <$> slot_at 8 i v
  | NANOARROW_TYPE_UINT8 => slot_at 1 i v
  | NANOARROW_TYPE_UINT16 => slot_at 2 i v
  | NANOARROW_TYPE_UINT32 => slot_at 4 i v
  | NANOARROW_TYPE_UINT64 => slot_at 8 i v
  | NANOARROW_TYPE_BOOL => (fun b : bool => if b then 1 else 0) <$> arrow_bit v i
  | _ => None
  end.

(** The value of slot [i], in the type it has in a column. *)
Definition arrow_value v (i : nat) : option Value :=
  match storage_type v with
  | NANOARROW_TYPE_FLOAT => VFloat32 <$> slot_at 4 i v
  | NANOARROW_TYPE_DOUBLE => VFloat64 <$> slot_at 8 i v
  | NANOARROW_TYPE_INT8 | NANOARROW_TYPE_INT16 | NANOARROW_TYPE_INT64 => VInt64 <$> arrow_int v i
  | NANOARROW_TYPE_INT32 => VInt32 <$> arrow_int v i
  | NANOARROW_TYPE_UINT8 | NANOARROW_TYPE_UINT16 | NANOARROW_TYPE_UINT32 | NANOARROW_TYPE_UINT64 =>
      VUint64 <$> arrow_int v i
  | NANOARROW_TYPE_BOOL => VBool <$> arrow_bit v i
  | NANOARROW_TYPE_STRING => VString <$> arrow_text 4 i v
  | NANOARROW_TYPE_LARGE_STRING => VString <$> arrow_text 8 i v
  | _ => None
  end.

(** Without a validity buffer every slot is valid. *)
Definition arrow_valid v (i : nat) : bool :=
  match buffer v 0 with Some bits => bit_at bits (Z.to_nat (view_offset v) + i) | None => true end.

(** [Some None] is a null. *)
Definition arrow_cell v (i : nat) : option (option Value) :=
  if arrow_valid v i then Some <$> arrow_value v i else Some None.

End Arrow.

(** What nanoarrow documents: the getters read the slot of a small type. *)
Class NanoarrowLaws `{Nanoarrow} := {
  GetInt_slot v i z : arrow_int v i = Some z ->
    storage_type v ∈ [NANOARROW_TYPE_INT8; NANOARROW_TYPE_INT16; NANOARROW_TYPE_BOOL] ->
    ArrowArrayViewGetIntUnsafe v i = Some z;
  GetUInt_slot v i z : arrow_int v i = Some z ->
    storage_type v ∈ [NANOARROW_TYPE_UINT8; NANOARROW_TYPE_UINT16; NANOARROW_TYPE_UINT32] ->
    ArrowArrayViewGetUIntUnsafe v i = Some z
}.

(** ** The cells of a column for the writer *)

Definition payload_value (p : ColumnPayload) (i : nat) : option Value :=
  match p with
  | PNumeric (Builder.BFloat32 l) => VFloat32 <$> l !! i
  | PNumeric (Builder.BFloat64 l) => VFloat64 <$> l !! i
  | PNumeric (Builder.BInt32 l) => VInt32 <$> l !! i
  | PNumeric (Builder.BInt64 l) => VInt64 <$> l !! i
  | PNumeric (Builder.BUint64 l) => VUint64 <$> l !! i
  | PNumeric (Builder.BBool l) => (fun z => VBool (negb (z =? 0))) <$> l !! i
  | PStrings offsets values =>
      a ← offsets !! i; b ← offsets !! S i; VString <$> substring values (Z.to_nat a) (Z.to_nat (b - a))
  end.

Definition column_cell (c : ColumnData) (i : nat) : option (option Value) :=
  ok ← (if decide (bit_length (validity c) = 0)%nat then Some true else BitSpan_test (validity c) i);
  if (ok : bool) then Some <$> payload_value (payload c) i else Some None.

(** ** Columns hold the cells of their arrays *)

Lemma mapM_seq {A} (f : nat -> option A) n : (forall i, (i < n)%nat -> is_Some (f i)) ->
  exists l, mapM f (seq 0 n) = Some l /\ length l = n /\ forall i, (i < n)%nat -> l !! i = f i.
Proof.
  intros Hf. destruct (mapM f (seq 0 n)) as [l|] eqn:E.
  - exists l. split; [done|]. apply mapM_Some in E. pose proof (Forall2_length _ _ _ E) as Hl. rewrite length_seq in Hl.
    split; [done|]. intros i Hi.
    destruct (Forall2_lookup_l _ _ _ i i E) as (x & -> & Hx); [by apply lookup_seq|]. done.
  - apply mapM_None in E. apply Exists_exists in E as (i & Hi%elem_of_seq & Hn).
    destruct (Hf i ltac:(lia)) as [x Hx]. by rewrite Hx in Hn.
Qed.

(** The bytes of a slot; the bits of a boolean are counted apart. *)
Definition slot_width (t : ArrowType) : nat :=
  match t with
  | NANOARROW_TYPE_INT8 | NANOARROW_TYPE_UINT8 => 1
  | NANOARROW_TYPE_INT16 | NANOARROW_TYPE_UINT16 => 2
  | NANOARROW_TYPE_INT64 | NANOARROW_TYPE_UINT64 | NANOARROW_TYPE_DOUBLE | NANOARROW_TYPE_LARGE_STRING => 8
  | _ => 4
  end.

(** An array of [n] slots: its buffers are there and long enough, and a null
    count that is not positive means that there is no null. *)
Record holds_rows (v : ArrowArrayView) (n : nat) : Prop := {
  hr_offset : 0 <= view_offset v;
  hr_nulls : view_null_count v <= 0 -> forall i, (i < n)%nat -> arrow_valid v i = true;
  hr_validity : forall bits, buffer v 0 = Some bits -> (Z.to_nat (view_offset v) + n <= 8 * length bits)%nat;
  hr_data : exists data, buffer v 1 = Some data /\
    let slots := (Z.to_nat (view_offset v) + n)%nat in
    match storage_type v with
    | NANOARROW_TYPE_BOOL => (slots <= 8 * length data)%nat
    | NANOARROW_TYPE_STRING | NANOARROW_TYPE_LARGE_STRING => ((slots + 1) * slot_width (storage_type v) <= length data)%nat
    | t => (slots * slot_width t <= length data)%nat
    end
}.

Section Cells.
Context `{NanoarrowLaws}.
Implicit Types (v : ArrowArrayView) (n : nat).

Lemma first_slot_ok v n : holds_rows v n -> first_slot v = Some (Z.to_nat (view_offset v)).
Proof. intros Hr. unfold first_slot. pose proof (hr_offset _ _ Hr). by rewrite (proj2 (Z.ltb_ge _ _)) by lia. Qed.

Lemma slot_at_enough v w k data : buffer v 1 = Some data ->
  ((Z.to_nat (view_offset v) + k) * w <= length data)%nat -> forall i, (i < k)%nat -> is_Some (slot_at w i v).
Proof.
  intros Hd Hl i Hi. unfold slot_at. rewrite Hd. cbn [mbind option_bind].
  destruct (load_is_Some w ((Z.to_nat (view_offset v) + i) * w) data) as [z ->]; [|done].
  assert ((Z.to_nat (view_offset v) + i) * w + w = (Z.to_nat (view_offset v) + S i) * w)%nat as -> by lia.
  transitivity ((Z.to_nat (view_offset v) + k) * w)%nat; [|done]. apply Nat.mul_le_mono_r. lia.
Qed.

Lemma span_of_slots v w k data n : holds_rows v n -> buffer v 1 = Some data ->
  ((Z.to_nat (view_offset v) + k) * w <= length data)%nat ->
  exists l, span_of w k v = Some l /\ length l = k /\ forall i, (i < k)%nat -> l !! i = slot_at w i v.
Proof.
  intros Hr Hd Hl. unfold span_of. rewrite (first_slot_ok v n Hr), Hd. cbn [mbind option_bind].
  destruct (mapM_seq (fun i => load w ((Z.to_nat (view_offset v) + i) * w) data) k) as (l & Hm & Hlen & Hi).
  { intros i Hi. pose proof (slot_at_enough v w k data Hd Hl i Hi) as Hs. unfold slot_at in Hs. by rewrite Hd in Hs. }
  exists l. split; [done|]. split; [done|]. intros i Hik. rewrite (Hi i Hik). unfold slot_at. by rewrite Hd.
Qed.

(** The validity bits of the column are those of the array. *)
Lemma validity_view_ok v n : holds_rows v n -> exists s, validity_view v n = Some s
  /\ (bit_length s = 0%nat \/ bit_length s = n) /\ (bit_offset s + bit_length s <= 8 * length (bs_bytes s))%nat
  /\ forall i, (i < n)%nat ->
       (if decide (bit_length s = 0)%nat then Some true else BitSpan_test s i) = Some (arrow_valid v i).
Proof.
  intros Hr. unfold validity_view. destruct (buffer v 0) as [bits|] eqn:Hb; cbn [mbind option_bind].
  - destruct (Z.ltb_spec 0 (view_null_count v)) as [Hn|Hn].
    + rewrite (first_slot_ok v n Hr). cbn [mbind option_bind]. pose proof (hr_validity _ _ Hr bits Hb) as Hl.
      set (o := Z.to_nat (view_offset v)) in *. set (k := ((o + n + 7) / 8)%nat).
      assert (Hk : (k <= length bits /\ o + n <= 8 * k)%nat).
      { pose proof (Nat.div_mod_eq (o + n + 7) 8). pose proof (Nat.mod_upper_bound (o + n + 7) 8). fold k in H1. lia. }
      rewrite decide_True by lia. eexists. split; [done|]. cbn [bit_length bit_offset bs_bytes]. rewrite length_take.
      split; [by right|]. split; [lia|]. intros i Hi. rewrite decide_False by lia.
      rewrite BitVectorFacts.BitSpan_test_bit; cbn [bit_length bit_offset bs_bytes]; rewrite ?length_take; [|lia..].
      f_equal. unfold arrow_valid. rewrite Hb. unfold bit_at. fold o.
      rewrite lookup_take_lt; [done|]. apply Nat.Div0.div_lt_upper_bound. lia.
    + eexists. split; [done|]. cbn. split; [by left|]. split; [lia|]. intros i Hi. by rewrite (hr_nulls _ _ Hr Hn i Hi).
  - eexists. split; [done|]. cbn. split; [by left|]. split; [lia|]. intros i Hi. unfold arrow_valid. by rewrite Hb.
Qed.

(** The loop over a getter reads the slots. *)
Lemma get_all_slots (get : ArrowArrayView -> nat -> option Z) v n :
  (forall i, (i < n)%nat -> is_Some (arrow_int v i)) ->
  (forall i z, arrow_int v i = Some z -> get v i = Some z) ->
  exists l, get_all get v n = Some l /\ length l = n /\ forall i, (i < n)%nat -> l !! i = arrow_int v i.
Proof.
  intros Hs Hget. destruct (mapM_seq (get v) n) as (l & Hl & Hlen & Hi).
  { intros i Hi. destruct (Hs i Hi) as [z Hz]. exists z. by apply Hget. }
  exists l. split; [done|]. split; [done|]. intros i Hin. rewrite (Hi i Hin).
  destruct (Hs i Hin) as [z Hz]. rewrite Hz. by apply Hget.
Qed.

(** A payload of [n] rows with the values of an array. *)
Definition shows_values (p : ColumnPayload) v n : Prop :=
  Writer.payload_rows p = n /\ forall i x, (i < n)%nat -> arrow_value v i = Some x -> payload_value p i = Some x.

Lemma numeric_shows (mk : list Z -> Builder.BulkData) (c : Z -> Z) (val : Z -> Value) l v n f :
  (forall l, Writer.payload_rows (PNumeric (mk l)) = length l) ->
  (forall l i, payload_value (PNumeric (mk l)) i = val <$> l !! i) ->
  length l = n -> (forall i, (i < n)%nat -> l !! i = f i) ->
  (forall i, arrow_value v i = (fun z => val (c z)) <$> f i) ->
  shows_values (PNumeric (mk (map c l))) v n.
Proof.
  intros Hrows Hval Hlen Hl Hv. split; [by rewrite Hrows, length_map|]. intros i x Hi Hx.
  rewrite Hval, list_lookup_fmap, (Hl i Hi), <- Hx, Hv. by destruct (f i).
Qed.


Lemma arrow_int_some v n i : holds_rows v n -> (i < n)%nat ->
  storage_type v ∈ [NANOARROW_TYPE_INT8; NANOARROW_TYPE_INT16; NANOARROW_TYPE_UINT8; NANOARROW_TYPE_UINT16;
                    NANOARROW_TYPE_UINT32; NANOARROW_TYPE_BOOL] -> is_Some (arrow_int v i).
Proof.
  intros Hr Hi Ht. destruct (hr_data _ _ Hr) as (data & Hd & Hl). unfold arrow_int.
  assert (Hs : forall w, ((Z.to_nat (view_offset v) + n) * w <= length data)%nat -> is_Some (slot_at w i v)).
  { intros w Hw. by apply (slot_at_enough v w n data). }
  destruct (storage_type v); try set_solver; cbn [slot_width] in Hl; try apply fmap_is_Some; try by apply Hs.
  unfold arrow_bit. rewrite Hd. cbn [mbind option_bind]. by rewrite decide_True by lia.
Qed.

(** The texts: offsets of 32 bits, which the writer takes as unsigned. *)
Lemma texts_show v n data : holds_rows v n -> storage_type v = NANOARROW_TYPE_STRING -> buffer v 1 = Some data ->
  ((Z.to_nat (view_offset v) + n + 1) * 4 <= length data)%nat ->
  exists l, span_of 4 (n + 1) v = Some l
    /\ shows_values (PStrings (map (fun o => u32 (i32 o)) l) (default [] (buffer v 2))) v n.
Proof.
  intros Hr E Hd Hl. destruct (span_of_slots v 4 (n + 1) data n Hr Hd ltac:(lia)) as (l & -> & Hlen & Hi).
  exists l. split; [done|]. split.
  { cbn [Writer.payload_rows]. rewrite decide_False.
    - rewrite length_map, Hlen. lia.
    - intros Hnil%map_eq_nil. subst. cbn in Hlen. lia. }
  intros i x Hin Hx. unfold arrow_value in Hx. rewrite E in Hx. apply fmap_Some in Hx as (text & Hx & ->).
  unfold arrow_text in Hx. change (8 * Z.of_nat 4) with 32 in Hx.
  apply bind_Some in Hx as (a & (a' & Ha & ->)%fmap_Some & Hx). apply bind_Some in Hx as (b & (b' & Hb & ->)%fmap_Some & Hx).
  case_decide as Hab; [|done]. cbn [payload_value]. rewrite !list_lookup_fmap, !Hi, Ha, Hb by lia. cbn [fmap option_fmap mbind option_bind option_map].
  rewrite !(wrapU_small 32 (i32 _)); [by rewrite Hx|..].
  all: match goal with |- in_u 32 (i32 ?z) => pose proof (wrapS_range 32 z ltac:(lia)) end; unfold in_u, in_s in *; lia.
Qed.

Lemma span_shows mk c val w v n data : holds_rows v n -> buffer v 1 = Some data ->
  ((Z.to_nat (view_offset v) + n) * w <= length data)%nat ->
  (forall l : list Z, Writer.payload_rows (PNumeric (mk l)) = length l) ->
  (forall (l : list Z) i, payload_value (PNumeric (mk l)) i = val <$> l !! i) ->
  (forall i, arrow_value v i = (fun z => val (c z)) <$> slot_at w i v) ->
  exists l, span_of w n v = Some l /\ shows_values (PNumeric (mk (map c l))) v n.
Proof.
  intros Hr Hd Hl Hrows Hval Hv. destruct (span_of_slots v w n data n Hr Hd Hl) as (l & -> & Hlen & Hi).
  exists l. split; [done|]. by apply (numeric_shows mk c val l v n (fun i => slot_at w i v)).
Qed.

Lemma getter_shows get mk c val v n : holds_rows v n ->
  storage_type v ∈ [NANOARROW_TYPE_INT8; NANOARROW_TYPE_INT16; NANOARROW_TYPE_UINT8; NANOARROW_TYPE_UINT16;
                    NANOARROW_TYPE_UINT32; NANOARROW_TYPE_BOOL] ->
  (forall i z, arrow_int v i = Some z -> get v i = Some z) ->
  (forall l : list Z, Writer.payload_rows (PNumeric (mk l)) = length l) ->
  (forall (l : list Z) i, payload_value (PNumeric (mk l)) i = val <$> l !! i) ->
  (forall i, arrow_value v i = (fun z => val (c z)) <$> arrow_int v i) ->
  exists l, get_all get v n = Some l /\ shows_values (PNumeric (mk (map c l))) v n.
Proof.
  intros Hr Ht Hget Hrows Hval Hv.
  destruct (get_all_slots get v n (fun i Hi => arrow_int_some v n i Hr Hi Ht) Hget) as (l & -> & Hlen & Hi).
  exists l. split; [done|]. by apply (numeric_shows mk c val l v n (arrow_int v)).
Qed.

(** The value of a slot of a known type [E]. *)
Ltac slot_value E := intros i; unfold arrow_value, arrow_int; rewrite E;
  try (destruct (slot_at _ i _); reflexivity); destruct (arrow_bit _ i) as [[]|]; reflexivity.
Ltac shown_by lem E := first
  [ destruct lem as (l & -> & Hs); [first [done|rewrite E; set_solver|slot_value E|
      intros ? ? ?; first [apply GetInt_slot|apply GetUInt_slot]; [done|rewrite E; set_solver]]..|];
    rewrite ?map_id in Hs; eexists; split; [reflexivity|exact Hs] ].

Lemma column_payload_shows v n type : holds_rows v n ->
  nanoarrow_type_to_primitive (storage_type v) = Some type -> storage_type v <> NANOARROW_TYPE_LARGE_STRING ->
  exists p, column_payload v type n = Some p /\ shows_values p v n.
Proof.
  intros Hr Ht Hlarge. destruct (hr_data _ _ Hr) as (data & Hd & Hl).
  destruct (storage_type v) eqn:E; try done; injection Ht as <-; cbn [slot_width] in Hl; unfold column_payload; cbn [storageKindOf].
  - shown_by (getter_shows ArrowArrayViewGetIntUnsafe Builder.BBool (fun z => if z =? 0 then 0 else 1) (fun z => VBool (negb (z =? 0))) v n Hr) E.
  - shown_by (getter_shows ArrowArrayViewGetUIntUnsafe Builder.BUint64 (fun z => z) VUint64 v n Hr) E.
  - shown_by (getter_shows ArrowArrayViewGetIntUnsafe Builder.BInt64 (fun z => z) VInt64 v n Hr) E.
  - shown_by (getter_shows ArrowArrayViewGetUIntUnsafe Builder.BUint64 (fun z => z) VUint64 v n Hr) E.
  - shown_by (getter_shows ArrowArrayViewGetIntUnsafe Builder.BInt64 (fun z => z) VInt64 v n Hr) E.
  - shown_by (getter_shows ArrowArrayViewGetUIntUnsafe Builder.BUint64 (fun z => z) VUint64 v n Hr) E.
  - shown_by (span_shows Builder.BInt32 i32 VInt32 4 v n data Hr Hd Hl) E.
  - shown_by (span_shows Builder.BUint64 (fun z => z) VUint64 8 v n data Hr Hd Hl) E.
  - shown_by (span_shows Builder.BInt64 i64 VInt64 8 v n data Hr Hd Hl) E.
  - shown_by (span_shows Builder.BFloat32 (fun z => z) VFloat32 4 v n data Hr Hd Hl) E.
  - shown_by (span_shows Builder.BFloat64 (fun z => z) VFloat64 8 v n data Hr Hd Hl) E.
  - destruct (texts_show v n data Hr E Hd Hl) as (l & -> & Hs). eexists. split; [reflexivity|exact Hs].
Qed.

(** A column of [n] rows with the cells of an array, which the writer accepts. *)
Record shows (c : ColumnData) (m : ArrowColumnMapping) v n : Prop := {
  sh_column : col_index c = pj_column_index m;
  sh_rows : Writer.rowCount c = n;
  sh_validity : bit_length (validity c) = 0%nat \/ bit_length (validity c) = n;
  sh_room : (bit_offset (validity c) + bit_length (validity c) <= 8 * length (bs_bytes (validity c)))%nat;
  sh_cells : forall i x, (i < n)%nat -> arrow_cell v i = Some x -> column_cell c i = Some x
}.

Lemma make_column_shows v m n : holds_rows v n ->
  nanoarrow_type_to_primitive (storage_type v) = Some (pj_type m) -> storage_type v <> NANOARROW_TYPE_LARGE_STRING ->
  exists c, make_column_data_nanoarrow v m n = Some c /\ shows c m v n.
Proof.
  intros Hr Ht Hlarge. destruct (validity_view_ok v n Hr) as (s & Hs & Hlen & Hroom & Hbits).
  destruct (column_payload_shows v n (pj_type m) Hr Ht Hlarge) as (p & Hp & Hrows & Hvals).
  unfold make_column_data_nanoarrow. rewrite Hs, Hp. eexists. split; [done|]. split; try done.
  intros i x Hi Hx. unfold column_cell. cbn [validity payload]. rewrite (Hbits i Hi). cbn [mbind option_bind].
  unfold arrow_cell in Hx. destruct (arrow_valid v i); [|done].
  apply fmap_Some in Hx as (y & Hy & ->). by rewrite (Hvals i y Hi Hy).
Qed.

(** *** The time stamps of a batch *)

(** The instant of slot [i]; an unsigned one wraps around. *)
Definition arrow_timestamp v (i : nat) : option Z := i64 <$> arrow_int v i.

Lemma extract_timestamps_ok v n : holds_rows v n ->
  storage_type v ∈ [NANOARROW_TYPE_INT64; NANOARROW_TYPE_UINT64; NANOARROW_TYPE_INT32] ->
  exists ts, extract_timestamps_nanoarrow v n = Some ts /\ length ts = n
    /\ forall i, (i < n)%nat -> ts !! i = arrow_timestamp v i.
Proof.
  intros Hr Ht. destruct (hr_data _ _ Hr) as (data & Hd & Hl). unfold extract_timestamps_nanoarrow, arrow_timestamp, arrow_int.
  destruct (storage_type v) eqn:E; try set_solver; cbn [slot_width] in Hl;
    destruct (span_of_slots v _ n data n Hr Hd Hl) as (l & -> & Hlen & Hi);
    (eexists; split; [reflexivity|]; split; [by rewrite length_map|]; intros i Hin; rewrite list_lookup_fmap, (Hi i Hin));
    destruct (slot_at _ i v) as [z|]; try done; cbn [fmap option_fmap option_map]; f_equal; symmetry.
  - pose proof (wrapS_range 32 z). apply wrapS_small; [lia|]. unfold in_s in *. lia.
  - pose proof (wrapS_range 64 z). apply wrapS_small; [lia|]. unfold in_s in *. lia.
Qed.

End Cells.

(** ** A stream is appended batch by batch *)

Section Batches.
Context `{NanoarrowLaws}.
Implicit Types (batch : ArrowArray) (view : ArrowArrayView) (m : ArrowColumnMapping).

Definition rows_of batch : nat := Z.to_nat (array_length batch).

(** A batch is an array of structs.  Row [i] is the slot [offset + i] of every
    child, and the struct of the row may itself be null. *)
Definition row_slot batch (i : nat) : nat := (Z.to_nat (array_offset batch) + i)%nat.

Definition row_valid batch (i : nat) : bool :=
  match mjoin (buffers batch !! 0%nat) with Some bits => bit_at bits (row_slot batch i) | None => true end.

(** The cell of row [i] in a child; the children of a null struct are null. *)
Definition row_cell batch (child : ArrowArrayView) (i : nat) : option (option Value) :=
  if row_valid batch i then arrow_cell child (row_slot batch i) else Some None.

(** A batch that starts at the first slot of its children, without a null struct. *)
Definition whole batch : Prop :=
  array_offset batch = 0 /\ forall i, (i < rows_of batch)%nat -> row_valid batch i = true.

Lemma whole_slot batch i : whole batch -> row_slot batch i = i.
Proof. intros [Ho _]. unfold row_slot. by rewrite Ho. Qed.

Lemma whole_cell batch child i : whole batch -> (i < rows_of batch)%nat -> row_cell batch child i = arrow_cell child i.
Proof. intros Hw Hi. unfold row_cell. rewrite (proj2 Hw i Hi). by rewrite whole_slot. Qed.

(** The child a mapping names, with a type that has a column. *)
Definition mapped view n m (child : ArrowArrayView) : Prop :=
  0 <= arrow_column_index m /\ view_children view !! Z.to_nat (arrow_column_index m) = Some child
  /\ holds_rows child n /\ nanoarrow_type_to_primitive (storage_type child) = Some (pj_type m)
  /\ storage_type child <> NANOARROW_TYPE_LARGE_STRING.

Definition clock view n (timestamp_column : Z) : Prop :=
  0 <= timestamp_column -> exists child, view_children view !! Z.to_nat timestamp_column = Some child /\ holds_rows child n
    /\ storage_type child ∈ [NANOARROW_TYPE_INT64; NANOARROW_TYPE_UINT64; NANOARROW_TYPE_INT32].

(** A batch that fits its schema and the mappings; one that is a slice of its
    children, or has null structs, is not read as the format has it. *)
Definition readable (schema : ArrowSchema) (mappings : list ArrowColumnMapping) (timestamp_column : Z) batch : Prop :=
  0 <= array_length batch /\
  (array_length batch <> 0 -> whole batch /\ exists view, ArrowArrayViewSetArray schema batch = Some view
    /\ clock view (rows_of batch) timestamp_column
    /\ Forall (fun m => exists child, mapped view (rows_of batch) m child) mappings).

Definition Table : Type := list Z * list ColumnData.

(** The instant of row [i]. *)
Definition row_time batch view (timestamp_column : Z) (i : nat) : option Z :=
  if 0 <=? timestamp_column
  then child ← view_children view !! Z.to_nat timestamp_column; arrow_timestamp child (row_slot batch i)
  else Some (Z.of_nat i).

(** A column for the writer with the cells of the rows of a batch. *)
Definition holds_cells batch (c : ColumnData) m (child : ArrowArrayView) : Prop :=
  col_index c = pj_column_index m /\ Writer.rowCount c = rows_of batch
  /\ forall i x, (i < rows_of batch)%nat -> row_cell batch child i = Some x -> column_cell c i = Some x.

Lemma shows_holds batch c m child : whole batch -> shows c m child (rows_of batch) -> holds_cells batch c m child.
Proof.
  intros Hw [Hc Hr _ _ Hcells]. split; [done|]. split; [done|]. intros i x Hi. rewrite whole_cell by done. by apply Hcells.
Qed.

(** The rows of a batch, with the cells of its arrays. *)
Definition table_of (schema : ArrowSchema) (mappings : list ArrowColumnMapping) (timestamp_column : Z)
    batch (t : Table) : Prop :=
  exists view, ArrowArrayViewSetArray schema batch = Some view
    /\ length t.1 = rows_of batch
    /\ (forall i, (i < rows_of batch)%nat -> t.1 !! i = row_time batch view timestamp_column i)
    /\ Forall2 (fun m c => exists child, view_children view !! Z.to_nat (arrow_column_index m) = Some child
                 /\ holds_cells batch c m child) mappings t.2.

Lemma batch_columns_ok view mappings n : Forall (fun m => exists child, mapped view n m child) mappings ->
  exists cols, batch_columns view mappings n = Some (Ok cols)
    /\ Forall2 (fun m c => exists child, view_children view !! Z.to_nat (arrow_column_index m) = Some child
                 /\ shows c m child n) mappings cols.
Proof.
  induction 1 as [|m rest (child & Hi & Hc & Hr & Ht & Hl) Hrest IH]; [by exists []|].
  destruct IH as (cols & IH & Hcols). destruct (make_column_shows child m n Hr Ht Hl) as (c & Hmk & Hs).
  exists (c :: cols). split; [|constructor; [by exists child|done]].
  cbn [batch_columns]. pose proof (lookup_lt_Some _ _ _ Hc).
  rewrite (proj2 (Z.leb_gt _ _)) by lia. rewrite (proj2 (Z.ltb_ge _ _)) by lia.
  rewrite Hc. cbn [mbind option_bind]. rewrite Hmk. cbn [mbind option_bind]. rewrite IH. done.
Qed.

Lemma batch_timestamps_ok batch view timestamp_column (n := rows_of batch) : whole batch -> clock view n timestamp_column ->
  exists ts, batch_timestamps view timestamp_column n = Some (Ok ts) /\ length ts = n
    /\ forall i, (i < n)%nat -> ts !! i = row_time batch view timestamp_column i.
Proof.
  intros Hw Hc. unfold batch_timestamps, row_time. destruct (Z.leb_spec 0 timestamp_column) as [Hpos|Hneg].
  - destruct (Hc Hpos) as (child & -> & Hr & Ht). destruct (extract_timestamps_ok child n Hr Ht) as (ts & -> & Hlen & Hi).
    exists ts. split; [done|]. split; [done|]. intros i Hlt. rewrite whole_slot by done. by apply Hi.
  - eexists. split; [done|]. unfold generate_sequential_timestamps. split; [by rewrite length_map, length_seq|].
    intros i Hi. rewrite list_lookup_fmap, lookup_seq_lt by done. done.
Qed.

Lemma ingest_batch_ok w topic schema mappings timestamp_column batch :
  readable schema mappings timestamp_column batch -> array_length batch <> 0 ->
  exists t, table_of schema mappings timestamp_column batch t
    /\ ingest_batch w topic schema mappings timestamp_column batch = Writer.appendColumns w topic t.1 t.2.
Proof.
  intros [Hlen Hb] Hn. destruct (Hb Hn) as (Hw & view & Hv & Hclock & Hcols).
  destruct (batch_timestamps_ok batch view timestamp_column Hw Hclock) as (ts & Hts & Hl & Hi).
  destruct (batch_columns_ok view mappings (rows_of batch) Hcols) as (cols & Hcs & Hshow).
  exists (ts, cols). split.
  { exists view. split_and!; [done..|]. eapply Forall2_impl; [exact Hshow|]. intros m c (child & Hc & Hs). exists child.
    split; [done|]. by apply shows_holds. }
  unfold ingest_batch. rewrite (proj2 (Z.eqb_neq _ _)) by done. cbv zeta. fold (rows_of batch).
  rewrite Hv, Hts. cbn [mbind option_bind]. rewrite option_guard_True by done. by rewrite Hcs.
Qed.

(** The tables, one after the other, up to the first that the writer refuses. *)
Fixpoint append_tables (w : DataWriter) (topic : Z) (tables : list Table) : option (DataWriter * Status) :=
  match tables with
  | [] => Some (w, okStatus)
  | t :: rest =>
      '(w, status) ← Writer.appendColumns w topic t.1 t.2;
      match status with Err e => Some (w, Err e) | Ok _ => append_tables w topic rest end
  end.

(** The answers of [get_next]: batches, and then the end or an error code. *)
Inductive delivers {S} (next : S -> S * (Z * option ArrowArray)) : S -> list ArrowArray -> S -> Z -> Prop :=
| delivers_end d d' : next d = (d', (0, None)) -> delivers next d [] d' 0
| delivers_error d d' rc b : next d = (d', (rc, b)) -> rc <> 0 -> delivers next d [] d' rc
| delivers_batch d d1 b batches d' rc : next d = (d1, (0, Some b)) -> delivers next d1 batches d' rc ->
    delivers next d (b :: batches) d' rc.

(** What the import answers if every table was taken. *)
Definition end_status {S} (st : ArrowArrayStream S) (rc : Z) : Status :=
  if rc =? 0 then okStatus else Err ("Failed to read next batch: " +:+ last_error st "unknown").

Definition filled (batches : list ArrowArray) : list ArrowArray := filter (fun b => array_length b <> 0) batches.

(** A loop over the batches is the tables one after the other. *)
Definition appended {S} (r : option (DataWriter * ArrowArrayStream S * Status)) (st : ArrowArrayStream S) (d' : S) (rc : Z)
    (tables : option (DataWriter * Status)) : Prop :=
  match tables with
  | None => r = None
  | Some (w, Err e) => exists d, r = Some (w, with_private_data st d, Err e)
  | Some (w, Ok _) => let st := with_private_data st d' in r = Some (w, st, end_status st rc)
  end.

Lemma ingest_loop_ok {S} next schema mappings timestamp_column topic d batches d' rc : delivers (S := S) next d batches d' rc ->
  Forall (readable schema mappings timestamp_column) batches ->
  forall w st, get_next st = Some next -> private_data st = d ->
  exists tables, Forall2 (table_of schema mappings timestamp_column) (filled batches) tables
    /\ forall fuel, (length batches < fuel)%nat ->
         appended (ingest_loop fuel w topic st schema mappings timestamp_column) st d' rc (append_tables w topic tables).
Proof.
  induction 1 as [d d' Hn|d d' rc b Hn Hrc|d d1 b batches d' rc Hn Hd IH]; intros Hr w st Hnext Hpd.
  - exists []. split; [done|]. intros [|fuel] Hf; [lia|]. cbn [ingest_loop append_tables]. rewrite Hnext. cbn [mbind option_bind].
    rewrite Hpd, Hn. done.
  - exists []. split; [done|]. intros [|fuel] Hf; [lia|]. cbn [ingest_loop append_tables]. rewrite Hnext. cbn [mbind option_bind].
    rewrite Hpd, Hn. unfold appended, end_status. by rewrite (proj2 (Z.eqb_neq _ _)).
  - apply Forall_cons in Hr as [Hb Hr].
    assert (Hstep : forall fuel, ingest_loop (Datatypes.S fuel) w topic st schema mappings timestamp_column
      = '(w, status) ← ingest_batch w topic schema mappings timestamp_column b;
        match status with
        | Err e => Some (w, with_private_data st d1, Err e)
        | Ok _ => ingest_loop fuel w topic (with_private_data st d1) schema mappings timestamp_column
        end).
    { intros fuel. cbn [ingest_loop]. rewrite Hnext. cbn [mbind option_bind]. by rewrite Hpd, Hn. }
    unfold filled. destruct (decide (array_length b = 0)) as [Hz|Hz].
    + rewrite filter_cons_False by (by intros ?). destruct (IH Hr w (with_private_data st d1)) as (tables & Ht & Hi); [done..|].
      exists tables. split; [done|]. intros [|fuel] Hf; [cbn in Hf; lia|]. rewrite Hstep. unfold ingest_batch. rewrite Hz. cbn [Z.eqb mbind option_bind].
      by apply (Hi fuel); cbn in Hf; lia.
    + rewrite filter_cons_True by done. destruct (ingest_batch_ok w topic schema mappings timestamp_column b Hb Hz) as (t & Ht & Hib).
      destruct (Writer.appendColumns w topic t.1 t.2) as [[w' s]|] eqn:Ha.
      * destruct (IH Hr w' (with_private_data st d1)) as (tables & Hts & Hi); [done..|].
        exists (t :: tables). split; [by constructor|]. intros [|fuel] Hf; [cbn in Hf; lia|]. rewrite Hstep, Hib. cbn [append_tables].
        rewrite Ha. cbn [mbind option_bind]. destruct s as [[]|e]; [apply (Hi fuel); cbn in Hf; lia|by exists d1].
      * destruct (IH Hr w (with_private_data st d1)) as (tables & Hts & Hi); [done..|].
        exists (t :: tables). split; [by constructor|]. intros [|fuel] Hf; [cbn in Hf; lia|]. rewrite Hstep, Hib. cbn [append_tables].
        by rewrite Ha.
Qed.

(** A stream that answers its schema, and then the batches and the code. *)
Record serves {S} (st : ArrowArrayStream S) (schema : ArrowSchema) (d1 : S) (batches : list ArrowArray) (d' : S) (rc : Z) : Prop := {
  sv_schema : exists get, get_schema st = Some get /\ get (private_data st) = (d1, (0, schema));
  sv_batches : exists next, get_next st = Some next /\ delivers next d1 batches d' rc;
  sv_layout : ArrowArrayViewInitFromSchema schema = true
}.

(** The import answers what the writer answers to the tables, one after the other. *)
Lemma import_ok {S} w topic (st : ArrowArrayStream S) schema d1 batches d' rc mappings timestamp_column :
  serves st schema d1 batches d' rc -> Forall (readable schema mappings timestamp_column) batches ->
  exists tables, Forall2 (table_of schema mappings timestamp_column) (filled batches) tables
    /\ forall fuel, (length batches < fuel)%nat ->
         let imported := importArrowStream fuel w topic (Some st) mappings timestamp_column in
         match append_tables w topic tables with
         | None => imported = None
         | Some (w', Err e) => exists d, imported = Some (w', Some (with_private_data st d), Err e)
         | Some (w', Ok _) => imported = Some (w', Some (with_private_data st d'), end_status (with_private_data st d') rc)
         end.
Proof.
  intros [(get & Hget & Hd1) (next & Hnext & Hd) Hinit] Hr.
  destruct (ingest_loop_ok next schema mappings timestamp_column topic d1 batches d' rc Hd Hr w (with_private_data st d1))
    as (tables & Ht & Hloop); [done..|].
  exists tables. split; [done|]. intros fuel Hf. specialize (Hloop fuel Hf). cbv zeta. unfold importArrowStream.
  rewrite Hget, Hnext, Hd1. cbn [Z.eqb mbind option_bind]. unfold ingestBatchesFromStream. rewrite Hinit. cbn [negb] in *.
  unfold appended in Hloop. destruct (append_tables w topic tables) as [[w' [[]|e]]|]; [|destruct Hloop as [d Hloop]|].
  - rewrite Hloop. done.
  - exists d. rewrite Hloop. done.
  - by rewrite Hloop.
Qed.

(** The mappings of a schema are numbered, and of types that have columns. *)
Lemma mappings_from_types children : forall i n,
  Forall (fun m => pj_type m <> kUnspecified) (map snd (mappings_from i n children)).
Proof.
  induction children as [|child children IH]; intros i n; [constructor|]. cbn [mappings_from].
  destruct (type ← ArrowSchemaViewInit child; nanoarrow_type_to_primitive type) as [type|] eqn:E; [|apply IH].
  constructor; [|apply IH]. cbn. apply bind_Some in E as (t & _ & Ht). destruct t; try done; injection Ht as <-; done.
Qed.

Lemma mappings_types schema tree found : mappingsFromSchema schema = Ok (tree, found) ->
  Forall (fun m => pj_type m <> kUnspecified) found.
Proof.
  unfold mappingsFromSchema. pose proof (mappings_from_types (schema_children schema) 0 0) as Hall. cbv zeta.
  destruct (map snd _); [done|]. by intros [= _ <-].
Qed.

Lemma mappings_indices schema tree found : mappingsFromSchema schema = Ok (tree, found) ->
  Z.of_nat (length (schema_children schema)) <= 2 ^ 31 -> Forall (fun m => 0 <= arrow_column_index m) found.
Proof.
  unfold mappingsFromSchema. cbv zeta. intros Hm Hlen.
  enough (Hall : forall children i n, 0 <= i -> i + Z.of_nat (length children) <= 2 ^ 31 ->
    Forall (fun m => 0 <= arrow_column_index m) (map snd (mappings_from i n children))).
  { specialize (Hall (schema_children schema) 0 0%nat). destruct (map snd _); [done|]. injection Hm as _ <-. by apply Hall. }
  clear. intros children. induction children as [|child children IH]; intros i n Hi Hlen; [constructor|]. cbn [mappings_from length] in *.
  destruct (type ← ArrowSchemaViewInit child; nanoarrow_type_to_primitive type); [|apply IH; lia].
  constructor; [|apply IH; lia]. cbn. rewrite wrapS_small; [done|lia|unfold in_s; lia].
Qed.

(** The columns of the schema are the leaves of the tree, in their order. *)
Lemma mappings_from_columns children : forall i n,
  Forall2 (fun node m => node = makePrimitive (field_name m) (pj_type m))
    (map fst (mappings_from i n children)) (map snd (mappings_from i n children))
  /\ imap (fun k _ => (n + k)%nat) (mappings_from i n children) = map (fun p => pj_column_index p.2) (mappings_from i n children).
Proof.
  induction children as [|child children IH]; intros i n; [done|]. cbn [mappings_from].
  destruct (type ← ArrowSchemaViewInit child; nanoarrow_type_to_primitive type) as [type|] eqn:E; [|apply IH].
  destruct (IH (i + 1) (S n)) as [H1 H2]. split; [by constructor|]. cbn. f_equal; [lia|]. rewrite <- H2.
  apply imap_ext. intros k x _. cbn. lia.
Qed.

End Batches.
