(* ===== verification/ArrowHost.v ===== *)
(** * ArrowHost: Arrow streams from a plugin to the host

    Models [appendArrowStream] of [src/pj_datastore/src/plugin_data_host.cpp],
    its callbacks, the views of [src/pj_base/include/pj_base/sdk/plugin_data_api.hpp]
    that call them, and the holder of [src/pj_base/include/pj_base/sdk/arrow.hpp].
    The theorems: the columns a stream is written to, and who releases it.  A
    stream that was released has no [release] any more, as the Arrow format has
    it; a struct of null pointers is [None]. *)

From S2P Require Import Prelude Types TypeTree TypeRegistry Float64 Buffer Encoding Column Chunk Query TopicStorage Engine Writer Ingest Layout WriterState Records Host HostState Sdk SdkRecords ArrowImport.

(** ** The host *)

Section Host.
Context `{Nanoarrow} {S : Type}.
Implicit Types (c : WriteCore) (stream : option (ArrowArrayStream S)).

(** The loop over the mappings of the schema: the time stamp column and the
    mappings with the columns of the topic, or [None] after an error. *)
Fixpoint ensure_mappings c (topic : Z) (timestamp_name : string) (found : list ArrowColumnMapping)
    (ts_arrow_col : Z) (mappings : list ArrowColumnMapping)
  : option (WriteCore * option (Z * list ArrowColumnMapping)) :=
  match found with
  | [] => Some (c, Some (ts_arrow_col, mappings))
  | m :: rest =>
      if negb (bool_decide (timestamp_name = "")) && bool_decide (field_name m = timestamp_name)
      then ensure_mappings c topic timestamp_name rest (arrow_column_index m) mappings
      else
        '(c, field) ← Host.ensureField c topic (field_name m) (toAbiType (pj_type m));
        match field with
        | None => Some (c, None)
        | Some field =>
            let adjusted := mkMapping (arrow_column_index m) (Z.to_nat (fh_id field)) (pj_type m) (field_name m) in
            ensure_mappings c topic timestamp_name rest ts_arrow_col (mappings ++ [adjusted])
        end
  end.

Definition appendArrowStream fuel c (topic : Z) stream (timestamp_column : PJ_string_view_t)
  : option (WriteCore * option (ArrowArrayStream S) * option unit) :=
  let fail c stream message := Some (Host.setError c message, stream, None) in
  match stream with
  | None => fail c stream "append_arrow_stream: null stream"%string
  | Some _ =>
      match Engine.getTopicStorage (Host.engine_ c) topic with
      | None => fail c stream (Host.topic_not_found topic)
      | Some _ =>
          let '(stream, schema_or) := schemaFromArrowStream stream in
          match schema_or with
          | Err e => fail c stream e
          | Ok (_, found) =>
              timestamp_name ← toStringView timestamp_column;
              '(c, ensured) ← ensure_mappings c topic timestamp_name found (-1) [];
              match ensured with
              | None => Some (c, stream, None)
              | Some (ts_arrow_col, mappings) =>
                  if negb (bool_decide (timestamp_name = "")) && (ts_arrow_col <? 0)
                  then fail c stream ("timestamp column '" +:+ timestamp_name +:+ "' not found in stream schema")%string
                  else
                    '(w, stream, status) ← importArrowStream fuel (writer_ c) topic stream mappings ts_arrow_col;
                    let c := Host.with_writer c w in
                    match status with
                    | Err e => fail c stream e
                    | Ok _ => Some (Host.setError c "", stream, Some tt)
                    end
              end
          end
      end
  end.

(** [stream->release(stream)] *)
Definition call_release (st : ArrowArrayStream S) : ArrowArrayStream S :=
  match release st with
  | Some f => mkStream (get_schema st) (get_next st) (get_last_error st) None (f (private_data st))
  | None => st
  end.

(** What the three callbacks share: the stream is released on success only. *)
Definition stream_callback (result : WriteCore * option (ArrowArrayStream S) * option unit)
  : WriteCore * option (ArrowArrayStream S) * option unit * option PJ_error_t :=
  let '(c, stream, r) := result in
  match r with
  | None => (c, stream, None, Some (Host.propagateError (Host.lastError c)))
  | Some _ => (c, call_release <$> stream, Some tt, None)
  end.

Definition sourceAppendArrowStream fuel (h : Host.SourceWriteHost) (topic : Z) stream (timestamp_column : PJ_string_view_t) :=
  stream_callback <$> appendArrowStream fuel (Host.sh_core h) topic stream timestamp_column.
Definition parserAppendArrowStream fuel (h : Host.ParserWriteHost) stream (timestamp_column : PJ_string_view_t) :=
  stream_callback <$> appendArrowStream fuel (Host.ph_core h) (Host.ph_topic h) stream timestamp_column.
Definition toolboxAppendArrowStream fuel c (topic : Z) stream (timestamp_column : PJ_string_view_t) :=
  stream_callback <$> appendArrowStream fuel c topic stream timestamp_column.

End Host.

(** ** The plugin *)

(** The struct in the holder. *)
Record ArrowHolder (S : Type) := mkHolder { raw_ : ArrowArrayStream S }.
Arguments mkHolder {S}. Arguments raw_ {S}.

Module ArrowHolder.
Section Holder.
Context {S : Type} (nullptr : S).
Implicit Types (h : ArrowHolder S).

(** [raw_{}]: a struct of null pointers. *)
Definition empty : ArrowHolder S := mkHolder (mkStream None None None None nullptr).

Definition valid h : bool := bool_decide (is_Some (release (raw_ h))).

(** [release] is cleared whatever the callback did. *)
Definition reset h : ArrowHolder S := mkHolder (call_release (raw_ h)).

(** The destructor is [reset].  A move leaves the source empty: the target and the source. *)
Definition move_from h : ArrowHolder S * ArrowHolder S := (mkHolder (raw_ h), empty).
(** For [this != &other]: the struct of the target that is released, the target and the source. *)
Definition assign_from h other : ArrowArrayStream S * ArrowHolder S * ArrowHolder S :=
  (raw_ (reset h), mkHolder (raw_ other), empty).

(** [out]: what was released, and the holder whose struct is to be filled. *)
Definition out h : ArrowArrayStream S * ArrowHolder S := (raw_ (reset h), reset h).

(** The struct that is handed out, and the empty holder. *)
Definition take_out h : ArrowArrayStream S * ArrowHolder S := (raw_ h, empty).

End Holder.
End ArrowHolder.

(** The slot of the table of a host of state [C], with the host and the topic it is bound to. *)
Definition stream_slot (C S : Type) : Type :=
  C -> option (ArrowArrayStream S) -> PJ_string_view_t -> option (C * option (ArrowArrayStream S) * option unit * option PJ_error_t).

Section Views.
Context {C S : Type} (nullptr : S).

(** The overload for a pointer.  [host] is the table, if bound, and its slot, if the
    table is long enough to have it. *)
Definition view_appendArrowStream (who : string) (host : option (option (stream_slot C S))) (c : C)
    (stream : option (ArrowArrayStream S)) (timestamp_column : string)
  : option (C * option (ArrowArrayStream S) * Status) :=
  match host with
  | None => Some (c, stream, Err (who +:+ " is not bound"))
  | Some None => Some (c, stream, Err (who +:+ " does not support append_arrow_stream"))
  | Some (Some slot) =>
      '(c, stream, r, err) ← slot c stream (Sdk.toAbiString timestamp_column);
      Some (c, stream, Sdk.checked r err)
  end.

(** The overload for a holder, whose struct is the stream: the struct it drops on
    success, and the holder after the call. *)
Definition view_appendHolder (who : string) (host : option (option (stream_slot C S))) (c : C)
    (h : ArrowHolder S) (timestamp_column : string)
  : option (C * option (ArrowArrayStream S) * ArrowHolder S * Status) :=
  '(c, stream, status) ← view_appendArrowStream who host c (Some (raw_ h)) timestamp_column;
  let h := mkHolder (default (raw_ h) stream) in
  match status with
  | Ok _ => let '(dropped, h) := ArrowHolder.take_out nullptr h in Some (c, Some dropped, h, status)
  | Err _ => Some (c, None, h, status)
  end.

End Views.

(** ** The columns of a stream *)

Definition is_clock (timestamp_name : string) (m : ArrowColumnMapping) : bool :=
  negb (bool_decide (timestamp_name = "")) && bool_decide (field_name m = timestamp_name).

(** The last column with the name of the time stamps. *)
Definition clock_column (timestamp_name : string) (found : list ArrowColumnMapping) (otherwise : Z) : Z :=
  foldl (fun t m => if is_clock timestamp_name m then arrow_column_index m else t) otherwise found.

Definition data_columns (timestamp_name : string) (found : list ArrowColumnMapping) : list ArrowColumnMapping :=
  filter (fun m => is_clock timestamp_name m = false) found.

(** A mapping of the schema, and the same one with a column of the topic. *)
Definition same_source (m m' : ArrowColumnMapping) : Prop :=
  arrow_column_index m' = arrow_column_index m /\ pj_type m' = pj_type m /\ field_name m' = field_name m.

(** Its column has its name and its type. *)
Definition column_of (e : DataEngine) (topic : Z) (m : ArrowColumnMapping) : Prop :=
  exists d, column_at e topic (Z.of_nat (pj_column_index m)) d /\ field_path d = field_name m /\ logical_type d = pj_type m.

Lemma column_of_grows e e' topic m : layouts_grow e e' -> column_of e topic m -> column_of e' topic m.
Proof. intros Hg (d & Hd & ?). exists d. split; [by eapply column_grows|done]. Qed.

Lemma ensure_mappings_ok topic timestamp_name logs found : forall c s ts ms,
  host_ok c logs -> topics (Host.engine_ c) !! topic = Some s ->
  Z.of_nat (length (layout (Host.engine_ c) s) + length found) < 2 ^ 32 ->
  Forall (fun m => pj_type m <> kUnspecified) found ->
  exists c' r, ensure_mappings c topic timestamp_name found ts ms = Some (c', r)
    /\ host_ok c' logs /\ layouts_grow (Host.engine_ c) (Host.engine_ c')
    /\ match r with
       | None => last_error_ c' <> ""
       | Some (ts', ms') => ts' = clock_column timestamp_name found ts /\ exists more, ms' = ms ++ more
           /\ Forall2 same_source (data_columns timestamp_name found) more /\ Forall (column_of (Host.engine_ c') topic) more
       end.
Proof.
  induction found as [|m found IH]; intros c s ts ms Hok Hs Hlen Hty.
  { eexists c, _. split; [done|]. split_and!; [done|done|done|]. exists []. by rewrite app_nil_r. }
  apply Forall_cons in Hty as [Hm Hty]. cbn [ensure_mappings length] in *.
  change (negb _ && _) with (is_clock timestamp_name m). unfold clock_column, data_columns. cbn [foldl].
  destruct (is_clock timestamp_name m) eqn:Eclock.
  - rewrite filter_cons_False by (rewrite Eclock; done). apply (IH c s); [done..|lia|done].
  - rewrite filter_cons_True by done.
    destruct (ensureField_ok c logs topic s (field_name m) (toAbiType (pj_type m)) Hok Hs ltac:(lia)) as (c1 & r & -> & H1 & Hg & Hcase).
    cbn [mbind option_bind]. destruct r as [h|]; cycle 1.
    { exists c1, None. split; [done|]. split_and!; [done|apply Hg|apply Hcase]. }
    destruct Hcase as (_ & type & d & Ha & Hd & Hp & Hdt & _). rewrite fromAbiType_toAbiType in Ha by done. injection Ha as <-.
    destruct (gb_grow _ _ _ _ Hg) as [Htop _]. destruct (Htop topic s Hs) as (s1 & Hs1 & _).
    destruct (gb_more _ _ _ _ Hg) as (added & Hl & _ & Hone). rewrite size_singleton in Hone.
    rewrite (layout_of_Some _ _ _ Hs), (layout_of_Some _ _ _ Hs1) in Hl.
    set (m' := mkMapping (arrow_column_index m) (Z.to_nat (fh_id h)) (pj_type m) (field_name m)).
    destruct (IH c1 s1 ts (ms ++ [m'])) as (c2 & r & -> & H2 & Hg2 & Hcase); [done|done|rewrite Hl, length_app; lia|done|].
    exists c2, r. split; [done|]. split; [done|]. split; [by etrans; [apply Hg|]|].
    destruct r as [[ts' ms']|]; [|done]. destruct Hcase as (-> & more & -> & Hsame & Hcols). split; [done|].
    exists (m' :: more). rewrite <- app_assoc. split; [done|]. split; constructor; try done.
    apply (column_of_grows (Host.engine_ c1)); [done|]. exists d. destruct Hd as [Ht (i & Hi & Hk)].
    split; [split; [done|]; exists i; split; [done|]; cbn; lia|done].
Qed.

(** ** What a stream leaves in the writer *)

Section Stored.
Context `{NanoarrowLaws} {S : Type}.
Implicit Types (st : ArrowArrayStream S).

Lemma readable_same schema found mappings ts batch : Forall2 same_source found mappings ->
  readable schema found ts batch -> readable schema mappings ts batch.
Proof.
  intros Hsame [Hlen Hb]. split; [done|]. intros Hn. destruct (Hb Hn) as (Hw & view & Hv & Hc & Hm). split; [done|]. exists view.
  split; [done|]. split; [done|]. clear -Hm Hsame. induction Hsame as [|m m' found mappings (Hi & Hp & _) Hs IH]; [constructor|].
  apply Forall_cons in Hm as [(child & Hch) Hm]. constructor; [|by apply IH]. exists child. unfold mapped in *. by rewrite Hi, Hp.
Qed.

Lemma readable_data schema found ts batch name : readable schema found ts batch -> readable schema (data_columns name found) ts batch.
Proof.
  intros [Hlen Hb]. split; [done|]. intros Hn. destruct (Hb Hn) as (Hw & view & Hv & Hc & Hm). split; [done|]. exists view.
  split; [done|]. split; [done|]. apply Forall_forall. intros m [_ Hin]%list_elem_of_filter. rewrite Forall_forall in Hm. by apply Hm.
Qed.

(** A name that is there gives a column. *)
Lemma clock_column_found name found t : Forall (fun m => 0 <= arrow_column_index m) found ->
  0 <= t \/ (name <> "" /\ exists m, m ∈ found /\ field_name m = name) -> 0 <= clock_column name found t.
Proof.
  unfold clock_column. revert t. induction found as [|m0 found IH]; intros t Hpos Ht; cbn [foldl].
  { destruct Ht as [Ht|(_ & m & []%elem_of_nil & _)]. done. }
  apply Forall_cons in Hpos as [Hm0 Hpos]. apply IH; [done|]. unfold is_clock.
  destruct Ht as [Ht|(Hn & m & Hin & Hm)]; [left; by destruct (_ && _)|].
  apply elem_of_cons in Hin as [->|Hin]; [|right; eauto].
  left. by rewrite bool_decide_eq_false_2, bool_decide_eq_true_2.
Qed.

(** Columns of different names are different columns of the topic. *)
Lemma columns_distinct e topic mappings : NoDup (map field_name mappings) -> Forall (column_of e topic) mappings ->
  NoDup (map pj_column_index mappings).
Proof.
  induction mappings as [|m mappings IH]; intros Hnd Hc; cbn [map] in *; [constructor|].
  apply NoDup_cons in Hnd as [Hm Hnd]. apply Forall_cons in Hc as [(d & Hd & Hp & _) Hc]. constructor; [|by apply IH].
  intros (m' & Hi & Hin)%list_elem_of_fmap. apply Hm. rewrite Forall_forall in Hc. destruct (Hc m' Hin) as (d' & Hd' & Hp' & _).
  rewrite <- Hi in Hd'. pose proof (column_at_unique _ _ _ _ _ Hd Hd') as ->.
  rewrite <- Hp, Hp'. by apply list_elem_of_fmap_2.
Qed.

Lemma same_names found mappings : Forall2 same_source found mappings -> map field_name mappings = map field_name found.
Proof. induction 1 as [|m m' found mappings (_ & _ & Hn) _ IH]; [done|]. cbn [map]. by rewrite IH, Hn. Qed.

(** What the host answers to the tables of a stream. *)
Definition stored (answer : option (WriteCore * option (ArrowArrayStream S) * option unit)) (c : WriteCore) st (d' : S)
    (tables : option (DataWriter * Status)) : Prop :=
  match tables with
  | None => answer = None
  | Some (w, Err e) => exists d, answer = Some (Host.setError (Host.with_writer c w) e, Some (with_private_data st d), None)
  | Some (w, Ok _) => answer = Some (Host.setError (Host.with_writer c w) "", Some (with_private_data st d'), Some tt)
  end.

(** C7: A stream that a host is given for one of its topics, which answers its
    schema and batches without an error, and all of whose batches fit the schema:
    none is a slice of its children, has null structs, or has a column of a type or
    with a null count that the importer misreads, and the time stamp column, if one
    is named, is in the schema.  The host gives every data column of the schema a
    column of the topic of its name and type, different ones for different names,
    or refuses the stream with an error; it then calls [appendColumns] of the writer for the
    batches that are not empty, one after the other, with a cell and an instant for
    every row that are those of the row in the Arrow format, stops at the first
    call that refuses and answers with its error, and succeeds if none does. *)
Theorem stream_stored (c : WriteCore) logs topic s st schema d0 d1 batches d' tree found timestamp_column name :
  host_ok c logs -> topics (Host.engine_ c) !! topic = Some s ->
  Z.of_nat (length (layout (Host.engine_ c) s) + length found) < 2 ^ 32 ->
  (exists get, get_schema st = Some get /\ get (private_data st) = (d0, (0, schema))) ->
  serves (with_private_data st d0) schema d1 batches d' 0 ->
  mappingsFromSchema schema = Ok (tree, found) ->
  toStringView timestamp_column = Some name ->
  name = "" \/ (exists m, m ∈ found /\ field_name m = name) -> Z.of_nat (length (schema_children schema)) <= 2 ^ 31 ->
  Forall (readable schema found (clock_column name found (-1))) batches ->
  exists c1, host_ok c1 logs /\ layouts_grow (Host.engine_ c) (Host.engine_ c1)
  /\ ((forall fuel, last_error_ c1 <> "" /\ appendArrowStream fuel c topic (Some st) timestamp_column
                      = Some (c1, Some (with_private_data st d0), None))
      \/ exists mappings tables,
           Forall2 same_source (data_columns name found) mappings
           /\ Forall (column_of (Host.engine_ c1) topic) mappings
           /\ (NoDup (map field_name (data_columns name found)) -> NoDup (map pj_column_index mappings))
           /\ Forall2 (table_of schema mappings (clock_column name found (-1))) (filled batches) tables
           /\ forall fuel, (length batches < fuel)%nat ->
                stored (appendArrowStream fuel c topic (Some st) timestamp_column) c1 st d' (append_tables (writer_ c1) topic tables)).
Proof.
  intros Hok Hs Hlen (get & Hget & Hd0) Hserves Hfound Hname Hclock Hmany Hread.
  pose proof (mappings_indices _ _ _ Hfound Hmany) as Hpos.
  destruct (ensure_mappings_ok topic name logs found c s (-1) [] Hok Hs Hlen (mappings_types _ _ _ Hfound))
    as (c1 & r & Hmap & Hok1 & Hg & Hcase).
  assert (Happ : forall fuel, appendArrowStream fuel c topic (Some st) timestamp_column
    = match r with
      | None => Some (c1, Some (with_private_data st d0), None)
      | Some (ts, mappings) =>
          '(w, stream, status) ← importArrowStream fuel (writer_ c1) topic (Some (with_private_data st d0)) mappings ts;
          match status with
          | Err e => Some (Host.setError (Host.with_writer c1 w) e, stream, None)
          | Ok _ => Some (Host.setError (Host.with_writer c1 w) "", stream, Some tt)
          end
      end).
  { intros fuel. unfold appendArrowStream, Engine.getTopicStorage. rewrite Hs. unfold schemaFromArrowStream. rewrite Hget, Hd0.
    cbn [Z.eqb]. rewrite Hfound, Hname. cbn [mbind option_bind]. rewrite Hmap. cbn [mbind option_bind].
    destruct r as [[ts mappings]|]; [|done]. destruct Hcase as [-> _].
    assert (negb (bool_decide (name = "")) && (clock_column name found (-1) <? 0) = false) as ->; [|done].
    destruct (decide (name = "")) as [->|Hne]; [done|]. rewrite bool_decide_eq_false_2 by done. cbn. apply Z.ltb_ge.
    apply clock_column_found; [done|]. right. split; [done|]. by destruct Hclock. }
  exists c1. split; [done|]. split; [done|]. destruct r as [[ts mappings]|]; [right|by left].
  destruct Hcase as (-> & more & -> & Hsame & Hcols). cbn [app] in *.
  destruct (import_ok (writer_ c1) topic (with_private_data st d0) schema d1 batches d' 0 more (clock_column name found (-1)) Hserves)
    as (tables & Htab & Himp).
  { eapply Forall_impl; [exact Hread|]. intros b Hb. eapply readable_same; [exact Hsame|]. by apply readable_data. }
  exists more, tables. split_and!; [done|done| |done|].
  { rewrite <- (same_names _ _ Hsame). intros Hnd. by apply (columns_distinct (Host.engine_ c1) topic). }
  intros fuel Hf. specialize (Himp fuel Hf). rewrite Happ. unfold stored.
  destruct (append_tables _ _ _) as [[w' [[]|e]]|]; [|destruct Himp as [d Himp]; exists d|]; by rewrite Himp.
Qed.

End Stored.

(** ** Who releases a stream *)

(** The data of a stream after calls of [get_schema] and [get_next]. *)
Inductive pulled {S} (st : ArrowArrayStream S) : S -> S -> Prop :=
| pulled_none d : pulled st d d
| pulled_schema d get d' : get_schema st = Some get -> pulled st (get d).1 d' -> pulled st d d'
| pulled_next d next d' : get_next st = Some next -> pulled st (next d).1 d' -> pulled st d d'.

Section Released.
Context `{Nanoarrow} {S : Type}.
Implicit Types (st : ArrowArrayStream S) (d : S).

(** A stream from which was pulled. *)
Definition drawn st st' : Prop := exists d, st' = with_private_data st d /\ pulled st (private_data st) d.

Lemma drawn_refl st : drawn st st.
Proof. exists (private_data st). split; [by destruct st|constructor]. Qed.

Lemma pulled_trans st d1 d2 d3 : pulled st d1 d2 -> pulled st d2 d3 -> pulled st d1 d3.
Proof. intros H1 H2. induction H1; [done|by eapply pulled_schema, IHpulled|by eapply pulled_next, IHpulled]. Qed.

Lemma pulled_same st d d1 d2 : pulled (with_private_data st d) d1 d2 -> pulled st d1 d2.
Proof. induction 1; [constructor|by eapply pulled_schema|by eapply pulled_next]. Qed.

#[export] Instance drawn_trans : Transitive drawn.
Proof.
  intros a b c (d & -> & H1) (d' & -> & H2). exists d'. split; [done|]. by eapply pulled_trans, pulled_same.
Qed.

Lemma drawn_schema st get : get_schema st = Some get -> drawn st (with_private_data st (get (private_data st)).1).
Proof. intros Hg. eexists. split; [done|]. by eapply pulled_schema, pulled_none. Qed.

Lemma drawn_next st next : get_next st = Some next -> drawn st (with_private_data st (next (private_data st)).1).
Proof. intros Hg. eexists. split; [done|]. by eapply pulled_next, pulled_none. Qed.

Lemma ingest_loop_drawn fuel : forall w topic st schema mappings ts w' st' status,
  ingest_loop fuel w topic st schema mappings ts = Some (w', st', status) -> drawn st st'.
Proof.
  induction fuel as [|fuel IH]; [done|]. intros w topic st schema mappings ts w' st' status Hl. cbn [ingest_loop] in Hl.
  apply bind_Some in Hl as (next & Hnext & Hl). pose proof (drawn_next st next Hnext) as Hd.
  destruct (next (private_data st)) as [d [rc batch]]. cbn [fst] in Hd. destruct (negb _); [by simplify_eq|].
  destruct batch as [batch|]; [|by simplify_eq]. apply bind_Some in Hl as ([w1 s1] & _ & Hl).
  destruct s1; [|by simplify_eq]. etrans; [exact Hd|]. by eapply IH.
Qed.

Lemma import_drawn fuel w topic st mappings ts w' stream status :
  importArrowStream fuel w topic (Some st) mappings ts = Some (w', stream, status) -> exists st', stream = Some st' /\ drawn st st'.
Proof.
  unfold importArrowStream. intros Hi. destruct (get_schema st) as [get|] eqn:Eg; [|simplify_eq; eauto using drawn_refl].
  destruct (get_next st); [|simplify_eq; eauto using drawn_refl]. pose proof (drawn_schema st get Eg) as Hd.
  destruct (get (private_data st)) as [d [rc schema]]. cbn [fst] in Hd. destruct (rc =? 0); [|simplify_eq; eauto].
  apply bind_Some in Hi as ([[w1 st1] s1] & Hi & Hr). unfold ingestBatchesFromStream in Hi.
  simplify_eq. eexists. split; [done|]. destruct (ArrowArrayViewInitFromSchema schema); [|by simplify_eq].
  etrans; [exact Hd|]. by eapply ingest_loop_drawn.
Qed.

Lemma append_drawn fuel c topic st timestamp_column c' stream r :
  appendArrowStream fuel c topic (Some st) timestamp_column = Some (c', stream, r) -> exists st', stream = Some st' /\ drawn st st'.
Proof.
  unfold appendArrowStream. intros Ha. destruct (Engine.getTopicStorage _ _); [|simplify_eq; eauto using drawn_refl].
  unfold schemaFromArrowStream in Ha. destruct (get_schema st) as [get|] eqn:Eg; [|simplify_eq; eauto using drawn_refl].
  pose proof (drawn_schema st get Eg) as Hd. destruct (get (private_data st)) as [d [rc schema]]. cbn [fst] in Hd.
  destruct (rc =? 0); [|simplify_eq; eauto]. destruct (mappingsFromSchema schema) as [[tree found]|e]; [|simplify_eq; eauto].
  apply bind_Some in Ha as (name & _ & Ha). apply bind_Some in Ha as ([c1 ensured] & _ & Ha).
  destruct ensured as [[ts mappings]|]; [|simplify_eq; eauto]. destruct (_ && _); [simplify_eq; eauto|].
  apply bind_Some in Ha as ([[w stream1] status] & Hi & Ha). destruct (import_drawn _ _ _ _ _ _ _ _ _ Hi) as (st' & -> & Hd').
  assert (drawn st st') by by etrans. destruct status; simplify_eq; eauto.
Qed.

(** *** The tables of the host *)

Definition source_slot fuel (source topic : Z) : stream_slot WriteCore S :=
  fun c stream timestamp_column => sourceAppendArrowStream fuel (Host.mkSourceHost c source) topic stream timestamp_column.
Definition parser_slot fuel (topic : Z) : stream_slot WriteCore S :=
  fun c stream timestamp_column => parserAppendArrowStream fuel (Host.mkParserHost c topic) stream timestamp_column.
Definition toolbox_slot fuel (topic : Z) : stream_slot WriteCore S :=
  fun c stream timestamp_column => toolboxAppendArrowStream fuel c topic stream timestamp_column.

(** A view that is not bound, one of an older host, and one of each family. *)
Definition stream_hosts fuel (source topic : Z) : list (option (option (stream_slot WriteCore S))) :=
  [None; Some None; Some (Some (source_slot fuel source topic)); Some (Some (parser_slot fuel topic));
   Some (Some (toolbox_slot fuel topic))].

(** The struct after its producer freed [d]. *)
Definition freed st (f : S -> S) d : ArrowArrayStream S := mkStream (get_schema st) (get_next st) (get_last_error st) None (f d).

Lemma slots_release fuel source topic slot c st f timestamp_column c' stream r err :
  slot ∈ [source_slot fuel source topic; parser_slot fuel topic; toolbox_slot fuel topic] -> release st = Some f ->
  slot c (Some st) timestamp_column = Some (c', stream, r, err) ->
  exists d, pulled st (private_data st) d
    /\ stream = Some (match r with Some _ => freed st f d | None => with_private_data st d end).
Proof.
  intros Hslot Hf Hcall.
  assert (exists c0, stream_callback <$> appendArrowStream fuel c0 topic (Some st) timestamp_column = Some (c', stream, r, err)) as (c0 & Hc).
  { repeat (apply elem_of_cons in Hslot as [->|Hslot]; [by exists c|]). by apply elem_of_nil in Hslot. }
  apply fmap_Some in Hc as ([[c1 stream1] r1] & Ha & Hc). destruct (append_drawn _ _ _ _ _ _ _ _ Ha) as (st' & -> & d & -> & Hd).
  exists d. split; [done|]. unfold stream_callback in Hc. destruct r1; simplify_eq; [|done]. cbn. unfold call_release. cbn. by rewrite Hf.
Qed.

(** C22: Whatever family the view is of and whatever the host answers, a stream that
    a plugin hands over in a holder is freed exactly once, after the last batch was
    pulled: by the host if it took the stream, and then the holder is empty, or
    else by the destructor of the holder, which still has it. *)
Theorem stream_released_once fuel source topic host nullptr who (c : WriteCore) (h : ArrowHolder S) f timestamp_column c' dropped h' status :
  host ∈ stream_hosts fuel source topic -> release (raw_ h) = Some f ->
  view_appendHolder nullptr who host c h timestamp_column = Some (c', dropped, h', status) ->
  exists d, pulled (raw_ h) (private_data (raw_ h)) d
    /\ if has_value status
       then dropped = Some (freed (raw_ h) f d) /\ ArrowHolder.valid h' = false /\ ArrowHolder.reset h' = h'
       else dropped = None /\ release (raw_ h') = Some f /\ raw_ (ArrowHolder.reset h') = freed (raw_ h) f d.
Proof.
  intros Hhost Hf Hcall.
  assert (Hkept : mkHolder (raw_ h) = h' -> dropped = None -> has_value status = false ->
    exists d, pulled (raw_ h) (private_data (raw_ h)) d
    /\ if has_value status
       then dropped = Some (freed (raw_ h) f d) /\ ArrowHolder.valid h' = false /\ ArrowHolder.reset h' = h'
       else dropped = None /\ release (raw_ h') = Some f /\ raw_ (ArrowHolder.reset h') = freed (raw_ h) f d).
  { intros <- -> ->. exists (private_data (raw_ h)). split; [constructor|]. split_and!; [done|done|]. cbn. unfold call_release. by rewrite Hf. }
  apply elem_of_cons in Hhost as [->|Hhost]; [cbn in Hcall; simplify_eq; by apply Hkept|].
  apply elem_of_cons in Hhost as [->|Hhost]; [cbn in Hcall; simplify_eq; by apply Hkept|].
  assert (exists slot, host = Some (Some slot) /\ slot ∈ [source_slot fuel source topic; parser_slot fuel topic; toolbox_slot fuel topic])
    as (slot & -> & Hslot) by set_solver.
  unfold view_appendHolder, view_appendArrowStream in Hcall. clear Hkept Hhost.
  apply bind_Some in Hcall as ([[c1 stream] status1] & Hs & Hcall). apply bind_Some in Hs as ([[[c2 stream2] r] err] & Hs & [= -> -> <-]).
  destruct (slots_release _ _ _ _ _ _ _ _ _ _ _ _ Hslot Hf Hs) as (d & Hd & ->). exists d. split; [done|].
  destruct r as [[]|]; cbn in Hcall; simplify_eq; cbn; [done|]. split_and!; [done|done|]. unfold call_release. cbn. by rewrite Hf.
Qed.

End Released.
