(* ===== verification/ArrowDemo.v ===== *)
(** * ArrowDemo: a stream of Arrow tables, run

    A reader of arrays that stands in for nanoarrow, a stream of two batches, what
    the host stores of it, and what happens to streams that the importer does not
    read as the Arrow format has them. *)

From S2P Require Import Prelude Types TypeTree TypeRegistry Float64 Buffer Encoding Column Chunk Query TopicStorage Engine Writer Ingest Layout WriterState Records Host HostState HostLog HostRun HostDemo Sdk ArrowImport ArrowHost.

(** ** A reader of arrays *)

Definition format_type (format : option string) : option ArrowType :=
  match format with
  | Some "c" => Some NANOARROW_TYPE_INT8
  | Some "l" => Some NANOARROW_TYPE_INT64
  | Some "g" => Some NANOARROW_TYPE_DOUBLE
  | Some "b" => Some NANOARROW_TYPE_BOOL
  | Some "u" => Some NANOARROW_TYPE_STRING
  | Some "U" => Some NANOARROW_TYPE_LARGE_STRING
  | Some "+s" => Some (NANOARROW_TYPE_OTHER 0)
  | _ => None
  end%string.

Definition view_of_child (s : ArrowSchema) (a : ArrowArray) : ArrowArrayView :=
  mkArrayView (default NANOARROW_TYPE_NA (format_type (format s))) (array_offset a) (null_count a) (buffers a) [].

#[export] Instance demo_nanoarrow : Nanoarrow := {|
  ArrowSchemaViewInit s := format_type (format s);
  ArrowArrayViewInitFromSchema s := bool_decide (format s = Some "+s"%string);
  ArrowArrayViewSetArray s a :=
    if decide (length (schema_children s) = length (array_children a)) then
      Some (mkArrayView (NANOARROW_TYPE_OTHER 0) (array_offset a) (null_count a) (buffers a)
              (zip_with view_of_child (schema_children s) (array_children a)))
    else None;
  ArrowArrayViewGetIntUnsafe := arrow_int;
  ArrowArrayViewGetUIntUnsafe := arrow_int
|}.

#[export] Instance demo_nanoarrow_laws : NanoarrowLaws.
Proof. by split. Qed.

(** ** A stream *)

Definition field (name format : string) : ArrowSchema := mkSchema (Some format) (Some name) [].
Definition demo_schema : ArrowSchema :=
  mkSchema (Some "+s") None [field "timestamp" "l"; field "gear" "c"; field "ok" "b"; field "who" "u"]%string.

Definition words (w : nat) (zs : list Z) : bytes := concat (map (le_bytes w) zs).
Definition text : bytes := map z2b [97; 98; 99; 100].

(** Three rows; the gear of the second is unknown, and the arrays of the flags start at their second bit. *)
Definition first_batch : ArrowArray := mkArray 3 0 0 [None]
  [ mkArray 3 0 0 [None; Some (words 8 [10; 20; 30])] [];
    mkArray 3 1 0 [Some (words 1 [5]); Some (words 1 [-1; 7; 3])] [];
    mkArray 3 0 1 [None; Some (words 1 [10])] [];
    mkArray 3 0 0 [None; Some (words 4 [0; 1; 1; 4]); Some text] [] ].
Definition second_batch : ArrowArray := mkArray 1 0 0 [None]
  [ mkArray 1 0 0 [None; Some (words 8 [40])] [];
    mkArray 1 0 0 [None; Some (words 1 [4])] [];
    mkArray 1 0 0 [None; Some (words 1 [1])] [];
    mkArray 1 0 0 [None; Some (words 4 [0; 2]); Some text] [] ].
Definition no_rows : ArrowArray := mkArray 0 0 0 [None] [].

(** What the producer still has, and how often it was told to free it. *)
Definition Producer : Type := list ArrowArray * nat.

Definition demo_next (p : Producer) : Producer * (Z * option ArrowArray) :=
  match p.1 with [] => (p, (0, None)) | b :: rest => ((rest, p.2), (0, Some b)) end.

Definition producer (schema : ArrowSchema) (batches : list ArrowArray) : ArrowArrayStream Producer :=
  mkStream (Some (fun p => (p, (0, schema)))) (Some demo_next) None (Some (fun p => ([], S p.2))) (batches, O).

Definition demo_stream : ArrowArrayStream Producer := producer demo_schema [first_batch; no_rows; second_batch].

Lemma demo_delivers batches k : delivers demo_next (batches, k) batches ([], k) 0.
Proof. induction batches as [|b batches IH]; [by constructor|]. by econstructor. Qed.

Definition stamp : PJ_string_view_t := view_of "timestamp".

(** The host, and the answer to the plugin. *)
Definition told {S} (a : option (WriteCore * option (ArrowArrayStream S) * option unit)) : option (option unit * string) :=
  '(c, _, r) ← a; Some (r, last_error_ c).

(** The rows of a topic after a flush: times, and the cells of a column. *)
Definition rows_of_topic (c : WriteCore) (topic : Z) (columns : nat) : option (list Z * list (list (option (option Value)))) :=
  c ← Host.flushPending listing c;
  s ← topics (Host.engine_ c) !! topic;
  let chunks := sealed_chunks_ s in
  Some (concat (map timestamps chunks),
        map (fun j => concat (map (fun chunk => map (fun i =>
               null ← Chunk.isNull chunk j i;
               if (null : bool) then Some None else Some <$> Chunk.readValue chunk j i) (seq 0 (length (timestamps chunk)))) chunks))
            (seq 0 columns)).

Definition after {S} (a : option (WriteCore * option (ArrowArrayStream S) * option unit)) (columns : nat) :=
  '(c, _, _) ← a; rows_of_topic c 1 columns.

Definition demo_answer := appendArrowStream 5 arm_topic 1 (Some demo_stream) stamp.

Example demo_stored : told demo_answer = Some (Some tt, "")
  /\ after demo_answer 3 = Some ([10; 20; 30; 40],
       [[Some (Some (VInt64 (-1))); Some None; Some (Some (VInt64 3)); Some (Some (VInt64 4))];
        [Some (Some (VBool true)); Some (Some (VBool false)); Some (Some (VBool true)); Some (Some (VBool true))];
        [Some (Some (VString (map z2b [97]))); Some (Some (VString [])); Some (Some (VString (map z2b [98; 99; 100])));
         Some (Some (VString (map z2b [97; 98])))]]).
Proof. by vm_compute. Qed.

(** ** Witnesses *)

Definition demo_found : list ArrowColumnMapping :=
  Eval vm_compute in match mappingsFromSchema demo_schema with Ok (_, found) => found | Err _ => [] end.
Definition demo_tree : TypeTreeNode :=
  Eval vm_compute in match mappingsFromSchema demo_schema with Ok (tree, _) => tree | Err _ => makeStruct "" [] end.

(** Decide that an array holds its rows. *)
Ltac holds_rows_now :=
  split; [vm_compute; discriminate
    |let Hnulls := fresh in intros Hnulls; first [by vm_compute in Hnulls
      |let i := fresh in let Hi := fresh in intros i Hi; unfold rows_of in Hi; cbn in Hi;
       repeat (destruct i as [|i]; [by vm_compute|]); lia]
    |intros bits [= <-]; vm_compute; lia
    |eexists; split; [reflexivity|vm_compute; lia]].
Ltac mapped_now := eexists; unfold mapped; split_and!; [vm_compute; discriminate|reflexivity|holds_rows_now|reflexivity|discriminate].

Lemma demo_readable b : b ∈ [first_batch; no_rows; second_batch] -> readable demo_schema demo_found 0 b.
Proof.
  intros Hb. repeat (apply elem_of_cons in Hb as [->|Hb]); [| | |by apply elem_of_nil in Hb].
  all: split; [vm_compute; discriminate|intros Hn].
  all: try (by destruct Hn).
  all: split; [split; [done|intros i _; reflexivity]|].
  all: eexists; split; [reflexivity|]; split; [intros _; eexists; split; [reflexivity|]; split; [holds_rows_now|vm_compute; set_solver]|].
  all: repeat (apply Forall_cons; split; [mapped_now|]); apply Forall_nil_2.
Qed.

Lemma stream_stored_witness : exists c1 mappings tables,
  Forall2 (table_of demo_schema mappings 0) [first_batch; second_batch] tables
  /\ stored demo_answer c1 demo_stream ([], O) (append_tables (writer_ c1) 1 tables).
Proof.
  pose proof (session_ok listing listing_permutation _ _ arm_topic_session) as Hok.
  destruct (topics (Host.engine_ arm_topic) !! 1) as [s|] eqn:Es; [|by vm_compute in Es].
  destruct (stream_stored arm_topic no_logs 1 s demo_stream demo_schema ([first_batch; no_rows; second_batch], O)
    ([first_batch; no_rows; second_batch], O) [first_batch; no_rows; second_batch] ([], O) demo_tree demo_found stamp "timestamp"
    Hok Es) as (c1 & _ & _ & Hcase).
  - vm_compute in Es. injection Es as <-. by vm_compute.
  - by eexists.
  - split; [by eexists|eexists; split; [reflexivity|by apply demo_delivers]|by vm_compute].
  - by vm_compute.
  - by vm_compute.
  - right. exists (mkMapping 0 0 kInt64 "timestamp"). split; [by left|reflexivity].
  - vm_compute. discriminate.
  - apply Forall_forall. apply demo_readable.
  - destruct Hcase as [Hfail|(mappings & tables & _ & _ & _ & Htab & Hall)].
    + destruct (Hfail 5%nat) as [_ Ha]. by vm_compute in Ha.
    + exists c1, mappings, tables. split; [exact Htab|]. apply Hall. vm_compute. lia.
Defined.

(** The struct in the holder of the plugin. *)
Abbreviation demo_call :=
  (view_appendHolder ([], O) "source write host" (Some (Some (source_slot 5 1 1))) arm_topic (mkHolder demo_stream) "timestamp").

Lemma stream_released_once_witness : exists c dropped h status d, demo_call = Some (c, dropped, h, status)
  /\ has_value status = true /\ dropped = Some (freed demo_stream (fun p => ([], S p.2)) d).
Proof.
  assert (option_map (fun r => has_value r.2) demo_call = Some true) as Hok by by vm_compute.
  destruct demo_call as [[[[c dropped] h] status]|] eqn:E; [|discriminate Hok].
  cbn [option_map snd] in Hok. injection Hok as Hok.
  eapply stream_released_once in E as (d & _ & Hd); [|by do 2 right; left|reflexivity].
  rewrite Hok in Hd. exists c, dropped, h, status, d. split; [reflexivity|]. split; [exact Hok|]. exact (proj1 Hd).
Defined.

(** ** Streams that are not read as the format has them *)

Definition column (name format : string) (a : ArrowArray) : ArrowSchema * ArrowArray := (field name format, a).
Definition small (zs : list Z) : ArrowArray := mkArray (Z.of_nat (length zs)) 0 0 [None; Some (words 1 zs)] [].
Definition times (zs : list Z) : ArrowSchema * ArrowArray :=
  column "timestamp" "l" (mkArray (Z.of_nat (length zs)) 0 0 [None; Some (words 8 zs)] []).

Definition batch_of (cols : list (ArrowSchema * ArrowArray)) : ArrowArray :=
  mkArray (default 0 (array_length <$> head (map snd cols))) 0 0 [None] (map snd cols).

(** Batches with the columns of the first one, given to the topic [c] has. *)
Definition give (c : WriteCore) (name : string) (batches : list (list (ArrowSchema * ArrowArray))) :=
  appendArrowStream 5 c 1
    (Some (producer (mkSchema (Some "+s"%string) None (map fst (default [] (head batches)))) (map batch_of batches)))
    (view_of name).

(** Offsets of 64 bits are read as pairs of offsets of 32 bits. *)
Example large_texts_garbled :
  let large := column "w" "U" (mkArray 2 0 0 [None; Some (words 8 [0; 1; 4]); Some text] []) in
  map (arrow_cell (view_of_child large.1 large.2)) [0; 1]%nat
    = [Some (Some (VString (map z2b [97]))); Some (Some (VString (map z2b [98; 99; 100])))]
  /\ after (give arm_topic "timestamp" [[times [10; 20]; large]]) 1
    = Some ([10; 20], [[Some (Some (VString [])); Some (Some (VString (map z2b [97])))]]).
Proof. by vm_compute. Qed.

(** The offset and the validity of the struct array are ignored: a slice of three rows from the second on shows the
    first two, and a null struct the values under it. *)
Example sliced_batches_misread :
  let cols := [times [10; 20; 30]; column "g" "c" (small [1; 2; 3])] in
  let slice := mkArray 2 0 1 [None] (map snd cols) in
  let holed := mkArray 3 1 0 [Some (words 1 [5])] (map snd cols) in
  let g := view_of_child (field "g" "c") (small [1; 2; 3]) in
  let give1 b := appendArrowStream 5 arm_topic 1 (Some (producer (mkSchema (Some "+s"%string) None (map fst cols)) [b])) stamp in
  (map (row_cell slice g) [0; 1]%nat = [Some (Some (VInt64 2)); Some (Some (VInt64 3))]
   /\ after (give1 slice) 1 = Some ([10; 20], [[Some (Some (VInt64 1)); Some (Some (VInt64 2))]]))
  /\ row_cell holed g 1 = Some None
  /\ after (give1 holed) 1 = Some ([10; 20; 30], [[Some (Some (VInt64 1)); Some (Some (VInt64 2)); Some (Some (VInt64 3))]]).
Proof. by vm_compute. Qed.

(** Without a time stamp column the rows of every batch are counted from 0, so the second batch is late;
    the first stays. *)
Example row_numbers_restart :
  let a := give arm_topic "" [[column "g" "c" (small [1; 2])]; [column "g" "c" (small [3; 4])]] in
  told a = Some (None, "Out-of-order timestamp: t=0 < last_timestamp=1")
  /\ after a 1 = Some ([0; 1], [[Some (Some (VInt64 1)); Some (Some (VInt64 2))]]).
Proof. by vm_compute. Qed.

(** A null count of -1 is one that was not computed; its nulls are taken for values. *)
Example uncounted_nulls_read :
  let g := column "g" "c" (mkArray 2 (-1) 0 [Some (words 1 [1]); Some (words 1 [1; 2])] []) in
  arrow_cell (view_of_child g.1 g.2) 1 = Some None
  /\ after (give arm_topic "timestamp" [[times [10; 20]; g]]) 1 = Some ([10; 20], [[Some (Some (VInt64 1)); Some (Some (VInt64 2))]]).
Proof. by vm_compute. Qed.

(** Time stamps of any other type are replaced by row numbers. *)
Example other_clocks_ignored :
  let t := column "timestamp" "g" (mkArray 2 0 0 [None; Some (words 8 [4636737291354636288; 4641240890982006784])] []) in
  let a := give arm_topic "timestamp" [[t; column "g" "c" (small [1; 2])]] in
  told a = Some (Some tt, "") /\ fst <$> after a 1 = Some [0; 1].
Proof. by vm_compute. Qed.

(** Rows are not checked against each other within a batch. *)
Example late_rows_taken :
  let a := give arm_topic "timestamp" [[times [30; 10; 20]; column "g" "c" (small [1; 2; 3])]] in
  told a = Some (Some tt, "") /\ fst <$> after a 1 = Some [30; 10; 20].
Proof. by vm_compute. Qed.

(** Two columns of one name go to one column of the topic, which so has more rows than the topic: the second
    batch shows rows of the first. *)
Example twin_columns_shift :
  let twins zs ts := [times ts; column "g" "c" (small zs); column "g" "c" (small zs)] in
  let a := give arm_topic "timestamp" [twins [1; 2] [10; 20]; twins [3; 4] [30; 40]] in
  told a = Some (Some tt, "")
  /\ after a 1 = Some ([10; 20; 30; 40], [[Some (Some (VInt64 1)); Some (Some (VInt64 2)); Some (Some (VInt64 1)); Some (Some (VInt64 2))]]).
Proof. by vm_compute. Qed.

(** A field of the topic that the stream has no column for breaks an assertion of the builder. *)
Definition arm_speed : WriteCore := Eval vm_compute in default arm_topic (fst <$> Host.ensureField arm_topic 1 "speed" 1).

Example missing_column_undefined : told (give arm_speed "timestamp" [[times [10; 20]; column "g" "c" (small [1; 2])]]) = None.
Proof. by vm_compute. Qed.
