(* ===== verification/SeriesArrow.v ===== *)
(** * SeriesArrow: one field of a topic as an Arrow array

    Models [readSeriesArrow] of [src/pj_datastore/src/plugin_data_host.cpp] with
    [decodeNumericExact], its callback, and the view of a toolbox in
    [src/pj_base/include/pj_base/sdk/plugin_data_api.hpp].  The builders of
    nanoarrow are not in the repository: they are the class [ArrowBuilder] over an
    abstract array, whose cells the laws speak of.  [series_read]: a toolbox reads
    the records of the topic that are stored, one row each, with their times and
    the values of the field; [SeriesView] goes on from there. *)

From S2P Require Import Prelude Types TypeTree TypeRegistry Float64 Buffer Encoding Column Chunk Query TopicStorage Engine Writer Ingest Layout WriterState Records Host HostState HostLog HostRun HostDemo Sdk ArrowImport.

(** ** Exact numbers of a sealed column *)

(** [readForOffset] *)
Definition readForOffset (enc : FrameOfReferenceEncoded) (row : nat) : option Z :=
  match offset_bytes enc with
  | 1%nat => load 1 row (for_offsets enc)
  | 2%nat => load 2 (row * 2) (for_offsets enc)
  | _ => load 4 (row * 4) (for_offsets enc)
  end.

(** The instances of the template: [float], [double], and integers of [w] bits.  A
    [float] is given as the double it converts to. *)
Inductive Floating := TFloat | TDouble.
Inductive Whole := TInt (w : Z) | TUint (w : Z).

Definition to_whole (T : Whole) (z : Z) : Z := match T with TInt w => wrapS w z | TUint w => wrapU w z end.
Definition whole_bytes (T : Whole) : nat := match T with TInt w | TUint w => Z.to_nat (w / 8) end.

(** A truncation that leaves the type is undefined. *)
Definition whole_of_double (T : Whole) (d : double) : option Z :=
  z ← f64_trunc d; if to_whole T z =? z then Some z else None.

Definition floating_of_double (T : Floating) (d : double) : double :=
  match T with TFloat => f64_of_f32 (f32_of_f64 d) | TDouble => d end.
Definition floating_of_Z (T : Floating) (z : Z) : double :=
  match T with TFloat => f64_of_f32 (SpecFloat.binary_normalize 24 128 z 0 false) | TDouble => f64_of_Z z end.

Definition load_floating (T : Floating) (off : nat) (data : bytes) : option double :=
  match T with
  | TFloat => (fun v => f64_of_f32 (f32_of_bits v)) <$> load 4 off data
  | TDouble => f64_of_bits <$> load 8 off data
  end.

(** The branch for raw columns; [of_float], [of_double] and [of_int] are the [static_cast]s. *)
Definition decode_raw {R} (c : TopicChunk) (col_index row : nat) (base : bytes) (kind : StorageKind.t)
    (of_float of_double : double -> option R) (of_int : Z -> R) : option R :=
  match kind with
  | StorageKind.kFloat32 => d ← load_floating TFloat (row * 4) base; of_float d
  | StorageKind.kFloat64 => d ← load_floating TDouble (row * 8) base; of_double d
  | StorageKind.kInt32 => v ← load 4 (row * 4) base; Some (of_int (i32 v))
  | StorageKind.kInt64 => v ← load 8 (row * 8) base; Some (of_int (i64 v))
  | StorageKind.kUint64 => v ← load 8 (row * 8) base; Some (of_int v)
  | StorageKind.kBool => b ← Chunk.readBool c col_index row; Some (of_int (if (b : bool) then 1 else 0))
  | StorageKind.kString => Some (of_int 0)
  end.

Definition decodeWholeExact (T : Whole) (c : TopicChunk) (col_index row : nat) : option Z :=
  col ← columns c !! col_index;
  match col_data col with
  | Constant enc => to_whole T <$> load (whole_bytes T) 0 (Encoding.value_bytes enc)
  | FrameOfReference enc => offset ← readForOffset enc row; Some (to_whole T (i64 (reference enc + i64 offset)))
  | Raw base => decode_raw c col_index row base (kind_of (col_descriptor col)) (whole_of_double T) (whole_of_double T) (to_whole T)
  | _ => Some 0
  end.

Definition decodeFloatingExact (T : Floating) (c : TopicChunk) (col_index row : nat) : option double :=
  col ← columns c !! col_index;
  match col_data col with
  | Constant enc => load_floating T 0 (Encoding.value_bytes enc)
  | FrameOfReference enc => offset ← readForOffset enc row; Some (floating_of_Z T (i64 (reference enc + i64 offset)))
  | Raw base =>
      decode_raw c col_index row base (kind_of (col_descriptor col)) Some (fun d => Some (floating_of_double T d)) (floating_of_Z T)
  | _ => Some f64_zero
  end.

(** ** The builders of nanoarrow *)

Inductive ArrowCell := AInt (z : Z) | AUint (z : Z) | ADouble (d : double) | AText (s : bytes).

(** [None] and [Err] are codes that are not [NANOARROW_OK]; a child is given by its
    index in the array. *)
Class ArrowBuilder (A : Type) := {
  ArrowSchemaSetTypeStruct : nat -> option ArrowSchema;
  ArrowSchemaSetType : ArrowSchema -> nat -> ArrowType -> option ArrowSchema;
  ArrowSchemaSetName : ArrowSchema -> nat -> string -> option ArrowSchema;
  ArrowArrayInitFromSchema : ArrowSchema -> Expected A;
  ArrowArrayStartAppending : A -> option A;
  ArrowArrayAppendNull : A -> nat -> option A;
  ArrowArrayAppendInt : A -> nat -> Z -> option A;
  ArrowArrayAppendUInt : A -> nat -> Z -> option A;
  ArrowArrayAppendDouble : A -> nat -> double -> option A;
  ArrowArrayAppendString : A -> nat -> bytes -> option A;
  ArrowArrayFinishElement : A -> option A;
  ArrowArrayFinishBuildingDefault : A -> Expected A
}.

(** ** Reading a series *)

Definition value_arrow_type (t : PrimitiveType) : ArrowType :=
  match t with
  | kFloat32 => NANOARROW_TYPE_FLOAT
  | kFloat64 => NANOARROW_TYPE_DOUBLE
  | kInt8 => NANOARROW_TYPE_INT8
  | kInt16 => NANOARROW_TYPE_INT16
  | kInt32 => NANOARROW_TYPE_INT32
  | kInt64 => NANOARROW_TYPE_INT64
  | kUint8 => NANOARROW_TYPE_UINT8
  | kUint16 => NANOARROW_TYPE_UINT16
  | kUint32 => NANOARROW_TYPE_UINT32
  | kUint64 => NANOARROW_TYPE_UINT64
  | kBool => NANOARROW_TYPE_BOOL
  | kString => NANOARROW_TYPE_STRING
  | kUnspecified => NANOARROW_TYPE_NA
  end.

(** [chunk.columns[i].descriptor->field_id == field.id], the first such [i]. *)
Fixpoint column_index (cols : list ChunkColumn) (id : Z) : option nat :=
  match cols with
  | [] => None
  | col :: rest => if field_id (col_descriptor col) =? id then Some O else S <$> column_index rest id
  end.

Section Read.
Context {A : Type} `{ArrowBuilder A}.

(** The switch on the type of the field: [None] outside is undefined, inside an error code. *)
Definition series_value (t : PrimitiveType) (a : A) (chunk : TopicChunk) (col row : nat) : option (option A) :=
  let whole T append := v ← decodeWholeExact T chunk col row; Some (append a 1%nat v) in
  match t with
  | kFloat32 => v ← decodeFloatingExact TFloat chunk col row; Some (ArrowArrayAppendDouble a 1 v)
  | kFloat64 => v ← decodeFloatingExact TDouble chunk col row; Some (ArrowArrayAppendDouble a 1 v)
  | kInt8 => whole (TInt 8) ArrowArrayAppendInt
  | kInt16 => whole (TInt 16) ArrowArrayAppendInt
  | kInt32 => whole (TInt 32) ArrowArrayAppendInt
  | kInt64 => whole (TInt 64) ArrowArrayAppendInt
  | kUint8 => whole (TUint 8) ArrowArrayAppendUInt
  | kUint16 => whole (TUint 16) ArrowArrayAppendUInt
  | kUint32 => whole (TUint 32) ArrowArrayAppendUInt
  | kUint64 => whole (TUint 64) ArrowArrayAppendUInt
  | kBool => b ← Chunk.readBool chunk col row; Some (ArrowArrayAppendInt a 1 (if (b : bool) then 1 else 0))
  | kString => s ← Chunk.readString chunk col row; Some (ArrowArrayAppendString a 1 s)
  | kUnspecified => Some (ArrowArrayAppendNull a 1)
  end.

(** The body of the loop over the rows. *)
Definition series_row (t : PrimitiveType) (a : A) (chunk : TopicChunk) (col row : nat) : option (Expected A) :=
  time ← Chunk.readTimestamp chunk row;
  match ArrowArrayAppendInt a 0 time with
  | None => Some (Err "readSeriesArrow: timestamp append failed")
  | Some a =>
      is_null ← Chunk.isNull chunk col row;
      appended ←
        (if (is_null : bool) then
           Some match ArrowArrayAppendNull a 1 with
                | None => Err "readSeriesArrow: null append failed"
                | Some a => Ok a
                end
         else
           r ← series_value t a chunk col row;
           Some match r with None => Err "readSeriesArrow: value append failed" | Some a => Ok a end);
      match appended with
      | Err e => Some (Err e)
      | Ok a =>
          match ArrowArrayFinishElement a with
          | None => Some (Err "readSeriesArrow: ArrowArrayFinishElement failed")
          | Some a => Some (Ok a)
          end
      end
  end%string.

Fixpoint series_rows (t : PrimitiveType) (a : A) (chunk : TopicChunk) (col : nat) (rows : list nat) : option (Expected A) :=
  match rows with
  | [] => Some (Ok a)
  | row :: rest =>
      r ← series_row t a chunk col row;
      match r with Err e => Some (Err e) | Ok a => series_rows t a chunk col rest end
  end.

Fixpoint series_chunks (t : PrimitiveType) (id : Z) (a : A) (chunks : list TopicChunk) : option (Expected A) :=
  match chunks with
  | [] => Some (Ok a)
  | chunk :: rest =>
      match column_index (columns chunk) id with
      | None => series_chunks t id a rest
      | Some col =>
          r ← series_rows t a chunk col (seq 0 (Z.to_nat (row_count (stats chunk))));
          match r with Err e => Some (Err e) | Ok a => series_chunks t id a rest end
      end
  end.

Definition series_schema (t : PrimitiveType) (path : string) : Expected ArrowSchema :=
  match ArrowSchemaSetTypeStruct 2 with
  | None => Err "readSeriesArrow: ArrowSchemaSetTypeStruct failed"
  | Some schema =>
      match (s ← ArrowSchemaSetType schema 0 NANOARROW_TYPE_INT64; ArrowSchemaSetName s 0 "timestamp") with
      | None => Err "readSeriesArrow: failed to set timestamp child schema"
      | Some schema =>
          match (s ← ArrowSchemaSetType schema 1 (value_arrow_type t); ArrowSchemaSetName s 1 path) with
          | None => Err "readSeriesArrow: failed to set value child schema"
          | Some schema => Ok schema
          end
      end
  end%string.

Definition series_array (t : PrimitiveType) (id : Z) (schema : ArrowSchema) (chunks : list TopicChunk) : option (Expected A) :=
  match ArrowArrayInitFromSchema schema with
  | Err e => Some (Err ("readSeriesArrow: ArrowArrayInitFromSchema failed: " +:+ e))
  | Ok a =>
      match ArrowArrayStartAppending a with
      | None => Some (Err "readSeriesArrow: ArrowArrayStartAppending failed")
      | Some a =>
          r ← series_chunks t id a chunks;
          match r with
          | Err e => Some (Err e)
          | Ok a =>
              Some match ArrowArrayFinishBuildingDefault a with
                   | Err e => Err ("readSeriesArrow: finish building failed: " +:+ e)
                   | Ok a => Ok a
                   end
          end
      end
  end%string.

(** [outs] tells whether both out-parameters are there; what they are filled with. *)
Definition readSeriesArrow (c : WriteCore) (field : PJ_field_handle_t) (outs : bool)
  : option (WriteCore * option (ArrowSchema * A)) :=
  if negb outs then Some (Host.fail c "readSeriesArrow: out_schema and out_array must be non-null")
  else
    match Engine.getTopicStorage (Host.engine_ c) (fh_topic field) with
    | None => Some (Host.fail c (Host.topic_not_found (fh_topic field)))
    | Some storage =>
        match HostColumns.findFieldDescriptor (HostColumns.effectiveColumns (Host.engine_ c) storage) (fh_id field) with
        | None => Some (Host.fail c ("field " +:+ pretty (fh_id field) +:+ " not found in topic " +:+ pretty (fh_topic field)))
        | Some desc =>
            match series_schema (logical_type desc) (field_path desc) with
            | Err e => Some (Host.fail c e)
            | Ok schema =>
                r ← series_array (logical_type desc) (fh_id field) schema (sealed_chunks_ storage);
                match r with
                | Err e => Some (Host.fail c e)
                | Ok a => Some (Host.succeed c (schema, a))
                end
            end
        end
    end%string.

Definition toolboxReadSeriesArrow (c : WriteCore) (field : PJ_field_handle_t) (outs : bool)
  : option (WriteCore * option (ArrowSchema * A) * option PJ_error_t) :=
  Host.callback <$> readSeriesArrow c field outs.

(** The view of a toolbox: the slot of the table, if bound, and if the table has it. *)
Definition view_readSeriesArrow (host : option (option (WriteCore -> PJ_field_handle_t -> bool
      -> option (WriteCore * option (ArrowSchema * A) * option PJ_error_t)))) (c : WriteCore) (field : PJ_field_handle_t) (outs : bool)
  : option (WriteCore * Expected (ArrowSchema * A)) :=
  match host with
  | None => Some (c, Err "toolbox host is not bound"%string)
  | Some slot =>
      if negb outs then Some (c, Err "readSeriesArrow: out_schema and out_array must not be null"%string)
      else
        match slot with
        | None => Some (c, Err "toolbox host does not support read_series_arrow"%string)
        | Some slot => '(c, r, err) ← slot c field outs; Some (c, Sdk.checked r err)
        end
  end.

End Read.

(** ** What nanoarrow documents of its builders *)

(** What a struct array under construction holds: the types and the cells of its
    children, and the rows that are finished. *)
Record Content := mkContent { ct_types : list ArrowType; ct_cells : list (list (option ArrowCell)); ct_elements : nat }.

Definition push (k : nat) (x : option ArrowCell) (ct : Content) : Content :=
  mkContent (ct_types ct) (alter (fun l => l ++ [x]) k (ct_cells ct)) (ct_elements ct).

Definition int_fits (type : ArrowType) (z : Z) : Prop :=
  match type with
  | NANOARROW_TYPE_INT8 => in_s 8 z
  | NANOARROW_TYPE_INT16 => in_s 16 z
  | NANOARROW_TYPE_INT32 => in_s 32 z
  | NANOARROW_TYPE_INT64 => in_s 64 z
  | NANOARROW_TYPE_BOOL => z = 0 \/ z = 1
  | _ => False
  end.

Definition uint_fits (type : ArrowType) (z : Z) : Prop :=
  match type with
  | NANOARROW_TYPE_UINT8 => in_u 8 z
  | NANOARROW_TYPE_UINT16 => in_u 16 z
  | NANOARROW_TYPE_UINT32 => in_u 32 z
  | NANOARROW_TYPE_UINT64 => in_u 64 z
  | _ => False
  end.

Definition double_fits (type : ArrowType) (d : double) : Prop :=
  type = NANOARROW_TYPE_DOUBLE /\ (exists v, in_u 64 v /\ d = f64_of_bits v)
  \/ type = NANOARROW_TYPE_FLOAT /\ (exists v, in_u 32 v /\ d = f64_of_f32 (f32_of_bits v)).

Definition cell_text (x : option ArrowCell) : nat := match x with Some (AText s) => length s | _ => 0%nat end.

(** The bytes of the texts of a child, whose offsets have 32 bits. *)
Definition texts (cells : list (option ArrowCell)) : nat := sum_list (map cell_text cells).

(** A schema shows the types of its children. *)
Class ArrowBuilderLaws (A : Type) `{ArrowBuilder A} := {
  schema_types : ArrowSchema -> list ArrowType;
  content : A -> Content;
  SetTypeStruct_ok n : exists s, ArrowSchemaSetTypeStruct n = Some s /\ length (schema_types s) = n;
  SetType_ok s k type : (forall code, type <> NANOARROW_TYPE_OTHER code) -> (k < length (schema_types s))%nat ->
    exists s', ArrowSchemaSetType s k type = Some s' /\ schema_types s' = <[k := type]> (schema_types s);
  SetName_ok s k name : (k < length (schema_types s))%nat ->
    exists s', ArrowSchemaSetName s k name = Some s' /\ schema_types s' = schema_types s;
  InitFromSchema_ok s : exists a, ArrowArrayInitFromSchema s = Ok a
    /\ content a = mkContent (schema_types s) (map (fun _ => []) (schema_types s)) 0;
  StartAppending_ok a : ct_elements (content a) = 0%nat -> exists a', ArrowArrayStartAppending a = Some a' /\ content a' = content a;
  AppendNull_ok a k : (k < length (ct_types (content a)))%nat ->
    exists a', ArrowArrayAppendNull a k = Some a' /\ content a' = push k None (content a);
  AppendInt_ok a k type z : ct_types (content a) !! k = Some type -> int_fits type z ->
    exists a', ArrowArrayAppendInt a k z = Some a' /\ content a' = push k (Some (AInt z)) (content a);
  AppendUInt_ok a k type z : ct_types (content a) !! k = Some type -> uint_fits type z ->
    exists a', ArrowArrayAppendUInt a k z = Some a' /\ content a' = push k (Some (AUint z)) (content a);
  AppendDouble_ok a k type d : ct_types (content a) !! k = Some type -> double_fits type d ->
    exists a', ArrowArrayAppendDouble a k d = Some a' /\ content a' = push k (Some (ADouble d)) (content a);
  AppendString_ok a k s cells : ct_types (content a) !! k = Some NANOARROW_TYPE_STRING -> ct_cells (content a) !! k = Some cells ->
    Z.of_nat (texts cells + length s) < 2 ^ 31 ->
    exists a', ArrowArrayAppendString a k s = Some a' /\ content a' = push k (Some (AText s)) (content a);
  FinishElement_ok a : Forall (fun l => length l = S (ct_elements (content a))) (ct_cells (content a)) ->
    exists a', ArrowArrayFinishElement a = Some a'
      /\ content a' = mkContent (ct_types (content a)) (ct_cells (content a)) (S (ct_elements (content a)));
  FinishBuilding_ok a : exists a', ArrowArrayFinishBuildingDefault a = Ok a' /\ content a' = content a
}.

(** ** Exact numbers are those of the chunk *)

Lemma load_narrow m n off bs v : load n off bs = Some v -> (m <= n)%nat -> load m off bs = Some (v mod 2 ^ (8 * Z.of_nat m)).
Proof.
  unfold load. intros Hl Hm. case_decide as Hn; [|done]. injection Hl as <-. rewrite decide_True by lia. f_equal.
  set (l := drop off bs). assert (Hlen : (n <= length l)%nat) by (unfold l; rewrite length_drop; lia). clearbody l. clear Hn.
  replace (take m l) with (take m (take n l)) by (by rewrite take_take, Nat.min_l). set (k := take n l).
  assert (Hk : (m <= length k)%nat) by (unfold k; rewrite length_take; lia). clearbody k. clear -Hk.
  revert k Hk. induction m as [|m IH]; intros [|b k] Hk; cbn [take le_val length] in *; try lia.
  - by rewrite Z.mod_1_r.
  - by rewrite Z.mod_1_r.
  - rewrite pow256_S, Z.rem_mul_r by lia. rewrite IH by lia. pose proof (b2z_range b).
    assert ((b2z b + 256 * le_val k) mod 256 = b2z b) as -> by (symmetry; apply Z.mod_unique with (le_val k); lia).
    assert ((b2z b + 256 * le_val k) / 256 = le_val k) as -> by (symmetry; apply Z.div_unique with (b2z b); lia). done.
Qed.

(** The integer type of a column, and the bits of its slots. *)
Definition whole_type (t : PrimitiveType) : option Whole :=
  match t with
  | kInt8 => Some (TInt 8) | kInt16 => Some (TInt 16) | kInt32 => Some (TInt 32) | kInt64 => Some (TInt 64)
  | kUint8 => Some (TUint 8) | kUint16 => Some (TUint 16) | kUint32 => Some (TUint 32) | kUint64 => Some (TUint 64)
  | _ => None
  end.

Lemma wrapS_mod w n z : 0 < w <= n -> wrapS w (z mod 2 ^ n) = wrapS w z.
Proof.
  intros Hw. rewrite <- (wrapS_wrapU w (wrapS w (z mod 2 ^ n))), <- (wrapS_wrapU w (wrapS w z)) by (try apply wrapS_range; lia).
  rewrite !wrapU_wrapS. change (z mod 2 ^ n) with (wrapU n z). by rewrite wrapU_wrapU_narrow by lia.
Qed.

Lemma wrapS_narrow w n z : 0 < w <= n -> wrapS w (wrapS n z) = wrapS w z.
Proof.
  intros Hw. rewrite <- (wrapS_mod w n (wrapS n z)), <- (wrapS_mod w n z) by lia.
  change (wrapS n z mod 2 ^ n) with (wrapU n (wrapS n z)). by rewrite wrapU_wrapS.
Qed.

Lemma readForOffset_same enc row : readForOffset enc row = for_read_offset (for_offsets enc) row (offset_bytes enc).
Proof. done. Qed.

Lemma decode_signed t w chunk j i z cc : columns chunk !! j = Some cc -> column_fits cc -> logical_type (col_descriptor cc) = t ->
  whole_type t = Some (TInt w) -> Chunk.readNumericAsInt64 chunk j i = Some z -> decodeWholeExact (TInt w) chunk j i = Some (wrapS w z).
Proof.
  intros Hcc Hfit Ht Hw Hz. unfold Chunk.readNumericAsInt64, decodeWholeExact, column_fits in *. rewrite Hcc in *. cbn [mbind option_bind] in *.
  assert (Hk : kind_of (col_descriptor cc) = storageKindOf t) by (unfold kind_of; by rewrite Ht). rewrite Hk in *.
  assert (Hcase : t = kInt32 /\ w = 32 \/ storageKindOf t = StorageKind.kInt64 /\ (w = 8 \/ w = 16 \/ w = 64)).
  { destruct t; cbn in Hw; simplify_eq; cbn; auto. }
  destruct (col_data cc) as [base|enc|enc|enc|enc].
  - unfold Chunk.read_raw_as in Hz. unfold decode_raw.
    destruct Hcase as [[-> ->]|[E Hw8]]; [|rewrite E in *]; cbn in Hz |- *; apply bind_Some in Hz as (v & -> & [= <-]); cbn; f_equal.
    + by rewrite !wrapS_narrow by lia.
    + by rewrite !(wrapS_narrow w 64) by lia.
  - destruct Hfit as [Hvk _]. unfold constantDecodeAsInt64 in Hz. rewrite Hvk in Hz.
    destruct Hcase as [[-> ->]|[E Hw8]].
    + cbn in Hz. apply bind_Some in Hz as (v & Hv & [= <-]). change (whole_bytes (TInt 32)) with 4%nat. rewrite Hv. cbn. by rewrite wrapS_narrow by lia.
    + rewrite E in Hz. apply bind_Some in Hz as (v & Hv & [= <-]).
      rewrite (load_narrow (whole_bytes (TInt w)) 8 0 _ v Hv) by (destruct Hw8 as [->|[->| ->]]; apply Nat.leb_le; reflexivity).
      cbn [fmap option_fmap option_map to_whole]. f_equal. rewrite (wrapS_narrow w 64 v) by lia. apply wrapS_mod.
      destruct Hw8 as [->|[->| ->]]; split; [lia|by apply Z.leb_le|lia|by apply Z.leb_le|lia|by apply Z.leb_le].
  - unfold forDecodeOneAsInt64 in Hz. rewrite readForOffset_same. apply bind_Some in Hz as (v & -> & [= <-]). done.
  - rewrite Hfit in *. destruct Hcase as [[-> _]|[? _]]; done.
  - rewrite Hfit in *. destruct Hcase as [[-> _]|[? _]]; done.
Qed.

Lemma decode_unsigned t w chunk j i n cc : columns chunk !! j = Some cc -> column_fits cc -> logical_type (col_descriptor cc) = t ->
  whole_type t = Some (TUint w) -> Chunk.readNumericAsUint64 chunk j i = Some n ->
  decodeWholeExact (TUint w) chunk j i = Some (wrapU w n).
Proof.
  intros Hcc Hfit Ht Hw Hd. unfold Chunk.readNumericAsUint64, decodeWholeExact, column_fits in *. rewrite Hcc in *. cbn [mbind option_bind] in *.
  assert (Hk : kind_of (col_descriptor cc) = StorageKind.kUint64 /\ (w = 8 \/ w = 16 \/ w = 32 \/ w = 64)).
  { unfold kind_of. rewrite Ht. destruct t; cbn in Hw; simplify_eq; cbn; auto. }
  destruct Hk as [Hk Hw8]. rewrite Hk in *.
  destruct (col_data cc) as [base|enc|enc|enc|enc]; [| |by destruct Hfit|done|done].
  - cbn in Hd |- *. apply bind_Some in Hd as (v & Hv & Hn). apply (inj Some) in Hn. subst n. rewrite Hv.
    rewrite (wrapU_small 64); [done|]. exact (load_range _ _ _ _ Hv).
  - destruct Hfit as [Hvk _]. unfold constantDecodeAsUint64 in Hd. rewrite Hvk in Hd.
    rewrite (load_narrow (whole_bytes (TUint w)) 8 0 _ n Hd)
      by (destruct Hw8 as [->|[->|[->| ->]]]; apply Nat.leb_le; reflexivity).
    cbn [fmap option_fmap option_map to_whole]. f_equal. change (n mod _) with (wrapU (8 * Z.of_nat (whole_bytes (TUint w))) n).
    apply wrapU_wrapU_narrow. destruct Hw8 as [->|[->|[->| ->]]]; split; [lia|by apply Z.leb_le|lia|by apply Z.leb_le|lia|by apply Z.leb_le|lia|by apply Z.leb_le].
Qed.

Definition floating_type (t : PrimitiveType) : option Floating :=
  match t with kFloat32 => Some TFloat | kFloat64 => Some TDouble | _ => None end.

Lemma decode_floating t T chunk j i d cc : columns chunk !! j = Some cc -> column_fits cc -> logical_type (col_descriptor cc) = t ->
  floating_type t = Some T -> Chunk.readNumericAsDouble chunk j i = Some d ->
  decodeFloatingExact T chunk j i = Some d /\ double_fits (value_arrow_type t) d.
Proof.
  intros Hcc Hfit Ht HT Hd. unfold Chunk.readNumericAsDouble, decodeFloatingExact, column_fits in *. rewrite Hcc in *. cbn [mbind option_bind] in *.
  assert (Hk : kind_of (col_descriptor cc) = StorageKind.kFloat32 /\ T = TFloat /\ value_arrow_type t = NANOARROW_TYPE_FLOAT
    \/ kind_of (col_descriptor cc) = StorageKind.kFloat64 /\ T = TDouble /\ value_arrow_type t = NANOARROW_TYPE_DOUBLE).
  { unfold kind_of. rewrite Ht. destruct t; cbn in HT; simplify_eq; cbn; auto. }
  assert (Hno : forall k, k <> StorageKind.kFloat32 -> k <> StorageKind.kFloat64 -> kind_of (col_descriptor cc) = k -> False).
  { intros k H1 H2 E. destruct Hk as [(Hk & _ & _)|(Hk & _ & _)]; congruence. }
  destruct (col_data cc) as [base|enc|enc|enc|enc];
    [| |exfalso; destruct Hfit as [Hfit|Hfit]|exfalso|exfalso];
    try (refine (Hno _ _ _ Hfit); discriminate).
  - unfold Chunk.read_raw_as in Hd. unfold decode_raw. destruct Hk as [(Hk & -> & ->)|(Hk & -> & ->)]; rewrite Hk in *;
      apply bind_Some in Hd as (v & Hv & Hd); apply (inj Some) in Hd; subst d; cbn [load_floating]; rewrite Hv.
    + split; [reflexivity|right; split; [reflexivity|exists v; split; [exact (load_range _ _ _ _ Hv)|reflexivity]]].
    + split; [reflexivity|left; split; [reflexivity|exists v; split; [exact (load_range _ _ _ _ Hv)|reflexivity]]].
  - destruct Hfit as [Hvk _]. unfold constantDecodeAsDouble in Hd. rewrite Hvk in Hd. destruct Hk as [(Hk & -> & ->)|(Hk & -> & ->)]; rewrite Hk in *;
      apply bind_Some in Hd as (v & Hv & Hd); apply (inj Some) in Hd; subst d; cbn [load_floating]; rewrite Hv.
    + split; [reflexivity|right; split; [reflexivity|exists v; split; [exact (load_range _ _ _ _ Hv)|reflexivity]]].
    + split; [reflexivity|left; split; [reflexivity|exists v; split; [exact (load_range _ _ _ _ Hv)|reflexivity]]].
Qed.

(** ** The rows of a series *)

(** The values a log has for a field. *)
Definition field_values (path : string) (log : list LogRecord) : list (option Value) :=
  map (fun r : LogRecord => r.2 !! path) log.

(** What a row of the array shows for the value a record has for the field, where
    [vs] are the values of the log: integers in the width of the type, floats
    but for the sign of a zero.  An unsigned integer of [2^53] or more may be
    another one of the log that rounds to the same double ([conflated]). *)
Definition cell_shows (vs : list (option Value)) (t : PrimitiveType) (v : option Value) (x : option ArrowCell) : Prop :=
  match v, x with
  | None, None => True
  | Some (VInt32 z), Some (AInt z') | Some (VInt64 z), Some (AInt z') =>
      exists w, whole_type t = Some (TInt w) /\ z' = wrapS w z
  | Some (VUint64 z), Some (AUint z') =>
      exists w n, whole_type t = Some (TUint w) /\ z' = wrapU w n
        /\ (n = z \/ conflated n z /\ Some (VUint64 n) ∈ vs)
  | Some ((VFloat32 _ | VFloat64 _) as v), Some (ADouble d) =>
      (d = Builder.value_as_double v \/ f64_is_zero d = true /\ f64_is_zero (Builder.value_as_double v) = true)
      /\ double_fits (value_arrow_type t) d
  | Some (VBool b), Some (AInt z) => t = kBool /\ z = (if b then 1 else 0)
  | Some (VString s), Some (AText s') => t = kString /\ s' = s
  | _, _ => False
  end.

(** The struct array of a series. *)
Definition series_of (t : PrimitiveType) (ct : Content) (times : list Z) (cells : list (option ArrowCell)) : Prop :=
  ct = mkContent [NANOARROW_TYPE_INT64; value_arrow_type t] [map (fun z => Some (AInt z)) times; cells] (length times)
  /\ length cells = length times.

Section Series.
Context {A : Type} `{ArrowBuilderLaws A}.

Section Shown.
Context (vs : list (option Value)).

Lemma push_left x t l r n : push 0 x (mkContent t [l; r] n) = mkContent t [l ++ [x]; r] n.
Proof. done. Qed.
Lemma push_right x t l r n : push 1 x (mkContent t [l; r] n) = mkContent t [l; r ++ [x]] n.
Proof. done. Qed.

Definition value_text (v : option Value) : nat := match v with Some (VString s) => length s | _ => 0%nat end.

(** The value child takes a cell that shows [v]. *)
Definition takes (r : option (option A)) a t (v : Value) : Prop :=
  exists a' x, r = Some (Some a') /\ content a' = push 1 x (content a) /\ cell_shows vs t (Some v) x /\ cell_text x = value_text (Some v).

Lemma signed_taken a t w z v : whole_type t = Some (TInt w) -> ct_types (content a) !! 1%nat = Some (value_arrow_type t) ->
  v = VInt32 z \/ v = VInt64 z -> takes (Some (ArrowArrayAppendInt a 1 (wrapS w z))) a t v.
Proof.
  intros Hw Hty Hv. destruct (AppendInt_ok a 1 (value_arrow_type t) (wrapS w z) Hty) as (a' & Ha & Hc).
  { destruct t; cbn in Hw; simplify_eq; cbn; by apply wrapS_range. }
  exists a', (Some (AInt (wrapS w z))). split; [by rewrite Ha|]. split; [done|]. destruct Hv as [-> | ->]; (split; [by exists w|done]).
Qed.

Lemma unsigned_taken a t w n z : whole_type t = Some (TUint w) -> ct_types (content a) !! 1%nat = Some (value_arrow_type t) ->
  n = z \/ conflated n z /\ Some (VUint64 n) ∈ vs -> takes (Some (ArrowArrayAppendUInt a 1 (wrapU w n))) a t (VUint64 z).
Proof.
  intros Hw Hty Hn. destruct (AppendUInt_ok a 1 (value_arrow_type t) (wrapU w n) Hty) as (a' & Ha & Hc).
  { destruct t; cbn in Hw; simplify_eq; cbn; by apply wrapU_range. }
  exists a', (Some (AUint (wrapU w n))). split; [by rewrite Ha|]. split; [done|]. split; [by exists w, n|done].
Qed.

Lemma floating_taken a t T d v : floating_type t = Some T -> ct_types (content a) !! 1%nat = Some (value_arrow_type t) ->
  double_fits (value_arrow_type t) d -> kind_of_value v = storageKindOf t ->
  d = Builder.value_as_double v \/ f64_is_zero d = true /\ f64_is_zero (Builder.value_as_double v) = true ->
  takes (Some (ArrowArrayAppendDouble a 1 d)) a t v.
Proof.
  intros HT Hty Hf Hk Hd. destruct (AppendDouble_ok a 1 (value_arrow_type t) d Hty Hf) as (a' & Ha & Hc).
  exists a', (Some (ADouble d)). split; [by rewrite Ha|]. split; [done|].
  destruct t; cbn in HT; simplify_eq; destruct v; try discriminate Hk; (split; [split; [exact Hd|exact Hf]|reflexivity]).
Qed.

(** The value of a cell is appended. *)
Lemma series_value_ok a t chunk j i v cc cells :
  columns chunk !! j = Some cc -> column_fits cc -> logical_type (col_descriptor cc) = t -> t <> kUnspecified ->
  cell_reads chunk j i (Some v) -> kind_of_value v = storageKindOf t ->
  (forall n, storageKindOf t = StorageKind.kUint64 -> first_row_repeated chunk j i n -> Some (VUint64 n) ∈ vs) ->
  ct_types (content a) !! 1%nat = Some (value_arrow_type t) -> ct_cells (content a) !! 1%nat = Some cells ->
  Z.of_nat (texts cells + value_text (Some v)) < 2 ^ 31 -> takes (series_value t a chunk j i) a t v.
Proof.
  intros Hcc Hfit Ht Hu [_ Hread] Hkind Hfirst Hty Hcells Htext.
  assert (Hsigned : forall w z, whole_type t = Some (TInt w) -> v = VInt32 z \/ v = VInt64 z ->
    exists r, decodeWholeExact (TInt w) chunk j i = Some r /\ takes (Some (ArrowArrayAppendInt a 1 r)) a t v).
  { intros w z Hw Hv. exists (wrapS w z). split; [|by apply (signed_taken a t w z)].
    eapply decode_signed; try done. by destruct Hv as [-> | ->]. }
  assert (Hunsigned : forall w z, whole_type t = Some (TUint w) -> v = VUint64 z ->
    exists r, decodeWholeExact (TUint w) chunk j i = Some r /\ takes (Some (ArrowArrayAppendUInt a 1 r)) a t v).
  { intros w z Hw ->. destruct Hread as (n & Hn & _ & Hsame). exists (wrapU w n).
    split; [by apply (decode_unsigned t w chunk j i n cc)|]. eapply unsigned_taken; [done..|].
    destruct Hsame as [->|[Hc Hf]]; [by left|right]. split; [done|apply Hfirst; [done|exact Hf]]. }
  assert (Hfloating : forall T, floating_type t = Some T ->
    exists d, decodeFloatingExact T chunk j i = Some d /\ takes (Some (ArrowArrayAppendDouble a 1 d)) a t v).
  { intros T HT. assert (exists d, Chunk.readNumericAsDouble chunk j i = Some d /\ (d = Builder.value_as_double v
      \/ constant_column chunk j /\ f64_is_zero d = true /\ f64_is_zero (Builder.value_as_double v) = true)) as (d & Hd & Hsame).
    { destruct t; cbn in HT; try discriminate HT; destruct v; try discriminate Hkind; exact Hread. }
    destruct (decode_floating t T chunk j i d cc Hcc Hfit Ht HT Hd) as [Hdec Hf]. exists d. split; [done|].
    eapply floating_taken; [done..|]. destruct Hsame as [->|[_ Hz]]; [by left|by right]. }
  destruct t; destruct v; try discriminate Hkind; try done; cbn [series_value];
    try (edestruct Hsigned as (r & -> & Hr); [reflexivity|eauto|exact Hr]);
    try (edestruct Hunsigned as (r & -> & Hr); [reflexivity|eauto|exact Hr]);
    try (edestruct Hfloating as (r & -> & Hr); [reflexivity|exact Hr]).
  - rewrite Hread. destruct (AppendInt_ok a 1 NANOARROW_TYPE_BOOL (if b then 1 else 0) Hty) as (a' & Ha & Hc); [destruct b; cbn; auto|].
    cbn [mbind option_bind]. rewrite Ha. by eexists a', _.
  - rewrite Hread. destruct (AppendString_ok a 1 s cells Hty Hcells Htext) as (a' & Ha & Hc).
    cbn [mbind option_bind]. rewrite Ha. by eexists a', _.
Qed.

(** A row, and the rows of a chunk. *)
Lemma series_row_ok a t chunk j i v z cc times cells :
  columns chunk !! j = Some cc -> column_fits cc -> logical_type (col_descriptor cc) = t -> t <> kUnspecified ->
  Chunk.readTimestamp chunk i = Some z -> in_s 64 z -> cell_reads chunk j i v ->
  (forall v', v = Some v' -> kind_of_value v' = storageKindOf t) ->
  (forall n, storageKindOf t = StorageKind.kUint64 -> first_row_repeated chunk j i n -> Some (VUint64 n) ∈ vs) ->
  series_of t (content a) times cells -> Z.of_nat (texts cells + value_text v) < 2 ^ 31 ->
  exists a' x, series_row t a chunk j i = Some (Ok a') /\ series_of t (content a') (times ++ [z]) (cells ++ [x])
    /\ cell_shows vs t v x /\ cell_text x = value_text v.
Proof.
  intros Hcc Hfit Ht Hu Htime Hz Hcell Hkind Hfirst [Ha Hlen] Htext. unfold series_row. rewrite Htime. cbn [mbind option_bind].
  destruct (AppendInt_ok a 0 NANOARROW_TYPE_INT64 z) as (a1 & -> & Ha1); [by rewrite Ha|done|].
  pose proof Ha1 as Hpush. rewrite Ha, push_left in Ha1. destruct Hcell as [Hnull Hread]. rewrite Hnull. cbn [mbind option_bind].
  assert (Hnext : exists r a2 x, (if bool_decide (v = None) then
       Some match ArrowArrayAppendNull a1 1 with None => Err "readSeriesArrow: null append failed" | Some a => Ok a end
     else r ← series_value t a1 chunk j i; Some match r with None => Err "readSeriesArrow: value append failed" | Some a => Ok a end)
     = Some r /\ r = Ok a2 /\ content a2 = push 1 x (content a1) /\ cell_shows vs t v x /\ cell_text x = value_text v).
  { destruct v as [v|].
    - rewrite bool_decide_eq_false_2 by done.
      destruct (series_value_ok a1 t chunk j i v cc cells Hcc Hfit Ht Hu) as (a2 & x & -> & Hc & Hs & Hx);
        [by split|by apply Hkind|exact Hfirst|by rewrite Ha1|by rewrite Ha1|done|]. cbn [mbind option_bind]. by exists (Ok a2), a2, x.
    - rewrite bool_decide_eq_true_2 by done. destruct (AppendNull_ok a1 1) as (a2 & -> & Hc); [rewrite Ha1; cbn; lia|].
      by exists (Ok a2), a2, None. }
  destruct Hnext as (r & a2 & x & -> & -> & Hc & Hs & Hx). cbn [mbind option_bind]. rewrite Ha1, push_right in Hc.
  destruct (FinishElement_ok a2) as (a3 & -> & Hc3).
  { rewrite Hc. cbn [ct_cells ct_elements]. repeat apply Forall_cons_2; [..|constructor]; rewrite length_app, ?length_map; cbn [length]; lia. }
  exists a3, x. split; [done|]. split; [|done]. rewrite Hc in Hc3. cbn in Hc3. split; [|by rewrite !length_app, Hlen].
  rewrite Hc3, map_app, length_app. cbn. f_equal. lia.
Qed.

(** The values of a field, by record. *)
Definition shown t (path : string) (recs : list LogRecord) (times : list Z) (cells : list (option ArrowCell)) : Prop :=
  times = map fst recs /\ Forall2 (fun r x => cell_shows vs t (r.2 !! path) x) recs cells.

Definition record_texts (path : string) (recs : list LogRecord) : nat := sum_list (map (fun r : LogRecord => value_text (r.2 !! path)) recs).

Lemma texts_app l k : texts (l ++ k) = (texts l + texts k)%nat.
Proof. unfold texts. by rewrite map_app, sum_list_with_app || (induction l as [|x l IH]; cbn; [done|]; rewrite IH; lia). Qed.

Lemma record_texts_app path l k : record_texts path (l ++ k) = (record_texts path l + record_texts path k)%nat.
Proof. unfold record_texts. rewrite map_app. generalize (map (fun r : LogRecord => value_text (r.2 !! path)) l). intros m. induction m as [|x m IH]; cbn; [done|]. rewrite IH. lia. Qed.

(** The first row of a chunk is a record that was given the value it reads as. *)
Lemma first_row_value ds chunk recs j i n cc t : chunk_records ds chunk recs -> columns chunk !! j = Some cc ->
  logical_type (col_descriptor cc) = t -> storageKindOf t = StorageKind.kUint64 -> (i < length recs)%nat ->
  first_row_repeated chunk j i n -> Some (VUint64 n) ∈ field_values (field_path (col_descriptor cc)) recs.
Proof.
  intros Hch Hcc Ht Hk Hi (_ & _ & Hnull & Hread). destruct (lookup_lt_is_Some_2 recs 0) as [r Hr]; [lia|].
  apply list_elem_of_fmap. exists r. pose proof (list_elem_of_lookup_2 _ _ _ Hr) as Hin. split; [|done].
  destruct (cr_cells _ _ _ Hch 0%nat r j cc Hr Hcc) as [Hn Hv]. rewrite Hnull in Hn. apply (inj Some) in Hn. symmetry in Hn.
  apply bool_decide_eq_false in Hn. destruct (r.2 !! field_path (col_descriptor cc)) as [v|] eqn:Ev; [|done].
  pose proof (cr_kinds _ _ _ Hch r j cc v Hin Hcc Ev) as Hkv. unfold kind_of in Hkv. rewrite Ht, Hk in Hkv.
  destruct v; try done. destruct Hv as (m & Hm & _ & [->|(_ & _ & Hne & _)]); [congruence|done].
Qed.

Lemma series_rows_ok a0 t ds chunk recs j cc n : chunk_records ds chunk recs -> columns chunk !! j = Some cc ->
  logical_type (col_descriptor cc) = t -> t <> kUnspecified -> forall times0 cells0,
  series_of t (content a0) times0 cells0 ->
  let path := field_path (col_descriptor cc) in
  field_values path recs ⊆ vs ->
  Z.of_nat (texts cells0 + record_texts path recs) < 2 ^ 31 -> (n <= length recs)%nat ->
  exists a cells, series_rows t a0 chunk j (seq 0 n) = Some (Ok a)
    /\ series_of t (content a) (times0 ++ map fst (take n recs)) (cells0 ++ cells)
    /\ Forall2 (fun r x => cell_shows vs t (r.2 !! path) x) (take n recs) cells
    /\ texts cells = record_texts path (take n recs).
Proof.
  intros Hch Hcc Ht Hu times0 cells0 Ha path Hvs Htext. induction n as [|n IH]; intros Hn.
  - exists a0, []. cbn. by rewrite !app_nil_r.
  - destruct IH as (a & cells & Hr & Ha' & Hs & Hx); [lia|].
    assert (Happ : forall l k a, series_rows t a chunk j (l ++ k)
      = (r ← series_rows t a chunk j l; match r with Err e => Some (Err e) | Ok a => series_rows t a chunk j k end)).
    { intros l k. induction l as [|i l IHl]; intros b; [done|]. cbn [app series_rows].
      destruct (series_row t b chunk j i) as [[b'|e]|]; [cbn [mbind option_bind]; apply IHl|done|done]. }
    rewrite seq_S, Happ, Hr. cbn [mbind option_bind series_rows plus].
    destruct (lookup_lt_is_Some_2 recs n) as [r Hrn]; [lia|].
    assert (Htk : take (S n) recs = take n recs ++ [r]) by by apply take_S_r. rewrite Htk in *.
    assert (Hle : (record_texts path (take n recs) + value_text (r.2 !! path) <= record_texts path recs)%nat).
    { assert (record_texts path recs = record_texts path (take (S n) recs ++ drop (S n) recs)) as -> by by rewrite take_drop.
      rewrite Htk, !record_texts_app. unfold record_texts. cbn. lia. }
    assert (Htime : timestamps chunk !! n = Some r.1) by (rewrite (cr_times _ _ _ Hch), list_lookup_fmap, Hrn; done).
    destruct (series_row_ok a t chunk j n (r.2 !! path) r.1 cc (times0 ++ map fst (take n recs)) (cells0 ++ cells))
      as (a' & x & -> & Ha2 & Hs2 & Hx2); try done.
    + pose proof (cr_fits _ _ _ Hch) as Hf. rewrite Forall_forall in Hf. apply Hf. by eapply list_elem_of_lookup_2.
    + pose proof (cw_range _ (cr_wf _ _ _ Hch)) as Hf. rewrite Forall_forall in Hf. apply Hf. by eapply list_elem_of_lookup_2.
    + by eapply (cr_cells _ _ _ Hch).
    + intros v' Hv. rewrite <- Ht. by eapply (cr_kinds _ _ _ Hch), Hv; [eapply list_elem_of_lookup_2|].
    + intros m Hk Hm. apply Hvs. by eapply first_row_value.
    + rewrite texts_app, Hx. lia.
    + exists a', (cells ++ [x]). cbn [mbind option_bind]. split; [done|]. rewrite map_app, !app_assoc. split; [done|].
      split; [by apply Forall2_app; [|constructor]|]. rewrite texts_app, record_texts_app, Hx. cbn. by rewrite Hx2.
Qed.

(** The chunks without the column are left out: the records that have no value for it. *)
Inductive kept (path : string) : list LogRecord -> list LogRecord -> Prop :=
| kept_nil : kept path [] []
| kept_take r l l' : kept path l l' -> kept path (r :: l) (r :: l')
| kept_drop r l l' : r.2 !! path = None -> kept path l l' -> kept path (r :: l) l'.

Lemma kept_all path l : kept path l l.
Proof. induction l; by constructor. Qed.

Lemma kept_none path l : Forall (fun r : LogRecord => r.2 !! path = None) l -> kept path l [].
Proof. induction 1; by constructor. Qed.

Lemma kept_app path a a' b b' : kept path a a' -> kept path b b' -> kept path (a ++ b) (a' ++ b').
Proof. intros Ha Hb. induction Ha; cbn; [done|by constructor|by constructor]. Qed.

(** The column of a chunk with the id [k]: the columns are the first of the layout. *)
Lemma column_index_dense ds cols k : dense ds -> map col_descriptor cols `prefix_of` ds ->
  column_index cols (Z.of_nat k) = if decide (k < length cols)%nat then Some k else None.
Proof.
  intros Hd [more Hp].
  assert (Hgen : forall cols i, (forall j cc, cols !! j = Some cc -> field_id (col_descriptor cc) = Z.of_nat (i + j)) -> (i <= k)%nat ->
    column_index cols (Z.of_nat k) = if decide (k - i < length cols)%nat then Some (k - i)%nat else None).
  { clear. intros cols. induction cols as [|cc cols IH]; intros i Hi Hk; [done|]. cbn [column_index length].
    rewrite (Hi 0%nat cc eq_refl). destruct (Z.eqb_spec (Z.of_nat (i + 0)) (Z.of_nat k)) as [E|E].
    - replace (k - i)%nat with 0%nat by lia. by rewrite decide_True by lia.
    - rewrite (IH (S i)); [|intros j cc' Hj; rewrite (Hi (S j) cc' Hj); f_equal; lia|lia].
      destruct (decide (k - S i < length cols)%nat); [rewrite decide_True by lia; cbn; f_equal; lia|by rewrite decide_False by lia]. }
  rewrite (Hgen cols 0%nat), Nat.sub_0_r by (try lia; intros j cc Hj; cbn [plus]; apply Hd; rewrite Hp; apply lookup_app_l_Some; by rewrite list_lookup_fmap, Hj).
  done.
Qed.

Lemma series_chunks_ok t ds k d : dense ds -> NoDup (map field_path ds) -> ds !! k = Some d -> logical_type d = t -> t <> kUnspecified ->
  forall cs groups, Forall2 (chunk_records ds) cs groups -> forall a times0 cells0,
  series_of t (content a) times0 cells0 ->
  field_values (field_path d) (concat groups) ⊆ vs ->
  Z.of_nat (texts cells0 + record_texts (field_path d) (concat groups)) < 2 ^ 31 ->
  exists a' cells log, series_chunks t (Z.of_nat k) a cs = Some (Ok a') /\ kept (field_path d) (concat groups) log
    /\ series_of t (content a') (times0 ++ map fst log) (cells0 ++ cells)
    /\ Forall2 (fun r x => cell_shows vs t (r.2 !! field_path d) x) log cells.
Proof.
  intros Hdense Hnd Hk Ht Hu cs groups Hch. induction Hch as [|chunk recs cs groups Hch Hall IH]; intros a times0 cells0 Ha Hvs Htext.
  { exists a, [], []. cbn. rewrite !app_nil_r. split_and!; [done|constructor|done|constructor]. }
  cbn [series_chunks concat] in *. rewrite record_texts_app in Htext. unfold field_values in Hvs. rewrite map_app in Hvs. fold (field_values (field_path d) recs) in Hvs. fold (field_values (field_path d) (concat groups)) in Hvs. rewrite (column_index_dense ds) by (try done; apply Hch).
  assert (Hcol : forall j cc, columns chunk !! j = Some cc -> ds !! j = Some (col_descriptor cc)).
  { intros j cc Hj. eapply prefix_lookup_Some; [|apply Hch]. by rewrite list_lookup_fmap, Hj. }
  case_decide as Hlt; cycle 1.
  - destruct (IH a times0 cells0 Ha) as (a' & cells & log & Hr & Hkept & Hs & Hx); [set_solver|lia|].
    exists a', cells, log. split_and!; [done| |done|done]. apply (kept_app _ recs [] _ log); [|done].
    apply kept_none, Forall_forall. intros r Hr'. destruct (r.2 !! field_path d) as [v|] eqn:Ev; [|done]. exfalso.
    apply list_elem_of_lookup in Hr' as [i Hi]. destruct (cr_fields _ _ _ Hch i r _ v Hi Ev) as (j & cc & Hj & Hp).
    assert (j = k) as ->; [|by apply lookup_lt_Some in Hj].
    apply (NoDup_lookup (map field_path ds) j k (field_path d) Hnd); rewrite list_lookup_fmap; [by rewrite (Hcol j cc Hj), <- Hp|by rewrite Hk].
  - destruct (lookup_lt_is_Some_2 (columns chunk) k Hlt) as [cc Hcc].
    assert (col_descriptor cc = d) as Hd by (pose proof (Hcol k cc Hcc); congruence).
    rewrite (cw_rows _ (cr_wf _ _ _ Hch)), Nat2Z.id, (cr_times _ _ _ Hch), length_map.
    destruct (series_rows_ok a t ds chunk recs k cc (length recs) Hch Hcc ltac:(by rewrite Hd) Hu times0 cells0 Ha)
      as (a1 & cells1 & -> & Ha1 & Hs1 & Hx1); [rewrite Hd; set_solver|rewrite Hd; lia|done|]. rewrite firstn_all, Hd in *. cbn [mbind option_bind].
    destruct (IH a1 _ _ Ha1) as (a' & cells & log & Hr & Hkept & Hs & Hx); [set_solver|rewrite texts_app, Hx1; lia|].
    exists a', (cells1 ++ cells), (recs ++ log). split_and!; [done|by apply kept_app; [apply kept_all|]| |by apply Forall2_app].
    by rewrite map_app, !app_assoc.
Qed.

End Shown.

Lemma stored_in_range ds cs groups : Forall2 (chunk_records ds) cs groups -> Forall (in_s 64) (map fst (concat groups)).
Proof.
  induction 1 as [|chunk recs cs groups Hch _ IH]; [constructor|]. cbn [concat]. rewrite map_app, Forall_app. split; [|done].
  rewrite <- (cr_times _ _ _ Hch). apply (cw_range _ (cr_wf _ _ _ Hch)).
Qed.

Lemma kept_range path l l' : kept path l l' -> Forall (in_s 64) (map fst l) -> Forall (in_s 64) (map fst l').
Proof. induction 1; cbn; [done|intros [? ?]%Forall_cons; constructor; eauto|intros [? ?]%Forall_cons; eauto]. Qed.

(** A toolbox that reads a field of a topic gets one row for every stored record
    that could have it, in their order: its time, and the value of the field,
    whatever the encodings of the chunks, in the width of the type of the field,
    or null.  The records that are left out have no value for the field. *)
Lemma series_read (c : WriteCore) logs topic s k d :
  engine_logs (Host.engine_ c) logs -> topics (Host.engine_ c) !! topic = Some s ->
  column_at (Host.engine_ c) topic k d -> logical_type d <> kUnspecified ->
  Z.of_nat (record_texts (field_path d) (logs topic)) < 2 ^ 31 ->
  exists schema a0 a log cells,
    readSeriesArrow c (mkFieldHandle topic k) true = Some (Host.setError c "", Some (schema, a))
    /\ schema_types schema = [NANOARROW_TYPE_INT64; value_arrow_type (logical_type d)]
    /\ ArrowArrayFinishBuildingDefault a0 = Ok a
    /\ kept (field_path d) (logs topic) log /\ Forall (in_s 64) (map fst log)
    /\ series_of (logical_type d) (content a) (map fst log) cells
    /\ Forall2 (fun r x => cell_shows (field_values (field_path d) (logs topic)) (logical_type d) (r.2 !! field_path d) x) log cells.
Proof.
  intros Hlogs Hs (_ & i & Hi & ->) Hu Htext. pose proof (el_settled _ _ Hlogs topic s Hs) as Hset.
  rewrite (layout_of_Some _ _ _ Hs) in Hi. destruct (el_stored _ _ Hlogs topic s Hs) as (groups & Hg & Hch).
  unfold readSeriesArrow, Engine.getTopicStorage. cbn [negb fh_topic fh_id]. rewrite Hs, (effective_layout _ _ Hset).
  rewrite (find_descriptor_at _ i d (st_dense _ _ Hset) Hi).
  assert (exists schema, series_schema (logical_type d) (field_path d) = Ok schema
    /\ schema_types schema = [NANOARROW_TYPE_INT64; value_arrow_type (logical_type d)]) as (schema & -> & Htypes).
  { unfold series_schema. destruct (SetTypeStruct_ok 2) as (s0 & -> & E0).
    destruct (SetType_ok s0 0 NANOARROW_TYPE_INT64) as (s1 & -> & E1); [done|lia|]. cbn [mbind option_bind].
    destruct (SetName_ok s1 0 "timestamp") as (s2 & -> & E2); [rewrite E1, length_insert; lia|].
    destruct (SetType_ok s2 1 (value_arrow_type (logical_type d))) as (s3 & -> & E3); [by destruct (logical_type d)|rewrite E2, E1, length_insert; lia|]. cbn [mbind option_bind].
    destruct (SetName_ok s3 1 (field_path d)) as (s4 & -> & E4); [rewrite E3, length_insert, E2, E1, length_insert; lia|].
    exists s4. split; [done|]. rewrite E4, E3, E2, E1. by destruct (schema_types s0) as [|x [|y [|z l]]]. }
  unfold series_array. destruct (InitFromSchema_ok schema) as (a0 & -> & Ha0). rewrite Htypes in Ha0.
  destruct (StartAppending_ok a0) as (a1 & -> & Ha1); [by rewrite Ha0|]. rewrite Ha0 in Ha1.
  destruct (series_chunks_ok (field_values (field_path d) (logs topic)) (logical_type d) (layout (Host.engine_ c) s) i d (st_dense _ _ Hset) (st_paths _ _ Hset) Hi eq_refl Hu
    (sealed_chunks_ s) groups Hch a1 [] []) as (a2 & cells & log & -> & Hkept & Hser & Hcells); [by split|by rewrite <- Hg|by rewrite <- Hg|].
  cbn [mbind option_bind app] in *. destruct (FinishBuilding_ok a2) as (a3 & Hfin & Ha3). rewrite Hfin.
  exists schema, a2, a3, log, cells. rewrite Hg in Hcells |- *. rewrite Ha3. split_and!; try done. eapply kept_range; [done|]. by eapply stored_in_range.
Qed.

End Series.

(** ** Builders that keep lists of cells *)

Definition type_format (type : ArrowType) : string :=
  match type with
  | NANOARROW_TYPE_BOOL => "b" | NANOARROW_TYPE_INT8 => "c" | NANOARROW_TYPE_UINT8 => "C" | NANOARROW_TYPE_INT16 => "s"
  | NANOARROW_TYPE_UINT16 => "S" | NANOARROW_TYPE_INT32 => "i" | NANOARROW_TYPE_UINT32 => "I" | NANOARROW_TYPE_INT64 => "l"
  | NANOARROW_TYPE_UINT64 => "L" | NANOARROW_TYPE_FLOAT => "f" | NANOARROW_TYPE_DOUBLE => "g" | NANOARROW_TYPE_STRING => "u"
  | NANOARROW_TYPE_LARGE_STRING => "U" | _ => "n"
  end.

Definition all_types : list ArrowType :=
  [NANOARROW_TYPE_NA; NANOARROW_TYPE_BOOL; NANOARROW_TYPE_INT8; NANOARROW_TYPE_UINT8; NANOARROW_TYPE_INT16; NANOARROW_TYPE_UINT16;
   NANOARROW_TYPE_INT32; NANOARROW_TYPE_UINT32; NANOARROW_TYPE_INT64; NANOARROW_TYPE_UINT64; NANOARROW_TYPE_FLOAT;
   NANOARROW_TYPE_DOUBLE; NANOARROW_TYPE_STRING; NANOARROW_TYPE_LARGE_STRING].

Definition schema_type (s : ArrowSchema) : ArrowType :=
  default NANOARROW_TYPE_NA (snd <$> list_find (fun t => format s = Some (type_format t)) all_types).

Definition with_child (s : ArrowSchema) (k : nat) (f : ArrowSchema -> ArrowSchema) : option ArrowSchema :=
  Some (mkSchema (format s) (schema_name s) (alter f k (schema_children s))).

#[export] Instance list_builder : ArrowBuilder Content := {|
  ArrowSchemaSetTypeStruct n := Some (mkSchema (Some "+s"%string) None (replicate n (mkSchema None None [])));
  ArrowSchemaSetType s k type := with_child s k (fun c => mkSchema (Some (type_format type)) (schema_name c) []);
  ArrowSchemaSetName s k name := with_child s k (fun c => mkSchema (format c) (Some name) (schema_children c));
  ArrowArrayInitFromSchema s :=
    let types := map schema_type (schema_children s) in Ok (mkContent types (map (fun _ => []) types) 0);
  ArrowArrayStartAppending := Some;
  ArrowArrayAppendNull a k := Some (push k None a);
  ArrowArrayAppendInt a k z := Some (push k (Some (AInt z)) a);
  ArrowArrayAppendUInt a k z := Some (push k (Some (AUint z)) a);
  ArrowArrayAppendDouble a k d := Some (push k (Some (ADouble d)) a);
  ArrowArrayAppendString a k s := Some (push k (Some (AText s)) a);
  ArrowArrayFinishElement a := Some (mkContent (ct_types a) (ct_cells a) (S (ct_elements a)));
  ArrowArrayFinishBuildingDefault := Ok
|}.

Lemma schema_type_format c name type : (forall code, type <> NANOARROW_TYPE_OTHER code) ->
  schema_type (mkSchema (Some (type_format type)) name c) = type.
Proof. intros Ht. destruct type; try reflexivity. by destruct (Ht code). Qed.

Lemma map_alter {A B} (f : A -> B) (g : A -> A) k l : map f (alter g k l) = match l !! k with Some x => <[k := f (g x)]> (map f l) | None => map f l end.
Proof. revert k. induction l as [|x l IH]; intros [|k]; cbn; try done. change (map f (alter g k l)) with (map f (alter g k l)). rewrite IH. by destruct (l !! k). Qed.

#[export] Instance list_builder_laws : ArrowBuilderLaws Content.
Proof.
  refine {| schema_types s := map schema_type (schema_children s); content a := a |}; cbn; intros.
  - eexists. split; [done|]. cbn. by rewrite length_map, length_replicate.
  - eexists. split; [done|]. cbn. rewrite map_alter. rewrite length_map in *. destruct (lookup_lt_is_Some_2 (schema_children s) k) as [x ->]; [done|].
    by rewrite schema_type_format.
  - eexists. split; [done|]. cbn. rewrite map_alter. rewrite length_map in *. destruct (lookup_lt_is_Some_2 (schema_children s) k) as [x Hx]; [done|].
    rewrite Hx. apply list_insert_id. by rewrite list_lookup_fmap, Hx.
  - by eexists.
  - by eexists.
  - by eexists.
  - by eexists.
  - by eexists.
  - by eexists.
  - by eexists.
  - by eexists.
  - by eexists.
Defined.
