(* ===== verification/SeriesView.v ===== *)
(** * SeriesView: a series as a toolbox sees it

    Models [MaterializedSeriesView], [readSeries] and [formatToPrimitiveType] of
    [src/pj_base/include/pj_base/sdk/plugin_data_api.hpp], over the series of
    [SeriesArrow].  How a finished array lies in memory is documented by the Arrow
    format: [ArrowExportLaws].  The theorem: what a toolbox reads through the view
    are the records of the topic.  A struct that is released is [None]. *)

From Stdlib Require Import Ascii.
From S2P Require Import Prelude Types TypeTree TypeRegistry Float64 Buffer Encoding Column Chunk Query TopicStorage Engine Writer Ingest Layout WriterState Records Host HostState HostLog HostRun HostDemo Sdk ArrowImport SeriesArrow.

(** ** The view *)

(** The first character of the format; the empty text and a null pointer have none. *)
Definition formatToPrimitiveType (fmt : option string) : PrimitiveType :=
  match fmt with
  | None | Some EmptyString => kUnspecified
  | Some (String c _) =>
      match c with
      | "b" => kBool | "c" => kInt8 | "C" => kUint8 | "s" => kInt16 | "S" => kUint16 | "i" => kInt32 | "I" => kUint32
      | "l" => kInt64 | "L" => kUint64 | "f" => kFloat32 | "g" => kFloat64 | "u" | "U" | "z" | "Z" => kString
      | _ => kUnspecified
      end%char
  end.

Record MaterializedSeriesView := mkSeriesView { view_schema : option ArrowSchema; view_array : option ArrowArray }.

Module SeriesView.

(** The two structs, if the view is valid. *)
Definition structs (v : MaterializedSeriesView) : option (ArrowSchema * ArrowArray) :=
  s ← view_schema v;
  a ← view_array v;
  if decide (2 <= length (schema_children s) /\ 2 <= length (array_children a))%nat then Some (s, a) else None.

Definition valid (v : MaterializedSeriesView) : bool := bool_decide (is_Some (structs v)).

Definition rowCount (v : MaterializedSeriesView) : Z :=
  match view_array v with Some a => u64 (array_length a) | None => 0 end.

Definition type (v : MaterializedSeriesView) : PrimitiveType :=
  match structs v with
  | None => kUnspecified
  | Some (s, _) => match schema_children s !! 1%nat with Some c => formatToPrimitiveType (format c) | None => kUnspecified end
  end.

(** What the span shows: [None] if it reaches out of the buffer. *)
Definition timestamps (v : MaterializedSeriesView) : option (list Z) :=
  match structs v with
  | None => Some []
  | Some (_, a) =>
      ts ← array_children a !! 0%nat;
      if decide (length (buffers ts) < 2)%nat then Some []
      else mapM (fun i => data ← mjoin (buffers ts !! 1%nat); i64 <$> load 8 (i * 8) data) (seq 0 (Z.to_nat (array_length ts)))
  end.

(** The ten accessors of the macro: the buffer of the values if the type of the
    column is [t], or else a null pointer. *)
Definition valuesAs (t : PrimitiveType) (v : MaterializedSeriesView) : option bytes :=
  if decide (type v = t) then
    '(_, a) ← structs v;
    col ← array_children a !! 1%nat;
    if decide (length (buffers col) < 2)%nat then None else mjoin (buffers col !! 1%nat)
  else None.

Section Read.
Context {A : Type} `{ArrowBuilder A} (ArrowArrayMove : A -> ArrowArray).

(** The structs the host moves its array into are those of the view. *)
Definition readSeries (host : option (option (WriteCore -> PJ_field_handle_t -> bool
      -> option (WriteCore * option (ArrowSchema * A) * option PJ_error_t)))) (c : WriteCore) (field : PJ_field_handle_t)
  : option (WriteCore * Expected MaterializedSeriesView) :=
  '(c, r) ← view_readSeriesArrow host c field true;
  Some (c, '(schema, a) ← r; Ok (mkSeriesView (Some schema) (Some (ArrowArrayMove a)))).

End Read.
End SeriesView.

(** ** Arrays in memory *)

(** Slot [i] of a buffer of values, as the type of its pointer reads it. *)
Definition slot (type : ArrowType) (data : bytes) (i : nat) : option ArrowCell :=
  v ← load (slot_width type) (i * slot_width type) data;
  match type with
  | NANOARROW_TYPE_INT8 => Some (AInt (wrapS 8 v))
  | NANOARROW_TYPE_INT16 => Some (AInt (wrapS 16 v))
  | NANOARROW_TYPE_INT32 => Some (AInt (i32 v))
  | NANOARROW_TYPE_INT64 => Some (AInt (i64 v))
  | NANOARROW_TYPE_UINT8 | NANOARROW_TYPE_UINT16 | NANOARROW_TYPE_UINT32 | NANOARROW_TYPE_UINT64 => Some (AUint v)
  | NANOARROW_TYPE_FLOAT => Some (ADouble (f64_of_f32 (f32_of_bits v)))
  | NANOARROW_TYPE_DOUBLE => Some (ADouble (f64_of_bits v))
  | _ => None
  end.

(** The cells of the numeric types of one width. *)
Definition number_fits (type : ArrowType) (x : ArrowCell) : Prop :=
  match x with
  | AInt z => int_fits type z /\ type <> NANOARROW_TYPE_BOOL
  | AUint z => uint_fits type z
  | ADouble d => double_fits type d
  | AText _ => False
  end.

(** A schema has the formats of its types, and a finished array its cells in
    buffers that start at the first row. *)
Class ArrowExportLaws (A : Type) `{ArrowBuilderLaws A} (ArrowArrayMove : A -> ArrowArray) := {
  schema_children_length s : length (schema_children s) = length (schema_types s);
  schema_children_format s k type : schema_types s !! k = Some type -> type <> NANOARROW_TYPE_NA ->
    (forall code, type <> NANOARROW_TYPE_OTHER code) ->
    exists child, schema_children s !! k = Some child /\ format child = Some (type_format type);
  moved_length a0 a : ArrowArrayFinishBuildingDefault a0 = Ok a ->
    array_length (ArrowArrayMove a) = Z.of_nat (ct_elements (content a))
    /\ length (array_children (ArrowArrayMove a)) = length (ct_types (content a));
  moved_child a0 a k type cells : ArrowArrayFinishBuildingDefault a0 = Ok a ->
    ct_types (content a) !! k = Some type -> ct_cells (content a) !! k = Some cells ->
    exists child nulls data more, array_children (ArrowArrayMove a) !! k = Some child
      /\ array_length child = Z.of_nat (length cells) /\ buffers child = nulls :: Some data :: more
      /\ forall i x, cells !! i = Some (Some x) -> number_fits type x -> slot type data i = Some x
}.

(** ** What a toolbox reads *)

(** The value in row [i], through the accessor of [t]. *)
Definition value_read (t : PrimitiveType) (v : MaterializedSeriesView) (i : nat) : option ArrowCell :=
  data ← SeriesView.valuesAs t v; slot (value_arrow_type t) data i.

(** The types that have an accessor. *)
Definition numeric (t : PrimitiveType) : Prop := is_Some (whole_type t) \/ is_Some (floating_type t).

Lemma type_of_format t : formatToPrimitiveType (Some (type_format (value_arrow_type t))) = t.
Proof. by destruct t. Qed.

Lemma shown_fits vs t v x : numeric t -> cell_shows vs t v (Some x) -> number_fits (value_arrow_type t) x.
Proof.
  intros Ht Hx. destruct v as [[z|z|z|z|z|b|s]|]; destruct x as [z'|z'|d|s']; cbn in Hx; try done.
  all: try exact (proj2 Hx).
  all: try (destruct Hx as (w & Hw & ->); destruct t; cbn in Hw; simplify_eq; cbn; (split; [by apply wrapS_range|done])).
  all: try (destruct Hx as (w & n & Hw & -> & _); destruct t; cbn in Hw; simplify_eq; cbn; by apply wrapU_range).
  all: destruct Hx as [-> _]; by destruct Ht as [[? Ht]|[? Ht]].
Qed.

Section Viewed.
Context {A : Type} (ArrowArrayMove : A -> ArrowArray) `{ArrowExportLaws A ArrowArrayMove}.

Lemma kept_length path l l' : kept path l l' -> (length l' <= length l)%nat.
Proof. induction 1; cbn; lia. Qed.

Lemma kept_cells_length {X Y} (R : X -> Y -> Prop) l k : Forall2 R l k -> length k = length l.
Proof. intros Hl. symmetry. by eapply Forall2_length. Qed.

(** The structs of a series that was moved out. *)
Lemma view_structs schema a0 a t times cells : ArrowArrayFinishBuildingDefault a0 = Ok a ->
  schema_types schema = [NANOARROW_TYPE_INT64; value_arrow_type t] -> series_of t (content a) times cells ->
  SeriesView.structs (mkSeriesView (Some schema) (Some (ArrowArrayMove a))) = Some (schema, ArrowArrayMove a).
Proof.
  intros Hfin Ht [Ha _]. unfold SeriesView.structs. cbn. rewrite decide_True; [done|].
  destruct (moved_length a0 a Hfin) as [_ Hl]. rewrite schema_children_length, Ht, Hl, Ha. cbn. lia.
Qed.

Lemma view_type schema a0 a t times cells : ArrowArrayFinishBuildingDefault a0 = Ok a -> t <> kUnspecified ->
  schema_types schema = [NANOARROW_TYPE_INT64; value_arrow_type t] -> series_of t (content a) times cells ->
  SeriesView.type (mkSeriesView (Some schema) (Some (ArrowArrayMove a))) = t.
Proof.
  intros Hfin Hu Ht Ha. unfold SeriesView.type. rewrite (view_structs schema a0 a t times cells) by done.
  destruct (schema_children_format schema 1 (value_arrow_type t)) as (child & -> & Hf); [by rewrite Ht|by destruct t|by destruct t|].
  by rewrite Hf, type_of_format.
Qed.

Lemma view_timestamps schema a0 a t times cells : ArrowArrayFinishBuildingDefault a0 = Ok a ->
  schema_types schema = [NANOARROW_TYPE_INT64; value_arrow_type t] -> series_of t (content a) times cells -> Forall (in_s 64) times ->
  SeriesView.timestamps (mkSeriesView (Some schema) (Some (ArrowArrayMove a))) = Some times.
Proof.
  intros Hfin Ht Ha Hr. unfold SeriesView.timestamps. rewrite (view_structs schema a0 a t times cells) by done. destruct Ha as [Ha _].
  destruct (moved_child a0 a 0 NANOARROW_TYPE_INT64 (map (fun z => Some (AInt z)) times) Hfin) as (child & nulls & data & more & Hc & Hlen & Hb & Hs);
    [by rewrite Ha|by rewrite Ha|].
  rewrite Hc. cbn [mbind option_bind]. rewrite Hb. cbn [length]. rewrite decide_False by lia. rewrite Hlen, length_map, Nat2Z.id.
  apply mapM_Some, Forall2_same_length_lookup. split; [by rewrite length_seq|]. intros i j z [-> Hi]%lookup_seq Hz.
  cbn [lookup list_lookup mjoin option_join mbind option_bind plus]. rewrite Forall_forall in Hr.
  specialize (Hs i (AInt z)). unfold slot in Hs. cbn [slot_width] in Hs. rewrite list_lookup_fmap, Hz in Hs.
  assert (number_fits NANOARROW_TYPE_INT64 (AInt z)) as Hz' by (split; [apply Hr; by eapply list_elem_of_lookup_2|done]).
  specialize (Hs eq_refl Hz'). apply bind_Some in Hs as (v & -> & Hv). cbn. congruence.
Qed.

Lemma view_values schema a0 a t times cells i x : ArrowArrayFinishBuildingDefault a0 = Ok a -> t <> kUnspecified ->
  schema_types schema = [NANOARROW_TYPE_INT64; value_arrow_type t] -> series_of t (content a) times cells ->
  cells !! i = Some (Some x) -> number_fits (value_arrow_type t) x ->
  value_read t (mkSeriesView (Some schema) (Some (ArrowArrayMove a))) i = Some x.
Proof.
  intros Hfin Hu Ht Ha Hx Hfit. unfold value_read, SeriesView.valuesAs.
  rewrite (view_type schema a0 a t times cells), (view_structs schema a0 a t times cells) by done. rewrite decide_True by done.
  cbn [mbind option_bind]. destruct Ha as [Ha _].
  destruct (moved_child a0 a 1 (value_arrow_type t) cells Hfin) as (child & nulls & data & more & -> & _ & Hb & Hs);
    [by rewrite Ha|by rewrite Ha|].
  cbn [mbind option_bind]. rewrite Hb. cbn [length]. rewrite decide_False by lia. cbn. by apply Hs.
Qed.

(** C8: A toolbox that calls [readSeries] on a field of known type of a topic,
    whose stored texts are less than [2^31] bytes and records less than [2^63],
    gets a view with one row for every stored record that could have the field,
    in their order; the others have no value for it.  The view has the type of
    the field and the times of the records; the accessor of that type, if it is
    numeric, gives for every record that has a value just this value in the
    width of the type, and every other accessor is null.  Two exceptions are
    stated by [cell_shows]: a [uint64_t] of [2^53] or more may show as another
    value of the log that rounds to the same double, and a zero may change its
    sign (a column sealed as a constant keeps its first value). *)
Theorem series_viewed (c : WriteCore) logs topic s k d :
  engine_logs (Host.engine_ c) logs -> topics (Host.engine_ c) !! topic = Some s ->
  column_at (Host.engine_ c) topic k d -> logical_type d <> kUnspecified ->
  Z.of_nat (record_texts (field_path d) (logs topic)) < 2 ^ 31 -> Z.of_nat (length (logs topic)) < 2 ^ 63 ->
  exists view log cells,
    SeriesView.readSeries ArrowArrayMove (Some (Some toolboxReadSeriesArrow)) c (mkFieldHandle topic k)
      = Some (Host.setError c "", Ok view)
    /\ kept (field_path d) (logs topic) log
    /\ Forall2 (fun r x => cell_shows (field_values (field_path d) (logs topic)) (logical_type d) (r.2 !! field_path d) x) log cells
    /\ SeriesView.rowCount view = Z.of_nat (length log)
    /\ SeriesView.type view = logical_type d
    /\ SeriesView.timestamps view = Some (map fst log)
    /\ (forall i x, numeric (logical_type d) -> cells !! i = Some (Some x) -> value_read (logical_type d) view i = Some x)
    /\ (forall t, t <> logical_type d -> SeriesView.valuesAs t view = None).
Proof.
  intros Hlogs Hs Hd Hu Htext Hlen.
  destruct (series_read c logs topic s k d Hlogs Hs Hd Hu Htext) as (schema & a0 & a & log & cells & Hr & Ht & Hfin & Hk & Hrange & Ha & Hc).
  exists (mkSeriesView (Some schema) (Some (ArrowArrayMove a))), log, cells.
  split; [unfold SeriesView.readSeries, view_readSeriesArrow, toolboxReadSeriesArrow; cbn [negb]; by rewrite Hr|].
  split; [done|]. split; [done|]. split_and!.
  - unfold SeriesView.rowCount. cbn [view_array]. destruct (moved_length a0 a Hfin) as [-> _]. destruct Ha as [-> _]. cbn [ct_elements].
    rewrite length_map. apply wrapU_small. pose proof (kept_length _ _ _ Hk). split; [lia|]. change (2 ^ 63) with 9223372036854775808 in Hlen.
    change (2 ^ 64) with 18446744073709551616. lia.
  - by eapply view_type.
  - by eapply view_timestamps.
  - intros i x Hn Hx. eapply view_values; try done. destruct (Forall2_lookup_r _ _ _ _ _ Hc Hx) as (r & _ & Hcell). by eapply shown_fits.
  - intros t Hne. unfold SeriesView.valuesAs. rewrite (view_type schema a0 a (logical_type d) (map fst log) cells) by done. by rewrite decide_False by done.
Qed.

End Viewed.

(** ** The builders that keep lists, in memory *)

(** The first word with a property. *)
Definition find_word (P : Z -> Prop) `{forall v, Decision (P v)} (words : list Z) : Z := default 0 (snd <$> list_find P words).

Lemma find_word_in (P : Z -> Prop) `{forall v, Decision (P v)} words : find_word P words ∈ words \/ find_word P words = 0.
Proof.
  unfold find_word. destruct (list_find P words) as [[j w]|] eqn:E; [left|by right].
  apply list_find_Some in E as (Hw & _ & _). by eapply list_elem_of_lookup_2.
Qed.

Lemma find_word_ok (P : Z -> Prop) `{forall v, Decision (P v)} words v : v ∈ words -> P v -> P (find_word P words).
Proof.
  intros Hv HP. unfold find_word. destruct (list_find_elem_of P words v Hv HP) as [[j w] Hw].
  rewrite Hw. by apply list_find_Some in Hw as (_ & Hw & _).
Qed.

(** A word that reads as [d]. *)
Definition float_word (d : double) : Z := find_word (fun v => f64_of_f32 (f32_of_bits v) = d) (seqZ 0 (2 ^ 32)).

Definition cell_word (type : ArrowType) (x : option ArrowCell) : Z :=
  match x with
  | Some (AInt z) | Some (AUint z) => z
  | Some (ADouble d) => if decide (type = NANOARROW_TYPE_FLOAT) then float_word d else bits_of_f64 d
  | _ => 0
  end.

Definition list_child (type : ArrowType) (cells : list (option ArrowCell)) : ArrowArray :=
  mkArray (Z.of_nat (length cells)) 0 0
    [None; Some (concat (map (le_bytes (slot_width type)) (map (cell_word type) cells)))] [].

Definition list_move (a : Content) : ArrowArray :=
  mkArray (Z.of_nat (ct_elements a)) 0 0 [None] (imap (fun k type => list_child type (default [] (ct_cells a !! k))) (ct_types a)).

Lemma float_word_reads d : double_fits NANOARROW_TYPE_FLOAT d -> f64_of_f32 (f32_of_bits (float_word d)) = d.
Proof.
  intros [[? _]|(_ & v & Hv & ->)]; [done|].
  apply (find_word_ok (fun w => f64_of_f32 (f32_of_bits w) = f64_of_f32 (f32_of_bits v)) _ v); [|reflexivity].
  apply elem_of_seqZ. exact Hv.
Qed.

Lemma double_word_reads d : double_fits NANOARROW_TYPE_DOUBLE d -> f64_of_bits (bits_of_f64 d) = d.
Proof. intros [(_ & v & Hv & ->)|[? _]]; [|done]. by apply f64_of_bits_of_f64, f64_of_bits_valid. Qed.

Lemma float_word_range d : in_u 32 (float_word d).
Proof.
  destruct (find_word_in (fun v => f64_of_f32 (f32_of_bits v) = d) (seqZ 0 (2 ^ 32))) as [Hw|Hw].
  - apply elem_of_seqZ in Hw. exact Hw.
  - unfold float_word. rewrite Hw. split; [reflexivity|reflexivity].
Qed.

Lemma list_child_slot type cells i x : cells !! i = Some (Some x) -> number_fits type x ->
  slot type (concat (map (le_bytes (slot_width type)) (map (cell_word type) cells))) i = Some x.
Proof.
  intros Hi Hx. unfold slot.
  assert (load (slot_width type) (i * slot_width type) (concat (map (le_bytes (slot_width type)) (map (cell_word type) cells)))
    = Some (wrapU (8 * Z.of_nat (slot_width type)) (cell_word type (Some x)))) as ->.
  { rewrite <- (app_nil_r (concat _)). apply load_block_le. by rewrite list_lookup_fmap, Hi. }
  cbn [mbind option_bind].
  destruct x as [z|z|d|s]; cbn in Hx; [| | |done].
  - destruct Hx as [Hx Hb]. destruct type; cbn in Hx; try done; cbn [cell_word slot_width]; do 2 f_equal; by apply wrapS_wrapU.
  - destruct type; cbn in Hx; try done; cbn [cell_word slot_width]; do 2 f_equal; by apply wrapU_small.
  - destruct Hx as [[-> Hx]|[-> Hx]].
    + unfold cell_word. rewrite decide_False by done. rewrite wrapU_small by apply bits_of_f64_range.
      do 2 f_equal. apply double_word_reads. left. by split.
    + unfold cell_word. rewrite decide_True by done. rewrite wrapU_small by apply float_word_range.
      do 2 f_equal. apply float_word_reads. right. by split.
Qed.

#[export] Instance list_export_laws : ArrowExportLaws Content list_move.
Proof.
  split.
  - intros s. cbn. by rewrite length_map.
  - intros s k type Hk Hna Hother. cbn in Hk. rewrite list_lookup_fmap in Hk. apply fmap_Some in Hk as (child & -> & ->).
    exists child. split; [done|]. unfold schema_type in *. destruct (list_find _ _) as [[j t]|] eqn:E; [|by destruct Hna].
    by apply list_find_Some in E as (_ & -> & _).
  - intros a0 a _. split; [done|]. cbn. by rewrite length_imap.
  - intros a0 a k type cells _ Ht Hc. cbn in Ht, Hc. exists (list_child type cells). do 3 eexists. split; [|split; [done|split; [reflexivity|]]].
    + unfold list_move. cbn [array_children]. by rewrite list_lookup_imap, Ht, Hc.
    + intros i x. apply list_child_slot.
Qed.

(** The numbers of the session of [HostDemo]: 1.5, and none in the second record. *)
Lemma series_viewed_witness : exists c' view, Host.flushPending listing arm_handled = Some c'
  /\ SeriesView.readSeries list_move (Some (Some toolboxReadSeriesArrow)) c' (mkFieldHandle 1 0) = Some (Host.setError c' "", Ok view)
  /\ SeriesView.type view = kFloat64 /\ SeriesView.valuesAs kInt32 view = None.
Proof.
  destruct (flushPending_host listing listing_permutation _ _ (session_ok listing listing_permutation _ _ arm_handled_session))
    as (c' & Hc & _ & Hlogs & _).
  pose proof Hc as Hrun. vm_compute in Hrun. apply (inj Some) in Hrun.
  destruct (topics (Host.engine_ c') !! 1) as [s|] eqn:Es; [|by rewrite <- Hrun in Es; vm_compute in Es].
  assert (Hd : column_at (Host.engine_ c') 1 0 (mkColumnDescriptor 0 kFloat64 "x")).
  { split; [by eexists|]. exists 0%nat. split; [|done]. rewrite <- Hrun. by vm_compute. }
  destruct (series_viewed list_move c' (append_log arm_log 1 second_record) 1 s 0 (mkColumnDescriptor 0 kFloat64 "x") Hlogs Es Hd)
    as (view & log & cells & Hview & _ & _ & _ & Htype & _ & _ & Hnull); [done|by vm_compute|by vm_compute|].
  exists c', view. split; [done|]. split; [exact Hview|]. split; [exact Htype|]. by apply Hnull.
Defined.
