(* ===== verification/Derived.v ===== *)
(** * Derived: transforms over topics

    Models [src/pj_datastore/src/derived_engine.cpp] and
    [builtin_transforms.cpp].  A transform is an interface, so the engine is
    parametric in the types of the two kinds of transform and their classes.
    [None] is a null dereference, an out-of-range access or a conversion the
    language leaves undefined. *)

From S2P Require Import Prelude Types TypeTree TypeRegistry Float64 Buffer Encoding Column Chunk Query TopicStorage Engine Writer.

(** [std::variant<int64_t, uint64_t, double, std::string>] *)
Inductive VarValue := VarInt (z : Z) | VarUint (z : Z) | VarDouble (d : double) | VarString (s : bytes).

(** The out parameters of [calculate] come in with what the caller left there;
    the answer is the new state, the returned [bool] and the parameters. *)
Class ISISOTransform (SOp : Type) := {
  siso_reset : SOp -> SOp;
  siso_outputKind : SOp -> StorageKind.t -> StorageKind.t;
  siso_calculate : SOp -> Z -> VarValue -> Z * VarValue -> SOp * bool * (Z * VarValue)
}.

Class IMIMOTransform (MOp : Type) := {
  mimo_reset : MOp -> MOp;
  mimo_outputKinds : MOp -> list StorageKind.t -> list StorageKind.t;
  mimo_calculate : MOp -> Z -> list VarValue -> Z * list VarValue -> MOp * bool * (Z * list VarValue)
}.

(** ** Values *)

Fixpoint find_first_leaf (node : TypeTreeNode) : option PrimitiveType :=
  match node_kind node with
  | kPrimitive | kEnum => primitive_type node
  | kStruct =>
      (fix go (l : list TypeTreeNode) : option PrimitiveType :=
         match l with
         | [] => None
         | c :: rest => match find_first_leaf c with Some r => Some r | None => go rest end
         end) (children node)
  | kArray => match element_type node with Some e => find_first_leaf e | None => None end
  end.

Definition storage_kind_to_primitive (k : StorageKind.t) : PrimitiveType :=
  match k with
  | StorageKind.kFloat32 => kFloat32
  | StorageKind.kFloat64 => kFloat64
  | StorageKind.kInt32 => kInt32
  | StorageKind.kInt64 => kInt64
  | StorageKind.kUint64 => kUint64
  | StorageKind.kBool => kBool
  | StorageKind.kString => kString
  end.

Definition decode_as_varvalue (chunk : TopicChunk) (col row : nat) (kind : StorageKind.t) : option VarValue :=
  match kind with
  | StorageKind.kFloat32 | StorageKind.kFloat64 => VarDouble <$> Chunk.readNumericAsDouble chunk col row
  | StorageKind.kInt32 | StorageKind.kInt64 => VarInt <$> Chunk.readNumericAsInt64 chunk col row
  | StorageKind.kUint64 => VarUint <$> Chunk.readNumericAsUint64 chunk col row
  | StorageKind.kBool => (fun b : bool => VarInt (if b then 1 else 0)) <$> Chunk.readBool chunk col row
  | StorageKind.kString => VarString <$> Chunk.readString chunk col row
  end.

Definition varvalue_as_double (v : VarValue) : double :=
  match v with
  | VarInt z | VarUint z => f64_of_Z z
  | VarDouble d => d
  | VarString _ => f64_zero
  end.

(** The value [write_varvalue] sets, if it sets one. *)
Definition coerce (v : VarValue) (out_kind : StorageKind.t) : option (option Value) :=
  let d := varvalue_as_double v in
  match out_kind, v with
  | StorageKind.kString, VarString s => Some (Some (VString s))
  | StorageKind.kString, _ => Some None
  | StorageKind.kUint64, VarUint z => Some (Some (VUint64 z))
  | StorageKind.kUint64, VarInt z => Some (Some (VUint64 (u64 z)))
  | StorageKind.kInt64, VarInt z => Some (Some (VInt64 z))
  | StorageKind.kInt64, VarUint z => Some (Some (VInt64 (i64 z)))
  | StorageKind.kInt32, VarInt z | StorageKind.kInt32, VarUint z => Some (Some (VInt32 (i32 z)))
  | StorageKind.kFloat32, _ => Some (Some (VFloat32 (bits_of_f32 (f32_of_f64 d))))
  | StorageKind.kFloat64, _ => Some (Some (VFloat64 (bits_of_f64 d)))
  | StorageKind.kInt32, _ => z ← f64_to_s32 d; Some (Some (VInt32 z))
  | StorageKind.kInt64, _ => z ← f64_to_s64 d; Some (Some (VInt64 z))
  | StorageKind.kUint64, _ => z ← f64_to_u64 d; Some (Some (VUint64 z))
  | StorageKind.kBool, _ => Some (Some (VBool (negb (f64_eq d f64_zero))))
  end.

Definition write_varvalue (w : DataWriter) (tid : Z) (col : nat) (v : VarValue) (out_kind : StorageKind.t)
  : option DataWriter :=
  x ← coerce v out_kind;
  match x with Some x => Writer.set w tid col x | None => Some w end.

(** ** State *)

Section Types.
Context {SOp MOp : Type}.

Inductive Transform :=
| Siso (input_topic : Z) (input_kind output_kind : StorageKind.t) (op : SOp)
| Mimo (input_kinds output_kinds : list StorageKind.t) (op : MOp).

(** [mimo_input_topic_ids] equals [all_input_topic_ids]; the input buffers are
    written before every use and not kept. *)
Record DerivedNode := mkNode {
  nd_id : Z;
  transform : Transform;
  all_input_topic_ids : list Z;
  output_topic_ids : list Z;
  dirty : bool;
  last_processed_chunk_id : Z;
  mimo_last_ts : Z;
  out_val_buf : VarValue;
  mimo_out_buf : list VarValue
}.

Record DerivedEngine := mkDerived {
  dr_engine : DataEngine;
  next_node_id_ : Z;
  nodes : gmap Z DerivedNode;
  downstream_of : gmap Z (list Z);
  topic_to_nodes : gmap Z (list Z);
  output_topic_to_node : gmap Z Z;
  registered_output_names : gmap (Z * string) Z;
  dr_next_chunk_id : Z
}.

End Types.
Arguments Transform : clear implicits.
Arguments DerivedNode : clear implicits.
Arguments DerivedEngine : clear implicits.

Module Derived.
Section Engine.
Context {SOp MOp : Type} `{HS : ISISOTransform SOp} `{HM : IMIMOTransform MOp}.
Context (iter : forall A, gmap Z A -> list (Z * A)) (iter_names : gmap (Z * string) Z -> list (Z * string * Z)).
Abbreviation Node := (DerivedNode SOp MOp).
Abbreviation State := (DerivedEngine SOp MOp).

Definition make (e : DataEngine) (next_chunk_id : Z) : State := mkDerived e 1 ∅ ∅ ∅ ∅ ∅ next_chunk_id.

(** *** Assignments to members *)

Definition with_engine (d : State) (e : DataEngine) (next_chunk_id : Z) : State :=
  mkDerived e (next_node_id_ d) (nodes d) (downstream_of d) (topic_to_nodes d) (output_topic_to_node d)
    (registered_output_names d) next_chunk_id.
Definition with_nodes (d : State) (ns : gmap Z Node) : State :=
  mkDerived (dr_engine d) (next_node_id_ d) ns (downstream_of d) (topic_to_nodes d) (output_topic_to_node d)
    (registered_output_names d) (dr_next_chunk_id d).
Definition set_dirty (n : Node) (b : bool) : Node :=
  mkNode (nd_id n) (transform n) (all_input_topic_ids n) (output_topic_ids n) b (last_processed_chunk_id n)
    (mimo_last_ts n) (out_val_buf n) (mimo_out_buf n).

(** ** The graph *)

(** [check_cycle]: [None] is a loop that has not ended within the fuel. *)
Fixpoint cycle_loop (fuel : nat) (d : State) (outputs : list Z) (stack : list Z) (visited : gset Z) : option string :=
  match stack with
  | [] => Some ""
  | t :: stack =>
      match fuel with
      | O => None
      | S fuel' =>
          if decide (t ∈ visited) then cycle_loop fuel' d outputs stack visited
          else
            let visited := {[t]} ∪ visited in
            if decide (t ∈ outputs)
            then Some ("cycle detected: topic " +:+ pretty t +:+ " is both an input and an output")
            else
              match n ← output_topic_to_node d !! t; nodes d !! n with
              | None => cycle_loop fuel' d outputs stack visited
              | Some node =>
                  let push := filter (fun i => i ∉ visited) (all_input_topic_ids node) in
                  cycle_loop fuel' d outputs (rev push ++ stack) visited
              end
      end
  end.

(** Every topic pushes its producer's inputs once. *)
Definition cycle_fuel (d : State) (input_topics : list Z) : nat :=
  length input_topics
  + sum_list_with (fun p => match nodes d !! p.2 with Some n => length (all_input_topic_ids n) | None => 0%nat end)
      (map_to_list (output_topic_to_node d)).

Definition check_cycle (d : State) (input_topics output_topics : list Z) : option string :=
  cycle_loop (cycle_fuel d input_topics) d output_topics (rev input_topics) ∅.

(** The number of columns and the first type, from the schema, the stored
    layout or the first chunk. *)
Definition input_layout (e : DataEngine) (s : TopicStorage) : nat * option PrimitiveType :=
  let from_schema :=
    if schema_id (descriptor_ s) =? 0 then (0%nat, None)
    else match Registry.lookup (type_registry e) (schema_id (descriptor_ s)) with
         | Some root => (countLeafFields root, find_first_leaf root)
         | None => (0%nat, None)
         end in
  let from_stored (found : nat * option PrimitiveType) :=
    if negb (found.1 =? 0)%nat then found
    else match ts_column_descriptors_ s with
         | [] => found
         | d :: _ => (length (ts_column_descriptors_ s), Some (logical_type d))
         end in
  let from_chunk (found : nat * option PrimitiveType) :=
    if negb (found.1 =? 0)%nat then found
    else match sealed_chunks_ s with
         | chunk :: _ =>
             match columns chunk with
             | col :: _ => (length (columns chunk), Some (logical_type (col_descriptor col)))
             | [] => found
             end
         | [] => found
         end in
  from_chunk (from_stored from_schema).

Definition push_node (m : gmap Z (list Z)) (key id : Z) : gmap Z (list Z) :=
  <[key := default [] (m !! key) ++ [id]]> m.

(** The schema and the topic of one output. *)
Definition create_output (e : DataEngine) (dataset : Z) (schema_name name : string) (kind : StorageKind.t)
  : DataEngine * Expected Z :=
  let '(r, schema) := Registry.registerOrGet (type_registry e) schema_name
                        (makePrimitive "value" (storage_kind_to_primitive kind)) in
  let e := Engine.with_registry e r in
  match schema with
  | Err err => (e, Err err)
  | Ok schema => Engine.createTopic e dataset (mkTopicDescriptor name schema dataset 1024 64)
  end.

Definition addSisoTransform (d : State) (input : Z) (name : string) (dataset : Z) (op : SOp)
  : option (State * Expected Z) :=
  match Engine.getTopicStorage (dr_engine d) input with
  | None => Some (d, Err ("add_siso_transform: input topic " +:+ pretty input +:+ " not found"))
  | Some s =>
      let '(num_cols, leaf) := input_layout (dr_engine d) s in
      if (num_cols =? 0)%nat
      then Some (d, Err ("add_siso_transform: cannot determine column layout for topic " +:+ pretty input
             +:+ " (no schema_id, no stored column layout, and no committed chunks)"))
      else if negb (num_cols =? 1)%nat
      then Some (d, Err ("add_siso_transform: SISO requires single-column input, got " +:+ pretty num_cols +:+ " columns"))
      else
        match leaf with
        | None => Some (d, Err "add_siso_transform: could not determine leaf primitive type")
        | Some leaf =>
            let in_kind := storageKindOf leaf in
            let out_kind := siso_outputKind op in_kind in
            if bool_decide (is_Some (registered_output_names d !! (dataset, name)))
            then Some (d, Err ("add_siso_transform: output topic '" +:+ name +:+ "' already registered in dataset " +:+ pretty dataset))
            else
              cycle_err ← check_cycle d [input] [];
              if negb (bool_decide (cycle_err = ""%string)) then Some (d, Err cycle_err)
              else
                let '(e, created) := create_output (dr_engine d) dataset
                  ("derived_siso_" +:+ name +:+ "_" +:+ pretty (next_node_id_ d)) name out_kind in
                let d := with_engine d e (dr_next_chunk_id d) in
                match created with
                | Err err => Some (d, Err err)
                | Ok out =>
                    let id := next_node_id_ d in
                    let node := mkNode id (Siso input in_kind out_kind op) [input] [out] true 0 INT64_MIN
                                  (VarDouble f64_zero) [] in
                    let outputs := <[out := id]> (output_topic_to_node d) in
                    let downstream := match outputs !! input with
                                      | Some producer => push_node (downstream_of d) producer id
                                      | None => downstream_of d
                                      end in
                    Some (mkDerived (dr_engine d) (u32 (id + 1)) (<[id := node]> (nodes d)) downstream
                            (push_node (topic_to_nodes d) input id) outputs
                            (<[(dataset, name) := out]> (registered_output_names d)) (dr_next_chunk_id d), Ok id)
                end
        end
  end.

(** The kinds of the inputs of a MIMO transform. *)
Fixpoint mimo_kinds (e : DataEngine) (inputs : list Z) : Expected (list StorageKind.t) :=
  match inputs with
  | [] => Ok []
  | tid :: rest =>
      match Engine.getTopicStorage e tid with
      | None => Err ("add_mimo_transform: input topic " +:+ pretty tid +:+ " not found")
      | Some s =>
          let '(num_cols, leaf) := input_layout e s in
          if (num_cols =? 0)%nat
          then Err ("add_mimo_transform: cannot determine column layout for input topic " +:+ pretty tid)
          else if negb (num_cols =? 1)%nat
          then Err ("add_mimo_transform: MIMO requires single-column inputs; topic " +:+ pretty tid +:+ " has "
                    +:+ pretty num_cols +:+ " columns")
          else
            match leaf with
            | None => Err ("add_mimo_transform: cannot determine primitive type for input topic " +:+ pretty tid)
            | Some leaf =>
                match mimo_kinds e rest with
                | Ok kinds => Ok (storageKindOf leaf :: kinds)
                | Err err => Err err
                end
            end
      end
  end.

Fixpoint taken_name (d : State) (dataset : Z) (names : list string) : option string :=
  match names with
  | [] => None
  | name :: rest =>
      if bool_decide (is_Some (registered_output_names d !! (dataset, name))) then Some name
      else taken_name d dataset rest
  end.

Fixpoint create_outputs (e : DataEngine) (dataset node_id : Z) (k : nat) (outputs : list (string * StorageKind.t))
    (created : list Z) : DataEngine * Expected (list Z) :=
  match outputs with
  | [] => (e, Ok created)
  | (name, kind) :: rest =>
      let '(e, out) := create_output e dataset
        ("derived_mimo_" +:+ pretty node_id +:+ "_" +:+ pretty k) name kind in
      match out with
      | Err err => (e, Err err)
      | Ok out => create_outputs e dataset node_id (S k) rest (created ++ [out])
      end
  end.

(** The loop over the inputs that updates [downstream_of]. *)
Definition add_edges (outputs : gmap Z Z) (inputs : list Z) (id : Z) (downstream : gmap Z (list Z)) : gmap Z (list Z) :=
  fold_left (fun m input =>
    match outputs !! input with
    | None => m
    | Some producer =>
        let l := default [] (m !! producer) in
        if bool_decide (id ∈ l) then <[producer := l]> m else push_node m producer id
    end) inputs downstream.

(** [op] is not null. *)
Definition addMimoTransform (d : State) (inputs : list Z) (names : list string) (dataset : Z) (op : MOp)
  : option (State * Expected Z) :=
  if bool_decide (inputs = []) then Some (d, Err "add_mimo_transform: requires at least one input topic")
  else if bool_decide (names = []) then Some (d, Err "add_mimo_transform: requires at least one output topic name")
  else
    match mimo_kinds (dr_engine d) inputs with
    | Err err => Some (d, Err err)
    | Ok kinds =>
        match taken_name d dataset names with
        | Some name => Some (d, Err ("add_mimo_transform: output topic '" +:+ name +:+ "' already registered in dataset "
                         +:+ pretty dataset))
        | None =>
            cycle_err ← check_cycle d inputs [];
            if negb (bool_decide (cycle_err = ""%string)) then Some (d, Err cycle_err)
            else
              let out_kinds := mimo_outputKinds op kinds in
              if negb (length out_kinds =? length names)%nat
              then Some (d, Err ("add_mimo_transform: op->outputKinds() returned " +:+ pretty (length out_kinds)
                     +:+ " kinds but " +:+ pretty (length names) +:+ " output names provided"))
              else
                let id := next_node_id_ d in
                let '(e, created) := create_outputs (dr_engine d) dataset id 0 (zip names out_kinds) [] in
                let d := mkDerived e (u32 (id + 1)) (nodes d) (downstream_of d) (topic_to_nodes d)
                           (output_topic_to_node d) (registered_output_names d) (dr_next_chunk_id d) in
                match created with
                | Err err => Some (d, Err err)
                | Ok outs =>
                    let node := mkNode id (Mimo kinds out_kinds op) inputs outs true 0 INT64_MIN (VarDouble f64_zero) [] in
                    let names_map := fold_left (fun m p => <[(dataset, p.1) := p.2]> m) (zip names outs)
                                       (registered_output_names d) in
                    let outputs := fold_left (fun m out => <[out := id]> m) outs (output_topic_to_node d) in
                    Some (mkDerived (dr_engine d) (next_node_id_ d) (<[id := node]> (nodes d))
                            (add_edges outputs inputs id (downstream_of d))
                            (fold_left (fun m input => push_node m input id) inputs (topic_to_nodes d))
                            outputs names_map (dr_next_chunk_id d), Ok id)
                end
        end
    end.

Definition remove_all (id : Z) (l : list Z) : list Z := filter (fun x => x <> id) l.

Definition removeNode (d : State) (id : Z) : State * Status :=
  match nodes d !! id with
  | None => (d, Err ("remove_node: node " +:+ pretty id +:+ " not found"))
  | Some node =>
      let by_topic := fold_left (fun m tid => <[tid := remove_all id (default [] (m !! tid))]> m)
                        (all_input_topic_ids node) (topic_to_nodes d) in
      let outputs := fold_left (fun m tid => delete tid m) (output_topic_ids node) (output_topic_to_node d) in
      let names := fold_left (fun m tid =>
                     match list_find (fun p => p.2 = tid) (iter_names m) with
                     | Some (_, p) => delete p.1 m
                     | None => m
                     end) (output_topic_ids node) (registered_output_names d) in
      (mkDerived (dr_engine d) (next_node_id_ d) (delete id (nodes d)) (remove_all id <$> delete id (downstream_of d))
         by_topic outputs names (dr_next_chunk_id d), okStatus)
  end.

Definition hasNode (d : State) (id : Z) : bool := bool_decide (is_Some (nodes d !! id)).
Definition outputTopics (d : State) (id : Z) : list Z :=
  match nodes d !! id with Some n => output_topic_ids n | None => [] end.

(** ** Kahn's algorithm *)

(** [in_degree[m]++] for the nodes of one list. *)
Definition count_edges (ns : gmap Z Node) (l : list Z) (deg : gmap Z Z) : gmap Z Z :=
  fold_left (fun deg m => if bool_decide (is_Some (ns !! m)) then <[m := default 0 (deg !! m) + 1]> deg else deg) l deg.

Definition in_degrees (d : State) : gmap Z Z :=
  fold_left (fun deg p => count_edges (nodes d) p.2 deg) (iter _ (downstream_of d)) ((fun _ => 0) <$> nodes d).

(** [if (--in_degree[m] == 0) newly_ready.push_back(m)] *)
Fixpoint relax (ns : gmap Z Node) (l : list Z) (deg : gmap Z Z) (newly_ready : list Z) : gmap Z Z * list Z :=
  match l with
  | [] => (deg, newly_ready)
  | m :: rest =>
      if bool_decide (is_Some (ns !! m)) then
        let x := default 0 (deg !! m) - 1 in
        relax ns rest (<[m := x]> deg) (if x =? 0 then newly_ready ++ [m] else newly_ready)
      else relax ns rest deg newly_ready
  end.

(** [queue] is [ready] from [head] on. *)
Fixpoint kahn (fuel : nat) (d : State) (queue : list Z) (deg : gmap Z Z) (order : list Z) : option (list Z) :=
  match queue with
  | [] => Some order
  | n :: queue =>
      match fuel with
      | O => None
      | S fuel' =>
          let order := order ++ [n] in
          match downstream_of d !! n with
          | None => kahn fuel' d queue deg order
          | Some l =>
              let '(deg, newly_ready) := relax (nodes d) l deg [] in
              kahn fuel' d (queue ++ merge_sort Z.le newly_ready) deg order
          end
      end
  end.

Definition topologicalOrder (d : State) : option (list Z) :=
  let deg := in_degrees d in
  let ready := merge_sort Z.le (map fst (filter (fun p => p.2 = 0) (iter _ deg))) in
  kahn (size (nodes d)) d ready deg [].

(** ** Running a node *)

Definition mark_dirty (ns : gmap Z Node) (ids : list Z) : gmap Z Node :=
  fold_left (fun ns id => alter (fun n => set_dirty n true) id ns) ids ns.

Definition onSourceCommitted (d : State) (changed_topics : list Z) : State :=
  with_nodes d (fold_left (fun ns tid => mark_dirty ns (default [] (topic_to_nodes d !! tid))) changed_topics (nodes d)).

(** The variables of [run_siso_incremental]: the transform, its out
    parameters, the writer, [wrote_any]. *)
Record SisoRun := mkSisoRun { sr_op : SOp; sr_out_ts : Z; sr_out_val : VarValue; sr_writer : DataWriter; sr_wrote : bool }.

(** One call of [calculate] and the row it gives. *)
Definition siso_sample (r : SisoRun) (out_tid : Z) (out_kind : StorageKind.t) (ts : Z) (v : VarValue)
  : option (SisoRun * Status) :=
  let '(op, wrote, (out_ts, out_val)) := siso_calculate (sr_op r) ts v (sr_out_ts r, sr_out_val r) in
  let r := mkSisoRun op out_ts out_val (sr_writer r) (sr_wrote r) in
  if (wrote : bool) then
    '(w, s) ← Writer.beginRow (sr_writer r) out_tid out_ts;
    let r := mkSisoRun op out_ts out_val w (sr_wrote r) in
    match s with
    | Err e => Some (r, Err e)
    | Ok _ =>
        w ← write_varvalue w out_tid 0 out_val out_kind;
        '(w, s) ← Writer.finishRow w out_tid;
        match s with
        | Err e => Some (mkSisoRun op out_ts out_val w (sr_wrote r), Err e)
        | Ok _ => Some (mkSisoRun op out_ts out_val w true, okStatus)
        end
    end
  else Some (r, okStatus).

Fixpoint siso_rows (n i : nat) (r : SisoRun) (out_tid : Z) (in_kind out_kind : StorageKind.t) (chunk : TopicChunk)
  : option (SisoRun * Status) :=
  match n with
  | O => Some (r, okStatus)
  | S n' =>
      ts ← timestamps chunk !! i;
      v ← decode_as_varvalue chunk 0 i in_kind;
      '(r, s) ← siso_sample r out_tid out_kind ts v;
      match s with Err e => Some (r, Err e) | Ok _ => siso_rows n' (S i) r out_tid in_kind out_kind chunk end
  end.

Fixpoint siso_chunks (chunks : list TopicChunk) (watermark max_seen : Z) (r : SisoRun) (out_tid : Z)
    (in_kind out_kind : StorageKind.t) : option (SisoRun * Z * Status) :=
  match chunks with
  | [] => Some (r, max_seen, okStatus)
  | chunk :: rest =>
      if id chunk <=? watermark then siso_chunks rest watermark max_seen r out_tid in_kind out_kind
      else
        let max_seen := Z.max max_seen (id chunk) in
        '(r, s) ← siso_rows (Z.to_nat (row_count (stats chunk))) 0 r out_tid in_kind out_kind chunk;
        match s with Err e => Some (r, max_seen, Err e)
                   | Ok _ => siso_chunks rest watermark max_seen r out_tid in_kind out_kind end
  end.

(** [flushAll] of the run's writer, committed to the engine. *)
Definition commit_run (w : DataWriter) : option (DataEngine * Z) :=
  '(w, chunks) ← Writer.flushAll iter w;
  Some ((Engine.commitChunks (engine w) chunks).1, next_chunk_id_ w).

Definition run_siso_incremental (e : DataEngine) (next_chunk_id : Z) (n : Node) (input : Z)
    (in_kind out_kind : StorageKind.t) (op : SOp) : option (DataEngine * Z * Node * Status) :=
  let node op out_val watermark :=
    mkNode (nd_id n) (Siso input in_kind out_kind op) (all_input_topic_ids n) (output_topic_ids n) (dirty n)
      watermark (mimo_last_ts n) out_val (mimo_out_buf n) in
  match Engine.getTopicStorage e input with
  | None => Some (e, next_chunk_id, n, Err ("run_siso_incremental: input topic " +:+ pretty input +:+ " not found"))
  | Some s =>
      out_tid ← output_topic_ids n !! 0%nat;
      let watermark := last_processed_chunk_id n in
      '(r, max_seen, status) ← siso_chunks (sealed_chunks_ s) watermark watermark
         (mkSisoRun op 0 (out_val_buf n) (Writer.make e next_chunk_id) false) out_tid in_kind out_kind;
      match status with
      | Err err => Some (e, next_chunk_id_ (sr_writer r), node (sr_op r) (sr_out_val r) watermark, Err err)
      | Ok _ =>
          '(e, next) ← (if sr_wrote r then commit_run (sr_writer r) else Some (e, next_chunk_id_ (sr_writer r)));
          Some (e, next, node (sr_op r) (sr_out_val r) max_seen, okStatus)
      end
  end.

(** [SampleLoc]; a chunk pointer is the chunk. *)
Record SampleLoc := mkLoc { sl_ts : Z; sl_chunk : TopicChunk; sl_row : nat }.

Fixpoint new_rows (n r : nat) (chunk : TopicChunk) (last_ts : Z) : option (list SampleLoc) :=
  match n with
  | O => Some []
  | S n' =>
      ts ← timestamps chunk !! r;
      rest ← new_rows n' (S r) chunk last_ts;
      Some (if ts <=? last_ts then rest else mkLoc ts chunk r :: rest)
  end.

(** The rows of one input that are newer than the watermark. *)
Fixpoint collect (chunks : list TopicChunk) (last_ts : Z) : option (list SampleLoc) :=
  match chunks with
  | [] => Some []
  | chunk :: rest =>
      if t_max (stats chunk) <=? last_ts then collect rest last_ts
      else here ← new_rows (Z.to_nat (row_count (stats chunk))) 0 chunk last_ts;
           rest ← collect rest last_ts; Some (here ++ rest)
  end.

(** The loop over the inputs: an error, an input without news, or all rows. *)
Fixpoint collect_all (e : DataEngine) (inputs : list Z) (last_ts : Z) : option (Expected (option (list (list SampleLoc)))) :=
  match inputs with
  | [] => Some (Ok (Some []))
  | tid :: rest =>
      match Engine.getTopicStorage e tid with
      | None => Some (Err ("run_mimo_incremental: input topic " +:+ pretty tid +:+ " not found"))
      | Some s =>
          locs ← collect (sealed_chunks_ s) last_ts;
          match locs with
          | [] => Some (Ok None)
          | _ =>
              more ← collect_all e rest last_ts;
              Some match more with Ok (Some l) => Ok (Some (locs :: l)) | r => r end
          end
      end
  end.

(** The timestamps of the first input that all others have, each once. *)
Definition joined (per_topic : list (list SampleLoc)) : list Z :=
  match per_topic with
  | [] => []
  | first :: others =>
      Engine.unique (fold_left (fun ts locs => filter (fun t => t ∈ (list_to_set (map sl_ts locs) : gset Z)) ts)
                       others (map sl_ts first))
  end.

(** [insert_or_assign]: the last row of a timestamp. *)
Definition lookup_table (locs : list SampleLoc) : gmap Z SampleLoc :=
  fold_left (fun m l => <[sl_ts l := l]> m) locs ∅.

Fixpoint decode_inputs (tables : list (gmap Z SampleLoc)) (kinds : list StorageKind.t) (ts : Z) : option (list VarValue) :=
  match tables, kinds with
  | [], _ => Some []
  | table :: tables', kind :: kinds' =>
      loc ← table !! ts;
      v ← decode_as_varvalue (sl_chunk loc) 0 (sl_row loc) kind;
      rest ← decode_inputs tables' kinds' ts;
      Some (v :: rest)
  | _, [] => None
  end.

(** The rows of one call of [calculate], one per output topic. *)
Fixpoint mimo_outputs (w : DataWriter) (outs : list Z) (kinds : list StorageKind.t) (vals : list VarValue) (ts : Z)
  : option (DataWriter * Status) :=
  match outs with
  | [] => Some (w, okStatus)
  | tid :: outs' =>
      '(w, s) ← Writer.beginRow w tid ts;
      match s with
      | Err e => Some (w, Err e)
      | Ok _ =>
          kind ← head kinds;
          v ← head vals;
          w ← write_varvalue w tid 0 v kind;
          '(w, s) ← Writer.finishRow w tid;
          match s with Err e => Some (w, Err e) | Ok _ => mimo_outputs w outs' (tail kinds) (tail vals) ts end
      end
  end.

Record MimoRun := mkMimoRun { mr_op : MOp; mr_out : list VarValue; mr_writer : DataWriter; mr_wrote : bool }.

Definition mimo_step (r : MimoRun) (tables : list (gmap Z SampleLoc)) (in_kinds out_kinds : list StorageKind.t)
    (outs : list Z) (ts : Z) : option (MimoRun * Status) :=
  vals ← decode_inputs tables in_kinds ts;
  let '(op, wrote, (out_ts, out)) := mimo_calculate (mr_op r) ts vals (ts, mr_out r) in
  if (wrote : bool) then
    '(w, s) ← mimo_outputs (mr_writer r) outs out_kinds out out_ts;
    match s with
    | Err e => Some (mkMimoRun op out w (mr_wrote r), Err e)
    | Ok _ => Some (mkMimoRun op out w true, okStatus)
    end
  else Some (mkMimoRun op out (mr_writer r) (mr_wrote r), okStatus).

Fixpoint mimo_rows (todo : list Z) (r : MimoRun) (tables : list (gmap Z SampleLoc)) (in_kinds out_kinds : list StorageKind.t)
    (outs : list Z) : option (MimoRun * Status) :=
  match todo with
  | [] => Some (r, okStatus)
  | ts :: rest =>
      '(r, s) ← mimo_step r tables in_kinds out_kinds outs ts;
      match s with Err e => Some (r, Err e) | Ok _ => mimo_rows rest r tables in_kinds out_kinds outs end
  end.

(** [v.resize(n)]: new elements hold the first alternative. *)
Definition resize (n : nat) (l : list VarValue) : list VarValue := take n l ++ replicate (n - length l) (VarInt 0).

Definition run_mimo_incremental (e : DataEngine) (next_chunk_id : Z) (n : Node) (in_kinds out_kinds : list StorageKind.t)
    (op : MOp) : option (DataEngine * Z * Node * Status) :=
  let node op out last_ts :=
    mkNode (nd_id n) (Mimo in_kinds out_kinds op) (all_input_topic_ids n) (output_topic_ids n) (dirty n)
      (last_processed_chunk_id n) last_ts (out_val_buf n) out in
  if bool_decide (all_input_topic_ids n = []) then Some (e, next_chunk_id, n, okStatus)
  else
    collected ← collect_all e (all_input_topic_ids n) (mimo_last_ts n);
    match collected with
    | Err err => Some (e, next_chunk_id, n, Err err)
    | Ok None => Some (e, next_chunk_id, n, okStatus)
    | Ok (Some per_topic) =>
        match last (joined per_topic) with
        | None => Some (e, next_chunk_id, n, okStatus)
        | Some back =>
            let tables := map lookup_table per_topic in
            let start := mkMimoRun op (resize (length (output_topic_ids n)) (mimo_out_buf n)) (Writer.make e next_chunk_id) false in
            '(r, status) ← mimo_rows (joined per_topic) start tables in_kinds out_kinds (output_topic_ids n);
            match status with
            | Err err => Some (e, next_chunk_id_ (mr_writer r), node (mr_op r) (mr_out r) (mimo_last_ts n), Err err)
            | Ok _ =>
                '(e, next) ← (if mr_wrote r then commit_run (mr_writer r) else Some (e, next_chunk_id_ (mr_writer r)));
                Some (e, next, node (mr_op r) (mr_out r) back, okStatus)
            end
        end
    end.

Definition run_node (e : DataEngine) (next_chunk_id : Z) (n : Node) : option (DataEngine * Z * Node * Status) :=
  match transform n with
  | Siso input in_kind out_kind op => run_siso_incremental e next_chunk_id n input in_kind out_kind op
  | Mimo in_kinds out_kinds op => run_mimo_incremental e next_chunk_id n in_kinds out_kinds op
  end.

(** ** Scheduling *)

(** One input of the node the walk upstream is at. *)
Definition visit (d : State) (qf : list Z * gset Z) (input : Z) : list Z * gset Z :=
  let '(q, f) := qf in
  match output_topic_to_node d !! input with
  | None => (q, f)
  | Some prod => if decide (prod ∈ f) then (q, f) else (q ++ [prod], {[prod]} ∪ f)
  end.

(** The breadth-first walk upstream; [None] if it has not ended. *)
Fixpoint upstream_loop (fuel : nat) (d : State) (queue : list Z) (seen : gset Z) : option (gset Z) :=
  match queue with
  | [] => Some seen
  | curr :: queue =>
      match fuel with
      | O => None
      | S fuel' =>
          match nodes d !! curr with
          | None => upstream_loop fuel' d queue seen
          | Some n =>
              let '(queue, seen) := fold_left (visit d) (all_input_topic_ids n) (queue, seen) in
              upstream_loop fuel' d queue seen
          end
      end
  end.

Definition upstream_filter (d : State) (active : list Z) : option (gset Z) :=
  let start := filter (fun n => is_Some (nodes d !! n)) active in
  upstream_loop (length start + size (output_topic_to_node d)) d start (list_to_set start).

(** The loop over the order; [considered] is the test on [filter]. *)
Fixpoint schedule_loop (d : State) (order : list Z) (considered : Z -> bool) : option (State * Status) :=
  match order with
  | [] => Some (d, okStatus)
  | id :: rest =>
      if negb (considered id) then schedule_loop d rest considered
      else
        n ← nodes d !! id;
        if negb (dirty n) then schedule_loop d rest considered
        else
          '(e, next, n, s) ← run_node (dr_engine d) (dr_next_chunk_id d) n;
          let d := with_engine d e next in
          match s with
          | Err err => Some (with_nodes d (<[id := n]> (nodes d)), Err err)
          | Ok _ =>
              let ns := mark_dirty (<[id := set_dirty n false]> (nodes d)) (default [] (downstream_of d !! id)) in
              schedule_loop (with_nodes d ns) rest considered
          end
  end.

(** [active_nodes] is a set: the elements of [active] differ. *)
Definition scheduleActive (d : State) (active : list Z) : option (State * Status) :=
  order ← topologicalOrder d;
  match active with
  | [] => schedule_loop d order (fun _ => true)
  | _ =>
      considered ← upstream_filter d active;
      schedule_loop d order (fun id => bool_decide (id ∈ considered))
  end.

Definition scheduleAll (d : State) : option (State * Status) := scheduleActive d [].

Definition clear_outputs (e : DataEngine) (outs : list Z) : DataEngine :=
  fold_left (fun e tid => match Engine.getTopicStorage e tid with
                          | Some s => Engine.with_topics e (<[tid := Storage.clearChunks s]> (topics e))
                          | None => e
                          end) outs e.

Definition reset_transform (t : Transform SOp MOp) : Transform SOp MOp :=
  match t with
  | Siso input in_kind out_kind op => Siso input in_kind out_kind (siso_reset op)
  | Mimo in_kinds out_kinds op => Mimo in_kinds out_kinds (mimo_reset op)
  end.

Definition reset_node (n : Node) : Node :=
  mkNode (nd_id n) (reset_transform (transform n)) (all_input_topic_ids n) (output_topic_ids n) (dirty n) 0
    (match transform n with Siso _ _ _ _ => mimo_last_ts n | Mimo _ _ _ => INT64_MIN end) (out_val_buf n) (mimo_out_buf n).

Definition recompute_batch (d : State) (id : Z) : option (State * Status) :=
  match nodes d !! id with
  | None => Some (d, Err ("recompute_batch: node " +:+ pretty id +:+ " not found"))
  | Some n =>
      let e := clear_outputs (dr_engine d) (output_topic_ids n) in
      '(e, next, n, s) ← run_node e (dr_next_chunk_id d) (reset_node n);
      let d := with_engine d e next in
      match s with
      | Err err => Some (with_nodes d (<[id := n]> (nodes d)), Err err)
      | Ok _ => Some (with_nodes d (<[id := set_dirty n false]> (nodes d)), okStatus)
      end
  end.

End Engine.
End Derived.

(** ** DerivativeTransform *)

Record DerivativeTransform := mkDerivative { prev_time_ : Z; prev_value_ : double; has_prev_ : bool }.

Module Derivative.

Definition reset (d : DerivativeTransform) : DerivativeTransform := mkDerivative 0 f64_zero false.

(** The double literal 1e-9. *)
Definition nano : double := f64_of_bits 0x3E112E0BE826D695.

Definition calculate (d : DerivativeTransform) (time : Z) (input : VarValue) (out : Z * VarValue)
  : DerivativeTransform * bool * (Z * VarValue) :=
  let v := varvalue_as_double input in
  if has_prev_ d then
    let dt := f64_mul (f64_of_Z (i64 (time - prev_time_ d))) nano in
    let slope := if f64_lt f64_zero dt then f64_div (f64_sub v (prev_value_ d)) dt else f64_zero in
    (mkDerivative time v true, true, (time, VarDouble slope))
  else (mkDerivative time v true, false, out).

End Derivative.

#[export] Instance derivative_siso : ISISOTransform DerivativeTransform := {
  siso_reset := Derivative.reset;
  siso_outputKind _ _ := StorageKind.kFloat64;
  siso_calculate := Derivative.calculate
}.
