(* ===== verification/DerivedRun.v ===== *)
(** * DerivedRun: running a node keeps the engine consistent

    The runs of [src/pj_datastore/src/derived_engine.cpp] write through a
    [DataWriter] of their own and commit what it flushes, so they are calls of
    [WriterState]: whatever the transform computes, the engine stays
    consistent and keeps its topics. *)

From S2P Require Import Prelude Types TypeTree TypeRegistry Float64 Buffer Encoding Column Chunk Query TopicStorage Engine Writer Ingest Layout WriterState Derived.

(** Timestamps are [int64_t]. *)
Class SisoTimes (SOp : Type) `{ISISOTransform SOp} := siso_times : forall op ts v out op' wrote out',
  siso_calculate op ts v out = (op', wrote, out') -> in_s 64 ts -> in_s 64 out.1 -> in_s 64 out'.1.
Class MimoTimes (MOp : Type) `{IMIMOTransform MOp} := mimo_times : forall op ts vs out op' wrote out',
  mimo_calculate op ts vs out = (op', wrote, out') -> in_s 64 ts -> in_s 64 out.1 -> in_s 64 out'.1.

#[export] Instance derivative_times : SisoTimes DerivativeTransform.
Proof.
  intros op ts v out op' wrote out' H Ht Ho. cbn in H. unfold Derivative.calculate in H.
  destruct (has_prev_ op); injection H as _ _ <-; done.
Qed.

Definition topics_kept (e e' : DataEngine) : Prop := forall t, is_Some (topics e !! t) -> is_Some (topics e' !! t).

#[export] Instance topics_kept_preorder : PreOrder topics_kept.
Proof. split; [by intros e t|]. intros a b c H1 H2 t Ht. by apply H2, H1. Qed.

Lemma commit_topics_kept e chunks : topics_kept e (Engine.commitChunks e chunks).1.
Proof.
  intros t Ht. pose proof (commit_loop_spec chunks e []) as Hspec. unfold Engine.commitChunks.
  destruct (Engine.commit_loop e chunks []) as [e' ch]. destruct Hspec as (_ & Htop & _). cbn. rewrite Htop. by apply fmap_is_Some.
Qed.

Lemma storage_chunks_wf e id s : engine_ok e -> Engine.getTopicStorage e id = Some s -> Forall chunk_wf (sealed_chunks_ s).
Proof. intros He Hs. apply deque_wf_forall. by eapply en_chunks. Qed.

Lemma chunk_time_range c i t : chunk_wf c -> timestamps c !! i = Some t -> in_s 64 t.
Proof. intros Hc Ht. pose proof (cw_range _ Hc) as Hr. rewrite Forall_lookup in Hr. by eapply Hr. Qed.

Lemma kept_trans w1 w2 w3 : kept w1 w2 -> kept w2 w3 -> kept w1 w3.
Proof. intros [_ H1] [? H2]. split; [done|]. by rewrite H2. Qed.

Lemma kept_self w : writer_ok w -> kept w w.
Proof. by split. Qed.

Lemma write_varvalue_ok w tid col v kind w' : writer_ok w -> write_varvalue w tid col v kind = Some w' -> kept w w'.
Proof.
  intros Hw H. unfold write_varvalue in H. apply bind_Some in H as ([x|] & _ & H); [by eapply set_ok|]. injection H as <-. by apply kept_self.
Qed.

(** [beginRow], [write_varvalue], [finishRow]. *)
Lemma output_row_ok w w1 w2 w3 tid ts v kind s s' : writer_ok w -> in_s 64 ts ->
  Writer.beginRow w tid ts = Some (w1, s) -> write_varvalue w1 tid 0 v kind = Some w2 ->
  Writer.finishRow w2 tid = Some (w3, s') -> kept w w3.
Proof.
  intros Hw Ht H1 H2 H3. pose proof (beginRow_ok _ _ _ _ _ Hw Ht H1) as K1.
  pose proof (write_varvalue_ok _ _ _ _ _ _ (proj1 K1) H2) as K2. eapply kept_trans; [exact K1|]. eapply kept_trans; [exact K2|].
  eapply finishRow_ok; [apply K2|done].
Qed.

Section Run.
Context {SOp MOp : Type} `{HS : ISISOTransform SOp} `{HM : IMIMOTransform MOp} `{HST : !SisoTimes SOp} `{HMT : !MimoTimes MOp}.
Context (iter : forall A, gmap Z A -> list (Z * A)).
Context (Hiter : forall A (m : gmap Z A), iter A m ≡ₚ map_to_list m).

Lemma commit_run_ok w e next : writer_ok w -> Derived.commit_run iter w = Some (e, next) ->
  engine_ok e /\ topics_kept (engine w) e.
Proof.
  intros Hw H. unfold Derived.commit_run in H. apply bind_Some in H as ([w' chunks] & Hf & [= <- <-]).
  destruct (flushAll_ok iter Hiter _ _ _ Hw Hf) as [[Hw' He] Hc]. split; [apply commitChunks_ok; [apply Hw'|done]|].
  rewrite <- He. apply commit_topics_kept.
Qed.

(** *** SISO *)

Definition siso_ok (e : DataEngine) (r : Derived.SisoRun (SOp := SOp)) : Prop :=
  writer_ok (Derived.sr_writer r) /\ engine (Derived.sr_writer r) = e /\ in_s 64 (Derived.sr_out_ts r).

Lemma siso_sample_ok e r out kind ts v r' s : siso_ok e r -> in_s 64 ts ->
  Derived.siso_sample r out kind ts v = Some (r', s) -> siso_ok e r'.
Proof.
  intros (Hw & He & Ho) Ht H. unfold Derived.siso_sample in H.
  destruct (siso_calculate _ _ _ _) as [[op wrote] [out_ts out_val]] eqn:Ec. pose proof (siso_times _ _ _ _ _ _ _ Ec Ht Ho) as Hot. cbn in Hot.
  destruct wrote; [|by simplify_eq]. apply bind_Some in H as ([w1 s1] & H1 & H).
  destruct s1; [|simplify_eq; destruct (beginRow_ok _ _ _ _ _ Hw Hot H1) as [? He1]; split_and!; [done|cbn; by rewrite He1|done]].
  apply bind_Some in H as (w2 & H2 & H). apply bind_Some in H as ([w3 s3] & H3 & H).
  destruct (output_row_ok _ _ _ _ _ _ _ _ _ _ Hw Hot H1 H2 H3) as [? He3].
  destruct s3; simplify_eq; (split_and!; [done|cbn; by rewrite He3|done]).
Qed.

Lemma siso_rows_ok e n : forall i r out in_kind out_kind chunk r' s, siso_ok e r -> chunk_wf chunk ->
  Derived.siso_rows n i r out in_kind out_kind chunk = Some (r', s) -> siso_ok e r'.
Proof.
  induction n as [|n IH]; intros i r out in_kind out_kind chunk r' s Hr Hc H; cbn in H; [by simplify_eq|].
  apply bind_Some in H as (ts & Hts & H). apply bind_Some in H as (v & _ & H). apply bind_Some in H as ([r1 s1] & H1 & H).
  assert (Hr1 : siso_ok e r1) by (eapply siso_sample_ok; [done|by eapply chunk_time_range|done]).
  destruct s1; [by eapply IH|by simplify_eq].
Qed.

Lemma siso_chunks_ok e chunks : forall wm seen r out in_kind out_kind r' seen' s, siso_ok e r -> Forall chunk_wf chunks ->
  Derived.siso_chunks chunks wm seen r out in_kind out_kind = Some (r', seen', s) -> siso_ok e r'.
Proof.
  induction chunks as [|c chunks IH]; intros wm seen r out in_kind out_kind r' seen' s Hr Hc H; cbn in H; [by simplify_eq|].
  apply Forall_cons in Hc as [Hc Hcs]. destruct (_ <=? wm); [by eapply IH|]. apply bind_Some in H as ([r1 s1] & H1 & H).
  assert (Hr1 : siso_ok e r1) by by eapply siso_rows_ok. destruct s1; [by eapply IH|by simplify_eq].
Qed.

Lemma run_siso_ok e next (n : DerivedNode SOp MOp) input in_kind out_kind op e' next' n' s : engine_ok e ->
  Derived.run_siso_incremental iter e next n input in_kind out_kind op = Some (e', next', n', s) ->
  engine_ok e' /\ topics_kept e e'.
Proof.
  intros He H. unfold Derived.run_siso_incremental in H. destruct (Engine.getTopicStorage e input) as [st|] eqn:Es; [|by simplify_eq].
  apply bind_Some in H as (out & _ & H). apply bind_Some in H as ([[r seen] s1] & H1 & H).
  assert (Hr : siso_ok e r).
  { eapply siso_chunks_ok; [|by eapply storage_chunks_wf|exact H1]. split_and!; [by apply make_writer_ok|done|done]. }
  destruct Hr as (Hw & Hre & _). destruct s1; [|by simplify_eq]. apply bind_Some in H as ([e1 next1] & Hc & H). injection H as <- _ _ _.
  destruct (Derived.sr_wrote r); [|by simplify_eq]. rewrite <- Hre. by eapply commit_run_ok.
Qed.

(** *** MIMO *)

Lemma new_rows_times c last n : forall r locs, chunk_wf c -> Derived.new_rows n r c last = Some locs ->
  Forall (fun l => in_s 64 (Derived.sl_ts l)) locs.
Proof.
  induction n as [|n IH]; intros r locs Hc H; cbn in H; [by simplify_eq|]. apply bind_Some in H as (ts & Hts & H).
  apply bind_Some in H as (rest & Hrest & H). injection H as <-. specialize (IH _ _ Hc Hrest).
  destruct (ts <=? last); [done|]. constructor; [|done]. by eapply chunk_time_range.
Qed.

Lemma collect_times chunks last : forall locs, Forall chunk_wf chunks -> Derived.collect chunks last = Some locs ->
  Forall (fun l => in_s 64 (Derived.sl_ts l)) locs.
Proof.
  induction chunks as [|c chunks IH]; intros locs Hc H; cbn in H; [by simplify_eq|]. apply Forall_cons in Hc as [Hc Hcs].
  destruct (_ <=? last); [by apply IH|]. apply bind_Some in H as (here & Hh & H). apply bind_Some in H as (rest & Hr & [= <-]).
  apply Forall_app. split; [by eapply new_rows_times|by apply IH].
Qed.

Lemma collect_all_times e inputs last : forall per_topic, engine_ok e ->
  Derived.collect_all e inputs last = Some (Ok (Some per_topic)) ->
  Forall (Forall (fun l => in_s 64 (Derived.sl_ts l))) per_topic.
Proof.
  induction inputs as [|tid inputs IH]; intros per_topic He H; cbn in H; [by simplify_eq|].
  destruct (Engine.getTopicStorage e tid) as [s|] eqn:Es; [|done]. apply bind_Some in H as (locs & Hl & H).
  destruct locs as [|l locs]; [done|]. apply bind_Some in H as (more & Hm & H). injection H as H.
  destruct more as [[k|]|]; try done. injection H as <-. constructor; [|by apply IH].
  eapply collect_times; [|exact Hl]. by eapply storage_chunks_wf.
Qed.

Lemma joined_times per_topic : Forall (Forall (fun l => in_s 64 (Derived.sl_ts l))) per_topic ->
  Forall (in_s 64) (Derived.joined per_topic).
Proof.
  intros H. destruct H as [|first others Hf _]; [constructor|]. cbn.
  assert (Hg : forall ts : list Z, Forall (in_s 64) ts -> Forall (in_s 64) (fold_left (fun ts locs =>
    filter (fun t => t ∈ (list_to_set (map Derived.sl_ts locs) : gset Z)) ts) others ts)).
  { clear Hf. induction others as [|l others IH]; intros ts Hts; [done|]. cbn. apply IH. rewrite Forall_forall in Hts |- *.
    intros t [_ Ht]%list_elem_of_filter. by apply Hts. }
  apply Forall_forall. intros t Ht. rewrite unique_elem in Ht. revert t Ht. apply Forall_forall, Hg. by apply Forall_map.
Qed.

Lemma mimo_outputs_ok outs : forall w kinds vals ts w' s, writer_ok w -> in_s 64 ts ->
  Derived.mimo_outputs w outs kinds vals ts = Some (w', s) -> kept w w'.
Proof.
  induction outs as [|tid outs IH]; intros w kinds vals ts w' s Hw Ht H; cbn in H; [simplify_eq; by apply kept_self|].
  apply bind_Some in H as ([w1 s1] & H1 & H). destruct s1; [|simplify_eq; by eapply beginRow_ok].
  apply bind_Some in H as (kind & _ & H). apply bind_Some in H as (v & _ & H). apply bind_Some in H as (w2 & H2 & H).
  apply bind_Some in H as ([w3 s3] & H3 & H). pose proof (output_row_ok _ _ _ _ _ _ _ _ _ _ Hw Ht H1 H2 H3) as K3.
  destruct s3; [|by simplify_eq]. eapply kept_trans; [exact K3|]. eapply IH; [apply K3|done..].
Qed.

Lemma mimo_rows_ok todo : forall (r : Derived.MimoRun (MOp := MOp)) tables in_kinds out_kinds outs r' s, writer_ok (Derived.mr_writer r) -> Forall (in_s 64) todo ->
  Derived.mimo_rows todo r tables in_kinds out_kinds outs = Some (r', s) -> kept (Derived.mr_writer r) (Derived.mr_writer r').
Proof.
  induction todo as [|ts todo IH]; intros r tables in_kinds out_kinds outs r' s Hw Ht H; cbn in H; [simplify_eq; by apply kept_self|].
  apply Forall_cons in Ht as [Ht Hts]. apply bind_Some in H as ([r1 s1] & H1 & H).
  assert (K1 : kept (Derived.mr_writer r) (Derived.mr_writer r1)).
  { unfold Derived.mimo_step in H1. apply bind_Some in H1 as (vals & _ & H1).
    destruct (mimo_calculate _ _ _ _) as [[op wrote] [out_ts out]] eqn:Ec. pose proof (mimo_times _ _ _ _ _ _ _ Ec Ht Ht) as Hot.
    destruct wrote; [|simplify_eq; by apply kept_self]. apply bind_Some in H1 as ([w2 s2] & H2 & H1).
    pose proof (mimo_outputs_ok _ _ _ _ _ _ _ Hw Hot H2). destruct s2; by simplify_eq. }
  destruct s1; [|by simplify_eq]. eapply kept_trans; [exact K1|]. eapply IH; [apply K1|done..].
Qed.

Lemma run_mimo_ok e next (n : DerivedNode SOp MOp) in_kinds out_kinds op e' next' n' s : engine_ok e ->
  Derived.run_mimo_incremental iter e next n in_kinds out_kinds op = Some (e', next', n', s) ->
  engine_ok e' /\ topics_kept e e'.
Proof.
  intros He H. unfold Derived.run_mimo_incremental in H. case_bool_decide; [by simplify_eq|].
  apply bind_Some in H as (collected & Hcol & H). destruct collected as [[per_topic|]|err]; [|by simplify_eq..].
  destruct (last (Derived.joined per_topic)) as [back|]; [|by simplify_eq]. apply bind_Some in H as ([r s1] & H1 & H).
  pose proof (joined_times _ (collect_all_times _ _ _ _ He Hcol)) as Ht.
  apply mimo_rows_ok in H1 as [Hw Hre]; [|by apply make_writer_ok|done]. cbn in Hre.
  destruct s1; [|by simplify_eq]. apply bind_Some in H as ([e1 next1] & Hc & H). injection H as <- _ _ _.
  destruct (Derived.mr_wrote r); [|by simplify_eq]. rewrite <- Hre. by eapply commit_run_ok.
Qed.

Lemma run_node_ok e next (n : DerivedNode SOp MOp) e' next' n' s : engine_ok e -> Derived.run_node iter e next n = Some (e', next', n', s) ->
  engine_ok e' /\ topics_kept e e'.
Proof.
  unfold Derived.run_node. destruct (transform n); intros He H; [by eapply run_siso_ok|by eapply run_mimo_ok].
Qed.

(** A run changes the transform and the bookkeeping of a node only. *)
Lemma run_node_shape e next (n : DerivedNode SOp MOp) e' next' n' s : Derived.run_node iter e next n = Some (e', next', n', s) ->
  nd_id n' = nd_id n /\ all_input_topic_ids n' = all_input_topic_ids n /\ output_topic_ids n' = output_topic_ids n.
Proof.
  unfold Derived.run_node. destruct (transform n); intros H.
  - unfold Derived.run_siso_incremental in H. destruct (Engine.getTopicStorage e _); [|by simplify_eq].
    apply bind_Some in H as (out & _ & H). apply bind_Some in H as ([[r seen] s1] & _ & H). destruct s1; [|by simplify_eq].
    apply bind_Some in H as ([e1 next1] & _ & H). by simplify_eq.
  - unfold Derived.run_mimo_incremental in H. case_bool_decide; [by simplify_eq|].
    apply bind_Some in H as (collected & _ & H). destruct collected as [[per_topic|]|err]; [|by simplify_eq..].
    destruct (last _); [|by simplify_eq]. apply bind_Some in H as ([r s1] & _ & H). destruct s1; [|by simplify_eq].
    apply bind_Some in H as ([e1 next1] & _ & H). by simplify_eq.
Qed.

End Run.
