(* ===== verification/DerivedGraph.v ===== *)
(** * DerivedGraph: the dependency graph and its order

    [src/pj_datastore/src/derived_engine.cpp] keeps the graph in four maps.  Here:
    the invariant that ties them to the nodes, that adding and removing nodes
    keep it, and that running nodes keeps it: it holds of every state a client
    can reach. *)

From S2P Require Import Prelude Types TypeTree TypeRegistry Float64 Buffer Encoding Column Chunk Query TopicStorage Engine Writer Ingest Layout WriterState Derived DerivedRun.

Section Graph.
Context {SOp MOp : Type} `{HS : ISISOTransform SOp} `{HM : IMIMOTransform MOp} `{HST : !SisoTimes SOp} `{HMT : !MimoTimes MOp}.
Context (iter : forall A, gmap Z A -> list (Z * A)) (iter_names : gmap (Z * string) Z -> list (Z * string * Z)).
Context (Hiter : forall A (m : gmap Z A), iter A m ≡ₚ map_to_list m).
Abbreviation State := (DerivedEngine SOp MOp).

(** The nodes listed downstream of [u]. *)
Definition successors (d : State) (u : Z) : list Z := default [] (downstream_of d !! u).

Record graph_ok (d : State) : Prop := {
  gr_engine : engine_ok (dr_engine d);
  gr_ids : forall id n, nodes d !! id = Some n -> nd_id n = id /\ 0 < id < next_node_id_ d;
  gr_topics : forall id n t, nodes d !! id = Some n -> t ∈ all_input_topic_ids n ++ output_topic_ids n ->
    is_Some (topics (dr_engine d) !! t);
  gr_outputs : forall t u, output_topic_to_node d !! t = Some u
    <-> exists n, nodes d !! u = Some n /\ t ∈ output_topic_ids n;
  gr_inputs : forall t v, v ∈ default [] (topic_to_nodes d !! t)
    <-> exists n, nodes d !! v = Some n /\ t ∈ all_input_topic_ids n;
  gr_edges : forall u v, v ∈ successors d u
    <-> exists n t, nodes d !! v = Some n /\ t ∈ all_input_topic_ids n /\ output_topic_to_node d !! t = Some u;
  gr_forward : forall u v, v ∈ successors d u -> u < v;
  gr_nodup : forall u, NoDup (successors d u);
  gr_keys : forall u, is_Some (downstream_of d !! u) -> is_Some (nodes d !! u);
  gr_next : 0 < next_node_id_ d
}.

Lemma make_graph_ok e n : engine_ok e -> graph_ok (Derived.make e n).
Proof.
  intros He. split; cbn; try done; try (intros *; rewrite ?lookup_empty; split; [by intros ?%not_elem_of_nil || done|naive_solver]).
  - intros u v. unfold successors. cbn. rewrite lookup_empty. by intros ?%not_elem_of_nil.
  - intros u. unfold successors. cbn. rewrite lookup_empty. constructor.
  - intros u [? H]. by rewrite lookup_empty in H.
Qed.

(** ** Adding a node *)

Lemma fold_insert_lookup (outs : list Z) (id : Z) : forall (m : gmap Z Z) t,
  fold_left (fun m out => <[out := id]> m) outs m !! t = if decide (t ∈ outs) then Some id else m !! t.
Proof.
  induction outs as [|o outs IH]; intros m t; cbn [fold_left]; [by rewrite decide_False by apply not_elem_of_nil|].
  rewrite IH. destruct (decide (t ∈ outs)) as [Hin|Hin].
  - rewrite decide_True; [done|by right].
  - destruct (decide (t = o)) as [->|Hne].
    + rewrite lookup_insert_eq, decide_True; [done|by left].
    + rewrite lookup_insert_ne, decide_False; [done|by apply not_elem_of_cons|done].
Qed.

Lemma push_node_elem m key id t v : v ∈ default [] (Derived.push_node m key id !! t)
  <-> v ∈ default [] (m !! t) \/ (v = id /\ t = key).
Proof.
  unfold Derived.push_node. destruct (decide (t = key)) as [->|Hne].
  - rewrite lookup_insert_eq. cbn. rewrite elem_of_app, list_elem_of_singleton. naive_solver.
  - rewrite lookup_insert_ne by done. naive_solver.
Qed.

Lemma fold_push_elem (inputs : list Z) (id : Z) : forall (m : gmap Z (list Z)) t v,
  v ∈ default [] (fold_left (fun m i => Derived.push_node m i id) inputs m !! t)
  <-> v ∈ default [] (m !! t) \/ (v = id /\ t ∈ inputs).
Proof.
  induction inputs as [|i inputs IH]; intros m t v; cbn [fold_left].
  - rewrite elem_of_nil. naive_solver.
  - rewrite IH, push_node_elem, elem_of_cons. naive_solver.
Qed.

(** One step of [add_edges]. *)
Lemma add_edges_spec (outputs : gmap Z Z) (id : Z) (inputs : list Z) : forall m : gmap Z (list Z),
  (forall u, NoDup (default [] (m !! u))) ->
  let m' := Derived.add_edges outputs inputs id m in
  (forall u v, v ∈ default [] (m' !! u)
     <-> v ∈ default [] (m !! u) \/ (v = id /\ exists t, t ∈ inputs /\ outputs !! t = Some u))
  /\ (forall u, NoDup (default [] (m' !! u)))
  /\ (forall u, is_Some (m' !! u) -> is_Some (m !! u) \/ exists t, t ∈ inputs /\ outputs !! t = Some u).
Proof.
  induction inputs as [|i inputs IH]; intros m Hnd; cbn zeta.
  { split_and!; [|done|auto]. intros u v. split; [auto|]. intros [?|[_ (t & Ht & _)]]; [done|]. by apply not_elem_of_nil in Ht. }
  unfold Derived.add_edges. cbn [fold_left]. set (m1 := match outputs !! i with Some _ => _ | None => m end).
  assert (H1 : (forall u v, v ∈ default [] (m1 !! u) <-> v ∈ default [] (m !! u) \/ (v = id /\ outputs !! i = Some u))
    /\ (forall u, NoDup (default [] (m1 !! u))) /\ (forall u, is_Some (m1 !! u) -> is_Some (m !! u) \/ outputs !! i = Some u)).
  { unfold m1. destruct (outputs !! i) as [p|]; [|split_and!; [naive_solver|done|auto]]. case_bool_decide as Hin.
    - assert (Hd : forall u, default [] (<[p := default [] (m !! p)]> m !! u) = default [] (m !! u)).
      { intros u. destruct (decide (u = p)) as [->|Hne]; [by rewrite lookup_insert_eq|by rewrite lookup_insert_ne]. }
      split_and!; [|intros u; by rewrite Hd|].
      + intros u v. rewrite Hd. split; [auto|]. intros [?|[-> [= ->]]]; done.
      + intros u. destruct (decide (u = p)) as [->|Hne]; [by right|rewrite lookup_insert_ne by done; by left].
    - split_and!.
      + intros u v. rewrite push_node_elem. naive_solver.
      + intros u. unfold Derived.push_node. destruct (decide (u = p)) as [->|Hne]; [|by rewrite lookup_insert_ne].
        rewrite lookup_insert_eq. cbn. apply NoDup_app. split_and!; [done| |by apply NoDup_singleton].
        intros x Hx ->%list_elem_of_singleton. done.
      + intros u. unfold Derived.push_node. destruct (decide (u = p)) as [->|Hne]; [by right|].
        rewrite lookup_insert_ne by done. by left. }
  destruct H1 as (Ha & Hb & Hc). destruct (IH m1 Hb) as (Ia & Ib & Ic). unfold Derived.add_edges in Ia, Ib, Ic.
  split_and!; [|done|].
  - intros u v. rewrite Ia, Ha. setoid_rewrite elem_of_cons. naive_solver.
  - intros u Hu. destruct (Ic u Hu) as [Hm|(t & ? & ?)]; [|right; exists t; split; [by right|done]].
    destruct (Hc u Hm) as [?|?]; [by left|]. right. exists i. split; [by left|done].
Qed.

(** A node with fresh outputs joins the graph. *)
Lemma attach_ok (d d' : State) id node : graph_ok d -> next_node_id_ d + 1 < 2 ^ 32 ->
  id = next_node_id_ d -> nd_id node = id ->
  engine_ok (dr_engine d') -> next_node_id_ d' = u32 (id + 1) ->
  (forall t, is_Some (topics (dr_engine d) !! t) -> is_Some (topics (dr_engine d') !! t)) ->
  (forall t, t ∈ all_input_topic_ids node -> is_Some (topics (dr_engine d) !! t)) ->
  (forall t, t ∈ output_topic_ids node -> topics (dr_engine d) !! t = None /\ is_Some (topics (dr_engine d') !! t)) ->
  nodes d' = <[id := node]> (nodes d) ->
  output_topic_to_node d' = fold_left (fun m out => <[out := id]> m) (output_topic_ids node) (output_topic_to_node d) ->
  topic_to_nodes d' = fold_left (fun m i => Derived.push_node m i id) (all_input_topic_ids node) (topic_to_nodes d) ->
  downstream_of d' = Derived.add_edges (output_topic_to_node d') (all_input_topic_ids node) id (downstream_of d) ->
  graph_ok d'.
Proof.
  intros [He Hi Ht Ho Hin Hed Hf Hnd Hk Hn] Hlt -> Hid He' Hn' Hmono Hins Houts Hnodes Hout Htop Hdown.
  set (id := next_node_id_ d) in *. rewrite wrapU_small in Hn' by (split; lia).
  assert (Hfresh : nodes d !! id = None).
  { destruct (nodes d !! id) eqn:E; [|done]. apply Hi in E. unfold id in *. lia. }
  assert (Hlook : forall v n, nodes d' !! v = Some n <-> (v = id /\ n = node) \/ nodes d !! v = Some n).
  { intros v n. rewrite Hnodes. destruct (decide (v = id)) as [->|Hne].
    - rewrite lookup_insert_eq, Hfresh. naive_solver.
    - rewrite lookup_insert_ne by done. naive_solver. }
  assert (Hlo : forall t, output_topic_to_node d' !! t
    = if decide (t ∈ output_topic_ids node) then Some id else output_topic_to_node d !! t).
  { intros t. by rewrite Hout, fold_insert_lookup. }
  assert (Hsame : forall v n t, nodes d !! v = Some n -> t ∈ all_input_topic_ids n -> t ∉ output_topic_ids node).
  { intros v n t Hv Htn Hto. destruct (Houts t Hto) as [Hnone _]. destruct (Ht v n t Hv) as [? ?]; [|congruence].
    apply elem_of_app. by left. }
  assert (Hown : forall t, t ∈ all_input_topic_ids node -> t ∉ output_topic_ids node).
  { intros t Hti Hto. destruct (Houts t Hto) as [Hnone _]. destruct (Hins t Hti) as [? ?]. congruence. }
  destruct (add_edges_spec (output_topic_to_node d') id (all_input_topic_ids node) (downstream_of d) Hnd) as (Ea & Eb & Ec).
  rewrite <- Hdown in Ea, Eb, Ec. fold (successors d') in Ea, Eb.
  split; [done| | | | | | |done| |lia].
  - intros v n [[-> ->]|Hv]%Hlook; [rewrite Hid; lia|]. apply Hi in Hv. lia.
  - intros v n t [[-> ->]|Hv]%Hlook Htn; [|by apply Hmono; eapply Ht].
    apply elem_of_app in Htn as [Htn|Htn]; [by apply Hmono, Hins|by apply Houts].
  - intros t u. rewrite Hlo. setoid_rewrite Hlook. case_decide as Hto.
    + split; [intros [= <-]; eauto|]. intros (n & [[-> ->]|Hu] & Htn); [done|].
      destruct (Houts t Hto) as [Hnone _]. destruct (Ht u n t Hu) as [? ?]; [apply elem_of_app; by right|congruence].
    + rewrite Ho. split; [intros (n & ? & ?); eauto|]. intros (n & [[-> ->]|Hu] & Htn); [done|eauto].
  - intros t v. rewrite Htop, fold_push_elem, Hin. setoid_rewrite Hlook. split.
    + intros [(n & ? & ?)|[-> ?]]; eauto.
    + intros (n & [[-> ->]|Hv] & Htn); [by right|left; eauto].
  - intros u v. unfold successors at 1. rewrite Ea. fold (successors d u). rewrite Hed. setoid_rewrite Hlook. split.
    + intros [(n & t & Hv & Htn & Hp)|[-> (t & Htn & Hp)]].
      * exists n, t. split_and!; [by right|done|]. rewrite Hlo, decide_False by by apply (Hsame v n t). done.
      * exists node, t. split_and!; [by left|done..].
    + intros (n & t & [[-> ->]|Hv] & Htn & Hp); [right; eauto|]. left. exists n, t. split_and!; [done..|].
      rewrite Hlo, decide_False in Hp by by apply (Hsame v n t). done.
  - intros u v. unfold successors at 1. rewrite Ea. fold (successors d u). intros [Hv|[-> (t & Htn & Hp)]]; [by apply Hf|].
    rewrite Hlo, decide_False in Hp by by apply (Hown t). apply Ho in Hp as (n & Hu & _). apply Hi in Hu. unfold id. lia.
  - intros u Hu. rewrite Hnodes, lookup_insert_is_Some'. right. apply Ec in Hu as [Hu|(t & Htn & Hp)]; [by apply Hk|].
    rewrite Hlo, decide_False in Hp by by apply (Hown t). apply Ho in Hp as (n & Hu & _). eauto.
Qed.

(** The invariant looks at the shape of the nodes and at which topics exist. *)
Definition same_shape (n n' : DerivedNode SOp MOp) : Prop :=
  nd_id n' = nd_id n /\ all_input_topic_ids n' = all_input_topic_ids n /\ output_topic_ids n' = output_topic_ids n.

#[local] Instance same_shape_preorder : PreOrder same_shape.
Proof. unfold same_shape. split; [done|]. intros a b c (? & ? & ?) (? & ? & ?). split_and!; congruence. Qed.

Lemma reshape_ok (d d' : State) : graph_ok d -> engine_ok (dr_engine d') ->
  (forall t, is_Some (topics (dr_engine d) !! t) -> is_Some (topics (dr_engine d') !! t)) ->
  (forall v, option_Forall2 same_shape (nodes d !! v) (nodes d' !! v)) ->
  downstream_of d' = downstream_of d -> topic_to_nodes d' = topic_to_nodes d ->
  output_topic_to_node d' = output_topic_to_node d -> next_node_id_ d <= next_node_id_ d' -> graph_ok d'.
Proof.
  intros [He Hi Ht Ho Hin Hed Hf Hnd Hk Hn] He' Hmono Hns Hdown Htop Hout Hnext.
  assert (Hto : forall v n, nodes d !! v = Some n -> exists n', nodes d' !! v = Some n' /\ same_shape n n').
  { intros v n Hv. specialize (Hns v). rewrite Hv in Hns. inversion Hns; subst. eauto. }
  assert (Hfrom : forall v n', nodes d' !! v = Some n' -> exists n, nodes d !! v = Some n /\ same_shape n n').
  { intros v n' Hv. specialize (Hns v). rewrite Hv in Hns. inversion Hns; subst. eauto. }
  split; unfold successors; rewrite ?Hdown, ?Hout, ?Htop; try done; [| | | | | |lia].
  - intros v n' (n & Hv & Hs1 & _)%Hfrom. apply Hi in Hv. rewrite Hs1. lia.
  - intros v n' t (n & Hv & _ & Hs2 & Hs3)%Hfrom. rewrite Hs2, Hs3. intros Htn. apply Hmono. by eapply Ht.
  - intros t u. rewrite Ho. split.
    + intros (n & (n' & ? & _ & _ & Hs)%Hto & ?). exists n'. by rewrite Hs.
    + intros (n' & (n & ? & _ & _ & Hs)%Hfrom & ?). exists n. by rewrite <- Hs.
  - intros t v. rewrite Hin. split.
    + intros (n & (n' & ? & _ & Hs & _)%Hto & ?). exists n'. by rewrite Hs.
    + intros (n' & (n & ? & _ & Hs & _)%Hfrom & ?). exists n. by rewrite <- Hs.
  - intros u v. change (default [] (downstream_of d !! u)) with (successors d u). rewrite Hed. split.
    + intros (n & t & (n' & ? & _ & Hs & _)%Hto & ? & ?). exists n', t. by rewrite Hs.
    + intros (n' & t & (n & ? & _ & Hs & _)%Hfrom & ? & ?). exists n, t. by rewrite <- Hs.
  - intros u Hu. destruct (Hk u Hu) as [n Hv]. apply Hto in Hv as (n' & ? & _). eauto.
Qed.

(** *** Cycle detection *)

Definition pending (d : State) (visited : gset Z) : nat :=
  sum_list_with (fun p => match nodes d !! p.2 with Some n => length (all_input_topic_ids n) | None => 0%nat end)
    (filter (fun p => p.1 ∉ visited) (map_to_list (output_topic_to_node d))).

Lemma sum_filter_le {A} (P : A -> Prop) `{!forall x, Decision (P x)} (f : A -> nat) l :
  (sum_list_with f (filter P l) <= sum_list_with f l)%nat.
Proof. induction l as [|x l IH]; [done|]. rewrite filter_cons. case_decide; cbn; lia. Qed.

Lemma sum_filter_split {B} (f : Z * B -> nat) (l : list (Z * B)) (visited : gset Z) t x : NoDup l.*1 -> (t, x) ∈ l ->
  t ∉ visited ->
  sum_list_with f (filter (fun p => p.1 ∉ visited) l)
  = (f (t, x) + sum_list_with f (filter (fun p => p.1 ∉ ({[t]} ∪ visited)) l))%nat.
Proof.
  induction l as [|[i y] l IH]; [by intros _ ?%not_elem_of_nil|]. cbn [fmap list_fmap fst]. intros [Hi Hnd]%NoDup_cons Hin Ht.
  assert (Hsame : i = t -> filter (fun p => p.1 ∉ visited) l = filter (fun p => p.1 ∉ ({[t]} ∪ visited)) l).
  { intros ->. apply filter_congr, Forall_forall. intros [j z] Hj. cbn.
    assert (j <> t) by (intros ->; apply Hi, list_elem_of_fmap; by exists (t, z)). set_solver. }
  apply elem_of_cons in Hin as [[= <- <-]|Hin].
  - rewrite filter_cons_True by done. rewrite filter_cons_False by (cbn; set_solver).
    cbn. by rewrite <- Hsame.
  - assert (Hne : i <> t) by (intros ->; apply Hi, list_elem_of_fmap; by exists (t, x)).
    destruct (decide (i ∈ visited)) as [Hv|Hv].
    + rewrite !filter_cons_False by (cbn; set_solver). by apply IH.
    + rewrite !filter_cons_True by (cbn; set_solver). cbn. rewrite (IH Hnd Hin Ht). lia.
Qed.

(** The walk ends within its fuel; against no outputs it finds no cycle. *)
Lemma cycle_loop_ends (d : State) outputs fuel : forall stack visited,
  (length stack + pending d visited <= fuel)%nat ->
  exists r, Derived.cycle_loop fuel d outputs stack visited = Some r /\ (outputs = [] -> r = ""%string).
Proof.
  induction fuel as [|fuel IH]; intros [|t stack] visited Hf; cbn [Derived.cycle_loop length] in *; try (by eexists); [lia|].
  destruct (decide (t ∈ visited)) as [Hv|Hv]; [apply IH; lia|].
  destruct (decide (t ∈ outputs)) as [Ho|Ho]; [eexists; split; [done|]; intros ->; by apply not_elem_of_nil in Ho|].
  assert (Hle : (pending d ({[t]} ∪ visited) <= pending d visited)%nat).
  { unfold pending. destruct (output_topic_to_node d !! t) as [n|] eqn:E.
    - rewrite (sum_filter_split _ _ visited t n (NoDup_fst_map_to_list _)) by (done || by apply elem_of_map_to_list). lia.
    - rewrite (filter_congr (fun p => p.1 ∉ ({[t]} ∪ visited)) (fun p => p.1 ∉ visited)); [done|].
      apply Forall_forall. intros [j z] Hj%elem_of_map_to_list. cbn.
      assert (j <> t) by (intros ->; congruence). set_solver. }
  destruct (output_topic_to_node d !! t) as [n|] eqn:E; cbn [mbind option_bind]; [|apply IH; lia].
  destruct (nodes d !! n) as [node|] eqn:En; [|apply IH; lia]. apply IH.
  rewrite length_app, length_rev.
  pose proof (sum_filter_split (fun p => match nodes d !! p.2 with Some n => length (all_input_topic_ids n) | None => 0%nat end)
    _ visited t n (NoDup_fst_map_to_list (output_topic_to_node d)) (proj2 (elem_of_map_to_list _ _ _) E) Hv) as Hsum.
  fold (pending d visited) (pending d ({[t]} ∪ visited)) in Hsum. cbn [snd] in Hsum. rewrite En in Hsum.
  pose proof (length_filter (fun i => i ∉ {[t]} ∪ visited) (all_input_topic_ids node)). lia.
Qed.

Lemma check_cycle_none (d : State) inputs : Derived.check_cycle d inputs [] = Some ""%string.
Proof.
  unfold Derived.check_cycle. destruct (cycle_loop_ends d [] (Derived.cycle_fuel d inputs) (rev inputs) ∅) as (r & -> & Hr).
  - unfold Derived.cycle_fuel, pending. rewrite length_rev. apply Nat.add_le_mono_l, sum_filter_le.
  - by rewrite Hr.
Qed.

(** *** The operations *)

(** [n] more ids of each kind are left. *)
Definition room (e : DataEngine) (n : nat) : Prop :=
  next_topic_id e + Z.of_nat n < 2 ^ 32 /\ next_id (type_registry e) + Z.of_nat n < 2 ^ 32.

Lemma create_output_spec e dataset schema name kind n : engine_ok e -> room e (S n) ->
  let '(e', r) := Derived.create_output e dataset schema name kind in
  engine_ok e' /\ room e' n /\ topics_kept e e'
  /\ (forall out, r = Ok out -> topics e !! out = None /\ is_Some (topics e' !! out)).
Proof.
  intros He [Hr1 Hr2]. unfold Derived.create_output.
  destruct (Registry.registerOrGet _ _ _) as [r sch] eqn:Ereg.
  set (tree := makePrimitive "value" (storage_kind_to_primitive kind)) in Ereg.
  assert (Hstep : registry_step (type_registry e) r).
  { replace r with (Registry.registerOrGet (type_registry e) schema tree).1 by by rewrite Ereg.
    apply step_registerOrGet. lia. }
  assert (Hnext : next_id r <= next_id (type_registry e) + 1).
  { replace r with (Registry.registerOrGet (type_registry e) schema tree).1 by by rewrite Ereg.
    unfold Registry.registerOrGet, Registry.registerSchema. destruct (name_to_id _ !! schema); cbn; [lia|].
    rewrite wrapU_small; [lia|]. pose proof (rg_next _ (en_registry _ He)). split; lia. }
  pose proof (engine_step_ok _ _ (step_registry e r Hstep) He) as He1.
  destruct sch as [sch|err]; cycle 1.
  { split_and!; [done|split; cbn; lia|by intros t|done]. }
  set (td := mkTopicDescriptor name sch dataset 1024 64).
  pose proof (createTopic_ok (Engine.with_registry e r) dataset td He1) as He2.
  pose proof (createTopic_cases (Engine.with_registry e r) dataset td He1) as Hc.
  destruct (Engine.createTopic _ _ _) as [e' out]. destruct Hc as [Hreg Hc]. specialize (He2 ltac:(cbn; lia) ltac:(split; cbn; lia)). cbn in He2.
  destruct out as [out|err]; [|subst e'; split_and!; [done|split; cbn; lia|by intros t|done]].
  destruct Hc as (Ho & Hn & Hf & Ht). cbn in Ho, Hf, Ht. split_and!; [done| | |].
  - split; [rewrite Hn, Ho|rewrite Hreg; cbn; lia]. pose proof (en_next _ He). rewrite wrapU_small by (split; lia). lia.
  - intros t Hs. rewrite Ht, lookup_insert_is_Some'. by right.
  - intros o [= <-]. split; [done|]. rewrite Ht, lookup_insert_is_Some'. by left.
Qed.

Lemma create_outputs_spec outputs : forall e dataset id k created, engine_ok e -> room e (length outputs) ->
  let '(e', r) := Derived.create_outputs e dataset id k outputs created in
  engine_ok e' /\ topics_kept e e'
  /\ (forall outs, r = Ok outs -> exists new, outs = created ++ new
        /\ forall t, t ∈ new -> topics e !! t = None /\ is_Some (topics e' !! t)).
Proof.
  induction outputs as [|[name kind] outputs IH]; intros e dataset id k created He Hr; cbn [Derived.create_outputs].
  { split_and!; [done|by intros t|]. intros outs [= <-]. exists []. rewrite app_nil_r. split; [done|]. by intros t ?%not_elem_of_nil. }
  pose proof (create_output_spec e dataset ("derived_mimo_" +:+ pretty id +:+ "_" +:+ pretty k) name kind
    (length outputs) He Hr) as H1.
  destruct (Derived.create_output _ _ _ _ _) as [e1 [out|err]]; destruct H1 as (He1 & Hr1 & Hk1 & Ho1); [|by split_and!].
  destruct (Ho1 out eq_refl) as [Hnone Hsome].
  specialize (IH e1 dataset id (S k) (created ++ [out]) He1 Hr1).
  destruct (Derived.create_outputs _ _ _ _ _ _) as [e' r]. destruct IH as (He' & Hk' & Ho'). split_and!; [done| |].
  - intros t Ht. by apply Hk', Hk1.
  - intros outs Hr'. destruct (Ho' outs Hr') as (new & -> & Hnew). exists (out :: new). rewrite <- app_assoc. split; [done|].
    intros t [->|Ht]%elem_of_cons; [split; [done|by apply Hk']|]. destruct (Hnew t Ht) as [Hn1 ?]. split; [|done].
    destruct (topics e !! t) eqn:E; [|done]. destruct (Hk1 t) as [? ?]; [eauto|congruence].
Qed.

(** A call that fails leaves the graph alone. *)
Lemma with_engine_ok (d d' : State) : graph_ok d -> engine_ok (dr_engine d') -> topics_kept (dr_engine d) (dr_engine d') ->
  nodes d' = nodes d -> downstream_of d' = downstream_of d -> topic_to_nodes d' = topic_to_nodes d ->
  output_topic_to_node d' = output_topic_to_node d -> next_node_id_ d <= next_node_id_ d' -> graph_ok d'.
Proof.
  intros H He Hk Hns H1 H2 H3 H4. apply (reshape_ok d); try done. intros v. rewrite Hns.
  destruct (nodes d !! v); constructor. by split_and!.
Qed.

Lemma addSiso_ok (d : State) input name dataset op d' r : graph_ok d -> next_node_id_ d + 1 < 2 ^ 32 ->
  room (dr_engine d) 1 -> Derived.addSisoTransform d input name dataset op = Some (d', r) -> graph_ok d'.
Proof.
  intros H Hlt Hroom. unfold Derived.addSisoTransform, Engine.getTopicStorage.
  destruct (topics (dr_engine d) !! input) as [s|] eqn:Es; [|by intros [= <- <-]].
  destruct (Derived.input_layout _ s) as [cols leaf]. destruct (cols =? 0)%nat; [by intros [= <- <-]|].
  destruct (negb (cols =? 1)%nat); [by intros [= <- <-]|]. destruct leaf as [leaf|]; [|by intros [= <- <-]].
  case_bool_decide; [by intros [= <- <-]|]. rewrite check_cycle_none. cbn [mbind option_bind].
  rewrite (bool_decide_eq_true_2 (""%string = ""%string)) by done. cbn [negb].
  pose proof (create_output_spec (dr_engine d) dataset ("derived_siso_" +:+ name +:+ "_" +:+ pretty (next_node_id_ d))
    name (siso_outputKind op (storageKindOf leaf)) 0 (gr_engine _ H) Hroom) as Hout.
  destruct (Derived.create_output _ _ _ _ _) as [e' [out|err]]; destruct Hout as (He & _ & Hk & Ho); intros [= <- <-].
  - destruct (Ho out eq_refl) as [Hnone Hsome].
    match goal with |- graph_ok ?d' =>
      refine (attach_ok d d' (next_node_id_ d) _ H Hlt eq_refl _ He eq_refl Hk _ _ eq_refl eq_refl eq_refl _) end; cbn.
    + done.
    + intros t ->%list_elem_of_singleton. eauto.
    + by intros t ->%list_elem_of_singleton.
    + unfold Derived.add_edges. cbn [fold_left].
      destruct (<[out:=next_node_id_ d]> (output_topic_to_node d) !! input) as [p|]; [|done].
      rewrite bool_decide_eq_false_2; [done|]. intros Hin. apply (gr_edges _ H) in Hin as (n & t & Hn & _).
      apply (gr_ids _ H) in Hn. lia.
  - apply (with_engine_ok d); done.
Qed.

Lemma addMimo_ok (d : State) inputs names dataset op d' r : graph_ok d -> next_node_id_ d + 1 < 2 ^ 32 ->
  room (dr_engine d) (length names) -> Derived.addMimoTransform d inputs names dataset op = Some (d', r) -> graph_ok d'.
Proof.
  intros H Hlt Hroom. unfold Derived.addMimoTransform. case_bool_decide; [by intros [= <- <-]|].
  case_bool_decide; [by intros [= <- <-]|]. destruct (Derived.mimo_kinds _ inputs) as [kinds|err] eqn:Ek; [|by intros [= <- <-]].
  destruct (Derived.taken_name d dataset names); [by intros [= <- <-]|]. rewrite check_cycle_none. cbn [mbind option_bind].
  rewrite (bool_decide_eq_true_2 (""%string = ""%string)) by done. cbn [negb].
  destruct (Nat.eqb_spec (length (mimo_outputKinds op kinds)) (length names)) as [Hl|]; [|by intros [= <- <-]]. cbn [negb].
  pose proof (create_outputs_spec (zip names (mimo_outputKinds op kinds)) (dr_engine d) dataset (next_node_id_ d) 0 []
    (gr_engine _ H)) as Hout. rewrite length_zip_with, Hl, Nat.min_id in Hout. specialize (Hout Hroom).
  assert (Hnext : u32 (next_node_id_ d + 1) = next_node_id_ d + 1) by (apply wrapU_small; pose proof (gr_next _ H); split; lia).
  destruct (Derived.create_outputs _ _ _ _ _ _) as [e' [outs|err]]; destruct Hout as (He & Hk & Ho); intros [= <- <-].
  - destruct (Ho outs eq_refl) as (new & -> & Hnew).
    match goal with |- graph_ok ?d' =>
      refine (attach_ok d d' (next_node_id_ d) _ H Hlt eq_refl _ He eq_refl Hk _ _ eq_refl eq_refl eq_refl eq_refl) end; cbn;
      [done| |done]. intros t Ht.
    clear -Ek Ht. revert kinds Ek. induction inputs as [|i inputs IH]; intros kinds Ek; [by apply not_elem_of_nil in Ht|].
    cbn in Ek. unfold Engine.getTopicStorage in Ek. destruct (topics (dr_engine d) !! i) as [s|] eqn:Es; [|done].
    destruct (Derived.input_layout _ s) as [cols leaf]. destruct (cols =? 0)%nat; [done|]. destruct (negb _); [done|].
    destruct leaf; [|done]. destruct (Derived.mimo_kinds _ inputs) as [ks|]; [|done].
    apply elem_of_cons in Ht as [->|Ht]; [eauto|by eapply IH].
  - apply (with_engine_ok d); try done. cbn. lia.
Qed.

Lemma remove_all_elem id l x : x ∈ Derived.remove_all id l <-> x ∈ l /\ x <> id.
Proof. unfold Derived.remove_all. rewrite list_elem_of_filter. tauto. Qed.

Lemma fold_remove_elem (inputs : list Z) (id : Z) : forall (m : gmap Z (list Z)) t v,
  v ∈ default [] (fold_left (fun m tid => <[tid := Derived.remove_all id (default [] (m !! tid))]> m) inputs m !! t)
  <-> v ∈ default [] (m !! t) /\ (t ∈ inputs -> v <> id).
Proof.
  induction inputs as [|i inputs IH]; intros m t v; cbn [fold_left].
  - split; [intros ?; split; [done|]; by intros ?%not_elem_of_nil|by intros [? _]].
  - rewrite IH, elem_of_cons. destruct (decide (t = i)) as [->|Hne].
    + rewrite lookup_insert_eq. cbn. rewrite remove_all_elem. naive_solver.
    + rewrite lookup_insert_ne by done. naive_solver.
Qed.

Lemma fold_delete_lookup (outs : list Z) : forall (m : gmap Z Z) t,
  fold_left (fun m tid => delete tid m) outs m !! t = if decide (t ∈ outs) then None else m !! t.
Proof.
  induction outs as [|o outs IH]; intros m t; cbn [fold_left]; [by rewrite decide_False by apply not_elem_of_nil|].
  rewrite IH. destruct (decide (t ∈ outs)) as [Hin|Hin].
  - rewrite decide_True; [done|by right].
  - destruct (decide (t = o)) as [->|Hne].
    + rewrite lookup_delete_eq, decide_True; [done|by left].
    + rewrite lookup_delete_ne, decide_False; [done|by apply not_elem_of_cons|done].
Qed.

Lemma removeNode_ok (d : State) id : graph_ok d -> graph_ok (Derived.removeNode iter_names d id).1.
Proof.
  intros H. unfold Derived.removeNode. destruct (nodes d !! id) as [node|] eqn:En; [|done]. cbn [fst].
  destruct H as [He Hi Ht Ho Hin Hed Hf Hnd Hk Hn]. match goal with |- graph_ok ?x => set (d' := x) end.
  assert (Fe : dr_engine d' = dr_engine d /\ next_node_id_ d' = next_node_id_ d) by done. destruct Fe as [Fe Fnext].
  assert (Fn : nodes d' = delete id (nodes d)) by done.
  assert (Fd : downstream_of d' = Derived.remove_all id <$> delete id (downstream_of d)) by done.
  assert (Ft : topic_to_nodes d' = fold_left (fun m tid => <[tid := Derived.remove_all id (default [] (m !! tid))]> m)
    (all_input_topic_ids node) (topic_to_nodes d)) by done.
  assert (Fo : output_topic_to_node d' = fold_left (fun m tid => delete tid m) (output_topic_ids node) (output_topic_to_node d))
    by done. clearbody d'.
  assert (Hlook : forall v n, nodes d' !! v = Some n <-> nodes d !! v = Some n /\ v <> id).
  { intros v n. rewrite Fn. destruct (decide (v = id)) as [->|Hne]; [rewrite lookup_delete_eq|rewrite lookup_delete_ne by done];
      naive_solver. }
  assert (Hlo : forall t u, output_topic_to_node d' !! t = Some u <-> output_topic_to_node d !! t = Some u /\ u <> id).
  { intros t u. rewrite Fo, fold_delete_lookup. case_decide as Hto.
    - split; [done|]. intros [Hu Hne]. destruct Hne.
      assert (output_topic_to_node d !! t = Some id) by (apply Ho; eauto). congruence.
    - split; [|by intros [? _]]. intros Hu. split; [done|]. intros ->. apply Ho in Hu as (n & Hn' & Htn). congruence. }
  assert (Hsucc : forall u v, v ∈ successors d' u <-> v ∈ successors d u /\ u <> id /\ v <> id).
  { intros u v. unfold successors. rewrite Fd, lookup_fmap. destruct (decide (u = id)) as [->|Hne].
    - rewrite lookup_delete_eq. cbn. split; [by intros ?%not_elem_of_nil|naive_solver].
    - rewrite lookup_delete_ne by done. destruct (downstream_of d !! u) as [l|]; cbn.
      + rewrite remove_all_elem. naive_solver.
      + split; [by intros ?%not_elem_of_nil|naive_solver]. }
  split; rewrite ?Fe, ?Fnext; try done.
  - intros v n [Hv _]%Hlook. by apply Hi.
  - intros v n t [Hv _]%Hlook. by apply (Ht v).
  - intros t u. rewrite Hlo, Ho. setoid_rewrite Hlook. naive_solver.
  - intros t v. rewrite Ft, fold_remove_elem, Hin. setoid_rewrite Hlook. split.
    + intros [(n & Hv & Htn) Hne]. exists n. split; [|done]. split; [done|]. intros ->. apply Hne; [congruence|done].
    + intros (n & [Hv Hne] & Htn). split; [eauto|]. done.
  - intros u v. rewrite Hsucc, Hed. setoid_rewrite Hlook. setoid_rewrite Hlo. naive_solver.
  - intros u v (Hv & _)%Hsucc. by apply Hf.
  - intros u. unfold successors. rewrite Fd, lookup_fmap. destruct (delete id (downstream_of d) !! u) as [l|] eqn:E; cbn; [|constructor].
    apply NoDup_filter. apply lookup_delete_Some in E as [_ E]. specialize (Hnd u). unfold successors in Hnd. by rewrite E in Hnd.
  - intros u [l' Hl]. rewrite Fd, lookup_fmap in Hl. apply fmap_Some in Hl as (l & [Hne Hl]%lookup_delete_Some & _).
    destruct (Hk u) as [n Hu]; [eauto|]. exists n. by apply Hlook.
Qed.

(** *** Running nodes *)

Lemma mark_dirty_shape (ids : list Z) : forall (ns : gmap Z (DerivedNode SOp MOp)) v,
  option_Forall2 same_shape (ns !! v) (Derived.mark_dirty ns ids !! v).
Proof.
  induction ids as [|i ids IH]; intros ns v; unfold Derived.mark_dirty; cbn [fold_left].
  { destruct (ns !! v); by constructor. }
  specialize (IH (alter (fun n => Derived.set_dirty n true) i ns) v). unfold Derived.mark_dirty in IH.
  destruct (decide (v = i)) as [->|Hne].
  - rewrite lookup_alter_eq in IH. destruct (ns !! i) as [n|]; [|done]. cbn in IH. inversion IH; subst. by constructor.
  - by rewrite lookup_alter_ne in IH.
Qed.

Lemma insert_shape (ns : gmap Z (DerivedNode SOp MOp)) id n n' v : ns !! id = Some n -> same_shape n n' ->
  option_Forall2 same_shape (ns !! v) (<[id := n']> ns !! v).
Proof.
  intros Hn Hs. destruct (decide (v = id)) as [->|Hne]; [rewrite Hn, lookup_insert_eq; by constructor|].
  rewrite lookup_insert_ne by done. destruct (ns !! v); by constructor.
Qed.

(** A node that ran is put back. *)
Lemma ran_ok (d : State) e next id n n' ns : graph_ok d -> engine_ok e -> topics_kept (dr_engine d) e ->
  nodes d !! id = Some n -> same_shape n n' ->
  (forall v, option_Forall2 same_shape (<[id := n']> (nodes d) !! v) (ns !! v)) ->
  graph_ok (Derived.with_nodes (Derived.with_engine d e next) ns).
Proof.
  intros Hd He Hk Hn Hs Hns. apply (reshape_ok d); try done. intros v. etrans; [by eapply insert_shape|]. apply Hns.
Qed.

Lemma shape_refl (o : option (DerivedNode SOp MOp)) : option_Forall2 same_shape o o.
Proof. destruct o; by constructor. Qed.

Lemma schedule_loop_ok considered l : forall (d d' : State) s, graph_ok d ->
  Derived.schedule_loop iter d l considered = Some (d', s) -> graph_ok d'.
Proof.
  induction l as [|id l IH]; intros d d' s Hd H; cbn [Derived.schedule_loop] in H; [by simplify_eq|].
  destruct (considered id); cbn [negb] in H; [|by eapply IH]. apply bind_Some in H as (n & Hn & H).
  destruct (dirty n); cbn [negb] in H; [|by eapply IH]. apply bind_Some in H as ([[[e next] n1] st] & Hr & H).
  destruct (run_node_ok iter Hiter _ _ _ _ _ _ _ (gr_engine _ Hd) Hr) as [He Hk]. pose proof (run_node_shape iter _ _ _ _ _ _ _ Hr) as Hs.
  destruct st as [[]|err]; [eapply IH, H|injection H as <- _].
  - eapply ran_ok; [done..| |]; [exact Hs|]. intros v. etrans; [|apply mark_dirty_shape]. cbn.
    destruct (decide (v = id)) as [->|Hne]; [rewrite !lookup_insert_eq; by constructor|]. rewrite !lookup_insert_ne by done. apply shape_refl.
  - eapply ran_ok; [done..| |]; [exact Hs|]. intros v. apply shape_refl.
Qed.

Lemma scheduleActive_ok (d d' : State) active s : graph_ok d -> Derived.scheduleActive iter d active = Some (d', s) -> graph_ok d'.
Proof.
  intros Hd H. unfold Derived.scheduleActive in H. apply bind_Some in H as (order & _ & H).
  destruct active; [by eapply schedule_loop_ok|]. apply bind_Some in H as (seen & _ & H). by eapply schedule_loop_ok.
Qed.

Lemma clear_outputs_ok outs : forall e, engine_ok e ->
  engine_ok (Derived.clear_outputs e outs) /\ topics_kept e (Derived.clear_outputs e outs).
Proof.
  induction outs as [|t outs IH]; intros e He; unfold Derived.clear_outputs; cbn [fold_left]; [done|].
  set (e1 := match Engine.getTopicStorage e t with Some _ => _ | None => e end).
  assert (H1 : engine_ok e1 /\ topics_kept e e1).
  { unfold e1, Engine.getTopicStorage. destruct (topics e !! t) as [st|] eqn:E; [|done]. split.
    - eapply engine_step_ok, He. apply (step_storage e t st); [done|]. apply Storage.step_clear.
    - intros i Hi. cbn. apply lookup_insert_is_Some'. by right. }
  destruct H1 as [He1 Hk1]. destruct (IH e1 He1) as [He2 Hk2]. split; [done|]. by etrans.
Qed.

Lemma recompute_batch_ok (d d' : State) id s : graph_ok d -> Derived.recompute_batch iter d id = Some (d', s) -> graph_ok d'.
Proof.
  intros Hd H. unfold Derived.recompute_batch in H. destruct (nodes d !! id) as [n|] eqn:Hn; [|by simplify_eq].
  destruct (clear_outputs_ok (output_topic_ids n) (dr_engine d) (gr_engine _ Hd)) as [He1 Hk1].
  apply bind_Some in H as ([[[e next] n1] st] & Hr & H). destruct (run_node_ok iter Hiter _ _ _ _ _ _ _ He1 Hr) as [He Hk].
  assert (Hs : same_shape n n1) by (etrans; [|exact (run_node_shape iter _ _ _ _ _ _ _ Hr)]; done).
  destruct st; injection H as <- _; (eapply ran_ok; [done|done|by etrans|done| |]); try (intros v; apply shape_refl); done.
Qed.

(** Calls on a derived engine and on the engine below it. *)
Inductive graph_step : State -> State -> Prop :=
| step_addSiso d input name dataset op d' r : next_node_id_ d + 1 < 2 ^ 32 -> room (dr_engine d) 1 ->
    Derived.addSisoTransform d input name dataset op = Some (d', r) -> graph_step d d'
| step_addMimo d inputs names dataset op d' r : next_node_id_ d + 1 < 2 ^ 32 -> room (dr_engine d) (length names) ->
    Derived.addMimoTransform d inputs names dataset op = Some (d', r) -> graph_step d d'
| step_removeNode d id : graph_step d (Derived.removeNode iter_names d id).1
| step_sourceCommitted d changed : graph_step d (Derived.onSourceCommitted d changed)
| step_scheduleActive d active d' s : Derived.scheduleActive iter d active = Some (d', s) -> graph_step d d'
| step_recompute d id d' s : Derived.recompute_batch iter d id = Some (d', s) -> graph_step d d'
| step_below d e n : rtc engine_step (dr_engine d) e -> graph_step d (Derived.with_engine d e n).

Definition graph_reachable (d : State) : Prop := exists n, rtc graph_step (Derived.make Engine.make n) d.

Lemma engine_step_topics e e' : engine_step e e' -> engine_ok e -> topics_kept e e'.
Proof.
  intros Hstep He. destruct Hstep as [e d|e ds td|e nm|e id offset|e r Hr|e id s s' Hs Hstep|e chunks Hwf|e w
    |iter' same e dst e' dst' status Hf|iter' same src e src' e' status Hit Hsrc Hus Hf]; try by intros t.
  - unfold Engine.createDataset. destruct (_ =? 0); [by intros ?|]. destruct (time_domains e !! _); by intros ?.
  - pose proof (createTopic_cases e ds td He) as Hc. destruct (Engine.createTopic e ds td) as [e' [out|err]]; cbn.
    + destruct Hc as (_ & _ & _ & _ & Ht). intros t Hs. rewrite Ht, lookup_insert_is_Some'. by right.
    + destruct Hc as [_ ->]. by intros ?.
  - intros t Ht. cbn. rewrite lookup_insert_is_Some'. by right.
  - apply commit_topics_kept.
  - intros t Ht. cbn. rewrite lookup_fmap. by apply fmap_is_Some.
  - apply flushTo_source in Hf as [_ Ht]. intros t [s Hs]. destruct (Ht t) as [-> | ->]; rewrite Hs; by eexists.
  - eapply flush_in_ok in Hf as [_ Hk]; [|done..]. intros t. apply Hk.
Qed.

Lemma engine_steps_topics e e' : rtc engine_step e e' -> engine_ok e -> engine_ok e' /\ topics_kept e e'.
Proof.
  induction 1 as [e|e e1 e2 Hstep _ IH]; intros He; [by split|]. destruct IH as [He2 Hk]; [by eapply engine_step_ok|].
  split; [done|]. etrans; [|exact Hk]. by apply engine_step_topics.
Qed.

Lemma graph_step_ok d d' : graph_step d d' -> graph_ok d -> graph_ok d'.
Proof.
  intros Hstep H. destruct Hstep as [d input name dataset op d' r ?? Hr|d inputs names dataset op d' r ?? Hr|d id|d ch
    |d active d' s Hr|d id d' s Hr|d e n Hstep].
  - by eapply addSiso_ok.
  - by eapply addMimo_ok.
  - by apply removeNode_ok.
  - apply (reshape_ok d); try done; [by apply (gr_engine _ H)|]. intros v. cbn.
    generalize (nodes d). induction ch as [|t ch IH]; intros ns; cbn [fold_left]; [apply shape_refl|].
    etrans; [apply (mark_dirty_shape (default [] (topic_to_nodes d !! t)))|apply IH].
  - by eapply scheduleActive_ok.
  - by eapply recompute_batch_ok.
  - destruct (engine_steps_topics _ _ Hstep (gr_engine _ H)). by apply (with_engine_ok d).
Qed.

Lemma graph_reachable_ok d : graph_reachable d -> graph_ok d.
Proof.
  intros [n H]. remember (Derived.make Engine.make n) as d0 eqn:E.
  assert (H0 : graph_ok d0) by (subst; apply make_graph_ok, make_engine_ok). clear E.
  induction H as [|d1 d2 d3 Hstep _ IH]; [done|]. by apply IH, (graph_step_ok d1).
Qed.

(** C13: whatever is called on a derived engine and on the engine below it, the four maps of the
    graph agree with the nodes: producers, consumers and edges are exactly those the nodes name,
    every edge goes from an older to a newer node (so there is no cycle), no edge is doubled,
    every topic a node names exists, and the engine below stays consistent. *)
Theorem graph_invariant d : graph_reachable d -> graph_ok d.
Proof. apply graph_reachable_ok. Qed.

End Graph.

(** ** An instance *)

(** The sum of the inputs. *)
#[export] Instance sum_mimo : IMIMOTransform unit := {
  mimo_reset op := op;
  mimo_outputKinds _ _ := [StorageKind.kFloat64];
  mimo_calculate op ts vs out := (op, true, (ts, [VarDouble (fold_left (fun s v => f64_add s (varvalue_as_double v)) vs f64_zero)]))
}.

#[export] Instance sum_times : MimoTimes unit.
Proof. intros op ts vs out op' wrote out' H Ht _. cbn in H. by injection H as _ _ <-. Qed.

(** Two scalar topics. *)
Definition demo_scalars : DataEngine :=
  let e := (Engine.createDataset Engine.make (mkDatasetDescriptor "log.mcap" 0)).1 in
  let e := Engine.with_registry e (Registry.registerSchema (type_registry e) "scalar" (makePrimitive "value" kFloat64)).1 in
  let e := (Engine.createTopic e 1 (mkTopicDescriptor "a" 1 0 2 64)).1 in
  (Engine.createTopic e 1 (mkTopicDescriptor "b" 1 0 2 64)).1.

(** [a] holds 1, 3, 6 at 10, 20, 30 seconds and [b] holds 5, 7 at 20, 30. *)
Definition demo_samples : list (Z * Row) :=
  let row id (t : Z) (v : double) := (id, (t * 1000000000, [Put (VFloat64 (bits_of_f64 v))])) in
  [row 1 10 (f64_of_Z 1); row 1 20 (f64_of_Z 3); row 2 20 (f64_of_Z 5); row 1 30 (f64_of_Z 6); row 2 30 (f64_of_Z 7)].

Definition demo_flushed : option (DataWriter * list (Z * TopicChunk)) :=
  '(w, _) ← write_rows (Writer.make demo_scalars 1) demo_samples; Writer.flushAll listing w.

Definition demo_source : DataEngine := Eval vm_compute in
  match demo_flushed with Some (w, chunks) => (Engine.commitChunks (engine w) chunks).1 | None => Engine.make end.

(** The derivative of [a], and the sum of that and [b]. *)
Definition demo_graph (d : DerivedEngine DerivativeTransform unit) : option (DerivedEngine DerivativeTransform unit) :=
  '(d, _) ← Derived.addSisoTransform d 1 "rate" 1 (mkDerivative 0 f64_zero false);
  '(d, _) ← Derived.addMimoTransform d [2; 3] ["sum"] 1 tt;
  Some d.

Definition demo_derived : DerivedEngine DerivativeTransform unit := Eval vm_compute in
  default (Derived.make Engine.make 0) (demo_graph (Derived.make demo_source 10)).

Definition listing_names (m : gmap (Z * string) Z) : list (Z * string * Z) := map_to_list m.

Lemma demo_scalars_reachable : engine_reachable demo_scalars.
Proof.
  unfold engine_reachable, demo_scalars.
  eapply rtc_l; [by apply (step_createDataset _ (mkDatasetDescriptor "log.mcap" 0))|].
  eapply rtc_l; [by apply step_registry, (step_registerSchema _ "scalar" (makePrimitive "value" kFloat64))|].
  eapply rtc_l; [by apply (step_createTopic _ 1 (mkTopicDescriptor "a" 1 0 2 64))|].
  eapply rtc_l; [by apply (step_createTopic _ 1 (mkTopicDescriptor "b" 1 0 2 64))|]. done.
Qed.

Lemma demo_source_reachable : engine_reachable demo_source.
Proof.
  eapply rtc_r; [apply demo_scalars_reachable|].
  destruct (write_rows (Writer.make demo_scalars 1) demo_samples) as [[w s]|] eqn:E; [|by vm_compute in E].
  destruct (Writer.flushAll listing w) as [[w' chunks]|] eqn:Ef; cycle 1.
  { vm_compute in E. injection E as <- _. by vm_compute in Ef. }
  assert (Hrun : writer_run listing (Writer.make demo_scalars 1) w' ([] ++ chunks)).
  { eapply run_call; [|by apply call_flushAll]. eapply write_rows_run; [apply run_none| |exact E].
    repeat constructor; vm_compute; congruence. }
  destruct (writer_run_ok listing (fun A m => reflexivity _) _ _ _ Hrun) as [_ Hwf].
  { apply make_writer_ok, engine_reachable_ok, demo_scalars_reachable. }
  replace demo_source with (Engine.commitChunks demo_scalars chunks).1; [by apply step_commitChunks|].
  vm_compute in E. injection E as <- _. vm_compute in Ef. injection Ef as _ <-. vm_compute. reflexivity.
Qed.

Lemma demo_derived_reachable : graph_reachable listing listing_names demo_derived.
Proof.
  exists 10. eapply rtc_l; [apply (step_below _ _ (Derived.make Engine.make 10) demo_source 10), demo_source_reachable|].
  eapply rtc_l; [eapply (step_addSiso _ _ _ 1 "rate" 1 (mkDerivative 0 f64_zero false)); [done|split; vm_compute; done|vm_compute; reflexivity]|].
  eapply rtc_l; [eapply (step_addMimo _ _ _ [2; 3] ["sum"%string] 1 tt); [done|split; vm_compute; done|vm_compute; reflexivity]|].
  match goal with |- rtc _ ?e _ => replace e with demo_derived by (vm_compute; reflexivity) end. apply rtc_refl.
Qed.

Lemma demo_derived_ok : graph_ok demo_derived.
Proof. apply (graph_reachable_ok listing listing_names (fun A m => reflexivity _)), demo_derived_reachable. Qed.

Lemma graph_invariant_witness : successors demo_derived 1 = [2] /\ graph_ok demo_derived.
Proof.
  split; [done|]. apply (graph_invariant listing listing_names (fun A m => reflexivity _)), demo_derived_reachable.
Defined.
