(* ===== verification/DerivedOrder.v ===== *)
(** * DerivedOrder: Kahn's algorithm

    [topologicalOrder] of [src/pj_datastore/src/derived_engine.cpp] orders every
    graph that satisfies the invariant: it ends within its fuel, lists every
    node once, and every node after the nodes it depends on. *)

From S2P Require Import Prelude Types TypeTree TypeRegistry Float64 Buffer Encoding Column Chunk Query TopicStorage Engine Writer Derived DerivedRun DerivedGraph.

(** ** Counting open predecessors *)

Section Count.
Context {A : Type} `{EqDecision A}.

Definition open_in (order ps : list A) : list A := filter (fun p => p ∉ order) ps.

Lemma open_in_nil (ps : list A) : open_in [] ps = ps.
Proof. induction ps as [|p ps IH]; [done|]. unfold open_in in *. by rewrite filter_cons_True, IH by apply not_elem_of_nil. Qed.

Lemma open_snoc_length (order ps : list A) n : NoDup ps -> n ∉ order ->
  length (open_in order ps) = (length (open_in (order ++ [n]) ps) + if decide (n ∈ ps) then 1 else 0)%nat.
Proof.
  unfold open_in. intros Hnd Hn. induction Hnd as [|p ps Hp Hnd IH].
  { by rewrite decide_False by apply not_elem_of_nil. }
  destruct (decide (p = n)) as [->|Hne].
  - rewrite filter_cons_True by done. rewrite filter_cons_False by (rewrite elem_of_app, list_elem_of_singleton; tauto).
    rewrite decide_True by left. cbn [length]. rewrite IH, decide_False by done. lia.
  - assert (Hiff : p ∉ order ++ [n] <-> p ∉ order) by (rewrite elem_of_app, list_elem_of_singleton; tauto).
    assert (Hdec : (if decide (n ∈ p :: ps) then 1 else 0)%nat = (if decide (n ∈ ps) then 1 else 0)%nat).
    { destruct (decide (n ∈ ps)); [rewrite decide_True; [done|by right]|].
      rewrite decide_False; [done|]. intros [?|?]%elem_of_cons; [congruence|done]. }
    rewrite Hdec, !filter_cons. destruct (decide (p ∉ order)) as [Ho|Ho]; destruct (decide (p ∉ order ++ [n])) as [Ho'|Ho'];
      try tauto; cbn [length]; rewrite IH; lia.
Qed.

Lemma open_nil (order ps : list A) : length (open_in order ps) = 0%nat <-> forall p, p ∈ ps -> p ∈ order.
Proof.
  unfold open_in. split.
  - intros H p Hp. destruct (decide (p ∈ order)) as [|Hno]; [done|]. apply length_zero_iff_nil in H.
    assert (Hin : p ∈ filter (fun p => p ∉ order) ps) by by apply list_elem_of_filter. rewrite H in Hin. by apply not_elem_of_nil in Hin.
  - intros H. apply length_zero_iff_nil. destruct (filter _ ps) as [|p l] eqn:E; [done|].
    assert (Hin : p ∈ filter (fun p => p ∉ order) ps) by (rewrite E; by left).
    apply list_elem_of_filter in Hin as [Hno Hp]. by destruct Hno; apply H.
Qed.

End Count.

Section Order.
Context {SOp MOp : Type} `{HS : ISISOTransform SOp} `{HM : IMIMOTransform MOp}.
Context (iter : forall A, gmap Z A -> list (Z * A)).
Context (Hiter : forall A (m : gmap Z A), iter A m ≡ₚ map_to_list m).
Abbreviation State := (DerivedEngine SOp MOp).
Context (d : State) (Hd : graph_ok d).

Abbreviation succ := (successors d).

(** The nodes a node waits for. *)
Definition predecessors (v : Z) : list Z := map fst (filter (fun p : Z * list Z => v ∈ p.2) (map_to_list (downstream_of d))).

Lemma predecessors_nodup v : NoDup (predecessors v).
Proof.
  apply (sublist_NoDup _ (map_to_list (downstream_of d)).*1); [apply NoDup_fst_map_to_list|].
  apply fmap_sublist, sublist_filter.
Qed.

Lemma predecessors_elem u v : u ∈ predecessors v <-> v ∈ succ u.
Proof.
  unfold predecessors, successors. split.
  - intros ([u' l] & -> & [Hv Hl]%list_elem_of_filter)%list_elem_of_fmap. apply elem_of_map_to_list in Hl. cbn in *.
    by rewrite Hl.
  - intros Hv. destruct (downstream_of d !! u) as [l|] eqn:E; [|by apply not_elem_of_nil in Hv].
    apply list_elem_of_fmap. exists (u, l). split; [done|]. apply list_elem_of_filter. split; [done|]. by apply elem_of_map_to_list.
Qed.

Lemma succ_node u v : v ∈ succ u -> is_Some (nodes d !! v).
Proof. intros (n & t & Hn & _)%(gr_edges _ Hd). eauto. Qed.

(** *** In-degrees *)

Lemma count_edges_spec (l : list Z) : forall (deg : gmap Z Z) v, NoDup l ->
  (forall m, m ∈ l -> is_Some (nodes d !! m)) -> is_Some (deg !! v) ->
  Derived.count_edges (nodes d) l deg !! v = Some (default 0 (deg !! v) + if decide (v ∈ l) then 1 else 0).
Proof.
  induction l as [|m l IH]; intros deg v Hnd Hns [x Hx]; unfold Derived.count_edges; cbn [fold_left].
  { rewrite Hx, decide_False by apply not_elem_of_nil. cbn. f_equal. lia. }
  apply NoDup_cons in Hnd as [Hm Hnd]. rewrite bool_decide_eq_true_2 by (apply Hns; by left).
  specialize (IH (<[m:=default 0 (deg !! m) + 1]> deg) v Hnd ltac:(intros; apply Hns; by right)).
  unfold Derived.count_edges in IH. destruct (decide (v = m)) as [->|Hne].
  - rewrite lookup_insert_eq in IH. rewrite IH by eauto. rewrite (decide_True (P := m ∈ m :: l)) by left.
    rewrite decide_False by done. cbn. f_equal. lia.
  - rewrite lookup_insert_ne in IH by done. rewrite IH by eauto. f_equal. f_equal.
    destruct (decide (v ∈ l)); [by rewrite decide_True by by right|]. rewrite decide_False; [done|].
    by intros [?|?]%elem_of_cons.
Qed.

Lemma in_degrees_spec v : is_Some (nodes d !! v) ->
  Derived.in_degrees iter d !! v = Some (Z.of_nat (length (predecessors v))).
Proof.
  intros Hv. unfold Derived.in_degrees.
  assert (Hgen : forall (es : list (Z * list Z)) deg, Forall (fun p => NoDup p.2 /\ forall m, m ∈ p.2 -> is_Some (nodes d !! m)) es ->
    is_Some (deg !! v) ->
    fold_left (fun deg p => Derived.count_edges (nodes d) p.2 deg) es deg !! v
    = Some (default 0 (deg !! v) + Z.of_nat (length (filter (fun p : Z * list Z => v ∈ p.2) es)))).
  { induction es as [|[u l] es IH]; intros deg Hes Hdeg; cbn [fold_left].
    { destruct Hdeg as [x ->]. cbn. f_equal. lia. }
    apply Forall_cons in Hes as [[Hnd Hns] Hes]. pose proof (count_edges_spec l deg v Hnd Hns Hdeg) as Hc.
    rewrite IH by (done || by rewrite Hc). cbn [snd]. rewrite Hc. cbn [default from_option]. rewrite filter_cons. cbn [snd].
    destruct (decide (v ∈ l)); cbn [length]; unfold Datatypes.id; f_equal; lia. }
  rewrite Hgen.
  - rewrite lookup_fmap. destruct Hv as [n ->]. cbn. f_equal. unfold predecessors. rewrite length_map.
    by rewrite (Hiter _ (downstream_of d)).
  - apply Forall_forall. intros [u l] Hl. rewrite Hiter in Hl. apply elem_of_map_to_list in Hl. cbn.
    assert (Hs : succ u = l) by (unfold successors; by rewrite Hl). rewrite <- Hs. split; [apply Hd|]. by intros m ?%succ_node.
  - rewrite lookup_fmap. by apply fmap_is_Some.
Qed.

(** *** The loop *)

(** After [order]: the degrees count the predecessors still to come, and
    [order ++ queue] is what has none. *)
Record kahn_inv (queue : list Z) (deg : gmap Z Z) (order : list Z) : Prop := {
  kh_nodup : NoDup (order ++ queue);
  kh_deg : forall v, is_Some (nodes d !! v) -> deg !! v = Some (Z.of_nat (length (open_in order (predecessors v))));
  kh_ready : forall v, v ∈ order ++ queue <-> is_Some (nodes d !! v) /\ forall u, v ∈ succ u -> u ∈ order;
  kh_order : forall k v, order !! k = Some v -> forall u, v ∈ succ u -> u ∈ take k order
}.

Lemma relax_spec (l : list Z) : forall (deg : gmap Z Z) newly, NoDup l ->
  (forall m, m ∈ l -> is_Some (nodes d !! m) /\ is_Some (deg !! m)) ->
  let '(deg', newly') := Derived.relax (nodes d) l deg newly in
  (forall v, deg' !! v = if decide (v ∈ l) then (fun x => x - 1) <$> deg !! v else deg !! v)
  /\ newly' = newly ++ filter (fun m => deg !! m = Some 1) l.
Proof.
  induction l as [|m l IH]; intros deg newly Hnd Hl; cbn [Derived.relax].
  { split; [intros v; by rewrite decide_False by apply not_elem_of_nil|by rewrite filter_nil, app_nil_r]. }
  apply NoDup_cons in Hnd as [Hm Hnd]. destruct (Hl m ltac:(by left)) as [Hn [x Hx]].
  rewrite bool_decide_eq_true_2 by done. rewrite Hx. cbn [default from_option id].
  set (newly1 := if x - 1 =? 0 then newly ++ [m] else newly).
  specialize (IH (<[m:=x - 1]> deg) newly1 Hnd). destruct (Derived.relax _ _ _ _) as [deg' newly'].
  destruct IH as [Hdeg Hnew].
  { intros k Hk. split; [apply Hl; by right|]. rewrite lookup_insert_is_Some'. right. apply Hl. by right. }
  split.
  - intros v. rewrite Hdeg. destruct (decide (v = m)) as [->|Hne].
    + rewrite decide_False, lookup_insert_eq by done. rewrite decide_True by left. by rewrite Hx.
    + rewrite lookup_insert_ne by done. destruct (decide (v ∈ l)).
      * by rewrite decide_True by by right.
      * rewrite decide_False; [done|]. by intros [?|?]%elem_of_cons.
  - rewrite Hnew. rewrite (filter_congr (fun k => <[m:=x - 1]> deg !! k = Some 1) (fun k => deg !! k = Some 1)).
    + rewrite filter_cons. unfold newly1. destruct (Z.eqb_spec (x - 1) 0) as [He|He]; destruct (decide (deg !! m = Some 1)) as [H1|H1].
      * by rewrite <- app_assoc.
      * rewrite Hx in H1. exfalso. apply H1. f_equal. lia.
      * rewrite Hx in H1. injection H1 as H1. lia.
      * done.
    + apply Forall_forall. intros k Hk. rewrite lookup_insert_ne; [done|]. by intros ->.
Qed.

Lemma inv_step n queue deg order : kahn_inv (n :: queue) deg order ->
  let '(deg', newly) := Derived.relax (nodes d) (succ n) deg [] in
  kahn_inv (queue ++ merge_sort Z.le newly) deg' (order ++ [n]).
Proof.
  intros [Hnd Hdeg Hready Hord].
  pose proof (relax_spec (succ n) deg [] (gr_nodup _ Hd n)) as Hrel.
  destruct (Derived.relax _ _ _ _) as [deg' newly]. destruct Hrel as [Hdeg' ->].
  { intros m Hm%succ_node. split; [done|]. rewrite Hdeg by done. eauto. }
  cbn [app]. set (new := filter (fun m => deg !! m = Some 1) (succ n)).
  assert (Hn : n ∉ order). { rewrite NoDup_app in Hnd. destruct Hnd as (_ & H & _). intros Hin. apply (H n Hin). by left. }
  assert (Hopen : forall v, length (open_in order (predecessors v))
    = (length (open_in (order ++ [n]) (predecessors v)) + if decide (v ∈ succ n) then 1 else 0)%nat).
  { intros v. rewrite (open_snoc_length order _ n) by (done || apply predecessors_nodup). f_equal.
    destruct (decide (n ∈ predecessors v)) as [H|H]; rewrite predecessors_elem in H; [by rewrite decide_True|by rewrite decide_False]. }
  assert (Hnew : forall v, v ∈ new <-> v ∈ succ n /\ length (open_in (order ++ [n]) (predecessors v)) = 0%nat).
  { intros v. unfold new. rewrite list_elem_of_filter. split.
    - intros [H1 Hv]. split; [done|]. rewrite Hdeg in H1 by by eapply succ_node. injection H1 as H1.
      specialize (Hopen v). rewrite decide_True in Hopen by done. lia.
    - intros [Hv H0]. split; [|done]. rewrite Hdeg by by eapply succ_node. specialize (Hopen v).
      rewrite decide_True in Hopen by done. rewrite Hopen, H0. done. }
  assert (Hdone : forall v, length (open_in (order ++ [n]) (predecessors v)) = 0%nat <-> forall u, v ∈ succ u -> u ∈ order ++ [n]).
  { intros v. rewrite open_nil. setoid_rewrite predecessors_elem. done. }
  split.
  - rewrite <- app_assoc, merge_sort_Permutation. change ([n] ++ queue ++ new) with ((n :: queue) ++ new).
    rewrite app_assoc. apply NoDup_app. split_and!; [done| |].
    + intros v Hv Hvn%Hnew. destruct Hvn as [Hvn _]. apply Hready in Hv as [_ Hv]. by apply Hn, Hv.
    + apply NoDup_filter, Hd.
  - intros v Hv. rewrite Hdeg', Hdeg, Hopen by done. case_decide; cbn; f_equal; lia.
  - intros v. rewrite <- app_assoc, merge_sort_Permutation. change ([n] ++ queue ++ new) with ((n :: queue) ++ new).
    rewrite app_assoc, elem_of_app, Hready, Hnew, Hdone. split.
    + intros [[Hv Hall]|[Hv Hall]]; (split; [done || by eapply succ_node|]); [|done].
      intros u Hu. apply elem_of_app. left. by apply Hall.
    + intros [Hv Hall]. destruct (decide (v ∈ succ n)) as [Hs|Hs]; [by right|left]. split; [done|].
      intros u Hu. specialize (Hall u Hu). apply elem_of_app in Hall as [Ho|Ho]; [done|]. apply list_elem_of_singleton in Ho as ->. done.
  - intros k v Hk u Hu. apply lookup_snoc_Some in Hk as [[Hlt Hk]|[-> <-]].
    + rewrite take_app_le by lia. by apply (Hord k v).
    + rewrite take_app_length. assert (Hin : n ∈ order ++ n :: queue) by (apply elem_of_app; right; by left).
      apply Hready in Hin as [_ Hin]. by apply Hin.
Qed.

(** Only nodes have a degree. *)
Lemma in_degrees_nodes v : is_Some (Derived.in_degrees iter d !! v) -> is_Some (nodes d !! v).
Proof.
  assert (Hc : forall (l : list Z) (deg : gmap Z Z), (forall v, is_Some (deg !! v) -> is_Some (nodes d !! v)) ->
    forall v, is_Some (Derived.count_edges (nodes d) l deg !! v) -> is_Some (nodes d !! v)).
  { intros l. unfold Derived.count_edges. induction l as [|m l IH]; intros deg Hdeg; [done|]. cbn [fold_left]. apply IH.
    intros k. case_bool_decide; [|apply Hdeg]. intros [<-|[_ Hk]]%lookup_insert_is_Some; [done|by apply Hdeg]. }
  unfold Derived.in_degrees. revert v. generalize (iter (list Z) (downstream_of d)) as es.
  assert (H0 : forall v, is_Some (((fun _ : DerivedNode SOp MOp => 0) <$> nodes d) !! v) -> is_Some (nodes d !! v))
    by (intros v; by rewrite lookup_fmap, fmap_is_Some).
  revert H0. generalize ((fun _ : DerivedNode SOp MOp => 0) <$> nodes d) as deg. intros deg Hdeg es. revert deg Hdeg.
  induction es as [|p es IH]; intros deg Hdeg; [done|]. cbn [fold_left]. by apply IH, Hc.
Qed.

Abbreviation ready := (merge_sort Z.le (map fst (filter (fun p : Z * Z => p.2 = 0) (iter _ (Derived.in_degrees iter d))))).

Lemma inv_start : kahn_inv ready (Derived.in_degrees iter d) [].
Proof.
  assert (Hin : forall v, v ∈ ready <-> Derived.in_degrees iter d !! v = Some 0).
  { intros v. rewrite merge_sort_Permutation, list_elem_of_fmap. split.
    - intros ([k x] & -> & [Hx Hk]%list_elem_of_filter). rewrite Hiter in Hk. apply elem_of_map_to_list in Hk. cbn in *. by subst.
    - intros Hv. exists (v, 0). split; [done|]. apply list_elem_of_filter. split; [done|]. rewrite Hiter.
      by apply elem_of_map_to_list. }
  split.
  - cbn [app]. rewrite merge_sort_Permutation.
    apply (sublist_NoDup _ (map fst (iter _ (Derived.in_degrees iter d)))); [|apply fmap_sublist, sublist_filter].
    rewrite Hiter. apply NoDup_fst_map_to_list.
  - intros v Hv. rewrite in_degrees_spec by done. by rewrite open_in_nil.
  - intros v. cbn [app]. rewrite Hin. split.
    + intros H0. assert (Hv : is_Some (nodes d !! v)) by (apply in_degrees_nodes; eauto). split; [done|].
      rewrite in_degrees_spec in H0 by done. injection H0 as H0. intros u Hu%predecessors_elem.
      destruct (predecessors v); [by apply not_elem_of_nil in Hu|done].
    + intros [Hv Hno]. rewrite in_degrees_spec by done. destruct (predecessors v) as [|u l] eqn:E; [done|].
      assert (Hu : u ∈ predecessors v) by (rewrite E; by left). apply predecessors_elem, Hno, not_elem_of_nil in Hu. done.
  - intros k v Hk. by rewrite lookup_nil in Hk.
Qed.

(** The nodes of the queue are distinct, so the loop ends. *)
Lemma kahn_ends fuel : forall queue deg order, kahn_inv queue deg order -> (size (nodes d) <= fuel + length order)%nat ->
  exists order' deg', Derived.kahn fuel d queue deg order = Some order' /\ kahn_inv [] deg' order'.
Proof.
  assert (Hcount : forall queue deg order, kahn_inv queue deg order -> (length (order ++ queue) <= size (nodes d))%nat).
  { intros queue deg order H. rewrite <- size_dom, <- (size_list_to_set (C := gset Z)) by apply H.
    apply subseteq_size. intros v [Hv _]%elem_of_list_to_set%(kh_ready _ _ _ H). by apply elem_of_dom. }
  induction fuel as [|fuel IH]; intros [|n queue] deg order Hinv Hf; cbn [Derived.kahn]; try by (exists order, deg).
  { specialize (Hcount _ _ _ Hinv). rewrite length_app in Hcount. cbn in Hcount. lia. }
  pose proof (inv_step _ _ _ _ Hinv) as Hstep. unfold successors in Hstep.
  destruct (downstream_of d !! n) as [l|]; cbn [default from_option] in Hstep; unfold Datatypes.id in Hstep.
  - destruct (Derived.relax _ l deg []) as [deg' newly]. apply (IH _ _ _ Hstep). rewrite length_app. cbn. lia.
  - cbn in Hstep. rewrite app_nil_r in Hstep. apply (IH _ _ _ Hstep). rewrite length_app. cbn. lia.
Qed.

Lemma kahn_complete deg order : kahn_inv [] deg order -> forall v, v ∈ order <-> is_Some (nodes d !! v).
Proof.
  intros Hinv v. pose proof (kh_ready _ _ _ Hinv) as Hready. setoid_rewrite app_nil_r in Hready. split; [by intros [? _]%Hready|].
  intros [n Hn]. assert (Hpos : 0 <= v) by (apply (gr_ids _ Hd) in Hn; lia). revert n Hn.
  induction v as [v IH] using (well_founded_induction (Z.lt_wf 0)). intros n Hn. apply Hready. split; [eauto|].
  intros u Hu. pose proof (gr_forward _ Hd _ _ Hu).
  assert (Hk : is_Some (nodes d !! u)).
  { apply (gr_keys _ Hd). unfold successors in Hu. destruct (downstream_of d !! u); [eauto|by apply not_elem_of_nil in Hu]. }
  destruct Hk as [m Hm]. apply (gr_ids _ Hd) in Hm as Hid. apply (IH u ltac:(lia) ltac:(lia) m Hm).
Qed.

Lemma order_exists : exists order, Derived.topologicalOrder iter d = Some order
  /\ NoDup order /\ (forall v, v ∈ order <-> is_Some (nodes d !! v))
  /\ forall k v u, order !! k = Some v -> v ∈ succ u -> u ∈ take k order.
Proof.
  destruct (kahn_ends (size (nodes d)) _ _ _ inv_start) as (order & deg & Hk & Hinv); [cbn; lia|].
  exists order. split_and!; [done| |by eapply kahn_complete|].
  - pose proof (kh_nodup _ _ _ Hinv) as H. by rewrite app_nil_r in H.
  - intros k v u Hv. by apply (kh_order _ _ _ Hinv).
Qed.

(** C15: Kahn's algorithm orders every graph that satisfies the invariant: the loop ends within one
    step per node, the order lists every node once, and every node after all nodes it depends on. *)
Theorem topologicalOrder_spec : exists order, Derived.topologicalOrder iter d = Some order
  /\ NoDup order /\ (forall v, v ∈ order <-> is_Some (nodes d !! v))
  /\ forall k v u, order !! k = Some v -> v ∈ succ u -> u ∈ take k order.
Proof. apply order_exists. Qed.

End Order.

Lemma topologicalOrder_spec_witness : Derived.topologicalOrder listing demo_derived = Some [1; 2]
  /\ exists order, Derived.topologicalOrder listing demo_derived = Some order /\ NoDup order.
Proof.
  split; [vm_compute; reflexivity|].
  destruct (topologicalOrder_spec listing (fun A m => reflexivity _) demo_derived) as (order & H & Hnd & _).
  - exact demo_derived_ok.
  - by exists order.
Defined.
