(* ===== verification/DerivedSchedule.v ===== *)
(** * DerivedSchedule: which nodes a schedule runs

    [scheduleActive] of [src/pj_datastore/src/derived_engine.cpp]: the walk
    upstream collects the ancestors of the active nodes, and the loop over the
    topological order leaves each of them clean and every other node as it was,
    its dirty flag apart. *)

From S2P Require Import Prelude Types TypeTree TypeRegistry Float64 Buffer Encoding Column Chunk Query TopicStorage Engine Writer Derived DerivedRun DerivedGraph DerivedOrder.

Section Schedule.
Context {SOp MOp : Type} `{HS : ISISOTransform SOp} `{HM : IMIMOTransform MOp}.
Abbreviation State := (DerivedEngine SOp MOp).

(** [v] is [s] or one of the nodes [s] depends on. *)
Definition upstream (d : State) (v s : Z) : Prop := rtc (fun a b => b ∈ successors d a) v s.

(** ** The walk upstream *)

Section Walk.
Context (d : State) (Hd : graph_ok d).

Definition producers : gset Z := list_to_set (map_to_list (output_topic_to_node d)).*2.

Lemma producers_size : (size producers <= size (output_topic_to_node d))%nat.
Proof.
  unfold producers. generalize (map_to_list (output_topic_to_node d)) (length_map_to_list (output_topic_to_node d)).
  intros l <-. rewrite <- (length_fmap snd). induction (l.*2) as [|x k IH]; cbn; [by rewrite size_empty|].
  rewrite size_union_alt. pose proof (size_singleton (C := gset Z) x).
  assert (Hle : (size (list_to_set k ∖ {[x]} : gset Z) <= size (list_to_set k : gset Z))%nat) by (apply subseteq_size; set_solver).
  lia.
Qed.

Lemma producer_in t p : output_topic_to_node d !! t = Some p -> p ∈ producers.
Proof.
  intros H. apply elem_of_list_to_set, list_elem_of_fmap. exists (t, p). split; [done|]. by apply elem_of_map_to_list.
Qed.

(** Every producer enters the set, and the queue once. *)
Lemma visit_spec inputs : forall q f, exists new,
  (fold_left (Derived.visit d) inputs (q, f)).1 = q ++ new
  /\ (forall x, x ∈ (fold_left (Derived.visit d) inputs (q, f)).2 <-> x ∈ f \/ x ∈ new)
  /\ (forall x, x ∈ f \/ x ∈ new <-> (x ∈ f \/ exists t, t ∈ inputs /\ output_topic_to_node d !! t = Some x))
  /\ (size (producers ∖ (fold_left (Derived.visit d) inputs (q, f)).2) + length new)%nat = size (producers ∖ f).
Proof.
  induction inputs as [|t inputs IH]; intros q f; cbn [fold_left].
  { exists []. rewrite app_nil_r. split_and!; [done|set_solver|set_solver|cbn; lia]. }
  assert (Hv : Derived.visit d (q, f) t = (q, f)
    \/ (exists p, output_topic_to_node d !! t = Some p /\ p ∉ f /\ Derived.visit d (q, f) t = (q ++ [p], {[p]} ∪ f))).
  { unfold Derived.visit. destruct (output_topic_to_node d !! t) as [p|]; [|by left]. case_decide; [by left|right; eauto]. }
  assert (Hs : forall x, output_topic_to_node d !! t = Some x -> x ∈ (Derived.visit d (q, f) t).2).
  { intros x Hx. unfold Derived.visit. rewrite Hx. case_decide; [done|]. cbn. set_solver. }
  destruct Hv as [Hv|(p & Hp & Hpf & Hv)]; rewrite Hv in Hs |- *.
  - destruct (IH q f) as (new & Hq & Hf & Hx & Hn). exists new. split_and!; [done..| |done]. intros x. rewrite Hx. split.
    + intros [?|(t' & ? & ?)]; [by left|right]. exists t'. split; [by right|done].
    + intros [?|(t' & [->|?]%elem_of_cons & ?)]; [by left|left; by apply Hs|right; eauto].
  - destruct (IH (q ++ [p]) ({[p]} ∪ f)) as (new & Hq & Hf & Hx & Hn). exists (p :: new). rewrite Hq, <- app_assoc.
    split_and!; [done| | |].
    + intros x. rewrite Hf. set_solver.
    + intros x. specialize (Hx x). rewrite elem_of_cons. split.
      * intros [?|[->|Hx']]; [by left|right; exists t; split; [by left|done]|].
        destruct (proj1 Hx (or_intror Hx')) as [[->%elem_of_singleton|?]%elem_of_union|(t' & ? & ?)]; [right|by left|right].
        -- exists t. split; [by left|done].
        -- exists t'. split; [by right|done].
      * intros [?|(t' & [->|Ht]%elem_of_cons & Ht')]; [by left|right; left; congruence|].
        destruct (proj2 Hx) as [[->%elem_of_singleton|?]%elem_of_union|?]; [right; eauto|by right; left|by left|by right; right].
    + cbn [length]. apply producer_in in Hp.
      assert (Hsz : size (producers ∖ f) = S (size (producers ∖ ({[p]} ∪ f)))).
      { replace (producers ∖ f) with ({[p]} ∪ producers ∖ ({[p]} ∪ f)); [rewrite size_union, size_singleton; [done|set_solver]|].
        apply set_eq. intros x. destruct (decide (x = p)); set_solver. }
      lia.
Qed.

Record walk_inv (start queue : list Z) (seen : gset Z) : Prop := {
  wi_queue : forall x, x ∈ queue -> x ∈ seen;
  wi_start : forall x, x ∈ start -> x ∈ seen;
  wi_closed : forall v, v ∈ seen -> v ∈ queue \/ forall u, v ∈ successors d u -> u ∈ seen;
  wi_sound : forall v, v ∈ seen -> exists s, s ∈ start /\ upstream d v s
}.

Lemma walk_spec start fuel : forall queue seen, walk_inv start queue seen ->
  (length queue + size (producers ∖ seen) <= fuel)%nat ->
  exists seen', Derived.upstream_loop fuel d queue seen = Some seen' /\ walk_inv start [] seen'.
Proof.
  induction fuel as [|fuel IH]; intros [|curr queue] seen Hinv Hf; cbn [Derived.upstream_loop]; try by exists seen.
  { cbn in Hf. lia. }
  destruct Hinv as [Hq Hs Hc Hsnd]. destruct (nodes d !! curr) as [n|] eqn:En.
    idtac.  - change (fold_left _ (all_input_topic_ids n) (queue, seen)) with (fold_left (Derived.visit d) (all_input_topic_ids n) (queue, seen)).
    destruct (visit_spec (all_input_topic_ids n) queue seen) as (new & Hq' & Hf' & Hx & Hn).
    destruct (fold_left (Derived.visit d) _ _) as [queue' seen']. cbn [fst snd] in *. subst queue'.
    assert (Hpred : forall x, x ∈ seen' <-> x ∈ seen \/ curr ∈ successors d x).
    { intros x. rewrite Hf', Hx, (gr_edges _ Hd). split; intros [?|H]; try by left.
      - destruct H as (t & ? & ?). right. by exists n, t.
      - destruct H as (n' & t & ? & ? & ?). right. exists t. split; [|done]. by simplify_eq. }
    apply IH; [|rewrite length_app; cbn in Hf; lia]. split.
    + intros x [Hx'|Hx']%elem_of_app; [apply Hpred; left; apply Hq; by right|apply Hf'; by right].
    + intros x Hx'. apply Hpred. left. by apply Hs.
    + intros v Hv. destruct (proj1 (Hf' v) Hv) as [Hv'|Hv']; [|left; apply elem_of_app; by right].
      destruct (Hc v Hv') as [[->|?]%elem_of_cons|Hcl]; [right; intros u Hu; apply Hpred; by right|left; apply elem_of_app; by left|].
      right. intros u Hu. apply Hpred. left. by apply Hcl.
    + intros v [Hv|Hv]%Hpred; [by apply Hsnd|]. destruct (Hsnd curr ltac:(apply Hq; by left)) as (s & ? & ?).
      exists s. split; [done|]. by eapply rtc_l.
  - apply IH; [|cbn in Hf; lia]. split; try done.
    + intros x Hx. apply Hq. by right.
    + intros v Hv. destruct (Hc v Hv) as [[->|?]%elem_of_cons|Hcl]; [right|by left|by right].
      intros u Hu%(succ_node d Hd). rewrite En in Hu. by destruct Hu.
Qed.

Lemma upstream_filter_spec active : exists seen, Derived.upstream_filter d active = Some seen
  /\ forall v, v ∈ seen <-> exists s, s ∈ active /\ is_Some (nodes d !! s) /\ upstream d v s.
Proof.
  unfold Derived.upstream_filter. set (start := filter _ active).
  destruct (walk_spec start (length start + size (output_topic_to_node d)) start (list_to_set start)) as (seen & Hrun & [_ Hs Hc Hsnd]).
  - split; [intros x Hx; by apply elem_of_list_to_set|intros x Hx; by apply elem_of_list_to_set| |].
    + intros v Hv%elem_of_list_to_set. by left.
    + intros v Hv%elem_of_list_to_set. exists v. split; [done|]. apply rtc_refl.
  - pose proof producers_size. assert (Hle : (size (producers ∖ list_to_set start) <= size producers)%nat) by (apply subseteq_size; set_solver).
    lia.
  - exists seen. split; [exact Hrun|]. intros v. split.
    + intros Hv. destruct (Hsnd v Hv) as (s & [Hn Ha]%list_elem_of_filter & Hr). eauto.
    + intros (s & Ha & Hn & Hr). assert (Hst : s ∈ seen) by (apply Hs, list_elem_of_filter; done).
      clear Ha Hn. induction Hr as [|u v s Hu _ IH]; [done|]. destruct (Hc v (IH Hst)) as [?%not_elem_of_nil|Hcl]; [done|]. by apply Hcl.
Qed.

End Walk.

(** ** The loop over the order *)

Section Loop.
Context (iter : forall A, gmap Z A -> list (Z * A)).
Context (Hiter : forall A (m : gmap Z A), iter A m ≡ₚ map_to_list m).

Definition clean (d : State) (v : Z) : Prop := exists n, nodes d !! v = Some n /\ dirty n = false.

(** A node that did not run: nothing but its dirty flag can have been set. *)
Definition unrun (n n' : DerivedNode SOp MOp) : Prop :=
  n' = Derived.set_dirty n (dirty n') /\ (dirty n = true -> dirty n' = true).

#[local] Instance unrun_preorder : PreOrder unrun.
Proof.
  split; [by intros []|]. intros a b c [Hb Hab] [Hc Hbc]. split; [|by auto]. rewrite Hc, Hb. done.
Qed.

Lemma mark_dirty_lookup (ids : list Z) : forall (ns : gmap Z (DerivedNode SOp MOp)) v,
  Derived.mark_dirty ns ids !! v = (fun n => if decide (v ∈ ids) then Derived.set_dirty n true else n) <$> ns !! v.
Proof.
  induction ids as [|i ids IH]; intros ns v; unfold Derived.mark_dirty; cbn [fold_left].
  { destruct (ns !! v) as [n|]; [|done]. cbn. by rewrite decide_False by apply not_elem_of_nil. }
  specialize (IH (alter (fun n => Derived.set_dirty n true) i ns) v). unfold Derived.mark_dirty in IH. rewrite IH.
  destruct (decide (v = i)) as [->|Hne].
  - rewrite lookup_alter_eq. destruct (ns !! i) as [n|]; [|done]. cbn. rewrite (decide_True (P := i ∈ i :: ids)) by left. by case_decide.
  - rewrite lookup_alter_ne by done. destruct (ns !! v) as [n|]; [|done]. cbn. destruct (decide (v ∈ ids)) as [Hv|Hv].
    + by rewrite decide_True by by right.
    + rewrite decide_False; [done|]. by apply not_elem_of_cons.
Qed.

(** No node of the list is downstream of a later one. *)
Abbreviation in_order d := (StronglySorted (fun u v => u ∉ successors d v)).

Record scheduled (d d' : State) (l : list Z) (considered : Z -> bool) : Prop := {
  sd_edges : downstream_of d' = downstream_of d;
  sd_clean : forall v, v ∈ l -> considered v = true -> clean d' v;
  sd_kept : forall v, v ∉ l -> (forall u, u ∈ l -> v ∉ successors d u) -> nodes d' !! v = nodes d !! v;
  sd_unrun : forall v, v ∉ l \/ considered v = false -> option_Forall2 unrun (nodes d !! v) (nodes d' !! v)
}.

Lemma option_unrun_refl (o : option (DerivedNode SOp MOp)) : option_Forall2 unrun o o.
Proof. destruct o; constructor. done. Qed.

(** A node that is skipped. *)
Lemma scheduled_skip d d' u l considered : (considered u = true -> clean d u) -> u ∉ l -> (forall v, v ∈ l -> u ∉ successors d v) ->
  scheduled d d' l considered -> scheduled d d' (u :: l) considered.
Proof.
  intros Hu Hul Hord [He Hc Hk Hr]. split; [done|..].
  - intros v [->|Hv]%elem_of_cons Hcons; [|by apply Hc]. unfold clean. rewrite Hk; [by apply Hu|done|done].
  - intros v [_ Hv]%not_elem_of_cons Hs. apply Hk; [done|]. intros w Hw. apply Hs. by right.
  - intros v [[_ Hv]%not_elem_of_cons|Hv]; apply Hr; auto.
Qed.

(** A node that ran, then what follows. *)
Lemma scheduled_run d d1 d' u n n1 l considered : nodes d !! u = Some n -> downstream_of d1 = downstream_of d ->
  nodes d1 = Derived.mark_dirty (<[u := Derived.set_dirty n1 false]> (nodes d)) (successors d u) ->
  considered u = true -> u ∉ l -> u ∉ successors d u -> (forall v, v ∈ l -> u ∉ successors d v) ->
  scheduled d1 d' l considered -> scheduled d d' (u :: l) considered.
Proof.
  intros Hn Hd1 Hns Hcu Hul Huu Hord [He Hc Hk Hr].
  assert (Hsucc : forall v, successors d1 v = successors d v) by (intros v; unfold successors; by rewrite Hd1).
  assert (Hl1 : forall v, v <> u -> nodes d1 !! v = (fun m => if decide (v ∈ successors d u) then Derived.set_dirty m true else m) <$> nodes d !! v).
  { intros v Hv. by rewrite Hns, mark_dirty_lookup, lookup_insert_ne. }
  split; [by rewrite He|..].
  - intros v [->|Hv]%elem_of_cons Hcons; [|by apply Hc]. exists (Derived.set_dirty n1 false). split; [|done].
    rewrite Hk; [|done|by intros w Hw; rewrite Hsucc; apply Hord]. by rewrite Hns, mark_dirty_lookup, lookup_insert_eq; cbn; rewrite decide_False.
  - intros v [Hvu Hv]%not_elem_of_cons Hs. rewrite Hk; [|done|by intros w Hw; rewrite Hsucc; apply Hs; right].
    rewrite Hl1 by done. destruct (nodes d !! v); [|done]. cbn. rewrite decide_False; [done|]. apply Hs. by left.
  - intros v Hv. assert (Hvu : v <> u) by (intros ->; destruct Hv as [[? _]%not_elem_of_cons|Hv]; [done|by rewrite Hcu in Hv]).
    assert (Hv' : v ∉ l \/ considered v = false) by (destruct Hv as [[_ ?]%not_elem_of_cons|]; auto).
    specialize (Hr v Hv'). rewrite Hl1 in Hr by done. destruct (nodes d !! v) as [m|]; [|done]. cbn in Hr.
    inversion Hr as [? m' Hm|]; subst. constructor. etrans; [|exact Hm]. case_decide; [|done]. by destruct m.
Qed.

Lemma schedule_loop_spec considered l : forall d d', NoDup l -> in_order d l -> (forall u, u ∈ l -> u ∉ successors d u) ->
  Derived.schedule_loop iter d l considered = Some (d', okStatus) -> scheduled d d' l considered.
Proof.
  induction l as [|u l IH]; intros d d' Hnd Hord Hirr Hrun; cbn [Derived.schedule_loop] in Hrun.
  { injection Hrun as <-. split; [done|by intros v ?%not_elem_of_nil|done|intros; apply option_unrun_refl]. }
  apply NoDup_cons in Hnd as [Hul Hnd]. apply StronglySorted_inv in Hord as [Hord Hu]. rewrite List.Forall_forall in Hu.
  assert (Hirr' : forall v, v ∈ l -> v ∉ successors d v) by (intros; apply Hirr; by right).
  destruct (considered u) eqn:Ec; cbn [negb] in Hrun.
  - destruct (nodes d !! u) as [n|] eqn:En; [|done]. cbn [mbind option_bind] in Hrun. destruct (dirty n) eqn:Edirty; cbn [negb] in Hrun.
    + destruct (Derived.run_node iter _ _ n) as [[[[e next] n1] s]|]; [|done]. cbn [mbind option_bind] in Hrun.
      destruct s as [[]|err]; [|done]. apply IH in Hrun; [|done..]. apply (scheduled_run d _ d' u n n1 l considered) in Hrun; try done.
      * apply Hirr. by left.
      * intros v Hv. by apply Hu, list_elem_of_In.
    + apply scheduled_skip; [by exists n|done| |by apply IH]. intros v Hv. by apply Hu, list_elem_of_In.
  - apply scheduled_skip; [by rewrite Ec|done| |by apply IH]. intros v Hv. by apply Hu, list_elem_of_In.
Qed.

Lemma order_in_order (d : State) (order : list Z) : (forall k v u, order !! k = Some v -> v ∈ successors d u -> u ∈ take k order) -> NoDup order ->
  in_order d order.
Proof.
  intros Hpre Hnd. assert (Hgen : forall done todo, order = done ++ todo -> in_order d todo).
  { intros dn todo. revert dn. induction todo as [|u todo IH]; intros dn ->; constructor; [apply (IH (dn ++ [u])); by rewrite <- app_assoc|].
    apply List.Forall_forall. intros v Hv%list_elem_of_In Hs. specialize (Hpre (length dn) u v).
    rewrite take_app_length in Hpre. apply NoDup_app in Hnd as (_ & Hdis & _). apply (Hdis v); [|by right].
    apply Hpre; [|done]. by apply list_lookup_middle. }
  by apply (Hgen []).
Qed.

(** Where the elements of a sublist are in the list. *)
Lemma sublist_order {A} (us l : list A) : us `sublist_of` l ->
  exists f : nat -> nat, (forall i j, (i <= j)%nat -> (f i <= f j)%nat) /\ forall i x, us !! i = Some x -> l !! f i = Some x.
Proof.
  induction 1 as [|x us l _ (f & Hf & Hl)|x us l _ (f & Hf & Hl)].
  - by exists (fun i => i).
  - exists (fun i => match i with O => O | S i => S (f i) end). split.
    + intros [|i] [|j] Hij; try lia. specialize (Hf i j). lia.
    + intros [|i] y Hy; [done|]. by apply Hl.
  - exists (fun i => S (f i)). split; [intros i j Hij; specialize (Hf i j Hij); lia|]. intros i y Hy. by apply Hl.
Qed.

(** *** The runs of a schedule *)

Definition is_dirty (d : State) (v : Z) : Prop := exists n, nodes d !! v = Some n /\ dirty n = true.

(** The dirty node [u] was run on the engine as it was, is clean now, and the
    nodes that read its outputs are dirty; the others are as they were. *)
Definition ran (d : State) (u : Z) (d1 : State) : Prop :=
  exists n e next n', nodes d !! u = Some n /\ dirty n = true
  /\ Derived.run_node iter (dr_engine d) (dr_next_chunk_id d) n = Some (e, next, n', okStatus)
  /\ dr_engine d1 = e /\ dr_next_chunk_id d1 = next /\ downstream_of d1 = downstream_of d
  /\ forall v, nodes d1 !! v =
       if decide (v = u) then Some (Derived.set_dirty n' false)
       else if decide (v ∈ successors d u) then (fun n => Derived.set_dirty n true) <$> nodes d !! v
       else nodes d !! v.

(** One node after the other. *)
Inductive runs : list Z -> State -> State -> Prop :=
| runs_nil d : runs [] d d
| runs_cons u us d d1 d' : ran d u d1 -> runs us d1 d' -> runs (u :: us) d d'.

Lemma schedule_loop_runs considered l : forall d d', NoDup l -> in_order d l -> (forall u, u ∈ l -> u ∉ successors d u) ->
  (forall v, v ∈ l -> is_Some (nodes d !! v)) ->
  Derived.schedule_loop iter d l considered = Some (d', okStatus) ->
  exists us, runs us d d' /\ us `sublist_of` l
  /\ forall v, v ∈ l -> v ∈ us <-> considered v = true /\ (is_dirty d v \/ exists u, u ∈ us /\ v ∈ successors d u).
Proof.
  induction l as [|u l IH]; intros d d' Hnd Hord Hirr Hnode Hrun; cbn [Derived.schedule_loop] in Hrun.
  { injection Hrun as <-. exists []. split_and!; [constructor|done|by intros v ?%not_elem_of_nil]. }
  apply NoDup_cons in Hnd as [Hul Hnd]. apply StronglySorted_inv in Hord as [Hord Hu]. rewrite List.Forall_forall in Hu.
  assert (Hirr' : forall v, v ∈ l -> v ∉ successors d v) by (intros; apply Hirr; by right).
  assert (Hnode' : forall v, v ∈ l -> is_Some (nodes d !! v)) by (intros; apply Hnode; by right).
  assert (Hskip : (considered u = false \/ ~ is_dirty d u) -> Derived.schedule_loop iter d l considered = Some (d', okStatus) ->
    exists us, runs us d d' /\ us `sublist_of` u :: l
    /\ forall v, v ∈ u :: l -> v ∈ us <-> considered v = true /\ (is_dirty d v \/ exists u, u ∈ us /\ v ∈ successors d u)).
  { intros Hcase (us & Hruns & Hsub & Hin)%IH; [|done..]. exists us. split_and!; [done|by apply sublist_cons|].
    intros v [->|Hv]%elem_of_cons; [|by apply Hin].
    assert (Hsubl : forall x, x ∈ us -> x ∈ l) by (intros x Hx; eapply elem_of_submseteq; [exact Hx|by apply sublist_submseteq]).
    split; [intros Hx; by apply Hsubl in Hx|]. intros [Hc [Hdirty|(w & Hw & Hs)]]; [destruct Hcase; congruence || done|].
    exfalso. by apply (Hu w); [apply list_elem_of_In, Hsubl|]. }
  destruct (considered u) eqn:Ec; cbn [negb] in Hrun; [|apply Hskip; auto].
  destruct (nodes d !! u) as [n|] eqn:En; [|done]. cbn [mbind option_bind] in Hrun.
  destruct (dirty n) eqn:Edirty; cbn [negb] in Hrun.
  2:{ apply Hskip; [|done]. right. intros (m & Hm & Hd). congruence. }
  clear Hskip. destruct (Derived.run_node iter _ _ n) as [[[[e next] n1] s]|] eqn:Er; [|done]. cbn [mbind option_bind] in Hrun.
  destruct s as [[]|err]; [|done].
  match type of Hrun with Derived.schedule_loop _ ?x _ _ = _ => set (d1 := x) in Hrun end.
  assert (Hlook : forall v, nodes d1 !! v = if decide (v = u) then Some (Derived.set_dirty n1 false)
       else if decide (v ∈ successors d u) then (fun n => Derived.set_dirty n true) <$> nodes d !! v else nodes d !! v).
  { intros v. unfold d1. cbn [Derived.with_nodes Derived.with_engine nodes]. rewrite mark_dirty_lookup.
    change (default [] _) with (successors d u).
    destruct (decide (v = u)) as [->|Hne].
    - rewrite lookup_insert_eq. cbn. rewrite decide_False; [done|]. apply Hirr. by left.
    - rewrite lookup_insert_ne by done. destruct (decide (v ∈ successors d u)), (nodes d !! v); done. }
  assert (Hsucc : forall v, successors d1 v = successors d v) by done.
  destruct (IH d1 d' Hnd) as (us & Hruns & Hsub & Hin); [exact Hord|exact Hirr'| |exact Hrun|].
  { intros v Hv. rewrite Hlook. case_decide; [by eexists|]. destruct (Hnode' v Hv) as [m Hm]. rewrite Hm. by case_decide; eexists. }
  exists (u :: us). split_and!.
  - econstructor; [|exact Hruns]. by exists n, e, next, n1.
  - by apply sublist_skip.
  - intros v [->|Hv]%elem_of_cons.
    + split; [intros _|intros _; by left]. split; [done|]. left. by exists n.
    + assert (Hvu : v <> u) by (by intros ->). rewrite elem_of_cons, (Hin v Hv). setoid_rewrite elem_of_cons.
      assert (Hdirty : is_dirty d1 v <-> is_dirty d v \/ v ∈ successors d u).
      { unfold is_dirty. rewrite Hlook, decide_False by done. destruct (Hnode' v Hv) as [m Hm]. rewrite Hm. case_decide as Hs.
        - split; [by right|]. intros _. by eexists.
        - split; [intros H; by left|]. by intros [H|H]. }
      rewrite Hdirty. setoid_rewrite Hsucc. naive_solver.
Qed.

(** The nodes a schedule is for: the active ones and those they depend on; all of
    them, if none is active. *)
Definition scope (d : State) (active : list Z) (v : Z) : Prop :=
  exists s, upstream d v s /\ is_Some (nodes d !! s) /\ (active = [] \/ s ∈ active).

(** C16: If [scheduleActive] succeeds on a graph the engine can build, the change it makes is a
    sequence of runs: each node that is active or that an active one depends on (with no active
    nodes: every node) ran once, after the nodes it depends on, exactly if it was dirty or a node it
    depends on directly ran; each ran on what the runs before it left.  They are all clean then,
    and nothing of the other nodes has changed but their dirty flag, and that only from clean to
    dirty. *)
Theorem scheduleActive_spec (d d' : State) active : graph_ok d ->
  Derived.scheduleActive iter d active = Some (d', okStatus) ->
  exists us, runs us d d' /\ NoDup us
  /\ (forall v, v ∈ us <-> scope d active v /\ (is_dirty d v \/ exists u, u ∈ us /\ v ∈ successors d u))
  /\ (forall i j u v, us !! i = Some u -> us !! j = Some v -> v ∈ successors d u -> (i < j)%nat)
  /\ (forall v, scope d active v -> clean d' v)
  /\ (forall v, ~ scope d active v -> option_Forall2 unrun (nodes d !! v) (nodes d' !! v)).
Proof.
  intros Hd. unfold Derived.scheduleActive. destruct (order_exists iter Hiter d Hd) as (order & -> & Hnd & Hin & Hpre).
  cbn [mbind option_bind]. pose proof (order_in_order d order Hpre Hnd) as Hord.
  assert (Hirr : forall u, u ∈ order -> u ∉ successors d u) by (intros u _ Hu%(gr_forward _ Hd); lia).
  assert (Hup : forall v, scope d active v -> v ∈ order).
  { intros v (s & Hr & Hs & _). apply Hin. destruct Hr as [|v w s Hv _]; [done|]. apply (gr_keys _ Hd).
    unfold successors in Hv. destruct (downstream_of d !! v); [eauto|by apply not_elem_of_nil in Hv]. }
  assert (Hmain : forall considered, (forall v, v ∈ order -> considered v = true <-> scope d active v) ->
    Derived.schedule_loop iter d order considered = Some (d', okStatus) ->
    exists us, runs us d d' /\ NoDup us
    /\ (forall v, v ∈ us <-> scope d active v /\ (is_dirty d v \/ exists u, u ∈ us /\ v ∈ successors d u))
    /\ (forall i j u v, us !! i = Some u -> us !! j = Some v -> v ∈ successors d u -> (i < j)%nat)
    /\ (forall v, scope d active v -> clean d' v)
    /\ (forall v, ~ scope d active v -> option_Forall2 unrun (nodes d !! v) (nodes d' !! v))).
  { intros considered Hc Hrun.
    destruct (schedule_loop_runs considered order d d' Hnd Hord Hirr) as (us & Hruns & Hsub & Hus); [by intros v ?%Hin|done|].
    apply schedule_loop_spec in Hrun; [|done..]. exists us.
    assert (Hsubl : forall x, x ∈ us -> x ∈ order) by (intros x Hx; eapply elem_of_submseteq; [exact Hx|by apply sublist_submseteq]).
    split_and!; [done|by eapply sublist_NoDup| | | |].
    - intros v. split.
      + intros Hv. pose proof (Hsubl v Hv) as Hvo. apply (Hus v Hvo) in Hv as [H1 H2]. by rewrite <- (Hc v Hvo).
      + intros [Hs H2]. pose proof (Hup v Hs) as Hvo. apply (Hus v Hvo). by rewrite (Hc v Hvo).
    - intros i j u v Hi Hj Hs. destruct (sublist_order us order Hsub) as (f & Hf & Hl).
      destruct (decide (i < j)%nat) as [|Hge]; [done|]. exfalso.
      specialize (Hpre (f j) v u (Hl j v Hj) Hs). apply list_elem_of_lookup in Hpre as [k Hk].
      apply lookup_take_Some in Hk as [Hk Hlt]. assert (k = f i) as -> by (eapply NoDup_lookup; [exact Hnd|exact Hk|by apply Hl]).
      specialize (Hf j i ltac:(lia)). lia.
    - intros v Hs. apply Hrun; [by apply Hup|]. by apply Hc; [apply Hup|].
    - intros v Hs. apply Hrun. destruct (decide (v ∈ order)) as [Hv|]; [right|by left].
      apply not_true_is_false. by rewrite (Hc v Hv). }
  destruct active as [|a active]; [apply Hmain|].
  - intros v Hv. split; [intros _|done]. exists v. split; [apply rtc_refl|]. split; [by apply Hin|by left].
  - destruct (upstream_filter_spec d Hd (a :: active)) as (seen & -> & Hseen). cbn [mbind option_bind]. apply Hmain.
    intros v _. rewrite bool_decide_eq_true, Hseen. unfold scope. split; [intros (s & ? & ? & ?); eauto|].
    intros (s & ? & ? & [?|?]); [done|eauto].
Qed.

End Loop.
End Schedule.

(** ** An instance *)

Lemma scheduleActive_spec_witness : exists d', Derived.scheduleActive listing demo_derived [2] = Some (d', okStatus)
  /\ clean d' 1 /\ clean d' 2.
Proof.
  destruct (Derived.scheduleActive listing demo_derived [2]) as [[d' s]|] eqn:E; [|vm_compute in E; discriminate E].
  assert (Hs : s = okStatus) by (vm_compute in E; injection E as _ <-; reflexivity). subst s. exists d'. split; [done|].
  destruct (scheduleActive_spec listing (fun A m => reflexivity _) demo_derived d' [2] demo_derived_ok E) as (us & _ & _ & _ & _ & H & _). clear E.
  split; (apply H; exists 2; split; [|split; [by eexists|right; by left]]).
  - apply rtc_once. vm_compute. by left.
  - apply rtc_refl.
Defined.
