(* ===== verification/DerivedSiso.v ===== *)
(** * DerivedSiso: incremental runs are the batch

    The contract [derived_engine.hpp] states for single-input transforms:
    [calculate] sees every sample of the input once, in order, whatever the
    commits and schedules in between.  So what an output topic holds is a
    function of what the input topic holds. *)

From S2P Require Import Prelude Types TypeTree TypeRegistry Float64 Buffer Encoding Column Chunk Query TopicStorage Engine Writer Ingest Layout WriterState Derived DerivedRun DerivedGraph.

(** The header's contract on the out parameters: written, and read by nobody
    unless the call returns true. *)
Class SisoWrites (SOp : Type) `{ISISOTransform SOp} := siso_writes : forall op ts v o1 o2,
  (siso_calculate op ts v o1).1 = (siso_calculate op ts v o2).1
  /\ ((siso_calculate op ts v o2).1.2 = true -> (siso_calculate op ts v o1).2 = (siso_calculate op ts v o2).2).

#[export] Instance derivative_writes : SisoWrites DerivativeTransform.
Proof. intros op ts v o1 o2. cbn. unfold Derivative.calculate. by destruct (has_prev_ op). Qed.

(** ** The samples of chunks *)

Fixpoint inputs_from (n i : nat) (kind : StorageKind.t) (chunk : TopicChunk) : option (list (Z * VarValue)) :=
  match n with
  | O => Some []
  | S n' => ts ← timestamps chunk !! i; v ← decode_as_varvalue chunk 0 i kind;
            rest ← inputs_from n' (S i) kind chunk; Some ((ts, v) :: rest)
  end.

Fixpoint inputs (kind : StorageKind.t) (chunks : list TopicChunk) : option (list (Z * VarValue)) :=
  match chunks with
  | [] => Some []
  | c :: rest => here ← inputs_from (Z.to_nat (row_count (stats c))) 0 kind c;
                 more ← inputs kind rest; Some (here ++ more)
  end.

Lemma inputs_app kind cs cs' : inputs kind (cs ++ cs') = a ← inputs kind cs; b ← inputs kind cs'; Some (a ++ b).
Proof.
  induction cs as [|c cs IH]; cbn; [by destruct (inputs kind cs')|]. rewrite IH.
  destruct (inputs_from _ _ _ _) as [h|]; [|done]. cbn. destruct (inputs kind cs) as [a|]; [|done]. cbn.
  destruct (inputs kind cs') as [b|]; [|done]. cbn. by rewrite app_assoc.
Qed.

Lemma inputs_from_times kind c n : forall i ss, inputs_from n i kind c = Some ss -> map fst ss = take n (drop i (timestamps c)).
Proof.
  induction n as [|n IH]; intros i ss H; cbn in H; [by simplify_eq|].
  apply bind_Some in H as (ts & Hts & H). apply bind_Some in H as (v & _ & H). apply bind_Some in H as (rest & Hr & [= <-]).
  cbn. rewrite (drop_S _ ts) by done. cbn. by rewrite (IH _ _ Hr).
Qed.

Lemma inputs_times kind cs : forall ss, Forall chunk_wf cs -> inputs kind cs = Some ss -> map fst ss = concat (map timestamps cs).
Proof.
  induction cs as [|c cs IH]; intros ss Hwf H; cbn in H; [by simplify_eq|]. apply Forall_cons in Hwf as [Hc Hcs].
  apply bind_Some in H as (here & Hh & H). apply bind_Some in H as (more & Hm & [= <-]). apply inputs_from_times in Hh.
  rewrite map_app, (IH more Hcs Hm), Hh. cbn. f_equal. rewrite (cw_rows _ Hc), Nat2Z.id, drop_0. apply firstn_all.
Qed.

(** ** What a transform makes of samples *)

Section Emit.
Context {SOp : Type} `{HS : ISISOTransform SOp}.

(** The transform after the samples, and the rows it gives on the way. *)
Fixpoint emitted (op : SOp) (samples : list (Z * VarValue)) : SOp * list (Z * VarValue) :=
  match samples with
  | [] => (op, [])
  | (ts, v) :: rest =>
      let '(op, wrote, out) := siso_calculate op ts v (0, VarDouble f64_zero) in
      let '(op, l) := emitted op rest in
      (op, if (wrote : bool) then out :: l else l)
  end.

Lemma emitted_app a b : forall op, emitted op (a ++ b)
  = let '(op1, l1) := emitted op a in let '(op2, l2) := emitted op1 b in (op2, l1 ++ l2).
Proof.
  induction a as [|[ts v] a IH]; intros op; cbn [app emitted]; [by destruct (emitted op b)|].
  destruct (siso_calculate _ _ _ _) as [[op' wrote] out]. rewrite IH.
  destruct (emitted op' a) as [op1 l1]. destruct (emitted op1 b) as [op2 l2]. by destruct wrote.
Qed.

End Emit.

(** The table rows of emitted values. *)
Fixpoint rows_for (kind : StorageKind.t) (l : list (Z * VarValue)) : option (list Row) :=
  match l with
  | [] => Some []
  | (ts, v) :: rest => x ← coerce v kind; more ← rows_for kind rest;
                       Some ((ts, [match x with Some x => Put x | None => Skip end]) :: more)
  end.

Lemma rows_for_app kind a b : rows_for kind (a ++ b) = x ← rows_for kind a; y ← rows_for kind b; Some (x ++ y).
Proof.
  induction a as [|[ts v] a IH]; cbn; [by destruct (rows_for kind b)|]. rewrite IH.
  destruct (coerce v kind); [|done]. cbn. destruct (rows_for kind a); [|done]. cbn. by destruct (rows_for kind b).
Qed.

Lemma rows_for_times kind l : forall rows, rows_for kind l = Some rows -> map fst rows = map fst l.
Proof.
  induction l as [|[ts v] l IH]; intros rows H; cbn in H; [by simplify_eq|].
  apply bind_Some in H as (x & _ & H). apply bind_Some in H as (more & Hm & [= <-]). cbn. by rewrite (IH _ Hm).
Qed.

(** The column of a derived topic. *)
Definition output_column (kind : StorageKind.t) : ColumnDescriptor :=
  mkColumnDescriptor 0 (storage_kind_to_primitive kind) "value".

(** ** The run *)

Section Run.
Context {SOp MOp : Type} `{HS : ISISOTransform SOp} `{HM : IMIMOTransform MOp} `{HW : !SisoWrites SOp}.
Context (iter : forall A, gmap Z A -> list (Z * A)).
Context (Hiter : forall A (m : gmap Z A), iter A m ≡ₚ map_to_list m).
Abbreviation Node := (DerivedNode SOp MOp).
Abbreviation SisoRun := (Derived.SisoRun (SOp := SOp)).

(** What a run does that writes the rows [rows]. *)
Record ran (r r' : SisoRun) (op' : SOp) (w' : DataWriter) (rows : list Row) : Prop := {
  rn_op : Derived.sr_op r' = op';
  rn_writer : Derived.sr_writer r' = w';
  rn_wrote : Derived.sr_wrote r' = Derived.sr_wrote r || negb (bool_decide (rows = []))
}.

Lemma siso_sample_emits r out kind ts v op' l rows w' : emitted (Derived.sr_op r) [(ts, v)] = (op', l) ->
  rows_for kind l = Some rows -> write_rows (Derived.sr_writer r) (map (pair out) rows) = Some (w', okStatus) ->
  exists r', Derived.siso_sample r out kind ts v = Some (r', okStatus) /\ ran r r' op' w' rows.
Proof.
  cbn [emitted]. unfold Derived.siso_sample. pose proof (siso_writes (Derived.sr_op r) ts v (Derived.sr_out_ts r, Derived.sr_out_val r) (0, VarDouble f64_zero)) as [H1 H2].
  destruct (siso_calculate _ ts v (0, _)) as [[op wrote] out1]. destruct (siso_calculate _ ts v (Derived.sr_out_ts r, _)) as [[op2 wrote2] [t2 v2]].
  cbn in H1, H2. injection H1 as -> ->. intros [= <- <-]. destruct wrote; cbn [rows_for].
  - specialize (H2 eq_refl). subst out1. intros Hrows. apply bind_Some in Hrows as (x & Hx & [= <-]).
    cbn [map write_rows]. intros Hwr. apply bind_Some in Hwr as ([w1 s1] & Hrow & Hs). destruct s1 as [[]|]; [|by injection Hs as _ ?].
    injection Hs as ->. unfold write_row in Hrow. cbn [fst snd] in Hrow. apply bind_Some in Hrow as ([w2 s2] & Hb & Hrow). cbn [Derived.sr_writer Derived.sr_wrote]. rewrite Hb.
    cbn [mbind option_bind]. destruct s2 as [[]|]; [|by injection Hrow as _ ?]. apply bind_Some in Hrow as (w3 & Hset & Hfin).
    assert (Hvar : write_varvalue w2 out 0 v2 kind = Some w3).
    { unfold write_varvalue. rewrite Hx. cbn [mbind option_bind]. destruct x as [x|]; cbn [set_values set_value] in Hset; [|done].
      by apply bind_Some in Hset as (w4 & -> & ?). }
    cbn [Derived.sr_writer Derived.sr_wrote]. rewrite Hvar. cbn [mbind option_bind]. rewrite Hfin. cbn [mbind option_bind okStatus].
    eexists. split; [done|]. split; [done|done|cbn; by rewrite orb_true_r].
  - intros [= <-]. cbn [map write_rows]. intros [= <-]. eexists. split; [done|]. split; [done|done|cbn; by rewrite orb_false_r].
Qed.

Lemma ran_trans r r1 r2 op1 op2 w1 w2 rows1 rows2 : ran r r1 op1 w1 rows1 -> ran r1 r2 op2 w2 rows2 -> ran r r2 op2 w2 (rows1 ++ rows2).
Proof.
  intros [_ _ H1] [Ho Hw H2]. split; [done..|]. rewrite H2, H1. destruct (Derived.sr_wrote r); [done|]. by destruct rows1, rows2.
Qed.

(** Writing rows in two parts. *)
Lemma write_split w out rows rows' w' : write_rows w (map (pair out) (rows ++ rows')) = Some (w', okStatus) ->
  exists w1, write_rows w (map (pair out) rows) = Some (w1, okStatus) /\ write_rows w1 (map (pair out) rows') = Some (w', okStatus).
Proof.
  rewrite map_app, write_rows_app. intros ([w1 [[]|err]] & H1 & H2)%bind_Some; [|done]. by exists w1.
Qed.

Lemma emitted_split op a b op' l : emitted op (a ++ b) = (op', l) ->
  exists op1 l1 l2, emitted op a = (op1, l1) /\ emitted op1 b = (op', l2) /\ l = l1 ++ l2.
Proof.
  rewrite emitted_app. destruct (emitted op a) as [op1 l1]. destruct (emitted op1 b) as [op2 l2] eqn:E. intros [= <- <-].
  by exists op1, l1, l2.
Qed.

Lemma rows_split kind l1 l2 rows : rows_for kind (l1 ++ l2) = Some rows ->
  exists rows1 rows2, rows_for kind l1 = Some rows1 /\ rows_for kind l2 = Some rows2 /\ rows = rows1 ++ rows2.
Proof.
  rewrite rows_for_app. intros (rows1 & H1 & H)%bind_Some. apply bind_Some in H as (rows2 & H2 & [= <-]). by exists rows1, rows2.
Qed.

Lemma siso_rows_emits kind out_kind chunk out n : forall i (r : SisoRun) ss op' l rows w', inputs_from n i kind chunk = Some ss ->
  emitted (Derived.sr_op r) ss = (op', l) -> rows_for out_kind l = Some rows ->
  write_rows (Derived.sr_writer r) (map (pair out) rows) = Some (w', okStatus) ->
  exists r', Derived.siso_rows n i r out kind out_kind chunk = Some (r', okStatus) /\ ran r r' op' w' rows.
Proof.
  induction n as [|n IH]; intros i r ss op' l rows w' Hin Hem Hrows Hw; cbn [inputs_from] in Hin.
  { injection Hin as <-. injection Hem as <- <-. injection Hrows as <-. injection Hw as <-. exists r. split; [done|]. split; [done|done|by rewrite orb_false_r]. }
  apply bind_Some in Hin as (ts & Hts & Hin). apply bind_Some in Hin as (v & Hv & Hin). apply bind_Some in Hin as (rest & Hr & [= <-]).
  change ((ts, v) :: rest) with ([(ts, v)] ++ rest) in Hem. destruct (emitted_split _ _ _ _ _ Hem) as (op1 & l1 & l2 & He1 & He2 & ->).
  destruct (rows_split _ _ _ _ Hrows) as (rows1 & rows2 & Hr1 & Hr2 & ->). destruct (write_split _ _ _ _ _ Hw) as (w1 & Hw1 & Hw2).
  destruct (siso_sample_emits r out out_kind ts v op1 l1 rows1 w1 He1 Hr1 Hw1) as (r1 & Hs & Hran). cbn [Derived.siso_rows].
  rewrite Hts, Hv. cbn [mbind option_bind]. rewrite Hs. cbn [mbind option_bind okStatus].
  rewrite <- (rn_op _ _ _ _ _ Hran) in He2. rewrite <- (rn_writer _ _ _ _ _ Hran) in Hw2.
  destruct (IH (S i) r1 rest op' l2 rows2 w' Hr He2 Hr2 Hw2) as (r2 & -> & Hran2). exists r2. split; [done|]. by eapply ran_trans.
Qed.

Lemma siso_chunks_emits kind out_kind out wm chunks : forall seen (r : SisoRun) ss op' l rows w', Forall (fun c => wm < id c) chunks ->
  inputs kind chunks = Some ss -> emitted (Derived.sr_op r) ss = (op', l) -> rows_for out_kind l = Some rows ->
  write_rows (Derived.sr_writer r) (map (pair out) rows) = Some (w', okStatus) ->
  exists r' seen', Derived.siso_chunks chunks wm seen r out kind out_kind = Some (r', seen', okStatus) /\ ran r r' op' w' rows
    /\ seen <= seen' /\ Forall (fun c => id c <= seen') chunks.
Proof.
  induction chunks as [|c chunks IH]; intros seen r ss op' l rows w' Hid Hin Hem Hrows Hw; cbn [inputs] in Hin.
  { injection Hin as <-. injection Hem as <- <-. injection Hrows as <-. injection Hw as <-. exists r, seen.
    split_and!; [done| |done|done]. split; [done|done|by rewrite orb_false_r]. }
  apply Forall_cons in Hid as [Hc Hid]. apply bind_Some in Hin as (here & Hh & Hin). apply bind_Some in Hin as (more & Hm & [= <-]).
  destruct (emitted_split _ _ _ _ _ Hem) as (op1 & l1 & l2 & He1 & He2 & ->).
  destruct (rows_split _ _ _ _ Hrows) as (rows1 & rows2 & Hr1 & Hr2 & ->). destruct (write_split _ _ _ _ _ Hw) as (w1 & Hw1 & Hw2).
  destruct (siso_rows_emits kind out_kind c out _ 0 r here op1 l1 rows1 w1 Hh He1 Hr1 Hw1) as (r1 & Hs & Hran). cbn [Derived.siso_chunks].
  rewrite (proj2 (Z.leb_gt _ _) Hc), Hs. cbn [mbind option_bind okStatus].
  rewrite <- (rn_op _ _ _ _ _ Hran) in He2. rewrite <- (rn_writer _ _ _ _ _ Hran) in Hw2.
  destruct (IH (Z.max seen (id c)) r1 more op' l2 rows2 w' Hid Hm He2 Hr2 Hw2) as (r2 & seen' & -> & Hran2 & Hle & Hall).
  exists r2, seen'. split_and!; [done|by eapply ran_trans|lia|]. constructor; [lia|done].
Qed.

Lemma siso_chunks_skip done_ new wm seen (r : SisoRun) out kind out_kind : Forall (fun c => id c <= wm) done_ ->
  Derived.siso_chunks (done_ ++ new) wm seen r out kind out_kind = Derived.siso_chunks new wm seen r out kind out_kind.
Proof.
  induction 1 as [|c cs Hc _ IH]; [done|]. cbn [app Derived.siso_chunks]. by rewrite (proj2 (Z.leb_le _ _) Hc).
Qed.

(** ** Staying in step *)

(** The output topic of the node holds what a fresh transform [op0] makes of the input
    chunks [seen]; these are the chunks the watermark covers. *)
Record siso_synced (e : DataEngine) (n : Node) (input out : Z) (in_kind out_kind : StorageKind.t) (op0 : SOp)
    (seen : list TopicChunk) (rows : list Row) : Prop := {
  sy_outputs : output_topic_ids n = [out];
  sy_distinct : input <> out;
  sy_transform : exists op ss l, transform n = Siso input in_kind out_kind op /\ inputs in_kind seen = Some ss
    /\ emitted op0 ss = (op, l) /\ rows_for out_kind l = Some rows;
  sy_holds : exists s, topics e !! out = Some s /\ holds (sealed_chunks_ s) [output_column out_kind] rows
    /\ ts_column_descriptors_ s = []
    /\ Registry.lookup (type_registry e) (schema_id (descriptor_ s))
       = Some (makePrimitive "value" (storage_kind_to_primitive out_kind));
  sy_watermark : Forall (fun c => id c <= last_processed_chunk_id n) seen
}.

Lemma output_loaded e next out s kind : ts_column_descriptors_ s = [] ->
  Registry.lookup (type_registry e) (schema_id (descriptor_ s)) = Some (makePrimitive "value" (storage_kind_to_primitive kind)) ->
  Writer.loaded_columns (Writer.make e next) out s = Some [output_column kind].
Proof. intros Hd Hl. unfold Writer.loaded_columns. cbn. by rewrite Hd, Hl. Qed.

Lemma rows_of_pairs id (rows : list Row) : rows_of id (map (pair id) rows) = rows.
Proof. induction rows as [|r rows IH]; [done|]. cbn [map]. by rewrite rows_of_eq, IH. Qed.

(** The rows of a run, written, flushed and committed. *)
Lemma run_commits e next out kind s rows more : engine_ok e -> topics e !! out = Some s ->
  holds (sealed_chunks_ s) [output_column kind] rows -> ts_column_descriptors_ s = [] ->
  Registry.lookup (type_registry e) (schema_id (descriptor_ s)) = Some (makePrimitive "value" (storage_kind_to_primitive kind)) ->
  table_ok [output_column kind] (rows ++ more) ->
  exists w, write_rows (Writer.make e next) (map (pair out) more) = Some (w, okStatus)
    /\ exists e' next' cs, Derived.commit_run iter w = Some (e', next')
       /\ engine_ok e' /\ type_registry e' = type_registry e
       /\ topics e' !! out = Some (Storage.with_chunks s (sealed_chunks_ s ++ cs))
       /\ holds (sealed_chunks_ s ++ cs) [output_column kind] (rows ++ more)
       /\ forall t, t <> out -> topics e' !! t = topics e !! t.
Proof.
  intros He Hs Hh Hd Hl Htab. pose proof (table_ok_suffix _ _ _ Htab) as Hmore.
  destruct (write_rows_staged {[out]} (fun _ => [output_column kind]) (map (pair out) more) (Writer.make e next) (fun _ => []))
    as (w & Hw & Hew & Hst).
  - apply make_staged; [|intros i Hi; by apply (table_ok_prefix _ [] more)].
    intros i ->%elem_of_singleton. exists s. split; [done|]. by apply output_loaded.
  - intros p Hp. apply list_elem_of_fmap in Hp as (r & -> & _). set_solver.
  - intros i ->%elem_of_singleton. by rewrite rows_of_pairs.
  - exists w. split; [done|]. cbn [engine Writer.make] in Hew.
    destruct (commit_staged iter Hiter w {[out]} (fun _ => [output_column kind]) (fun i => rows_of i (map (pair out) more)))
      as (w' & chunks & Hfl & Hew' & Hcom); [by rewrite Hew|exact Hst| |].
    { rewrite Hew. intros i s' t ->%elem_of_singleton Hs' Ht. rewrite rows_of_pairs in Ht. rewrite Hs in Hs'. injection Hs' as <-.
      eapply holds_time_max; [done|apply Htab|done]. }
    unfold Derived.commit_run. rewrite Hfl. cbn [mbind option_bind]. destruct (Engine.commitChunks (engine w') chunks) as [e' changed].
    rewrite Hew in Hcom. destruct Hcom as (He' & Hin & Hout & _ & Hreg). destruct (Hin out s ltac:(set_solver) Hs) as (cs & Hcs & Hhc & _).
    rewrite rows_of_pairs in Hhc. exists e', (next_chunk_id_ w'), cs. split_and!; [done..| |].
    + by apply holds_app.
    + intros t Ht. apply Hout. set_solver.
Qed.

Lemma siso_run_synced e next n input out in_kind out_kind op0 seen rows new si all op' l total :
  engine_ok e -> siso_synced e n input out in_kind out_kind op0 seen rows ->
  topics e !! input = Some si -> sealed_chunks_ si = seen ++ new ->
  Forall (fun c => last_processed_chunk_id n < id c) new ->
  inputs in_kind (seen ++ new) = Some all -> emitted op0 all = (op', l) -> rows_for out_kind l = Some total ->
  table_ok [output_column out_kind] total ->
  exists e' next' n', Derived.run_node iter e next n = Some (e', next', n', okStatus) /\ engine_ok e'
    /\ siso_synced e' n' input out in_kind out_kind op0 (seen ++ new) total
    /\ forall t, t <> out -> topics e' !! t = topics e !! t.
Proof.
  intros He [Hout Hne (op & ss & l0 & Ht & Hss & Hem & Hr0) (s & Hs & Hh & Hd & Hl) Hwm] Hsi Hchunks Hnew Hall Hemall Htot Htab.
  rewrite inputs_app, Hss in Hall. cbn [mbind option_bind] in Hall. apply bind_Some in Hall as (ss' & Hss' & [= <-]).
  destruct (emitted_split _ _ _ _ _ Hemall) as (op1 & l1 & l2 & E1 & E2 & ->). rewrite Hem in E1. injection E1 as <- <-.
  destruct (rows_split _ _ _ _ Htot) as (rows1 & more & R1 & R2 & ->). rewrite Hr0 in R1. injection R1 as <-.
  destruct (run_commits e next out out_kind s rows more) as (w & Hw & e1 & next1 & cs & Hcom & He1 & Hreg & Hs1 & Hh1 & Hother); [done..|].
  unfold Derived.run_node. rewrite Ht. unfold Derived.run_siso_incremental, Engine.getTopicStorage. rewrite Hsi, Hout, Hchunks.
  cbn [mbind option_bind lookup list_lookup]. rewrite siso_chunks_skip by done.
  destruct (siso_chunks_emits in_kind out_kind out (last_processed_chunk_id n) new (last_processed_chunk_id n)
    (Derived.mkSisoRun op 0 (out_val_buf n) (Writer.make e next) false) ss' op' l2 more w) as (r' & seen' & Hrun & [Ro Rw Rb] & Hle & Hids); [done..|].
  rewrite Hrun. cbn [mbind option_bind okStatus]. rewrite Rb, Rw, Ro. cbn [Derived.sr_wrote orb].
  assert (Hsync : forall e2, (exists s2, topics e2 !! out = Some s2 /\ holds (sealed_chunks_ s2) [output_column out_kind] (rows ++ more)
      /\ ts_column_descriptors_ s2 = [] /\ Registry.lookup (type_registry e2) (schema_id (descriptor_ s2))
         = Some (makePrimitive "value" (storage_kind_to_primitive out_kind))) ->
    siso_synced e2 (mkNode (nd_id n) (Siso input in_kind out_kind op') (all_input_topic_ids n) [out] (dirty n) seen' (mimo_last_ts n)
      (Derived.sr_out_val r') (mimo_out_buf n)) input out in_kind out_kind op0 (seen ++ new) (rows ++ more)).
  { intros e2 H2. split; cbn; [done|done| |done|].
    - exists op', (ss ++ ss'), (l0 ++ l2). rewrite inputs_app, Hss. cbn. rewrite Hss'. by split_and!.
    - apply Forall_app. split; [|done]. eapply Forall_impl; [exact Hwm|]. intros c Hc. cbn in *. lia. }
  destruct more as [|m more].
  - cbn [negb bool_decide decide_rel]. rewrite bool_decide_eq_true_2 by done. cbn [negb mbind option_bind].
    eexists _, _, _. split; [done|]. split; [done|]. split; [|done]. apply Hsync. exists s. by rewrite app_nil_r.
  - rewrite bool_decide_eq_false_2 by done. cbn [negb]. rewrite Hcom. cbn [mbind option_bind].
    eexists _, _, _. split; [done|]. split; [done|]. split; [|done]. apply Hsync. eexists. split; [exact Hs1|]. split; [exact Hh1|].
    split; [done|]. by rewrite Hreg.
Qed.

(** C12: an incremental run gives what the whole batch gives: if the output topic of a
    single-input node holds what a fresh transform makes of the first input chunks, the chunks that
    were committed since have ids above the watermark of the node, the inputs can be converted and
    the outputs are in time order and fit a column, then the run succeeds and the output topic holds
    what the fresh transform makes of all of them: no sample is lost, repeated or seen out of order,
    and the state of the transform carries over; no other topic changes.  A chunk with a smaller id
    that is committed later is not seen at all. *)
Theorem siso_incremental_is_batch e next n input out in_kind out_kind op0 seen rows new si all op' l total :
  engine_ok e -> siso_synced e n input out in_kind out_kind op0 seen rows ->
  topics e !! input = Some si -> sealed_chunks_ si = seen ++ new ->
  Forall (fun c => last_processed_chunk_id n < id c) new ->
  inputs in_kind (seen ++ new) = Some all -> emitted op0 all = (op', l) -> rows_for out_kind l = Some total ->
  table_ok [output_column out_kind] total ->
  exists e' next' n', Derived.run_node iter e next n = Some (e', next', n', okStatus) /\ engine_ok e'
    /\ siso_synced e' n' input out in_kind out_kind op0 (seen ++ new) total
    /\ forall t, t <> out -> topics e' !! t = topics e !! t.
Proof. apply siso_run_synced. Qed.

Lemma synced_dirty e n b input out in_kind out_kind op0 seen rows :
  siso_synced e n input out in_kind out_kind op0 seen rows ->
  siso_synced e (Derived.set_dirty n b) input out in_kind out_kind op0 seen rows.
Proof. intros [H1 H2 H3 H4 H5]. by split. Qed.

(** a batch recompute of a single-input node clears the output, resets the transform and
    replays all of the input: the output topic then holds exactly what the reset transform makes
    of every input chunk, the node is clean, and incremental runs can go on from there. *)
Theorem recompute_is_batch d i n input out in_kind out_kind op s si all op' l total :
  engine_ok (dr_engine d) -> nodes d !! i = Some n -> transform n = Siso input in_kind out_kind op ->
  output_topic_ids n = [out] -> input <> out ->
  topics (dr_engine d) !! out = Some s -> ts_column_descriptors_ s = [] ->
  Registry.lookup (type_registry (dr_engine d)) (schema_id (descriptor_ s))
    = Some (makePrimitive "value" (storage_kind_to_primitive out_kind)) ->
  topics (dr_engine d) !! input = Some si -> Forall (fun c => 0 < id c) (sealed_chunks_ si) ->
  inputs in_kind (sealed_chunks_ si) = Some all -> emitted (siso_reset op) all = (op', l) ->
  rows_for out_kind l = Some total -> table_ok [output_column out_kind] total ->
  exists d' n', Derived.recompute_batch iter d i = Some (d', okStatus) /\ engine_ok (dr_engine d')
    /\ nodes d' !! i = Some n' /\ dirty n' = false
    /\ siso_synced (dr_engine d') n' input out in_kind out_kind (siso_reset op) (sealed_chunks_ si) total.
Proof.
  intros He Hn Ht Hout Hne Hs Hd Hl Hsi Hpos Hall Hem Htot Htab. set (e := dr_engine d) in *.
  set (e1 := Engine.with_topics e (<[out := Storage.clearChunks s]> (topics e))).
  assert (Hclear : Derived.clear_outputs e (output_topic_ids n) = e1).
  { rewrite Hout. unfold Derived.clear_outputs, Engine.getTopicStorage. cbn [fold_left]. by rewrite Hs. }
  assert (He1 : engine_ok e1) by (eapply engine_step_ok, He; apply (step_storage e out s); [done|apply Storage.step_clear]).
  destruct (siso_run_synced e1 (dr_next_chunk_id d) (Derived.reset_node n) input out in_kind out_kind (siso_reset op) [] []
    (sealed_chunks_ si) si all op' l total) as (e' & next' & n' & Hrun & He' & Hsync & _); try done.
  - split; cbn; [done|done| | |constructor].
    + exists (siso_reset op), [], []. rewrite Ht. by split_and!.
    + exists (Storage.clearChunks s). rewrite lookup_insert_eq. split_and!; [done|apply holds_nil|done|done].
  - cbn. by rewrite lookup_insert_ne.
  - unfold Derived.recompute_batch. rewrite Hn. fold e. rewrite Hclear, Hrun. cbn [mbind option_bind okStatus].
    eexists _, (Derived.set_dirty n' false). split; [done|]. cbn. split_and!; [done|by rewrite lookup_insert_eq|done|].
    by apply synced_dirty.
Qed.

End Run.

(** ** DerivativeTransform *)

(** The slope between two samples. *)
Definition slope (t0 : Z) (v0 : VarValue) (t : Z) (v : VarValue) : double :=
  let dt := f64_mul (f64_of_Z (i64 (t - t0))) Derivative.nano in
  if f64_lt f64_zero dt then f64_div (f64_sub (varvalue_as_double v) (varvalue_as_double v0)) dt else f64_zero.

Fixpoint slopes (t0 : Z) (v0 : VarValue) (samples : list (Z * VarValue)) : list (Z * double) :=
  match samples with
  | [] => []
  | (t, v) :: rest => (t, slope t0 v0 t v) :: slopes t v rest
  end.

(** A row of doubles. *)
Definition double_rows (l : list (Z * double)) : list Row := map (fun p => (p.1, [Put (VFloat64 (bits_of_f64 p.2))])) l.

Lemma derivative_emits samples : forall t0 v0, exists op, emitted (mkDerivative t0 (varvalue_as_double v0) true) samples
  = (op, map (fun p => (p.1, VarDouble p.2)) (slopes t0 v0 samples)).
Proof.
  induction samples as [|[t v] samples IH]; intros t0 v0; cbn; [by eexists|].
  destruct (IH t v) as [op ->]. by eexists.
Qed.

Lemma rows_for_doubles l : rows_for StorageKind.kFloat64 (map (fun p => (p.1, VarDouble p.2)) l) = Some (double_rows l).
Proof. induction l as [|[t x] l IH]; [done|]. cbn [map rows_for fst snd]. cbn. by rewrite IH. Qed.

Lemma slopes_times samples : forall t0 v0, map fst (slopes t0 v0 samples) = map fst samples.
Proof. induction samples as [|[t v] samples IH]; intros t0 v0; [done|]. cbn. by rewrite IH. Qed.

Lemma double_rows_ok l : sorted (map fst l) -> Forall (in_s 64) (map fst l) -> Z.of_nat (length l) < 2 ^ 32 ->
  table_ok [output_column StorageKind.kFloat64] (double_rows l).
Proof.
  intros Hs Hr Hn. split.
  - apply Forall_map, Forall_forall. intros p _. split; [done|]. intros [|j] col Hj; [|done].
    injection Hj as <-. split; [done|]. apply bits_of_f64_range.
  - unfold double_rows. rewrite map_map. exact Hs.
  - apply Forall_map. exact (proj1 (Forall_map _ _ _) Hr).
  - unfold double_rows. by rewrite length_map.
  - intros [|j] col Hj Hk; [injection Hj as <-; done|done].
Qed.

Lemma deque_times_sorted (k : nat) cs : deque_wf cs -> sorted (concat (map timestamps cs)).
Proof.
  intros H. replace (concat (map timestamps cs)) with (map sr_timestamp (all_rows_from k cs)); [by apply all_rows_sorted|].
  revert k. clear H. induction cs as [|c cs IH]; intros k; [done|]. cbn. by rewrite map_app, chunk_rows_times, IH.
Qed.

Lemma deque_times_range cs : deque_wf cs -> Forall (in_s 64) (concat (map timestamps cs)).
Proof. intros H%deque_wf_forall. apply Forall_concat, Forall_map. eapply Forall_impl; [exact H|]. intros c. apply cw_range. Qed.

(** The derivative of samples: nothing for the first, a slope for every other. *)
Definition derivative (samples : list (Z * VarValue)) : list (Z * double) :=
  match samples with [] => [] | (t0, v0) :: rest => slopes t0 v0 rest end.

Lemma derivative_emitted d samples : has_prev_ d = false -> exists op, emitted d samples
  = (op, map (fun p => (p.1, VarDouble p.2)) (derivative samples)).
Proof.
  intros Hd. destruct samples as [|[t0 v0] rest]; [by eexists|]. cbn [emitted derivative]. cbn. unfold Derivative.calculate. rewrite Hd.
  destruct (derivative_emits rest t0 v0) as [op ->]. by exists op.
Qed.

Lemma derivative_times samples : exists k, map fst (derivative samples) = drop k (map fst samples).
Proof. destruct samples as [|[t0 v0] rest]; [by exists 0%nat|]. exists 1%nat. cbn. by rewrite slopes_times, drop_0. Qed.

(** the output of a [DerivativeTransform] node in step with its input: after a run it holds,
    for every input sample but the first, in order, that sample's timestamp and the slope from
    the sample before (0 when no time has passed), whatever numeric type the input has and
    however the samples were spread over chunks, commits and runs. *)
Theorem derivative_run {MOp} `{IMIMOTransform MOp} iter (Hiter : forall A (m : gmap Z A), iter A m ≡ₚ map_to_list m)
    e next (n : DerivedNode DerivativeTransform MOp) input out in_kind d0 seen rows new si all :
  engine_ok e -> has_prev_ d0 = false -> siso_synced e n input out in_kind StorageKind.kFloat64 d0 seen rows ->
  topics e !! input = Some si -> sealed_chunks_ si = seen ++ new ->
  Forall (fun c => last_processed_chunk_id n < id c) new ->
  inputs in_kind (seen ++ new) = Some all -> Z.of_nat (length all) < 2 ^ 32 ->
  exists e' next' n', Derived.run_node iter e next n = Some (e', next', n', okStatus) /\ engine_ok e'
    /\ siso_synced e' n' input out in_kind StorageKind.kFloat64 d0 (seen ++ new) (double_rows (derivative all)).
Proof.
  intros He Hd Hsync Hsi Hchunks Hnew Hall Hcount. pose proof (en_chunks _ He _ _ Hsi) as Hdq. rewrite Hchunks in Hdq.
  pose proof (inputs_times _ _ _ (deque_wf_forall _ Hdq) Hall) as Htimes.
  destruct (derivative_emitted d0 all Hd) as [op Hem]. destruct (derivative_times all) as [k Hk].
  destruct (siso_run_synced iter Hiter e next n input out in_kind StorageKind.kFloat64 d0 seen rows new si all op _
    (double_rows (derivative all)) He Hsync Hsi Hchunks Hnew Hall Hem) as (e' & next' & n' & Hrun & He' & Hsync' & _).
  - apply rows_for_doubles.
  - apply double_rows_ok; rewrite ?Hk.
    + rewrite Htimes. by apply sorted_drop, (deque_times_sorted 0).
    + rewrite Htimes. by apply Forall_drop, deque_times_range.
    + rewrite <- (length_map fst), Hk, length_drop, length_map. lia.
  - by exists e', next', n'.
Qed.

(** ** Instances *)

Definition demo_node (d : DerivedEngine DerivativeTransform unit) (i : Z) : DerivedNode DerivativeTransform unit :=
  default (mkNode 0 (Mimo [] [] tt) [] [] false 0 0 (VarInt 0) []) (nodes d !! i).

Definition demo_chunks (d : DerivedEngine DerivativeTransform unit) (t : Z) : list TopicChunk :=
  match topics (dr_engine d) !! t with Some s => sealed_chunks_ s | None => [] end.

Definition demo_inputs : list (Z * VarValue) := Eval vm_compute in
  default [] (inputs StorageKind.kFloat64 (demo_chunks demo_derived 1)).

Definition fresh : DerivativeTransform := mkDerivative 0 f64_zero false.

Lemma demo_synced : siso_synced (dr_engine demo_derived) (demo_node demo_derived 1) 1 3 StorageKind.kFloat64 StorageKind.kFloat64 fresh [] [].
Proof.
  split; [reflexivity|done| | |constructor].
  - exists fresh, [], []. by split_and!.
  - eexists. split; [vm_compute; reflexivity|]. split; [apply holds_nil|]. split; [reflexivity|vm_compute; reflexivity].
Qed.

Lemma demo_topic : exists s, topics (dr_engine demo_derived) !! 1 = Some s /\ sealed_chunks_ s = demo_chunks demo_derived 1.
Proof. eexists. split; [vm_compute; reflexivity|vm_compute; reflexivity]. Qed.

Lemma demo_new : Forall (fun c => last_processed_chunk_id (demo_node demo_derived 1) < id c) (demo_chunks demo_derived 1).
Proof. repeat constructor; vm_compute; done. Qed.

Lemma demo_ids : Forall (fun c => 0 < id c) (demo_chunks demo_derived 1).
Proof. repeat constructor; vm_compute; done. Qed.

Lemma derivative_run_witness : exists e' next' n',
  Derived.run_node listing (dr_engine demo_derived) 10 (demo_node demo_derived 1) = Some (e', next', n', okStatus)
  /\ exists s, topics e' !! 3 = Some s /\ holds (sealed_chunks_ s) [output_column StorageKind.kFloat64] (double_rows (derivative demo_inputs))
  /\ map fst (derivative demo_inputs) = [20000000000; 30000000000].
Proof.
  destruct demo_topic as (s & Hs & Hc).
  destruct (derivative_run listing (fun A m => reflexivity _) (dr_engine demo_derived) 10 (demo_node demo_derived 1) 1 3
    StorageKind.kFloat64 fresh [] [] (demo_chunks demo_derived 1) s demo_inputs) as (e' & next' & n' & Hrun & _ & Hsync).
  - exact (gr_engine _ demo_derived_ok).
  - reflexivity.
  - exact demo_synced.
  - exact Hs.
  - exact Hc.
  - exact demo_new.
  - vm_compute. reflexivity.
  - vm_compute. reflexivity.
  - exists e', next', n'. split; [exact Hrun|]. destruct (sy_holds _ _ _ _ _ _ _ _ _ Hsync) as (s' & Hs' & Hh & _).
    exists s'. split; [done|]. split; [done|]. vm_compute. reflexivity.
Defined.

Lemma demo_total_ok : table_ok [output_column StorageKind.kFloat64] (double_rows (derivative demo_inputs)).
Proof. apply double_rows_ok; [repeat constructor; vm_compute; congruence|repeat constructor; vm_compute; congruence|vm_compute; reflexivity]. Qed.

Lemma siso_incremental_is_batch_witness : exists e' next' n',
  Derived.run_node listing (dr_engine demo_derived) 10 (demo_node demo_derived 1) = Some (e', next', n', okStatus)
  /\ topics e' !! 1 = topics (dr_engine demo_derived) !! 1.
Proof.
  destruct demo_topic as (s & Hs & Hc).
  destruct (siso_incremental_is_batch listing (fun A m => reflexivity _) (dr_engine demo_derived) 10 (demo_node demo_derived 1) 1 3
    StorageKind.kFloat64 StorageKind.kFloat64 fresh [] [] (demo_chunks demo_derived 1) s demo_inputs
    (emitted fresh demo_inputs).1 (emitted fresh demo_inputs).2 (double_rows (derivative demo_inputs)))
    as (e' & next' & n' & Hrun & _ & _ & Hother).
  - exact (gr_engine _ demo_derived_ok).
  - exact demo_synced.
  - exact Hs.
  - exact Hc.
  - exact demo_new.
  - vm_compute. reflexivity.
  - vm_compute. reflexivity.
  - vm_compute. reflexivity.
  - exact demo_total_ok.
  - exists e', next', n'. split; [exact Hrun|]. by apply Hother.
Defined.

Lemma recompute_is_batch_witness : exists d' n',
  Derived.recompute_batch listing demo_derived 1 = Some (d', okStatus) /\ nodes d' !! 1 = Some n' /\ dirty n' = false.
Proof.
  destruct demo_topic as (s & Hs & Hc). destruct (topics (dr_engine demo_derived) !! 3) as [so|] eqn:Hso; [|vm_compute in Hso; discriminate Hso].
  destruct (recompute_is_batch listing (fun A m => reflexivity _) demo_derived 1 (demo_node demo_derived 1) 1 3
    StorageKind.kFloat64 StorageKind.kFloat64 fresh so s demo_inputs
    (emitted fresh demo_inputs).1 (emitted fresh demo_inputs).2 (double_rows (derivative demo_inputs)))
    as (d' & n' & Hrun & _ & Hn & Hd & _).
  - exact (gr_engine _ demo_derived_ok).
  - vm_compute. reflexivity.
  - reflexivity.
  - reflexivity.
  - done.
  - exact Hso.
  - vm_compute in Hso. injection Hso as <-. reflexivity.
  - vm_compute in Hso. injection Hso as <-. vm_compute. reflexivity.
  - exact Hs.
  - rewrite Hc. exact demo_ids.
  - rewrite Hc. vm_compute. reflexivity.
  - vm_compute. reflexivity.
  - vm_compute. reflexivity.
  - exact demo_total_ok.
  - exists d', n'. split; [exact Hrun|]. split; [exact Hn|exact Hd].
Defined.
