(* ===== verification/DerivedJoin.v ===== *)
(** * DerivedJoin: the join of a multi-input node

    [run_mimo_incremental] of [src/pj_datastore/src/derived_engine.cpp] calls the
    transform once for every timestamp all inputs have and the node has not
    seen.  Here: what it collects, joins and looks up, against one list of the
    rows of a topic. *)

From S2P Require Import Prelude Types TypeTree TypeRegistry Float64 Buffer Encoding Column Chunk Query TopicStorage Engine Writer Ingest Layout WriterState Derived DerivedRun DerivedGraph DerivedSiso.

Abbreviation SampleLoc := Derived.SampleLoc.
Abbreviation mkLoc := Derived.mkLoc.
Abbreviation sl_ts := Derived.sl_ts.

(** ** The rows of a topic *)

Fixpoint locs_from (r : nat) (c : TopicChunk) (ts : list Z) : list SampleLoc :=
  match ts with [] => [] | t :: rest => mkLoc t c r :: locs_from (S r) c rest end.

Definition locs_of (chunks : list TopicChunk) : list SampleLoc := concat (map (fun c => locs_from 0 c (timestamps c)) chunks).

Definition topic_locs (e : DataEngine) (t : Z) : list SampleLoc :=
  match topics e !! t with Some s => locs_of (sealed_chunks_ s) | None => [] end.

Lemma locs_from_times c ts : forall r, map sl_ts (locs_from r c ts) = ts.
Proof. induction ts as [|t ts IH]; intros r; [done|]. cbn. by rewrite IH. Qed.

Lemma locs_times chunks : map sl_ts (locs_of chunks) = concat (map timestamps chunks).
Proof.
  unfold locs_of. induction chunks as [|c chunks IH]; [done|]. cbn. by rewrite map_app, locs_from_times, IH.
Qed.

Lemma topic_locs_sorted e t : engine_ok e -> sorted (map sl_ts (topic_locs e t)).
Proof.
  intros He. unfold topic_locs. destruct (topics e !! t) as [s|] eqn:E; [|constructor].
  rewrite locs_times. apply (deque_times_sorted 0). by eapply en_chunks.
Qed.

(** ** Collecting *)

Lemma new_rows_spec last c n : forall r, (r + n = length (timestamps c))%nat ->
  Derived.new_rows n r c last = Some (filter (fun l => last < sl_ts l) (locs_from r c (drop r (timestamps c)))).
Proof.
  induction n as [|n IH]; intros r Hr; cbn [Derived.new_rows].
  { rewrite drop_ge by lia. done. }
  destruct (lookup_lt_is_Some_2 (timestamps c) r ltac:(lia)) as [t Ht]. rewrite (drop_S _ t) by done. rewrite Ht.
  cbn [mbind option_bind]. rewrite IH by lia. cbn [mbind option_bind locs_from]. f_equal. rewrite filter_cons. cbn [Derived.sl_ts].
  destruct (Z.leb_spec t last), (decide (last < t)); (done || lia).
Qed.

Lemma collect_spec last chunks : Forall chunk_wf chunks ->
  Derived.collect chunks last = Some (filter (fun l => last < sl_ts l) (locs_of chunks)).
Proof.
  induction 1 as [|c chunks Hc _ IH]; [done|]. cbn [Derived.collect]. unfold locs_of in *. cbn [map concat]. rewrite filter_app, IH.
  destruct (Z.leb_spec (t_max (stats c)) last) as [Hle|Hlt].
  - rewrite (filter_no_element _ (locs_from 0 c (timestamps c))); [done|]. intros l Hl.
    assert (Hin : sl_ts l ∈ timestamps c) by (rewrite <- (locs_from_times c (timestamps c) 0); by apply list_elem_of_fmap_2).
    apply chunk_bounds in Hin; [lia|done].
  - rewrite (cw_rows _ Hc), Nat2Z.id, new_rows_spec by done. rewrite drop_0. done.
Qed.

(** The new rows of every input, unless one has none. *)
Definition new_locs (e : DataEngine) (last t : Z) : list SampleLoc := filter (fun l => last < sl_ts l) (topic_locs e t).

Lemma collect_all_spec e last ids : engine_ok e -> (forall t, t ∈ ids -> is_Some (topics e !! t)) ->
  Derived.collect_all e ids last
  = Some (Ok (if existsb (fun t => bool_decide (new_locs e last t = [])) ids then None else Some (map (new_locs e last) ids))).
Proof.
  intros He. induction ids as [|t ids IH]; intros Hin; [done|]. cbn [Derived.collect_all existsb map].
  destruct (Hin t ltac:(by left)) as [s Hs]. unfold Engine.getTopicStorage. rewrite Hs.
  rewrite collect_spec by (apply deque_wf_forall; by eapply en_chunks). cbn [mbind option_bind].
  assert (Hn : new_locs e last t = filter (fun l => last < sl_ts l) (locs_of (sealed_chunks_ s))) by (unfold new_locs, topic_locs; by rewrite Hs).
  rewrite <- Hn. rewrite IH by (intros; apply Hin; by right).
  destruct (new_locs e last t) as [|l locs]; [by rewrite bool_decide_eq_true_2|]. rewrite bool_decide_eq_false_2 by done.
  cbn [orb]. cbn [mbind option_bind]. by destruct (existsb _ ids).
Qed.

(** ** Joining *)

Lemma sorted_filter (P : Z -> Prop) `{!forall x, Decision (P x)} l : sorted l -> sorted (filter P l).
Proof.
  induction 1 as [|x l Hs IH Hx]; [constructor|]. rewrite filter_cons. case_decide; [|done]. constructor; [done|].
  rewrite List.Forall_forall in Hx |- *. intros y Hy%list_elem_of_In. apply list_elem_of_filter in Hy as [_ Hy].
  by apply Hx, list_elem_of_In.
Qed.

Definition shared (ts : list Z) (locs : list SampleLoc) : list Z := filter (fun t => t ∈ (list_to_set (map sl_ts locs) : gset Z)) ts.

Lemma shared_all_spec others : forall ts, sorted ts -> sorted (fold_left shared others ts)
  /\ forall x, x ∈ fold_left shared others ts <-> x ∈ ts /\ forall locs, locs ∈ others -> x ∈ map sl_ts locs.
Proof.
  induction others as [|locs others IH]; intros ts Hs; cbn [fold_left].
  { split; [done|]. intros x. split; [|by intros []]. intros Hx. split; [done|]. by intros l ?%not_elem_of_nil. }
  destruct (IH (shared ts locs)) as [H1 H2]; [by apply sorted_filter|]. split; [done|]. intros x. rewrite H2. unfold shared at 1.
  rewrite list_elem_of_filter, elem_of_list_to_set. split.
  - intros [[Hl Hx] Ho]. split; [done|]. intros l [->|Hin]%elem_of_cons; [done|by apply Ho].
  - intros [Hx Ho]. split; [split; [apply Ho; by left|done]|]. intros l Hin. apply Ho. by right.
Qed.

(** The joined timestamps ascend strictly and are those all inputs have. *)
Lemma joined_spec per_topic : per_topic <> [] -> (forall locs, locs ∈ per_topic -> sorted (map sl_ts locs)) ->
  StronglySorted Z.lt (Derived.joined per_topic)
  /\ forall x, x ∈ Derived.joined per_topic <-> forall locs, locs ∈ per_topic -> x ∈ map sl_ts locs.
Proof.
  destruct per_topic as [|first others]; [done|]. intros _ Hs. unfold Derived.joined.
  destruct (shared_all_spec others (map sl_ts first)) as [H1 H2]; [apply Hs; by left|]. split; [by apply unique_sorted|].
  intros x. rewrite unique_elem, H2. split.
  - intros [Hx Ho] l [->|Hl]%elem_of_cons; [done|by apply Ho].
  - intros H. split; [apply H; by left|]. intros l Hl. apply H. by right.
Qed.

(** *** Looking up *)

Lemma lookup_table_spec locs x : Derived.lookup_table locs !! x = last (filter (fun l => sl_ts l = x) locs).
Proof.
  unfold Derived.lookup_table. induction locs as [|l locs IH] using rev_ind; [done|]. rewrite fold_left_app, filter_app. cbn [fold_left].
  destruct (decide (sl_ts l = x)) as [<-|Hne].
  - rewrite lookup_insert_eq, filter_cons_True by done. by rewrite filter_nil, last_snoc.
  - rewrite lookup_insert_ne by done. rewrite filter_cons_False by done. by rewrite filter_nil, app_nil_r.
Qed.

(** *** The new rows *)

Lemma new_locs_sorted e last_ts t : engine_ok e -> sorted (map sl_ts (new_locs e last_ts t)).
Proof.
  intros He. unfold new_locs. pose proof (topic_locs_sorted e t He) as Hs. revert Hs.
  generalize (topic_locs e t). intros l Hs. induction l as [|a l IH]; [constructor|]. rewrite filter_cons.
  apply StronglySorted_inv in Hs as [Hs Ha]. case_decide; [|by apply IH]. constructor; [by apply IH|].
  rewrite List.Forall_forall in Ha |- *. intros y (b & <- & Hb)%in_map_iff. apply list_elem_of_In, list_elem_of_filter in Hb as [_ Hb].
  apply Ha, in_map_iff. exists b. split; [done|]. by apply list_elem_of_In.
Qed.

Lemma new_locs_times e last_ts t x : x ∈ map sl_ts (new_locs e last_ts t)
  <-> last_ts < x /\ exists l, l ∈ topic_locs e t /\ sl_ts l = x.
Proof.
  rewrite list_elem_of_fmap. split.
  - intros (l & -> & [? ?]%list_elem_of_filter). split; [done|]. by exists l.
  - intros (Hx & l & Hl & <-). exists l. split; [done|]. by apply list_elem_of_filter.
Qed.

Lemma new_locs_none e last_ts t : new_locs e last_ts t = [] -> forall l, l ∈ topic_locs e t -> sl_ts l <= last_ts.
Proof.
  intros Hnil l Hl. destruct (decide (last_ts < sl_ts l)) as [Hlt|]; [|lia].
  assert (Hl' : l ∈ new_locs e last_ts t) by by apply list_elem_of_filter. rewrite Hnil in Hl'. by apply not_elem_of_nil in Hl'.
Qed.

(** The table of the new rows has the last row of every new timestamp. *)
Lemma new_locs_table e last_ts t x : x ∈ map sl_ts (new_locs e last_ts t) -> exists l,
  Derived.lookup_table (new_locs e last_ts t) !! x = Some l /\ last (filter (fun l => sl_ts l = x) (topic_locs e t)) = Some l.
Proof.
  intros (Hlt & l & Hl & Hlx)%new_locs_times. rewrite lookup_table_spec.
  assert (Hsame : filter (fun l => sl_ts l = x) (new_locs e last_ts t) = filter (fun l => sl_ts l = x) (topic_locs e t)).
  { unfold new_locs. generalize (topic_locs e t). intros ls. induction ls as [|a ls IHl]; [done|]. rewrite !filter_cons.
    destruct (decide (last_ts < sl_ts a)) as [Ha|Ha]; [rewrite filter_cons; case_decide; by rewrite IHl|].
    case_decide; [lia|done]. }
  rewrite Hsame. destruct (last (filter _ (topic_locs e t))) as [l'|] eqn:El; [by exists l'|].
  apply last_None in El. assert (Hf : l ∈ filter (fun l => sl_ts l = x) (topic_locs e t)) by by apply list_elem_of_filter.
  rewrite El in Hf. by apply not_elem_of_nil in Hf.
Qed.

(** C17: what one run of a multi-input node joins: either some input has no row after the
    watermark, and nothing is joined, or the joined timestamps ascend strictly and are exactly
    those after the watermark that every input has; and for each of them the table of every
    input gives the last of its rows with that timestamp. *)
Theorem mimo_join_spec e ids last_ts : engine_ok e -> ids <> [] -> (forall t, t ∈ ids -> is_Some (topics e !! t)) ->
  exists r, Derived.collect_all e ids last_ts = Some (Ok r)
    /\ match r with
       | None => exists t, t ∈ ids /\ forall l, l ∈ topic_locs e t -> sl_ts l <= last_ts
       | Some per_topic =>
           StronglySorted Z.lt (Derived.joined per_topic)
           /\ (forall x, x ∈ Derived.joined per_topic
                 <-> last_ts < x /\ forall t, t ∈ ids -> exists l, l ∈ topic_locs e t /\ sl_ts l = x)
           /\ Forall2 (fun t locs => forall x, x ∈ Derived.joined per_topic -> exists l,
                 Derived.lookup_table locs !! x = Some l /\ last (filter (fun l => sl_ts l = x) (topic_locs e t)) = Some l) ids per_topic
       end.
Proof.
  intros He Hne Hin. rewrite collect_all_spec by done. eexists. split; [done|]. destruct (existsb _ ids) eqn:Ex.
  { apply existsb_exists in Ex as (t & Ht & Hnil). apply bool_decide_eq_true in Hnil. exists t. split; [by apply list_elem_of_In|].
    by apply new_locs_none. }
  destruct (joined_spec (map (new_locs e last_ts) ids)) as [Hsorted Hj]; [by destruct ids| |].
  { intros locs (t & -> & _)%list_elem_of_fmap. by apply new_locs_sorted. }
  assert (Hall : forall x, x ∈ Derived.joined (map (new_locs e last_ts) ids) <-> forall t, t ∈ ids -> x ∈ map sl_ts (new_locs e last_ts t)).
  { intros x. rewrite Hj. split.
    - intros H t Ht. apply H, list_elem_of_fmap. by exists t.
    - intros H locs (t & -> & Ht)%list_elem_of_fmap. by apply H. }
  split_and!; [done| |].
  - intros x. rewrite Hall. setoid_rewrite new_locs_times. split.
    + intros H. split; [|intros t Ht; by apply H]. destruct ids as [|t ids]; [done|]. apply (H t). by left.
    + intros [Hx H] t Ht. split; [done|]. by apply H.
  - apply Forall2_fmap_r, Forall_Forall2_diag, Forall_forall. intros t Ht x Hx. by apply new_locs_table, Hall.
Qed.

Lemma mimo_join_spec_witness : exists per_topic, Derived.collect_all demo_source [1; 2] 0 = Some (Ok (Some per_topic))
  /\ Derived.joined per_topic = [20000000000; 30000000000] /\ StronglySorted Z.lt (Derived.joined per_topic).
Proof.
  destruct (mimo_join_spec demo_source [1; 2] 0) as (r & Hr & H).
  - apply engine_reachable_ok, demo_source_reachable.
  - done.
  - intros t Ht. assert (t = 1 \/ t = 2) as [-> | ->] by set_solver; eexists; vm_compute; reflexivity.
  - destruct r as [per_topic|]; [|vm_compute in Hr; discriminate Hr]. exists per_topic. split; [exact Hr|]. split; [|apply H].
    vm_compute in Hr. injection Hr as <-. vm_compute. reflexivity.
Defined.
