(* ===== verification/Settings.v ===== *)
(** * Settings: what plugins keep between sessions

    Models the settings service: [SettingsValue] and [SettingsView] of
    [src/pj_base/include/pj_base/sdk/plugin_data_api.hpp] on the side of the
    plugin, [SettingsStoreHost], the interface [SettingsBackend] and
    [InMemorySettingsBackend] of [settings_store_host.hpp] on the side of the
    host.  The table between them is null in part or as a whole when the host
    offers less.  The view passes its own out-parameters, so the null checks of
    the trampolines never fire and are left out. *)

From S2P Require Import Prelude Float64 Json Types Host Sdk.

(** ** The interface of a backend *)

(** A call of C++ code that may throw; [None] is not a [std::exception]. *)
Inductive Call (A : Type) : Type :=
| Returned (a : A)
| Threw (what : option string).
Arguments Returned {A} a.
Arguments Threw {A} what.

Class SettingsBackend (B : Type) := {
  be_getString : B -> string -> B * Call (option string);
  be_setString : B -> string -> string -> B * Call unit;
  be_getStringList : B -> string -> B * Call (option (list string));
  be_setStringList : B -> string -> list string -> B * Call unit;
  be_contains : B -> string -> B * Call bool;
  be_remove : B -> string -> B * Call unit
}.

(** What a client can tell of one key: its string, its list, whether it is there.
    Whether the two getters share their keys is up to the backend: one over
    QSettings has one space of keys, the one in memory has two. *)
Record Entry := mkEntry { text_ : option string; list_ : option (list string); present_ : bool }.

(** A backend may fail, and then it changes nothing. *)
Definition lawful {B A} (entry : B -> string -> Entry) (b : B) (result : B * Call A) (P : B -> A -> Prop) : Prop :=
  match result.2 with
  | Returned a => P result.1 a
  | Threw _ => forall k, entry result.1 k = entry b k
  end.

(** A getter changes nothing; a setter leaves the other keys alone. *)
Definition same_entries {B} (entry : B -> string -> Entry) (b b' : B) : Prop := forall k, entry b' k = entry b k.
Definition others_same {B} (entry : B -> string -> Entry) (key : string) (b b' : B) : Prop :=
  forall k, k <> key -> entry b' k = entry b k.

Class SettingsLaws (B : Type) `{SettingsBackend B} := {
  entry : B -> string -> Entry;
  getString_law b k : lawful entry b (be_getString b k) (fun b' a => same_entries entry b b' /\ a = text_ (entry b k));
  setString_law b k v : lawful entry b (be_setString b k v)
    (fun b' _ => others_same entry k b b' /\ text_ (entry b' k) = Some v /\ present_ (entry b' k) = true);
  getStringList_law b k : lawful entry b (be_getStringList b k) (fun b' a => same_entries entry b b' /\ a = list_ (entry b k));
  setStringList_law b k v : lawful entry b (be_setStringList b k v)
    (fun b' _ => others_same entry k b b' /\ list_ (entry b' k) = Some v /\ present_ (entry b' k) = true);
  contains_law b k : lawful entry b (be_contains b k) (fun b' a => same_entries entry b b' /\ a = present_ (entry b k));
  remove_law b k : lawful entry b (be_remove b k)
    (fun b' _ => others_same entry k b b' /\ entry b' k = mkEntry None None false)
}.

(** ** InMemorySettingsBackend *)

Record InMemorySettingsBackend := mkInMemory {
  strings_ : gmap string string; lists_ : gmap string (list string) }.

#[export] Instance in_memory_backend : SettingsBackend InMemorySettingsBackend := {|
  be_getString b key := (b, Returned (strings_ b !! key));
  be_setString b key value := (mkInMemory (<[key := value]> (strings_ b)) (lists_ b), Returned ());
  be_getStringList b key := (b, Returned (lists_ b !! key));
  be_setStringList b key values := (mkInMemory (strings_ b) (<[key := values]> (lists_ b)), Returned ());
  be_contains b key := (b, Returned (bool_decide (is_Some (strings_ b !! key) \/ is_Some (lists_ b !! key))));
  be_remove b key := (mkInMemory (delete key (strings_ b)) (delete key (lists_ b)), Returned ())
|}.

#[export] Instance in_memory_laws : SettingsLaws InMemorySettingsBackend.
Proof.
  refine {| entry b k := mkEntry (strings_ b !! k) (lists_ b !! k) (bool_decide (is_Some (strings_ b !! k) \/ is_Some (lists_ b !! k))) |};
    intros; unfold lawful, others_same; cbn; try done.
  - rewrite lookup_insert_eq, bool_decide_eq_true_2 by (left; eauto). split_and!; [|done..]. intros k' Hk. by rewrite lookup_insert_ne.
  - rewrite lookup_insert_eq, bool_decide_eq_true_2 by (right; eauto). split_and!; [|done..]. intros k' Hk. by rewrite lookup_insert_ne.
  - rewrite !lookup_delete_eq. split; [intros k' Hk; by rewrite !lookup_delete_ne|]. by rewrite bool_decide_eq_false_2 by (by intros [[? ?]|[? ?]]).
Defined.

(** ** The table *)

(** A string handed out by a getter is a view into the memory of the store: what
    it reads is what the store holds when it is read. *)
Abbreviation borrowed S A := (S -> A).
Abbreviation answer S A := (S * option A * option PJ_error_t)%type.

Record PJ_settings_store_vtable_t (S : Type) := mkSettingsTable {
  get_string : option (S -> string -> answer S (option (borrowed S string)));
  set_string : option (S -> string -> string -> answer S unit);
  get_string_list : option (S -> string -> answer S (option (borrowed S (list string))));
  set_string_list : option (S -> string -> list string -> answer S unit);
  contains : option (S -> string -> answer S bool);
  remove_key : option (S -> string -> answer S unit)
}.
Arguments get_string {S}. Arguments set_string {S}. Arguments get_string_list {S}.
Arguments set_string_list {S}. Arguments contains {S}. Arguments remove_key {S}.

(** ** SettingsStoreHost *)

Record SettingsStoreHost (B : Type) := mkStoreHost {
  backend_ : B; scratch_value_ : string; scratch_list_ : list string }.
Arguments mkStoreHost {B}. Arguments backend_ {B}. Arguments scratch_value_ {B}. Arguments scratch_list_ {B}.

Module StoreHost.
Section Host.
Context {B : Type} `{SettingsBackend B}.
Implicit Types (self : SettingsStoreHost B).

Definition with_backend self (b : B) : SettingsStoreHost B := mkStoreHost b (scratch_value_ self) (scratch_list_ self).

(** The two [catch] clauses. *)
Definition caught (call : string) (what : option string) : PJ_error_t :=
  Host.fillError 1 "settings"
    match what with
    | Some e => call +:+ " threw: " +:+ e
    | None => call +:+ " threw unknown exception"
    end.

Definition tGetString self (key : string) : answer (SettingsStoreHost B) (option (borrowed (SettingsStoreHost B) string)) :=
  let '(b, value) := be_getString (backend_ self) key in
  match value with
  | Threw e => (with_backend self b, None, Some (caught "getString" e))
  | Returned None => (with_backend self b, Some None, None)
  | Returned (Some v) => (mkStoreHost b v (scratch_list_ self), Some (Some scratch_value_), None)
  end.

Definition tSetString self (key value : string) : answer (SettingsStoreHost B) unit :=
  let '(b, r) := be_setString (backend_ self) key value in
  match r with
  | Threw e => (with_backend self b, None, Some (caught "setString" e))
  | Returned _ => (with_backend self b, Some (), None)
  end.

Definition tGetStringList self (key : string)
    : answer (SettingsStoreHost B) (option (borrowed (SettingsStoreHost B) (list string))) :=
  let '(b, values) := be_getStringList (backend_ self) key in
  match values with
  | Threw e => (with_backend self b, None, Some (caught "getStringList" e))
  | Returned None => (with_backend self b, Some None, None)
  | Returned (Some l) => (mkStoreHost b (scratch_value_ self) l, Some (Some scratch_list_), None)
  end.

Definition tSetStringList self (key : string) (items : list string) : answer (SettingsStoreHost B) unit :=
  let '(b, r) := be_setStringList (backend_ self) key items in
  match r with
  | Threw e => (with_backend self b, None, Some (caught "setStringList" e))
  | Returned _ => (with_backend self b, Some (), None)
  end.

Definition tContains self (key : string) : answer (SettingsStoreHost B) bool :=
  let '(b, r) := be_contains (backend_ self) key in
  match r with
  | Threw e => (with_backend self b, None, Some (caught "contains" e))
  | Returned present => (with_backend self b, Some present, None)
  end.

Definition tRemove self (key : string) : answer (SettingsStoreHost B) unit :=
  let '(b, r) := be_remove (backend_ self) key in
  match r with
  | Threw e => (with_backend self b, None, Some (caught "remove" e))
  | Returned _ => (with_backend self b, Some (), None)
  end.

(** [view()] *)
Definition kVtable : PJ_settings_store_vtable_t (SettingsStoreHost B) :=
  mkSettingsTable _ (Some tGetString) (Some tSetString) (Some tGetStringList) (Some tSetStringList)
    (Some tContains) (Some tRemove).
End Host.
End StoreHost.

(** ** SettingsValue *)

(** [fast_float] and [std::to_chars] of a double. *)
Class DoubleText := {
  to_chars : Z -> option string;
  parse_double : string -> option Z
}.

(** The shortest text of a double is read back as that double. *)
Class DoubleTextLaws `{DoubleText} : Prop := {
  to_chars_parse d : in_u 64 d -> f64_is_finite (f64_of_bits d) = true ->
    exists t, to_chars d = Some t /\ parse_double t = Some d
}.

Abbreviation SettingsValue := (option string).

Module Value.
Definition isNull (raw : SettingsValue) : bool := bool_decide (raw = None).
Definition toString (raw : SettingsValue) (def : string) : string := default def raw.
Definition toInt (raw : SettingsValue) (def : Z) : Z :=
  match raw with Some s => default def (parseNumber 64 s) | None => def end.
Definition toDouble `{DoubleText} (raw : SettingsValue) (def : Z) : Z :=
  match raw with Some s => default def (parse_double s) | None => def end.
Definition toBool (raw : SettingsValue) (def : bool) : bool :=
  match raw with
  | None => def
  | Some s =>
      if decide (s = "true" \/ s = "1" \/ s = "on") then true
      else if decide (s = "false" \/ s = "0" \/ s = "off") then false
      else def
  end.
End Value.

(** ** SettingsView *)

Module View.
Section View.
Context {S : Type} (store_ : option (PJ_settings_store_vtable_t S)).

Definition not_bound {A} (s : S) : S * Expected A := (s, Err "settings store is not bound").

(** [if (!slot(...)) return unexpected(errorToString(err))], and a view that was
    found is copied at once. *)
Definition finish {A} (r : answer S A) : S * Expected A :=
  let '(s, a, err) := r in (s, Sdk.checked a err).
Definition copied {A} (absent : A) (r : answer S (option (borrowed S A))) : S * Expected A :=
  let '(s, a, err) := r in
  (s, match a with
      | None => Err (Sdk.errorToString (default Sdk.zero_error err))
      | Some None => Ok absent
      | Some (Some view) => Ok (view s)
      end).

Definition setValue (s : S) (key value : string) : S * Status :=
  match store_ ≫= set_string with None => not_bound s | Some slot => finish (slot s key value) end.
Definition setValue_int (s : S) (key : string) (value : Z) : S * Status := setValue s key (to_string value).
Definition setValue_double `{DoubleText} (s : S) (key : string) (value : Z) : S * Status :=
  match to_chars value with
  | None => (s, Err "settings: failed to format double value")
  | Some text => setValue s key text
  end.
Definition setValue_bool (s : S) (key : string) (value : bool) : S * Status :=
  setValue s key (if value then "true" else "false").
Definition setValue_list (s : S) (key : string) (values : list string) : S * Status :=
  match store_ ≫= set_string_list with None => not_bound s | Some slot => finish (slot s key values) end.

Definition value (s : S) (key : string) : S * Expected SettingsValue :=
  match store_ ≫= get_string with
  | None => (s, Ok None)
  | Some slot =>
      let '(s, a, err) := slot s key in
      (s, match a with
          | None => Err (Sdk.errorToString (default Sdk.zero_error err))
          | Some None => Ok None
          | Some (Some view) => Ok (Some (view s))
          end)
  end.
Definition valueStringList (s : S) (key : string) : S * Expected (list string) :=
  match store_ ≫= get_string_list with None => (s, Ok []) | Some slot => copied [] (slot s key) end.
Definition contains (s : S) (key : string) : S * Expected bool :=
  match store_ ≫= contains with None => (s, Ok false) | Some slot => finish (slot s key) end.
Definition remove (s : S) (key : string) : S * Status :=
  match store_ ≫= remove_key with None => not_bound s | Some slot => finish (slot s key) end.
End View.
End View.

(** ** Sessions of a plugin *)

Inductive Scalar := SString (s : string) | SInt (z : Z) | SDouble (bits : Z) | SBool (b : bool).

Inductive Op :=
| SetScalar (key : string) (v : Scalar)
| SetList (key : string) (values : list string)
| GetValue (key : string)
| GetList (key : string)
| Contains (key : string)
| Remove (key : string).

Inductive Outcome :=
| oStatus (r : Status)
| oValue (r : Expected SettingsValue)
| oList (r : Expected (list string))
| oPresent (r : Expected bool).

Section Sessions.
Context `{DoubleText}.

Definition set_scalar {S} (store : option (PJ_settings_store_vtable_t S)) (s : S) (key : string) (v : Scalar)
    : S * Status :=
  match v with
  | SString t => View.setValue store s key t
  | SInt z => View.setValue_int store s key z
  | SDouble d => View.setValue_double store s key d
  | SBool b => View.setValue_bool store s key b
  end.

Definition perform {S} (store : option (PJ_settings_store_vtable_t S)) (s : S) (op : Op) : S * Outcome :=
  match op with
  | SetScalar k v => let '(s, r) := set_scalar store s k v in (s, oStatus r)
  | SetList k l => let '(s, r) := View.setValue_list store s k l in (s, oStatus r)
  | GetValue k => let '(s, r) := View.value store s k in (s, oValue r)
  | GetList k => let '(s, r) := View.valueStringList store s k in (s, oList r)
  | Contains k => let '(s, r) := View.contains store s k in (s, oPresent r)
  | Remove k => let '(s, r) := View.remove store s k in (s, oStatus r)
  end.

Definition session {S} (store : option (PJ_settings_store_vtable_t S)) (s : S) (ops : list Op) : S :=
  foldl (fun s op => (perform store s op).1) s ops.

(** The text a scalar is stored as. *)
Definition scalar_text (v : Scalar) : option string :=
  match v with
  | SString s => Some s
  | SInt z => Some (to_string z)
  | SDouble d => to_chars d
  | SBool b => Some (if b then "true" else "false")
  end.

(** How a plugin learns that the backend threw. *)
Definition faulted (op : Op) (msg : string) : Outcome :=
  match op with
  | SetScalar _ _ | SetList _ _ | Remove _ => oStatus (Err msg)
  | GetValue _ => oValue (Err msg)
  | GetList _ => oList (Err msg)
  | Contains _ => oPresent (Err msg)
  end.

(** The call of the backend an operation comes down to, if it throws. *)
Definition backend_threw {B} `{SettingsBackend B} (b : B) (op : Op) : option (string * option string) :=
  let threw {A} (call : string) (r : B * Call A) :=
    match r.2 with Threw what => Some (call, what) | Returned _ => None end in
  match op with
  | SetScalar k v => t ← scalar_text v; threw "setString" (be_setString b k t)
  | SetList k l => threw "setStringList" (be_setStringList b k l)
  | GetValue k => threw "getString" (be_getString b k)
  | GetList k => threw "getStringList" (be_getStringList b k)
  | Contains k => threw "contains" (be_contains b k)
  | Remove k => threw "remove" (be_remove b k)
  end.

Definition fault_text (call : string * option string) : string :=
  Sdk.errorToString (StoreHost.caught call.1 call.2).

Section Refinement.
Context {B : Type} `{SettingsLaws B}.

Abbreviation store := (Some (StoreHost.kVtable (B := B))).
Definition shown (h : SettingsStoreHost B) (k : string) : Entry := entry (backend_ h) k.

(** What an operation means: the outcome and the keys after it. *)
Definition meaning (op : Op) (h h' : SettingsStoreHost B) (o : Outcome) : Prop :=
  match op with
  | SetScalar k v =>
      match scalar_text v with
      | Some t => o = oStatus okStatus /\ others_same entry k (backend_ h) (backend_ h') /\ text_ (shown h' k) = Some t
          /\ present_ (shown h' k) = true
      | None => o = oStatus (Err "settings: failed to format double value") /\ same_entries entry (backend_ h) (backend_ h')
      end
  | SetList k l => o = oStatus okStatus /\ others_same entry k (backend_ h) (backend_ h') /\ list_ (shown h' k) = Some l
      /\ present_ (shown h' k) = true
  | GetValue k => o = oValue (Ok (text_ (shown h k))) /\ same_entries entry (backend_ h) (backend_ h')
  | GetList k => o = oList (Ok (default [] (list_ (shown h k)))) /\ same_entries entry (backend_ h) (backend_ h')
  | Contains k => o = oPresent (Ok (present_ (shown h k))) /\ same_entries entry (backend_ h) (backend_ h')
  | Remove k => o = oStatus okStatus /\ others_same entry k (backend_ h) (backend_ h') /\ shown h' k = mkEntry None None false
  end.

(** One law per call of the backend, and what it gives the view. *)
Ltac backend_call law :=
  pose proof law as Hlaw; unfold lawful in Hlaw;
  match type of Hlaw with match snd ?r with _ => _ end => destruct r as [b' [a|e]] end;
  cbn [fst snd] in Hlaw;
  cbn [StoreHost.with_backend backend_ Sdk.checked View.finish View.copied fst snd].

Lemma set_text_step h k t :
  let r := View.setValue store h k t in
  match (be_setString (backend_ h) k t).2 with
  | Threw what => r.2 = Err (fault_text ("setString", what)) /\ same_entries entry (backend_ h) (backend_ r.1)
  | Returned _ => r.2 = okStatus /\ others_same entry k (backend_ h) (backend_ r.1) /\ text_ (shown r.1 k) = Some t
      /\ present_ (shown r.1 k) = true
  end.
Proof.
  unfold View.setValue, shown. cbn [mbind option_bind StoreHost.kVtable set_string]. unfold StoreHost.tSetString.
  by backend_call (setString_law (backend_ h) k t).
Qed.

(** The store behaves as its meaning, or says that the backend threw and is
    unchanged. *)
Lemma perform_step h op :
  let r := perform store h op in
  match backend_threw (backend_ h) op with
  | Some call => r.2 = faulted op (fault_text call) /\ same_entries entry (backend_ h) (backend_ r.1)
  | None => meaning op h r.1 r.2
  end.
Proof.
  destruct op as [k v|k l|k|k|k|k]; cbn [perform meaning backend_threw faulted].
  - assert (forall t, scalar_text v = Some t -> set_scalar store h k v = View.setValue store h k t) as Hset.
    { intros t. destruct v as [s|z|d|b]; cbn [scalar_text set_scalar]; [by intros [= <-]|by intros [= <-]| |by intros [= <-]].
      unfold View.setValue_double. by intros ->. }
    destruct (scalar_text v) as [t|] eqn:Ht; cbn [mbind option_bind].
    + rewrite (Hset t eq_refl). pose proof (set_text_step h k t) as Hs. cbn zeta in Hs.
      destruct (View.setValue store h k t) as [h' r]. cbn [fst snd] in *.
      destruct (be_setString (backend_ h) k t) as [b' [u|e]]; cbn [snd] in *; destruct Hs as [-> Hs]; done.
    + destruct v as [s|z|d|b]; try done. cbn [set_scalar]. unfold View.setValue_double. cbn [scalar_text] in Ht.
      by rewrite Ht.
  - unfold View.setValue_list, shown. cbn [mbind option_bind StoreHost.kVtable set_string_list].
    unfold StoreHost.tSetStringList. by backend_call (setStringList_law (backend_ h) k l).
  - unfold View.value, shown. cbn [mbind option_bind StoreHost.kVtable get_string]. unfold StoreHost.tGetString.
    backend_call (getString_law (backend_ h) k); [|done]. destruct Hlaw as [Hsame ->].
    by destruct (text_ (entry (backend_ h) k)).
  - unfold View.valueStringList, shown. cbn [mbind option_bind StoreHost.kVtable get_string_list].
    unfold StoreHost.tGetStringList. backend_call (getStringList_law (backend_ h) k); [|done]. destruct Hlaw as [Hsame ->].
    by destruct (list_ (entry (backend_ h) k)).
  - unfold View.contains, shown. cbn [mbind option_bind StoreHost.kVtable Settings.contains].
    unfold StoreHost.tContains. backend_call (contains_law (backend_ h) k); [|done]. by destruct Hlaw as [? ->].
  - unfold View.remove, shown. cbn [mbind option_bind StoreHost.kVtable remove_key].
    unfold StoreHost.tRemove. by backend_call (remove_law (backend_ h) k).
Qed.

(** The operations that may change a key. *)
Definition touches (key : string) (op : Op) : Prop :=
  match op with SetScalar k _ | SetList k _ | Remove k => k = key | _ => False end.

Lemma meaning_untouched key op h h' o : ~ touches key op -> meaning op h h' o -> shown h' key = shown h key.
Proof.
  unfold shown. destruct op as [k v|k l|k|k|k|k]; cbn [touches meaning]; intros Hk Hm.
  - destruct (scalar_text v); destruct Hm as [_ Hm]; [|apply Hm]. destruct Hm as [Hm _]. by apply Hm, not_eq_sym.
  - destruct Hm as (_ & Hm & _). by apply Hm, not_eq_sym.
  - by apply Hm.
  - by apply Hm.
  - by apply Hm.
  - destruct Hm as (_ & Hm & _). by apply Hm, not_eq_sym.
Qed.

Lemma session_untouched key ops h : Forall (fun op => ~ touches key op) ops ->
  shown (session store h ops) key = shown h key.
Proof.
  revert h. induction ops as [|op ops IH]; intros h Hops; [done|]. apply Forall_cons in Hops as [Hop Hops].
  change (session store h (op :: ops)) with (session store (perform store h op).1 ops). rewrite IH by done.
  pose proof (perform_step h op) as Hs. cbn zeta in Hs.
  destruct (backend_threw (backend_ h) op); [destruct Hs as [_ Hs]; apply Hs|by eapply meaning_untouched].
Qed.
End Refinement.

(** The scalars that have a text, and what the text reads as. *)
Definition scalar_ok (v : Scalar) : Prop :=
  match v with
  | SString _ | SBool _ => True
  | SInt z => in_s 64 z
  | SDouble d => in_u 64 d /\ f64_is_finite (f64_of_bits d) = true
  end.

Definition reads_as (v : Scalar) (raw : SettingsValue) : Prop :=
  match v with
  | SString s => forall def, Value.toString raw def = s
  | SInt z => forall def, Value.toInt raw def = z
  | SDouble d => forall def, Value.toDouble raw def = d
  | SBool b => forall def, Value.toBool raw def = b
  end.

Lemma scalar_reads `{!DoubleTextLaws} v : scalar_ok v -> exists t, scalar_text v = Some t /\ reads_as v (Some t).
Proof.
  destruct v as [s|z|d|b]; cbn [scalar_ok scalar_text reads_as].
  - intros _. by exists s.
  - intros Hz. eexists. split; [done|]. intros def. unfold Value.toInt. by rewrite parseNumber_to_string.
  - intros [Hd Hf]. destruct (to_chars_parse d Hd Hf) as (t & Ht & Hp). exists t. split; [done|].
    intros def. unfold Value.toDouble. by rewrite Hp.
  - intros _. eexists. split; [done|]. intros def. by destruct b.
Qed.
End Sessions.

(** C35: A string, a boolean, an integer of 64 bits or a finite double that was
    stored without an error is read back as just that, whatever the plugin does
    with other keys in between; if the backend throws when it is read, the
    plugin gets the text of that.  This holds over every backend that leaves
    other keys than the one it is called for alone, gives for a key the string it
    was last given, and changes nothing when it throws ([SettingsLaws]); strings
    and lists may share their keys or not.  Doubles need formatting and parsing
    that undo each other ([DoubleTextLaws]). *)
Theorem settings_read_back `{DoubleTextLaws} {B} `{SettingsLaws B} (h h1 : SettingsStoreHost B) key v ops :
  scalar_ok v -> set_scalar (Some StoreHost.kVtable) h key v = (h1, okStatus) ->
  Forall (fun op => ~ touches key op) ops ->
  let h2 := session (Some StoreHost.kVtable) h1 ops in
  match be_getString (backend_ h2) key with
  | (_, Threw what) => (View.value (Some StoreHost.kVtable) h2 key).2 = Err (fault_text ("getString", what))
  | (_, Returned _) => exists raw, (View.value (Some StoreHost.kVtable) h2 key).2 = Ok raw /\ reads_as v raw
  end.
Proof.
  intros Hv Hset Hops h2. destruct (scalar_reads v Hv) as (t & Ht & Hreads).
  pose proof (perform_step h (SetScalar key v)) as Hs. cbn zeta in Hs. cbn [perform meaning backend_threw] in Hs.
  rewrite Hset, Ht in Hs. cbn [mbind option_bind fst snd] in Hs.
  destruct (be_setString (backend_ h) key t) as [b' [u|e]]; cbn [snd faulted] in Hs; [|by destruct Hs].
  destruct Hs as (_ & _ & Hs & _).
  pose proof (session_untouched key ops h1 Hops) as Hk. fold h2 in Hk. rewrite <- Hk in Hs.
  pose proof (perform_step h2 (GetValue key)) as Hg. cbn zeta in Hg. cbn [perform meaning backend_threw faulted] in Hg.
  destruct (View.value _ h2 key) as [h3 r]. cbn [fst snd] in *.
  destruct (be_getString (backend_ h2) key) as [b2 [o|e]]; cbn [snd] in Hg; destruct Hg as [Hr _]; injection Hr as ->.
  - rewrite Hs. by eexists.
  - done.
Qed.

(** *** A store in memory, and a text of doubles *)

Module BitsText.
#[export] Instance bits_text : DoubleText := {|
  to_chars d := Some (to_string d);
  parse_double t := parseNumber 65 t
|}.
#[export] Instance bits_text_laws : DoubleTextLaws.
Proof.
  split. intros d Hd _. eexists. split; [reflexivity|]. apply parseNumber_to_string. unfold in_u, in_s in *. lia.
Qed.
End BitsText.
Import BitsText.

Lemma settings_read_back_witness :
  let store := Some (StoreHost.kVtable (B := InMemorySettingsBackend)) in
  let h := mkStoreHost (mkInMemory ∅ ∅) "" [] in
  let h1 := mkStoreHost (mkInMemory {["count" := "-42"]} ∅) "" [] in
  View.setValue_int store h "count" (-42) = (h1, okStatus) /\
  exists raw, (View.value store (session store h1
    [SetList "names" ["a"; "b"]; SetScalar "name" (SString "x"); Remove "name"; GetValue "other"]) "count").2 = Ok raw
  /\ forall def, Value.toInt raw def = -42.
Proof.
  cbn zeta. split; [vm_compute; reflexivity|].
  pose proof (settings_read_back (mkStoreHost (mkInMemory ∅ ∅) "" []) (mkStoreHost (mkInMemory {["count" := "-42"]} ∅) "" [])
    "count" (SInt (-42)) [SetList "names" ["a"; "b"]; SetScalar "name" (SString "x"); Remove "name"; GetValue "other"])
    as Hread.
  apply Hread; clear Hread.
  - cbn. unfold in_s. lia.
  - vm_compute. reflexivity.
  - repeat constructor; cbn; congruence.
Defined.

(** A view of the scratch buffer reads what the next getter puts there: the copy
    the plugin makes at once is what keeps values apart. *)
Example borrowed_until_next_call :
  let table := StoreHost.kVtable (B := InMemorySettingsBackend) in
  let h := mkStoreHost (mkInMemory {["a" := "1"; "b" := "2"]} ∅) "" [] in
  match StoreHost.tGetString h "a" with
  | (h1, Some (Some view), _) => view h1 = "1" /\ view (StoreHost.tGetString h1 "b").1.1 = "2"
  | _ => False
  end.
Proof. split; vm_compute; reflexivity. Qed.
