(* ===== verification/Services.v ===== *)
(** * Services: what the host offers by name

    Models the registry of services, [ServiceRegistryBuilder] of
    [src/pj_plugins/include/pj_plugins/host/service_registry_builder.hpp] and
    [ServiceRegistry] of [src/pj_base/include/pj_base/sdk/service_registry.hpp],
    with the naming rule of [service_traits.hpp]; the colour maps of
    [src/pj_datastore/src/colormap_registry.cpp] and their service
    ([colormap_registry_host.cpp], [ColorMapRegistryView]); the kinds of builtin
    objects ([builtin_object.hpp]); and the policies of
    [object_ingest_policy.hpp]. *)

From Stdlib Require Import Ascii.
From S2P Require Import Prelude Types Host Sdk.

(** ** Names

    [isValidServiceName]: [pj.<x>.v<N>], or [pj.experimental.<x>/draft-<N>]. *)

Definition is_digit (c : ascii) : bool :=
  let n := Z.of_N (N_of_ascii c) in (48 <=? n) && (n <=? 57).
Fixpoint all_digits (s : string) : bool :=
  match s with EmptyString => true | String c r => is_digit c && all_digits r end.
Definition isDigitRun (s : string) : bool := negb (bool_decide (s = "")) && all_digits s.

(** [find(c)] and [rfind(c)]; [substr(n)]. *)
Fixpoint find_char (c : ascii) (s : string) : option nat :=
  match s with
  | EmptyString => None
  | String x r => if decide (x = c) then Some 0%nat else S <$> find_char c r
  end.
Fixpoint rfind_char (c : ascii) (s : string) : option nat :=
  match s with
  | EmptyString => None
  | String x r =>
      match rfind_char c r with
      | Some i => Some (S i)
      | None => if decide (x = c) then Some 0%nat else None
      end
  end.
Definition substr (n : nat) (s : string) : string := String.substring n (String.length s - n) s.

Definition isValidServiceName (name : string) : bool :=
  if negb (String.prefix "pj." name) then false
  else if String.prefix "pj.experimental." name then
    match find_char "/" name with
    | None => false
    | Some slash =>
        let after := substr (slash + 1) name in
        if negb (String.prefix "draft-" after) then false else isDigitRun (substr 6 after)
    end
  else
    match rfind_char "." name with
    | None => false
    | Some last_dot =>
        if decide (last_dot <= 3)%nat then false
        else
          let tail := substr (last_dot + 1) name in
          if decide (String.length tail < 2 \/ String.get 0 tail <> Some "v"%char)%nat then false
          else isDigitRun (substr 1 tail)
    end.

(** ** ServiceRegistryBuilder *)

(** A fat pointer: two addresses, [None] for null. *)
Record PJ_service_t := mkService { sv_ctx : option Z; sv_vtable : option Z }.
#[export] Instance PJ_service_t_eq_dec : EqDecision PJ_service_t.
Proof. solve_decision. Defined.

Record Entry := mkEntry { en_protocol_version : Z; en_service : PJ_service_t }.
Abbreviation ServiceRegistryBuilder := (gmap string Entry).

Definition valid_service (s : PJ_service_t) : bool :=
  bool_decide (is_Some (sv_ctx s) /\ is_Some (sv_vtable s)).

Definition tryRegisterService (name : string) (protocol_version : Z) (service : PJ_service_t)
    (b : ServiceRegistryBuilder) : ServiceRegistryBuilder * Status :=
  if negb (valid_service service) then (b, Err ("registerService: null ctx or vtable for '" +:+ name +:+ "'"))
  else if decide (is_Some (b !! name)) then (b, Err ("registerService: duplicate name '" +:+ name +:+ "'"))
  else (<[name := mkEntry protocol_version service]> b, okStatus).

Definition registerService (name : string) (protocol_version : Z) (service : PJ_service_t)
    (b : ServiceRegistryBuilder) : ServiceRegistryBuilder := (tryRegisterService name protocol_version service b).1.
Definition unregisterService (name : string) (b : ServiceRegistryBuilder) : ServiceRegistryBuilder := delete name b.

(** [makeError], whose texts end at a null character. *)
Definition makeError (code : Z) (message : string) : PJ_error_t :=
  mkError code (Host.setErrorField 32 "registry") (Host.setErrorField 224 (Sdk.c_string message)).

(** The table has one slot: the service, or [false] and an error. *)
Definition dispatchGetService (b : ServiceRegistryBuilder) (name : string) (min_version : Z)
    : option PJ_service_t * option PJ_error_t :=
  match b !! name with
  | None => (None, Some (makeError 1 "unknown service name"))
  | Some e =>
      if decide (en_protocol_version e < min_version) then
        (None, Some (makeError 2 "registered service version is lower than requested minimum"))
      else if negb (valid_service (en_service e)) then
        (None, Some (makeError 4 "registered service has null ctx or vtable"))
      else (Some (en_service e), None)
  end.

(** ** ServiceRegistry *)

(** The [get_service] of the registry a plugin was given, if it was given one. *)
Abbreviation ServiceRegistry := (option (string -> Z -> option PJ_service_t * option PJ_error_t)).

Definition view (b : ServiceRegistryBuilder) : ServiceRegistry := Some (dispatchGetService b).

(** The name and the version a consumer asks for. *)
Record Traits := mkTraits { kName : string; kMinVersion : Z }.

Definition lookup_service (raw : ServiceRegistry) (t : Traits) : option PJ_service_t * option PJ_error_t :=
  match raw with
  | None => (None, Some (makeError 1 "service registry not bound"))
  | Some get_service => get_service (kName t) (kMinVersion t)
  end.

Definition get (raw : ServiceRegistry) (t : Traits) : option PJ_service_t :=
  match lookup_service raw t with
  | (Some svc, _) => if valid_service svc then Some svc else None
  | (None, _) => None
  end.

Definition require (raw : ServiceRegistry) (t : Traits) : Expected PJ_service_t :=
  match lookup_service raw t with
  | (None, err) =>
      let message := Sdk.c_string (er_message (default Sdk.zero_error err)) in
      Err ("service unavailable: " +:+ kName t
           +:+ if decide (message = "") then "" else " (" +:+ message +:+ ")")
  | (Some svc, _) =>
      if valid_service svc then Ok svc else Err ("service returned invalid fat pointer: " +:+ kName t)
  end.

Definition SourceWriteHostService := mkTraits "pj.source_write.v1" 1.
Definition SourceObjectWriteHostService := mkTraits "pj.source_object_write.v1" 1.
Definition ParserWriteHostService := mkTraits "pj.parser_write.v1" 1.
Definition ParserObjectWriteHostService := mkTraits "pj.parser_object_write.v1" 1.
Definition ToolboxObjectReadHostService := mkTraits "pj.toolbox_object_read.v1" 1.
Definition ToolboxHostService := mkTraits "pj.toolbox_write.v1" 1.
Definition ColorMapRegistryService := mkTraits "pj.colormap.v1" 1.
Definition SettingsStoreService := mkTraits "pj.settings.v1" 1.
Definition DataSourceRuntimeHostService := mkTraits "pj.runtime.v1" 1.

(** ** Colour maps *)

(** A callback gets the value and its context; a null result is [None]. *)
Abbreviation ColorMapEvalFn := (Z -> Z -> option string).

Record ColorMapRegistry := mkColorMaps { maps_ : gmap string (ColorMapEvalFn * Z); active_ : string }.

Module ColorMaps.
Definition make : ColorMapRegistry := mkColorMaps ∅ "".
Definition registerMap (name : string) (eval_fn : ColorMapEvalFn) (user_ctx : Z) (r : ColorMapRegistry)
    : ColorMapRegistry := mkColorMaps (<[name := (eval_fn, user_ctx)]> (maps_ r)) name.
Definition unregisterMap (name : string) (r : ColorMapRegistry) : ColorMapRegistry :=
  mkColorMaps (delete name (maps_ r)) (if decide (active_ r = name) then "" else active_ r).
Definition setActive (name : string) (r : ColorMapRegistry) : ColorMapRegistry :=
  if decide (is_Some (maps_ r !! name)) then mkColorMaps (maps_ r) name else r.
Definition evaluate (r : ColorMapRegistry) (value : Z) : string :=
  if decide (active_ r = "") then ""
  else match maps_ r !! active_ r with
       | None => ""
       | Some (eval_fn, user_ctx) => default "" (eval_fn value user_ctx)
       end.
Definition hasActive (r : ColorMapRegistry) : bool :=
  bool_decide (active_ r <> "" /\ is_Some (maps_ r !! active_ r)).

(** The callbacks of the host; the context of the registry is null if it is
    [None]. *)
Definition registryRegisterMap (ctx : option ColorMapRegistry) (name : string) (eval_fn : option ColorMapEvalFn)
    (user_ctx : Z) : option ColorMapRegistry * option unit * option PJ_error_t :=
  match ctx, eval_fn with
  | Some reg, Some f => (Some (registerMap name f user_ctx reg), Some (), None)
  | _, _ => (ctx, None, Some (Host.fillError 2 "colormap" "null registry ctx or eval_fn"))
  end.
Definition registryUnregisterMap (ctx : option ColorMapRegistry) (name : string)
    : option ColorMapRegistry * option unit * option PJ_error_t :=
  match ctx with
  | Some reg => (Some (unregisterMap name reg), Some (), None)
  | None => (ctx, None, Some (Host.fillError 2 "colormap" "null registry ctx"))
  end.

(** [ColorMapRegistryView] over that table; it is not valid without a registry. *)
Definition view_registerMap (ctx : option ColorMapRegistry) (name : string) (eval_fn : option ColorMapEvalFn)
    (user_ctx : Z) : option ColorMapRegistry * Status :=
  match ctx with
  | None => (ctx, Err "colormap registry is not bound")
  | Some _ => let '(ctx, r, err) := registryRegisterMap ctx name eval_fn user_ctx in (ctx, Sdk.checked r err)
  end.
Definition view_unregisterMap (ctx : option ColorMapRegistry) (name : string) : option ColorMapRegistry * Status :=
  match ctx with
  | None => (ctx, Err "colormap registry is not bound")
  | Some _ => let '(ctx, r, err) := registryUnregisterMap ctx name in (ctx, Sdk.checked r err)
  end.
End ColorMaps.

(** ** Builtin objects and ingest policies *)

Inductive BuiltinObjectType :=
| kNone | kImage | kPointCloud | kDepthImage | kImageAnnotations | kFrameTransforms | kOccupancyGrid
| kCompressedPointCloud | kMesh3D | kVideoFrame | kSceneEntities | kAssetVideo | kRobotDescription
| kCameraInfo | kOccupancyGridUpdate | kLog.
#[export] Instance BuiltinObjectType_eq_dec : EqDecision BuiltinObjectType.
Proof. solve_decision. Defined.

Definition object_types : list BuiltinObjectType :=
  [kNone; kImage; kPointCloud; kDepthImage; kImageAnnotations; kFrameTransforms; kOccupancyGrid;
   kCompressedPointCloud; kMesh3D; kVideoFrame; kSceneEntities; kAssetVideo; kRobotDescription;
   kCameraInfo; kOccupancyGridUpdate; kLog].

(** The values of the enumeration: 2 is not used. *)
Definition type_code (t : BuiltinObjectType) : Z :=
  match t with
  | kNone => 0 | kImage => 1 | kPointCloud => 3 | kDepthImage => 4 | kImageAnnotations => 5
  | kFrameTransforms => 6 | kOccupancyGrid => 7 | kCompressedPointCloud => 8 | kMesh3D => 9
  | kVideoFrame => 10 | kSceneEntities => 11 | kAssetVideo => 12 | kRobotDescription => 13
  | kCameraInfo => 14 | kOccupancyGridUpdate => 15 | kLog => 16
  end.

Definition type_name (t : BuiltinObjectType) : string :=
  match t with
  | kNone => "kNone" | kImage => "kImage" | kPointCloud => "kPointCloud" | kDepthImage => "kDepthImage"
  | kImageAnnotations => "kImageAnnotations" | kFrameTransforms => "kFrameTransforms"
  | kOccupancyGrid => "kOccupancyGrid" | kCompressedPointCloud => "kCompressedPointCloud"
  | kMesh3D => "kMesh3D" | kVideoFrame => "kVideoFrame" | kSceneEntities => "kSceneEntities"
  | kAssetVideo => "kAssetVideo" | kRobotDescription => "kRobotDescription" | kCameraInfo => "kCameraInfo"
  | kOccupancyGridUpdate => "kOccupancyGridUpdate" | kLog => "kLog"
  end.

(** The chain of comparisons, in its order. *)
Definition parseBuiltinObjectType (s : string) : option BuiltinObjectType :=
  snd <$> list_find (fun t => s = type_name t) object_types.

Lemma object_types_all t : t ∈ object_types.
Proof. destruct t; unfold object_types; set_solver. Qed.

Lemma parse_type_name t : parseBuiltinObjectType (type_name t) = Some t.
Proof. destruct t; reflexivity. Qed.

#[export] Instance BuiltinObjectType_countable : Countable BuiltinObjectType.
Proof. apply (inj_countable type_name parseBuiltinObjectType), parse_type_name. Defined.

Inductive ObjectIngestPolicy := kPureLazy | kLazyObjectsEagerScalars | kEager.

Record ObjectIngestPolicyResolver := mkResolver {
  default_ : ObjectIngestPolicy;
  by_type_ : gmap BuiltinObjectType ObjectIngestPolicy;
  by_source_ : gmap string ObjectIngestPolicy;
  by_topic_ : gmap string ObjectIngestPolicy
}.

Module Resolver.
Definition make : ObjectIngestPolicyResolver := mkResolver kLazyObjectsEagerScalars ∅ ∅ ∅.
Definition setDefault (p : ObjectIngestPolicy) (r : ObjectIngestPolicyResolver) : ObjectIngestPolicyResolver :=
  mkResolver p (by_type_ r) (by_source_ r) (by_topic_ r).
Definition setForType (t : BuiltinObjectType) (p : ObjectIngestPolicy) (r : ObjectIngestPolicyResolver)
    : ObjectIngestPolicyResolver := mkResolver (default_ r) (<[t := p]> (by_type_ r)) (by_source_ r) (by_topic_ r).
Definition setForDataSource (id : string) (p : ObjectIngestPolicy) (r : ObjectIngestPolicyResolver)
    : ObjectIngestPolicyResolver := mkResolver (default_ r) (by_type_ r) (<[id := p]> (by_source_ r)) (by_topic_ r).
Definition setForTopic (name : string) (p : ObjectIngestPolicy) (r : ObjectIngestPolicyResolver)
    : ObjectIngestPolicyResolver := mkResolver (default_ r) (by_type_ r) (by_source_ r) (<[name := p]> (by_topic_ r)).
Definition resolve (r : ObjectIngestPolicyResolver) (source_id topic_name : string) (object_type : BuiltinObjectType)
    : ObjectIngestPolicy :=
  match by_topic_ r !! topic_name with
  | Some p => p
  | None =>
  match by_source_ r !! source_id with
  | Some p => p
  | None =>
  match by_type_ r !! object_type with
  | Some p => p
  | None => default_ r
  end end end.
End Resolver.

(** ** The registry *)

(** Registrations and removals, in any order. *)
Inductive reachable : ServiceRegistryBuilder -> Prop :=
| reach_empty : reachable ∅
| reach_register name version service b : reachable b -> reachable (registerService name version service b)
| reach_unregister name b : reachable b -> reachable (unregisterService name b).

Lemma tryRegisterService_spec name version service b :
  let r := tryRegisterService name version service b in
  if decide (valid_service service = true /\ b !! name = None)
  then r = (<[name := mkEntry version service]> b, okStatus)
  else r.1 = b /\ has_value r.2 = false.
Proof.
  unfold tryRegisterService. destruct (valid_service service); cbn [negb].
  - destruct (b !! name) as [e|] eqn:Hb.
    + rewrite (decide_True (P := is_Some (Some e))) by done. by rewrite decide_False by (by intros [_ ?]).
    + rewrite (decide_False (P := is_Some None)) by (by intros [? ?]). by rewrite decide_True.
  - by rewrite decide_False by (by intros [? _]).
Qed.

Lemma reachable_valid b name e : reachable b -> b !! name = Some e -> valid_service (en_service e) = true.
Proof.
  intros Hb. revert name e. induction Hb as [|n version service b _ IH|n b _ IH]; intros name e.
  - by rewrite lookup_empty.
  - unfold registerService. pose proof (tryRegisterService_spec n version service b) as Hr. cbn zeta in Hr.
    case_decide as Hd; [|destruct Hr as [-> _]; apply IH].
    rewrite Hr. cbn [fst]. intros [[_ <-]|[_ He]]%lookup_insert_Some; [apply Hd|by apply (IH name)].
  - unfold unregisterService. intros [_ He]%lookup_delete_Some. by apply (IH name).
Qed.

(** A text that fits a buffer and has no null arrives as it is. *)
Lemma makeError_text code : forall message, (String.length message < 224)%nat -> Sdk.c_string message = message ->
  er_message (makeError code message) = message.
Proof.
  intros message Hlen Hc. unfold makeError. cbn [er_message]. rewrite Hc. unfold Host.setErrorField.
  rewrite Nat.min_l by lia. clear Hlen Hc. induction message as [|c r IH]; [done|].
  cbn [String.length String.substring]. by rewrite IH.
Qed.

Lemma service_resolved b t : reachable b ->
  require (view b) t =
  match b !! kName t with
  | None => Err ("service unavailable: " +:+ kName t +:+ " (unknown service name)")
  | Some e =>
      if decide (kMinVersion t <= en_protocol_version e) then Ok (en_service e)
      else Err ("service unavailable: " +:+ kName t
                +:+ " (registered service version is lower than requested minimum)")
  end
  /\ get (view b) t = match require (view b) t with Ok svc => Some svc | Err _ => None end.
Proof.
  intros Hb. unfold require, get, view, lookup_service, dispatchGetService.
  destruct (b !! kName t) as [e|] eqn:He.
  - pose proof (reachable_valid b _ e Hb He) as Hv. rewrite Hv. cbn [negb].
    destruct (decide (en_protocol_version e < kMinVersion t)) as [Hlt|Hge].
    + rewrite (decide_False (P := kMinVersion t <= en_protocol_version e)) by lia. cbn [default]. unfold Datatypes.id.
      by rewrite makeError_text by first [reflexivity|apply Nat.ltb_lt; reflexivity].
    + rewrite (decide_True (P := kMinVersion t <= en_protocol_version e)) by lia. by rewrite Hv.
  - cbn [default]. unfold Datatypes.id. by rewrite makeError_text by first [reflexivity|apply Nat.ltb_lt; reflexivity].
Qed.

(** Whatever was registered and removed, a consumer gets the service that is
    registered under the name if its version is high enough, and is told why
    otherwise; a broken service is never handed out. *)
Theorem service_resolution b t : reachable b ->
  match require (view b) t with
  | Ok svc => valid_service svc = true
      /\ exists version, b !! kName t = Some (mkEntry version svc) /\ kMinVersion t <= version
  | Err _ => forall version svc, b !! kName t = Some (mkEntry version svc) -> version < kMinVersion t
  end.
Proof.
  intros Hb. destruct (service_resolved b t Hb) as [-> _]. destruct (b !! kName t) as [[version svc]|] eqn:He; [|done].
  cbn [en_protocol_version en_service]. case_decide as Hv.
  - split; [by apply (reachable_valid b _ _ Hb) in He|]. by exists version.
  - intros v s [= -> ->]. lia.
Qed.

(** The names of the services obey the rule; and the rule admits empty
    components, which its description excludes. *)
Example service_names_valid : Forall (fun t => isValidServiceName (kName t) = true)
  [SourceWriteHostService; SourceObjectWriteHostService; ParserWriteHostService; ParserObjectWriteHostService;
   ToolboxObjectReadHostService; ToolboxHostService; ColorMapRegistryService; SettingsStoreService;
   DataSourceRuntimeHostService].
Proof. repeat constructor. Qed.
Example empty_components_valid :
  isValidServiceName "pj.a..v1" = true /\ isValidServiceName "pj.experimental./draft-1" = true
  /\ isValidServiceName "pj..v1" = false.
Proof. done. Qed.

(** ** The colour maps *)

Inductive maps_reachable : ColorMapRegistry -> Prop :=
| maps_make : maps_reachable ColorMaps.make
| maps_register name f ctx r : maps_reachable r -> maps_reachable (ColorMaps.registerMap name f ctx r)
| maps_unregister name r : maps_reachable r -> maps_reachable (ColorMaps.unregisterMap name r)
| maps_setActive name r : maps_reachable r -> maps_reachable (ColorMaps.setActive name r).

(** The active map is a registered one, so [evaluate] is empty exactly where
    there is none or its callback has no answer. *)
Theorem active_map_registered r : maps_reachable r ->
  (active_ r = "" \/ is_Some (maps_ r !! active_ r))
  /\ ColorMaps.hasActive r = bool_decide (active_ r <> "")
  /\ forall value, ColorMaps.evaluate r value =
       if ColorMaps.hasActive r
       then default "" ('(f, ctx) ← maps_ r !! active_ r; f value ctx) else "".
Proof.
  intros Hr. assert (active_ r = "" \/ is_Some (maps_ r !! active_ r)) as Hact.
  { induction Hr as [|name f ctx r _ _|name r _ IH|name r _ IH]; [by left| | |].
    - right. cbn. by rewrite lookup_insert_eq.
    - cbn. case_decide as Hn; [by left|]. destruct IH as [?|IH]; [by left|right]. by rewrite lookup_delete_ne.
    - unfold ColorMaps.setActive. case_decide as Hs; [by right|done]. }
  split; [done|]. assert (ColorMaps.hasActive r = bool_decide (active_ r <> "")) as Hh.
  { unfold ColorMaps.hasActive. apply bool_decide_ext. destruct Hact; naive_solver. }
  split; [done|]. intros value. rewrite Hh. unfold ColorMaps.evaluate. destruct (decide (active_ r = "")) as [->|Hne].
  - by rewrite bool_decide_false by (by intros []).
  - rewrite bool_decide_true by done. by destruct (maps_ r !! active_ r) as [[f ctx]|].
Qed.

(** A map whose name is empty is registered and active, but counts as none. *)
Example unnamed_map :
  let r := ColorMaps.registerMap "" (fun _ _ => Some "red") 0 ColorMaps.make in
  ColorMaps.hasActive r = false /\ ColorMaps.evaluate r 0 = "".
Proof. done. Qed.

(** ** Policies *)

(** The most specific level that has an opinion decides. *)
Lemma resolve_levels r source topic type :
  Resolver.resolve r source topic type =
  default (default_ r) (head (option_list (by_topic_ r !! topic) ++ option_list (by_source_ r !! source)
                              ++ option_list (by_type_ r !! type))).
Proof.
  unfold Resolver.resolve. destruct (by_topic_ r !! topic); [done|]. destruct (by_source_ r !! source); [done|].
  by destruct (by_type_ r !! type).
Qed.
