(* ===== verification/PluginCalls.v ===== *)
(** * PluginCalls: what the tables of plugins share

    The trampolines of the four plugin families (the files under
    [src/pj_base/include/pj_base/sdk/detail/],
    [src/pj_plugins/include/pj_plugins/sdk/detail/message_parser_trampolines.hpp]
    and [dialog_plugin_base.hpp]) turn what the C++ code of a plugin does, an
    exception included, into [true] or [false] and an error; the handles of the
    host turn these back into a [Status]. *)

From Stdlib Require Import Ascii.
From S2P Require Import Prelude Types Host Sdk Settings Services.

Definition storeError (code : Z) (message : string) : PJ_error_t := Host.fillError code "plugin" message.

(** The two [catch] clauses, and a status that failed. *)
Definition answer_of (call : string) (r : Call Status) : option unit * option PJ_error_t :=
  match r with
  | Returned (Ok _) => (Some (), None)
  | Returned (Err e) => (None, Some (storeError 1 e))
  | Threw (Some e) => (None, Some (storeError 1 (call +:+ " threw: " +:+ e)))
  | Threw None => (None, Some (storeError 1 ("unknown exception in " +:+ call)))
  end.

(** The same for a call that gives a text, as [save_config] does. *)
Definition text_answer (call : string) (r : Call string) : option string * option PJ_error_t :=
  match r with
  | Returned text => (Some text, None)
  | Threw (Some e) => (None, Some (storeError 1 (call +:+ " threw: " +:+ e)))
  | Threw None => (None, Some (storeError 1 ("unknown exception in " +:+ call)))
  end.

(** The dialog a plugin lends to its host: two pointers, null without a dialog. *)
Record PJ_borrowed_dialog_t := mkBorrowed { bd_ctx : option Z; bd_vtable : option Z }.
Definition no_dialog : PJ_borrowed_dialog_t := mkBorrowed None None.

(** *** The manifest of [vtableWithCreate] *)

(** [std::strstr] *)
Fixpoint strstr (text key : string) : bool :=
  String.prefix key text || match text with EmptyString => false | String _ rest => strstr rest key end.
Definition quoted (key : string) : string :=
  String (ascii_of_nat 34) (key +:+ String (ascii_of_nat 34) EmptyString).
(** The assertions; [None] is a null pointer. *)
Definition manifest_asserted (manifest : option string) : bool :=
  match manifest with
  | None => false
  | Some text =>
      String.prefix "{" text && strstr text (quoted "id") && strstr text (quoted "name")
      && strstr text (quoted "version")
  end.

(** ** Lemmas *)

(** The text of an error, as the host gets it from the buffers of the plugin. *)
Definition plugin_error (message : string) : string := Sdk.errorToString (storeError 1 message).

Definition message_of (call : string) (r : Call Status) : option string :=
  match r with
  | Returned (Ok _) => None
  | Returned (Err e) => Some e
  | Threw (Some e) => Some (call +:+ " threw: " +:+ e)
  | Threw None => Some ("unknown exception in " +:+ call)
  end.

Lemma checked_answer call r :
  Sdk.checked (answer_of call r).1 (answer_of call r).2
  = match message_of call r with None => okStatus | Some m => Err (plugin_error m) end.
Proof. by destruct r as [[[]|e]|[e|]]. Qed.
