(* ===== verification/ParserBase.v ===== *)
(** * ParserBase: message parsers

    Models [MessageParserPluginBase] of
    [src/pj_plugins/include/pj_plugins/sdk/message_parser_plugin_base.hpp], its
    trampolines ([message_parser_trampolines.hpp]) and the handle the host calls
    them through ([message_parser_handle.hpp]).  The handlers of the schemas are
    the code of a plugin: functions that may throw.  The theorem follows a
    message from the host through the parser into the datastore. *)

From S2P Require Import Prelude Types TypeTree TypeRegistry Float64 Json Buffer Encoding Column Chunk Query TopicStorage Engine Writer Ingest Layout WriterState Records ObjectStore Holders Host HostState HostLog HostRun HostDemo ObjectHost Sdk SdkRecords Settings Services PluginDso PluginCalls.

(** ** Data *)

Record ScalarRecord := mkScalarRecord { sr_ts : option Z; sr_fields : list NamedFieldValue }.

(** [O] is what a [BuiltinObject] may hold; an anchor is what keeps the bytes
    alive, by its number. *)
Record ObjectRecord (O : Type) := mkObjectRecord { or_ts : option Z; or_object : O }.
Record PayloadView := mkPayload { pv_bytes : bytes; pv_anchor : option Z }.

(** A null [std::function] is [None]. *)
Record SchemaHandler (O : Type) := mkHandler {
  object_type : BuiltinObjectType;
  parse_scalars : option (Z -> bytes -> Call (Expected ScalarRecord));
  parse_object : option (Z -> PayloadView -> Call (Expected (ObjectRecord O)))
}.
Arguments mkHandler {O}. Arguments object_type {O}. Arguments parse_scalars {O}. Arguments parse_object {O}.

(** The views are the services they were made of. *)
Record MessageParser (O : Type) := mkParser {
  bound_type_name_ : string;
  service_registry_ : ServiceRegistry;
  write_host_view_ : option PJ_service_t;
  object_write_host_view_ : option PJ_service_t;
  config_buf_ : string;
  handlers_ : gmap string (SchemaHandler O)
}.
Arguments mkParser {O}. Arguments bound_type_name_ {O}. Arguments service_registry_ {O}.
Arguments write_host_view_ {O}. Arguments object_write_host_view_ {O}. Arguments config_buf_ {O}. Arguments handlers_ {O}.

(** ** MessageParserPluginBase *)

Module Parser.
Section Parser.
Context {O : Type}.
Implicit Types (p : MessageParser O).

Definition make : MessageParser O := mkParser "" None None None "" ∅.

Definition bind p (services : ServiceRegistry) : MessageParser O * Status :=
  match require services ParserWriteHostService with
  | Err e => (p, Err e)
  | Ok write =>
      let object_write :=
        match get services ParserObjectWriteHostService with
        | Some obj => Some obj
        | None => object_write_host_view_ p
        end in
      (mkParser (bound_type_name_ p) services (Some write) object_write (config_buf_ p) (handlers_ p), okStatus)
  end.

Definition bindSchema p (type_name : string) : MessageParser O * Status :=
  (mkParser type_name (service_registry_ p) (write_host_view_ p) (object_write_host_view_ p) (config_buf_ p)
    (handlers_ p), okStatus).

Definition saveConfig p : string := "{}".
Definition loadConfig p (config_json : string) : MessageParser O * Status := (p, okStatus).

Definition pluginExtension p (id : string) : option Z := None.
Definition services p : ServiceRegistry := service_registry_ p.

Definition registerSchemaHandler p (type_name : string) (handler : SchemaHandler O) : MessageParser O :=
  mkParser (bound_type_name_ p) (service_registry_ p) (write_host_view_ p) (object_write_host_view_ p)
    (config_buf_ p) (<[type_name := handler]> (handlers_ p)).
Definition findSchemaHandler p (type_name : string) : option (SchemaHandler O) := handlers_ p !! type_name.

Definition classifySchema p (type_name : string) : BuiltinObjectType :=
  match findSchemaHandler p type_name with Some h => object_type h | None => kNone end.

Definition parseScalars p (timestamp_ns : Z) (payload : bytes) : Call (Expected ScalarRecord) :=
  match findSchemaHandler p (bound_type_name_ p) with
  | None => Returned (Err ("parser does not register schema: " +:+ bound_type_name_ p))
  | Some h =>
      match parse_scalars h with
      | None => Returned (Err ("registered handler has no parse_scalars: " +:+ bound_type_name_ p))
      | Some f => f timestamp_ns payload
      end
  end.

Definition parseObject p (timestamp_ns : Z) (payload : PayloadView) : Call (Expected (ObjectRecord O)) :=
  match findSchemaHandler p (bound_type_name_ p) with
  | None => Returned (Err ("parser does not register schema: " +:+ bound_type_name_ p))
  | Some h =>
      match parse_object h with
      | None => Returned (Err ("registered handler has no parse_object: " +:+ bound_type_name_ p))
      | Some f => f timestamp_ns payload
      end
  end.

Definition writeHostBound p : bool := bool_decide (is_Some (write_host_view_ p)).
Definition objectWriteHost p : option PJ_service_t := object_write_host_view_ p.

Section Hosts.
(** The write host, in the state [W], and the table at an address. *)
Context {W : Type} (table_at : Z -> PJ_parser_write_host_vtable_t W).

Definition writeHost p : option (PJ_parser_write_host_vtable_t W) :=
  svc ← write_host_view_ p; vtable ← sv_vtable svc; Some (table_at vtable).

Definition parse p (w : W) (timestamp_ns : Z) (payload : bytes) : option (W * Call Status) :=
  if negb (writeHostBound p) then Some (w, Returned (Err "write host not bound")) else
  match parseScalars p timestamp_ns payload with
  | Threw e => Some (w, Threw e)
  | Returned (Err e) => Some (w, Returned (Err e))
  | Returned (Ok record) =>
      if decide (sr_fields record = []) then Some (w, Returned okStatus) else
      let ts := default timestamp_ns (sr_ts record) in
      '(w, status) ← ParserWriteHostView.appendRecord (writeHost p) w ts (sr_fields record);
      Some (w, Returned status)
  end.

(** *** The trampolines and the handle *)

Definition trampoline_bind p (registry : ServiceRegistry) : MessageParser O * option unit * option PJ_error_t :=
  let '(p, status) := bind p registry in (p, (answer_of "bind" (Returned status)).1, (answer_of "bind" (Returned status)).2).
Definition trampoline_bind_schema p (type_name : string) : MessageParser O * option unit * option PJ_error_t :=
  let '(p, status) := bindSchema p type_name in
  (p, (answer_of "bind_schema" (Returned status)).1, (answer_of "bind_schema" (Returned status)).2).
Definition trampoline_parse p (w : W) (timestamp_ns : Z) (payload : bytes)
    : option (W * option unit * option PJ_error_t) :=
  '(w, r) ← parse p w timestamp_ns payload; Some (w, (answer_of "parse" r).1, (answer_of "parse" r).2).
Definition trampoline_classify_schema p (type_name : string) : Z := type_code (classifySchema p type_name).
(** The caller gets a view of [config_buf_]. *)
Definition trampoline_save_config p : MessageParser O * string :=
  let p := mkParser (bound_type_name_ p) (service_registry_ p) (write_host_view_ p) (object_write_host_view_ p)
    (saveConfig p) (handlers_ p) in
  (p, config_buf_ p).

Definition trampoline_load_config p (config_json : string) : MessageParser O * option unit * option PJ_error_t :=
  let '(p, status) := loadConfig p config_json in
  (p, (answer_of "load_config" (Returned status)).1, (answer_of "load_config" (Returned status)).2).
Definition trampoline_get_plugin_extension p (id : string) : option Z := pluginExtension p id.

(** Every slot of the table is set; [None] is a violated assertion. *)
Definition vtableWithCreate (created : bool) (manifest : option string) : option Vtable :=
  if manifest_asserted manifest && match manifest with Some text => strstr text (quoted "encoding") | None => false end
  then Some (mkVtable PJ_MESSAGE_PARSER_PROTOCOL_VERSION (8 + 10 * 8)
    (list_to_set ("classify_schema" :: filter (fun s => s <> "manifest_json") message_parser_slots)) manifest created
    (fun _ => 0) None)
  else None.

(** [MessageParserHandle] *)
Definition handle_bind p (registry : ServiceRegistry) : MessageParser O * Status :=
  let '(p, r, err) := trampoline_bind p registry in (p, Sdk.checked r err).
Definition handle_bindSchema p (type_name : string) : MessageParser O * Status :=
  let '(p, r, err) := trampoline_bind_schema p type_name in (p, Sdk.checked r err).
Definition handle_parse p (w : W) (timestamp_ns : Z) (payload : bytes) : option (W * Status) :=
  '(w, r, err) ← trampoline_parse p w timestamp_ns payload; Some (w, Sdk.checked r err).
Definition handle_saveConfig p : MessageParser O * Expected string :=
  let '(p, text) := trampoline_save_config p in (p, Ok text).
Definition handle_loadConfig p (config_json : string) : MessageParser O * Status :=
  let '(p, r, err) := trampoline_load_config p config_json in (p, Sdk.checked r err).
Definition handle_getPluginExtension p (id : string) : option Z := trampoline_get_plugin_extension p id.
(** [static_cast<BuiltinObjectType>]; [None] is a number without a name. *)
Definition handle_classifySchema p (type_name : string) : option BuiltinObjectType :=
  snd <$> list_find (fun t => type_code t = trampoline_classify_schema p type_name) object_types.
End Hosts.
End Parser.
End Parser.

(** ** Lemmas *)

Section Facts.
Context {O : Type}.
Implicit Types (p : MessageParser O).

Lemma type_code_inj t t' : type_code t = type_code t' -> t = t'.
Proof. destruct t, t'; done. Qed.

Lemma find_type_code t : snd <$> list_find (fun t' => type_code t' = type_code t) object_types = Some t.
Proof. destruct t; reflexivity. Qed.

(** The classification arrives at the host as the plugin made it. *)
Lemma handle_classify p type_name : Parser.handle_classifySchema p type_name = Some (Parser.classifySchema p type_name).
Proof. apply find_type_code. Qed.

Lemma handle_parse_spec {W} (table_at : Z -> PJ_parser_write_host_vtable_t W) p w t payload :
  Parser.handle_parse table_at p w t payload
  = '(w, r) ← Parser.parse table_at p w t payload;
    Some (w, match message_of "parse" r with None => okStatus | Some m => Err (plugin_error m) end).
Proof.
  unfold Parser.handle_parse, Parser.trampoline_parse.
  destruct (Parser.parse table_at p w t payload) as [[w' r]|]; [|done]. cbn [mbind option_bind].
  by rewrite checked_answer.
Qed.

Lemma handle_bind_spec p registry :
  Parser.handle_bind p registry =
  match Parser.bind p registry with
  | (p', Ok _) => (p', okStatus)
  | (p', Err e) => (p', Err (plugin_error e))
  end.
Proof. unfold Parser.handle_bind, Parser.trampoline_bind. by destruct (Parser.bind p registry) as [p' [[]|e]]. Qed.

(** What the host asks of a parser before messages come: the services, the
    schema; the plugin has registered its handlers before. *)
Definition prepared p (b : ServiceRegistryBuilder) (type_name : string) : MessageParser O :=
  (Parser.handle_bindSchema (Parser.handle_bind p (view b)).1 type_name).1.

Lemma prepared_spec p b type_name svc :
  require (view b) ParserWriteHostService = Ok svc ->
  (Parser.handle_bind p (view b)).2 = okStatus
  /\ write_host_view_ (prepared p b type_name) = Some svc
  /\ bound_type_name_ (prepared p b type_name) = type_name
  /\ handlers_ (prepared p b type_name) = handlers_ p.
Proof.
  intros Hsvc. unfold prepared. rewrite handle_bind_spec. unfold Parser.bind. rewrite Hsvc. done.
Qed.
End Facts.

(** The table that the export macro makes passes every check of the host. *)
Lemma exported_parser_loads created manifest vt abi source toolbox dialog :
  Parser.vtableWithCreate created manifest = Some vt ->
  resolve_message_parser (mkDso abi source (Ok (Some vt)) toolbox dialog) = Ok vt.
Proof.
  unfold Parser.vtableWithCreate. destruct manifest as [text|]; [|done].
  destruct (manifest_asserted (Some text) && _); [|done]. intros Hvt. apply (inj Some) in Hvt. by subst vt.
Qed.

(** ** From a message to the store *)

(** C19: A message a host gives a parser that is bound to the topic of the host and has a handler of
    scalars for its schema, which returns fields, at a time that is not before the last record of the
    topic and within the 32 bits of rows, bytes and columns: the fields
    become one record of the topic, at the time of the handler, or of the message if it gave none,
    and the host gets [Ok], exactly if their names are distinct and they agree with the columns; no
    fields are [Ok] and no record.  Otherwise no log changes, though columns may have been added, and
    the host gets its own error back.  The cells of a record read as in [cell_reads]. *)
Theorem message_stored {O} iter (Hiter : forall A (m : gmap Z A), iter A m ≡ₚ map_to_list m)
    (p : MessageParser O) b type_name svc addr table_at handler f (w : Host.ParserWriteHost) logs st t payload record :
  require (view b) ParserWriteHostService = Ok svc -> sv_vtable svc = Some addr ->
  table_at addr = kParserWriteVTable ->
  handlers_ p !! type_name = Some handler -> parse_scalars handler = Some f ->
  f t payload = Returned (Ok record) ->
  let id := Host.ph_topic w in
  let time := default t (sr_ts record) in
  host_ok (Host.ph_core w) logs -> topics (Host.engine_ (Host.ph_core w)) !! id = Some st ->
  Z.of_nat (length (layout (Host.engine_ (Host.ph_core w)) st) + length (sr_fields record)) < 2 ^ 32 ->
  Forall (fun f => ref_ok (nv_value f)) (sr_fields record) ->
  last_time (map fst (logs id)) <= time -> in_s 64 time ->
  log_fits (logs id ++ [(time, record_of_fields (sr_fields record))]) ->
  exists w' r, Parser.handle_parse table_at (prepared p b type_name) w t payload = Some (w', r)
  /\ (has_value r = true <-> NoDup (map nv_name (sr_fields record))
       /\ Forall (field_accepted (Host.ph_core w) id) (sr_fields record))
  /\ match r with Ok _ => True | Err text => text = plugin_error (reported (Host.ph_core w')) end
  /\ exists c', Host.flushPending iter (Host.ph_core w') = Some c'
     /\ engine_logs (Host.engine_ c')
          (if has_value r && negb (bool_decide (sr_fields record = []))
           then append_log logs id (time, record_of_fields (sr_fields record)) else logs).
Proof.
  intros Hsvc Hvt Htable Hhandler Hf Hrec id time Hok Hst Hlen Hrefs Hlast Htime Hfit.
  destruct (prepared_spec p b type_name svc Hsvc) as (_ & Hw & Hbound & Hhs).
  rewrite handle_parse_spec. unfold Parser.parse, Parser.writeHostBound, Parser.writeHost. rewrite Hw.
  cbn [mbind option_bind]. rewrite bool_decide_true by done. cbn [negb].
  unfold Parser.parseScalars, Parser.findSchemaHandler. rewrite Hbound, Hhs, Hhandler, Hf, Hrec, Hvt.
  cbn [mbind option_bind]. rewrite Htable. case_decide as Hempty.
  - exists w, okStatus. split; [done|]. rewrite Hempty. cbn [map]. split.
    { split; [|done]. intros _. split; [apply NoDup_nil_2|constructor]. }
    split; [done|]. rewrite bool_decide_true by done. cbn [has_value negb andb].
    destruct (flushPending_host iter Hiter (Host.ph_core w) logs Hok) as (c' & H1 & _ & H2 & _). by exists c'.
  - destruct (@record_stored _ parser_writer iter Hiter w logs id st time (sr_fields record))
      as (w' & r & Ha & Hacc & Herr & _ & c' & Hc & Hlogs); [done..|].
    cbn [rw_append rw_core parser_writer] in *. fold time. cbv zeta. rewrite Ha. cbn [mbind option_bind]. rewrite bool_decide_false by done.
    cbn [negb]. destruct r as [[]|text]; cbn [message_of has_value andb] in *.
    + exists w', okStatus. split; [done|]. split; [exact Hacc|]. split; [done|]. by exists c'.
    + destruct Herr as [-> _]. eexists w', _. split; [done|]. split; [exact Hacc|]. split; [done|]. by exists c'.
Qed.

(** A parser that cannot give fields leaves the host alone and says why: no
    write host, no handler of the schema, none for scalars, a message the
    handler refuses, or an exception. *)
Theorem message_refused {O W} (table_at : Z -> PJ_parser_write_host_vtable_t W) (p : MessageParser O) w t payload :
  match Parser.parseScalars p t payload with
  | Returned (Ok _) => True
  | Returned (Err e) =>
      Parser.handle_parse table_at p w t payload
      = Some (w, Err (plugin_error (if Parser.writeHostBound p then e else "write host not bound")))
  | Threw what =>
      Parser.handle_parse table_at p w t payload
      = Some (w, Err (plugin_error
          (if Parser.writeHostBound p
           then match what with Some e => "parse threw: " +:+ e | None => "unknown exception in parse" end
           else "write host not bound")))
  end.
Proof.
  rewrite !handle_parse_spec. unfold Parser.parse. destruct (Parser.parseScalars p t payload) as [[r|e]|[e|]] eqn:Hr;
    [done|destruct (Parser.writeHostBound p); done..].
Qed.

(** *** A parser of one schema *)

Definition joint_handler : SchemaHandler unit :=
  mkHandler kNone (Some (fun t _ => Returned (Ok (mkScalarRecord (Some (t + 5)) arm_values)))) None.
Definition joint_parser : MessageParser unit :=
  Parser.registerSchemaHandler Parser.make "sensor_msgs/JointState" joint_handler.
Definition parser_services : ServiceRegistryBuilder :=
  registerService "pj.parser_write.v1" 1 (mkService (Some 100) (Some 200)) ∅.

Lemma message_stored_witness : exists w' r,
  Parser.handle_parse (fun _ => kParserWriteVTable)
    (prepared joint_parser parser_services "sensor_msgs/JointState") (Host.mkParserHost arm_topic 1) 10 []
    = Some (w', r)
  /\ (has_value r = true <-> NoDup (map nv_name arm_values) /\ Forall (field_accepted arm_topic 1) arm_values)
  /\ match r with Ok _ => True | Err text => text = plugin_error (reported (Host.ph_core w')) end
  /\ exists c', Host.flushPending listing (Host.ph_core w') = Some c'
     /\ engine_logs (Host.engine_ c')
          (if has_value r && negb (bool_decide (arm_values = []))
           then append_log no_logs 1 (15, record_of_fields arm_values) else no_logs).
Proof.
  pose proof (session_ok listing listing_permutation _ _ arm_topic_session) as Hok.
  destruct (topics (Host.engine_ arm_topic) !! 1) as [st|] eqn:Es; [|by vm_compute in Es].
  apply (message_stored listing listing_permutation joint_parser parser_services "sensor_msgs/JointState"
    (mkService (Some 100) (Some 200)) 200 (fun _ => kParserWriteVTable) joint_handler
    (fun t _ => Returned (Ok (mkScalarRecord (Some (t + 5)) arm_values))) (Host.mkParserHost arm_topic 1) no_logs st
    10 [] (mkScalarRecord (Some 15) arm_values)).
  - vm_compute. reflexivity.
  - reflexivity.
  - reflexivity.
  - vm_compute. reflexivity.
  - reflexivity.
  - reflexivity.
  - exact Hok.
  - exact Es.
  - vm_compute in Es. by injection Es as <-.
  - repeat constructor; by vm_compute.
  - by vm_compute.
  - by vm_compute.
  - by apply small_log; vm_compute.
Defined.
