(* ===== verification/DataSource.v ===== *)
(** * DataSource: plugins that bring data in

    Models the data sources of plugins, from the handle of the host
    ([src/pj_plugins/include/pj_plugins/host/data_source_handle.hpp]) through the
    trampolines ([data_source_trampolines.hpp]) and the base class
    ([data_source_plugin_base.hpp]) to the two patterns with their life cycles
    ([data_source_patterns.hpp]), and the view of the host a source works with
    ([data_source_host_views.hpp], [data_source_protocol.h]).

    The host keeps a state [W]; its table is a parameter, since the application
    implements it.  What a plugin overrides is a class. *)

From S2P Require Import Prelude Types Host Sdk Settings Services PluginDso PluginCalls.

(** ** Constants *)

Inductive DataSourceState :=
| kIdle | kConfiguring | kStarting | kRunning | kPaused | kStopping | kStopped | kFailed.
#[export] Instance DataSourceState_eq_dec : EqDecision DataSourceState.
Proof. solve_decision. Defined.

Definition state_code (s : DataSourceState) : Z :=
  match s with
  | kIdle => 0 | kConfiguring => 1 | kStarting => 2 | kRunning => 3 | kPaused => 4 | kStopping => 5
  | kStopped => 6 | kFailed => 7
  end.
(** [static_cast<DataSourceState>]; [None] is a number without a name. *)
Definition state_of_code (c : Z) : option DataSourceState :=
  snd <$> list_find (fun s => state_code s = c)
    [kIdle; kConfiguring; kStarting; kRunning; kPaused; kStopping; kStopped; kFailed].

Definition PJ_MSG_BTN_OK : Z := 1.
Definition PJ_MSG_BTN_CANCEL : Z := 2.
Definition PJ_MSG_BTN_YES : Z := 4.
Definition PJ_MSG_BTN_NO : Z := 8.
Definition PJ_MSG_BTN_CONTINUE : Z := 16.
Definition PJ_MSG_BTN_ABORT : Z := 32.
Definition PJ_MESSAGE_BOX_INFO : Z := 0.
Definition PJ_MESSAGE_BOX_WARNING : Z := 1.
Definition PJ_MESSAGE_BOX_ERROR : Z := 2.
Definition PJ_MESSAGE_BOX_QUESTION : Z := 3.

Definition kCapabilityFiniteImport : Z := 1.
Definition kCapabilityContinuousStream : Z := 2.

(** ** The table of the host *)

Record ParserBindingRequest := mkBindingRequest {
  rq_topic_name : string;
  rq_parser_encoding : string;
  rq_type_name : string;
  rq_schema : bytes;
  rq_parser_config_json : string
}.

(** What the closure of a source gives: bytes and their anchor, or a vector. *)
Inductive FetchMessageDataResult :=
| FetchedView (bytes_ : bytes) (anchor : option Z)
| FetchedVector (v : bytes).
(** What the box an anchor points to holds. *)
Inductive Held := HeldAnchor (anchor : option Z) | HeldVector (v : bytes).
Record PJ_payload_t := mkAbiPayload { pl_data : bytes; pl_anchor : Held }.
(** A fetcher runs the closure of the source, in the state of the world then. *)
Record PJ_message_data_fetcher_t (W : Type) := mkFetcher {
  fetchMessageData : W -> option PJ_payload_t * option PJ_error_t
}.
Arguments mkFetcher {W}. Arguments fetchMessageData {W}.

(** A null slot is [None]; [push_message_v2] is a slot of the tail, and [None]
    is also a table too short for it. *)
Record PJ_data_source_runtime_host_vtable_t (W : Type) := mkRuntimeTable {
  report_message : option (W -> Z -> string -> W);
  progress_start : option (W -> string -> Z -> bool -> W * option unit * option PJ_error_t);
  progress_update : option (W -> Z -> W * bool);
  progress_finish : option (W -> W);
  is_stop_requested : option (W -> W * bool);
  notify_state : option (W -> Z -> W);
  request_stop : option (W -> Z -> string -> W);
  ensure_parser_binding : option (W -> ParserBindingRequest -> W * option Z * option PJ_error_t);
  push_raw_message : option (W -> Z -> Z -> bytes -> W * option unit * option PJ_error_t);
  show_message_box : option (W -> Z -> string -> string -> Z -> W * Z);
  list_available_encodings : option (W -> W * option string);
  push_message_v2 : option (W -> Z -> Z -> PJ_message_data_fetcher_t W -> W * option unit * option PJ_error_t)
}.
Arguments mkRuntimeTable {W}. Arguments report_message {W}. Arguments progress_start {W}.
Arguments progress_update {W}. Arguments progress_finish {W}. Arguments is_stop_requested {W}.
Arguments notify_state {W}. Arguments request_stop {W}. Arguments ensure_parser_binding {W}.
Arguments push_raw_message {W}. Arguments show_message_box {W}. Arguments list_available_encodings {W}.
Arguments push_message_v2 {W}.

(** ** DataSourceRuntimeHostView *)

(** A view without context or table is [None]. *)
Module RuntimeHost.
Section View.
Context {W : Type}.
Implicit Types (host : option (PJ_data_source_runtime_host_vtable_t W)) (w : W).

(** [valid() && vtable->slot != nullptr] *)
Definition slot {S} host (get : PJ_data_source_runtime_host_vtable_t W -> option S) : option S := host ≫= get.

Definition unbound {A} : Expected A := Err "runtime host is not bound".

Definition reportMessage host (level : Z) (message : string) w : W :=
  match slot host report_message with Some f => f w level message | None => w end.

Definition progressStart host (label : string) (total_steps : Z) (cancellable : bool) w : W * Status :=
  match slot host progress_start with
  | None => (w, unbound)
  | Some f => let '(w, r, err) := f w label total_steps cancellable in (w, Sdk.checked r err)
  end.
Definition progressUpdate host (current_step : Z) w : W * bool :=
  match slot host progress_update with None => (w, false) | Some f => f w current_step end.
Definition progressFinish host w : W :=
  match slot host progress_finish with None => w | Some f => f w end.
Definition isStopRequested host w : W * bool :=
  match slot host is_stop_requested with None => (w, false) | Some f => f w end.
Definition notifyState host (state : DataSourceState) w : W :=
  match slot host notify_state with None => w | Some f => f w (state_code state) end.
Definition requestStop host (terminal_state : DataSourceState) (reason : string) w : W :=
  match slot host request_stop with None => w | Some f => f w (state_code terminal_state) reason end.

Definition ensureParserBinding host (request : ParserBindingRequest) w : W * Expected Z :=
  match slot host ensure_parser_binding with
  | None => (w, unbound)
  | Some f => let '(w, r, err) := f w request in (w, Sdk.checked r err)
  end.
Definition pushRawMessage host (handle host_timestamp_ns : Z) (payload : bytes) w : W * Status :=
  match slot host push_raw_message with
  | None => (w, unbound)
  | Some f => let '(w, r, err) := f w handle host_timestamp_ns payload in (w, Sdk.checked r err)
  end.

(** The closure as a fetcher: what it gives is kept in a box of its own, and an
    exception becomes an error. *)
Definition abi_payload (r : FetchMessageDataResult) : PJ_payload_t :=
  match r with
  | FetchedView b anchor => mkAbiPayload b (HeldAnchor anchor)
  | FetchedVector v => mkAbiPayload v (HeldVector v)
  end.
Definition abi_fetch_message_data (fetch : W -> Call FetchMessageDataResult) : PJ_message_data_fetcher_t W :=
  mkFetcher (fun w =>
    match fetch w with
    | Returned r => (Some (abi_payload r), None)
    | Threw (Some e) => (None, Some (storeError 1 e))
    | Threw None => (None, Some (storeError 1 "unknown exception in FetchMessageData callable"))
    end).
Definition pushMessage host (handle host_timestamp_ns : Z) (fetch : W -> Call FetchMessageDataResult) w : W * Status :=
  match host with
  | None => (w, unbound)
  | Some table =>
      match push_message_v2 table with
      | None => (w, Err "runtime host does not expose push_message_v2")
      | Some f =>
          let '(w, r, err) := f w handle host_timestamp_ns (abi_fetch_message_data fetch) in
          (w, Sdk.checked r err)
      end
  end.

(** The button is a number: the host may answer one without a name. *)
Definition showMessageBox host (type : Z) (title message : string) (buttons : Z) w : W * Z :=
  match slot host show_message_box with
  | None =>
      (w, if decide (Z.land buttons PJ_MSG_BTN_CONTINUE <> 0) then PJ_MSG_BTN_CONTINUE
          else if decide (Z.land buttons PJ_MSG_BTN_YES <> 0) then PJ_MSG_BTN_YES
          else PJ_MSG_BTN_OK)
  | Some f => f w type title message (if decide (buttons = 0) then PJ_MSG_BTN_OK else buttons)
  end.
Definition showInfo host (title message : string) w : W :=
  (showMessageBox host PJ_MESSAGE_BOX_INFO title message PJ_MSG_BTN_OK w).1.
Definition showWarning host (title message : string) w : W :=
  (showMessageBox host PJ_MESSAGE_BOX_WARNING title message PJ_MSG_BTN_OK w).1.
Definition showError host (title message : string) w : W :=
  (showMessageBox host PJ_MESSAGE_BOX_ERROR title message PJ_MSG_BTN_OK w).1.
Definition askContinue host (title message : string) w : W * bool :=
  let '(w, result) := showMessageBox host PJ_MESSAGE_BOX_QUESTION title message
                        (Z.lor PJ_MSG_BTN_CONTINUE PJ_MSG_BTN_ABORT) w in
  (w, bool_decide (result = PJ_MSG_BTN_CONTINUE)).
Definition askYesNo host (title message : string) w : W * bool :=
  let '(w, result) := showMessageBox host PJ_MESSAGE_BOX_QUESTION title message
                        (Z.lor PJ_MSG_BTN_YES PJ_MSG_BTN_NO) w in
  (w, bool_decide (result = PJ_MSG_BTN_YES)).

(** A null result and one that ends at its first character are both empty. *)
Definition listAvailableEncodings host w : W * string :=
  match slot host list_available_encodings with
  | None => (w, "")
  | Some f => let '(w, r) := f w in (w, Sdk.c_string (default "" r))
  end.
End View.
End RuntimeHost.

(** ** DataSourcePluginBase *)

(** The views are the services they were made of. *)
Record DataSourcePluginBase := mkBase {
  service_registry_ : ServiceRegistry;
  write_host_view_ : option PJ_service_t;
  object_write_host_view_ : option PJ_service_t;
  runtime_host_view_ : option PJ_service_t;
  config_buf_ : string
}.

Module Base.
Definition make : DataSourcePluginBase := mkBase None None None None "".

Definition bind (b : DataSourcePluginBase) (services : ServiceRegistry) : DataSourcePluginBase * Status :=
  match require services SourceWriteHostService with
  | Err e => (b, Err e)
  | Ok write =>
      let b := mkBase (service_registry_ b) (Some write) (object_write_host_view_ b) (runtime_host_view_ b)
                 (config_buf_ b) in
      match require services DataSourceRuntimeHostService with
      | Err e => (b, Err e)
      | Ok runtime =>
          let object_write :=
            match get services SourceObjectWriteHostService with
            | Some obj => Some obj
            | None => object_write_host_view_ b
            end in
          (mkBase services (write_host_view_ b) object_write (Some runtime) (config_buf_ b), okStatus)
      end
  end.

Definition with_config_buf (b : DataSourcePluginBase) (text : string) : DataSourcePluginBase :=
  mkBase (service_registry_ b) (write_host_view_ b) (object_write_host_view_ b) (runtime_host_view_ b) text.

Definition services (b : DataSourcePluginBase) : ServiceRegistry := service_registry_ b.
Definition writeHost (b : DataSourcePluginBase) : option PJ_service_t := write_host_view_ b.
Definition objectWriteHost (b : DataSourcePluginBase) : option PJ_service_t := object_write_host_view_ b.
Definition writeHostBound (b : DataSourcePluginBase) : bool := bool_decide (is_Some (write_host_view_ b)).
Definition runtimeHostBound (b : DataSourcePluginBase) : bool := bool_decide (is_Some (runtime_host_view_ b)).
End Base.

(** The table of the runtime host at an address. *)
Class RuntimeTables (W : Type) := runtime_table_at : Z -> PJ_data_source_runtime_host_vtable_t W.

Definition runtimeHost `{RuntimeTables W} (b : DataSourcePluginBase) : option (PJ_data_source_runtime_host_vtable_t W) :=
  svc ← runtime_host_view_ b; vtable ← sv_vtable svc; Some (runtime_table_at vtable).

(** *** The virtual methods

    [P] is an object of a class derived from the base, [W] the world its code
    works in; a method leaves both, and returns or throws. *)
Class DataSourcePlugin (P W : Type) := {
  p_base : P -> DataSourcePluginBase;
  p_with_base : P -> DataSourcePluginBase -> P;
  capabilities : P -> Call Z;
  bind : P -> ServiceRegistry -> P * Call Status;
  saveConfig : P -> Call string;
  loadConfig : P -> string -> P * Call Status;
  start : P -> W -> P * W * Call Status;
  stop : P -> W -> P * W * Call unit;
  pause : P -> W -> P * W * Call Status;
  resume : P -> W -> P * W * Call Status;
  poll : P -> W -> P * W * Call Status;
  currentState : P -> Call DataSourceState;
  getDialog : P -> Call PJ_borrowed_dialog_t;
  pluginExtension : P -> string -> Call (option Z)
}.

(** *** The trampolines *)

Section Trampolines.
Context {P W : Type} `{DataSourcePlugin P W}.
Implicit Types (self : P) (w : W).

Definition trampoline_capabilities self : Z :=
  match capabilities self with Returned c => c | Threw _ => 0 end.
Definition trampoline_bind self (registry : ServiceRegistry) : P * option unit * option PJ_error_t :=
  let '(self, r) := bind self registry in (self, (answer_of "bind" r).1, (answer_of "bind" r).2).
(** The caller gets a view of [config_buf_]. *)
Definition trampoline_save_config self : P * option string * option PJ_error_t :=
  match saveConfig self with
  | Returned text =>
      let self := p_with_base self (Base.with_config_buf (p_base self) text) in
      (self, Some (config_buf_ (p_base self)), None)
  | Threw e => (self, None, (text_answer "save_config" (Threw e)).2)
  end.
Definition trampoline_load_config self (config_json : string) : P * option unit * option PJ_error_t :=
  let '(self, r) := loadConfig self config_json in
  (self, (answer_of "load_config" r).1, (answer_of "load_config" r).2).
Definition trampoline_start self w : P * W * option unit * option PJ_error_t :=
  let '(self, w, r) := start self w in (self, w, (answer_of "start" r).1, (answer_of "start" r).2).
(** The errors of [stop] have nowhere to go. *)
Definition trampoline_stop self w : P * W := (stop self w).1.
Definition trampoline_pause self w : P * W * option unit * option PJ_error_t :=
  let '(self, w, r) := pause self w in (self, w, (answer_of "pause" r).1, (answer_of "pause" r).2).
Definition trampoline_resume self w : P * W * option unit * option PJ_error_t :=
  let '(self, w, r) := resume self w in (self, w, (answer_of "resume" r).1, (answer_of "resume" r).2).
Definition trampoline_poll self w : P * W * option unit * option PJ_error_t :=
  let '(self, w, r) := poll self w in (self, w, (answer_of "poll" r).1, (answer_of "poll" r).2).
Definition trampoline_current_state self : Z :=
  match currentState self with Returned s => state_code s | Threw _ => state_code kFailed end.
Definition trampoline_get_dialog self : PJ_borrowed_dialog_t :=
  match getDialog self with Returned d => d | Threw _ => no_dialog end.
Definition trampoline_get_plugin_extension self (id : string) : option Z :=
  match pluginExtension self id with Returned e => e | Threw _ => None end.

(** *** [DataSourceHandle] *)

Definition handle_capabilities self : Z := trampoline_capabilities self.
Definition handle_bind self (registry : ServiceRegistry) : P * Status :=
  let '(self, r, err) := trampoline_bind self registry in (self, Sdk.checked r err).
(** The text is [out_json], which is only touched on success. *)
Definition handle_saveConfig self : P * Expected string :=
  let '(self, r, err) := trampoline_save_config self in (self, Sdk.checked r err).
Definition handle_loadConfig self (config_json : string) : P * Status :=
  let '(self, r, err) := trampoline_load_config self config_json in (self, Sdk.checked r err).
Definition handle_start self w : P * W * Status :=
  let '(self, w, r, err) := trampoline_start self w in (self, w, Sdk.checked r err).
Definition handle_stop self w : P * W := trampoline_stop self w.
Definition handle_pause self w : P * W * Status :=
  let '(self, w, r, err) := trampoline_pause self w in (self, w, Sdk.checked r err).
Definition handle_resume self w : P * W * Status :=
  let '(self, w, r, err) := trampoline_resume self w in (self, w, Sdk.checked r err).
Definition handle_poll self w : P * W * Status :=
  let '(self, w, r, err) := trampoline_poll self w in (self, w, Sdk.checked r err).
Definition handle_currentState self : option DataSourceState := state_of_code (trampoline_current_state self).
Definition handle_getDialog self : PJ_borrowed_dialog_t := trampoline_get_dialog self.
Definition handle_getPluginExtension self (id : string) : option Z := trampoline_get_plugin_extension self id.

(** [vtableWithCreate], as the host sees the table: every slot is set.  [None]
    is a violated assertion on the manifest. *)
Definition vtableWithCreate (create : option P) (manifest : option string) : option Vtable :=
  if manifest_asserted manifest then
    Some (mkVtable PJ_DATA_SOURCE_PROTOCOL_VERSION (8 + 15 * 8)
      (list_to_set (filter (fun s => s <> "manifest_json") data_source_slots)) manifest
      (bool_decide (is_Some create))
      (fun created => match create with Some self => trampoline_capabilities self | None => 0 end) None)
  else None.
End Trampolines.

(** ** The two patterns *)

(** What the author of a plugin may override with either pattern: [D] are the
    members of the plugin. *)
Class SourceOverrides (D W : Type) := {
  o_extraCapabilities : D -> Call Z;
  o_bind : DataSourcePluginBase -> D -> ServiceRegistry -> DataSourcePluginBase * D * Call Status;
  o_saveConfig : D -> Call string;
  o_loadConfig : D -> string -> D * Call Status;
  o_pause : DataSourcePluginBase -> D -> W -> D * W * Call Status;
  o_resume : DataSourcePluginBase -> D -> W -> D * W * Call Status;
  o_getDialog : D -> Call PJ_borrowed_dialog_t;
  o_pluginExtension : D -> string -> Call (option Z)
}.

(** The methods of the base, for a plugin that overrides none. *)
Module Defaults.
Section Defaults.
Context {D W : Type}.
Definition bind (b : DataSourcePluginBase) (d : D) (services : ServiceRegistry) : DataSourcePluginBase * D * Call Status :=
  let '(b, status) := Base.bind b services in (b, d, Returned status).
Definition saveConfig (d : D) : Call string := Returned "{}".
Definition loadConfig (d : D) (config_json : string) : D * Call Status := (d, Returned okStatus).
Definition pause (b : DataSourcePluginBase) (d : D) (w : W) : D * W * Call Status :=
  (d, w, Returned (Err "pause is not supported")).
Definition resume (b : DataSourcePluginBase) (d : D) (w : W) : D * W * Call Status :=
  (d, w, Returned (Err "resume is not supported")).
Definition poll (b : DataSourcePluginBase) (d : D) (w : W) : D * W * Call Status := (d, w, Returned okStatus).
Definition getDialog (d : D) : Call PJ_borrowed_dialog_t := Returned no_dialog.
Definition pluginExtension (d : D) (id : string) : Call (option Z) := Returned None.
End Defaults.
End Defaults.

(** [capabilities]: the flag of the pattern and those of the plugin. *)
Definition with_flag (flag : Z) (extra : Call Z) : Call Z :=
  match extra with Returned c => Returned (Z.lor flag c) | Threw e => Threw e end.

(** *** FileSourceBase *)

Class FileImporter (D W : Type) `{SourceOverrides D W} := {
  importData : DataSourcePluginBase -> D -> W -> D * W * Call Status;
  o_poll : DataSourcePluginBase -> D -> W -> D * W * Call Status
}.

Record FileSourceBase (D : Type) := mkFileSource {
  fs_base : DataSourcePluginBase;
  fs_state_ : DataSourceState;
  fs_plugin : D
}.
Arguments mkFileSource {D}. Arguments fs_base {D}. Arguments fs_state_ {D}. Arguments fs_plugin {D}.

Module FileSource.
Section FileSource.
Context {D W : Type} `{RuntimeTables W} `{FileImporter D W}.
Implicit Types (s : FileSourceBase D) (w : W).

Definition make (d : D) : FileSourceBase D := mkFileSource Base.make kIdle d.
Definition with_state s (state : DataSourceState) : FileSourceBase D := mkFileSource (fs_base s) state (fs_plugin s).
Definition with_plugin s (d : D) : FileSourceBase D := mkFileSource (fs_base s) (fs_state_ s) d.

Definition start s w : FileSourceBase D * W * Call Status :=
  let host := runtimeHost (fs_base s) in
  let s := with_state s kStarting in
  let w := RuntimeHost.notifyState host (fs_state_ s) w in
  let '(d, w, status) := importData (fs_base s) (fs_plugin s) w in
  let s := with_plugin s d in
  match status with
  | Threw e => (s, w, Threw e)
  | Returned status =>
      let w := RuntimeHost.progressFinish host w in
      match status with
      | Err e =>
          let s := with_state s kFailed in
          (s, RuntimeHost.notifyState host (fs_state_ s) w, Returned (Err e))
      | Ok _ =>
          let s := with_state s kStopped in
          let w := RuntimeHost.notifyState host (fs_state_ s) w in
          (s, RuntimeHost.requestStop host kStopped "import complete" w, Returned okStatus)
      end
  end.

Definition stop s w : FileSourceBase D * W * Call unit := (with_state s kStopped, w, Returned ()).

(** The methods a plugin may override, on the object it is part of. *)
Definition overridden (f : DataSourcePluginBase -> D -> W -> D * W * Call Status) s w
    : FileSourceBase D * W * Call Status :=
  let '(d, w, r) := f (fs_base s) (fs_plugin s) w in (with_plugin s d, w, r).

#[global] Instance file_plugin : DataSourcePlugin (FileSourceBase D) W := {|
  p_base := fs_base;
  p_with_base s b := mkFileSource b (fs_state_ s) (fs_plugin s);
  capabilities s := with_flag kCapabilityFiniteImport (o_extraCapabilities (fs_plugin s));
  bind s services :=
    let '(b, d, r) := o_bind (fs_base s) (fs_plugin s) services in (mkFileSource b (fs_state_ s) d, r);
  saveConfig s := o_saveConfig (fs_plugin s);
  loadConfig s config_json := let '(d, r) := o_loadConfig (fs_plugin s) config_json in (with_plugin s d, r);
  DataSource.start := start;
  DataSource.stop := stop;
  pause := overridden o_pause;
  resume := overridden o_resume;
  poll := overridden o_poll;
  currentState s := Returned (fs_state_ s);
  getDialog s := o_getDialog (fs_plugin s);
  pluginExtension s id := o_pluginExtension (fs_plugin s) id
|}.
End FileSource.
End FileSource.

(** *** StreamSourceBase *)

Class StreamCode (D W : Type) `{SourceOverrides D W} := {
  onStart : DataSourcePluginBase -> D -> W -> D * W * Call Status;
  onPoll : DataSourcePluginBase -> D -> W -> D * W * Call Status;
  onStop : DataSourcePluginBase -> D -> W -> D * W * Call unit
}.

Record StreamSourceBase (D : Type) := mkStreamSource {
  ss_base : DataSourcePluginBase;
  ss_state_ : DataSourceState;
  ss_plugin : D
}.
Arguments mkStreamSource {D}. Arguments ss_base {D}. Arguments ss_state_ {D}. Arguments ss_plugin {D}.

Module StreamSource.
Section StreamSource.
Context {D W : Type} `{RuntimeTables W} `{StreamCode D W}.
Implicit Types (s : StreamSourceBase D) (w : W).

Definition make (d : D) : StreamSourceBase D := mkStreamSource Base.make kIdle d.
Definition with_state s (state : DataSourceState) : StreamSourceBase D :=
  mkStreamSource (ss_base s) state (ss_plugin s).
Definition with_plugin s (d : D) : StreamSourceBase D := mkStreamSource (ss_base s) (ss_state_ s) d.

Definition start s w : StreamSourceBase D * W * Call Status :=
  let host := runtimeHost (ss_base s) in
  let s := with_state s kStarting in
  let w := RuntimeHost.notifyState host (ss_state_ s) w in
  let '(d, w, status) := onStart (ss_base s) (ss_plugin s) w in
  let s := with_plugin s d in
  match status with
  | Threw e => (s, w, Threw e)
  | Returned (Err e) =>
      let s := with_state s kFailed in
      (s, RuntimeHost.notifyState host (ss_state_ s) w, Returned (Err e))
  | Returned (Ok _) =>
      let s := with_state s kRunning in
      (s, RuntimeHost.notifyState host (ss_state_ s) w, Returned okStatus)
  end.

Definition stop s w : StreamSourceBase D * W * Call unit :=
  let '(d, w, r) := onStop (ss_base s) (ss_plugin s) w in
  let s := with_plugin s d in
  match r with
  | Threw e => (s, w, Threw e)
  | Returned _ =>
      let s := with_state s kStopped in
      (s, RuntimeHost.notifyState (runtimeHost (ss_base s)) (ss_state_ s) w, Returned ())
  end.

Definition overridden (f : DataSourcePluginBase -> D -> W -> D * W * Call Status) s w
    : StreamSourceBase D * W * Call Status :=
  let '(d, w, r) := f (ss_base s) (ss_plugin s) w in (with_plugin s d, w, r).

#[global] Instance stream_plugin : DataSourcePlugin (StreamSourceBase D) W := {|
  p_base := ss_base;
  p_with_base s b := mkStreamSource b (ss_state_ s) (ss_plugin s);
  capabilities s := with_flag kCapabilityContinuousStream (o_extraCapabilities (ss_plugin s));
  bind s services :=
    let '(b, d, r) := o_bind (ss_base s) (ss_plugin s) services in (mkStreamSource b (ss_state_ s) d, r);
  saveConfig s := o_saveConfig (ss_plugin s);
  loadConfig s config_json := let '(d, r) := o_loadConfig (ss_plugin s) config_json in (with_plugin s d, r);
  DataSource.start := start;
  DataSource.stop := stop;
  pause := overridden o_pause;
  resume := overridden o_resume;
  poll := overridden onPoll;
  currentState s := Returned (ss_state_ s);
  getDialog s := o_getDialog (ss_plugin s);
  pluginExtension s id := o_pluginExtension (ss_plugin s) id
|}.
End StreamSource.
End StreamSource.
