(* ===== verification/SourceRun.v ===== *)
(** * SourceRun: the life cycle of a data source

    The calls a host makes of a source of either pattern of [DataSource], as runs
    of an abstract machine: which states the source takes, which of them the host
    is notified of, and what every call answers. *)

From S2P Require Import Prelude Types Host Sdk Settings Services PluginDso PluginCalls DataSource.

(** ** The abstract machine *)

Inductive Pattern := FileImport | Stream.

Inductive SourceCall :=
| CallSaveConfig | CallLoadConfig (config_json : string)
| CallStart | CallStop | CallPause | CallResume | CallPoll.

Definition call_name (c : SourceCall) : string :=
  match c with
  | CallSaveConfig => "save_config" | CallLoadConfig _ => "load_config" | CallStart => "start"
  | CallStop => "stop" | CallPause => "pause" | CallResume => "resume" | CallPoll => "poll"
  end.

(** What the code of the plugin did in a call: its result, and the states it
    notified the host of on its own. *)
Record Outcome := mkOutcome { oc_result : Call Status; oc_own : list Z }.

(** The state after a call, and the notifications during it. *)
Definition next (pattern : Pattern) (s : DataSourceState) (c : SourceCall) (o : Outcome) : DataSourceState * list Z :=
  match c with
  | CallStart =>
      let notified final := state_code kStarting :: oc_own o ++ final in
      match oc_result o with
      | Threw _ => (kStarting, notified [])
      | Returned (Err _) => (kFailed, notified [state_code kFailed])
      | Returned (Ok _) =>
          let final := match pattern with FileImport => kStopped | Stream => kRunning end in
          (final, notified [state_code final])
      end
  | CallStop =>
      match pattern, oc_result o with
      | FileImport, _ => (kStopped, oc_own o)
      | Stream, Threw _ => (s, oc_own o)
      | Stream, Returned _ => (kStopped, oc_own o ++ [state_code kStopped])
      end
  | _ => (s, oc_own o)
  end.

(** What the host gets: [stop] cannot fail. *)
Definition answer (c : SourceCall) (o : Outcome) : Status :=
  match c with
  | CallStop => okStatus
  | _ => match message_of (call_name c) (oc_result o) with None => okStatus | Some m => Err (plugin_error m) end
  end.

(** ** Sessions of the host *)

Section Sessions.
Context {P W : Type} `{DataSourcePlugin P W}.

Definition perform (p : P) (w : W) (c : SourceCall) : P * W * Status :=
  match c with
  | CallSaveConfig => let '(p, r) := handle_saveConfig p in (p, w, match r with Ok _ => okStatus | Err e => Err e end)
  | CallLoadConfig config_json => let '(p, r) := handle_loadConfig p config_json in (p, w, r)
  | CallStart => handle_start p w
  | CallStop => let '(p, w) := handle_stop p w in (p, w, okStatus)
  | CallPause => handle_pause p w
  | CallResume => handle_resume p w
  | CallPoll => handle_poll p w
  end.

Fixpoint session (p : P) (w : W) (calls : list SourceCall) : P * W * list Status :=
  match calls with
  | [] => (p, w, [])
  | c :: calls =>
      let '(p, w, r) := perform p w c in
      let '(p, w, rs) := session p w calls in (p, w, r :: rs)
  end.
End Sessions.

(** ** What is assumed of host and plugin *)

(** The host keeps the states it was notified of; [bound_at] are the addresses of
    its tables. *)
Class RuntimeLog (W : Type) `{RuntimeTables W} := {
  notified : W -> list Z;
  bound_at : Z -> Prop;
  notify_logs a w c : bound_at a ->
    exists f, notify_state (runtime_table_at a) = Some f /\ notified (f w c) = notified w ++ [c];
  finish_quiet a f w : bound_at a -> progress_finish (runtime_table_at a) = Some f -> notified (f w) = notified w;
  request_quiet a f w c reason : bound_at a ->
    request_stop (runtime_table_at a) = Some f -> notified (f w c reason) = notified w
}.

(** The code of a plugin only adds to them. *)
Definition adds `{RuntimeLog W} (w w' : W) : Prop := exists own, notified w' = notified w ++ own.

Class OverridesAdd (D W : Type) `{SourceOverrides D W} `{RuntimeLog W} : Prop := {
  pause_adds b d w : adds w (o_pause b d w).1.2;
  resume_adds b d w : adds w (o_resume b d w).1.2
}.
Class ImporterAdds (D W : Type) `{FileImporter D W} `{RuntimeLog W} : Prop := {
  import_adds b d w : adds w (importData b d w).1.2;
  poll_adds b d w : adds w (o_poll b d w).1.2
}.
Class StreamAdds (D W : Type) `{StreamCode D W} `{RuntimeLog W} : Prop := {
  onStart_adds b d w : adds w (onStart b d w).1.2;
  onPoll_adds b d w : adds w (onPoll b d w).1.2;
  onStop_adds b d w : adds w (onStop b d w).1.2
}.

(** The runtime host the source was bound to. *)
Definition bound `{RuntimeLog W} (b : DataSourcePluginBase) : Prop :=
  exists svc a, runtime_host_view_ b = Some svc /\ sv_vtable svc = Some a /\ bound_at a.

(** ** Every session is a run of the machine *)

(** The code of a plugin that a call reaches: [code] runs it on the base and the
    members [D] of the plugin, in the world [W].  A start has told the host that
    the source is starting when it reaches it. *)
Class PluginCode (P D W : Type) := code : SourceCall -> DataSourcePluginBase -> D -> W -> D * W * Call Status.

Definition entered `{RuntimeLog W} (b : DataSourcePluginBase) (w : W) (c : SourceCall) : W :=
  match c with CallStart => RuntimeHost.notifyState (runtimeHost b) kStarting w | _ => w end.

(** What that code did: its result, and what it told the host on its own. *)
Definition outcome (P : Type) {D W} `{RuntimeLog W} `{!PluginCode P D W} (b : DataSourcePluginBase) (d : D) (w : W) (c : SourceCall) : Outcome :=
  let w0 := entered b w c in
  let '(_, w1, r) := code (P := P) c b d w0 in mkOutcome r (drop (length (notified w0)) (notified w1)).

(** Where a source keeps its state and its members, and its pattern. *)
Class Shape (P D : Type) := { pattern : Pattern; state_of : P -> DataSourceState; members : P -> D }.

Section Runs.
Context {P D W : Type} `{DataSourcePlugin P W} `{RuntimeLog W} `{!PluginCode P D W} `{!Shape P D}.

(** One call is one step of the machine, with the outcome of the plugin's code;
    the plugin's members are what its code left. *)
Definition steps (p : P) (w : W) (c : SourceCall) : Prop :=
  let o := outcome P (p_base p) (members p) w c in
  let '(p', w', r) := perform p w c in
  let '(s, notes) := next pattern (state_of p) c o in
  handle_currentState p' = Some s /\ state_of p' = s /\ notified w' = notified w ++ notes /\ r = answer c o
  /\ members p' = (code (P := P) c (p_base p) (members p) (entered (p_base p) w c)).1.1
  /\ runtime_host_view_ (p_base p') = runtime_host_view_ (p_base p).

(** And so is every call of a session. *)
Fixpoint follows (p : P) (w : W) (calls : list SourceCall) : Prop :=
  match calls with
  | [] => True
  | c :: calls => steps p w c /\ let '(p', w', _) := perform p w c in follows p' w' calls
  end.

Lemma session_follows : (forall p w c, bound (p_base p) -> steps p w c) ->
  forall calls p w, bound (p_base p) -> follows p w calls.
Proof.
  intros Hsteps calls. induction calls as [|c calls IH]; intros p w Hb; [done|]. pose proof (Hsteps p w c Hb) as Hs.
  cbn [follows]. split; [done|]. unfold steps in Hs. destruct (perform p w c) as [[p' w'] r].
  destruct (next _ _ _ _) as [s notes]. destruct Hs as (_ & _ & _ & _ & _ & Hbase). apply IH. unfold bound. by rewrite Hbase.
Qed.

(** A step from the code's result [r] and the host calls [own] it made. *)
Lemma step_of p w c d w1 r own p' w' s notes :
  code (P := P) c (p_base p) (members p) (entered (p_base p) w c) = (d, w1, r) ->
  notified w1 = notified (entered (p_base p) w c) ++ own ->
  perform p w c = (p', w', answer c (mkOutcome r own)) ->
  next pattern (state_of p) c (mkOutcome r own) = (s, notes) ->
  handle_currentState p' = Some s -> state_of p' = s -> notified w' = notified w ++ notes -> members p' = d ->
  runtime_host_view_ (p_base p') = runtime_host_view_ (p_base p) -> steps p w c.
Proof.
  intros Hc Hown Hp Hn Hs1 Hs2 Hw Hd Hb. unfold steps, outcome. rewrite Hc, Hown, drop_app_length, Hp, Hn. by split_and!.
Qed.
End Runs.

Lemma state_code_named s : state_of_code (state_code s) = Some s.
Proof. by destruct s. Qed.

(** *** The host calls a source makes *)

Section Notes.
Context {W : Type} `{RuntimeLog W}.
Implicit Types (b : DataSourcePluginBase) (w : W).

Lemma bound_host b : bound b -> exists a, bound_at a /\ runtimeHost b = Some (runtime_table_at a).
Proof. intros (svc & a & Hv & Ha & Hb). exists a. split; [done|]. unfold runtimeHost. by rewrite Hv; cbn; rewrite Ha. Qed.

Lemma notifyState_logs b w s : bound b ->
  notified (RuntimeHost.notifyState (runtimeHost b) s w) = notified w ++ [state_code s].
Proof.
  intros Hb. destruct (bound_host b Hb) as (a & Ha & ->). destruct (notify_logs a w (state_code s) Ha) as (f & Hf & Hn).
  unfold RuntimeHost.notifyState, RuntimeHost.slot. cbn [mbind option_bind]. by rewrite Hf.
Qed.

Lemma progressFinish_quiet b w : bound b -> notified (RuntimeHost.progressFinish (runtimeHost b) w) = notified w.
Proof.
  intros Hb. destruct (bound_host b Hb) as (a & Ha & ->). unfold RuntimeHost.progressFinish, RuntimeHost.slot.
  cbn [mbind option_bind]. destruct (progress_finish _) as [f|] eqn:Hf; [by apply (finish_quiet a)|done].
Qed.

Lemma requestStop_quiet b w s reason : bound b ->
  notified (RuntimeHost.requestStop (runtimeHost b) s reason w) = notified w.
Proof.
  intros Hb. destruct (bound_host b Hb) as (a & Ha & ->). unfold RuntimeHost.requestStop, RuntimeHost.slot.
  cbn [mbind option_bind]. destruct (request_stop _) as [f|] eqn:Hf; [by apply (request_quiet a)|done].
Qed.
End Notes.

(** *** What the handle makes of a call *)

Definition status_of (call : string) (r : Call Status) : Status :=
  match message_of call r with None => okStatus | Some m => Err (plugin_error m) end.

Section Handle.
Context {P W : Type} `{DataSourcePlugin P W}.

Lemma perform_spec (p : P) (w : W) c :
  perform p w c =
  match c with
  | CallSaveConfig =>
      match saveConfig p with
      | Returned text => (p_with_base p (Base.with_config_buf (p_base p) text), w, okStatus)
      | Threw e => (p, w, status_of "save_config" (Threw e))
      end
  | CallLoadConfig j => let '(p, r) := loadConfig p j in (p, w, status_of "load_config" r)
  | CallStart => let '(p, w, r) := start p w in (p, w, status_of "start" r)
  | CallStop => let '(p, w, _) := stop p w in (p, w, okStatus)
  | CallPause => let '(p, w, r) := pause p w in (p, w, status_of "pause" r)
  | CallResume => let '(p, w, r) := resume p w in (p, w, status_of "resume" r)
  | CallPoll => let '(p, w, r) := poll p w in (p, w, status_of "poll" r)
  end.
Proof.
  destruct c; cbn [perform];
    unfold handle_saveConfig, trampoline_save_config, handle_loadConfig, trampoline_load_config, handle_start,
      trampoline_start, handle_stop, trampoline_stop, handle_pause, trampoline_pause, handle_resume,
      trampoline_resume, handle_poll, trampoline_poll, status_of.
  - by destruct (saveConfig p) as [text|[e|]].
  - destruct (loadConfig p config_json) as [p' r]. by rewrite checked_answer.
  - destruct (start p w) as [[p' w'] r]. by rewrite checked_answer.
  - by destruct (stop p w) as [[p' w'] r].
  - destruct (pause p w) as [[p' w'] r]. by rewrite checked_answer.
  - destruct (resume p w) as [[p' w'] r]. by rewrite checked_answer.
  - destruct (poll p w) as [[p' w'] r]. by rewrite checked_answer.
Qed.
End Handle.

Section File.
Context {D W} `{RuntimeTables W} `{!RuntimeLog W} `{!SourceOverrides D W} `{!FileImporter D W}
  `{!OverridesAdd D W} `{!ImporterAdds D W}.

#[export] Instance file_shape : Shape (FileSourceBase D) D :=
  {| pattern := FileImport; state_of := fs_state_; members := fs_plugin |}.

(** A file importer has no code of its own for [stop]. *)
#[export] Instance file_code : PluginCode (FileSourceBase D) D W := fun c b d w =>
  match c with
  | CallSaveConfig => (d, w, match o_saveConfig d with Returned _ => Returned okStatus | Threw e => Threw e end)
  | CallLoadConfig config_json => let '(d, r) := o_loadConfig d config_json in (d, w, r)
  | CallStart => importData b d w
  | CallStop => (d, w, Returned okStatus)
  | CallPause => o_pause b d w
  | CallResume => o_resume b d w
  | CallPoll => o_poll b d w
  end.

(** A step from what is known of the code and of the call. *)
Local Ltac plain_step d w r own Hp state_shown :=
  eapply (step_of _ _ _ d w r own);
    [first [reflexivity|eassumption|unfold code, file_code; cbn; match goal with E : _ = _ |- _ => rewrite E; reflexivity end]
    |first [eassumption|by rewrite app_nil_r]|exact Hp|reflexivity|by rewrite state_shown|done
    |first [eassumption|by rewrite app_nil_r]|reflexivity|reflexivity].

Lemma file_state (p : FileSourceBase D) : handle_currentState p = Some (fs_state_ p).
Proof. apply state_code_named. Qed.

Lemma file_steps (p : FileSourceBase D) (w : W) c : bound (fs_base p) -> steps p w c.
Proof.
  intros Hb. pose proof (perform_spec p w c) as Hp.
  destruct c; cbn [saveConfig loadConfig start stop pause resume poll p_base p_with_base FileSource.file_plugin] in Hp.
  - destruct (o_saveConfig (fs_plugin p)) as [text|e] eqn:E.
    + plain_step (fs_plugin p) w (Returned okStatus : Call Status) (@nil Z) Hp file_state.
    + plain_step (fs_plugin p) w (Threw e : Call Status) (@nil Z) Hp file_state.
  - destruct (o_loadConfig (fs_plugin p) config_json) as [d r] eqn:E. plain_step d w r (@nil Z) Hp file_state.
  - unfold FileSource.start in Hp. set (w1 := RuntimeHost.notifyState _ _ w) in Hp.
    assert (Hw1 : notified w1 = notified w ++ [state_code kStarting]) by (by apply notifyState_logs).
    pose proof (import_adds (fs_base p) (fs_plugin p) w1) as [own Hown].
    change (importData _ _ w1) with (importData (fs_base p) (fs_plugin p) w1) in Hp.
    destruct (importData (fs_base p) (fs_plugin p) w1) as [[d w2] r] eqn:E. cbn [fst snd] in Hown.
    destruct r as [[[]|e]|e];
      (eapply (step_of _ _ _ d w2 _ own); [exact E|exact Hown|exact Hp|reflexivity|by rewrite file_state|done| |done|done]);
      cbn [oc_own]; rewrite ?requestStop_quiet, ?notifyState_logs, ?progressFinish_quiet, ?Hown, ?Hw1, ?app_nil_r by done;
      by rewrite <-!app_assoc.
  - plain_step (fs_plugin p) w (Returned okStatus : Call Status) (@nil Z) Hp file_state.
  - unfold FileSource.overridden in Hp. pose proof (pause_adds (fs_base p) (fs_plugin p) w) as [own Hown].
    destruct (o_pause _ _ w) as [[d w2] r] eqn:E. plain_step d w2 r own Hp file_state.
  - unfold FileSource.overridden in Hp. pose proof (resume_adds (fs_base p) (fs_plugin p) w) as [own Hown].
    destruct (o_resume _ _ w) as [[d w2] r] eqn:E. plain_step d w2 r own Hp file_state.
  - unfold FileSource.overridden in Hp. pose proof (poll_adds (fs_base p) (fs_plugin p) w) as [own Hown].
    destruct (o_poll _ _ w) as [[d w2] r] eqn:E. plain_step d w2 r own Hp file_state.
Qed.
End File.

Section Streams.
Context {D W} `{RuntimeTables W} `{!RuntimeLog W} `{!SourceOverrides D W} `{!StreamCode D W}
  `{!OverridesAdd D W} `{!StreamAdds D W}.

#[export] Instance stream_shape : Shape (StreamSourceBase D) D :=
  {| pattern := Stream; state_of := ss_state_; members := ss_plugin |}.

#[export] Instance stream_code : PluginCode (StreamSourceBase D) D W := fun c b d w =>
  match c with
  | CallSaveConfig => (d, w, match o_saveConfig d with Returned _ => Returned okStatus | Threw e => Threw e end)
  | CallLoadConfig config_json => let '(d, r) := o_loadConfig d config_json in (d, w, r)
  | CallStart => onStart b d w
  | CallStop => let '(d, w, r) := onStop b d w in
      (d, w, match r with Returned _ => Returned okStatus | Threw e => Threw e end)
  | CallPause => o_pause b d w
  | CallResume => o_resume b d w
  | CallPoll => onPoll b d w
  end.

Local Ltac plain_step d w r own Hp state_shown :=
  eapply (step_of _ _ _ d w r own);
    [first [reflexivity|eassumption|unfold code, stream_code; cbn; match goal with E : _ = _ |- _ => rewrite E; reflexivity end]
    |first [eassumption|by rewrite app_nil_r]|exact Hp|reflexivity|by rewrite state_shown|done
    |first [eassumption|by rewrite app_nil_r]|reflexivity|reflexivity].

Lemma stream_state (p : StreamSourceBase D) : handle_currentState p = Some (ss_state_ p).
Proof. apply state_code_named. Qed.

Lemma stream_steps (p : StreamSourceBase D) (w : W) c : bound (ss_base p) -> steps p w c.
Proof.
  intros Hb. pose proof (perform_spec p w c) as Hp.
  destruct c; cbn [saveConfig loadConfig start stop pause resume poll p_base p_with_base StreamSource.stream_plugin] in Hp.
  - destruct (o_saveConfig (ss_plugin p)) as [text|e] eqn:E.
    + plain_step (ss_plugin p) w (Returned okStatus : Call Status) (@nil Z) Hp stream_state.
    + plain_step (ss_plugin p) w (Threw e : Call Status) (@nil Z) Hp stream_state.
  - destruct (o_loadConfig (ss_plugin p) config_json) as [d r] eqn:E. plain_step d w r (@nil Z) Hp stream_state.
  - unfold StreamSource.start in Hp. set (w1 := RuntimeHost.notifyState _ _ w) in Hp.
    assert (Hw1 : notified w1 = notified w ++ [state_code kStarting]) by (by apply notifyState_logs).
    pose proof (onStart_adds (ss_base p) (ss_plugin p) w1) as [own Hown].
    change (onStart _ _ w1) with (onStart (ss_base p) (ss_plugin p) w1) in Hp.
    destruct (onStart (ss_base p) (ss_plugin p) w1) as [[d w2] r] eqn:E. cbn [fst snd] in Hown.
    destruct r as [[[]|e]|e];
      (eapply (step_of _ _ _ d w2 _ own); [exact E|exact Hown|exact Hp|reflexivity|by rewrite stream_state|done| |done|done]);
      cbn [oc_own]; rewrite ?notifyState_logs, ?Hown, ?Hw1, ?app_nil_r by done; by rewrite <-!app_assoc.
  - unfold StreamSource.stop in Hp. pose proof (onStop_adds (ss_base p) (ss_plugin p) w) as [own Hown].
    destruct (onStop (ss_base p) (ss_plugin p) w) as [[d w2] [[]|e]] eqn:E; cbn [fst snd] in Hown;
      (eapply (step_of _ _ _ d w2 _ own); [cbn; by rewrite E|exact Hown|exact Hp|reflexivity|by rewrite stream_state|done| |done|done]).
    + rewrite notifyState_logs, Hown by done. by rewrite <-app_assoc.
    + done.
  - unfold StreamSource.overridden in Hp. pose proof (pause_adds (ss_base p) (ss_plugin p) w) as [own Hown].
    destruct (o_pause _ _ w) as [[d w2] r] eqn:E. plain_step d w2 r own Hp stream_state.
  - unfold StreamSource.overridden in Hp. pose proof (resume_adds (ss_base p) (ss_plugin p) w) as [own Hown].
    destruct (o_resume _ _ w) as [[d w2] r] eqn:E. plain_step d w2 r own Hp stream_state.
  - unfold StreamSource.overridden in Hp. pose proof (onPoll_adds (ss_base p) (ss_plugin p) w) as [own Hown].
    destruct (onPoll _ _ w) as [[d w2] r] eqn:E. plain_step d w2 r own Hp stream_state.
Qed.
End Streams.

(** C20: Whatever calls a host makes of a source that is bound to it, a file
    importer or a stream, every call runs the method of the plugin it is for
    ([importData], [onStart], [onPoll], [onStop], the overridden [pause] and the
    like), keeps the members it leaves, and takes the source and the states the
    host was notified of one step along the life cycle of its pattern, by what
    that method returned: a start that succeeds stops (importer) or runs
    (stream), one that is refused has failed, one that throws is left starting; a
    stop stops, without a notification from an importer, and not at all if the
    code of a stream throws.  Every call but [stop], which cannot fail, answers
    [Ok] exactly if that method returned [Ok], and the message of its error or
    exception otherwise.  The code of a plugin is assumed to add to the host's
    notifications only. *)
Theorem source_lifecycle {D W} `{RuntimeTables W} `{!RuntimeLog W} `{!SourceOverrides D W} `{!FileImporter D W}
    `{!StreamCode D W} `{!OverridesAdd D W} `{!ImporterAdds D W} `{!StreamAdds D W}
    (f : FileSourceBase D) (s : StreamSourceBase D) (w : W) calls :
  (bound (fs_base f) -> follows f w calls) /\ (bound (ss_base s) -> follows s w calls).
Proof.
  split; intros Hb; apply session_follows; try done; intros; by first [apply file_steps|apply stream_steps]. Qed.

(** ** A host that keeps what it is told *)

Record HostLog := mkHostLog { hl_states : list Z; hl_stops : list (Z * string); hl_messages : list string }.

(** It shows no progress, has no dialogs and no parsers. *)
Definition log_table : PJ_data_source_runtime_host_vtable_t HostLog := {|
  report_message := Some (fun w level m => mkHostLog (hl_states w) (hl_stops w) (hl_messages w ++ [m]));
  progress_start := None;
  progress_update := None;
  progress_finish := None;
  is_stop_requested := Some (fun w => (w, bool_decide (hl_stops w <> [])));
  notify_state := Some (fun w c => mkHostLog (hl_states w ++ [c]) (hl_stops w) (hl_messages w));
  request_stop := Some (fun w c reason => mkHostLog (hl_states w) (hl_stops w ++ [(c, reason)]) (hl_messages w));
  ensure_parser_binding := None;
  push_raw_message := None;
  show_message_box := None;
  list_available_encodings := None;
  push_message_v2 := None
|}.
#[local] Instance log_tables : RuntimeTables HostLog := fun _ => log_table.
#[local] Instance log_host : RuntimeLog HostLog.
Proof.
  refine {| notified := hl_states; bound_at := fun _ => True |}.
  - intros a w c _. by eexists.
  - done.
  - intros a f w c reason _ Hf. cbn in Hf. by injection Hf as <-.
Defined.

(** A plugin whose code does what its list says, call after call: 0 is success,
    1 a refusal, anything else an exception. *)
Definition scripted (script : list Z) (w : HostLog) : list Z * HostLog * Call Status :=
  match script with
  | [] => ([], w, Returned okStatus)
  | 0 :: rest => (rest, w, Returned okStatus)
  | 1 :: rest => (rest, w, Returned (Err "no such file"))
  | _ :: rest => (rest, w, Threw (Some "disk error"))
  end.
#[local] Instance script_overrides : SourceOverrides (list Z) HostLog := {|
  o_extraCapabilities d := Returned 4;
  o_bind := Defaults.bind;
  o_saveConfig := Defaults.saveConfig;
  o_loadConfig := Defaults.loadConfig;
  o_pause := Defaults.pause;
  o_resume := Defaults.resume;
  o_getDialog := Defaults.getDialog;
  o_pluginExtension := Defaults.pluginExtension
|}.
#[local] Instance script_importer : FileImporter (list Z) HostLog := {|
  importData b := scripted;
  o_poll := Defaults.poll
|}.
#[local] Instance script_stream : StreamCode (list Z) HostLog := {|
  onStart b := scripted;
  onPoll b := scripted;
  onStop b d w := let '(d, w, r) := scripted d w in (d, w, match r with Threw e => Threw e | _ => Returned () end)
|}.
Lemma scripted_adds script w : adds w (scripted script w).1.2.
Proof. exists []. rewrite app_nil_r. by destruct script as [|[|[]|] rest]. Qed.
#[local] Instance script_overrides_add : OverridesAdd (list Z) HostLog.
Proof. constructor; intros b d w; exists []; by rewrite app_nil_r. Qed.
#[local] Instance script_importer_adds : ImporterAdds (list Z) HostLog.
Proof. constructor; intros b d w; [apply scripted_adds|exists []; by rewrite app_nil_r]. Qed.
#[local] Instance script_stream_adds : StreamAdds (list Z) HostLog.
Proof.
  constructor; intros b d w; [apply scripted_adds..|].
  pose proof (scripted_adds d w) as Hs. cbn. by destruct (scripted d w) as [[d' w'] r].
Qed.

Definition source_services : ServiceRegistryBuilder :=
  registerService "pj.runtime.v1" 1 (mkService (Some 3) (Some 4))
    (registerService "pj.source_write.v1" 1 (mkService (Some 1) (Some 2)) ∅).
Definition quiet_log : HostLog := mkHostLog [] [] [].
Definition importer (script : list Z) : FileSourceBase (list Z) :=
  (handle_bind (W := HostLog) (FileSource.make script) (view source_services)).1.
Definition stream (script : list Z) : StreamSourceBase (list Z) :=
  (handle_bind (W := HostLog) (StreamSource.make script) (view source_services)).1.

Lemma source_lifecycle_witness :
  follows (importer [0]) quiet_log [CallStart; CallStop]
  /\ follows (stream [0; 1; 2]) quiet_log [CallStart; CallPoll; CallStop].
Proof.
  split.
  - apply (source_lifecycle (importer [0]) (stream []) quiet_log).
    exists (mkService (Some 3) (Some 4)), 4. by vm_compute.
  - apply (source_lifecycle (importer []) (stream [0; 1; 2]) quiet_log).
    exists (mkService (Some 3) (Some 4)), 4. by vm_compute.
Defined.

(** An import that ends asks the host to stop it; an exception leaves a source
    starting, whatever is polled later. *)
Example importer_run :
  let '(p, w, rs) := session (importer [0]) quiet_log [CallStart] in
  rs = [okStatus] /\ handle_currentState p = Some kStopped
  /\ hl_states w = [2; 6] /\ hl_stops w = [(6, "import complete")].
Proof. by vm_compute. Qed.
Example exception_leaves_starting :
  let '(p, w, rs) := session (importer [2]) quiet_log [CallStart; CallPoll] in
  rs = [Err "plugin: start threw: disk error"; okStatus] /\ handle_currentState p = Some kStarting /\ hl_states w = [2].
Proof. by vm_compute. Qed.
(** A stopped source starts again, where the protocol calls the state terminal. *)
Example stopped_starts_again :
  let '(p, w, rs) := session (stream []) quiet_log [CallStart; CallStop; CallStart] in
  handle_currentState p = Some kRunning /\ hl_states w = [2; 3; 6; 2; 3].
Proof. by vm_compute. Qed.
(** The code of a stream that throws from [onStop] keeps it running, and the host
    is not told. *)
Example failed_stop_runs_on :
  let '(p, w, rs) := session (stream [0; 2]) quiet_log [CallStart; CallStop] in
  rs = [okStatus; okStatus] /\ handle_currentState p = Some kRunning /\ hl_states w = [2; 3].
Proof. by vm_compute. Qed.

(** ** The library of a source loads

    The table that the export macro makes passes every check of the host. *)
Lemma exported_source_loads {P W} `{DataSourcePlugin P W} (create : option P) manifest vt abi parser toolbox dialog :
  vtableWithCreate create manifest = Some vt ->
  resolve_data_source (mkDso abi (Ok (Some vt)) parser toolbox dialog) = Ok vt.
Proof.
  unfold vtableWithCreate. destruct (manifest_asserted manifest) eqn:Hm; [|done]. intros Hvt.
  apply (inj Some) in Hvt. subst vt. destruct manifest as [text|]; [|done]. reflexivity.
Qed.
