(* ===== verification/Toolbox.v ===== *)
(** * Toolbox: plugins that work on the data of a session

    Models [ToolboxPluginBase] of
    [src/pj_base/include/pj_base/sdk/toolbox_plugin_base.hpp], its trampolines
    ([toolbox_trampolines.hpp]), the handle of the host
    ([src/pj_plugins/include/pj_plugins/host/toolbox_handle.hpp]) and the view of
    the host's table ([toolbox_protocol.h]).  Then what [bind] gives the plugins
    of all three families. *)

From S2P Require Import Prelude Types Host Sdk Settings Services PluginDso PluginCalls DataSource SourceRun ParserBase.

(** ** ToolboxRuntimeHostView *)

Record PJ_toolbox_runtime_host_vtable_t (W : Type) := mkToolboxRuntime {
  report_message : option (W -> Z -> string -> W);
  notify_data_changed : option (W -> W)
}.
Arguments mkToolboxRuntime {W}. Arguments report_message {W}. Arguments notify_data_changed {W}.

Module ToolboxRuntimeHost.
Section View.
Context {W : Type}.
Implicit Types (host : option (PJ_toolbox_runtime_host_vtable_t W)) (w : W).
Definition reportMessage host (level : Z) (message : string) w : W :=
  match host ≫= report_message with Some f => f w level message | None => w end.
Definition notifyDataChanged host w : W :=
  match host ≫= notify_data_changed with Some f => f w | None => w end.
End View.
End ToolboxRuntimeHost.

Definition ToolboxRuntimeHostService : Traits := mkTraits "pj.toolbox_runtime.v1" 1.

(** ** ToolboxPluginBase *)

Record ToolboxPluginBase := mkToolbox {
  service_registry_ : ServiceRegistry;
  toolbox_host_view_ : option PJ_service_t;
  runtime_host_view_ : option PJ_service_t;
  colormap_view_ : option PJ_service_t;
  object_read_host_view_ : option PJ_service_t;
  config_buf_ : string
}.

Module ToolboxBase.
Definition make : ToolboxPluginBase := mkToolbox None None None None None "".

(** [if (auto v = services.get<...>()) view = *v;] *)
Definition acquired (services : ServiceRegistry) (t : Traits) (view : option PJ_service_t) : option PJ_service_t :=
  match get services t with Some v => Some v | None => view end.

Definition bind (b : ToolboxPluginBase) (services : ServiceRegistry) : ToolboxPluginBase * Status :=
  match require services ToolboxHostService with
  | Err e => (b, Err e)
  | Ok host =>
      let b := mkToolbox (service_registry_ b) (Some host) (runtime_host_view_ b) (colormap_view_ b)
                 (object_read_host_view_ b) (config_buf_ b) in
      match require services ToolboxRuntimeHostService with
      | Err e => (b, Err e)
      | Ok runtime =>
          (mkToolbox services (toolbox_host_view_ b) (Some runtime)
             (acquired services ColorMapRegistryService (colormap_view_ b))
             (acquired services ToolboxObjectReadHostService (object_read_host_view_ b)) (config_buf_ b), okStatus)
      end
  end.

Definition with_config_buf (b : ToolboxPluginBase) (text : string) : ToolboxPluginBase :=
  mkToolbox (service_registry_ b) (toolbox_host_view_ b) (runtime_host_view_ b) (colormap_view_ b)
    (object_read_host_view_ b) text.

Definition services (b : ToolboxPluginBase) : ServiceRegistry := service_registry_ b.
Definition toolboxHost (b : ToolboxPluginBase) : option PJ_service_t := toolbox_host_view_ b.
Definition colorMapRegistry (b : ToolboxPluginBase) : option PJ_service_t := colormap_view_ b.
Definition objectReadHost (b : ToolboxPluginBase) : option PJ_service_t := object_read_host_view_ b.
Definition toolboxHostBound (b : ToolboxPluginBase) : bool := bool_decide (is_Some (toolbox_host_view_ b)).
Definition runtimeHostBound (b : ToolboxPluginBase) : bool := bool_decide (is_Some (runtime_host_view_ b)).
Definition colorMapRegistryBound (b : ToolboxPluginBase) : bool := bool_decide (is_Some (colormap_view_ b)).
End ToolboxBase.

(** The virtual methods; [P] is an object of a class derived from the base. *)
Class ToolboxPlugin (P W : Type) := {
  t_base : P -> ToolboxPluginBase;
  t_with_base : P -> ToolboxPluginBase -> P;
  capabilities : P -> Call Z;
  bind : P -> ServiceRegistry -> P * Call Status;
  saveConfig : P -> Call string;
  loadConfig : P -> string -> P * Call Status;
  getDialog : P -> Call PJ_borrowed_dialog_t;
  onDataChanged : P -> W -> P * W * Call unit;
  pluginExtension : P -> string -> Call (option Z)
}.

(** *** The trampolines and the handle *)

Module ToolboxCalls.
Section Trampolines.
Context {P W : Type} `{ToolboxPlugin P W}.
Implicit Types (self : P) (w : W).

Definition trampoline_capabilities self : Z :=
  match capabilities self with Returned c => c | Threw _ => 0 end.
Definition trampoline_bind self (registry : ServiceRegistry) : P * option unit * option PJ_error_t :=
  let '(self, r) := bind self registry in (self, (answer_of "bind" r).1, (answer_of "bind" r).2).
Definition trampoline_save_config self : P * option string * option PJ_error_t :=
  match saveConfig self with
  | Returned text =>
      let self := t_with_base self (ToolboxBase.with_config_buf (t_base self) text) in
      (self, Some (config_buf_ (t_base self)), None)
  | Threw e => (self, None, (text_answer "save_config" (Threw e)).2)
  end.
Definition trampoline_load_config self (config_json : string) : P * option unit * option PJ_error_t :=
  let '(self, r) := loadConfig self config_json in
  (self, (answer_of "load_config" r).1, (answer_of "load_config" r).2).
Definition trampoline_get_dialog self : PJ_borrowed_dialog_t :=
  match getDialog self with Returned d => d | Threw _ => no_dialog end.
Definition trampoline_on_data_changed self w : P * W := (onDataChanged self w).1.
Definition trampoline_get_plugin_extension self (id : string) : option Z :=
  match pluginExtension self id with Returned e => e | Threw _ => None end.

Definition handle_capabilities self : Z := trampoline_capabilities self.
Definition handle_bind self (registry : ServiceRegistry) : P * Status :=
  let '(self, r, err) := trampoline_bind self registry in (self, Sdk.checked r err).
Definition handle_saveConfig self : P * Expected string :=
  let '(self, r, err) := trampoline_save_config self in (self, Sdk.checked r err).
Definition handle_loadConfig self (config_json : string) : P * Status :=
  let '(self, r, err) := trampoline_load_config self config_json in (self, Sdk.checked r err).
Definition handle_getDialog self : PJ_borrowed_dialog_t := trampoline_get_dialog self.
(** A handle without an instance ignores the call. *)
Definition handle_onDataChanged (handle : option P) w : option P * W :=
  match handle with
  | None => (None, w)
  | Some self => let '(self, w) := trampoline_on_data_changed self w in (Some self, w)
  end.
Definition handle_getPluginExtension self (id : string) : option Z := trampoline_get_plugin_extension self id.

(** Every slot of the table is set; [None] is a violated assertion. *)
Definition vtableWithCreate (create : option P) (manifest : option string) : option Vtable :=
  if manifest_asserted manifest then
    Some (mkVtable PJ_TOOLBOX_PLUGIN_PROTOCOL_VERSION (8 + 10 * 8)
      (list_to_set (filter (fun s => s <> "manifest_json") toolbox_slots)) manifest
      (bool_decide (is_Some create))
      (fun created => match create with Some self => trampoline_capabilities self | None => 0 end) None)
  else None.
End Trampolines.

(** A toolbox that overrides what it has to, and nothing else: [D] are its
    members, [caps] its capabilities. *)
Section Plain.
Context {D W : Type} (caps : Z).
Instance plain : ToolboxPlugin (ToolboxPluginBase * D) W := {|
  t_base := fst;
  t_with_base p b := (b, p.2);
  capabilities p := Returned caps;
  bind p services := let '(b, status) := ToolboxBase.bind p.1 services in ((b, p.2), Returned status);
  saveConfig p := Returned "{}";
  loadConfig p config_json := (p, Returned okStatus);
  getDialog p := Returned no_dialog;
  onDataChanged p w := (p, w, Returned ());
  pluginExtension p id := Returned None
|}.
End Plain.
End ToolboxCalls.

(** The table that the export macro makes passes every check of the host. *)
Lemma exported_toolbox_loads {P W} `{ToolboxPlugin P W} (create : option P) manifest vt abi source parser dialog :
  ToolboxCalls.vtableWithCreate create manifest = Some vt ->
  resolve_toolbox (mkDso abi source parser (Ok (Some vt)) dialog) = Ok vt.
Proof.
  unfold ToolboxCalls.vtableWithCreate. destruct (manifest_asserted manifest) eqn:Hm; [|done]. intros Hvt.
  apply (inj Some) in Hvt. subst vt. destruct manifest as [text|]; [|done]. reflexivity.
Qed.

(** ** What [bind] acquires *)

(** The registry has the service, at a version that is high enough. *)
Definition offers (b : ServiceRegistryBuilder) (t : Traits) (svc : PJ_service_t) : Prop :=
  exists version, b !! kName t = Some (mkEntry version svc) /\ kMinVersion t <= version.

(** After a [bind] that succeeded every view is what the registry offers under
    its name, and every mandatory one is there; one that fails names a mandatory
    service that is not offered. *)
Definition binds (b : ServiceRegistryBuilder) (mandatory : list Traits) (views : list (Traits * option PJ_service_t))
    (status : Status) : Prop :=
  match status with
  | Ok _ => Forall (fun t => exists svc, offers b t svc) mandatory
      /\ Forall (fun '(t, v) => forall svc, v = Some svc <-> offers b t svc) views
  | Err e => exists t, t ∈ mandatory /\ (forall svc, ~ offers b t svc)
      /\ String.prefix ("service unavailable: " +:+ kName t) e = true
  end.

Lemma prefix_cons c p s : String.prefix (String c p) (String c s) = String.prefix p s.
Proof. cbn. by destruct (Ascii.ascii_dec c c) as [_|[]]. Qed.

Lemma prefix_append p s : String.prefix p (p +:+ s) = true.
Proof.
  induction p as [|c p IH]; [by destruct s|]. change (String c p +:+ s) with (String c (p +:+ s)).
  by rewrite prefix_cons.
Qed.

Lemma prefix_append_2 p q s : String.prefix (p +:+ q) (p +:+ q +:+ s) = true.
Proof.
  induction p as [|c p IH]; [apply (prefix_append q)|].
  change (String.prefix (String c (p +:+ q)) (String c (p +:+ q +:+ s)) = true). by rewrite prefix_cons.
Qed.

Lemma require_offers b t : Services.reachable b ->
  match require (view b) t with
  | Ok svc => offers b t svc
  | Err e => (forall svc, ~ offers b t svc) /\ String.prefix ("service unavailable: " +:+ kName t) e = true
  end.
Proof.
  intros Hb. destruct (service_resolved b t Hb) as [Hr _]. rewrite Hr. unfold offers.
  destruct (b !! kName t) as [[version svc]|] eqn:He; cbn [en_protocol_version en_service].
  - clear Hr. destruct (decide (kMinVersion t <= version)) as [Hv|Hv]; [by exists version|]. split; [|apply prefix_append_2].
    intros svc' (v & Hv' & Hle). apply (inj Some) in Hv'. injection Hv' as <- <-. lia.
  - split; [|apply prefix_append_2]. by intros svc (v & ? & _).
Qed.

Lemma get_offers b t : Services.reachable b -> forall svc, get (view b) t = Some svc <-> offers b t svc.
Proof.
  intros Hb svc. destruct (service_resolved b t Hb) as [_ ->]. pose proof (require_offers b t Hb) as Hr.
  destruct (require (view b) t) as [svc'|e].
  - destruct Hr as (v & He & Hv). split; [intros [= <-]; by exists v|].
    intros (v' & He' & _). rewrite He in He'. apply (inj Some) in He'. by injection He' as _ ->.
  - split; [done|]. intros Ho. by destruct (proj1 Hr svc).
Qed.

Lemma required_shown b t svc : Services.reachable b -> require (view b) t = Ok svc ->
  forall svc', Some svc = Some svc' <-> offers b t svc'.
Proof.
  intros Hb Hr svc'. rewrite <-(get_offers b t Hb). destruct (service_resolved b t Hb) as [_ ->]. by rewrite Hr.
Qed.

Lemma optional_shown b t : Services.reachable b ->
  forall svc, match get (view b) t with Some v => Some v | None => None end = Some svc <-> offers b t svc.
Proof. intros Hb svc. rewrite <-(get_offers b t Hb). by destruct (get (view b) t). Qed.

Lemma required_missing b t e mandatory views : Services.reachable b -> require (view b) t = Err e -> t ∈ mandatory ->
  binds b mandatory views (Err e).
Proof. intros Hb Hr Hin. pose proof (require_offers b t Hb) as Ho. rewrite Hr in Ho. by exists t. Qed.

Lemma required_offered b t svc : Services.reachable b -> require (view b) t = Ok svc -> exists svc, offers b t svc.
Proof. intros Hb Hr. pose proof (require_offers b t Hb) as Ho. rewrite Hr in Ho. by exists svc. Qed.

(** A mandatory service that is missing; the views of a [bind] that succeeded. *)
Ltac missing Hb Hr := apply (required_missing _ _ _ _ _ Hb Hr); set_solver.
Ltac views :=
  split; repeat (apply Forall_cons; split); try apply Forall_nil_2;
  [> first [eapply required_offered; eassumption|apply required_shown; assumption|apply optional_shown; assumption] ..].

(** C23: Whatever the host registered and removed, [bind] gives a fresh plugin of
    each of the three families every service the host offers at the version the
    plugin needs, and no other; it fails exactly if a mandatory one is not
    offered, and names it. *)
Theorem bind_acquires {O} b : Services.reachable b ->
  (let '(p, status) := Base.bind Base.make (view b) in
   binds b [SourceWriteHostService; DataSourceRuntimeHostService]
     [(SourceWriteHostService, DataSource.write_host_view_ p); (DataSourceRuntimeHostService, DataSource.runtime_host_view_ p);
      (SourceObjectWriteHostService, DataSource.object_write_host_view_ p)] status)
  /\ (let '(p, status) := Parser.bind (O := O) Parser.make (view b) in
      binds b [ParserWriteHostService]
        [(ParserWriteHostService, ParserBase.write_host_view_ p);
         (ParserObjectWriteHostService, ParserBase.object_write_host_view_ p)] status)
  /\ (let '(p, status) := ToolboxBase.bind ToolboxBase.make (view b) in
      binds b [ToolboxHostService; ToolboxRuntimeHostService]
        [(ToolboxHostService, toolbox_host_view_ p); (ToolboxRuntimeHostService, runtime_host_view_ p);
         (ColorMapRegistryService, colormap_view_ p); (ToolboxObjectReadHostService, object_read_host_view_ p)] status).
Proof.
  intros Hb. split; [|split].
  - unfold Base.bind. destruct (require _ SourceWriteHostService) as [write|e] eqn:Hw; [|missing Hb Hw].
    destruct (require _ DataSourceRuntimeHostService) as [runtime|e] eqn:Hr; [views|missing Hb Hr].
  - unfold Parser.bind. destruct (require _ ParserWriteHostService) as [write|e] eqn:Hw; [views|missing Hb Hw].
  - unfold ToolboxBase.bind. destruct (require _ ToolboxHostService) as [host|e] eqn:Hh; [|missing Hb Hh].
    destruct (require _ ToolboxRuntimeHostService) as [runtime|e] eqn:Hr; [views|missing Hb Hr].
Qed.

Lemma bind_acquires_witness :
  binds source_services [SourceWriteHostService; DataSourceRuntimeHostService]
    [(SourceWriteHostService, Some (mkService (Some 1) (Some 2)));
     (DataSourceRuntimeHostService, Some (mkService (Some 3) (Some 4)));
     (SourceObjectWriteHostService, None)] okStatus
  /\ exists e, binds source_services [ToolboxHostService; ToolboxRuntimeHostService]
    [(ToolboxHostService, None); (ToolboxRuntimeHostService, None); (ColorMapRegistryService, None);
     (ToolboxObjectReadHostService, None)] (Err e).
Proof.
  assert (Hb : Services.reachable source_services) by (do 2 apply reach_register; apply reach_empty).
  destruct (bind_acquires (O := unit) source_services Hb) as (Hsource & _ & Htoolbox).
  split; [exact Hsource|]. eexists. exact Htoolbox.
Defined.
