(* ===== verification/DialogBase.v ===== *)
(** * DialogBase: the dialogs of plugins

    Models [DialogPluginBase] of
    [src/pj_plugins/dialog_protocol/include/pj_plugins/sdk/dialog_plugin_base.hpp]
    with its trampolines, [DialogPluginTyped] ([dialog_plugin_typed.hpp]) as a
    class derived from it, and the handle of the host
    ([host/dialog_handle.hpp]).  Names and texts cross the table as C strings.
    JSON texts are of the type [text] of [Json]. *)

From S2P Require Import Prelude Types Host Sdk Settings Float64 Json WidgetEvents WidgetData WidgetReadback PluginDso PluginCalls.

(** Both files have a [Call]: here it is a call that may throw. *)
Abbreviation Call := Settings.Call.

(** ** DialogPluginBase *)

(** JSON as a C string: [c_text] is the text up to its first null character,
    [no_members] the literal [{}]. *)
Class CText (text : Type) `{JsonText text} := {
  c_text : text -> text;
  no_members : text
}.
(** [dump] escapes null characters. *)
Class CTextLaws (text : Type) `{CText text} : Prop := {
  c_text_dump (j : json) (t : text) : json_dump j = Some t -> c_text t = t
}.

Record DialogPluginBase (text : Type) := mkDialog {
  manifest_buf_ : string;
  ui_content_buf_ : string;
  widget_data_buf_ : option text;
  config_buf_ : text;
  manifest_cached_ : bool;
  ui_content_cached_ : bool
}.
Arguments mkDialog {text}. Arguments manifest_buf_ {text}. Arguments ui_content_buf_ {text}.
Arguments widget_data_buf_ {text}. Arguments config_buf_ {text}. Arguments manifest_cached_ {text}.
Arguments ui_content_cached_ {text}.

(** The virtual methods; [P] is an object of a class derived from the base. *)
Class DialogPlugin (P text : Type) := {
  d_base : P -> DialogPluginBase text;
  d_with_base : P -> DialogPluginBase text -> P;
  manifest : P -> Call string;
  ui_content : P -> Call string;
  widget_data : P -> P * Call text;
  onWidgetEvent : P -> string -> text -> P * Call bool;
  onTick : P -> P * Call bool;
  onAccepted : P -> text -> P * Call unit;
  onRejected : P -> P * Call unit;
  saveConfig : P -> Call text;
  loadConfig : P -> text -> P * Call bool
}.

Section Dialogs.
Context {P text : Type} `{DialogPlugin P text} `{CText text}.
Implicit Types (self : P).

Definition storeError (code : Z) (message : string) : PJ_error_t := Host.fillError code "dialog" message.

(** A flag, or what the two [catch] clauses leave. *)
Definition flag_answer (call : string) (r : Call bool) : bool * option PJ_error_t :=
  match r with
  | Returned b => (b, None)
  | Threw (Some e) => (false, Some (storeError 1 (call +:+ " threw: " +:+ e)))
  | Threw None => (false, Some (storeError 1 ("unknown exception in " +:+ call)))
  end.

Definition with_manifest self (m : string) : P :=
  let b := d_base self in
  d_with_base self (mkDialog m (ui_content_buf_ b) (widget_data_buf_ b) (config_buf_ b) true (ui_content_cached_ b)).
Definition with_ui_content self (u : string) : P :=
  let b := d_base self in
  d_with_base self (mkDialog (manifest_buf_ b) u (widget_data_buf_ b) (config_buf_ b) (manifest_cached_ b) true).
Definition with_widget_data self (t : text) : P :=
  let b := d_base self in
  d_with_base self (mkDialog (manifest_buf_ b) (ui_content_buf_ b) (Some t) (config_buf_ b) (manifest_cached_ b)
    (ui_content_cached_ b)).
Definition with_config self (t : text) : P :=
  let b := d_base self in
  d_with_base self (mkDialog (manifest_buf_ b) (ui_content_buf_ b) (widget_data_buf_ b) t (manifest_cached_ b)
    (ui_content_cached_ b)).

(** *** The trampolines *)

Definition trampoline_get_manifest self : P * string :=
  if manifest_cached_ (d_base self) then (self, manifest_buf_ (d_base self)) else
  match manifest self with
  | Returned m => let self := with_manifest self m in (self, manifest_buf_ (d_base self))
  | Threw _ => (self, "{}")
  end.
Definition trampoline_get_ui_content self : P * string :=
  if ui_content_cached_ (d_base self) then (self, ui_content_buf_ (d_base self)) else
  match ui_content self with
  | Returned u => let self := with_ui_content self u in (self, ui_content_buf_ (d_base self))
  | Threw _ => (self, "")
  end.
Definition trampoline_get_widget_data self : P * text :=
  let '(self, r) := widget_data self in
  match r with
  | Returned t => (with_widget_data self t, t)
  | Threw _ => (self, no_members)
  end.
(** The arguments arrive as C strings. *)
Definition trampoline_on_widget_event self (widget_name : string) (event_json : text) : P * (bool * option PJ_error_t) :=
  let '(self, r) := onWidgetEvent self (Sdk.c_string widget_name) (c_text event_json) in
  (self, flag_answer "on_widget_event" r).
Definition trampoline_on_tick self : P * (bool * option PJ_error_t) :=
  let '(self, r) := onTick self in (self, flag_answer "on_tick" r).
Definition trampoline_on_accepted self (final_state_json : text) : P :=
  (onAccepted self (c_text final_state_json)).1.
Definition trampoline_on_rejected self : P := (onRejected self).1.
Definition trampoline_save_config self : P * option text * option PJ_error_t :=
  match saveConfig self with
  | Returned t => (with_config self t, Some t, None)
  | Threw (Some e) => (self, None, Some (storeError 1 ("save_config threw: " +:+ e)))
  | Threw None => (self, None, Some (storeError 1 "unknown exception in save_config"))
  end.
Definition trampoline_load_config self (config_json : text) : P * (bool * option PJ_error_t) :=
  let '(self, r) := loadConfig self config_json in (self, flag_answer "load_config" r).

(** *** [DialogHandle]

    It passes no [out_error]: only the flag comes back. *)

Definition handle_manifest self : P * string :=
  let '(self, m) := trampoline_get_manifest self in (self, Sdk.c_string m).
Definition handle_ui_content self : P * string :=
  let '(self, u) := trampoline_get_ui_content self in (self, Sdk.c_string u).
Definition handle_widget_data self : P * text :=
  let '(self, t) := trampoline_get_widget_data self in (self, c_text t).
Definition handle_sendEvent self (widget_name : string) (event_json : text) : P * bool :=
  let '(self, (handled, _)) := trampoline_on_widget_event self widget_name event_json in (self, handled).
Definition handle_tick self : P * bool := let '(self, (changed, _)) := trampoline_on_tick self in (self, changed).
Definition handle_accept self (final_state_json : text) : P := trampoline_on_accepted self final_state_json.
Definition handle_reject self : P := trampoline_on_rejected self.
(** The empty string of a failure is [None]. *)
Definition handle_save_config self : P * option text :=
  let '(self, t, _) := trampoline_save_config self in (self, t).
Definition handle_load_config self (config_json : text) : P * bool :=
  let '(self, (loaded, _)) := trampoline_load_config self config_json in (self, loaded).

(** The table, with the manifest of the two-argument macro, or without one. *)
Definition vtableWithCreate (create : option P) (manifest_json : option string) : Vtable :=
  mkVtable PJ_DIALOG_PROTOCOL_VERSION dialog_manifest_end (list_to_set dialog_slots) manifest_json
    (bool_decide (is_Some create)) (fun _ => 0)
    (match create with Some self => Some (trampoline_get_manifest self).2 | None => None end).
End Dialogs.

(** ** DialogPluginTyped *)

(** What the author of a typed dialog writes: [D] are the members, [typed] the
    virtual method of a call. *)
Class TypedDialogCode (D text : Type) := {
  typed : WidgetEvents.Call -> D -> D * Call bool;
  o_manifest : D -> Call string;
  o_ui_content : D -> Call string;
  o_widget_data : D -> D * Call text;
  o_onTick : D -> D * Call bool;
  o_onAccepted : D -> text -> D * Call unit;
  o_onRejected : D -> D * Call unit;
  o_saveConfig : D -> Call text;
  o_loadConfig : D -> text -> D * Call bool
}.

Record DialogPluginTyped (text D : Type) := mkTyped { td_base : DialogPluginBase text; td_plugin : D }.
Arguments mkTyped {text D}. Arguments td_base {text D}. Arguments td_plugin {text D}.

Module Typed.
Section Typed.
Context {D text : Type} `{JsonText text} `{TypedDialogCode D text}.
Implicit Types (s : DialogPluginTyped text D).

Definition on_plugin {A} s (r : D * A) : DialogPluginTyped text D * A := (mkTyped (td_base s) r.1, r.2).

Definition onWidgetEvent s (widget_name : string) (event_json : text) : DialogPluginTyped text D * Call bool :=
  match dispatch widget_name (WidgetEvent.make event_json) with
  | Some call => on_plugin s (typed call (td_plugin s))
  | None => (s, Returned false)
  end.

#[global] Instance typed_dialog : DialogPlugin (DialogPluginTyped text D) text := {|
  d_base := td_base;
  d_with_base s b := mkTyped b (td_plugin s);
  manifest s := o_manifest (td_plugin s);
  ui_content s := o_ui_content (td_plugin s);
  widget_data s := on_plugin s (o_widget_data (td_plugin s));
  DialogBase.onWidgetEvent := onWidgetEvent;
  onTick s := on_plugin s (o_onTick (td_plugin s));
  onAccepted s t := on_plugin s (o_onAccepted (td_plugin s) t);
  onRejected s := on_plugin s (o_onRejected (td_plugin s));
  saveConfig s := o_saveConfig (td_plugin s);
  loadConfig s t := on_plugin s (o_loadConfig (td_plugin s) t)
|}.
End Typed.
End Typed.

(** ** An event from the host to the method of the plugin *)

(** A method that throws has not handled its event. *)
Definition handled (r : Call bool) : bool := match r with Returned b => b | Threw _ => false end.

(** C24: Whatever the host sends through the handle of a typed dialog, the plugin
    gets exactly the call of that event, with its arguments and the name of the
    widget; the members are left as its method left them, even if it threw, and
    the host learns whether the event was handled.  A value that is not finite is
    no call. *)
Theorem event_arrives {D text} `{JsonTextLaws text} `{!CText text} `{!CTextLaws text} `{!TypedDialogCode D text}
    (s : DialogPluginTyped text D) w e t :
  event_ok e -> build e = Some t -> Sdk.c_string w = w ->
  handle_sendEvent s w t =
  match intended w e with
  | Some call => (mkTyped (td_base s) (typed call (td_plugin s)).1, handled (typed call (td_plugin s)).2)
  | None => (s, false)
  end.
Proof.
  intros Hok Ht Hw. unfold handle_sendEvent, trampoline_on_widget_event. cbn [onWidgetEvent Typed.typed_dialog].
  assert (Hc : c_text t = t).
  { destruct e; apply (c_text_dump _ t Ht). }
  rewrite Hw, Hc. unfold Typed.onWidgetEvent. rewrite (dispatch_build e w t Hok Ht).
  destruct (intended w e) as [call|]; [|done]. unfold Typed.on_plugin.
  by destruct (typed call (td_plugin s)) as [d [b|[e'|]]].
Qed.

(** *** The texts of a dialog

    A host asks for the manifest and the layout whenever it likes. *)

Inductive DialogCall (text : Type) :=
| AskManifest | AskUiContent | AskWidgetData | SendEvent (w : string) (t : text) | Tick | Accept (t : text) | Reject
| SaveConfig | LoadConfig (t : text).
Arguments AskManifest {text}. Arguments AskUiContent {text}. Arguments AskWidgetData {text}.
Arguments SendEvent {text}. Arguments Tick {text}. Arguments Accept {text}. Arguments Reject {text}.
Arguments SaveConfig {text}. Arguments LoadConfig {text}.

Section Cached.
Context {D text : Type} `{CText text} `{!TypedDialogCode D text}.
Implicit Types (s : DialogPluginTyped text D).

Definition after s (c : DialogCall text) : DialogPluginTyped text D :=
  match c with
  | AskManifest => (handle_manifest s).1
  | AskUiContent => (handle_ui_content s).1
  | AskWidgetData => (handle_widget_data s).1
  | SendEvent w t => (handle_sendEvent s w t).1
  | Tick => (handle_tick s).1
  | Accept t => handle_accept s t
  | Reject => handle_reject s
  | SaveConfig => (handle_save_config s).1
  | LoadConfig t => (handle_load_config s t).1
  end.

(** What is cached stays. *)
Lemma after_keeps s c :
  (manifest_cached_ (td_base s) = true ->
    manifest_cached_ (td_base (after s c)) = true /\ manifest_buf_ (td_base (after s c)) = manifest_buf_ (td_base s))
  /\ (ui_content_cached_ (td_base s) = true ->
    ui_content_cached_ (td_base (after s c)) = true
    /\ ui_content_buf_ (td_base (after s c)) = ui_content_buf_ (td_base s)).
Proof.
  destruct c; cbn [after];
    unfold handle_manifest, trampoline_get_manifest, handle_ui_content, trampoline_get_ui_content, handle_widget_data,
      trampoline_get_widget_data, handle_sendEvent, trampoline_on_widget_event, handle_tick, trampoline_on_tick,
      handle_accept, trampoline_on_accepted, handle_reject, trampoline_on_rejected, handle_save_config,
      trampoline_save_config, handle_load_config, trampoline_load_config;
    cbn [d_base d_with_base manifest ui_content widget_data onWidgetEvent onTick onAccepted onRejected saveConfig
      loadConfig Typed.typed_dialog].
  - split; intros Hc; rewrite ?Hc; [done|]. destruct (manifest_cached_ _); [done|].
    by destruct (o_manifest _).
  - split; intros Hc; rewrite ?Hc; [|done]. destruct (ui_content_cached_ _); [done|].
    by destruct (o_ui_content _).
  - unfold Typed.on_plugin. by destruct (o_widget_data _) as [d [t|e]].
  - unfold Typed.onWidgetEvent. destruct (dispatch _ _) as [call|]; [|done].
    unfold Typed.on_plugin. by destruct (typed _ _) as [d [b|[e|]]].
  - unfold Typed.on_plugin. by destruct (o_onTick _) as [d [b|[e|]]].
  - done.
  - done.
  - by destruct (o_saveConfig _) as [t|[e|]].
  - unfold Typed.on_plugin. by destruct (o_loadConfig _ _) as [d [b|[e|]]].
Qed.

(** Once the plugin gave its manifest and its layout, every later call gets the
    same, whatever happened to the dialog in between. *)
Theorem texts_cached s calls m u :
  o_manifest (td_plugin s) = Returned m -> manifest_cached_ (td_base s) = false ->
  o_ui_content (td_plugin s) = Returned u -> ui_content_cached_ (td_base s) = false ->
  let s1 := (handle_ui_content (handle_manifest s).1).1 in
  (handle_manifest s).2 = Sdk.c_string m /\ (handle_manifest (foldl after s1 calls)).2 = Sdk.c_string m
  /\ (handle_ui_content (foldl after s1 calls)).2 = Sdk.c_string u.
Proof.
  intros Hm Hmc Hu Huc s1.
  assert (Hinv : forall cs s', manifest_cached_ (td_base s') = true -> manifest_buf_ (td_base s') = m ->
    ui_content_cached_ (td_base s') = true -> ui_content_buf_ (td_base s') = u ->
    let s'' := foldl after s' cs in
    (handle_manifest s'').2 = Sdk.c_string m /\ (handle_ui_content s'').2 = Sdk.c_string u).
  { intros cs. induction cs as [|c cs IH]; intros s' H1 H2 H3 H4; cbn [foldl].
    - unfold handle_manifest, trampoline_get_manifest, handle_ui_content, trampoline_get_ui_content.
      cbn [d_base Typed.typed_dialog]. rewrite H1, H3. cbn [snd]. by rewrite H2, H4.
    - destruct (after_keeps s' c) as [Ka Kb]. destruct (Ka H1) as [? Hma]. destruct (Kb H3) as [? Hub].
      apply IH; [done|by rewrite Hma|done|by rewrite Hub]. }
  assert (H1 : td_base s1 = mkDialog m u (widget_data_buf_ (td_base s)) (config_buf_ (td_base s)) true true
               /\ (handle_manifest s).2 = Sdk.c_string m).
  { unfold s1, handle_manifest, trampoline_get_manifest. cbn [d_base d_with_base manifest Typed.typed_dialog].
    rewrite Hmc, Hm. split; [|done]. unfold handle_ui_content, trampoline_get_ui_content.
    cbn [fst d_base d_with_base with_manifest ui_content Typed.typed_dialog td_base td_plugin ui_content_cached_].
    unfold with_manifest. cbn [d_base d_with_base Typed.typed_dialog td_base td_plugin ui_content_cached_].
    by rewrite Huc, Hu. }
  destruct H1 as [Hb Hman]. split; [exact Hman|]. apply Hinv; by rewrite Hb.
Qed.
End Cached.

(** The table of a dialog passes the checks of the host, with or without a
    manifest. *)
Lemma exported_dialog_loads {P text} `{DialogPlugin P text} (create : option P) manifest abi source parser toolbox :
  resolveDialogVtable (mkDso abi source parser toolbox (Ok (Some (vtableWithCreate create manifest))))
  = Ok (vtableWithCreate create manifest).
Proof. reflexivity. Qed.

(** ** A dialog that counts *)

Module Counting.
Import ValueText.
#[export] Instance value_ctext : CText json := {| c_text t := t; no_members := JObject ∅ |}.
#[export] Instance value_ctext_laws : CTextLaws json.
Proof. by constructor. Qed.

(** It adds what its slider says and throws when its button is clicked. *)
#[export] Instance counting : TypedDialogCode Z json := {|
  typed call d :=
    match call with
    | OnValueChangedInt _ v => (d + v, Returned true)
    | OnClicked _ => (0, Threw (Some "reset"))
    | _ => (d, Returned false)
    end;
  o_manifest d := Returned "{}";
  o_ui_content d := Returned "<ui/>";
  o_widget_data d := (d, Returned (JObject ∅));
  o_onTick d := (d, Returned false);
  o_onAccepted d t := (d, Returned ());
  o_onRejected d := (d, Returned ());
  o_saveConfig d := Returned (JInt d);
  o_loadConfig d t := (d, Returned false)
|}.
Definition dialog : DialogPluginTyped json Z := mkTyped (mkDialog "" "" None (JObject ∅) false false) 40.

Lemma event_arrives_witness : exists t1 t2 : json,
  build (ValueChangedInt 2) = Some t1 /\ build Clicked = Some t2
  /\ handle_sendEvent dialog "slider" t1 = (mkTyped (td_base dialog) 42, true)
  /\ handle_sendEvent dialog "reset" t2 = (mkTyped (td_base dialog) 0, false).
Proof.
  do 2 eexists. split; [reflexivity|]. split; [reflexivity|]. split.
  - rewrite (event_arrives dialog "slider" (ValueChangedInt 2)) by done. reflexivity.
  - rewrite (event_arrives dialog "reset" Clicked) by done. reflexivity.
Defined.

(** A name ends at its null character: the plugin sees another widget. *)
Example name_cut_short :
  Sdk.c_string ("slider" +:+ String Ascii.zero "2") = "slider".
Proof. reflexivity. Qed.
End Counting.
