(* ===== verification/Handles.v ===== *)
(** * Handles: who destroys a plugin instance, and who keeps its library

    Models the ownership of the handles of the host, the same in the four
    families ([data_source_handle.hpp], [message_parser_handle.hpp],
    [toolbox_handle.hpp] under [src/pj_plugins/include/pj_plugins/host/], and
    [dialog_handle.hpp], which also borrows), and of the library objects they are
    created from ([data_source_library.cpp], [message_parser_library.cpp],
    [toolbox_library.cpp], [dialog_library.cpp]).  A library stays loaded while a
    [shared_ptr] to it is left.  To call into one that is not, or to destroy an
    instance twice, is undefined. *)

From S2P Require Import Prelude.

(** ** State *)

(** A table is known by the library it lies in. *)
Record Handle := mkHandle {
  vt_ : option Z;
  ctx_ : option Z;
  owned_ : bool;
  library_owner_ : option Z
}.

Record LibraryObject := mkLibraryObject { lo_handle : option Z; lo_vtable : option Z }.

(** The objects in scope; the instances that live, with the library of their
    code; and the instances destroyed, in order. *)
Record World := mkWorld {
  libs : gmap Z LibraryObject;
  handles : gmap Z Handle;
  instances : gmap Z Z;
  destroyed : list Z;
  next_library : Z;
  next_instance : Z
}.

Definition start : World := mkWorld ∅ ∅ ∅ [] 0 0.

Definition with_libs (w : World) (m : gmap Z LibraryObject) : World :=
  mkWorld m (handles w) (instances w) (destroyed w) (next_library w) (next_instance w).
Definition with_handles (w : World) (m : gmap Z Handle) : World :=
  mkWorld (libs w) m (instances w) (destroyed w) (next_library w) (next_instance w).

(** A [shared_ptr] to the library is left. *)
Definition refers {A} (m : gmap Z A) (f : A -> option Z) (l : Z) : bool :=
  existsb (fun kv => bool_decide (f kv.2 = Some l)) (map_to_list m).
Definition loaded (w : World) (l : Z) : bool :=
  refers (libs w) lo_handle l || refers (handles w) library_owner_ l.

(** ** The libraries *)

Definition no_library : LibraryObject := mkLibraryObject None None.

Definition reset (lib : LibraryObject) : LibraryObject := if decide (lo_handle lib = None) then lib else no_library.

(** [load], which succeeded: a library of its own, also for a path that is loaded
    already, since [dlopen] counts. *)
Definition load (w : World) (o : Z) : World :=
  mkWorld (<[o := mkLibraryObject (Some (next_library w)) (Some (next_library w))]> (libs w)) (handles w)
    (instances w) (destroyed w) (next_library w + 1) (next_instance w).

(** The source of a move keeps neither the pointer nor the table. *)
Definition move_library (w : World) (o from : Z) : option World :=
  other ← libs w !! from;
  Some (with_libs w (<[o := mkLibraryObject (lo_handle other) (lo_vtable other)]> (<[from := no_library]> (libs w)))).
Definition assign_library (w : World) (o from : Z) : option World :=
  if decide (o = from) then Some w else
  self ← libs w !! o;
  let w := with_libs w (<[o := reset self]> (libs w)) in
  other ← libs w !! from;
  Some (with_libs w (<[o := mkLibraryObject (lo_handle other) (lo_vtable other)]> (<[from := no_library]> (libs w)))).
(** The destructor resets; then the members go. *)
Definition drop_library (w : World) (o : Z) : option World :=
  self ← libs w !! o;
  Some (with_libs (with_libs w (<[o := reset self]> (libs w))) (delete o (libs w))).

(** ** The handles *)

(** A call through a table whose library may be gone. *)
Definition call (w : World) (vt : Z) : option unit := if loaded w vt then Some () else None.

(** The constructor; [made] is whether [create] gave an instance. *)
Definition make_handle (w : World) (h : Z) (vt library_owner : option Z) (made : bool) : option World :=
  match vt with
  | None => Some (with_handles w (<[h := mkHandle None None true library_owner]> (handles w)))
  | Some l =>
      call w l ;;
      if made then
        let i := next_instance w in
        Some (mkWorld (libs w) (<[h := mkHandle vt (Some i) true library_owner]> (handles w))
                (<[i := l]> (instances w)) (destroyed w) (next_library w) (i + 1))
      else Some (with_handles w (<[h := mkHandle vt None true library_owner]> (handles w)))
  end.
Definition createHandle (w : World) (h o : Z) (made : bool) : option World :=
  lib ← libs w !! o; make_handle w h (lo_vtable lib) (lo_handle lib) made.
(** [DialogHandle::borrowed] and [fromBorrowed] *)
Definition borrowed (w : World) (h : Z) (vt ctx library_owner : option Z) : World :=
  with_handles w (<[h := mkHandle vt ctx false library_owner]> (handles w)).

(** [vt->destroy(ctx)] *)
Definition destroy (w : World) (vt i : Z) : option World :=
  call w vt ;; _ ← instances w !! i;
  Some (mkWorld (libs w) (handles w) (delete i (instances w)) (destroyed w ++ [i]) (next_library w) (next_instance w)).

(** The destructor calls [destroy] while the handle still holds its library. *)
Definition drop_handle (w : World) (h : Z) : option World :=
  self ← handles w !! h;
  w ← match owned_ self, vt_ self, ctx_ self with
      | true, Some vt, Some i => destroy w vt i
      | _, _, _ => Some w
      end;
  Some (with_handles w (delete h (handles w))).

Definition move_handle (w : World) (h from : Z) : option World :=
  other ← handles w !! from;
  Some (with_handles w (<[h := mkHandle (vt_ other) (ctx_ other) (owned_ other) (library_owner_ other)]>
                       (<[from := mkHandle None None false None]> (handles w)))).
(** The assignment swaps. *)
Definition assign_handle (w : World) (h from : Z) : option World :=
  if decide (h = from) then Some w else
  self ← handles w !! h; other ← handles w !! from;
  Some (with_handles w (<[h := other]> (<[from := self]> (handles w)))).

(** ** Programs of the host *)

Inductive Op :=
| Load (o : Z) | Empty (o : Z) | MoveLibrary (o from : Z) | AssignLibrary (o from : Z) | DropLibrary (o : Z)
| Create (h o : Z) (made : bool) | Borrow (h : Z) (vt ctx library_owner : option Z)
| MoveHandle (h from : Z) | AssignHandle (h from : Z) | DropHandle (h : Z).

Definition apply (w : World) (op : Op) : option World :=
  match op with
  | Load o => Some (load w o)
  | Empty o => Some (with_libs w (<[o := no_library]> (libs w)))
  | MoveLibrary o from => move_library w o from
  | AssignLibrary o from => assign_library w o from
  | DropLibrary o => drop_library w o
  | Create h o made => createHandle w h o made
  | Borrow h vt ctx owner => Some (borrowed w h vt ctx owner)
  | MoveHandle h from => move_handle w h from
  | AssignHandle h from => assign_handle w h from
  | DropHandle h => drop_handle w h
  end.

(** What the scopes of C++ see to: an object is constructed where there is none,
    and used and destroyed where there is one; the owner of a borrowed dialog is
    a copy of a pointer that exists. *)
Definition in_scope (w : World) (op : Op) : Prop :=
  match op with
  | Load o | Empty o => libs w !! o = None
  | MoveLibrary o from => libs w !! o = None /\ is_Some (libs w !! from)
  | AssignLibrary o from => is_Some (libs w !! o) /\ is_Some (libs w !! from)
  | DropLibrary o => is_Some (libs w !! o)
  | Create h o _ => handles w !! h = None /\ is_Some (libs w !! o)
  | Borrow h _ _ owner => handles w !! h = None /\ (forall l, owner = Some l -> loaded w l = true)
  | MoveHandle h from => handles w !! h = None /\ is_Some (handles w !! from)
  | AssignHandle h from => is_Some (handles w !! h) /\ is_Some (handles w !! from)
  | DropHandle h => is_Some (handles w !! h)
  end.

Inductive reachable : World -> Prop :=
| reach_start : reachable start
| reach_step w op w' : reachable w -> in_scope w op -> apply w op = Some w' -> reachable w'.

(** ** Lemmas *)

Lemma refers_true {A} (m : gmap Z A) f l : refers m f l = true <-> exists k a, m !! k = Some a /\ f a = Some l.
Proof.
  unfold refers. rewrite existsb_exists. split.
  - intros ([k a] & Hin & Hf). apply bool_decide_eq_true in Hf. exists k, a. split; [|done].
    apply elem_of_map_to_list. by apply list_elem_of_In.
  - intros (k & a & Hk & Hf). exists (k, a). split; [|by apply bool_decide_eq_true].
    apply list_elem_of_In. by apply elem_of_map_to_list.
Qed.

Lemma loaded_by_handle w h hd l : handles w !! h = Some hd -> library_owner_ hd = Some l -> loaded w l = true.
Proof.
  intros Hh Hl. apply orb_true_iff. right. apply refers_true. by exists h, hd.
Qed.

Lemma loaded_by_library w o lib l : libs w !! o = Some lib -> lo_handle lib = Some l -> loaded w l = true.
Proof. intros Ho Hl. apply orb_true_iff. left. apply refers_true. by exists o, lib. Qed.

(** *** The instance a handle owns *)

Definition owns (hd : Handle) : option Z :=
  match owned_ hd, vt_ hd with true, Some _ => ctx_ hd | _, _ => None end.

(** Every instance that lives is owned by one handle, which holds its library. *)
Record held (m : gmap Z Handle) (live : gmap Z Z) : Prop := {
  held_lives h hd i : m !! h = Some hd -> owns hd = Some i ->
    exists l, live !! i = Some l /\ library_owner_ hd = Some l /\ vt_ hd = Some l;
  held_once h h' hd hd' i : m !! h = Some hd -> m !! h' = Some hd' -> owns hd = Some i -> owns hd' = Some i -> h = h';
  held_owned i l : live !! i = Some l -> exists h hd, m !! h = Some hd /\ owns hd = Some i
}.

Lemma held_idle m live h hd : held m live -> m !! h = None -> owns hd = None -> held (<[h := hd]> m) live.
Proof.
  intros [H1 H2 H3] Hh Hn. split.
  - intros k hd' i [[<- <-]|[_ Hk]]%lookup_insert_Some Ho; [by rewrite Hn in Ho|by apply (H1 k)].
  - intros k k' hd1 hd2 i [[<- <-]|[_ Hk]]%lookup_insert_Some [[<- <-]|[_ Hk']]%lookup_insert_Some Ho Ho';
      [done|by rewrite Hn in Ho|by rewrite Hn in Ho'|by apply (H2 k k' hd1 hd2 i)].
  - intros i l Hi. destruct (H3 i l Hi) as (k & hd' & Hk & Ho). exists k, hd'. split; [|done].
    rewrite lookup_insert_ne; [done|]. intros ->. by rewrite Hh in Hk.
Qed.

Lemma held_new m live h hd i l : held m live -> m !! h = None -> live !! i = None ->
  owns hd = Some i -> library_owner_ hd = Some l -> vt_ hd = Some l -> held (<[h := hd]> m) (<[i := l]> live).
Proof.
  intros [H1 H2 H3] Hh Hi Ho Hl Hv.
  assert (Hnot : forall k hd', m !! k = Some hd' -> owns hd' <> Some i).
  { intros k hd' Hk Ho'. destruct (H1 k hd' i Hk Ho') as (l' & Hl' & _). by rewrite Hi in Hl'. }
  split.
  - intros k hd' j [[<- <-]|[_ Hk]]%lookup_insert_Some Ho'.
    + rewrite Ho in Ho'. injection Ho' as <-. exists l. by rewrite lookup_insert_eq.
    + destruct (H1 k hd' j Hk Ho') as (l' & Hj & Hrest). exists l'. split; [|done].
      rewrite lookup_insert_ne; [done|]. intros ->. by rewrite Hi in Hj.
  - intros k k' hd1 hd2 j [[<- <-]|[_ Hk]]%lookup_insert_Some [[<- <-]|[_ Hk']]%lookup_insert_Some Ho1 Ho2; [done| | |].
    + rewrite Ho in Ho1. injection Ho1 as <-. by destruct (Hnot k' hd2 Hk').
    + rewrite Ho in Ho2. injection Ho2 as <-. by destruct (Hnot k hd1 Hk).
    + by apply (H2 k k' hd1 hd2 j).
  - intros j l' [[<- <-]|[Hne Hj]]%lookup_insert_Some.
    + exists h, hd. by rewrite lookup_insert_eq.
    + destruct (H3 j l' Hj) as (k & hd' & Hk & Ho'). exists k, hd'. split; [|done].
      rewrite lookup_insert_ne; [done|]. intros ->. by rewrite Hh in Hk.
Qed.

Lemma held_drop_idle m live h hd : held m live -> m !! h = Some hd -> owns hd = None -> held (delete h m) live.
Proof.
  intros [H1 H2 H3] Hh Hn. split.
  - intros k hd' i [_ Hk]%lookup_delete_Some. by apply (H1 k).
  - intros k k' hd1 hd2 i [_ Hk]%lookup_delete_Some [_ Hk']%lookup_delete_Some. by apply H2.
  - intros i l Hi. destruct (H3 i l Hi) as (k & hd' & Hk & Ho). exists k, hd'. split; [|done].
    apply lookup_delete_Some. split; [|done]. intros ->. rewrite Hh in Hk. injection Hk as <-. by rewrite Hn in Ho.
Qed.

Lemma held_drop m live h hd i : held m live -> m !! h = Some hd -> owns hd = Some i -> held (delete h m) (delete i live).
Proof.
  intros [H1 H2 H3] Hh Ho. split.
  - intros k hd' j [Hne Hk]%lookup_delete_Some Hj. destruct (H1 k hd' j Hk Hj) as (l & Hl & Hrest). exists l.
    split; [|done]. apply lookup_delete_Some. split; [|done]. intros ->. apply Hne. by apply (H2 h k hd hd' j).
  - intros k k' hd1 hd2 j [_ Hk]%lookup_delete_Some [_ Hk']%lookup_delete_Some. by apply H2.
  - intros j l [Hne Hj]%lookup_delete_Some. destruct (H3 j l Hj) as (k & hd' & Hk & Ho'). exists k, hd'.
    split; [|done]. apply lookup_delete_Some. split; [|done]. intros ->. rewrite Hh in Hk. injection Hk as <-.
    rewrite Ho in Ho'. by injection Ho' as ->.
Qed.

(** A move and a swap put what [from] owned under [h], and the other way round. *)
Lemma held_exchange m live h from hh hf : held m live -> h <> from -> m !! from = Some hf ->
  (m !! h = Some hh \/ m !! h = None /\ owns hh = None) -> held (<[h := hf]> (<[from := hh]> m)) live.
Proof.
  intros [H1 H2 H3] Hne Hf Hh.
  set (sigma k := if decide (k = h) then from else if decide (k = from) then h else k).
  assert (Hback : forall k hd i, <[h := hf]> (<[from := hh]> m) !! k = Some hd -> owns hd = Some i ->
    m !! sigma k = Some hd).
  { intros k hd i Hk Ho. unfold sigma. repeat case_decide; subst.
    - rewrite lookup_insert_eq in Hk. by injection Hk as <-.
    - rewrite lookup_insert_ne, lookup_insert_eq in Hk by done. injection Hk as <-.
      destruct Hh as [?|[_ Hn]]; [done|by rewrite Hn in Ho].
    - by rewrite !lookup_insert_ne in Hk by done. }
  assert (Hinj : forall k k', sigma k = sigma k' -> k = k').
  { intros k k'. unfold sigma. repeat case_decide; congruence. }
  split.
  - intros k hd i Hk Ho. apply (H1 (sigma k)); [by apply (Hback k hd i)|done].
  - intros k k' hd1 hd2 i Hk Hk' Ho Ho'. apply Hinj.
    apply (H2 _ _ hd1 hd2 i); [by apply (Hback k hd1 i)|by apply (Hback k' hd2 i)|done..].
  - intros i l Hi. destruct (H3 i l Hi) as (k & hd & Hk & Ho). exists (sigma k), hd. split; [|done].
    unfold sigma. repeat case_decide; subst.
    + destruct Hh as [Hh|[Hh _]]; rewrite Hh in Hk; [|done]. injection Hk as ->.
      by rewrite lookup_insert_ne, lookup_insert_eq by done.
    + rewrite lookup_insert_eq. by rewrite Hf in Hk.
    + by rewrite !lookup_insert_ne by done.
Qed.

(** *** The instances there were *)

Record counted (live : gmap Z Z) (gone : list Z) (next : Z) : Prop := {
  counted_once : NoDup gone;
  counted_gone i : i ∈ gone -> live !! i = None;
  counted_all i : 0 <= i < next <-> i ∈ gone \/ is_Some (live !! i)
}.

Lemma counted_new live gone next l : counted live gone next -> 0 <= next ->
  live !! next = None /\ counted (<[next := l]> live) gone (next + 1).
Proof.
  intros [H1 H2 H3] Hnext.
  assert (Hfresh : live !! next = None).
  { destruct (live !! next) as [x|] eqn:Hx; [|done]. assert (0 <= next < next); [|lia]. apply H3. right. by exists x. }
  split; [done|]. split; [done| |].
  - intros i Hi. rewrite lookup_insert_ne; [by apply H2|]. intros ->.
    assert (0 <= i < i); [|lia]. apply H3. by left.
  - intros i. destruct (decide (i = next)) as [->|Hne].
    + rewrite lookup_insert_eq. split; [|lia]. intros _. right. by exists l.
    + rewrite lookup_insert_ne by done. rewrite <-H3. lia.
Qed.

Lemma counted_destroy live gone next i l : counted live gone next -> live !! i = Some l ->
  counted (delete i live) (gone ++ [i]) next.
Proof.
  intros [H1 H2 H3] Hi. split.
  - apply NoDup_app. split; [done|]. split; [|apply NoDup_singleton].
    intros x Hx ->%list_elem_of_singleton. rewrite (H2 i Hx) in Hi. done.
  - intros x [Hx| ->%list_elem_of_singleton]%elem_of_app; [|by rewrite lookup_delete_eq].
    destruct (decide (x = i)) as [->|Hne]; [by rewrite lookup_delete_eq|]. rewrite lookup_delete_ne by done. by apply H2.
  - intros x. rewrite H3, elem_of_app, list_elem_of_singleton. destruct (decide (x = i)) as [->|Hne].
    + rewrite lookup_delete_eq. split; [|intros _; right; by exists l]. intros _. left. by right.
    + rewrite lookup_delete_ne by done. tauto.
Qed.

(** ** Every reachable world *)

Record world_ok (w : World) : Prop := {
  ok_libs o lib : libs w !! o = Some lib -> lo_vtable lib = lo_handle lib;
  ok_held : held (handles w) (instances w);
  ok_counted : counted (instances w) (destroyed w) (next_instance w);
  ok_next : 0 <= next_instance w
}.

(** The operations on library objects only move pointers. *)
Lemma ok_with_libs w m : world_ok w -> (forall o lib, m !! o = Some lib -> lo_vtable lib = lo_handle lib) ->
  world_ok (with_libs w m).
Proof. by intros [H1 H2 H3 H4] Hm. Qed.

Lemma ok_with_handles w m : world_ok w -> held m (instances w) -> world_ok (with_handles w m).
Proof. by intros [H1 H2 H3 H4] Hm. Qed.

Lemma reset_library_ok w o self : world_ok w -> libs w !! o = Some self ->
  world_ok (with_libs w (<[o := reset self]> (libs w))).
Proof.
  intros Hok Ho. apply ok_with_libs; [done|]. intros o' lib [[<- <-]|[_ Hl]]%lookup_insert_Some.
  - unfold reset. case_decide; [by apply (ok_libs w Hok o)|done].
  - by apply (ok_libs w Hok o').
Qed.

Lemma moved_libs (m : gmap Z LibraryObject) o from other : (forall o lib, m !! o = Some lib -> lo_vtable lib = lo_handle lib) ->
  m !! from = Some other ->
  forall o' lib, <[o := mkLibraryObject (lo_handle other) (lo_vtable other)]> (<[from := no_library]> m) !! o' = Some lib ->
    lo_vtable lib = lo_handle lib.
Proof.
  intros Hm Hf o' lib [[<- <-]|[_ [[<- <-]|[_ Ho]]%lookup_insert_Some]]%lookup_insert_Some; [|done|by apply (Hm o')].
  exact (Hm from other Hf).
Qed.

Lemma createHandle_ok w h o made lib : world_ok w -> handles w !! h = None -> libs w !! o = Some lib ->
  exists w', createHandle w h o made = Some w' /\ world_ok w'.
Proof.
  intros Hok Hh Ho. unfold createHandle. rewrite Ho. cbn [mbind option_bind]. pose proof (ok_libs w Hok o lib Ho) as Hv.
  unfold make_handle. destruct (lo_vtable lib) as [l|] eqn:Hvt.
  - assert (Hl : loaded w l = true) by (by apply (loaded_by_library w o lib)).
    unfold call. rewrite Hl. cbn [mbind option_bind]. destruct made.
    + eexists. split; [reflexivity|]. destruct Hok as [H1 H2 H3 H4]. destruct (counted_new _ _ _ l H3 H4) as [Hf Hc].
      split; cbn; [done| |done|lia]. by apply (held_new _ _ _ _ _ l).
    + eexists. split; [reflexivity|]. apply ok_with_handles; [done|]. by apply held_idle; [apply ok_held|done..].
  - eexists. split; [reflexivity|]. apply ok_with_handles; [done|]. by apply held_idle; [apply ok_held|done..].
Qed.

Lemma drop_handle_ok w h hd : world_ok w -> handles w !! h = Some hd ->
  exists w', drop_handle w h = Some w' /\ world_ok w'.
Proof.
  intros Hok Hh. unfold drop_handle. rewrite Hh. cbn [mbind option_bind].
  destruct (owns hd) as [i|] eqn:Ho.
  - destruct (held_lives _ _ (ok_held w Hok) h hd i Hh Ho) as (l & Hi & Hl & Hv).
    unfold owns in Ho. rewrite Hv in Ho |- *. destruct (owned_ hd) eqn:Hown; [|done]. rewrite Ho.
    unfold destroy, call. rewrite (loaded_by_handle w h hd l Hh Hl). cbn [mbind option_bind]. rewrite Hi.
    cbn [mbind option_bind]. eexists. split; [reflexivity|]. destruct Hok as [H1 H2 H3 H4].
    split; cbn; [done| |by apply (counted_destroy _ _ _ _ l)|done].
    apply (held_drop _ _ h hd); [done..|]. unfold owns. by rewrite Hown, Hv.
  - assert (Hidle : match owned_ hd, vt_ hd, ctx_ hd with true, Some vt, Some i => destroy w vt i | _, _, _ => Some w end = Some w).
    { unfold owns in Ho. destruct (owned_ hd), (vt_ hd), (ctx_ hd); done. }
    rewrite Hidle. cbn [mbind option_bind]. eexists. split; [reflexivity|]. apply ok_with_handles; [done|].
    by apply (held_drop_idle _ _ h hd); [apply ok_held|..].
Qed.

Lemma operation_ok w op : world_ok w -> in_scope w op -> exists w', apply w op = Some w' /\ world_ok w'.
Proof.
  intros Hok Hs. destruct op; cbn [apply in_scope] in *.
  - eexists. split; [reflexivity|]. destruct Hok as [H1 H2 H3 H4]. split; cbn; [|done..].
    by intros o' lib [[<- <-]|[_ Ho]]%lookup_insert_Some; [|apply (H1 o')].
  - eexists. split; [reflexivity|]. apply ok_with_libs; [done|].
    by intros o' lib [[<- <-]|[_ Ho]]%lookup_insert_Some; [|apply (ok_libs w Hok o')].
  - destruct Hs as [Ho [other Hf]]. unfold move_library. rewrite Hf. eexists. split; [reflexivity|].
    apply ok_with_libs; [done|]. by apply moved_libs; [apply ok_libs|].
  - destruct Hs as [[self Ho] [other Hf]]. unfold assign_library. case_decide as Hd; [by exists w|].
    rewrite Ho. cbn [mbind option_bind libs with_libs].
    rewrite lookup_insert_ne, Hf by done. cbn [mbind option_bind]. eexists. split; [reflexivity|].
    apply ok_with_libs; [by apply reset_library_ok|].
    apply moved_libs; [|by rewrite lookup_insert_ne]. by apply (ok_libs _ (reset_library_ok w o self Hok Ho)).
  - destruct Hs as [self Ho]. unfold drop_library. rewrite Ho. eexists. split; [reflexivity|].
    apply ok_with_libs; [by apply reset_library_ok|]. intros o' lib [_ Hl]%lookup_delete_Some. by apply (ok_libs w Hok o').
  - destruct Hs as [Hh [lib Ho]]. by apply (createHandle_ok w h o made lib).
  - eexists. split; [reflexivity|]. apply ok_with_handles; [done|]. by apply held_idle; [apply ok_held|apply Hs|].
  - destruct Hs as [Hh [other Hf]]. unfold move_handle. rewrite Hf. eexists. split; [reflexivity|].
    apply ok_with_handles; [done|]. destruct other as [vt ctx own owner].
    apply held_exchange; [by apply ok_held| |done|by right]. intros ->. by rewrite Hh in Hf.
  - destruct Hs as [[self Hh] [other Hf]]. unfold assign_handle. case_decide as Hd; [by exists w|].
    rewrite Hh, Hf. eexists. split; [reflexivity|]. apply ok_with_handles; [done|].
    apply held_exchange; [by apply ok_held|done|done|by left].
  - destruct Hs as [self Hh]. by apply (drop_handle_ok w h self).
Qed.

Lemma handles_reachable_ok w : reachable w -> world_ok w.
Proof.
  induction 1 as [|w op w' _ IH Hs Ha].
  - split; cbn; [by intros o lib Ho; rewrite lookup_empty in Ho| | |done]; split.
    + by intros h hd i Hh; rewrite lookup_empty in Hh.
    + by intros h h' hd hd' i Hh; rewrite lookup_empty in Hh.
    + by intros i l Hi; rewrite lookup_empty in Hi.
    + apply NoDup_nil_2.
    + by intros i Hi%elem_of_nil.
    + intros i. rewrite lookup_empty, elem_of_nil. split; [lia|]. by intros [?|[? ?]].
  - destruct (operation_ok w op IH Hs) as (w2 & Ha' & Hok). rewrite Ha in Ha'. by injection Ha' as ->.
Qed.

(** C21: Whatever a host does with libraries and handles within their scopes, it
    never calls into a library that is unloaded and never destroys an instance
    twice: every instance it created lives, owned by exactly one handle and with
    its library loaded, or was destroyed once; a borrowed dialog is destroyed by
    nobody but its owner; and when no handle is left, every instance was
    destroyed. *)
Theorem instances_owned w : reachable w ->
  (forall op, in_scope w op -> is_Some (apply w op))
  /\ NoDup (destroyed w)
  /\ (forall i, 0 <= i < next_instance w ->
        i ∈ destroyed w \/ exists l, instances w !! i = Some l /\ loaded w l = true
          /\ exists h hd, handles w !! h = Some hd /\ owns hd = Some i
             /\ forall h' hd', handles w !! h' = Some hd' -> owns hd' = Some i -> h' = h)
  /\ (forall i, i ∈ destroyed w -> 0 <= i < next_instance w /\ instances w !! i = None)
  /\ (handles w = ∅ -> forall i, 0 <= i < next_instance w -> i ∈ destroyed w).
Proof.
  intros Hok%handles_reachable_ok.
  assert (Hall : forall i, 0 <= i < next_instance w ->
    i ∈ destroyed w \/ exists l, instances w !! i = Some l /\ loaded w l = true
      /\ exists h hd, handles w !! h = Some hd /\ owns hd = Some i
         /\ forall h' hd', handles w !! h' = Some hd' -> owns hd' = Some i -> h' = h).
  { intros i [Hi|[l Hi]]%(counted_all _ _ _ (ok_counted w Hok)); [by left|]. right. exists l. split; [done|].
    destruct (held_owned _ _ (ok_held w Hok) i l Hi) as (h & hd & Hh & Ho).
    destruct (held_lives _ _ (ok_held w Hok) h hd i Hh Ho) as (l' & Hi' & Hl & _).
    rewrite Hi in Hi'. injection Hi' as <-. split; [by apply (loaded_by_handle w h hd)|]. exists h, hd.
    split; [done|]. split; [done|]. intros h' hd' Hh' Ho'. by apply (held_once _ _ (ok_held w Hok) h' h hd' hd i). }
  split; [|split; [|split; [exact Hall|split]]].
  - intros op Hs. destruct (operation_ok w op Hok Hs) as (w' & -> & _). by exists w'.
  - apply (ok_counted w Hok).
  - intros i Hi. split; [|by apply (counted_gone _ _ _ (ok_counted w Hok))].
    apply (counted_all _ _ _ (ok_counted w Hok)). by left.
  - intros He i Hi. destruct (Hall i Hi) as [?|(l & _ & _ & h & hd & Hh & _)]; [done|].
    rewrite He in Hh. by rewrite lookup_empty in Hh.
Qed.

(** *** A host at work *)

Definition run (w : World) (ops : list Op) : option World := foldl (fun w op => w ≫= fun w => apply w op) (Some w) ops.

(** A handle is created, its library object dropped, the handle moved, a second
    one swapped with it, and both are dropped. *)
Definition host_ops : list Op :=
  [Load 1; Create 1 1 true; DropLibrary 1; MoveHandle 2 1; Load 2; Create 3 2 true; Borrow 4 (Some 0) (Some 77) (Some 0);
   AssignHandle 2 3; DropHandle 2; DropHandle 3; DropHandle 4; DropHandle 1].

Fixpoint scoped (w : World) (ops : list Op) : Prop :=
  match ops with
  | [] => True
  | op :: ops => in_scope w op /\ match apply w op with Some w => scoped w ops | None => False end
  end.

Lemma scoped_reachable ops : forall w, reachable w -> scoped w ops -> exists w', run w ops = Some w' /\ reachable w'.
Proof.
  unfold run. induction ops as [|op ops IH]; intros w Hw Hs; cbn [foldl scoped] in *; [by exists w|].
  destruct Hs as [Hin Hrest]. cbn [mbind option_bind]. destruct (apply w op) as [w1|] eqn:Ha; [|done].
  apply (IH w1); [by apply (reach_step w op)|done].
Qed.

Lemma instances_owned_witness : exists w, run start host_ops = Some w /\ destroyed w = [1; 0] /\ NoDup (destroyed w)
  /\ forall i, 0 <= i < 2 -> i ∈ destroyed w.
Proof.
  destruct (scoped_reachable host_ops start reach_start) as (w & Hrun & Hw).
  { cbn [host_ops scoped in_scope]. repeat (split; [repeat split; try done; try (by eexists); by intros l [= <-]|]); vm_compute. done. }
  exists w. split; [exact Hrun|]. destruct (instances_owned w Hw) as (_ & Hn & _ & _ & Hend).
  vm_compute in Hrun. apply (inj Some) in Hrun. subst w. split; [reflexivity|]. split; [exact Hn|].
  intros i Hi. apply Hend; [reflexivity|exact Hi].
Defined.
